(* ===== verification/_CoqProject ===== *)
-Q . S2P
Prelude.v
Utf8.v
Domain.v
Detect.v
Budget.v
Pool.v
DateTime.v
Timestamp.v
IsoOrder.v
Json.v
Value.v
Inspect.v
IndexMap.v
DomainInspector.v
ConfigValues.v
BodySize.v
Secrets.v
ContentType.v
Entropy.v
Chain.v
Coerce.v
Settings.v
Policy.v
PolicyRuns.v
Forms.v
FormsSplit.v
StreamRedact.v
Base64Rewrite.v
Message.v
AuditLog.v
Url.v
BodyCodec.v
Rules.v
RulesSpec.v
Injector.v
InjectorSpec.v
H1.v
H1Spec.v
H1Messages.v
Capture.v
CaptureSpec.v
Limits.v
Transport.v
Intercept.v
Engine.v
Text.v
StreamDecode.v
StreamSpec.v
FlowStream.v
Relay.v
Flow.v
Samples.v
EngineSpec.v
FlowSpec.v
MailRelay.v
Smtp.v
SmtpSpec.v
