(* ===== verification/Prelude.v ===== *)
(** agentcage: a verification of its egress proxy and of the core rules it shares
    with the host.

    An agent runs in a cage whose only way out is the egress proxy.  Every flow goes
    through it: the proxy decides whether the host may be reached, puts secrets in the
    place of placeholders for the hosts they are for, inspects what is sent, takes the
    secrets out of what comes back, and keeps an audit trail.  The cage is not trusted;
    what is proved here is mostly what holds whatever the cage, the upstream, the
    network and the decider do.

    * The parts and where they are modelled

    Sources are under src/rust/.  A file models the source file it names; its
    definitions carry the names of the Rust items, its types their variants and fields.

    Shared by host and egress (agentcage-core/src):
    - Domain.v: config/domain.rs - domain names, the addresses they may encode, what is
      a global address.
    - DateTime.v, Timestamp.v, IsoOrder.v: har/datetime.rs and the Timestamp of audit.rs
      - two readers of ISO 8601, and when comparing texts is comparing times.
    - Json.v: har/json.rs - the JSON reader and writer, on machine floats.
    - Value.v: the YAML tree of yaml/mod.rs, its readers and its text (value_fmt.rs).
    - Limits.v: config/egress.rs and limits.rs of the egress - memory limits.

    The transport (agentcage-egress/src/proxy):
    - Detect.v: detect.rs - TLS, plaintext HTTP or something else, on a growing buffer.
    - Budget.v: budget.rs - the counter of buffered bytes, shared by atomic operations.
    - Pool.v: pool.rs - idle connections and HTTP/2 sessions, one critical section each.
    - H1.v, H1Spec.v, H1Messages.v: h1.rs and the read buffer of io.rs.
    - Transport.v: mod.rs - the types and pure functions between transport and pipeline.
    - Intercept.v: conn.rs and upstream.rs - which connections are spliced uninspected: the
      peek, the passthrough decision, the resolved addresses, the peer guard.
    - Relay.v: relay_h1 of conn.rs - a streamed response on its way to the client.

    The pipeline (agentcage-egress/src):
    - Message.v: message.rs.  Utf8.v: the strict and the lossy decoder of the Rust
      library.  IndexMap.v: insertion-ordered maps.
    - Inspect.v: inspect/mod.rs - the contract of an inspector and the chain runner;
      DomainInspector.v, BodySize.v, Secrets.v, ContentType.v, Entropy.v: the inspectors
      of inspect/; ConfigValues.v: their configuration; Chain.v: the chain a
      configuration describes.
    - Policy.v, PolicyRuns.v, Coerce.v, Settings.v: policy/ - the API by which the cage
      asks for a domain, the decider's verdict, the grants and their file.
    - Forms.v, FormsSplit.v, Base64Rewrite.v, Rules.v, RulesSpec.v, Injector.v,
      InjectorSpec.v, Url.v: inject.rs - the spellings of a secret, the rules, injection
      and redaction.  StreamRedact.v: inject/stream.rs.
    - BodyCodec.v, Text.v: text.rs - Content-Encoding and charset.  StreamDecode.v,
      StreamSpec.v: text/stream.rs.
    - AuditLog.v: audit/ - records, sinks, writer and ring.  Capture.v, CaptureSpec.v:
      capture.rs.
    - Engine.v, EngineSpec.v: engine.rs - the live configuration and its reload, the rate
      limit, the hosts caught.
    - Flow.v, FlowStream.v, FlowSpec.v: flow.rs and flow/stream.rs - the steps of a flow.
    - MailRelay.v, Smtp.v, SmtpSpec.v: relays/ - what the mail relays share (rates, buffered
      lines, credentials, the session monad) and the SMTP relay, relays/smtp.rs.
    - Samples.v: one concrete world the examples run in.

    Prelude.v, this file, holds the notations, tactics, hints and generic lemmas.

    * How the parts meet

    A request goes [Flow.request] -> gates of [Engine] (control host, SNI and Host,
    caught hosts, rate) -> [Injector.check_injection_policy] -> [Chain] of inspectors
    over an [Inspect.Context] -> [Injector.inject_request] -> the transport.  A response
    goes back through [Flow.response] (buffered) or [Flow.stream_plan],
    [FlowStream.next_out] and [Relay.relay_h1] (streamed): decode, redact, tee into
    [Capture], write with [H1].  [Policy] changes the grants [DomainInspector] reads;
    [Engine.reload_if_changed] rebuilds chain, injector and policy from the file.

    The state the pipeline threads is [Engine.Engine]; [Flow.eff] is its monad: a step
    may fail, and at each await [others] - any function on engines - stands for what the
    other flows did meanwhile.  A closure run by a worker is one step: a worker may die
    (the flow fails closed), and two closures on one engine do not interleave because
    they hold its locks.  Shared counters ([Budget]) and pools have step relations with
    any number of tasks; the overlay ([PolicyRuns]) one with requests, removals, sweeps,
    reloads and outside edits.

    The SMTP relay stands beside the pipeline: [Smtp.handle_client] is a connection of the
    cage in the monad [MailRelay.session], whose world is the two readers, the rate
    limiter and a log of what was written and recorded; what the sockets, the clock and
    the other sessions do is [MailRelay.Env], a function of the step.  It runs the same
    [Inspect.run_chain] over a message.

    * What is shown

    - A flow (FlowSpec), whatever other flows do at its awaits: what leaves has passed
      every gate; the check and the injection, each by the rules of its moment, let no
      secret out to a host its rule does not cover ([injection.redact_to] hosts get the
      redacted message instead); a failure is answered and recorded, and a response's
      failure text quotes at most its Content-Encoding; what comes back is redacted; a
      name that only a grant allows never reaches an internal address.
    - Secrets (InjectorSpec, StreamRedact, Base64Rewrite, RulesSpec): the policy check
      decides exactly what it says; streaming redaction is the buffered one; blobs are
      searched for secrets of eight bytes or more; reload keeps the tokens, but for a kept
      transform that does not list its own.
    - Streaming (StreamSpec, Relay): decoding ends, does not depend on where the body is
      cut, and the client of a streamed response gets the redaction of the decoded body
      or its beginning.
    - Domains and grants (Policy, PolicyRuns, DomainInspector, Domain): nothing is granted
      without a verdict; grants are bounded in number and life; what counts as allowed.
    - Configuration (EngineSpec, Chain, Limits): a failed boot refuses everything, a
      failed reload changes nothing, and each slot of the chain gets its own inspector and
      its own configuration.
    - The wire (H1Spec, H1Messages, Transport, Detect): one framing per message, bodies
      read exactly, what is written is read back.  A connection is spliced uninspected
      only when its destination is on the passthrough list or is an address of a name that
      is (Intercept).
    - Records (AuditLog, CaptureSpec, Json): bounded files, whole lines, round trips.
    - Mail (SmtpSpec): a session ends, and sends the upstream nothing but the relay's own
      commands and messages the policy permits; a message cannot end early on the wire.
    - Resources (Budget, Pool, MailRelay): bytes are conserved and a grow, granted or
      refused, answers a value the counter had; leases are unique whatever the probes of
      a session say from step to step; no window grants more than the rate and the slots
      given back allow.

    * Bounds and fuel

    Integers keep their width where the code can reach it (u64 lengths, saturating and
    wrapping sums, u32 checksums); floats are SpecFloat binary64.  A loop that is not
    structural takes fuel.  Where the fuel is inside a definition it is enough:
    - the length of the data, one byte at least going each round: the JSON parser, the
      loops of Forms, Base64Rewrite, Url, Secrets, Text and of [zstd_loop];
    - [inflate_rounds n] = 1033 n + 1, since DEFLATE gives at most 1032 bytes for one, and
      [brotli_rounds n] = 2048 n + 1, since a bit of brotli gives at most 2^24 bytes and
      a round but the last fills 65536: [StreamSpec.decoding_ends];
    - the loops of MailRelay and Smtp, one read or line each: they take it from what is
      left to read, and [SmtpSpec.session_permitted] shows it enough;
    - the loops of H1, one read each: [S (io_size c)], and 3 rounds of [next_chunked].
    The loops of FlowStream and Relay take it as an argument and answer [None] without
    it; [Relay.streamed_as_buffered] gives an amount with which they return.

    * Interfaces

    Code that is not under src/ is a class: [Unicode], [Policy.UnicodeUpper], [F64Text],
    [StrDebug] (the standard library's tables and formatting), [Secrets.RegexEngine],
    [Text.BytesRegex], [Text.EncodingRs], [Forms.Crates] (memchr, base64,
    regex, aho-corasick),
    [BodyCodec.Codecs] (miniz, brotli and zstd decoders as state machines, with
    [StreamSpec.StreamLaws] from RFC 1951 and RFC 7932), [H1.HttpParse],
    [Entropy.Log2], [Chain.PluginLoader], [Secrets.Env], [Policy.OverlayFile],
    [Rules.Transforms], [Capture.MappingEq].  Each has a concrete instance the examples
    use.  Between components: [AuditSink] (who emits / who writes), [BodyReservation]
    (who buffers / the budget), [Limits.NumberText] (the settings / the number printer).

    * Modelling choices

    A clock is read once per call.  A file is what one read or write of it returns.
    Hash maps whose order is not observed are association lists; mutexes are the
    atomicity of an operation.  A CRC hasher is the bytes it was fed.  Text is the list of
    its code points, or of its UTF-8 bytes where the code slices at byte offsets.

    * Not modelled

    - agentcage-cli, -exec, -assets, -egress-embed, xtask, -e2e-mock, the plugin SDK:
      processes, terminals, files, build steps and test servers.
    - ca.rs, proxy/tls.rs, the accept loop, the rest of conn.rs and upstream.rs and the
      HTTP/2 and WebSocket codecs: rustls, h2, tungstenite and tokio do the work.
    - plugin.rs (wasmtime), transforms.rs (signing and HTTP), the watcher and llm.rs
      (calls to a language model), the prompt text.
    - the cache in front of the injector's forms: the same value, computed once.
    - quadlets, launchd and lima rendering: templates.
    - the IMAP relay's command filter, the relay manager, TLS to the upstream servers and
      the listener of a relay; a write to a socket that fails counts as nothing written.
    - config/parse.rs, validation of mounts and relay entries, the YAML emitter,
      fingerprints: host-side checks of the configuration file, whose results (rules,
      limits, inspector and relay entries) are the inputs of the modelled parts. *)
From stdpp Require Export base list gmap strings sorting.
From Stdlib Require Export ZArith Lia.

#[global] Open Scope Z_scope.

(** * Data: characters, strings, bytes *)

(** A Rust [&str] is modelled by its Unicode scalar values, a [&[u8]] by
    the values of its bytes; both are lists of integers. *)
Abbreviation str := (list Z).
Abbreviation bytes := (list Z).

(** String literals, for the constants of the source and for examples. *)
Definition lit (s : string) : list Z :=
  map (fun a => Z.of_N (Ascii.N_of_ascii a)) (String.list_ascii_of_string s).

(** [Result<A, E>]. *)
Inductive result (E A : Type) : Type :=
| Ok (a : A)
| Err (e : E).
Arguments Ok {E A} a.
Arguments Err {E A} e.

Declare Scope rust_scope.
Delimit Scope rust_scope with rust.

(** [?] on [Option] and on [Result]. *)
Notation "'let?' x := e 'in' k" :=
  (match e with Some x => k | None => None end)
  (at level 10, x pattern, e at level 200, k at level 200) : rust_scope.
Definition result_bind {E A B} (r : result E A) (k : A -> result E B) : result E B :=
  match r with Ok a => k a | Err e => Err e end.
Notation "'let!' x := e 'in' k" := (result_bind e (fun x => k))
  (at level 10, x pattern, e at level 200, k at level 200) : rust_scope.
#[global] Open Scope rust_scope.

(** [collect] of an iterator of results: the first error ends it. *)
Fixpoint collect {E A} (l : list (result E A)) : result E (list A) :=
  match l with
  | [] => Ok []
  | Ok a :: r => let! rest := collect r in Ok (a :: rest)
  | Err e :: _ => Err e
  end.

(** * Machine integers *)

Definition u8_max : Z := 255.
Definition u32_max : Z := 4294967295.
Definition u64_max : Z := 18446744073709551615.
(** [usize] on the 64-bit targets the program is built for. *)
Definition usize_max : Z := u64_max.

Definition saturating_add (max a b : Z) : Z := if max <? a + b then max else a + b.
Definition saturating_sub (a b : Z) : Z := if a <? b then 0 else a - b.
Definition checked_add (max a b : Z) : option Z := if max <? a + b then None else Some (a + b).

(** * ASCII classes *)

Definition in_range (lo hi c : Z) : bool := (lo <=? c) && (c <=? hi).
Definition is_ascii (c : Z) : bool := in_range 0 127 c.
Definition is_ascii_digit (c : Z) : bool := in_range 48 57 c.
Definition is_ascii_lowercase (c : Z) : bool := in_range 97 122 c.
Definition is_ascii_uppercase (c : Z) : bool := in_range 65 90 c.
Definition is_ascii_alphabetic (c : Z) : bool := is_ascii_lowercase c || is_ascii_uppercase c.
Definition is_ascii_alphanumeric (c : Z) : bool := is_ascii_alphabetic c || is_ascii_digit c.
Definition ascii_lower (c : Z) : Z := if is_ascii_uppercase c then c + 32 else c.
Definition eq_ignore_ascii_case (a b : bytes) : bool :=
  bool_decide (map ascii_lower a = map ascii_lower b).

(** * UTF-8 *)

Definition utf8_char (c : Z) : bytes :=
  if c <? 128 then [c]
  else if c <? 2048 then [192 + c / 64; 128 + c mod 64]
  else if c <? 65536 then [224 + c / 4096; 128 + (c / 64) mod 64; 128 + c mod 64]
  else [240 + c / 262144; 128 + (c / 4096) mod 64; 128 + (c / 64) mod 64; 128 + c mod 64].
Definition as_bytes (s : str) : bytes := flat_map utf8_char s.

(** * Sequences *)

(** [slice::starts_with] and [str::starts_with]. *)
Fixpoint starts_with (l p : list Z) {struct p} : bool :=
  match p, l with
  | [], _ => true
  | _ :: _, [] => false
  | b :: p', a :: l' => (a =? b) && starts_with l' p'
  end.

(** [split(sep)]: one piece more than there are separators. *)
Fixpoint split_on (sep : Z) (l : list Z) : list (list Z) :=
  match l with
  | [] => [[]]
  | c :: r =>
      if c =? sep then [] :: split_on sep r
      else match split_on sep r with
           | p :: ps => (c :: p) :: ps
           | [] => [[c]]
           end
  end.

(** The inverse, [join(sep)]. *)
Fixpoint join_with (sep : Z) (ps : list (list Z)) : list Z :=
  match ps with
  | [] => []
  | [p] => p
  | p :: r => p ++ sep :: join_with sep r
  end.

Definition drop_while_end (f : Z -> bool) (l : list Z) : list Z :=
  fold_right (fun c r => match r with [] => if f c then [] else [c] | _ => c :: r end) [] l.
(** [trim_end_matches(c)]. *)
Definition trim_end_matches (c : Z) (l : list Z) : list Z := drop_while_end (Z.eqb c) l.

(** The longest prefix of [l] satisfying [f], and what follows it. *)
Fixpoint span (f : Z -> bool) (l : list Z) : list Z * list Z :=
  match l with
  | [] => ([], [])
  | c :: r => if f c then let '(a, b) := span f r in (c :: a, b) else ([], c :: r)
  end.

(** Lexicographic order, [Ord for str] and [Ord for [u8]] (UTF-8 keeps the
    order of the scalar values). *)
Fixpoint str_compare (a b : list Z) : comparison :=
  match a, b with
  | [], [] => Eq
  | [], _ :: _ => Lt
  | _ :: _, [] => Gt
  | x :: a', y :: b' => match x ?= y with Eq => str_compare a' b' | c => c end
  end.
Definition str_leb (a b : list Z) : bool := match str_compare a b with Gt => false | _ => true end.
Definition str_ltb (a b : list Z) : bool := match str_compare a b with Lt => true | _ => false end.

(** * Decimal numbers *)

Definition digit_value (c : Z) : option Z :=
  if is_ascii_digit c then Some (c - 48) else None.
Fixpoint digits_value (max acc : Z) (l : list Z) : option Z :=
  match l with
  | [] => Some acc
  | c :: r =>
      let? d := digit_value c in
      if max <? acc * 10 + d then None else digits_value max (acc * 10 + d) r
  end.
(** [str::parse::<uN>()]: decimal digits, an optional leading [+], and an
    overflow error past [max]. *)
Definition parse_unsigned (max : Z) (s : str) : option Z :=
  match s with
  | [] => None
  | [c] => digits_value max 0 [c]
  | c :: r => if c =? 43 then digits_value max 0 r else digits_value max 0 s
  end.

(** [Display for uN]. *)
Fixpoint show_digits (fuel : nat) (n : Z) (acc : list Z) : list Z :=
  match fuel with
  | O => acc
  | S f => let acc' := (48 + n mod 10) :: acc in
           if n <? 10 then acc' else show_digits f (n / 10) acc'
  end.
Definition show_unsigned (n : Z) : str := show_digits (S (Z.to_nat (Z.log2 n))) n [].

Definition i32_max : Z := 2 ^ 31 - 1.
Definition i32_min : Z := - 2 ^ 31.
Definition i64_min : Z := - 2 ^ 63.
Definition i64_max : Z := 2 ^ 63 - 1.
Definition i64_checked (n : Z) : option Z :=
  if (i64_min <=? n) && (n <=? i64_max) then Some n else None.

(** [Display for iN], and [str::parse::<iN>] for a signed type of a range. *)
Definition show_signed (n : Z) : str := if n <? 0 then 45 :: show_unsigned (- n) else show_unsigned n.
Definition parse_signed (lo hi : Z) (s : str) : option Z :=
  match s with
  | c :: ((_ :: _) as r) =>
      if c =? 45 then let? n := digits_value (- lo) 0 r in Some (- n) else parse_unsigned hi s
  | _ => parse_unsigned hi s
  end.
Definition parse_i64 : str -> option Z := parse_signed i64_min i64_max.
Definition parse_i32 : str -> option Z := parse_signed i32_min i32_max.

(** [{n:0w}] for a non-negative [n]. *)
Definition pad (w : nat) (n : Z) : str :=
  let s := show_unsigned n in repeat 48 (w - length s) ++ s.

(** One lowercase hexadecimal digit. *)
Definition hex_digit (n : Z) : Z := if n <? 10 then 48 + n else 87 + n.
(** [{n:x}] for a non-negative [n]. *)
Fixpoint show_hex_digits (fuel : nat) (n : Z) (acc : list Z) : list Z :=
  match fuel with
  | O => acc
  | S f => let acc' := hex_digit (n mod 16) :: acc in
           if n <? 16 then acc' else show_hex_digits f (n / 16) acc'
  end.
Definition show_hex (n : Z) : str := show_hex_digits (S (Z.to_nat (Z.log2 n))) n [].
(** [char::to_digit(16)]. *)
Definition to_digit16 (c : Z) : option Z :=
  if is_ascii_digit c then Some (c - 48)
  else if in_range 97 102 c then Some (c - 87)
  else if in_range 65 70 c then Some (c - 55)
  else None.
(** [uN::from_str_radix(s, 16)]: a leading [+] is accepted, an overflow is not. *)
Fixpoint hex_digits_value (max acc : Z) (l : list Z) : option Z :=
  match l with
  | [] => Some acc
  | c :: r =>
      let? d := to_digit16 c in
      if max <? acc * 16 + d then None else hex_digits_value max (acc * 16 + d) r
  end.
Definition parse_hex (max : Z) (s : str) : option Z :=
  match s with
  | [] => None
  | [c] => hex_digits_value max 0 [c]
  | c :: r => if c =? 43 then hex_digits_value max 0 r else hex_digits_value max 0 s
  end.

(** [str::find] of a string (a byte offset, on bytes). *)
Fixpoint find_sub (needle hay : list Z) : option nat :=
  if starts_with hay needle then Some 0%nat
  else match hay with [] => None | _ :: r => let? n := find_sub needle r in Some (S n) end.

(** [str::split_once] at a character, and [join] on a slice of strings. *)
Definition split_once (c : Z) (s : str) : option (str * str) :=
  let '(a, r) := span (fun x => negb (x =? c)) s in
  match r with [] => None | _ :: b => Some (a, b) end.
Fixpoint sep_concat (sep : str) (l : list str) : str :=
  match l with
  | [] => []
  | [x] => x
  | x :: r => x ++ sep ++ sep_concat sep r
  end.

(** * Unicode tables of the standard library *)

(** [str::to_lowercase] on a string that is not plain ASCII consults the
    Unicode tables built into the standard library; they are an interface
    here, and only the ASCII part is computed. *)
Class Unicode := {
  unicode_lowercase : str -> str
}.

Section Lowercase.
Context `{U : Unicode}.

Definition to_lowercase (s : str) : str :=
  if forallb is_ascii s then map ascii_lower s else unicode_lowercase s.

End Lowercase.

(** The ASCII-only tables, for the examples. *)
Definition ascii_unicode : Unicode := {| unicode_lowercase := map ascii_lower |}.
(** [format!("{s:?}")]: the debug form of a string, which consults Unicode
    tables. *)
Class StrDebug := { debug_str : str -> str }.

(** * Tactics *)

(** Turns the boolean tests of the model into propositions, everywhere. *)
Ltac bool_prop :=
  repeat match goal with
  | H : _ && _ = true |- _ => apply andb_prop in H as [? ?]
  | H : _ || _ = false |- _ => apply orb_false_elim in H as [? ?]
  | H : negb _ = true |- _ => apply negb_true_iff in H
  | H : negb _ = false |- _ => apply negb_false_iff in H
  | H : (_ =? _) = true |- _ => apply Z.eqb_eq in H
  | H : (_ =? _) = false |- _ => apply Z.eqb_neq in H
  | H : (_ <=? _) = true |- _ => apply Z.leb_le in H
  | H : (_ <=? _) = false |- _ => apply Z.leb_gt in H
  | H : (_ <? _) = true |- _ => apply Z.ltb_lt in H
  | H : (_ <? _) = false |- _ => apply Z.ltb_ge in H
  | H : Nat.eqb _ _ = true |- _ => apply Nat.eqb_eq in H
  | H : Nat.eqb _ _ = false |- _ => apply Nat.eqb_neq in H
  | H : Nat.ltb _ _ = true |- _ => apply Nat.ltb_lt in H
  | H : Nat.ltb _ _ = false |- _ => apply Nat.ltb_ge in H
  | H : Nat.leb _ _ = true |- _ => apply Nat.leb_le in H
  | H : Nat.leb _ _ = false |- _ => apply Nat.leb_gt in H
  | H : bool_decide _ = true |- _ => apply bool_decide_eq_true in H
  | H : bool_decide _ = false |- _ => apply bool_decide_eq_false in H
  end.

(** Case analysis on the innermost [match] of a hypothesis or of the goal,
    keeping the equation. *)
Ltac case_in H :=
  match type of H with
  | context [match ?e with _ => _ end] =>
      lazymatch e with
      | context [match _ with _ => _ end] => fail
      | _ => let E := fresh "E" in destruct e eqn:E
      end
  end.
Ltac case_goal :=
  match goal with
  | |- context [match ?e with _ => _ end] =>
      lazymatch e with
      | context [match _ with _ => _ end] => fail
      | _ => let E := fresh "E" in destruct e eqn:E
      end
  end.

(** Every boolean comparison of the goal decided by [lia]. *)
Ltac decide_cmp :=
  repeat match goal with
  | |- context [?a =? ?b] =>
      first [ rewrite (proj2 (Z.eqb_eq a b)) by lia | rewrite (proj2 (Z.eqb_neq a b)) by lia ]
  | |- context [?a <=? ?b] =>
      first [ rewrite (proj2 (Z.leb_le a b)) by lia | rewrite (proj2 (Z.leb_gt a b)) by lia ]
  | |- context [?a <? ?b] =>
      first [ rewrite (proj2 (Z.ltb_lt a b)) by lia | rewrite (proj2 (Z.ltb_ge a b)) by lia ]
  end.

Create HintDb rust.

(** * Lemmas *)

Lemma in_range_spec lo hi c : in_range lo hi c = true <-> lo <= c <= hi.
Proof. unfold in_range. rewrite andb_true_iff, !Z.leb_le. tauto. Qed.

Lemma forallb_Forall {A} (f : A -> bool) l : forallb f l = true <-> Forall (fun c => f c = true) l.
Proof. rewrite forallb_forall, List.Forall_forall. reflexivity. Qed.

Lemma existsb_elem {A} (f : A -> bool) l : existsb f l = true <-> exists x, x ∈ l /\ f x = true.
Proof. rewrite existsb_exists. split; intros (x & Hx & Hf); exists x; by rewrite ?list_elem_of_In in *. Qed.

Lemma existsb_false_Forall {A} (f : A -> bool) l :
  existsb f l = false <-> Forall (fun c => f c = false) l.
Proof.
  induction l as [|x l IH]; simpl; [split; auto|].
  rewrite orb_false_iff, Forall_cons, IH. reflexivity.
Qed.

(** ** Splitting and joining *)

Lemma split_on_nonempty sep l : split_on sep l <> [].
Proof. destruct l as [|c l]; simpl; [congruence|]. repeat case_goal; congruence. Qed.

Lemma join_split sep l : join_with sep (split_on sep l) = l.
Proof.
  induction l as [|c l IH]; [reflexivity|]. simpl.
  destruct (split_on sep l) as [|p ps] eqn:Es; [destruct (split_on_nonempty sep l Es)|].
  destruct (Z.eqb_spec c sep) as [->|_].
  - change (join_with sep ([] :: p :: ps)) with (sep :: join_with sep (p :: ps)). congruence.
  - destruct ps; simpl in *; congruence.
Qed.

Lemma split_on_no_sep sep l : Forall (fun p => sep ∉ p) (split_on sep l).
Proof.
  induction l as [|c l IH]; simpl; [repeat constructor; set_solver|].
  destruct (Z.eqb_spec c sep) as [->|Hne].
  - constructor; [set_solver|exact IH].
  - destruct (split_on sep l) as [|p ps]; [repeat constructor; set_solver|].
    inversion IH; subst. constructor; [set_solver|assumption].
Qed.

Lemma split_on_piece sep p l : sep ∉ p ->
  split_on sep (p ++ sep :: l) = p :: split_on sep l.
Proof.
  induction p as [|c p IH]; simpl; intros Hp.
  - rewrite Z.eqb_refl. reflexivity.
  - rewrite (proj2 (Z.eqb_neq c sep)) by set_solver. rewrite IH by set_solver. reflexivity.
Qed.

Lemma split_on_alone sep p : sep ∉ p -> split_on sep p = [p].
Proof.
  induction p as [|c p IH]; simpl; intros Hp; [reflexivity|].
  rewrite (proj2 (Z.eqb_neq c sep)) by set_solver. rewrite IH by set_solver. reflexivity.
Qed.

Lemma split_join sep ps : ps <> [] -> Forall (fun p => sep ∉ p) ps ->
  split_on sep (join_with sep ps) = ps.
Proof.
  intros Hne Hps. induction Hps as [|p ps Hp Hps IH]; [congruence|].
  destruct ps as [|q ps]; [exact (split_on_alone sep p Hp)|].
  change (join_with sep (p :: q :: ps)) with (p ++ sep :: join_with sep (q :: ps)).
  rewrite split_on_piece by exact Hp. rewrite IH by congruence. reflexivity.
Qed.

Lemma elem_of_join sep ps c : c ∈ join_with sep ps -> c = sep \/ exists p, p ∈ ps /\ c ∈ p.
Proof.
  induction ps as [|p [|q ps] IH]; intros H; [set_solver|right; exists p; set_solver|].
  change (join_with sep (p :: q :: ps)) with (p ++ sep :: join_with sep (q :: ps)) in H.
  rewrite elem_of_app, elem_of_cons in H. destruct H as [H|[->|H]]; [|auto|].
  - right. exists p. set_solver.
  - destruct (IH H) as [?|(r & ? & ?)]; [auto|right; exists r; set_solver].
Qed.

(** ** Prefix runs *)

Lemma span_app f l a b : span f l = (a, b) -> l = a ++ b.
Proof.
  revert a b; induction l as [|c l IH]; simpl; intros a b H; [by injection H as <- <-|].
  destruct (f c); [|by injection H as <- <-].
  destruct (span f l) as [x y]. injection H as <- <-. simpl. by rewrite (IH x y).
Qed.

Lemma span_all f l a b : span f l = (a, b) -> Forall (fun c => f c = true) a.
Proof.
  revert a b; induction l as [|c l IH]; simpl; intros a b H; [injection H as <- <-; auto|].
  destruct (f c) eqn:Ec; [|injection H as <- <-; auto].
  destruct (span f l) as [x y]. injection H as <- <-. constructor; eauto.
Qed.

Lemma span_run f l r : Forall (fun c => f c = true) l ->
  match r with [] => True | c :: _ => f c = false end ->
  span f (l ++ r) = (l, r).
Proof.
  intros Hl Hr. induction Hl as [|c l Hc Hl IH]; simpl.
  - destruct r as [|c r]; simpl; [reflexivity|by rewrite Hr].
  - by rewrite Hc, IH.
Qed.

Lemma split_once_app c a b : c ∉ a -> split_once c (a ++ c :: b) = Some (a, b).
Proof.
  intros Ha. unfold split_once.
  assert (E : span (fun x => negb (x =? c)) (a ++ c :: b) = (a, c :: b)); [|by rewrite E].
  induction a as [|x a IH]; cbn [app span]; [by rewrite Z.eqb_refl|].
  assert ((x =? c) = false) as -> by (apply Z.eqb_neq; set_solver). cbn [negb]. rewrite IH by set_solver. reflexivity.
Qed.
Lemma split_once_none c a : c ∉ a -> split_once c a = None.
Proof.
  intros Ha. unfold split_once. rewrite <- (app_nil_r a), span_run; [done| |done].
  apply Forall_forall. intros x Hx. apply negb_true_iff, Z.eqb_neq. by intros ->.
Qed.

(** ** UTF-8 *)

(** ** Substrings *)

Lemma starts_with_prefix l p : starts_with l p = true <-> exists r, l = p ++ r.
Proof.
  revert l. induction p as [|x p IH]; intros l; [split; [by exists l|done]|].
  destruct l as [|y l]; cbn [starts_with]; [split; [discriminate|by intros (r & ?)]|].
  rewrite andb_true_iff, IH, Z.eqb_eq. split.
  - intros [-> (r & ->)]. by exists r.
  - intros (r & E). injection E as -> ->. split; [reflexivity|by exists r].
Qed.

(** The offset found is that of the first occurrence. *)
Lemma find_sub_spec needle hay :
  match find_sub needle hay with
  | Some n => (exists r, drop n hay = needle ++ r) /\ (n <= length hay)%nat /\
              forall k, (k < n)%nat -> starts_with (drop k hay) needle = false
  | None => forall k, starts_with (drop k hay) needle = false
  end.
Proof.
  induction hay as [|c hay IH]; cbn [find_sub];
    match goal with |- context [if ?b then _ else _] => destruct b eqn:E end.
  - apply starts_with_prefix in E as (r & E). repeat split; [by exists r|cbn; lia|lia].
  - intros k. by rewrite drop_nil.
  - apply starts_with_prefix in E as (r & E). repeat split; [by exists r|cbn; lia|lia].
  - destruct (find_sub needle hay) as [n|].
    + destruct IH as (Hr & Hn & Hk). repeat split; [exact Hr|cbn; lia|]. intros [|k] Hlt; [exact E|]. apply Hk. lia.
    + intros [|k]; [exact E|apply IH].
Qed.

Lemma utf8_char_ascii c : c < 128 -> utf8_char c = [c].
Proof. intros H. unfold utf8_char. by decide_cmp. Qed.

Lemma as_bytes_app a b : as_bytes (a ++ b) = as_bytes a ++ as_bytes b.
Proof. apply flat_map_app. Qed.
Lemma as_bytes_ascii s : Forall (fun c => c < 128) s -> as_bytes s = s.
Proof.
  induction 1 as [|c s Hc Hs IH]; [reflexivity|].
  unfold as_bytes in *. simpl. by rewrite utf8_char_ascii, IH.
Qed.

Lemma utf8_char_high c : 128 <= c -> Exists (fun b => 128 <= b) (utf8_char c).
Proof.
  intros H. unfold utf8_char. rewrite (proj2 (Z.ltb_ge c 128)) by lia.
  repeat case_goal; apply Exists_cons_hd;
    match goal with |- context [c / ?d] => pose proof (Z.div_pos c d); lia end.
Qed.

Lemma as_bytes_ascii_inv s : Forall (fun b => b < 128) (as_bytes s) -> as_bytes s = s.
Proof.
  intros H. apply as_bytes_ascii. induction s as [|c s IH]; [constructor|].
  unfold as_bytes in H. simpl in H. apply Forall_app in H as [Hc Hs].
  constructor; [|exact (IH Hs)].
  destruct (Z.lt_ge_cases c 128) as [?|Hge]; [assumption|].
  pose proof (utf8_char_high c Hge) as He. apply Exists_exists in He as (b & Hb & Hb').
  rewrite Forall_forall in Hc. specialize (Hc b Hb). lia.
Qed.

(** ** Trimming *)

Lemma trim_end_app c l r : last l <> Some c ->
  l <> [] -> trim_end_matches c (l ++ r) = l ++ trim_end_matches c r.
Proof.
  intros Hl Hne. unfold trim_end_matches, drop_while_end.
  rewrite fold_right_app. set (t := fold_right _ [] r). clearbody t.
  induction l as [|x l IH]; [congruence|]. simpl.
  destruct l as [|y l].
  - simpl in *. destruct t; [|reflexivity].
    destruct (Z.eqb_spec c x); [congruence|reflexivity].
  - rewrite IH by (simpl in *; congruence). reflexivity.
Qed.

Lemma trim_end_cons c x r : x <> c -> trim_end_matches c (x :: r) = x :: trim_end_matches c r.
Proof. intros H. apply (trim_end_app c [x] r); simpl; congruence. Qed.

(** ** Bits *)

(** A disjunction of disjoint fields is their sum. *)
Lemma lor_shiftl_add a b k : 0 <= k -> 0 <= b < 2 ^ k -> Z.lor (Z.shiftl a k) b = a * 2 ^ k + b.
Proof.
  intros Hk Hb. rewrite <- Z.shiftl_mul_pow2 by lia.
  assert (Hhigh : forall j, k <= j -> Z.testbit b j = false).
  { intros j Hj. rewrite <- (Z.mod_small b (2 ^ k)) by lia. by apply Z.mod_pow2_bits_high. }
  assert (Hland : Z.land (Z.shiftl a k) b = 0).
  { apply Z.bits_inj'. intros j Hj. rewrite Z.land_spec, Z.bits_0.
    destruct (Z.lt_ge_cases j k).
    - by rewrite Z.shiftl_spec_low by lia.
    - by rewrite Hhigh, andb_false_r by lia. }
  rewrite (Z.add_nocarry_lxor _ _ Hland). apply Z.bits_inj'. intros i Hi.
  rewrite Z.lor_spec, Z.lxor_spec. destruct (Z.lt_ge_cases i k).
  - rewrite Z.shiftl_spec_low by lia. by destruct (Z.testbit b i).
  - rewrite Hhigh by lia. by rewrite orb_false_r, xorb_false_r.
Qed.

(** ** Decimal numbers *)

(** The value of a run of digits, read left to right. *)
Definition dec_value (acc : Z) (l : str) : Z := fold_left (fun a c => a * 10 + (c - 48)) l acc.

Lemma dec_value_app acc a b : dec_value acc (a ++ b) = dec_value (dec_value acc a) b.
Proof. apply fold_left_app. Qed.

Lemma dec_value_mono l acc : 0 <= acc -> Forall (fun c => is_ascii_digit c = true) l ->
  acc <= dec_value acc l.
Proof.
  revert acc. induction l as [|c l IH]; intros acc Ha Hl; [unfold dec_value; simpl; lia|].
  apply Forall_cons in Hl as [Hc Hl]. apply in_range_spec in Hc.
  etransitivity; [|apply IH; [lia|exact Hl]]. lia.
Qed.

Lemma digits_value_spec max acc l : 0 <= acc ->
  Forall (fun c => is_ascii_digit c = true) l -> dec_value acc l <= max ->
  digits_value max acc l = Some (dec_value acc l).
Proof.
  revert acc. induction l as [|c l IH]; intros acc Ha Hl Hm; [reflexivity|].
  apply Forall_cons in Hl as [Hc Hl]. pose proof Hc as Hr. apply in_range_spec in Hr.
  cbn [digits_value]. unfold digit_value. rewrite Hc.
  change (dec_value acc (c :: l)) with (dec_value (acc * 10 + (c - 48)) l) in *.
  pose proof (dec_value_mono l (acc * 10 + (c - 48)) ltac:(lia) Hl).
  rewrite (proj2 (Z.ltb_ge _ _)) by lia. apply IH; auto; lia.
Qed.

Lemma parse_unsigned_digits max l : l <> [] ->
  Forall (fun c => is_ascii_digit c = true) l -> dec_value 0 l <= max ->
  parse_unsigned max l = Some (dec_value 0 l).
Proof.
  intros Hn Hl Hm. rewrite <- (digits_value_spec max 0 l) by (auto; lia).
  destruct l as [|c [|d l]]; [congruence|reflexivity|]. cbn [parse_unsigned].
  apply Forall_cons in Hl as [Hc _]. apply in_range_spec in Hc.
  by rewrite (proj2 (Z.eqb_neq c 43)) by lia.
Qed.

Lemma digits_value_nonneg max acc l n : digits_value max acc l = Some n -> 0 <= acc -> 0 <= n.
Proof.
  revert acc. induction l as [|c l IH]; cbn [digits_value]; intros acc H Ha; [by injection H as <-|].
  unfold digit_value in H. destruct (is_ascii_digit c) eqn:E; [|discriminate]. apply in_range_spec in E.
  destruct (max <? _); [discriminate|]. apply IH in H; lia.
Qed.

Lemma parse_unsigned_nonneg max l n : parse_unsigned max l = Some n -> 0 <= n.
Proof.
  destruct l as [|c [|d l]]; cbn [parse_unsigned]; intros H; [discriminate|..|destruct (c =? 43)];
    by apply digits_value_nonneg in H.
Qed.

Lemma show_digits_spec fuel n acc : 0 <= n < 2 ^ Z.of_nat fuel -> exists ds,
  show_digits fuel n acc = ds ++ acc /\ Forall (fun c => is_ascii_digit c = true) ds /\
  dec_value 0 ds = n /\ (forall w, (0 < w)%nat -> n < 10 ^ Z.of_nat w -> (length ds <= w)%nat) /\
  (fuel <> 0%nat -> ds <> []).
Proof.
  revert n acc. induction fuel as [|f IH]; intros n acc Hn.
  { exists []. change (2 ^ Z.of_nat 0) with 1 in Hn. unfold dec_value. simpl.
    repeat split; auto; try lia. }
  cbn [show_digits]. pose proof (Z.mod_pos_bound n 10 ltac:(lia)).
  assert (Hd : is_ascii_digit (48 + n mod 10) = true) by (apply in_range_spec; lia).
  destruct (n <? 10) eqn:E.
  - apply Z.ltb_lt in E. exists [48 + n mod 10]. split; [reflexivity|].
    split; [by constructor|]. rewrite Z.mod_small by lia. unfold dec_value. simpl.
    split; [lia|]. split; [intros; lia|congruence].
  - apply Z.ltb_ge in E. pose proof (Z.div_mod n 10 ltac:(lia)).
    rewrite Nat2Z.inj_succ, Z.pow_succ_r in Hn by lia.
    destruct (IH (n / 10) ((48 + n mod 10) :: acc) ltac:(lia)) as (ds & -> & Hds & Hv & Hl & _).
    exists (ds ++ [48 + n mod 10]). split; [by rewrite <- app_assoc|].
    split; [apply Forall_app; split; [exact Hds|by constructor]|].
    split; [rewrite dec_value_app, Hv; unfold dec_value; simpl; lia|].
    split; [|intros _ Hc; by apply app_nil in Hc as [_ ?]].
    intros w Hw Hnw. rewrite length_app. simpl. destruct w as [|w]; [lia|].
    rewrite Nat2Z.inj_succ, Z.pow_succ_r in Hnw by lia. destruct w as [|w].
    { change (10 ^ Z.of_nat 0) with 1 in Hnw. lia. }
    specialize (Hl (S w) ltac:(lia) ltac:(lia)). lia.
Qed.

Lemma show_unsigned_spec n : 0 <= n ->
  Forall (fun c => is_ascii_digit c = true) (show_unsigned n) /\
  dec_value 0 (show_unsigned n) = n /\ show_unsigned n <> [] /\
  (forall w, (0 < w)%nat -> n < 10 ^ Z.of_nat w -> (length (show_unsigned n) <= w)%nat).
Proof.
  intros Hn. unfold show_unsigned.
  destruct (show_digits_spec (S (Z.to_nat (Z.log2 n))) n []) as (ds & E & H1 & H2 & H3 & H4).
  { rewrite Nat2Z.inj_succ, Z2Nat.id by apply Z.log2_nonneg.
    destruct (Z.eq_dec n 0) as [->|]; [vm_compute; split; congruence|].
    pose proof (Z.log2_spec n ltac:(lia)). lia. }
  rewrite app_nil_r in E. rewrite E. auto.
Qed.

Lemma dec_value_linear l acc : dec_value acc l = acc * 10 ^ Z.of_nat (length l) + dec_value 0 l.
Proof.
  revert acc. induction l as [|c l IH]; intros acc; [unfold dec_value; simpl; lia|].
  change (dec_value acc (c :: l)) with (dec_value (acc * 10 + (c - 48)) l).
  change (dec_value 0 (c :: l)) with (dec_value (0 * 10 + (c - 48)) l).
  rewrite (IH (acc * 10 + _)), (IH (0 * 10 + _)). cbn [length].
  rewrite Nat2Z.inj_succ, Z.pow_succ_r by lia. lia.
Qed.

Lemma dec_value_trailing_zeros l k : dec_value 0 (l ++ repeat 48 k) = dec_value 0 l * 10 ^ Z.of_nat k.
Proof.
  rewrite dec_value_app, dec_value_linear, repeat_length.
  assert (dec_value 0 (repeat 48 k) = 0) as -> by (induction k; auto). lia.
Qed.

Lemma dec_value_zeros k l : dec_value 0 (repeat 48 k ++ l) = dec_value 0 l.
Proof. rewrite dec_value_app. f_equal. induction k; auto. Qed.

(** ** Hexadecimal numbers *)

Lemma to_digit16_hex_digit n : 0 <= n < 16 -> to_digit16 (hex_digit n) = Some n.
Proof.
  intros Hn. unfold to_digit16, hex_digit, is_ascii_digit, in_range.
  destruct (Z.ltb_spec n 10).
  - assert (((48 <=? 48 + n) && (48 + n <=? 57)) = true) as -> by lia. f_equal. lia.
  - assert (((48 <=? 87 + n) && (87 + n <=? 57)) = false) as -> by lia.
    assert (((97 <=? 87 + n) && (87 + n <=? 102)) = true) as -> by lia. f_equal. lia.
Qed.

Lemma hex_digit_range n : 0 <= n < 16 -> 48 <= hex_digit n <= 57 \/ 97 <= hex_digit n <= 102.
Proof. intros Hn. unfold hex_digit. destruct (Z.ltb_spec n 10); lia. Qed.

Lemma show_hex_digits_read max fuel n acc : 0 <= n < 2 ^ Z.of_nat fuel -> n <= max ->
  Forall (fun c => 48 <= c <= 57 \/ 97 <= c <= 102) acc ->
  Forall (fun c => 48 <= c <= 57 \/ 97 <= c <= 102) (show_hex_digits fuel n acc)
  /\ hex_digits_value max 0 (show_hex_digits fuel n acc) = hex_digits_value max n acc.
Proof.
  revert n acc. induction fuel as [|fuel IH]; intros n acc Hn Hm Ha; [change (2 ^ Z.of_nat 0) with 1 in Hn; by replace n with 0 by lia|].
  rewrite Nat2Z.inj_succ, Z.pow_succ_r in Hn by lia. cbn [show_hex_digits].
  pose proof (Z.mod_pos_bound n 16 ltac:(lia)). pose proof (Z.div_mod n 16 ltac:(lia)).
  assert (Ha' : Forall (fun c => 48 <= c <= 57 \/ 97 <= c <= 102) (hex_digit (n mod 16) :: acc)) by (constructor; [by apply hex_digit_range|done]).
  assert (He : forall k, k * 16 + n mod 16 = n -> hex_digits_value max k (hex_digit (n mod 16) :: acc) = hex_digits_value max n acc).
  { intros k Hk. cbn [hex_digits_value]. rewrite to_digit16_hex_digit by lia. rewrite Hk. by rewrite (proj2 (Z.ltb_ge _ _)) by lia. }
  destruct (Z.ltb_spec n 16); [split; [done|apply He; rewrite Z.mod_small by lia; lia]|].
  assert (0 <= n / 16) by (apply Z.div_pos; lia).
  destruct (IH (n / 16) (hex_digit (n mod 16) :: acc)) as [Hd Hv]; [lia|lia|done|]. split; [done|]. rewrite Hv. apply He. lia.
Qed.
Lemma show_hex_digits_length fuel n acc : (length acc < length (show_hex_digits (S fuel) n acc))%nat.
Proof.
  revert n acc. induction fuel as [|fuel IH]; intros n acc; cbn [show_hex_digits]; destruct (n <? 16); try (cbn; lia).
  specialize (IH (n / 16) (hex_digit (n mod 16) :: acc)). cbn [show_hex_digits length] in *. lia.
Qed.
Lemma show_hex_spec max n : 0 <= n <= max ->
  parse_hex max (show_hex n) = Some n /\ show_hex n <> [] /\ Forall (fun c => 48 <= c <= 57 \/ 97 <= c <= 102) (show_hex n).
Proof.
  intros Hn. unfold show_hex. pose proof (show_hex_digits_length (Z.to_nat (Z.log2 n)) n []) as Hl.
  destruct (show_hex_digits_read max (S (Z.to_nat (Z.log2 n))) n []) as [Hf Hv]; [|lia|constructor|].
  { rewrite Nat2Z.inj_succ, Z2Nat.id by apply Z.log2_nonneg.
    destruct (Z.eq_dec n 0) as [->|]; [vm_compute; split; congruence|]. pose proof (Z.log2_spec n ltac:(lia)). lia. }
  destruct (show_hex_digits _ n []) as [|c [|d l]]; [cbn in Hl; lia| |]; (split; [|split; [done|exact Hf]]); [exact Hv|].
  cbn [parse_hex]. apply Forall_cons in Hf as [Hc _]. by rewrite (proj2 (Z.eqb_neq c 43)) by lia.
Qed.

(** ** Sums over finite maps *)

Section MapSum.
Context {K A : Type} `{Countable K}.
Implicit Types (m : gmap K A) (w : A -> Z).

(** The sum of the weights of the values. *)
Definition wsum w m : Z := map_fold (fun _ x acc => w x + acc) 0 m.

Lemma wsum_empty w : wsum w ∅ = 0.
Proof. unfold wsum. by rewrite map_fold_empty. Qed.

Lemma wsum_insert w m k x : m !! k = None -> wsum w (<[k := x]> m) = w x + wsum w m.
Proof. intros Hk. unfold wsum. rewrite map_fold_insert_L; [reflexivity|intros; lia|exact Hk]. Qed.

Lemma wsum_lookup w m k x : m !! k = Some x -> wsum w m = w x + wsum w (delete k m).
Proof.
  intros Hk. rewrite <- (insert_id m k x Hk) at 1. rewrite <- insert_delete_eq.
  apply wsum_insert. apply lookup_delete_eq.
Qed.

Lemma wsum_replace w m k x y : m !! k = Some x -> wsum w (<[k := y]> m) = wsum w m - w x + w y.
Proof.
  intros Hk. rewrite (wsum_lookup w m k x Hk). rewrite <- insert_delete_eq.
  rewrite wsum_insert by apply lookup_delete_eq. lia.
Qed.

Lemma wsum_delete w m k x : m !! k = Some x -> wsum w (delete k m) = wsum w m - w x.
Proof. intros Hk. rewrite (wsum_lookup w m k x Hk). lia. Qed.

Lemma wsum_nonneg w m : (forall x, 0 <= w x) -> 0 <= wsum w m.
Proof.
  intros Hw. induction m as [|k x m Hk IH] using map_ind; [rewrite wsum_empty; lia|].
  rewrite wsum_insert by exact Hk. specialize (Hw x). lia.
Qed.

Lemma wsum_ext w w' m : (forall x, w x = w' x) -> wsum w m = wsum w' m.
Proof.
  intros E. induction m as [|k x m Hk IH] using map_ind; [rewrite !wsum_empty; lia|].
  rewrite !wsum_insert by exact Hk. rewrite E. lia.
Qed.

Lemma wsum_sub w w' m : wsum (fun x => w x - w' x) m = wsum w m - wsum w' m.
Proof.
  induction m as [|k x m Hk IH] using map_ind; [rewrite !wsum_empty; lia|].
  rewrite !wsum_insert by exact Hk. lia.
Qed.

End MapSum.

Lemma wsum_omap {K A B} `{Countable K} (g : A -> option B) (w : B -> Z) (m : gmap K A) :
  wsum w (omap g m) = wsum (fun x => match g x with Some y => w y | None => 0 end) m.
Proof.
  induction m as [|k x m Hk IH] using map_ind; [rewrite omap_empty, !wsum_empty; reflexivity|].
  rewrite wsum_insert by exact Hk. rewrite <- IH.
  assert (Hn : omap g m !! k = None) by (rewrite lookup_omap, Hk; reflexivity).
  destruct (g x) as [y|] eqn:Eg.
  - rewrite (omap_insert_Some _ _ _ _ y) by exact Eg. by apply wsum_insert.
  - rewrite omap_insert_None by exact Eg. rewrite delete_id by exact Hn. lia.
Qed.
