(* ===== verification/Utf8.v ===== *)
(** UTF-8 as the standard library decodes it: [str::from_utf8] (strict) and
    [String::from_utf8_lossy] (each maximal ill-formed prefix becomes one
    U+FFFD), with the white space the [trim] family removes. *)
From S2P Require Import Prelude.
From Stdlib Require Import ZifyBool.

(** * Definitions *)

Definition is_cont (b : Z) : bool := in_range 128 191 b.

(** Which second byte may follow a three or four byte lead. *)
Definition second_ok3 (b c : Z) : bool :=
  if b =? 224 then in_range 160 191 c
  else if b =? 237 then in_range 128 159 c
  else is_cont c.
Definition second_ok4 (b c : Z) : bool :=
  if b =? 240 then in_range 144 191 c
  else if b =? 244 then in_range 128 143 c
  else is_cont c.

(** The scalar values of [l], [None] standing for an ill-formed piece. *)
Fixpoint utf8_decode (l : bytes) : list (option Z) :=
  match l with
  | [] => []
  | b :: r =>
      if b <? 128 then Some b :: utf8_decode r
      else if in_range 194 223 b then
        match r with
        | c :: r1 =>
            if is_cont c then Some ((b - 192) * 64 + (c - 128)) :: utf8_decode r1
            else None :: utf8_decode r
        | [] => [None]
        end
      else if in_range 224 239 b then
        match r with
        | c :: r1 =>
            if second_ok3 b c then
              match r1 with
              | d :: r2 =>
                  if is_cont d
                  then Some (((b - 224) * 64 + (c - 128)) * 64 + (d - 128)) :: utf8_decode r2
                  else None :: utf8_decode r1
              | [] => [None]
              end
            else None :: utf8_decode r
        | [] => [None]
        end
      else if in_range 240 244 b then
        match r with
        | c :: r1 =>
            if second_ok4 b c then
              match r1 with
              | d :: r2 =>
                  if is_cont d then
                    match r2 with
                    | e :: r3 =>
                        if is_cont e
                        then Some ((((b - 240) * 64 + (c - 128)) * 64 + (d - 128)) * 64 + (e - 128))
                             :: utf8_decode r3
                        else None :: utf8_decode r2
                    | [] => [None]
                    end
                  else None :: utf8_decode r1
              | [] => [None]
              end
            else None :: utf8_decode r
        | [] => [None]
        end
      else None :: utf8_decode r
  end.

Fixpoint all_some (l : list (option Z)) : option (list Z) :=
  match l with
  | [] => Some []
  | None :: _ => None
  | Some c :: r => let? s := all_some r in Some (c :: s)
  end.

(** [str::from_utf8]. *)
Definition from_utf8 (l : bytes) : option str := all_some (utf8_decode l).
(** [String::from_utf8_lossy]. *)
Definition from_utf8_lossy (l : bytes) : str :=
  map (fun o => match o with Some c => c | None => 65533 end) (utf8_decode l).

(** [char::is_whitespace], the Unicode [White_Space] property. *)
Definition is_whitespace (c : Z) : bool :=
  in_range 9 13 c || (c =? 32) || (c =? 133) || (c =? 160) || (c =? 5760)
  || in_range 8192 8202 c || (c =? 8232) || (c =? 8233) || (c =? 8239)
  || (c =? 8287) || (c =? 12288).
(** [u8::is_ascii_whitespace]. *)
Definition is_ascii_whitespace (b : Z) : bool :=
  (b =? 9) || (b =? 10) || (b =? 12) || (b =? 13) || (b =? 32).

Fixpoint drop_while (f : Z -> bool) (l : list Z) : list Z :=
  match l with
  | [] => []
  | c :: r => if f c then drop_while f r else l
  end.
(** [str::trim_matches], [str::trim]. *)
Definition trim_matches (f : Z -> bool) (s : list Z) : list Z := drop_while_end f (drop_while f s).
Definition trim (s : str) : str := trim_matches is_whitespace s.

(** A Unicode scalar value. *)
Definition scalar (c : Z) : Prop := 0 <= c < 55296 \/ 57344 <= c < 1114112.

(** * Lemmas *)

Lemma drop_while_none f l : Forall (fun c => f c = false) l -> drop_while f l = l.
Proof. intros [|c r Hc _]; [done|]. cbn [drop_while]. by rewrite Hc. Qed.
Lemma drop_while_end_none f l : Forall (fun c => f c = false) l -> drop_while_end f l = l.
Proof.
  intros Hl. induction Hl as [|c l Hc _ IH]; [done|]. unfold drop_while_end in *. cbn [fold_right]. rewrite IH. by destruct l; [rewrite Hc|].
Qed.
Lemma trim_matches_none f l : Forall (fun c => f c = false) l -> trim_matches f l = l.
Proof. intros Hl. unfold trim_matches. by rewrite drop_while_none, drop_while_end_none. Qed.

Lemma all_some_Forall l s : all_some l = Some s -> l = map Some s.
Proof.
  revert s; induction l as [|[c|] l IH]; simpl; intros s H; [by injection H as <-| |discriminate].
  destruct (all_some l) as [t|]; [|discriminate]. injection H as <-. simpl. by rewrite (IH t).
Qed.

Lemma all_some_map s : all_some (map Some s) = Some s.
Proof. induction s as [|c s IH]; simpl; [reflexivity|by rewrite IH]. Qed.

(** Decoding sequences whose bytes are in range. *)
Lemma decode2 b c r : in_range 194 223 b = true -> is_cont c = true ->
  utf8_decode (b :: c :: r) = Some ((b - 192) * 64 + (c - 128)) :: utf8_decode r.
Proof.
  intros Hb Hc. cbn [utf8_decode]. rewrite Hb, Hc.
  replace (b <? 128) with false by (unfold in_range in *; lia). reflexivity.
Qed.

Lemma decode3 b c d r : in_range 224 239 b = true -> second_ok3 b c = true -> is_cont d = true ->
  utf8_decode (b :: c :: d :: r)
  = Some (((b - 224) * 64 + (c - 128)) * 64 + (d - 128)) :: utf8_decode r.
Proof.
  intros Hb Hc Hd. cbn [utf8_decode]. rewrite Hb, Hc, Hd.
  replace (b <? 128) with false by (unfold in_range in *; lia).
  replace (in_range 194 223 b) with false by (unfold in_range in *; lia). reflexivity.
Qed.

Lemma decode4 b c d e r : in_range 240 244 b = true -> second_ok4 b c = true ->
  is_cont d = true -> is_cont e = true ->
  utf8_decode (b :: c :: d :: e :: r)
  = Some ((((b - 240) * 64 + (c - 128)) * 64 + (d - 128)) * 64 + (e - 128)) :: utf8_decode r.
Proof.
  intros Hb Hc Hd He. cbn [utf8_decode]. rewrite Hb, Hc, Hd, He.
  replace (b <? 128) with false by (unfold in_range in *; lia).
  replace (in_range 194 223 b) with false by (unfold in_range in *; lia).
  replace (in_range 224 239 b) with false by (unfold in_range in *; lia). reflexivity.
Qed.

(** Closes the range conditions, splitting on the lead bytes that restrict
    the second byte. *)
Ltac second_byte :=
  unfold second_ok3, second_ok4;
  repeat match goal with |- (if ?a =? ?b then _ else _) = true => destruct (Z.eqb_spec a b) end;
  unfold is_cont, in_range; lia.

(** Decoding what one character encodes to. *)
Lemma utf8_decode_char c r : scalar c -> utf8_decode (utf8_char c ++ r) = Some c :: utf8_decode r.
Proof.
  unfold scalar. intros Hc. unfold utf8_char.
  destruct (Z.ltb_spec c 128) as [H1|H1].
  { cbn [app utf8_decode]. by decide_cmp. }
  pose proof (Z.div_mod c 64 ltac:(lia)) as E1. pose proof (Z.mod_pos_bound c 64 ltac:(lia)) as B1.
  destruct (Z.ltb_spec c 2048) as [H2|H2].
  { cbn [app]. rewrite decode2 by (unfold is_cont, in_range; lia). do 2 f_equal. lia. }
  pose proof (Z.div_mod (c / 64) 64 ltac:(lia)) as E2.
  pose proof (Z.mod_pos_bound (c / 64) 64 ltac:(lia)) as B2.
  replace (c / 4096) with (c / 64 / 64) by (rewrite Z.div_div by lia; reflexivity).
  destruct (Z.ltb_spec c 65536) as [H3|H3].
  { cbn [app]. rewrite decode3 by second_byte. do 2 f_equal. lia. }
  replace (c / 262144) with (c / 64 / 64 / 64) by (rewrite !Z.div_div by lia; reflexivity).
  pose proof (Z.div_mod (c / 64 / 64) 64 ltac:(lia)) as E3.
  pose proof (Z.mod_pos_bound (c / 64 / 64) 64 ltac:(lia)) as B3.
  cbn [app]. rewrite decode4 by second_byte. do 2 f_equal. lia.
Qed.

Lemma utf8_decode_as_bytes s : Forall scalar s -> utf8_decode (as_bytes s) = map Some s.
Proof.
  induction 1 as [|c s Hc Hs IH]; [reflexivity|].
  unfold as_bytes in *. simpl. by rewrite utf8_decode_char, IH.
Qed.

(** Encoding a valid string and decoding it, strictly or not, gives it back. *)
Lemma from_utf8_as_bytes s : Forall scalar s -> from_utf8 (as_bytes s) = Some s.
Proof. intros H. unfold from_utf8. rewrite utf8_decode_as_bytes by exact H. apply all_some_map. Qed.

Lemma from_utf8_lossy_as_bytes s : Forall scalar s -> from_utf8_lossy (as_bytes s) = s.
Proof.
  intros H. unfold from_utf8_lossy. rewrite utf8_decode_as_bytes by exact H.
  rewrite map_map. apply map_id.
Qed.

Lemma from_utf8_lossy_ascii s : Forall (fun c => 0 <= c < 128) s -> from_utf8_lossy s = s.
Proof.
  intros H. rewrite <- (as_bytes_ascii s) at 1.
  - apply from_utf8_lossy_as_bytes. eapply Forall_impl; [exact H|]. unfold scalar. simpl. lia.
  - eapply Forall_impl; [exact H|]. simpl. lia.
Qed.

Lemma utf8_char_bytes c : scalar c -> Forall (fun b => 0 <= b < 256) (utf8_char c).
Proof.
  unfold scalar, utf8_char. intros Hc. repeat case_goal; bool_prop; repeat constructor;
    Z.to_euclidean_division_equations; lia.
Qed.
