(* ===== verification/Domain.v ===== *)
(** Domain names and the addresses they may encode: the model of
    [agentcage-core/src/config/domain.rs].  The host validates the domain
    lists of [cage.yaml] with these functions and the egress validates every
    agent-supplied domain with them, so they are the predicates on both
    sides of the trust boundary. *)
From S2P Require Import Prelude.
From Stdlib Require Import ZifyBool.

(** * Definitions *)

Inductive LabelPolicy : Type :=
| StrictDotted
| AllowSingleLabel.
#[export] Instance LabelPolicy_eq_dec : EqDecision LabelPolicy.
Proof. solve_decision. Defined.

Definition is_strip_space (character : Z) : bool :=
  in_range 9 13 character || in_range 28 32 character
  || (character =? 133) || (character =? 160) || (character =? 5760)
  || in_range 8192 8202 character
  || (character =? 8232) || (character =? 8233) || (character =? 8239)
  || (character =? 8287) || (character =? 12288).

Definition permitted (byte : Z) : bool := is_ascii_lowercase byte || is_ascii_digit byte.

(** The slice pattern [[first, middle @ .., last]]. *)
Definition is_label (label : str) : bool :=
  match as_bytes label with
  | [] => false
  | [only] => permitted only
  | first :: rest =>
      let middle := removelast rest in
      let last := List.last rest 0 in
      (Z.of_nat (length middle) <=? 61)
      && (permitted first && permitted last
          && forallb (fun byte => permitted byte || (byte =? 45)) middle)
  end.

(** The loop over the labels after the first: [None] is the early
    [return false], [Some n] the count it leaves. *)
Fixpoint count_suffix_labels (labels : list str) (suffix_labels : Z) : option Z :=
  match labels with
  | [] => Some suffix_labels
  | label :: r => if is_label label then count_suffix_labels r (suffix_labels + 1) else None
  end.

Definition matches_domain_shape (domain : str) : bool :=
  let len := Z.of_nat (length domain) in
  if (len =? 0) || (253 <? len) then false
  else match split_on 46 domain with
       | [] => false
       | first :: labels =>
           if negb (is_label first) then false
           else match count_suffix_labels labels 0 with
                | None => false
                | Some suffix_labels => 1 <=? suffix_labels
                end
       end.

Definition parse_octet (part : str) : option Z :=
  let b := as_bytes part in
  if (Nat.eqb (length b) 0) || (Nat.ltb 3 (length b)) || negb (forallb is_ascii_digit b) then None
  else if (Nat.ltb 1 (length b)) && starts_with part [48] then None
  else parse_unsigned u8_max part.

Fixpoint count_octets (parts : list str) (octets : Z) : option Z :=
  match parts with
  | [] => Some octets
  | part :: r =>
      match parse_octet part with
      | None => None
      | Some _ => count_octets r (octets + 1)
      end
  end.

Definition is_ipv4_literal (text : str) : bool :=
  match count_octets (split_on 46 text) 0 with
  | None => false
  | Some octets => octets =? 4
  end.

Definition valid_domain (domain : str) (policy : LabelPolicy) : bool :=
  if existsb is_strip_space domain then false
  else if negb (matches_domain_shape domain)
          && (bool_decide (policy <> AllowSingleLabel) || negb (is_label domain)) then false
  else if is_ipv4_literal domain then false
  else match last (split_on 46 domain) with
       | None => false
       | Some l => 2 <=? Z.of_nat (length l)
       end.

(** [leading_ip_labels]: [todo] is the number of octets still to read, the
    separator being mandatory after all but the last. *)
Definition is_octet_sep (b : Z) : bool := (b =? 45) || (b =? 46).

Fixpoint read_octets (todo : nat) (rest : bytes) : option (list str * bytes) :=
  match todo with
  | O => Some ([], rest)
  | S todo' =>
      let '(slot, rest1) := span is_ascii_digit rest in
      let digits := length slot in
      if Nat.eqb digits 0 || Nat.ltb 3 digits then None
      else match todo' with
           | O => Some ([slot], rest1)
           | _ =>
               match rest1 with
               | b :: rest2 =>
                   if is_octet_sep b then
                     let? (octets, tail) := read_octets todo' rest2 in
                     Some (slot :: octets, tail)
                   else None
               | [] => None
               end
           end
  end.

Definition leading_ip_labels (text : str) : option (list str) :=
  let? (octets, tail) := read_octets 4 (as_bytes text) in
  match tail with
  | [] => Some octets
  | b :: _ => if is_octet_sep b then Some octets else None
  end.

Definition from_be_bytes (a b c d : Z) : Z := ((a * 256 + b) * 256 + c) * 256 + d.

Definition PRIVATE_NETWORKS : list (Z * Z) :=
  [ (from_be_bytes 0 0 0 0, 8);
    (from_be_bytes 10 0 0 0, 8);
    (from_be_bytes 127 0 0 0, 8);
    (from_be_bytes 169 254 0 0, 16);
    (from_be_bytes 172 16 0 0, 12);
    (from_be_bytes 192 0 0 0, 24);
    (from_be_bytes 192 0 0 170, 31);
    (from_be_bytes 192 0 2 0, 24);
    (from_be_bytes 192 168 0 0, 16);
    (from_be_bytes 198 18 0 0, 15);
    (from_be_bytes 198 51 100 0, 24);
    (from_be_bytes 203 0 113 0, 24);
    (from_be_bytes 240 0 0 0, 4);
    (from_be_bytes 255 255 255 255, 32) ].

Definition PRIVATE_EXCEPTIONS : list (Z * Z) :=
  [ (from_be_bytes 192 0 0 9, 32); (from_be_bytes 192 0 0 10, 32) ].

Definition CARRIER_GRADE_NAT : Z * Z := (from_be_bytes 100 64 0 0, 10).

(** [u32::MAX << (32 - prefix)]: the shift keeps the low 32 bits. *)
Definition in_network (address : Z) (n : Z * Z) : bool :=
  let '(network, prefix) := n in
  let mask := if prefix =? 0 then 0
              else Z.land (Z.shiftl u32_max (32 - prefix)) u32_max in
  Z.land address mask =? network.

Definition is_private (address : Z) : bool :=
  existsb (in_network address) PRIVATE_NETWORKS
  && negb (existsb (in_network address) PRIVATE_EXCEPTIONS).

Definition is_global (address : Z) : bool :=
  negb (in_network address CARRIER_GRADE_NAT) && negb (is_private address).

Definition u128_max : Z := 2 ^ 128 - 1.

Definition PRIVATE_NETWORKS_V6 : list (Z * Z) :=
  [ (1, 128); (0, 128);
    (0xffff00000000, 96);
    (Z.shiftl 0x0064ff9b0001 80, 48);
    (Z.shiftl 0x0100 112, 64);
    (Z.shiftl 0x2001 112, 23);
    (Z.shiftl 0x20010db8 96, 32);
    (Z.shiftl 0x2002 112, 16);
    (Z.shiftl 0x3fff 112, 20);
    (Z.shiftl 0xfc00 112, 7);
    (Z.shiftl 0xfe80 112, 10) ].

Definition PRIVATE_EXCEPTIONS_V6 : list (Z * Z) :=
  [ (Z.lor (Z.shiftl 0x20010001 96) 1, 128);
    (Z.lor (Z.shiftl 0x20010001 96) 2, 128);
    (Z.shiftl 0x20010003 96, 32);
    (Z.shiftl 0x200100040112 80, 48);
    (Z.shiftl 0x20010020 96, 28);
    (Z.shiftl 0x20010030 96, 28) ].

Definition in_network_v6 (address : Z) (n : Z * Z) : bool :=
  let '(network, prefix) := n in
  let mask := if prefix =? 0 then 0
              else Z.land (Z.shiftl u128_max (128 - prefix)) u128_max in
  Z.land address mask =? network.

Definition is_private_v6 (address : Z) : bool :=
  existsb (in_network_v6 address) PRIVATE_NETWORKS_V6
  && negb (existsb (in_network_v6 address) PRIVATE_EXCEPTIONS_V6).

(** [std::net::IpAddr], as the 32 and 128 bit numbers [From] gives. *)
Inductive IpAddr : Type :=
| V4 (a : Z)
| V6 (a : Z).
#[export] Instance IpAddr_eq_dec : EqDecision IpAddr.
Proof. solve_decision. Defined.

(** [Ipv6Addr::to_ipv4_mapped]: [::ffff:a.b.c.d]. *)
Definition to_ipv4_mapped (v6 : Z) : option Z :=
  if Z.shiftr v6 32 =? 0xffff then Some (Z.land v6 u32_max) else None.

Definition is_global_ip (ip : IpAddr) : bool :=
  match ip with
  | V4 v4 => is_global v4
  | V6 v6 => match to_ipv4_mapped v6 with
             | Some v4 => is_global v4
             | None => negb (is_private_v6 v6)
             end
  end.

(** The address the four octets spell, [None] when one is above 255. *)
Fixpoint fold_octets (address : Z) (octets : list str) : option Z :=
  match octets with
  | [] => Some address
  | octet :: r =>
      let? value := parse_unsigned u8_max octet in
      fold_octets (Z.lor (Z.land (Z.shiftl address 8) u32_max) value) r
  end.

Definition show_ipv4 (address : Z) : str :=
  show_unsigned (Z.shiftr address 24) ++ [46]
  ++ show_unsigned (Z.land (Z.shiftr address 16) 0xff) ++ [46]
  ++ show_unsigned (Z.land (Z.shiftr address 8) 0xff) ++ [46]
  ++ show_unsigned (Z.land address 0xff).

Section Encoded.
Context `{U : Unicode}.

Definition encoded_private_ip (domain : str) : option str :=
  let candidate := trim_end_matches 46 (to_lowercase domain) in
  let? octets := leading_ip_labels candidate in
  if existsb (fun octet => Nat.ltb 1 (length octet) && starts_with octet [48]) octets then None
  else
    let? address := fold_octets 0 octets in
    if is_global address then None else Some (show_ipv4 address).

End Encoded.


(** * Specifications *)

(** [[a-z0-9]] and [[a-z0-9-]]. *)
Definition alnum (c : Z) : Prop := 97 <= c <= 122 \/ 48 <= c <= 57.
Definition alnum_dash (c : Z) : Prop := alnum c \/ c = 45.

(** The regular expression [[a-z0-9](?:[a-z0-9-]{0,61}[a-z0-9])?]. *)
Definition Label (l : str) : Prop :=
  (exists c, l = [c] /\ alnum c)
  \/ exists c m d, l = c :: m ++ [d] /\ alnum c /\ alnum d
                   /\ (length m <= 61)%nat /\ Forall alnum_dash m.

(** The regular expression [^(?=.{1,253}$)(<label>)(\.<label>)+\Z]. *)
Definition DottedName (d : str) : Prop :=
  (length d <= 253)%nat /\
  exists labels, (2 <= length labels)%nat /\ Forall Label labels /\ d = join_with 46 labels.

(** An IPv4 range of the special-purpose registry as its first and last
    address, written out independently of the mask arithmetic. *)
Definition between (a : Z) (r : Z * Z) : Prop := fst r <= a <= snd r.
Definition special_ranges : list (Z * Z) :=
  [ (from_be_bytes 0 0 0 0, from_be_bytes 0 255 255 255);
    (from_be_bytes 10 0 0 0, from_be_bytes 10 255 255 255);
    (from_be_bytes 100 64 0 0, from_be_bytes 100 127 255 255);
    (from_be_bytes 127 0 0 0, from_be_bytes 127 255 255 255);
    (from_be_bytes 169 254 0 0, from_be_bytes 169 254 255 255);
    (from_be_bytes 172 16 0 0, from_be_bytes 172 31 255 255);
    (from_be_bytes 192 0 0 0, from_be_bytes 192 0 0 8);
    (from_be_bytes 192 0 0 11, from_be_bytes 192 0 0 255);
    (from_be_bytes 192 0 2 0, from_be_bytes 192 0 2 255);
    (from_be_bytes 192 168 0 0, from_be_bytes 192 168 255 255);
    (from_be_bytes 198 18 0 0, from_be_bytes 198 19 255 255);
    (from_be_bytes 198 51 100 0, from_be_bytes 198 51 100 255);
    (from_be_bytes 203 0 113 0, from_be_bytes 203 0 113 255);
    (from_be_bytes 240 0 0 0, from_be_bytes 255 255 255 255) ].

(** * Labels and names *)

Lemma permitted_spec c : permitted c = true <-> alnum c.
Proof.
  unfold permitted, is_ascii_lowercase, is_ascii_digit, alnum.
  rewrite orb_true_iff, !in_range_spec. tauto.
Qed.

Lemma permitted_dash_spec c : permitted c || (c =? 45) = true <-> alnum_dash c.
Proof. unfold alnum_dash. rewrite orb_true_iff, permitted_spec, Z.eqb_eq. tauto. Qed.

Lemma alnum_dash_range c : alnum_dash c -> 45 <= c <= 122 /\ c <> 46.
Proof. unfold alnum_dash, alnum. lia. Qed.

Lemma Label_chars l : Label l -> Forall alnum_dash l.
Proof.
  intros [(c & -> & Hc)|(c & m & d & -> & Hc & Hd & _ & Hm)].
  - apply Forall_singleton. by left.
  - constructor; [left; assumption|]. apply Forall_app; split; [assumption|].
    apply Forall_singleton. by left.
Qed.

Lemma Label_as_bytes l : Label l -> as_bytes l = l.
Proof.
  intros H. apply as_bytes_ascii. eapply Forall_impl; [exact (Label_chars l H)|].
  intros c Hc%alnum_dash_range. lia.
Qed.

Lemma last_removelast (x : Z) l d : x :: l = removelast (x :: l) ++ [List.last (x :: l) d].
Proof. apply app_removelast_last. congruence. Qed.

(** What the slice patterns decide about the bytes. *)
Lemma is_label_bytes l : is_label l = true -> Label (as_bytes l).
Proof.
  unfold is_label. destruct (as_bytes l) as [|c [|x r]]; intros H; [discriminate| |].
  - left. exists c. by rewrite <- permitted_spec.
  - cbv zeta in H. bool_prop. right. exists c, (removelast (x :: r)), (List.last (x :: r) 0).
    rewrite <- last_removelast, <- !permitted_spec. repeat split; try assumption; [lia|].
    rewrite forallb_Forall in *. eapply Forall_impl; [eassumption|].
    intros y. apply permitted_dash_spec.
Qed.

Lemma is_label_spec l : is_label l = true <-> Label l.
Proof.
  split; intros H.
  - pose proof (is_label_bytes l H) as Hb.
    rewrite <- (as_bytes_ascii_inv l); [exact Hb|].
    eapply Forall_impl; [exact (Label_chars _ Hb)|]. intros c Hc%alnum_dash_range. lia.
  - unfold is_label. rewrite (Label_as_bytes l H).
    destruct H as [(c & -> & Hc)|(c & m & d & -> & Hc & Hd & Hlen & Hm)].
    + by apply permitted_spec.
    + destruct (m ++ [d]) as [|x r] eqn:Er; [by destruct m|]. cbv zeta. rewrite <- Er.
      rewrite removelast_last, last_last.
      rewrite (proj2 (permitted_spec c) Hc), (proj2 (permitted_spec d) Hd).
      rewrite (proj2 (Z.leb_le _ _)) by lia. simpl. apply forallb_Forall.
      eapply Forall_impl; [exact Hm|]. intros y. apply permitted_dash_spec.
Qed.

Lemma count_suffix_labels_spec labels n k :
  count_suffix_labels labels n = Some k
  <-> Forall Label labels /\ k = n + Z.of_nat (length labels).
Proof.
  revert n; induction labels as [|l r IH]; intros n; simpl.
  - split; [intros [= <-]; split; [auto|lia]|intros [_ ->]; f_equal; lia].
  - destruct (is_label l) eqn:El.
    + rewrite IH, Forall_cons, <- is_label_spec. intuition lia.
    + rewrite Forall_cons, <- is_label_spec, El. split; [discriminate|intros [[? _] _]; discriminate].
Qed.

(** The shape test is the regular expression the proxy's rule is stated with. *)
Lemma matches_domain_shape_iff d : matches_domain_shape d = true <-> DottedName d.
Proof.
  unfold matches_domain_shape. cbv zeta. split.
  - intros H. destruct (_ || _) eqn:El; [discriminate|]. bool_prop.
    destruct (split_on 46 d) as [|first labels] eqn:Es; [discriminate|].
    destruct (is_label first) eqn:Ef; [|discriminate]. simpl in H.
    destruct (count_suffix_labels labels 0) as [n|] eqn:En; [|discriminate].
    apply count_suffix_labels_spec in En as [Hl ->]. bool_prop.
    split; [lia|]. exists (first :: labels). split; [simpl; lia|]. split.
    + constructor; [by apply is_label_spec|assumption].
    + rewrite <- Es. symmetry. apply join_split.
  - intros (Hlen & labels & Hn & Hl & ->).
    rewrite split_join.
    2: { by destruct labels; simpl in *; [lia|]. }
    2: { eapply Forall_impl; [exact Hl|]. intros l Hc%Label_chars Hin.
         rewrite Forall_forall in Hc. specialize (Hc 46 Hin). apply alnum_dash_range in Hc. lia. }
    destruct labels as [|first [|second labels]]; simpl in Hn; [lia|lia|].
    apply Forall_cons in Hl as [Hf Hl]. rewrite (proj2 (is_label_spec first) Hf).
    rewrite (proj2 (count_suffix_labels_spec _ 0 _) (conj Hl eq_refl)).
    assert (length (join_with 46 (first :: second :: labels)) <> 0%nat) as Hne.
    { simpl. rewrite length_app. simpl. lia. }
    destruct (_ || _) eqn:El; [apply orb_true_iff in El as [E|E]; bool_prop; lia|].
    apply Z.leb_le. simpl. lia.
Qed.

(** The characters a dnsmasq directive may carry. *)
Definition directive_safe (c : Z) : Prop := alnum c \/ c = 45 \/ c = 46.

Lemma DottedName_chars d : DottedName d -> Forall directive_safe d.
Proof.
  intros (_ & labels & _ & Hl & ->). apply Forall_forall. intros c Hc.
  apply elem_of_join in Hc as [->|(p & Hp & Hc)]; [by right; right|].
  rewrite Forall_forall in Hl. specialize (Hl p Hp). apply Label_chars in Hl.
  rewrite Forall_forall in Hl. destruct (Hl c Hc); [by left|by right; left].
Qed.

Lemma Label_safe l : Label l -> Forall directive_safe l /\ (1 <= length l <= 63)%nat.
Proof.
  intros H. split.
  - eapply Forall_impl; [exact (Label_chars l H)|]. intros c [?|?]; [left|right; left]; assumption.
  - destruct H as [(c & -> & _)|(c & m & d & -> & _ & _ & ? & _)]; simpl; [lia|].
    rewrite length_app. simpl. lia.
Qed.

Lemma valid_domain_cases d p : valid_domain d p = true ->
  (DottedName d \/ p = AllowSingleLabel /\ Label d) /\ is_ipv4_literal d = false.
Proof.
  unfold valid_domain. intros H.
  destruct (existsb _ d); [discriminate|]. destruct (_ && _) eqn:E; [discriminate|].
  destruct (is_ipv4_literal d) eqn:Ei; [discriminate|]. split; [|reflexivity].
  apply andb_false_iff in E as [E|E]; bool_prop.
  - left. by apply matches_domain_shape_iff.
  - right. rewrite <- is_label_spec. split; [|done]. destruct p; [|reflexivity].
    exfalso. eauto.
Qed.

(** * Address ranges *)

Lemma land_prefix_mask w s a : 0 <= s <= w -> 0 <= a < 2 ^ w ->
  Z.land a (Z.land (Z.shiftl (2 ^ w - 1) s) (2 ^ w - 1)) = Z.shiftl (Z.shiftr a s) s.
Proof.
  intros Hs Ha. apply Z.bits_inj'. intros i Hi.
  rewrite !Z.land_spec. rewrite !Z.shiftl_spec by lia.
  replace (2 ^ w - 1) with (Z.ones w) by (rewrite Z.ones_equiv; lia).
  destruct (Z.lt_ge_cases i s) as [Hlt|Hge].
  - rewrite (Z.testbit_neg_r _ (i - s)) by lia. rewrite (Z.testbit_neg_r _ (i - s)) by lia.
    by rewrite andb_false_r.
  - rewrite Z.shiftr_spec by lia. replace (i - s + s) with i by lia.
    destruct (Z.lt_ge_cases i w) as [Hiw|Hiw].
    + rewrite !Z.ones_spec_low by lia. by rewrite !andb_true_r.
    + destruct (Z.eq_dec a 0) as [->|]; [by rewrite Z.bits_0|].
      rewrite (Z.bits_above_log2 a i); [reflexivity|lia|].
      apply Z.log2_lt_pow2; [lia|].
      pose proof (Z.pow_le_mono_r 2 w i ltac:(lia) ltac:(lia)). lia.
Qed.

(** CIDR membership is an interval, whatever the width [w] of the address. *)
Lemma prefix_interval w s a k : 0 <= s <= w -> 0 <= a < 2 ^ w ->
  (Z.land a (Z.land (Z.shiftl (2 ^ w - 1) s) (2 ^ w - 1)) =? k * 2 ^ s)
  = (k * 2 ^ s <=? a) && (a <? k * 2 ^ s + 2 ^ s).
Proof.
  intros Hs Ha. rewrite land_prefix_mask by assumption.
  rewrite Z.shiftl_mul_pow2, Z.shiftr_div_pow2 by lia.
  pose proof (Z.pow_pos_nonneg 2 s) as Hp. apply eq_true_iff_eq.
  rewrite andb_true_iff, Z.eqb_eq, Z.leb_le, Z.ltb_lt.
  pose proof (Z.div_mod a (2 ^ s)) as Hd. pose proof (Z.mod_pos_bound a (2 ^ s)) as Hm.
  split; [intros H; lia|]. intros [H1 H2]. f_equal.
  symmetry. apply Z.div_unique with (a - k * 2 ^ s); lia.
Qed.

Lemma in_network_interval a k p : 0 < p <= 32 -> 0 <= a < 2 ^ 32 ->
  in_network a (k * 2 ^ (32 - p), p)
  = (k * 2 ^ (32 - p) <=? a) && (a <? k * 2 ^ (32 - p) + 2 ^ (32 - p)).
Proof.
  intros Hp Ha. unfold in_network. rewrite (proj2 (Z.eqb_neq p 0)) by lia.
  change u32_max with (2 ^ 32 - 1). apply prefix_interval; lia.
Qed.

Lemma in_network_v6_interval a k p : 0 < p <= 128 -> 0 <= a < 2 ^ 128 ->
  in_network_v6 a (k * 2 ^ (128 - p), p)
  = (k * 2 ^ (128 - p) <=? a) && (a <? k * 2 ^ (128 - p) + 2 ^ (128 - p)).
Proof.
  intros Hp Ha. unfold in_network_v6. rewrite (proj2 (Z.eqb_neq p 0)) by lia.
  change u128_max with (2 ^ 128 - 1). apply prefix_interval; lia.
Qed.

(** Rewrites [in_network a (n, p)] at literal [n] and [p]. *)
Ltac network_interval H :=
  match goal with
  | |- context [in_network ?a (?n, ?p)] =>
      let k := eval vm_compute in (n / 2 ^ (32 - p)) in
      let nn := eval vm_compute in n in
      let s := eval vm_compute in (2 ^ (32 - p)) in
      replace (in_network a (n, p)) with ((nn <=? a) && (a <? nn + s))
        by (symmetry; exact (in_network_interval a k p ltac:(lia) H))
  end.

(** [is_global] refuses exactly the special-purpose ranges. *)
Lemma is_global_iff a : 0 <= a < 2 ^ 32 ->
  is_global a = true <-> Forall (fun r => ~ between a r) special_ranges.
Proof.
  intros Ha. unfold is_global, is_private, PRIVATE_NETWORKS, PRIVATE_EXCEPTIONS, CARRIER_GRADE_NAT.
  cbn [existsb]. repeat network_interval Ha.
  unfold special_ranges. rewrite !Forall_cons, Forall_nil. unfold between, fst, snd, from_be_bytes.
  lia.
Qed.

(** * Encoded addresses *)

Definition octet_range (v : Z) : Prop := 0 <= v <= 255.

(** [b] starts with the four octets, each written in decimal without a
    leading zero, separated by [-] or [.], and closed by a separator or the
    end. *)
Definition spells (b : bytes) (a1 a2 a3 a4 : Z) : Prop :=
  exists s1 s2 s3 tail,
    is_octet_sep s1 = true /\ is_octet_sep s2 = true /\ is_octet_sep s3 = true
    /\ match tail with [] => True | c :: _ => is_octet_sep c = true end
    /\ b = show_unsigned a1 ++ s1 :: show_unsigned a2 ++ s2 :: show_unsigned a3
           ++ s3 :: show_unsigned a4 ++ tail.

Definition dotted_quad (a1 a2 a3 a4 : Z) : str :=
  show_unsigned a1 ++ [46] ++ show_unsigned a2 ++ [46] ++ show_unsigned a3 ++ [46]
  ++ show_unsigned a4.

(** An octet as [leading_ip_labels] and the leading-zero test leave it. *)
Definition octet_text (o : str) : Prop :=
  Forall (fun c => is_ascii_digit c = true) o /\ (1 <= length o <= 3)%nat
  /\ Nat.ltb 1 (length o) && starts_with o [48] = false.

Definition digit_strings : list str :=
  let ds := seqZ 48 10 in
  map (fun c => [c]) ds
  ++ flat_map (fun c => map (fun d => [c; d]) ds) ds
  ++ flat_map (fun c => flat_map (fun d => map (fun e => [c; d; e]) ds) ds) ds.

Lemma octet_text_enum o :
  Forall (fun c => is_ascii_digit c = true) o -> (1 <= length o <= 3)%nat -> In o digit_strings.
Proof.
  intros Hd Hl.
  assert (Hin : forall c, is_ascii_digit c = true -> In c (seqZ 48 10)).
  { intros c Hc%in_range_spec. apply list_elem_of_In, elem_of_seqZ. lia. }
  unfold digit_strings. cbv zeta. rewrite !in_app_iff.
  destruct o as [|c [|d [|e [|f o]]]]; simpl in Hl; try lia;
    repeat match goal with H : Forall _ (_ :: _) |- _ => apply Forall_cons in H as [? ?] end.
  - left. apply in_map_iff. eauto.
  - right; left. apply in_flat_map. exists c. split; [auto|]. apply in_map_iff. eauto.
  - right; right. apply in_flat_map. exists c. split; [auto|].
    apply in_flat_map. exists d. split; [auto|]. apply in_map_iff. eauto.
Qed.

Lemma octet_text_value o v : octet_text o -> parse_unsigned u8_max o = Some v ->
  o = show_unsigned v /\ octet_range v.
Proof.
  intros (Hd & Hl & Hz) Hv. pose proof (octet_text_enum o Hd Hl) as Hin.
  assert (Hall : forallb (fun o => match parse_unsigned u8_max o with
     | Some v => (Nat.ltb 1 (length o) && starts_with o [48])
                 || (bool_decide (o = show_unsigned v) && (0 <=? v) && (v <=? 255))
     | None => true end) digit_strings = true) by (vm_compute; reflexivity).
  rewrite forallb_forall in Hall. specialize (Hall o Hin). cbv beta in Hall.
  rewrite Hv, Hz in Hall. simpl in Hall. bool_prop. split; [assumption|]. unfold octet_range. lia.
Qed.

Lemma show_octet v : octet_range v ->
  octet_text (show_unsigned v) /\ parse_unsigned u8_max (show_unsigned v) = Some v.
Proof.
  intros Hv.
  assert (Hall : forallb (fun v => let o := show_unsigned v in
     forallb is_ascii_digit o && Nat.leb 1 (length o) && Nat.leb (length o) 3
     && negb (Nat.ltb 1 (length o) && starts_with o [48])
     && bool_decide (parse_unsigned u8_max o = Some v)) (seqZ 0 256) = true)
    by (vm_compute; reflexivity).
  rewrite forallb_forall in Hall. unfold octet_range in Hv.
  assert (Hin : In v (seqZ 0 256)) by (apply list_elem_of_In, elem_of_seqZ; lia).
  specialize (Hall v Hin).
  cbv beta zeta in Hall. apply andb_prop in Hall as [Hall Hp]. apply andb_prop in Hall as [Hall Hz].
  bool_prop. unfold octet_text. rewrite <- forallb_Forall. repeat split; try assumption; lia.
Qed.

Lemma sep_not_digit b : is_octet_sep b = true -> is_ascii_digit b = false.
Proof. unfold is_octet_sep, is_ascii_digit, in_range. lia. Qed.

(** One octet of [read_octets], both ways. *)
Lemma read_octets_last rest octets tail : read_octets 1 rest = Some (octets, tail) ->
  exists o, octets = [o] /\ rest = o ++ tail
            /\ Forall (fun c => is_ascii_digit c = true) o /\ (1 <= length o <= 3)%nat.
Proof.
  simpl. destruct (span is_ascii_digit rest) as [o r] eqn:Es. intros H.
  destruct (_ || _) eqn:El; [discriminate|]. bool_prop. injection H as <- <-.
  exists o. repeat split; eauto using span_app, span_all; lia.
Qed.

Lemma read_octets_step n rest octets tail : read_octets (S (S n)) rest = Some (octets, tail) ->
  exists o s rest' octets', octets = o :: octets' /\ rest = o ++ s :: rest'
    /\ is_octet_sep s = true /\ read_octets (S n) rest' = Some (octets', tail)
    /\ Forall (fun c => is_ascii_digit c = true) o /\ (1 <= length o <= 3)%nat.
Proof.
  cbn [read_octets]. destruct (span is_ascii_digit rest) as [o r] eqn:Es. intros H.
  destruct (_ || _) eqn:El; [discriminate|]. bool_prop.
  destruct r as [|s rest']; [discriminate|]. destruct (is_octet_sep s) eqn:Ess; [|discriminate].
  change (match read_octets (S n) rest' with Some (octets, tail) => Some (o :: octets, tail)
          | None => None end = Some (octets, tail)) in H.
  destruct (read_octets (S n) rest') as [[octets' tail']|] eqn:Er; [|discriminate].
  injection H as <- <-. exists o, s, rest', octets'.
  repeat split; eauto using span_app, span_all; lia.
Qed.

Lemma read_octets_last_run o tail : octet_text o ->
  match tail with [] => True | c :: _ => is_octet_sep c = true end ->
  read_octets 1 (o ++ tail) = Some ([o], tail).
Proof.
  intros (Hd & Hl & _) Ht. simpl. rewrite span_run; [|exact Hd|].
  - destruct (_ || _) eqn:E; [apply orb_true_iff in E as [E|E]; bool_prop; lia|reflexivity].
  - destruct tail; [exact I|by apply sep_not_digit].
Qed.

Lemma read_octets_step_run n o s rest octets tail : octet_text o -> is_octet_sep s = true ->
  read_octets (S n) rest = Some (octets, tail) ->
  read_octets (S (S n)) (o ++ s :: rest) = Some (o :: octets, tail).
Proof.
  intros (Hd & Hl & _) Hs Hr. cbn [read_octets]. rewrite span_run; [|exact Hd|by apply sep_not_digit].
  destruct (_ || _) eqn:E; [apply orb_true_iff in E as [E|E]; bool_prop; lia|].
  rewrite Hs. cbn [read_octets] in Hr. by rewrite Hr.
Qed.

Lemma fold_octet_step acc v : 0 <= acc < 2 ^ 24 -> octet_range v ->
  Z.lor (Z.land (Z.shiftl acc 8) u32_max) v = acc * 256 + v.
Proof.
  intros Ha Hv. unfold octet_range in Hv. change u32_max with (Z.ones 32).
  rewrite Z.land_ones, Z.shiftl_mul_pow2 by lia. rewrite Z.mod_small by lia.
  rewrite <- Z.shiftl_mul_pow2 by lia. rewrite lor_shiftl_add by lia. lia.
Qed.

Lemma fold_octets_four o1 o2 o3 o4 a1 a2 a3 a4 :
  parse_unsigned u8_max o1 = Some a1 -> parse_unsigned u8_max o2 = Some a2 ->
  parse_unsigned u8_max o3 = Some a3 -> parse_unsigned u8_max o4 = Some a4 ->
  octet_range a1 -> octet_range a2 -> octet_range a3 -> octet_range a4 ->
  fold_octets 0 [o1; o2; o3; o4] = Some (from_be_bytes a1 a2 a3 a4).
Proof.
  intros E1 E2 E3 E4 H1 H2 H3 H4. cbn [fold_octets]. rewrite E1, E2, E3, E4.
  unfold octet_range in *.
  rewrite (fold_octet_step 0 a1), (fold_octet_step (0 * 256 + a1) a2),
    (fold_octet_step _ a3), (fold_octet_step _ a4) by (unfold octet_range; lia).
  reflexivity.
Qed.

Lemma show_ipv4_quad a1 a2 a3 a4 :
  octet_range a1 -> octet_range a2 -> octet_range a3 -> octet_range a4 ->
  show_ipv4 (from_be_bytes a1 a2 a3 a4) = dotted_quad a1 a2 a3 a4.
Proof.
  unfold octet_range, show_ipv4, dotted_quad. intros H1 H2 H3 H4.
  change 0xff with (Z.ones 8). rewrite !Z.land_ones, !Z.shiftr_div_pow2 by lia.
  assert (E1 : from_be_bytes a1 a2 a3 a4 / 2 ^ 24 = a1) by (unfold from_be_bytes; Z.to_euclidean_division_equations; lia).
  assert (E2 : from_be_bytes a1 a2 a3 a4 / 2 ^ 16 mod 2 ^ 8 = a2) by (unfold from_be_bytes; Z.to_euclidean_division_equations; lia).
  assert (E3 : from_be_bytes a1 a2 a3 a4 / 2 ^ 8 mod 2 ^ 8 = a3) by (unfold from_be_bytes; Z.to_euclidean_division_equations; lia).
  assert (E4 : from_be_bytes a1 a2 a3 a4 mod 2 ^ 8 = a4) by (unfold from_be_bytes; Z.to_euclidean_division_equations; lia).
  by rewrite E1, E2, E3, E4.
Qed.

Section EncodedSpec.
Context `{U : Unicode}.

Lemma leading_ip_labels_spells text o1 o2 o3 o4 tail s1 s2 s3 :
  octet_text o1 -> octet_text o2 -> octet_text o3 -> octet_text o4 ->
  is_octet_sep s1 = true -> is_octet_sep s2 = true -> is_octet_sep s3 = true ->
  match tail with [] => True | c :: _ => is_octet_sep c = true end ->
  as_bytes text = o1 ++ s1 :: o2 ++ s2 :: o3 ++ s3 :: o4 ++ tail ->
  leading_ip_labels text = Some [o1; o2; o3; o4].
Proof.
  intros H1 H2 H3 H4 S1 S2 S3 Ht E. unfold leading_ip_labels. rewrite E.
  rewrite (read_octets_step_run 2 o1 s1 _ [o2; o3; o4] tail); [|assumption|assumption|].
  2: { apply read_octets_step_run; [assumption|assumption|].
       apply read_octets_step_run; [assumption|assumption|].
       apply read_octets_last_run; assumption. }
  destruct tail as [|c tail]; [reflexivity|by rewrite Ht].
Qed.

Lemma leading_ip_labels_inv text octets : leading_ip_labels text = Some octets ->
  exists o1 o2 o3 o4 s1 s2 s3 tail,
    octets = [o1; o2; o3; o4]
    /\ Forall (fun o => Forall (fun c => is_ascii_digit c = true) o /\ (1 <= length o <= 3)%nat) octets
    /\ is_octet_sep s1 = true /\ is_octet_sep s2 = true /\ is_octet_sep s3 = true
    /\ match tail with [] => True | c :: _ => is_octet_sep c = true end
    /\ as_bytes text = o1 ++ s1 :: o2 ++ s2 :: o3 ++ s3 :: o4 ++ tail.
Proof.
  unfold leading_ip_labels. destruct (read_octets 4 (as_bytes text)) as [[os tail]|] eqn:Er; [|discriminate].
  intros H.
  apply read_octets_step in Er as (o1 & s1 & r1 & os1 & -> & E1 & S1 & Er & D1 & L1).
  apply read_octets_step in Er as (o2 & s2 & r2 & os2 & -> & E2 & S2 & Er & D2 & L2).
  apply read_octets_step in Er as (o3 & s3 & r3 & os3 & -> & E3 & S3 & Er & D3 & L3).
  apply read_octets_last in Er as (o4 & -> & E4 & D4 & L4).
  assert (octets = [o1; o2; o3; o4] /\ match tail with [] => True | c :: _ => is_octet_sep c = true end)
    as [-> Ht].
  { destruct tail as [|c tail]; [by injection H as <-|].
    destruct (is_octet_sep c); [by injection H as <-|discriminate]. }
  exists o1, o2, o3, o4, s1, s2, s3, tail. repeat split; try assumption.
  - rewrite !Forall_cons. auto 10.
  - by rewrite E1, E2, E3, E4.
Qed.

Lemma encoded_four domain o1 o2 o3 o4 :
  leading_ip_labels (trim_end_matches 46 (to_lowercase domain)) = Some [o1; o2; o3; o4] ->
  encoded_private_ip domain
  = if existsb (fun octet => Nat.ltb 1 (length octet) && starts_with octet [48]) [o1; o2; o3; o4]
    then None
    else match fold_octets 0 [o1; o2; o3; o4] with
         | Some address => if is_global address then None else Some (show_ipv4 address)
         | None => None
         end.
Proof. intros E. unfold encoded_private_ip. by rewrite E. Qed.

Lemma encoded_private_ip_sound domain s : encoded_private_ip domain = Some s ->
  exists a1 a2 a3 a4,
    octet_range a1 /\ octet_range a2 /\ octet_range a3 /\ octet_range a4
    /\ spells (as_bytes (trim_end_matches 46 (to_lowercase domain))) a1 a2 a3 a4
    /\ is_global (from_be_bytes a1 a2 a3 a4) = false /\ s = dotted_quad a1 a2 a3 a4.
Proof.
  intros H.
  destruct (leading_ip_labels (trim_end_matches 46 (to_lowercase domain))) as [octets|] eqn:El.
  2: { unfold encoded_private_ip in H. by rewrite El in H. }
  pose proof El as El'. apply leading_ip_labels_inv in El'
    as (o1 & o2 & o3 & o4 & s1 & s2 & s3 & tail & -> & Ho & S1 & S2 & S3 & Ht & Et).
  rewrite (encoded_four _ _ _ _ _ El) in H. destruct (existsb _ _) eqn:Ez; [discriminate|].
  apply existsb_false_Forall in Ez. rewrite !Forall_cons in Ho, Ez.
  destruct Ho as ([D1 L1] & [D2 L2] & [D3 L3] & [D4 L4] & _), Ez as (Z1 & Z2 & Z3 & Z4 & _).
  destruct (fold_octets 0 [o1; o2; o3; o4]) as [a|] eqn:Ef; [|discriminate].
  destruct (is_global a) eqn:Eg; [discriminate|]. injection H as <-.
  assert (Hf := Ef). cbn [fold_octets] in Hf. repeat (case_in Hf; [|discriminate]).
  repeat match goal with
  | E : parse_unsigned u8_max ?o = Some ?v |- _ =>
      let H1 := fresh "V" in let H2 := fresh "R" in
      destruct (octet_text_value o v ltac:(split; [assumption|split; assumption]) E) as [H1 H2]; revert E
  end. intros P1 P2 P3 P4.
  rewrite (fold_octets_four o1 o2 o3 o4 _ _ _ _ P1 P2 P3 P4) in Ef by assumption.
  injection Ef as <-. do 4 eexists. split; [|split; [|split; [|split; [|split; [|split; [exact Eg|]]]]]];
    try eassumption.
  - exists s1, s2, s3, tail. repeat split; try assumption. rewrite Et. congruence.
  - apply show_ipv4_quad; assumption.
Qed.

Lemma encoded_private_ip_complete domain a1 a2 a3 a4 :
  octet_range a1 -> octet_range a2 -> octet_range a3 -> octet_range a4 ->
  spells (as_bytes (trim_end_matches 46 (to_lowercase domain))) a1 a2 a3 a4 ->
  encoded_private_ip domain
  = if is_global (from_be_bytes a1 a2 a3 a4) then None else Some (dotted_quad a1 a2 a3 a4).
Proof.
  intros R1 R2 R3 R4 (s1 & s2 & s3 & tail & S1 & S2 & S3 & Ht & E).
  destruct (show_octet a1 R1) as [T1 P1], (show_octet a2 R2) as [T2 P2],
    (show_octet a3 R3) as [T3 P3], (show_octet a4 R4) as [T4 P4].
  rewrite (encoded_four domain _ _ _ _
    (leading_ip_labels_spells _ _ _ _ _ tail s1 s2 s3 T1 T2 T3 T4 S1 S2 S3 Ht E)).
  rewrite (fold_octets_four _ _ _ _ _ _ _ _ P1 P2 P3 P4), show_ipv4_quad by assumption.
  destruct T1 as (_ & _ & Z1), T2 as (_ & _ & Z2), T3 as (_ & _ & Z3), T4 as (_ & _ & Z4).
  cbn [existsb]. by rewrite Z1, Z2, Z3, Z4.
Qed.

(** * Properties *)

(** C33: A domain either side accepts carries only lower-case letters,
    digits, dashes and dots, has between 1 and 253 characters, and is not an
    IPv4 literal: nothing that passes [valid_domain] can add a directive to
    the dnsmasq configuration it is written into. *)
Theorem valid_domain_injection_safe d p : valid_domain d p = true ->
  Forall directive_safe d /\ (1 <= length d <= 253)%nat /\ is_ipv4_literal d = false.
Proof.
  intros H. destruct (valid_domain_cases d p H) as [[Hd|[_ Hl]] Hi].
  - pose proof (DottedName_chars d Hd). repeat split; try assumption.
    + destruct d; [by apply matches_domain_shape_iff in Hd|simpl; lia].
    + by destruct Hd.
  - destruct (Label_safe d Hl). repeat split; try assumption; lia.
Qed.

Lemma valid_domain_injection_safe_witness :
  valid_domain (lit "api.ex-ample.com") StrictDotted = true
  /\ Forall directive_safe (lit "api.ex-ample.com").
Proof.
  split; [vm_compute; reflexivity|].
  apply (valid_domain_injection_safe (lit "api.ex-ample.com") StrictDotted).
  vm_compute. reflexivity.
Defined.

(** The shape test accepts exactly the names of the regular expression
    [^(?=.{1,253}$)(<label>)(\.<label>)+\Z]: two or more well-formed labels
    joined by dots, at most 253 characters in all. *)
Theorem matches_domain_shape_spec d : matches_domain_shape d = true <-> DottedName d.
Proof. apply matches_domain_shape_iff. Qed.

(** The IPv4 guard refuses exactly the special-purpose ranges of the
    registry, carrier-grade NAT included and the two anycast addresses of
    192.0.0.0/24 excluded; an IPv4-mapped IPv6 address is judged as the IPv4
    address it carries. *)
Theorem is_global_ip_spec a : 0 <= a < 2 ^ 32 ->
  (is_global_ip (V4 a) = true <-> Forall (fun r => ~ between a r) special_ranges)
  /\ is_global_ip (V6 (0xffff * 2 ^ 32 + a)) = is_global_ip (V4 a).
Proof.
  intros Ha. split; [exact (is_global_iff a Ha)|]. unfold is_global_ip, to_ipv4_mapped.
  change u32_max with (Z.ones 32). rewrite Z.land_ones, Z.shiftr_div_pow2 by lia.
  rewrite Z.div_add_l, (Z.div_small a) by lia.
  replace ((65535 * 2 ^ 32 + a) mod 2 ^ 32) with a; [reflexivity|].
  rewrite Z.add_comm, Z.mod_add, Z.mod_small by lia. reflexivity.
Qed.

Lemma is_global_ip_spec_witness :
  is_global_ip (V6 (0xffff * 2 ^ 32 + from_be_bytes 169 254 169 254)) = false.
Proof.
  transitivity (is_global_ip (V4 (from_be_bytes 169 254 169 254))).
  - apply is_global_ip_spec. unfold from_be_bytes; lia.
  - vm_compute. reflexivity.
Defined.

(** The structural half of the SSRF guard.  A domain is refused, and the
    address named, exactly when its lower-cased text without trailing dots
    starts with the four decimal octets of a non-global IPv4 address, joined
    by dashes or dots in any mixture and ended by one of them or by the end
    of the name. *)
Theorem encoded_private_ip_iff domain s :
  encoded_private_ip domain = Some s <->
  exists a1 a2 a3 a4,
    octet_range a1 /\ octet_range a2 /\ octet_range a3 /\ octet_range a4
    /\ spells (as_bytes (trim_end_matches 46 (to_lowercase domain))) a1 a2 a3 a4
    /\ is_global (from_be_bytes a1 a2 a3 a4) = false /\ s = dotted_quad a1 a2 a3 a4.
Proof.
  split; [apply encoded_private_ip_sound|].
  intros (a1 & a2 & a3 & a4 & R1 & R2 & R3 & R4 & Hs & Hg & ->).
  by rewrite (encoded_private_ip_complete domain a1 a2 a3 a4 R1 R2 R3 R4 Hs), Hg.
Qed.

End EncodedSpec.
