(* ===== verification/Detect.v ===== *)
(** Protocol detection: the model of
    [agentcage-egress/src/proxy/detect.rs].  The proxy reads bytes until it
    can tell a TLS [ClientHello] from plaintext HTTP from anything else, so
    the functions here are called again and again on a growing buffer; the
    properties say that an answer, once given, does not change when more
    bytes arrive, and that a well-formed [ClientHello] is read back exactly
    whatever the record boundaries. *)
From S2P Require Import Prelude Utf8.
From Stdlib Require Import ZifyBool.

(** * Definitions *)

Record ClientHello : Type := mkHello {
  sni : option str;
  alpn : list bytes
}.
Definition default_hello : ClientHello := mkHello None [].

(** The error strings of the parser, one constructor per message. *)
Inductive HelloError : Type :=
| ExpectedTlsRecord (header : bytes)   (** "expected a TLS record, got {header}" *)
| EmptyRecord                          (** "record must not be empty" *)
| NotClientHello                       (** "not a ClientHello" *)
| TruncatedHello.                      (** "truncated ClientHello" *)

Definition nth_byte (l : bytes) (i : nat) : Z := nth i l 0.

Definition starts_like_tls (data : bytes) : bool :=
  Nat.ltb 2 (length data) && (nth_byte data 0 =? 22) && (nth_byte data 1 =? 3)
  && (nth_byte data 2 <=? 3).

Definition HTTP_ALPNS : list bytes :=
  [lit "h2"; lit "http/1.1"; lit "http/1.0"; lit "http/0.9"].

Definition choose_alpn (offers : list bytes) : option bytes :=
  List.find (fun offer => bool_decide (offer ∈ HTTP_ALPNS)) offers.

(** [Reader]: the methods take the remaining bytes and return what is left. *)
Definition reader (A : Type) : Type := bytes -> result HelloError (A * bytes).

Definition rtake (n : nat) : reader bytes := fun data =>
  if Nat.ltb (length data) n then Err TruncatedHello else Ok (take n data, drop n data).
Definition read_u8 : reader Z := fun data =>
  let! (b, r) := rtake 1 data in Ok (nth_byte b 0, r).
Definition read_u16 : reader Z := fun data =>
  let! (b, r) := rtake 2 data in Ok (nth_byte b 0 * 256 + nth_byte b 1, r).
Definition vec8 : reader bytes := fun data =>
  let! (n, r) := read_u8 data in rtake (Z.to_nat n) r.
Definition vec16 : reader bytes := fun data =>
  let! (n, r) := read_u16 data in rtake (Z.to_nat n) r.

(** The [while !names.data.is_empty()] loop of the [server_name]
    extension; every turn takes at least three bytes. *)
Fixpoint read_names (fuel : nat) (data : bytes) (s : option str) : result HelloError (option str) :=
  match data, fuel with
  | [], _ => Ok s
  | _, O => Err TruncatedHello
  | _, S fuel' =>
      let! (name_type, r1) := read_u8 data in
      let! (name, r2) := vec16 r1 in
      read_names fuel' r2
        (if (name_type =? 0) && bool_decide (s = None) then Some (from_utf8_lossy name) else s)
  end.

(** The loop of the ALPN extension; every turn takes at least one byte. *)
Fixpoint read_protos (fuel : nat) (data : bytes) (acc : list bytes) : result HelloError (list bytes) :=
  match data, fuel with
  | [], _ => Ok acc
  | _, O => Err TruncatedHello
  | _, S fuel' =>
      let! (p, r) := vec8 data in read_protos fuel' r (acc ++ [p])
  end.

(** The loop over the extensions; every turn takes at least four bytes. *)
Fixpoint read_exts (fuel : nat) (data : bytes) (hello : ClientHello) : result HelloError ClientHello :=
  match data, fuel with
  | [], _ => Ok hello
  | _, O => Err TruncatedHello
  | _, S fuel' =>
      let! (kind, r1) := read_u16 data in
      let! (ext, r2) := vec16 r1 in
      let! hello' :=
        (if kind =? 0 then
           let! (names, _) := vec16 ext in
           let! s := read_names (length names) names (sni hello) in
           Ok (mkHello s (alpn hello))
         else if kind =? 16 then
           let! (protos, _) := vec16 ext in
           let! a := read_protos (length protos) protos (alpn hello) in
           Ok (mkHello (sni hello) a)
         else Ok hello) in
      read_exts fuel' r2 hello'
  end.

Definition parse_body (body : bytes) : result HelloError ClientHello :=
  let! (_, r) := rtake 2 body in
  let! (_, r) := rtake 32 r in
  let! (_, r) := vec8 r in
  let! (_, r) := vec16 r in
  let! (_, r) := vec8 r in
  match r with
  | [] => Ok default_hello
  | _ => let! (exts, _) := vec16 r in read_exts (length exts) exts default_hello
  end.

(** The record loop, on the bytes from [offset] on; [None] is fuel running
    out, every turn consumes at least six bytes. *)
Fixpoint read_records (fuel : nat) (rest handshake : bytes)
  : option (result HelloError (option ClientHello)) :=
  match fuel with
  | O => None
  | S fuel' =>
      if Nat.ltb (length rest) 5 then Some (Ok None)
      else
        let header := take 5 rest in
        if negb (starts_like_tls header) then Some (Err (ExpectedTlsRecord header))
        else
          let size := Z.to_nat (nth_byte header 3 * 256 + nth_byte header 4) in
          if Nat.eqb size 0 then Some (Err EmptyRecord)
          else
            let rest := drop 5 rest in
            if Nat.ltb (length rest) size then Some (Ok None)
            else
              let handshake := handshake ++ take size rest in
              let rest := drop size rest in
              if Nat.leb 4 (length handshake) then
                let len := Z.to_nat (Z.lor (Z.lor (Z.shiftl (nth_byte handshake 1) 16)
                                             (Z.shiftl (nth_byte handshake 2) 8))
                                      (nth_byte handshake 3)) in
                if Nat.leb (len + 4) (length handshake) then
                  if negb (nth_byte handshake 0 =? 1) then Some (Err NotClientHello)
                  else Some (let! h := parse_body (take len (drop 4 handshake)) in Ok (Some h))
                else read_records fuel' rest handshake
              else read_records fuel' rest handshake
  end.

Definition parse_client_hello (data : bytes) : option (result HelloError (option ClientHello)) :=
  read_records (S (length data)) data [].

Inductive Plain : Type := Http | Other | NeedMore.
#[export] Instance Plain_eq_dec : EqDecision Plain.
Proof. solve_decision. Defined.

(** [iter().position(|&b| b == x)]. *)
Fixpoint position (x : Z) (l : list Z) : option nat :=
  match l with
  | [] => None
  | b :: r => if b =? x then Some 0%nat else S <$> position x r
  end.

Definition classify_plain (data : bytes) (eof : bool) : Plain :=
  if Nat.leb 3 (length data) && negb (forallb is_ascii_alphabetic (take 3 data)) then Other
  else if starts_with data (lit "SSH") then Other
  else match position 10 data with
       | None => if eof || Nat.leb (Z.to_nat 8192) (length data) then Other else NeedMore
       | Some newline =>
           let no_http := Nat.ltb (length data) 3
             || match position 32 data with None => true | Some s => Nat.ltb newline s end in
           if no_http then Other else Http
       end.

(** [haystack.windows(needle.len()).position(|w| w == needle)], for a
    non-empty needle. *)
Fixpoint find (haystack needle : bytes) : option nat :=
  match haystack with
  | [] => None
  | _ :: r => if starts_with haystack needle then Some 0%nat else S <$> find r needle
  end.

Definition crlf : bytes := [13; 10].

(** The loop on the bytes from [i] on; [Ok] and [Err] as in the code. *)
Fixpoint host_header_from (fuel : nat) (data : bytes) : result unit (option str) :=
  match fuel with
  | O => Err tt
  | S fuel' =>
      match find data crlf with
      | None => Err tt
      | Some pos =>
          let rest := drop (pos + 2) data in
          if starts_with rest crlf then Ok None
          else if Nat.leb 5 (length rest) && eq_ignore_ascii_case (take 5 rest) (lit "host:") then
            let after := drop 5 rest in
            match find after crlf with
            | Some fin =>
                let line := take fin after in
                let value := trim (from_utf8_lossy line) in
                if match line with b :: _ => is_ascii_whitespace b | [] => false end
                   && bool_decide (value <> [])
                then Ok (Some value)
                else host_header_from fuel' rest
            | None => Err tt
            end
          else host_header_from fuel' rest
      end
  end.

Definition host_header (data : bytes) : result unit (option str) :=
  host_header_from (S (length data)) data.

(** * Specifications *)

(** A [ClientHello] as the client builds it, extension by extension. *)
Inductive Ext : Type :=
| SniExt (names : list (Z * bytes))
| AlpnExt (protos : list bytes)
| OtherExt (kind : Z) (data : bytes).

Definition len (l : bytes) : Z := Z.of_nat (length l).
Definition enc16 (n : Z) : bytes := [n / 256; n mod 256].
Definition enc_vec8 (l : bytes) : bytes := len l :: l.
Definition enc_vec16 (l : bytes) : bytes := enc16 (len l) ++ l.
Definition enc_names (names : list (Z * bytes)) : bytes :=
  flat_map (fun n => fst n :: enc_vec16 (snd n)) names.
Definition enc_protos (protos : list bytes) : bytes := flat_map enc_vec8 protos.
Definition enc_ext (e : Ext) : bytes :=
  match e with
  | SniExt names => enc16 0 ++ enc_vec16 (enc_vec16 (enc_names names))
  | AlpnExt protos => enc16 16 ++ enc_vec16 (enc_vec16 (enc_protos protos))
  | OtherExt kind data => enc16 kind ++ enc_vec16 data
  end.

Definition fits8 (l : bytes) : Prop := len l < 256.
Definition fits16 (l : bytes) : Prop := len l < 65536.
Definition wf_ext (e : Ext) : Prop :=
  match e with
  | SniExt names => Forall (fun n => fits16 (snd n)) names /\ fits16 (enc_vec16 (enc_names names))
  | AlpnExt protos => Forall fits8 protos /\ fits16 (enc_vec16 (enc_protos protos))
  | OtherExt kind data => 0 <= kind < 65536 /\ kind <> 0 /\ kind <> 16 /\ fits16 data
  end.

(** What the extensions say: the first host name (type 0) and every
    protocol, in order. *)
Definition names_sni (names : list (Z * bytes)) (s : option str) : option str :=
  fold_left (fun s n => if (fst n =? 0) && bool_decide (s = None)
                        then Some (from_utf8_lossy (snd n)) else s) names s.
Definition apply_ext (h : ClientHello) (e : Ext) : ClientHello :=
  match e with
  | SniExt names => mkHello (names_sni names (sni h)) (alpn h)
  | AlpnExt protos => mkHello (sni h) (alpn h ++ protos)
  | OtherExt _ _ => h
  end.
Definition hello_of (exts : list Ext) : ClientHello := fold_left apply_ext exts default_hello.

Record Message : Type := mkMessage {
  version : bytes; random : bytes; session_id : bytes; suites : bytes; compression : bytes;
  extensions : list Ext
}.
Definition enc_exts (exts : list Ext) : bytes := flat_map enc_ext exts.
Definition enc_body (m : Message) : bytes :=
  version m ++ random m ++ enc_vec8 (session_id m) ++ enc_vec16 (suites m)
  ++ enc_vec8 (compression m) ++ enc_vec16 (enc_exts (extensions m)).
Definition enc_handshake (m : Message) : bytes :=
  1 :: len (enc_body m) / 65536 :: (len (enc_body m) / 256) mod 256 :: len (enc_body m) mod 256
  :: enc_body m.
Definition wf_message (m : Message) : Prop :=
  length (version m) = 2%nat /\ length (random m) = 32%nat /\ fits8 (session_id m)
  /\ fits16 (suites m) /\ fits8 (compression m) /\ Forall wf_ext (extensions m)
  /\ fits16 (enc_exts (extensions m)).

(** The handshake cut into records, [minor] the record version's low byte. *)
Definition enc_record (minor : Z) (fragment : bytes) : bytes :=
  22 :: 3 :: minor :: enc16 (len fragment) ++ fragment.
Definition enc_records (minor : Z) (fragments : list bytes) : bytes :=
  flat_map (enc_record minor) fragments.

(** * Readers *)

Lemma rtake_app (l r : bytes) : rtake (length l) (l ++ r) = Ok (l, r).
Proof.
  unfold rtake. rewrite length_app. replace (Nat.ltb _ _) with false by lia.
  by rewrite take_app_length, drop_app_length.
Qed.

Lemma read_u8_cons b r : read_u8 (b :: r) = Ok (b, r).
Proof. reflexivity. Qed.

Lemma read_u16_enc n r : 0 <= n < 65536 -> read_u16 (enc16 n ++ r) = Ok (n, r).
Proof.
  intros Hn. unfold read_u16, enc16. change ([n / 256; n mod 256] ++ r) with ([n / 256; n mod 256] ++ r).
  unfold rtake. simpl length. replace (Nat.ltb _ _) with false by lia.
  cbn [take drop app result_bind nth_byte nth].
  unfold nth_byte. cbn [nth]. do 2 f_equal. pose proof (Z.div_mod n 256). lia.
Qed.

Lemma vec8_enc l r : fits8 l -> vec8 (enc_vec8 l ++ r) = Ok (l, r).
Proof.
  intros H. unfold vec8, enc_vec8. simpl. unfold nth_byte. simpl. unfold len.
  rewrite Nat2Z.id. apply rtake_app.
Qed.

Lemma vec16_enc l r : fits16 l -> vec16 (enc_vec16 l ++ r) = Ok (l, r).
Proof.
  unfold fits16, len. intros H. unfold vec16, enc_vec16. rewrite <- app_assoc.
  rewrite read_u16_enc by (unfold len; lia). cbn [result_bind]. unfold len. rewrite Nat2Z.id.
  apply rtake_app.
Qed.

Lemma length_enc_vec16 l : length (enc_vec16 l) = S (S (length l)).
Proof. reflexivity. Qed.

Lemma read_names_enc names fuel s : Forall (fun n => fits16 (snd n)) names ->
  (length (enc_names names) <= fuel)%nat ->
  read_names fuel (enc_names names) s = Ok (names_sni names s).
Proof.
  revert fuel s; induction names as [|[t n] names IH]; intros fuel s Hn Hf.
  - by destruct fuel.
  - apply Forall_cons in Hn as [Hn Hns]. simpl fst in *; simpl snd in *.
    change (enc_names ((t, n) :: names)) with (t :: enc_vec16 n ++ enc_names names) in *.
    simpl in Hf. rewrite length_app in Hf.
    destruct fuel as [|fuel]; [lia|]. cbn [read_names].
    rewrite read_u8_cons. cbn [result_bind]. rewrite vec16_enc by exact Hn. cbn [result_bind].
    rewrite IH; [reflexivity|exact Hns|lia].
Qed.

Lemma read_protos_enc protos fuel acc : Forall fits8 protos ->
  (length (enc_protos protos) <= fuel)%nat ->
  read_protos fuel (enc_protos protos) acc = Ok (acc ++ protos).
Proof.
  revert fuel acc; induction protos as [|p protos IH]; intros fuel acc Hp Hf.
  - rewrite app_nil_r. by destruct fuel.
  - apply Forall_cons in Hp as [Hp Hps].
    change (enc_protos (p :: protos)) with (len p :: p ++ enc_protos protos) in *.
    simpl in Hf. rewrite length_app in Hf. destruct fuel as [|fuel]; [lia|]. cbn [read_protos].
    change (len p :: p ++ enc_protos protos) with (enc_vec8 p ++ enc_protos protos).
    rewrite vec8_enc by exact Hp. cbn [result_bind].
    rewrite IH; [by rewrite <- app_assoc|exact Hps|lia].
Qed.

Lemma read_exts_enc exts fuel h : Forall wf_ext exts -> (length (enc_exts exts) <= fuel)%nat ->
  read_exts fuel (enc_exts exts) h = Ok (fold_left apply_ext exts h).
Proof.
  revert fuel h; induction exts as [|e exts IH]; intros fuel h He Hf.
  - by destruct fuel.
  - apply Forall_cons in He as [He Hes].
    change (enc_exts (e :: exts)) with (enc_ext e ++ enc_exts exts) in *.
    assert (exists b l, enc_ext e = b :: l) as (b & l & Eb) by (destruct e; do 2 eexists; reflexivity).
    rewrite length_app, Eb in Hf. simpl in Hf. destruct fuel as [|fuel]; [lia|].
    cbn [read_exts]. destruct (enc_ext e ++ enc_exts exts) eqn:E; [by rewrite Eb in E|].
    rewrite <- E. clear E.
    destruct e as [names|protos|kind data]; unfold enc_ext; rewrite <- app_assoc; simpl in He.
    + destruct He as [Hn H16]. rewrite read_u16_enc by lia. cbn [result_bind].
      rewrite vec16_enc by exact H16. cbn [result_bind Z.eqb].
      rewrite <- (app_nil_r (enc_vec16 (enc_names names))). rewrite vec16_enc.
      2: { unfold fits16, len in *. rewrite length_enc_vec16 in H16. lia. }
      cbn [result_bind]. rewrite read_names_enc by (exact Hn || lia). cbn [result_bind].
      apply IH; [exact Hes|lia].
    + destruct He as [Hn H16]. rewrite read_u16_enc by lia. cbn [result_bind].
      rewrite vec16_enc by exact H16. cbn [result_bind Z.eqb Pos.eqb].
      rewrite <- (app_nil_r (enc_vec16 (enc_protos protos))). rewrite vec16_enc.
      2: { unfold fits16, len in *. rewrite length_enc_vec16 in H16. lia. }
      cbn [result_bind]. rewrite read_protos_enc by (exact Hn || lia). cbn [result_bind].
      apply IH; [exact Hes|lia].
    + destruct He as (Hk & Hk0 & Hk16 & H16). rewrite read_u16_enc by lia. cbn [result_bind].
      rewrite vec16_enc by exact H16. cbn [result_bind]. decide_cmp. cbn [result_bind].
      apply IH; [exact Hes|lia].
Qed.

Lemma parse_body_enc m : wf_message m -> parse_body (enc_body m) = Ok (hello_of (extensions m)).
Proof.
  intros (Hv & Hr & Hs & Hc & Hp & He & Hes). unfold parse_body, enc_body.
  assert (E2 : forall r, rtake 2 (version m ++ r) = Ok (version m, r)) by (rewrite <- Hv; apply rtake_app).
  assert (E32 : forall r, rtake 32 (random m ++ r) = Ok (random m, r)) by (rewrite <- Hr; apply rtake_app).
  rewrite E2. cbn [result_bind]. rewrite E32. cbn [result_bind].
  rewrite vec8_enc by exact Hs. cbn [result_bind]. rewrite vec16_enc by exact Hc. cbn [result_bind].
  rewrite vec8_enc by exact Hp. cbn [result_bind].
  destruct (enc_vec16 (enc_exts (extensions m))) eqn:E; [discriminate|]. rewrite <- E.
  rewrite <- (app_nil_r (enc_vec16 _)). rewrite vec16_enc by exact Hes. cbn [result_bind].
  apply read_exts_enc; [exact He|lia].
Qed.

(** * The record loop *)

Lemma take_len_le {A} (l : list A) n : (length (take n l) <= n)%nat.
Proof. rewrite length_take. lia. Qed.

(** An answer does not depend on the fuel, nor on bytes after it. *)
Lemma read_records_more f f' rest handshake r more : (f <= f')%nat ->
  read_records f rest handshake = Some r -> r <> Ok None ->
  read_records f' (rest ++ more) handshake = Some r.
Proof.
  revert f' rest handshake; induction f as [|f IH]; intros f' rest handshake Hf H Hr; [discriminate|].
  destruct f' as [|f']; [lia|]. cbn [read_records] in *. cbv zeta in *.
  destruct (Nat.ltb (length rest) 5) eqn:E5; [congruence|]. bool_prop.
  rewrite length_app. replace (Nat.ltb _ 5) with false by lia.
  rewrite take_app_le by lia. destruct (negb _); [exact H|].
  destruct (Nat.eqb _ 0); [exact H|]. set (size := Z.to_nat _) in *.
  destruct (Nat.ltb (length (drop 5 rest)) size) eqn:Es; [congruence|]. bool_prop.
  rewrite drop_app_le by lia. rewrite (length_app (drop 5 rest) more). replace (Nat.ltb _ size) with false by lia.
  rewrite take_app_le by lia.
  replace (drop size (drop 5 rest ++ more)) with (drop size (drop 5 rest) ++ more)
    by (symmetry; apply drop_app_le; lia).
  destruct (Nat.leb 4 _); [destruct (Nat.leb _ (length _)); [exact H|]|];
    (apply IH; [lia|exact H|exact Hr]).
Qed.

Lemma read_records_total f rest handshake : (length rest < f)%nat ->
  exists r, read_records f rest handshake = Some r.
Proof.
  revert rest handshake; induction f as [|f IH]; intros rest handshake Hf; [lia|].
  cbn [read_records]. cbv zeta.
  destruct (Nat.ltb (length rest) 5) eqn:E5; [eauto|]. bool_prop.
  destruct (negb _); [eauto|]. destruct (Nat.eqb _ 0); [eauto|]. destruct (Nat.ltb _ _); [eauto|].
  assert (length (drop (Z.to_nat (nth_byte (take 5 rest) 3 * 256 + nth_byte (take 5 rest) 4)) (drop 5 rest)) < f)%nat
    by (rewrite !length_drop; lia).
  destruct (Nat.leb 4 _); [destruct (Nat.leb _ (length _)); [destruct (negb _); eauto|]|]; by apply IH.
Qed.

Lemma starts_like_tls_header minor a b : minor <= 3 -> starts_like_tls [22; 3; minor; a; b] = true.
Proof. intros H. unfold starts_like_tls, nth_byte. simpl. lia. Qed.

Lemma enc16_value n : 0 <= n < 65536 -> n / 256 * 256 + n mod 256 = n.
Proof. intros H. pose proof (Z.div_mod n 256). lia. Qed.

(** One record of the loop. *)
Lemma read_records_record f minor fragment rest done :
  0 <= minor <= 3 -> 1 <= len fragment < 65536 ->
  read_records (S f) (enc_record minor fragment ++ rest) done
  = let handshake := done ++ fragment in
    if Nat.leb 4 (length handshake) then
      let n := Z.to_nat (Z.lor (Z.lor (Z.shiftl (nth_byte handshake 1) 16)
                                      (Z.shiftl (nth_byte handshake 2) 8))
                               (nth_byte handshake 3)) in
      if Nat.leb (n + 4) (length handshake) then
        if negb (nth_byte handshake 0 =? 1) then Some (Err NotClientHello)
        else Some (let! h := parse_body (take n (drop 4 handshake)) in Ok (Some h))
      else read_records f rest handshake
    else read_records f rest handshake.
Proof.
  intros Hm Hl. cbn [read_records]. unfold enc_record, enc16.
  change ((22 :: 3 :: minor :: [len fragment / 256; len fragment mod 256] ++ fragment) ++ rest)
    with ([22; 3; minor; len fragment / 256; len fragment mod 256] ++ fragment ++ rest).
  set (hd5 := [22; 3; minor; _; _]). rewrite length_app. change (length hd5) with 5%nat.
  replace (Nat.ltb _ 5) with false by lia. change 5%nat with (length hd5).
  rewrite take_app_length, drop_app_length. cbv zeta.
  assert (E : nth_byte hd5 3 * 256 + nth_byte hd5 4 = len fragment) by (apply enc16_value; lia).
  rewrite E. clear E. subst hd5. rewrite starts_like_tls_header by lia. cbn [negb].
  unfold len in *. rewrite Nat2Z.id.
  replace (Nat.eqb _ 0) with false by lia. rewrite length_app. replace (Nat.ltb _ _) with false by lia.
  rewrite take_app_length, drop_app_length. reflexivity.
Qed.

(** The 24-bit length of the handshake header. *)
Lemma enc24_value n : 0 <= n < 16777216 ->
  Z.lor (Z.lor (Z.shiftl (n / 65536) 16) (Z.shiftl ((n / 256) mod 256) 8)) (n mod 256) = n.
Proof.
  intros Hn. pose proof (Z.div_mod n 256). pose proof (Z.mod_pos_bound n 256).
  pose proof (Z.div_mod (n / 256) 256). pose proof (Z.mod_pos_bound (n / 256) 256).
  assert (E : n / 65536 = n / 256 / 256) by (rewrite Z.div_div by lia; reflexivity). rewrite E.
  rewrite lor_shiftl_add by (rewrite ?Z.shiftl_mul_pow2 by lia; lia).
  replace (n / 256 / 256 * 2 ^ 16 + Z.shiftl ((n / 256) mod 256) 8) with (Z.shiftl (n / 256) 8)
    by (rewrite !Z.shiftl_mul_pow2 by lia; lia).
  rewrite lor_shiftl_add by lia. lia.
Qed.

Lemma nth_byte_app l r i : (i < length l)%nat -> nth_byte (l ++ r) i = nth_byte l i.
Proof. intros H. unfold nth_byte. by rewrite app_nth1. Qed.

Lemma read_records_fragments m minor fragments done f more :
  wf_message m -> len (enc_body m) < 16777216 -> 0 <= minor <= 3 ->
  Forall (fun fr => 1 <= len fr < 65536) fragments -> fragments <> [] ->
  done ++ concat fragments = enc_handshake m -> (length fragments <= f)%nat ->
  read_records f (enc_records minor fragments ++ more) done = Some (Ok (Some (hello_of (extensions m)))).
Proof.
  intros Hwf Hlen Hminor Hfr. revert done f.
  induction Hfr as [|fr frs Hf Hfs IH]; intros done f Hne Hcat Hfuel; [congruence|].
  destruct f as [|f]; [simpl in Hfuel; lia|].
  change (enc_records minor (fr :: frs)) with (enc_record minor fr ++ enc_records minor frs).
  rewrite <- app_assoc. rewrite read_records_record by assumption. cbv zeta.
  cbn [concat] in Hcat. rewrite app_assoc in Hcat. set (hs := done ++ fr) in *. clearbody hs.
  assert (Hhead : forall i, (i < length hs)%nat -> nth_byte hs i = nth_byte (enc_handshake m) i)
    by (intros i Hi; rewrite <- Hcat; symmetry; by apply nth_byte_app).
  assert (Htotal : (length hs + length (concat frs) = 4 + length (enc_body m))%nat)
    by (rewrite <- length_app, Hcat; reflexivity).
  assert (Hnext : frs <> [] -> read_records f (enc_records minor frs ++ more) hs
                   = Some (Ok (Some (hello_of (extensions m))))).
  { intros Hne'. apply IH; [exact Hne'|exact Hcat|simpl in Hfuel; lia]. }
  destruct (Nat.leb 4 (length hs)) eqn:E4; bool_prop.
  2: { apply Hnext. intros ->. cbn [concat length] in Htotal. lia. }
  rewrite !Hhead by lia.
  assert (E24 : Z.lor (Z.lor (Z.shiftl (nth_byte (enc_handshake m) 1) 16)
    (Z.shiftl (nth_byte (enc_handshake m) 2) 8)) (nth_byte (enc_handshake m) 3) = len (enc_body m))
    by (apply enc24_value; unfold len in *; lia).
  rewrite E24. unfold len. rewrite Nat2Z.id.
  destruct (Nat.leb _ (length hs)) eqn:E; bool_prop.
  - destruct frs as [|fr' frs].
    2: { apply Forall_cons in Hfs as [Hf' _]. unfold len in Hf'. cbn [concat] in Htotal.
         rewrite length_app in Htotal. lia. }
    cbn [concat] in Hcat. rewrite app_nil_r in Hcat. subst hs.
    unfold enc_handshake, nth_byte. cbn [drop nth negb Z.eqb Pos.eqb]. rewrite drop_0, take_ge by lia.
    rewrite parse_body_enc by exact Hwf. reflexivity.
  - apply Hnext. intros ->. cbn [concat length] in Htotal. lia.
Qed.

(** * Plaintext *)

Lemma position_app x l r n : position x l = Some n -> position x (l ++ r) = Some n.
Proof.
  revert n; induction l as [|b l IH]; simpl; intros n H; [discriminate|].
  destruct (b =? x); [exact H|]. destruct (position x l) as [k|]; [|discriminate].
  by rewrite (IH k).
Qed.

Lemma position_spec x l n : position x l = Some n <->
  exists a b, l = a ++ x :: b /\ length a = n /\ (x ∉ a).
Proof.
  revert n; induction l as [|c l IH]; simpl; intros n.
  - split; [discriminate|intros (a & b & E & _); by destruct a].
  - destruct (Z.eqb_spec c x) as [->|Hne].
    + split.
      * intros [= <-]. exists [], l. split; [reflexivity|split; [reflexivity|set_solver]].
      * intros (a & b & E & Hl & Ha). destruct a as [|y a]; [by subst n|].
        injection E as -> _. set_solver.
    + split.
      * intros H. destruct (position x l) as [k|] eqn:Ek; [|discriminate]. injection H as <-.
        destruct (proj1 (IH k) eq_refl) as (a & b & -> & Hl & Ha).
        exists (c :: a), b. split; [reflexivity|split; [simpl; lia|set_solver]].
      * intros (a & b & E & Hl & Ha). destruct a as [|y a]; [injection E as E _; congruence|].
        injection E as -> ->.
        destruct n as [|n]; [discriminate|]. simpl in Hl.
        assert (E : position x (a ++ x :: b) = Some n).
        { apply IH. exists a, b. repeat split; [lia|set_solver]. }
        by rewrite E.
Qed.

Lemma starts_with_app l p r : (length p <= length l)%nat -> starts_with (l ++ r) p = starts_with l p.
Proof.
  revert l; induction p as [|b p IH]; intros l Hl; simpl; [reflexivity|].
  destruct l as [|a l]; [simpl in Hl; lia|]. simpl in *. by rewrite IH by lia.
Qed.

Lemma find_bound l p n : find l p = Some n -> (n + length p <= length l)%nat.
Proof.
  revert n; induction l as [|b l IH]; intros n H; [discriminate|]. cbn [find] in H.
  destruct (starts_with (b :: l) p) eqn:Es.
  - injection H as <-. apply starts_with_prefix in Es as [q E]. rewrite E, length_app. lia.
  - destruct (find l p) as [k|]; [|discriminate]. injection H as <-.
    specialize (IH k eq_refl). simpl. lia.
Qed.

Lemma find_app l p r n : find l p = Some n -> find (l ++ r) p = Some n.
Proof.
  revert n; induction l as [|b l IH]; intros n H; [discriminate|].
  pose proof (find_bound _ _ _ H) as Hb. cbn [find] in H.
  change ((b :: l) ++ r) with (b :: (l ++ r)). cbn [find].
  change (b :: l ++ r) with ((b :: l) ++ r). rewrite starts_with_app by lia.
  destruct (starts_with (b :: l) p); [exact H|].
  destruct (find l p) as [k|]; [|discriminate]. injection H as <-. by rewrite (IH k).
Qed.

(** Fewer than five bytes, not a line end, never hold an answer. *)
Lemma host_header_short f data v : starts_with data crlf = false -> (length data < 5)%nat ->
  host_header_from f data <> Ok v.
Proof.
  intros Hs Hl H. destruct f as [|f]; [discriminate|]. cbn [host_header_from] in H.
  destruct (find data crlf) as [pos|] eqn:Ef; [|discriminate].
  pose proof (find_bound _ _ _ Ef) as Hb. simpl in Hb.
  assert (Hpos : pos <> 0%nat).
  { intros ->. destruct data; [discriminate|]. cbn [find] in Ef. rewrite Hs in Ef.
    by destruct (find data crlf). }
  assert (Hr : (length (drop (pos + 2) data) < 2)%nat) by (rewrite length_drop; lia).
  set (rest := drop (pos + 2) data) in *. clearbody rest.
  assert (Ec : starts_with rest crlf = false).
  { destruct (starts_with rest crlf) eqn:E; [|reflexivity].
    apply starts_with_prefix in E as [q ->]. rewrite length_app in Hr. simpl in Hr. lia. }
  rewrite Ec in H. replace (Nat.leb 5 (length rest)) with false in H by lia. cbn [andb] in H.
  destruct f as [|f]; [discriminate|]. cbn [host_header_from] in H.
  destruct (find rest crlf) as [p|] eqn:Ep; [|discriminate].
  apply find_bound in Ep. simpl in Ep. lia.
Qed.

Lemma host_header_from_more f f' data more v : (f <= f')%nat ->
  host_header_from f data = Ok v -> host_header_from f' (data ++ more) = Ok v.
Proof.
  revert f' data; induction f as [|f IH]; intros f' data Hf H; [discriminate|].
  destruct f' as [|f']; [lia|]. cbn [host_header_from] in *. cbv zeta in *.
  destruct (find data crlf) as [pos|] eqn:Ef; [|discriminate].
  rewrite (find_app _ _ more _ Ef). pose proof (find_bound _ _ _ Ef) as Hb. simpl in Hb.
  rewrite drop_app_le by lia. set (rest := drop (pos + 2) data) in *. clearbody rest.
  destruct (starts_with rest crlf) eqn:Es.
  { apply starts_with_prefix in Es as [q ->]. rewrite <- app_assoc.
    by rewrite (proj2 (starts_with_prefix _ _)) by eauto. }
  destruct (Nat.leb 5 (length rest) && _) eqn:Eh.
  - apply andb_prop in Eh as [E5 Eh]. bool_prop.
    assert (starts_with (rest ++ more) crlf = false) as -> by (rewrite starts_with_app; [exact Es|simpl; lia]).
    rewrite length_app, take_app_le, Eh by lia. replace (Nat.leb _ _) with true by lia. cbn [andb].
    rewrite drop_app_le by lia. destruct (find (drop 5 rest) crlf) as [fin|] eqn:Ee; [|discriminate].
    rewrite (find_app _ _ more _ Ee). pose proof (find_bound _ _ _ Ee) as Hb'. simpl in Hb'.
    rewrite take_app_le by lia. destruct (_ && _); [exact H|]. apply IH; [lia|exact H].
  - (* the header test needs bytes that are not there: then the loop finds no line end *)
    destruct (Nat.leb 5 (length rest)) eqn:E5; bool_prop.
    + rewrite starts_with_app by (simpl; lia). rewrite Es, length_app, take_app_le by lia.
      replace (Nat.leb _ _) with true by lia. simpl in Eh. rewrite Eh. cbn [andb].
      apply IH; [lia|exact H].
    + exfalso. exact (host_header_short _ _ _ Es ltac:(lia) H).
Qed.

(** * Properties *)

(** The [ClientHello] parser always returns, and what it returns for
    a buffer, once it is not "more bytes needed", is what it returns for
    every extension of that buffer: the connection task may call it on each
    read without ever changing its mind. *)
Theorem parse_client_hello_stable data :
  exists r, parse_client_hello data = Some r
    /\ (r <> Ok None -> forall more, parse_client_hello (data ++ more) = Some r).
Proof.
  destruct (read_records_total (S (length data)) data []) as [r Hr]; [lia|].
  exists r. split; [exact Hr|]. intros Hne more. unfold parse_client_hello.
  eapply read_records_more; [|exact Hr|exact Hne]. rewrite length_app. lia.
Qed.

(** Round trip.  A well-formed [ClientHello], cut into TLS records in
    any way at all and followed by anything, is read as exactly its host
    name and its protocols in the client's order. *)
Theorem parse_client_hello_roundtrip m minor fragments more :
  wf_message m -> len (enc_body m) < 16777216 -> 0 <= minor <= 3 ->
  Forall (fun fr => 1 <= len fr < 65536) fragments ->
  concat fragments = enc_handshake m ->
  parse_client_hello (enc_records minor fragments ++ more)
  = Some (Ok (Some (hello_of (extensions m)))).
Proof.
  intros Hwf Hlen Hminor Hfr Hcat. unfold parse_client_hello.
  apply read_records_fragments; try assumption.
  - intros ->. discriminate.
  - rewrite length_app. apply Nat.le_le_succ_r, (Nat.le_trans _ (length (enc_records minor fragments))); [|lia].
    clear. induction fragments as [|fr frs IH]; [simpl; lia|].
    change (enc_records minor (fr :: frs)) with (enc_record minor fr ++ enc_records minor frs).
    rewrite length_app. simpl. lia.
Qed.

Definition sample_message : Message :=
  mkMessage [3; 3] (repeat 7 32) [] [0; 47] [0]
    [OtherExt 10 [1; 2]; SniExt [(0, lit "api.example.com")]; AlpnExt [lit "h2"; lit "http/1.1"]].

Lemma parse_client_hello_roundtrip_witness :
  parse_client_hello ((enc_records 1 [take 3 (enc_handshake sample_message);
                                      drop 3 (enc_handshake sample_message)]) ++ [1; 2; 3])
  = Some (Ok (Some (mkHello (Some (lit "api.example.com")) [lit "h2"; lit "http/1.1"]))).
Proof.
  apply (parse_client_hello_roundtrip sample_message 1).
  - unfold wf_message, sample_message, fits8, fits16; simpl; unfold fits8, fits16, len; simpl;
      repeat (split || constructor); try lia; vm_compute; congruence.
  - vm_compute. reflexivity.
  - lia.
  - repeat constructor; vm_compute; congruence.
  - reflexivity.
Defined.

(** Plaintext is taken for HTTP exactly when its first line is complete
    and holds a space, the first three bytes are letters, and it is not an
    SSH banner; in particular the answer does not depend on [eof] nor on
    anything after the first line. *)
Theorem classify_plain_http data eof :
  classify_plain data eof = Http <->
  exists line rest, data = line ++ 10 :: rest /\ (10 ∉ line) /\ (32 ∈ line)
    /\ (3 <= length data)%nat /\ forallb is_ascii_alphabetic (take 3 data) = true
    /\ starts_with data (lit "SSH") = false.
Proof.
  unfold classify_plain. cbv zeta. split.
  - intros H. destruct (Nat.leb 3 (length data) && _) eqn:E3; [discriminate|].
    destruct (starts_with data (lit "SSH")) eqn:Es; [discriminate|].
    destruct (position 10 data) as [nl|] eqn:En; [|destruct (_ || _); discriminate].
    destruct (Nat.ltb (length data) 3) eqn:El; [discriminate|]. simpl in H.
    destruct (position 32 data) as [s|] eqn:Esp; [|discriminate].
    destruct (Nat.ltb nl s) eqn:Ens; [discriminate|]. bool_prop.
    apply position_spec in En as (line & rest & -> & Hl & Hn).
    apply position_spec in Esp as (a & b & E & Ha & _).
    exists line, rest. repeat split; try assumption.
    + assert (Hlt : (s < nl)%nat).
      { assert (s <> nl); [|lia]. intros ->.
        apply app_inj_1 in E as [_ E]; [discriminate|lia]. }
      apply (f_equal (fun l => nth s l 0)) in E. subst s. rewrite nth_middle in E.
      rewrite app_nth1 in E by lia. rewrite <- E. apply list_elem_of_In, nth_In. lia.
    + apply andb_false_iff in E3 as [E3|E3]; bool_prop; [lia|exact E3].
  - intros (line & rest & E & Hn & Hs & H3 & Ha & Hssh).
    rewrite Ha, Hssh, andb_false_r.
    assert (En : position 10 data = Some (length line)) by (apply position_spec; eauto).
    rewrite En. replace (Nat.ltb (length data) 3) with false by lia. simpl.
    apply list_elem_of_split in Hs as (a & b & El).
    destruct (position 32 data) as [s|] eqn:Esp.
    + destruct (Nat.ltb (length line) s) eqn:Ens; [|reflexivity]. bool_prop. exfalso.
      apply position_spec in Esp as (a' & b' & E' & Hl' & Hn').
      assert (Hin : 32 ∈ take s data).
      { rewrite E, take_app_ge by lia. rewrite El. set_solver. }
      subst s. rewrite E' in Hin. rewrite take_app_length in Hin. exact (Hn' Hin).
    + exfalso. assert (Hin : 32 ∈ data) by (rewrite E, El; set_solver). clear -Hin Esp.
      induction data as [|c data IH]; [set_solver|]. simpl in Esp.
      destruct (Z.eqb_spec c 32); [discriminate|]. destruct (position 32 data); [discriminate|].
      apply IH; first [reflexivity|set_solver].
Qed.

(** The passthrough check's reading of the [Host] header (a value, or
    the end of the head without one) is final: no later byte changes it. *)
Theorem host_header_stable data v more :
  host_header data = Ok v -> host_header (data ++ more) = Ok v.
Proof. intros H. eapply host_header_from_more; [|exact H]. rewrite length_app. lia. Qed.

Definition crlf_text (lines : list string) : bytes := flat_map (fun l => lit l ++ crlf) lines.

Lemma host_header_stable_witness :
  host_header (crlf_text ["GET / HTTP/1.1"; "host:  a.example.com "]%string ++ lit "more")
  = Ok (Some (lit "a.example.com")).
Proof. apply host_header_stable. vm_compute. reflexivity. Defined.
