(* ===== verification/Budget.v ===== *)
(** The process-wide budget for buffered body bytes: the model of
    [agentcage-egress/src/proxy/budget.rs].  The shared counter is updated
    by atomic operations from many connection tasks at once, so beside the
    operations as functions there is a step relation in which the loads, the
    compare-and-swap loop and the releases of any number of reservations
    interleave freely. *)
From S2P Require Import Prelude.

(** * Definitions *)

Definition FREE_BYTES : Z := 1024 * 1024.
Definition DEFAULT_BODY_BUDGET : Z := 1024 * 1024 * 1024.

(** [BodyBudget]: the two atomics ([released] and [wait] are the wake-up
    machinery, see [grow_to]). *)
Record BodyBudget : Type := mkBudget { used : Z; limit : Z }.

Definition wrap_usize (n : Z) : Z := n mod (usize_max + 1).

(** [set_limit]: the new budget, and whether the waiters are woken. *)
Definition set_limit (b : BodyBudget) (new : Z) : BodyBudget * bool :=
  let before := limit b in
  (mkBudget (used b) new, before <? new).

(** [release]: [fetch_sub], which wraps; the waiters are woken when [n > 0]. *)
Definition release (b : BodyBudget) (n : Z) : BodyBudget * bool :=
  if 0 <? n then (mkBudget (wrap_usize (used b - n)) (limit b), true) else (b, false).

(** The granting test of the compare-and-swap loop. *)
Definition next_used (lim current extra : Z) : option Z :=
  match checked_add usize_max current extra with
  | Some next => if next <=? lim then Some next else None
  | None => None
  end.

(** [try_grow_to] with nobody interfering: the budget, what the reservation
    holds, and the answer. *)
Definition try_grow_to (b : BodyBudget) (held total : Z) : BodyBudget * Z * bool :=
  if total <=? held then (b, held, true)
  else
    let extra := total - held in
    if total <=? FREE_BYTES then (mkBudget (wrap_usize (used b + extra)) (limit b), total, true)
    else
      match next_used (limit b) (used b) extra with
      | None => (b, held, false)
      | Some next => (mkBudget next (limit b), total, true)
      end.

(** [grow_to]: [wakes] is what the other tasks did to the budget before each
    wake-up within the deadline, [at_deadline] what they did before it
    passed. *)
Fixpoint grow_wait (wakes : list (BodyBudget -> BodyBudget)) (at_deadline : BodyBudget -> BodyBudget)
    (b : BodyBudget) (held total : Z) : BodyBudget * Z * bool :=
  match try_grow_to b held total with
  | (b', held', true) => (b', held', true)
  | (b', held', false) =>
      match wakes with
      | [] => try_grow_to (at_deadline b') held' total
      | w :: ws => grow_wait ws at_deadline (w b') held' total
      end
  end.

Definition grow_to (wakes : list (BodyBudget -> BodyBudget)) (at_deadline : BodyBudget -> BodyBudget)
    (b : BodyBudget) (held total : Z) : BodyBudget * Z * bool :=
  match try_grow_to b held total with
  | (b', held', true) => (b', held', true)
  | (b', held', false) =>
      if Z.max (limit b') FREE_BYTES <? total then (b', held', false)
      else grow_wait wakes at_deadline b' held' total
  end.

Definition reserve_more wakes at_deadline (b : BodyBudget) (held n : Z) : BodyBudget * Z * bool :=
  grow_to wakes at_deadline b held (saturating_add usize_max held n).

Definition shrink_to (b : BodyBudget) (held total : Z) : BodyBudget * Z :=
  if total <? held then ((release b (held - total)).1, total) else (b, held).

(** [Drop for Reservation]. *)
Definition drop_reservation (b : BodyBudget) (held : Z) : BodyBudget := (release b held).1.

Definition grown_capacity (len extra : Z) : Z :=
  saturating_add usize_max len (Z.max (Z.max extra (len / 4)) (64 * 1024)).

(** [grow_vec] on a vector of length [len] and capacity [cap]; [alloc] is
    the allocator's answer for a capacity.  The new capacity, [None] for
    [TryReserveError]. *)
Definition grow_vec (alloc : Z -> bool) (len cap extra : Z) : option Z :=
  if extra <=? cap - len then Some cap
  else if alloc (grown_capacity len extra) then Some (grown_capacity len extra) else None.

Definition make_room (alloc : Z -> bool) wakes at_deadline (b : BodyBudget) (held len cap extra : Z)
  : BodyBudget * Z * Z * bool :=
  if extra <=? cap - len then (b, held, cap, true)
  else
    match grow_to wakes at_deadline b held (grown_capacity len extra) with
    | (b', held', false) => (b', held', cap, false)
    | (b', held', true) =>
        match grow_vec alloc len cap extra with
        | Some cap' => (b', held', cap', true)
        | None => (b', held', cap, false)
        end
    end.

(** ** Interleaving *)

(** Where a task is inside [try_grow_to]: between operations, after loading
    the limit, or in the loop with the last value of [used] it saw. *)
Inductive Pc : Type :=
| Idle
| LoadedLimit (total lim : Z)
| CasLoop (total lim current : Z)
| Dropped.
Record Reservation : Type := mkRes { held : Z; pc : Pc }.
Record System : Type := mkSystem { budget : BodyBudget; tasks : list Reservation }.

Definition with_task (s : System) (b : BodyBudget) (i : nat) (r : Reservation) : System :=
  mkSystem b (<[i := r]> (tasks s)).

Section Steps.
(** What the deployment bounds: the largest limit ever set, and how many
    reservations exist. *)
Context (max_limit max_tasks : Z).

Inductive budget_step : System -> System -> Prop :=
| step_new s : Z.of_nat (length (tasks s)) < max_tasks ->
    budget_step s (mkSystem (budget s) (tasks s ++ [mkRes 0 Idle]))
| step_free s i h total : tasks s !! i = Some (mkRes h Idle) -> h < total -> total <= FREE_BYTES ->
    (* [fetch_add] *)
    budget_step s (with_task s (mkBudget (wrap_usize (used (budget s) + (total - h))) (limit (budget s)))
                             i (mkRes total Idle))
| step_load_limit s i h total : tasks s !! i = Some (mkRes h Idle) -> h < total -> FREE_BYTES < total ->
    budget_step s (with_task s (budget s) i (mkRes h (LoadedLimit total (limit (budget s)))))
| step_load_used s i h total lim : tasks s !! i = Some (mkRes h (LoadedLimit total lim)) ->
    budget_step s (with_task s (budget s) i (mkRes h (CasLoop total lim (used (budget s)))))
| step_cas s i h total lim current next :
    tasks s !! i = Some (mkRes h (CasLoop total lim current)) ->
    next_used lim current (total - h) = Some next -> used (budget s) = current ->
    budget_step s (with_task s (mkBudget next (limit (budget s))) i (mkRes total Idle))
| step_cas_fail s i h total lim current next :
    (* the weak compare-and-swap may fail although the value is the same *)
    tasks s !! i = Some (mkRes h (CasLoop total lim current)) ->
    next_used lim current (total - h) = Some next ->
    budget_step s (with_task s (budget s) i (mkRes h (CasLoop total lim (used (budget s)))))
| step_refuse s i h total lim current :
    tasks s !! i = Some (mkRes h (CasLoop total lim current)) ->
    next_used lim current (total - h) = None ->
    budget_step s (with_task s (budget s) i (mkRes h Idle))
| step_shrink s i h total : tasks s !! i = Some (mkRes h Idle) -> 0 <= total < h ->
    budget_step s (with_task s (release (budget s) (h - total)).1 i (mkRes total Idle))
| step_drop s i h : tasks s !! i = Some (mkRes h Idle) ->
    budget_step s (with_task s (drop_reservation (budget s) h) i (mkRes 0 Dropped))
| step_set_limit s new : 0 <= new <= max_limit ->
    budget_step s (mkSystem (set_limit (budget s) new).1 (tasks s)).

Definition initial (s : System) : Prop :=
  used (budget s) = 0 /\ 0 <= limit (budget s) <= max_limit /\ tasks s = [].

Inductive reachable : System -> Prop :=
| reachable_init s : initial s -> reachable s
| reachable_step s s' : reachable s -> budget_step s s' -> reachable s'.

(** The same runs with all their states, the newest first. *)
Inductive history : list System -> Prop :=
| history_init s : initial s -> history [s]
| history_step s s' past : history (s :: past) -> budget_step s s' -> history (s' :: s :: past).

End Steps.

(** Task [i] is inside a [try_grow_to] that asked for [total] with [h] bytes
    held and loaded the limit [lim]. *)
Definition attempting (i : nat) (h total lim : Z) (s : System) : Prop :=
  tasks s !! i = Some (mkRes h (LoadedLimit total lim))
  \/ exists current, tasks s !! i = Some (mkRes h (CasLoop total lim current)).

(** * Lemmas *)

Definition total_of (f : Reservation -> Z) (l : list Reservation) : Z :=
  fold_right (fun r acc => f r + acc) 0 l.
(** The part of a reservation the free allowance covers. *)
Definition free_part (r : Reservation) : Z := Z.min (held r) FREE_BYTES.

Lemma total_of_app f l1 l2 : total_of f (l1 ++ l2) = total_of f l1 + total_of f l2.
Proof. induction l1 as [|r l1 IH]; simpl; lia. Qed.

Lemma total_of_insert f (l : list Reservation) i r r' : l !! i = Some r ->
  total_of f (<[i := r']> l) = total_of f l - f r + f r'.
Proof.
  revert i; induction l as [|x l IH]; intros [|i] H; simpl in *; try discriminate.
  - injection H as ->. lia.
  - rewrite IH by exact H. lia.
Qed.

Lemma total_of_le f g (l : list Reservation) : (forall r, r ∈ l -> f r <= g r) -> total_of f l <= total_of g l.
Proof.
  induction l as [|x l IH]; intros H; simpl; [lia|].
  pose proof (H x ltac:(set_solver)). specialize (IH ltac:(set_solver)). lia.
Qed.

Lemma total_of_const c l : total_of (fun _ => c) l = c * Z.of_nat (length l).
Proof. induction l as [|x l IH]; simpl; lia. Qed.

Lemma next_used_spec lim current extra next :
  next_used lim current extra = Some next <->
  next = current + extra /\ next <= lim /\ next <= usize_max.
Proof.
  unfold next_used, checked_add. destruct (Z.ltb_spec usize_max (current + extra)).
  - split; [discriminate|intros (-> & ? & ?); lia].
  - destruct (Z.leb_spec (current + extra) lim); split; try (intros [=]; lia);
      try (intros (-> & ? & ?); f_equal; lia).
Qed.

Lemma wrap_usize_small n : 0 <= n <= usize_max -> wrap_usize n = n.
Proof. intros H. unfold wrap_usize. apply Z.mod_small. lia. Qed.

(** * The invariant *)

Section Invariant.
Context (max_limit max_tasks : Z).
Hypothesis limit_nonneg : 0 <= max_limit.
Hypothesis no_overflow : max_limit + FREE_BYTES * max_tasks <= usize_max.

Definition pc_ok (r : Reservation) : Prop :=
  match pc r with
  | LoadedLimit total lim | CasLoop total lim _ => held r < total /\ lim <= max_limit
  | _ => True
  end.
Definition task_ok (r : Reservation) : Prop := 0 <= held r /\ pc_ok r.

Record budget_inv (s : System) : Prop := {
  inv_used : used (budget s) = total_of held (tasks s);
  inv_limit : 0 <= limit (budget s) <= max_limit;
  inv_tasks : forall i r, tasks s !! i = Some r -> task_ok r;
  inv_bound : used (budget s) <= max_limit + total_of free_part (tasks s);
  inv_count : Z.of_nat (length (tasks s)) <= max_tasks
}.

Lemma tasks_ok_insert (l : list Reservation) i r : (forall j x, l !! j = Some x -> task_ok x) -> task_ok r ->
  forall j x, <[i := r]> l !! j = Some x -> task_ok x.
Proof.
  intros Hl Hr j x H. apply list_lookup_insert_Some in H as [(_ & <- & _)|[_ H]]; eauto.
Qed.

Lemma free_part_bound l : total_of free_part l <= FREE_BYTES * Z.of_nat (length l).
Proof.
  rewrite <- total_of_const. apply total_of_le. intros r _. unfold free_part. lia.
Qed.

Lemma held_total_bound (l : list Reservation) i r : (forall j x, l !! j = Some x -> task_ok x) -> l !! i = Some r ->
  held r <= total_of held l.
Proof.
  revert i; induction l as [|x l IH]; intros [|i] Hl H; simpl in *; try discriminate.
  - injection H as ->. enough (0 <= total_of held l) by lia.
    transitivity (total_of (fun _ => 0) l); [rewrite total_of_const; lia|].
    apply total_of_le. intros y [j Hj]%list_elem_of_lookup. by destruct (Hl (S j) y Hj).
  - destruct (Hl 0%nat x eq_refl) as [Hx _]. specialize (IH i ltac:(intros j; apply (Hl (S j))) H). lia.
Qed.

Lemma used_range s : budget_inv s -> 0 <= used (budget s) <= usize_max.
Proof.
  intros [Hu _ Ht Hb Hc]. split.
  - rewrite Hu. transitivity (total_of (fun _ => 0) (tasks s)); [rewrite total_of_const; lia|].
    apply total_of_le. intros y [j Hj]%list_elem_of_lookup. by destruct (Ht j y Hj).
  - pose proof (free_part_bound (tasks s)). unfold FREE_BYTES in *. lia.
Qed.

(** Every step that replaces task [i] by [r'] and moves [used] by the
    difference keeps the invariant, if the bound survives. *)
Lemma inv_replace s i r r' b : budget_inv s -> tasks s !! i = Some r ->
  task_ok r' -> limit b = limit (budget s) ->
  used b = used (budget s) + (held r' - held r) ->
  used b <= max_limit + total_of free_part (<[i := r']> (tasks s)) ->
  budget_inv (with_task s b i r').
Proof.
  intros [Hu Hl Ht Hb Hc] Hi Hr Hlim Hused Hbound. split; simpl.
  - rewrite (total_of_insert _ _ _ r) by exact Hi. lia.
  - by rewrite Hlim.
  - by apply tasks_ok_insert.
  - exact Hbound.
  - by rewrite length_insert.
Qed.

Lemma release_used b n : 0 <= n <= used b -> used b <= usize_max ->
  used (release b n).1 = used b - n /\ limit (release b n).1 = limit b.
Proof.
  intros Hn Hu. unfold release. destruct (Z.ltb_spec 0 n); simpl; [|lia].
  rewrite wrap_usize_small by lia. lia.
Qed.

(** Giving bytes back. *)
Lemma inv_release s i h total r' : budget_inv s -> tasks s !! i = Some (mkRes h Idle) ->
  0 <= total <= h -> held r' = total -> pc_ok r' ->
  budget_inv (with_task s (release (budget s) (h - total)).1 i r').
Proof.
  intros Hinv Hi Ht Hr Hpc. pose proof (used_range s Hinv) as Hrange.
  pose proof (held_total_bound _ i _ (inv_tasks s Hinv) Hi) as Hh. rewrite <- (inv_used s Hinv) in Hh.
  simpl in Hh. destruct (release_used (budget s) (h - total)) as [Eu El]; [lia|lia|].
  apply (inv_replace s i _ _ _ Hinv Hi); [split; [lia|exact Hpc]|exact El|simpl; lia|].
  rewrite (total_of_insert _ _ _ _ _ Hi), Eu. unfold free_part at 2 3. simpl.
  pose proof (inv_bound s Hinv). rewrite Hr. lia.
Qed.

(** Steps that only move a task inside [try_grow_to]. *)
Lemma inv_move s i h p p' : budget_inv s -> tasks s !! i = Some (mkRes h p) ->
  pc_ok (mkRes h p') -> budget_inv (with_task s (budget s) i (mkRes h p')).
Proof.
  intros Hinv Hi Hp. destruct (inv_tasks s Hinv i _ Hi) as [Hh _].
  apply (inv_replace s i _ _ _ Hinv Hi); [split; [exact Hh|exact Hp]|reflexivity|simpl; lia|].
  rewrite (total_of_insert _ _ _ _ _ Hi). pose proof (inv_bound s Hinv).
  unfold free_part at 2 3. simpl. lia.
Qed.

(** Growing within the free allowance: never refused. *)
Lemma inv_free s i h total : budget_inv s -> tasks s !! i = Some (mkRes h Idle) ->
  h < total -> total <= FREE_BYTES ->
  budget_inv (with_task s (mkBudget (wrap_usize (used (budget s) + (total - h))) (limit (budget s)))
                        i (mkRes total Idle)).
Proof.
  intros Hinv Hi H1 H2. pose proof (used_range s Hinv) as Hrange.
  destruct (inv_tasks s Hinv i _ Hi) as [Hh _]. simpl in Hh.
  pose proof (inv_bound s Hinv) as Hb. pose proof (inv_count s Hinv) as Hc.
  assert (Hb' : used (budget s) + (total - h)
                <= max_limit + total_of free_part (<[i:=mkRes total Idle]> (tasks s))).
  { rewrite (total_of_insert _ _ _ _ _ Hi). unfold free_part at 2 3. simpl. lia. }
  pose proof (free_part_bound (<[i:=mkRes total Idle]> (tasks s))) as Hf.
  rewrite length_insert in Hf.
  rewrite wrap_usize_small by (unfold FREE_BYTES in *; lia).
  apply (inv_replace s i _ _ _ Hinv Hi); [split; [simpl; lia|exact I]|reflexivity|simpl; lia|exact Hb'].
Qed.

(** The compare-and-swap that succeeds. *)
Lemma inv_cas s i h total lim next : budget_inv s ->
  tasks s !! i = Some (mkRes h (CasLoop total lim (used (budget s)))) ->
  next_used lim (used (budget s)) (total - h) = Some next ->
  budget_inv (with_task s (mkBudget next (limit (budget s))) i (mkRes total Idle)).
Proof.
  intros Hinv Hi Hn. destruct (inv_tasks s Hinv i _ Hi) as [Hh [Hp1 Hp2]]. simpl in Hh, Hp1, Hp2.
  apply next_used_spec in Hn as (-> & Hlim & Hmax).
  apply (inv_replace s i _ _ _ Hinv Hi); [split; [simpl; lia|exact I]|reflexivity|simpl; lia|].
  simpl. enough (0 <= total_of free_part (<[i:=mkRes total Idle]> (tasks s))) by lia.
  transitivity (total_of (fun _ => 0) (<[i:=mkRes total Idle]> (tasks s))); [rewrite total_of_const; lia|].
  apply total_of_le. intros y [j Hj]%list_elem_of_lookup. unfold free_part, FREE_BYTES.
  destruct (tasks_ok_insert _ i (mkRes total Idle) (inv_tasks s Hinv) ltac:(split; [simpl; lia|exact I]) j y Hj).
  lia.
Qed.

(** A new reservation holds nothing. *)
Lemma inv_new s : budget_inv s -> Z.of_nat (length (tasks s)) < max_tasks ->
  budget_inv (mkSystem (budget s) (tasks s ++ [mkRes 0 Idle])).
Proof.
  intros [Hu Hl Ht Hb Hc] Hlen. split; simpl.
  - rewrite total_of_app. simpl. lia.
  - exact Hl.
  - intros i r H. apply lookup_app_Some in H as [H|[_ H]]; [eauto|].
    apply list_lookup_singleton_Some in H as [_ <-]. split; simpl; [lia|exact I].
  - rewrite total_of_app. simpl. unfold free_part at 2. simpl. unfold FREE_BYTES. lia.
  - rewrite length_app. simpl. lia.
Qed.

Lemma budget_inv_step s s' : budget_inv s -> budget_step max_limit max_tasks s s' -> budget_inv s'.
Proof.
  intros Hinv Hstep.
  destruct Hstep as [s Hlen|s i h total Hi H1 H2|s i h total Hi H1 H2|s i h total lim Hi
    |s i h total lim current next Hi Hn <-|s i h total lim current next Hi Hn
    |s i h total lim current Hi Hn|s i h total Hi H1|s i h Hi|s new Hnew].
  - by apply inv_new.
  - by apply inv_free.
  - apply (inv_move _ _ _ _ _ Hinv Hi). pose proof (inv_limit s Hinv). split; [exact H1|simpl; lia].
  - apply (inv_move _ _ _ _ _ Hinv Hi). exact (proj2 (inv_tasks s Hinv i _ Hi)).
  - by apply (inv_cas s i h total lim).
  - apply (inv_move _ _ _ _ _ Hinv Hi). exact (proj2 (inv_tasks s Hinv i _ Hi)).
  - apply (inv_move _ _ _ _ _ Hinv Hi). exact I.
  - apply inv_release; try assumption; [lia|reflexivity|exact I].
  - destruct (inv_tasks s Hinv i _ Hi) as [Hh _]. simpl in Hh. unfold drop_reservation.
    replace h with (h - 0) at 1 by lia. apply inv_release; try assumption; [lia|reflexivity|exact I].
  - destruct Hinv as [Hu Hl Ht Hb Hc]. split; simpl; assumption.
Qed.

Lemma budget_inv_reachable s : 0 <= max_tasks -> reachable max_limit max_tasks s -> budget_inv s.
Proof.
  intros Hmt. induction 1 as [s (Hu & Hl & Ht)|s s' _ IH Hstep]; [|by eapply budget_inv_step].
  split; rewrite ?Ht; simpl; try lia. intros i r H. by rewrite lookup_nil in H.
Qed.

End Invariant.

(** * Sequential lemmas *)

Lemma try_grow_result b h total b' h' ok : try_grow_to b h total = (b', h', ok) ->
  h' = (if ok then Z.max h total else h) /\ limit b' = limit b /\ (ok = false -> b' = b).
Proof.
  unfold try_grow_to. cbv zeta. intros H.
  destruct (Z.leb_spec total h); [injection H as <- <- <-; rewrite Z.max_l by lia; auto with congruence|].
  destruct (total <=? FREE_BYTES); [injection H as <- <- <-; rewrite Z.max_r by lia; auto with congruence|].
  destruct (next_used _ _ _); injection H as <- <- <-; rewrite ?Z.max_r by lia; auto with congruence.
Qed.

Lemma grow_wait_result wakes at_deadline b h total b' h' ok :
  grow_wait wakes at_deadline b h total = (b', h', ok) -> h' = if ok then Z.max h total else h.
Proof.
  revert b; induction wakes as [|w ws IH]; intros b; cbn [grow_wait];
    destruct (try_grow_to b h total) as [[b1 h1] []] eqn:E; intros H;
    destruct (try_grow_result _ _ _ _ _ _ E) as [-> _]; try (injection H as <- <- <-; reflexivity).
  - by destruct (try_grow_result _ _ _ _ _ _ H) as [-> _].
  - exact (IH _ H).
Qed.

Lemma grow_to_result wakes at_deadline b h total b' h' ok :
  grow_to wakes at_deadline b h total = (b', h', ok) -> h' = if ok then Z.max h total else h.
Proof.
  unfold grow_to. destruct (try_grow_to b h total) as [[b1 h1] []] eqn:E; intros H;
    destruct (try_grow_result _ _ _ _ _ _ E) as [-> _]; [by injection H as <- <- <-|].
  destruct (_ <? total); [by injection H as <- <- <-|]. exact (grow_wait_result _ _ _ _ _ _ _ _ H).
Qed.

Lemma grown_capacity_bounds n extra : 0 <= n -> 0 <= extra -> n + extra <= usize_max ->
  n + extra <= grown_capacity n extra <= usize_max
  /\ grown_capacity n extra <= n + Z.max extra (Z.max (n / 4) 65536).
Proof.
  intros Hn He Hs. unfold grown_capacity, saturating_add. pose proof (Z.div_pos n 4).
  destruct (Z.ltb_spec usize_max (n + Z.max (Z.max extra (n / 4)) (64 * 1024))); lia.
Qed.

(** The budget as the first [k] wake-ups left it. *)
Definition after_wakes (wakes : list (BodyBudget -> BodyBudget)) (k : nat) (b : BodyBudget) : BodyBudget :=
  fold_left (fun b w => w b) (take k wakes) b.

Lemma try_grow_fits b h total next : next_used (limit b) (used b) (total - h) = Some next ->
  (try_grow_to b h total).2 = true.
Proof.
  intros H. unfold try_grow_to. cbv zeta. destruct (total <=? h); [reflexivity|].
  destruct (total <=? FREE_BYTES); [reflexivity|]. by rewrite H.
Qed.

Lemma try_grow_granted u lim h total next : h < total -> FREE_BYTES < total ->
  next_used lim u (total - h) = Some next ->
  try_grow_to (mkBudget u lim) h total = (mkBudget next lim, total, true).
Proof. intros. unfold try_grow_to. cbv zeta. decide_cmp. cbn [limit used]. by simplify_option_eq. Qed.

Lemma try_grow_refused u lim h total : h < total -> FREE_BYTES < total ->
  next_used lim u (total - h) = None ->
  try_grow_to (mkBudget u lim) h total = (mkBudget u lim, h, false).
Proof. intros. unfold try_grow_to. cbv zeta. decide_cmp. cbn [limit used]. by simplify_option_eq. Qed.

Lemma grow_wait_fits wakes k at_deadline b h total next :
  next_used (limit (after_wakes wakes k b)) (used (after_wakes wakes k b)) (total - h) = Some next ->
  (grow_wait wakes at_deadline b h total).2 = true.
Proof.
  revert b k; induction wakes as [|w ws IH]; intros b k H; cbn [grow_wait].
  - unfold after_wakes in H. rewrite take_nil in H. simpl in H. apply try_grow_fits in H.
    destruct (try_grow_to b h total) as [[b1 h1] []]; [reflexivity|discriminate].
  - destruct (try_grow_to b h total) as [[b1 h1] []] eqn:E; [reflexivity|].
    destruct (try_grow_result _ _ _ _ _ _ E) as (-> & _ & Hb). rewrite Hb by reflexivity.
    destruct k as [|k]; [change (after_wakes (w :: ws) 0 b) with b in H; apply try_grow_fits in H; by rewrite E in H|].
    exact (IH _ k H).
Qed.

(** * Attempts of [try_grow_to] in a run *)

(** How a step may change what task [i] is doing. *)
Lemma step_enters ml mt s s' i h p :
  budget_step ml mt s s' -> tasks s' !! i = Some (mkRes h p) ->
  match p with
  | LoadedLimit total lim =>
      tasks s !! i = Some (mkRes h p)
      \/ (lim = limit (budget s) /\ tasks s !! i = Some (mkRes h Idle) /\ h < total /\ FREE_BYTES < total)
  | CasLoop total lim current =>
      tasks s !! i = Some (mkRes h p) \/ (current = used (budget s) /\ attempting i h total lim s)
  | _ => True
  end.
Proof.
  intros Hstep Hi. destruct p as [|total lim|total lim current|]; try exact I;
  destruct Hstep; simpl in Hi; try (left; exact Hi);
    try (apply lookup_app_Some in Hi as [Hi|[_ Hi]]; [by left|by apply list_lookup_singleton_Some in Hi as [_ ?]]);
    apply list_lookup_insert_Some in Hi as [(<- & [= <- <-] & _)|[_ Hi]]; auto.
  all: right; subst; unfold attempting; eauto.
Qed.

(** What ends a compare-and-swap loop. *)
Lemma step_finishes ml mt s s' i h h' total lim current :
  budget_step ml mt s s' ->
  tasks s !! i = Some (mkRes h (CasLoop total lim current)) -> tasks s' !! i = Some (mkRes h' Idle) ->
  (h' = total /\ next_used lim (used (budget s)) (total - h) = Some (used (budget s')))
  \/ (h' = h /\ budget s' = budget s /\ next_used lim current (total - h) = None).
Proof.
  intros Hstep Hi Hi'. assert (Hlt : (i < length (tasks s))%nat) by (by eapply lookup_lt_Some).
  destruct Hstep; simpl in Hi'; try congruence;
    try (rewrite lookup_app_l in Hi' by exact Hlt; congruence);
    apply list_lookup_insert_Some in Hi' as [(-> & [= <-] & _)|[? Hi']]; simplify_eq; try congruence.
  - left. by split_and!.
  - right. by split_and!.
Qed.

Definition began (l : list System) (i : nat) (h total lim : Z) (during : list System) : Prop :=
  exists begun before, l = during ++ begun :: before
    /\ tasks begun !! i = Some (mkRes h Idle) /\ limit (budget begun) = lim
    /\ h < total /\ FREE_BYTES < total /\ Forall (attempting i h total lim) during.

Lemma began_cons l i h total lim during s : attempting i h total lim s ->
  began l i h total lim during -> began (s :: l) i h total lim (s :: during).
Proof.
  intros Hs (begun & before & -> & Hb & Hl & H1 & H2 & Hd). exists begun, before.
  split_and!; try assumption; [reflexivity|by constructor].
Qed.

Lemma history_split ml mt s' s past : history ml mt (s' :: s :: past) ->
  history ml mt (s :: past) /\ budget_step ml mt s s'.
Proof. inversion 1; subst; auto. Qed.

(** Every attempt in a run began at some state of it, and has gone on since;
    the counter value it works with is one the counter had meanwhile. *)
Lemma attempt_history ml mt l : history ml mt l -> forall s past i h p,
  l = s :: past -> tasks s !! i = Some (mkRes h p) ->
  match p with
  | LoadedLimit total lim => exists during, began l i h total lim during /\ s ∈ during
  | CasLoop total lim current => exists during r,
      began l i h total lim during /\ r ∈ during /\ current = used (budget r)
  | _ => True
  end.
Proof.
  induction 1 as [s (_ & _ & E)|s s' past Hh IH Hstep]; intros s0 past0 i h p [= <- <-] Hi.
  - rewrite E in Hi. by rewrite lookup_nil in Hi.
  - pose proof (step_enters _ _ _ _ _ _ _ Hstep Hi) as He.
    destruct p as [|total lim|total lim current|]; try exact I.
    + destruct He as [He|(-> & He & H1 & H2)].
      * destruct (IH _ _ _ _ _ eq_refl He) as (during & Hb & _).
        exists (s' :: during). split; [by apply began_cons; [left|]|by left].
      * exists [s']. split; [|by left]. exists s, past. split_and!; auto.
        constructor; [by left|constructor].
    + destruct He as [He|[-> [He|[c He]]]]; destruct (IH _ _ _ _ _ eq_refl He) as (during & Hd);
        [destruct Hd as (r & Hb & Hr & ->)|destruct Hd as (Hb & Hs)|destruct Hd as (r & Hb & Hr & _)].
      * exists (s' :: during), r. split_and!; [apply began_cons; [by right; eexists|exact Hb]|by right|reflexivity].
      * exists (s' :: during), s. split_and!; [apply began_cons; [by right; eexists|exact Hb]|by right|reflexivity].
      * exists (s' :: during), s. split_and!; [apply began_cons; [by right; eexists|exact Hb]| |reflexivity].
        right. destruct Hb as (begun & before & E & Hb & _ & _ & _ & Hd). destruct during as [|d during].
        -- simpl in E. injection E as <- <-. congruence.
        -- injection E as <- _. by left.
Qed.

(** * Properties *)

(** C34: In every interleaving of any number of reservations growing,
    shrinking, dropping and retrying their compare-and-swap, with the limit
    changed at any moment, the counter is exactly the sum of what the
    reservations hold, it never wraps, and it never exceeds the largest
    limit by more than the free allowance of one mebibyte per reservation. *)
Theorem budget_conserved max_limit max_tasks s :
  0 <= max_limit -> 0 <= max_tasks -> max_limit + FREE_BYTES * max_tasks <= usize_max ->
  reachable max_limit max_tasks s ->
  used (budget s) = total_of held (tasks s)
  /\ 0 <= used (budget s) <= max_limit + FREE_BYTES * Z.of_nat (length (tasks s))
  /\ ((forall i r, tasks s !! i = Some r -> pc r = Dropped -> held r = 0) ->
      (forall i r, tasks s !! i = Some r -> pc r = Dropped) -> used (budget s) = 0).
Proof.
  intros Hl Ht Ho Hr. pose proof (budget_inv_reachable _ _ Hl Ho s Ht Hr) as Hinv.
  pose proof (used_range _ _ Ho s Hinv) as Hrange. destruct Hinv as [Hu _ Hok Hb Hc].
  pose proof (free_part_bound (tasks s)) as Hf. split; [exact Hu|]. split; [lia|].
  intros Hz Hd. rewrite Hu. clear -Hz Hd. revert Hz Hd.
  generalize (tasks s) as l. induction l as [|r l IH]; intros Hz Hd; simpl; [reflexivity|].
  rewrite (Hz 0%nat r eq_refl (Hd 0%nat r eq_refl)).
  rewrite IH; [reflexivity| |].
  - intros i x Hi. exact (Hz (S i) x Hi).
  - intros i x Hi. exact (Hd (S i) x Hi).
Qed.

Definition demo (b : BodyBudget) (l : list Reservation) : System := mkSystem b l.
Definition two_mib : Z := 2 * FREE_BYTES.

Definition demo_state (p : Pc) : System := demo (mkBudget 0 two_mib) [mkRes 0 p].

Lemma budget_conserved_witness :
  reachable two_mib 4 (demo (mkBudget two_mib two_mib) [mkRes two_mib Idle])
  /\ used (budget (demo (mkBudget two_mib two_mib) [mkRes two_mib Idle])) = two_mib.
Proof.
  assert (H : reachable two_mib 4 (demo (mkBudget two_mib two_mib) [mkRes two_mib Idle])).
  { assert (H0 : reachable two_mib 4 (demo (mkBudget 0 two_mib) [])).
    { apply reachable_init. repeat split; vm_compute; congruence. }
    pose proof (reachable_step _ _ _ (demo_state Idle) H0 (step_new two_mib 4 (demo (mkBudget 0 two_mib) []) eq_refl)) as H1.
    pose proof (reachable_step _ _ _ (demo_state (LoadedLimit two_mib two_mib)) H1
      (step_load_limit two_mib 4 (demo_state Idle) 0 0 two_mib eq_refl eq_refl eq_refl)) as H2.
    pose proof (reachable_step _ _ _ (demo_state (CasLoop two_mib two_mib 0)) H2
      (step_load_used two_mib 4 (demo_state (LoadedLimit two_mib two_mib)) 0 0 two_mib two_mib eq_refl)) as H3.
    exact (reachable_step _ _ _ _ H3
      (step_cas two_mib 4 (demo_state (CasLoop two_mib two_mib 0)) 0 0 two_mib two_mib 0 two_mib
         eq_refl eq_refl eq_refl)). }
  split; [exact H|].
  rewrite (proj1 (budget_conserved two_mib 4 _ ltac:(vm_compute; congruence) ltac:(lia)
    ltac:(vm_compute; congruence) H)). vm_compute. reflexivity.
Defined.

(** C39: Linearisation.  Take any run of the system, and a [try_grow_to]
    of one task that finishes its compare-and-swap loop in the run's last
    step.  The limit it used is the limit at the moment it began.  If it is
    granted, that last step acts on the shared counter, as it stands at that
    step, exactly like the atomic function.  If it is refused, nothing is
    changed, and the counter really had, at some step of the run between the
    beginning of the attempt and its end, a value on which the atomic
    function refuses. *)
Theorem try_grow_linearised max_limit max_tasks s' s past i h h' total lim current :
  history max_limit max_tasks (s' :: s :: past) ->
  tasks s !! i = Some (mkRes h (CasLoop total lim current)) -> tasks s' !! i = Some (mkRes h' Idle) ->
  exists during begun before,
    s :: past = during ++ begun :: before
    /\ tasks begun !! i = Some (mkRes h Idle) /\ limit (budget begun) = lim
    /\ Forall (attempting i h total lim) during
    /\ ((h' = total
         /\ try_grow_to (mkBudget (used (budget s)) lim) h total
            = (mkBudget (used (budget s')) lim, total, true))
        \/ (h' = h /\ budget s' = budget s
            /\ exists r, r ∈ during
               /\ try_grow_to (mkBudget (used (budget r)) lim) h total
                  = (mkBudget (used (budget r)) lim, h, false))).
Proof.
  intros Hh Hi Hi'.
  destruct (history_split _ _ _ _ _ Hh) as [Hpast Hstep].
  destruct (attempt_history _ _ _ Hpast _ _ _ _ _ eq_refl Hi)
    as (during & r & (begun & before & E & Hb & Hlim & Hlt & Hfree & Hd) & Hr & ->).
  exists during, begun, before. split_and!; try assumption.
  destruct (step_finishes _ _ _ _ _ _ _ _ _ _ Hstep Hi Hi') as [(-> & Hn)|(-> & Hs & Hn)].
  - left. split; [reflexivity|]. by apply try_grow_granted.
  - right. split_and!; [reflexivity|exact Hs|]. exists r. split; [exact Hr|]. by apply try_grow_refused.
Qed.

Definition refused_history : list System :=
  [ demo_state Idle; demo_state (CasLoop (2 * two_mib) two_mib 0);
    demo_state (LoadedLimit (2 * two_mib) two_mib); demo_state Idle; demo (mkBudget 0 two_mib) [] ].

Lemma refused_history_run : history two_mib 4 refused_history.
Proof.
  apply history_step; [|exact (step_refuse two_mib 4
    (demo_state (CasLoop (2 * two_mib) two_mib 0)) 0 0 (2 * two_mib) two_mib 0 eq_refl eq_refl)].
  apply history_step; [|exact (step_load_used two_mib 4
    (demo_state (LoadedLimit (2 * two_mib) two_mib)) 0 0 (2 * two_mib) two_mib eq_refl)].
  apply history_step; [|exact (step_load_limit two_mib 4
    (demo_state Idle) 0 0 (2 * two_mib) eq_refl eq_refl eq_refl)].
  apply history_step; [|exact (step_new two_mib 4 (demo (mkBudget 0 two_mib) []) eq_refl)].
  apply history_init. repeat split; vm_compute; congruence.
Qed.

Lemma try_grow_linearised_witness :
  exists during begun before,
    tail refused_history = during ++ begun :: before
    /\ limit (budget begun) = two_mib
    /\ (two_mib = 0 \/ exists r, r ∈ during
          /\ try_grow_to (mkBudget (used (budget r)) two_mib) 0 (2 * two_mib)
             = (mkBudget (used (budget r)) two_mib, 0, false)).
Proof.
  destruct (try_grow_linearised two_mib 4 (demo_state Idle) (demo_state (CasLoop (2 * two_mib) two_mib 0))
    (tail (tail refused_history)) 0 0 0 (2 * two_mib) two_mib 0 refused_history_run eq_refl eq_refl)
    as (during & begun & before & E & _ & Hl & _ & H).
  exists during, begun, before. split_and!; [exact E|exact Hl|].
  destruct H as [[H _]|(_ & _ & H)]; [vm_compute in H; discriminate|right; exact H].
Defined.

(** [grow_to] leaves the reservation as it was when it answers no and
    at the requested size (never below what it held) when it answers yes;
    the free allowance is never refused; more than the whole budget is
    refused without waiting, whatever the other tasks would have done; and
    otherwise it succeeds as soon as, at some wake-up within the deadline,
    the bytes fit. *)
Theorem grow_to_spec wakes at_deadline b h total b' h' ok :
  grow_to wakes at_deadline b h total = (b', h', ok) ->
  h' = (if ok then Z.max h total else h)
  /\ (total <= Z.max h FREE_BYTES -> ok = true)
  /\ (h < total -> Z.max (limit b) FREE_BYTES < total -> h <= used b -> ok = false /\ b' = b)
  /\ (forall k next, (k <= length wakes)%nat -> total <= Z.max (limit b) FREE_BYTES ->
        next_used (limit (after_wakes wakes k b)) (used (after_wakes wakes k b)) (total - h) = Some next ->
        ok = true).
Proof.
  intros H. split; [exact (grow_to_result _ _ _ _ _ _ _ _ H)|]. unfold grow_to in H.
  destruct (try_grow_to b h total) as [[b1 h1] ok1] eqn:E.
  pose proof (try_grow_result _ _ _ _ _ _ E) as (Eh & El & Eb).
  split; [|split].
  - intros Hfree. destruct ok1; [congruence|]. exfalso. unfold try_grow_to in E. cbv zeta in E.
    destruct (Z.leb_spec total h); [discriminate|]. destruct (Z.leb_spec total FREE_BYTES); [discriminate|lia].
  - intros Hlt Hmax Hused. destruct ok1.
    + exfalso. unfold try_grow_to in E. cbv zeta in E.
      destruct (Z.leb_spec total h); [lia|]. destruct (Z.leb_spec total FREE_BYTES); [lia|].
      destruct (next_used _ _ _) as [n|] eqn:En; [|discriminate]. apply next_used_spec in En. lia.
    + rewrite Eb in H by reflexivity. rewrite (proj2 (Z.ltb_lt _ _) Hmax) in H. by injection H as <- <- <-.
  - intros k next Hk Hmax Hn. destruct ok1; [congruence|].
    rewrite Eb in H by reflexivity. rewrite (proj2 (Z.ltb_ge _ _) Hmax) in H. subst h1.
    pose proof (grow_wait_fits wakes k at_deadline b h total next Hn) as Hw. by rewrite H in Hw.
Qed.

Lemma grow_to_spec_witness :
  (* one other task gives its bytes back before the first wake-up *)
  grow_to [fun b => (release b two_mib).1] (fun b => b) (mkBudget two_mib two_mib) 0 two_mib
  = (mkBudget two_mib two_mib, two_mib, true) /\ two_mib = Z.max 0 two_mib.
Proof.
  split; [vm_compute; reflexivity|].
  apply (grow_to_spec [fun b => (release b two_mib).1] (fun b => b) (mkBudget two_mib two_mib) 0 two_mib
    (mkBudget two_mib two_mib) two_mib true).
  vm_compute. reflexivity.
Defined.

(** A body buffer whose capacity is covered by its reservation stays
    covered: [make_room] reserves the capacity the buffer grows to before it
    is allocated, and when it answers yes the bytes asked for fit. *)
Theorem make_room_covered alloc wakes at_deadline b h n cap extra b' h' cap' ok :
  0 <= n <= cap -> cap <= h -> 0 <= extra -> n + extra <= usize_max ->
  make_room alloc wakes at_deadline b h n cap extra = (b', h', cap', ok) ->
  n <= cap' <= h' /\ (ok = true -> n + extra <= cap')
  /\ cap' <= Z.max cap (n + Z.max extra (Z.max (n / 4) 65536)).
Proof.
  intros Hn Hc He Hs. unfold make_room, grow_vec.
  destruct (grown_capacity_bounds n extra ltac:(lia) He Hs) as [Hg1 Hg2].
  destruct (Z.leb_spec extra (cap - n)); [intros [= <- <- <- <-]; lia|].
  destruct (grow_to wakes at_deadline b h _) as [[b1 h1] []] eqn:E;
    apply grow_to_result in E as ->; [|intros [= <- <- <- <-]; lia].
  destruct (alloc _); intros [= <- <- <- <-]; lia.
Qed.

Lemma make_room_covered_witness :
  make_room (fun _ => true) [] (fun b => b) (mkBudget 100 DEFAULT_BODY_BUDGET) 100 100 100 5
  = (mkBudget 65636 DEFAULT_BODY_BUDGET, 65636, 65636, true) /\ 100 + 5 <= 65636.
Proof.
  split; [vm_compute; reflexivity|].
  apply (make_room_covered (fun _ => true) [] (fun b => b) (mkBudget 100 DEFAULT_BODY_BUDGET) 100 100 100 5
    (mkBudget 65636 DEFAULT_BODY_BUDGET) 65636 65636 true); try (vm_compute; reflexivity); try lia.
  vm_compute. congruence.
Defined.
