(* ===== verification/Pool.v ===== *)
(** The upstream connection pool: the model of
    [agentcage-egress/src/proxy/pool.rs].  Idle HTTP/1 connections and
    HTTP/2 sessions are kept per key across client connections; every
    operation is one critical section of the pool's mutex.  The counters of
    streams in flight are shared ([Arc<AtomicUsize>]) between a session and
    its leases, so they live in a store of their own, indexed by the
    counter's identity. *)
From S2P Require Import Prelude Domain.
From Stdlib Require Import ZifyBool.

(** * Definitions *)

Definition IDLE_TIMEOUT : Z := 60.
Definition MAX_IDLE_PER_KEY : nat := 16.
Definition MAX_H2_PER_KEY : nat := 4.
Definition MAX_POOLED : Z := 256.

Record UpstreamKey : Type := mkKey {
  inbound : bool; tls : bool; host : str; port : Z;
  key_sni : option str; key_alpn : list bytes; key_epoch : Z
}.
#[export] Instance UpstreamKey_eq_dec : EqDecision UpstreamKey.
Proof. solve_decision. Defined.
#[export] Instance UpstreamKey_countable : Countable UpstreamKey.
Proof.
  apply (inj_countable' (fun k => (inbound k, tls k, host k, port k, key_sni k, key_alpn k, key_epoch k))
    (fun '(i, t, h, p, s, a, e) => mkKey i t h p s a e)).
  by intros [].
Defined.

Record PoolLimits : Type := mkLimits {
  idle_timeout : Z; idle_per_key : nat; h2_per_key : nat; total : Z
}.
Definition default_limits : PoolLimits := mkLimits IDLE_TIMEOUT MAX_IDLE_PER_KEY MAX_H2_PER_KEY MAX_POOLED.

Section Pool.
(** The transport: a buffered HTTP/1 connection and an [h2] request sender,
    with what the pool asks of them during one critical section.  The answers
    change over time (a session fails, the peer changes its stream limit):
    [pool_reachable] takes new ones at every step. *)
Context {Conn Sender : Type}.
Context (buf_is_empty : Conn -> bool) (still_idle : Conn -> bool).
Context (sender_failed : Sender -> bool) (current_max_send_streams : Sender -> Z).

Record IdleH1 : Type := mkIdle { conn : Conn; peer : IpAddr; since : Z }.
Record H2Session : Type := mkSession {
  sender : Sender; h2_peer : IpAddr; last_used : Z;
  active : nat   (** which counter of the store *)
}.
Record H2Lease : Type := mkLease { lease_sender : Sender; lease_active : nat }.

(** The counters. *)
Abbreviation Store := (gmap nat Z).
Definition load (st : Store) (a : nat) : Z := default 0 (st !! a).
Definition fetch_add (st : Store) (a : nat) (d : Z) : Store := <[a := load st a + d]> st.

Definition is_closed (s : H2Session) : bool := sender_failed (sender s).
Definition is_full (st : Store) (s : H2Session) : bool :=
  Z.max (current_max_send_streams (sender s)) 1 <=? load st (active s).

Definition new_lease (st : Store) (s : Sender) (a : nat) : Store * H2Lease :=
  (fetch_add st a 1, mkLease s a).
Definition drop_lease (st : Store) (l : H2Lease) : Store := fetch_add st (lease_active l) (-1).

Record Inner : Type := mkInner {
  epoch : Z;
  h1 : gmap UpstreamKey (list IdleH1);
  h2 : gmap UpstreamKey (list H2Session);
  count : Z
}.
Definition empty_inner : Inner := mkInner 0 ∅ ∅ 0.

Definition admit_epoch_at (p : Inner) (e : Z) : Inner * bool :=
  let p := if epoch p <? e then mkInner e ∅ ∅ 0 else p in
  (p, e =? epoch p).

(** [HashMap::retain] over the lists, keeping [f] of each list and dropping
    the keys left empty, with how many elements went. *)
Definition retain_lists {A} (f : A -> bool) (m : gmap UpstreamKey (list A)) : gmap UpstreamKey (list A) :=
  omap (fun l => match List.filter f l with [] => None | l' => Some l' end) m.
Definition dropped {A} (f : A -> bool) (m : gmap UpstreamKey (list A)) : Z :=
  wsum (fun l => Z.of_nat (length l) - Z.of_nat (length (List.filter f l))) m.

Definition duration_since (now since : Z) : Z := saturating_sub now since.
Definition fresh_h1 (now timeout : Z) (c : IdleH1) : bool := duration_since now (since c) <? timeout.
Definition keep_h2 (st : Store) (now timeout : Z) (s : H2Session) : bool :=
  let busy := 0 <? load st (active s) in
  (busy || (duration_since now (last_used s) <? timeout)) && negb (is_closed s).

Definition sweep_inner (st : Store) (now timeout : Z) (p : Inner) : Inner :=
  mkInner (epoch p) (retain_lists (fresh_h1 now timeout) (h1 p))
          (retain_lists (keep_h2 st now timeout) (h2 p))
          (count p - (dropped (fresh_h1 now timeout) (h1 p) + dropped (keep_h2 st now timeout) (h2 p))).

Definition set_list {A} (k : UpstreamKey) (l : list A) (m : gmap UpstreamKey (list A)) :=
  match l with [] => delete k m | _ => <[k := l]> m end.

(** [filter(..).min_by_key(active)]: the index of the first least busy
    session that qualifies. *)
Fixpoint pick_min (st : Store) (ok : H2Session -> bool) (l : list H2Session) : option (nat * Z) :=
  match l with
  | [] => None
  | s :: r =>
      let rest := pick_min st ok r in
      if ok s then
        match rest with
        | Some (i, n) => if n <? load st (active s) then Some (S i, n) else Some (0%nat, load st (active s))
        | None => Some (0%nat, load st (active s))
        end
      else match rest with Some (i, n) => Some (S i, n) | None => None end
  end.

Definition touch (now : Z) (s : H2Session) : H2Session :=
  mkSession (sender s) (h2_peer s) now (active s).

(** The critical section of [UpstreamPool::h2]. *)
Definition h2_pick (lim : PoolLimits) (now : Z) (st : Store) (p : Inner) (key : UpstreamKey)
  : Store * Inner * option (H2Lease * IpAddr) :=
  let '(p, admitted) := admit_epoch_at p (key_epoch key) in
  if negb admitted then (st, p, None)
  else match h2 p !! key with
       | None => (st, p, None)
       | Some sessions =>
           let kept := List.filter (fun s => negb (is_closed s)) sessions in
           let closed := Z.of_nat (length sessions) - Z.of_nat (length kept) in
           let at_cap := Nat.leb (h2_per_key lim) (length kept) in
           match pick_min st (fun s => at_cap || negb (is_full st s)) kept with
           | Some (i, _) =>
               match kept !! i with
               | Some s =>
                   let '(st', lease) := new_lease st (sender s) (active s) in
                   (st', mkInner (epoch p) (h1 p) (set_list key (<[i := touch now s]> kept) (h2 p))
                                 (count p - closed),
                    Some (lease, h2_peer s))
               | None => (st, p, None)
               end
           | None => (st, mkInner (epoch p) (h1 p) (set_list key kept (h2 p)) (count p - closed), None)
           end
       end.

Definition forget_h2 (p : Inner) (key : UpstreamKey) (lease : H2Lease) : Inner :=
  match h2 p !! key with
  | None => p
  | Some sessions =>
      let kept := List.filter (fun s => negb (Nat.eqb (active s) (lease_active lease))) sessions in
      let removed := Z.of_nat (length sessions) - Z.of_nat (length kept) in
      mkInner (epoch p) (h1 p) (set_list key kept (h2 p)) (count p - removed)
  end.

(** [UpstreamPool::h2], [vet] being asked outside the lock. *)
Definition take_h2 (lim : PoolLimits) (now : Z) (vet : IpAddr -> bool) (st : Store) (p : Inner)
    (key : UpstreamKey) : Store * Inner * option H2Lease :=
  match h2_pick lim now st p key with
  | (st', p', None) => (st', p', None)
  | (st', p', Some (lease, peer)) =>
      if vet peer then (st', p', Some lease)
      else (drop_lease st' lease, forget_h2 p' key lease, None)
  end.

(** [a] is the new counter's identity, fresh in the store. *)
Definition put_h2 (lim : PoolLimits) (now : Z) (a : nat) (st : Store) (p : Inner) (key : UpstreamKey)
    (s : Sender) (peer : IpAddr) : Store * Inner * H2Lease :=
  let '(st, lease) := new_lease (<[a := 0]> st) s a in
  let '(p, admitted) := admit_epoch_at p (key_epoch key) in
  if negb admitted then (st, p, lease)
  else
    let p := if total lim <=? count p then sweep_inner st now (idle_timeout lim) p else p in
    let room := count p <? total lim in
    let sessions := default [] (h2 p !! key) in
    if room && Nat.ltb (length sessions) (h2_per_key lim) then
      (st, mkInner (epoch p) (h1 p) (<[key := sessions ++ [mkSession s peer now a]]> (h2 p)) (count p + 1),
       lease)
    else (st, mkInner (epoch p) (h1 p) (set_list key sessions (h2 p)) (count p), lease).

(** [Vec::pop]: the last element and the rest. *)
Definition pop {A} (l : list A) : option (A * list A) :=
  match last l with Some x => Some (x, removelast l) | None => None end.

(** One critical section of [take_h1]'s loop. *)
Definition h1_pop (p : Inner) (key : UpstreamKey) : Inner * option IdleH1 :=
  let '(p, admitted) := admit_epoch_at p (key_epoch key) in
  if negb admitted then (p, None)
  else match h1 p !! key with
       | None => (p, None)
       | Some conns =>
           match pop conns with
           | None => (mkInner (epoch p) (delete key (h1 p)) (h2 p) (count p), None)
           | Some (idle, rest) =>
               (mkInner (epoch p) (set_list key rest (h1 p)) (h2 p) (count p - 1), Some idle)
           end
       end.

(** The loop; [clock i] is the time read at the i-th turn. *)
Fixpoint take_h1_loop (fuel turn : nat) (lim : PoolLimits) (clock : nat -> Z) (vet : IpAddr -> bool)
    (p : Inner) (key : UpstreamKey) : option (Inner * option (Conn * IpAddr)) :=
  match fuel with
  | O => None
  | S fuel' =>
      match h1_pop p key with
      | (p', None) => Some (p', None)
      | (p', Some idle) =>
          if fresh_h1 (clock turn) (idle_timeout lim) idle && still_idle (conn idle) && vet (peer idle)
          then Some (p', Some (conn idle, peer idle))
          else take_h1_loop fuel' (S turn) lim clock vet p' key
      end
  end.
Definition take_h1 (lim : PoolLimits) (clock : nat -> Z) (vet : IpAddr -> bool) (p : Inner)
    (key : UpstreamKey) : option (Inner * option (Conn * IpAddr)) :=
  take_h1_loop (S (length (default [] (h1 p !! key)))) 0 lim clock vet p key.

Definition put_h1 (lim : PoolLimits) (now : Z) (st : Store) (p : Inner) (key : UpstreamKey)
    (c : Conn) (peer : IpAddr) : Inner :=
  if negb (buf_is_empty c) then p
  else
    let '(p, admitted) := admit_epoch_at p (key_epoch key) in
    if negb admitted then p
    else
      let p' := if total lim <=? count p then sweep_inner st now (idle_timeout lim) p else p in
      if (total lim <=? count p) && (total lim <=? count p') then p'
      else
        let conns := default [] (h1 p' !! key) in
        let '(conns, evicted) :=
          if Nat.leb (idle_per_key lim) (length conns) then (List.tl conns, 1) else (conns, 0) in
        mkInner (epoch p') (<[key := conns ++ [mkIdle c peer now]]> (h1 p')) (h2 p') (count p' + 1 - evicted).

Definition sweep (lim : PoolLimits) (now : Z) (st : Store) (p : Inner) : Inner :=
  sweep_inner st now (idle_timeout lim) p.

(** ** The pool as its users see it *)

(** The pool, the counters, and the leases alive. *)
Record PoolState : Type := mkPool { inner : Inner; store : Store; leases : list H2Lease }.

Inductive pool_step (lim : PoolLimits) : PoolState -> PoolState -> Prop :=
| pool_pop s key : pool_step lim s (mkPool (h1_pop (inner s) key).1 (store s) (leases s))
| pool_put_h1 s now key c ip :
    pool_step lim s (mkPool (put_h1 lim now (store s) (inner s) key c ip) (store s) (leases s))
| pool_pick s now key st' p' lease ip :
    h2_pick lim now (store s) (inner s) key = (st', p', Some (lease, ip)) ->
    pool_step lim s (mkPool p' st' (lease :: leases s))
| pool_pick_none s now key st' p' :
    h2_pick lim now (store s) (inner s) key = (st', p', None) ->
    pool_step lim s (mkPool p' st' (leases s))
| pool_put_h2 s now a key sd ip st' p' lease :
    store s !! a = None ->
    put_h2 lim now a (store s) (inner s) key sd ip = (st', p', lease) ->
    pool_step lim s (mkPool p' st' (lease :: leases s))
| pool_forget s key lease :
    pool_step lim s (mkPool (forget_h2 (inner s) key lease) (store s) (leases s))
| pool_drop s lease l1 l2 : leases s = l1 ++ lease :: l2 ->
    pool_step lim s (mkPool (inner s) (drop_lease (store s) lease) (l1 ++ l2))
| pool_sweep s now :
    pool_step lim s (mkPool (sweep lim now (store s) (inner s)) (store s) (leases s)).


(** * Lemmas *)

Definition lens {A} (m : gmap UpstreamKey (list A)) : Z := wsum (fun l => Z.of_nat (length l)) m.
(** No empty list, none longer than [cap], every key of the epoch [e]. *)
Definition wf_lists {A} (cap : nat) (e : Z) (m : gmap UpstreamKey (list A)) : Prop :=
  forall k l, m !! k = Some l -> l <> [] /\ (length l <= cap)%nat /\ key_epoch k = e.

Lemma lens_set_list {A} k (l : list A) m :
  lens (set_list k l m) = lens m - Z.of_nat (length (default [] (m !! k))) + Z.of_nat (length l).
Proof.
  unfold lens, set_list. destruct (m !! k) as [l0|] eqn:Ek; simpl.
  - destruct l as [|x l]; [rewrite (wsum_delete _ m k l0 Ek); simpl; lia|].
    rewrite (wsum_replace _ m k l0 _ Ek). lia.
  - destruct l as [|x l]; [rewrite delete_id by exact Ek; simpl; lia|].
    rewrite wsum_insert by exact Ek. lia.
Qed.

Lemma lens_insert {A} k (l : list A) m :
  lens (<[k := l]> m) = lens m - Z.of_nat (length (default [] (m !! k))) + Z.of_nat (length l).
Proof.
  unfold lens. destruct (m !! k) as [l0|] eqn:Ek; simpl.
  - rewrite (wsum_replace _ m k l0 _ Ek). lia.
  - rewrite wsum_insert by exact Ek. lia.
Qed.

Lemma lens_retain {A} (f : A -> bool) m : lens (retain_lists f m) = lens m - dropped f m.
Proof.
  unfold lens, retain_lists, dropped. rewrite wsum_omap, wsum_sub.
  match goal with |- wsum ?g m = _ =>
    assert (E : wsum g m = wsum (fun l => Z.of_nat (length (List.filter f l))) m) end; [|rewrite E; lia].
  apply wsum_ext. intros l. by destruct (List.filter f l).
Qed.

Lemma length_filter_le {A} (f : A -> bool) l : (length (List.filter f l) <= length l)%nat.
Proof. induction l as [|x l IH]; simpl; [lia|]. destruct (f x); simpl; lia. Qed.

Lemma dropped_nonneg {A} (f : A -> bool) m : 0 <= dropped f m.
Proof. apply wsum_nonneg. intros l. pose proof (length_filter_le f l). lia. Qed.

Lemma lens_nonneg {A} (m : gmap UpstreamKey (list A)) : 0 <= lens m.
Proof. apply wsum_nonneg. intros l. lia. Qed.

Lemma wf_insert {A} cap e k (l : list A) m : wf_lists cap e m -> l <> [] -> (length l <= cap)%nat ->
  key_epoch k = e -> wf_lists cap e (<[k := l]> m).
Proof.
  intros Hm Hl Hc He j l' Hj. apply lookup_insert_Some in Hj as [[<- <-]|[_ Hj]]; [auto|eauto].
Qed.

Lemma wf_set_list {A} cap e k (l : list A) m : wf_lists cap e m -> (length l <= cap)%nat ->
  key_epoch k = e -> wf_lists cap e (set_list k l m).
Proof.
  intros Hm Hc He. unfold set_list. destruct l as [|x l].
  - intros j l' Hj. apply lookup_delete_Some in Hj as [_ Hj]. eauto.
  - by apply wf_insert.
Qed.

Lemma wf_delete {A} cap e k (m : gmap UpstreamKey (list A)) : wf_lists cap e m ->
  wf_lists cap e (delete k m).
Proof. intros Hm j l' Hj. apply lookup_delete_Some in Hj as [_ Hj]. eauto. Qed.

Lemma wf_retain {A} cap e (f : A -> bool) m : wf_lists cap e m -> wf_lists cap e (retain_lists f m).
Proof.
  intros Hm j l' Hj. unfold retain_lists in Hj. apply lookup_omap_Some in Hj as (l & Hf & Hl).
  destruct (Hm j l Hl) as (_ & Hc & He). pose proof (length_filter_le f l).
  destruct (List.filter f l) as [|x r]; [discriminate|]. injection Hf as <-.
  repeat split; [congruence|simpl in *; lia|exact He].
Qed.

(** ** The invariant of the maps *)

Context (lim : PoolLimits).

Record inner_inv (p : Inner) : Prop := {
  inv_count : count p = lens (h1 p) + lens (h2 p);
  inv_h1 : wf_lists (idle_per_key lim) (epoch p) (h1 p);
  inv_h2 : wf_lists (h2_per_key lim) (epoch p) (h2 p);
  inv_total : count p <= total lim
}.

Lemma empty_lists_wf {A} cap e : wf_lists cap e (∅ : gmap UpstreamKey (list A)).
Proof. intros k l H. by rewrite lookup_empty in H. Qed.

Lemma admit_inv p e : 0 <= total lim -> inner_inv p ->
  inner_inv (admit_epoch_at p e).1 /\ ((admit_epoch_at p e).2 = true -> e = epoch (admit_epoch_at p e).1).
Proof.
  intros Ht Hp. unfold admit_epoch_at. cbv zeta. destruct (Z.ltb_spec (epoch p) e); simpl.
  - split; [|lia]. split; simpl; [|apply empty_lists_wf|apply empty_lists_wf|lia].
    unfold lens. by rewrite !wsum_empty.
  - split; [exact Hp|lia].
Qed.

Lemma sweep_inv st now timeout p : inner_inv p -> inner_inv (sweep_inner st now timeout p).
Proof.
  intros [Hc H1 H2 Ht]. split; simpl.
  - rewrite !lens_retain. lia.
  - by apply wf_retain.
  - by apply wf_retain.
  - pose proof (dropped_nonneg (fresh_h1 now timeout) (h1 p)).
    pose proof (dropped_nonneg (keep_h2 st now timeout) (h2 p)). lia.
Qed.

(** Replacing the list of one key by a shorter one. *)
Lemma shrink_h1 p k l : inner_inv p -> epoch p = key_epoch k ->
  (length l <= length (default [] (h1 p !! k)))%nat ->
  inner_inv (mkInner (epoch p) (set_list k l (h1 p)) (h2 p)
    (count p - (Z.of_nat (length (default [] (h1 p !! k))) - Z.of_nat (length l)))).
Proof.
  intros [Hc H1 H2 Ht] He Hl. split; simpl; [rewrite lens_set_list; lia| |exact H2|lia].
  apply wf_set_list; [exact H1| |congruence]. destruct (h1 p !! k) as [l0|] eqn:Ek; simpl in *; [|lia].
  destruct (H1 k l0 Ek) as (_ & ? & _). lia.
Qed.

Lemma shrink_h2 p k l : inner_inv p -> epoch p = key_epoch k ->
  (length l <= length (default [] (h2 p !! k)))%nat ->
  inner_inv (mkInner (epoch p) (h1 p) (set_list k l (h2 p))
    (count p - (Z.of_nat (length (default [] (h2 p !! k))) - Z.of_nat (length l)))).
Proof.
  intros [Hc H1 H2 Ht] He Hl. split; simpl; [rewrite lens_set_list; lia|exact H1| |lia].
  apply wf_set_list; [exact H2| |congruence]. destruct (h2 p !! k) as [l0|] eqn:Ek; simpl in *; [|lia].
  destruct (H2 k l0 Ek) as (_ & ? & _). lia.
Qed.

Lemma removelast_length {A} (l : list A) : length (removelast l) = (length l - 1)%nat.
Proof. induction l as [|x [|y l] IH]; simpl in *; [reflexivity|reflexivity|lia]. Qed.

Lemma pop_spec {A} (l : list A) x r : pop l = Some (x, r) <-> l = r ++ [x].
Proof.
  unfold pop. split.
  - destruct (last l) as [y|] eqn:El; [|discriminate]. intros [= <- <-].
    apply last_Some in El as [l' ->]. by rewrite removelast_last.
  - intros ->. by rewrite last_snoc, removelast_last.
Qed.

Lemma pop_None {A} (l : list A) : pop l = None <-> l = [].
Proof.
  split; [|intros ->; reflexivity]. unfold pop. destruct (last l) eqn:El; [discriminate|].
  intros _. by apply last_None.
Qed.

Lemma h1_pop_inv p key : 0 <= total lim -> inner_inv p -> inner_inv (h1_pop p key).1.
Proof.
  intros Ht Hp. destruct (admit_inv p (key_epoch key) Ht Hp) as [Ha He]. unfold h1_pop.
  destruct (admit_epoch_at p (key_epoch key)) as [q []]; simpl in *; [|exact Ha]. specialize (He eq_refl).
  destruct (h1 q !! key) as [conns|] eqn:Ek; [|exact Ha].
  destruct (pop conns) as [[idle rest]|] eqn:Ep; simpl.
  - apply pop_spec in Ep as ->. pose proof (shrink_h1 q key rest Ha ltac:(congruence)) as H.
    rewrite Ek in H. simpl in H. rewrite length_app in H. simpl in H.
    replace (count q - 1) with (count q - (Z.of_nat (length rest + 1) - Z.of_nat (length rest))) by lia.
    apply H. lia.
  - apply pop_None in Ep as ->. destruct (inv_h1 q Ha key [] Ek) as [? _]. congruence.
Qed.

Lemma put_h1_inv now st p key c ip : 0 <= total lim -> (0 < idle_per_key lim)%nat -> inner_inv p ->
  inner_inv (put_h1 lim now st p key c ip).
Proof.
  intros Ht Hk Hp. unfold put_h1. destruct (negb (buf_is_empty c)); [exact Hp|].
  destruct (admit_inv p (key_epoch key) Ht Hp) as [Ha He].
  destruct (admit_epoch_at p (key_epoch key)) as [q []]; simpl in *; [|exact Ha]. specialize (He eq_refl).
  set (q' := if total lim <=? count q then _ else q).
  assert (Hq' : inner_inv q' /\ epoch q' = epoch q).
  { subst q'. destruct (_ <=? _); [split; [by apply sweep_inv|reflexivity]|by split]. }
  destruct Hq' as [Hq' Eq]. destruct (_ && _) eqn:Efull; [exact Hq'|].
  assert (Hroom : count q' < total lim).
  { subst q'. destruct (total lim <=? count q) eqn:E; apply Z.leb_gt; [exact Efull|exact E]. }
  clearbody q'.
  set (l := default [] (h1 q' !! key)) in *.
  assert (Hl : (length l <= idle_per_key lim)%nat).
  { subst l. destruct (h1 q' !! key) as [l0|] eqn:Ek; simpl; [|lia].
    by destruct (inv_h1 q' Hq' key l0 Ek) as (_ & ? & _). }
  set (l' := if Nat.leb (idle_per_key lim) (length l) then (tl l, 1) else (l, 0)).
  assert (Hl' : Z.of_nat (length l'.1) = Z.of_nat (length l) - l'.2 /\ 0 <= l'.2
                /\ (length l'.1 < idle_per_key lim)%nat).
  { subst l'. destruct (Nat.leb (idle_per_key lim) (length l)) eqn:E; destruct l; simpl in *; lia. }
  destruct l' as [conns evicted]. simpl in Hl'. destruct Hl' as (Hlen & Hev & Hcap). split; simpl.
  - pose proof (inv_count q' Hq'). rewrite lens_insert. fold l. rewrite length_app. simpl. lia.
  - apply wf_insert; [exact (inv_h1 q' Hq')|by destruct conns|rewrite length_app; simpl; lia|congruence].
  - exact (inv_h2 q' Hq').
  - lia.
Qed.

Lemma h2_pick_inv now st p key st' p' r : 0 <= total lim -> inner_inv p ->
  h2_pick lim now st p key = (st', p', r) -> inner_inv p'.
Proof.
  intros Ht Hp. unfold h2_pick.
  destruct (admit_inv p (key_epoch key) Ht Hp) as [Ha He].
  destruct (admit_epoch_at p (key_epoch key)) as [q []]; simpl in *; [|by intros [= _ <- _]].
  specialize (He eq_refl). destruct (h2 q !! key) as [sessions|] eqn:Ek; [|by intros [= _ <- _]].
  set (kept := List.filter _ sessions). pose proof (length_filter_le (fun s => negb (is_closed s)) sessions) as Hl.
  fold kept in Hl.
  assert (Hset : forall l, length l = length kept -> inner_inv (mkInner (epoch q) (h1 q) (set_list key l (h2 q))
            (count q - (Z.of_nat (length sessions) - Z.of_nat (length kept))))).
  { intros l Hlen. pose proof (shrink_h2 q key l Ha ltac:(congruence)) as H. rewrite Ek in H. simpl in H.
    rewrite Hlen in H. apply H. exact Hl. }
  destruct (pick_min st _ kept) as [[i n]|]; [|intros [= _ <- _]; by apply Hset].
  destruct (kept !! i) as [s|] eqn:Ei; [|by intros [= _ <- _]].
  intros [= _ <- _]. apply Hset. by rewrite length_insert.
Qed.

Lemma forget_h2_inv p key lease : inner_inv p -> inner_inv (forget_h2 p key lease).
Proof.
  intros Hp. unfold forget_h2. destruct (h2 p !! key) as [sessions|] eqn:Ek; [|exact Hp].
  destruct (inv_h2 p Hp key sessions Ek) as (_ & _ & He).
  pose proof (shrink_h2 p key (List.filter (fun s => negb (Nat.eqb (active s) (lease_active lease))) sessions)
    Hp ltac:(congruence)) as H. rewrite Ek in H. apply H. apply length_filter_le.
Qed.

Lemma put_h2_inv now a st p key sd ip st' p' lease : 0 <= total lim -> inner_inv p ->
  put_h2 lim now a st p key sd ip = (st', p', lease) -> inner_inv p'.
Proof.
  intros Ht Hp. unfold put_h2, new_lease.
  destruct (admit_inv p (key_epoch key) Ht Hp) as [Ha He].
  destruct (admit_epoch_at p (key_epoch key)) as [q []]; simpl in *; [|by intros [= _ <- _]]. specialize (He eq_refl).
  set (st1 := fetch_add _ a 1). set (q' := if total lim <=? count q then _ else q).
  assert (Hq' : inner_inv q' /\ epoch q' = epoch q).
  { subst q'. destruct (_ <=? _); [split; [by apply sweep_inv|reflexivity]|by split]. }
  destruct Hq' as [Hq' Eq]. clearbody q'. set (l := default [] (h2 q' !! key)).
  assert (Hl : (length l <= h2_per_key lim)%nat).
  { subst l. destruct (h2 q' !! key) as [l0|] eqn:Ek; simpl; [|lia].
    by destruct (inv_h2 q' Hq' key l0 Ek) as (_ & ? & _). }
  destruct (_ && _) eqn:Eroom; intros [= _ <- _].
  - apply andb_prop in Eroom as [E1 E2]. bool_prop. split; simpl.
    + pose proof (inv_count q' Hq'). rewrite lens_insert. fold l. rewrite length_app. simpl. lia.
    + exact (inv_h1 q' Hq').
    + apply wf_insert; [exact (inv_h2 q' Hq')|by destruct l|rewrite length_app; simpl; lia|congruence].
    + lia.
  - pose proof (shrink_h2 q' key l Hq' ltac:(congruence)) as H. fold l in H.
    replace (count q') with (count q' - (Z.of_nat (length l) - Z.of_nat (length l))) by lia. apply H. lia.
Qed.

(** ** The counters *)

Definition lease_count (a : nat) (ls : list H2Lease) : Z :=
  Z.of_nat (length (List.filter (fun l => Nat.eqb (lease_active l) a) ls)).

Lemma lease_count_cons a l ls :
  lease_count a (l :: ls) = (if Nat.eqb (lease_active l) a then 1 else 0) + lease_count a ls.
Proof. unfold lease_count. simpl. destruct (Nat.eqb _ _); simpl length; lia. Qed.

Lemma lease_count_app a l1 l2 : lease_count a (l1 ++ l2) = lease_count a l1 + lease_count a l2.
Proof. unfold lease_count. rewrite List.filter_app, length_app. lia. Qed.

Lemma load_fetch_add st a d b : load (fetch_add st a d) b = load st b + (if Nat.eqb a b then d else 0).
Proof.
  unfold load at 1, fetch_add. rewrite lookup_insert. destruct (Nat.eqb_spec a b) as [->|Hne].
  - rewrite decide_True by reflexivity. reflexivity.
  - rewrite decide_False by exact Hne. unfold load. lia.
Qed.

Lemma load_fresh st a b : st !! a = None -> load (<[a := 0]> st) b = load st b.
Proof.
  intros Ha. unfold load. rewrite lookup_insert. case_decide as E; [|reflexivity].
  subst b. by rewrite Ha.
Qed.

Definition counters_ok (st : Store) (ls : list H2Lease) : Prop := forall a, load st a = lease_count a ls.

Lemma counters_add st ls s a : counters_ok st ls ->
  counters_ok (new_lease st s a).1 ((new_lease st s a).2 :: ls).
Proof.
  intros H b. simpl. rewrite load_fetch_add, lease_count_cons, (H b). simpl. lia.
Qed.

Lemma counters_drop st l1 l l2 : counters_ok st (l1 ++ l :: l2) ->
  counters_ok (drop_lease st l) (l1 ++ l2).
Proof.
  intros H b. unfold drop_lease. rewrite load_fetch_add, (H b), !lease_count_app, lease_count_cons.
  destruct (Nat.eqb _ _); lia.
Qed.

Definition pool_inv (s : PoolState) : Prop := inner_inv (inner s) /\ counters_ok (store s) (leases s).

Lemma pool_inv_step s s' : 0 <= total lim -> (0 < idle_per_key lim)%nat ->
  pool_inv s -> pool_step lim s s' -> pool_inv s'.
Proof.
  intros Ht Hk [Hi Hs] Hstep.
  destruct Hstep as [s key|s now key c ip|s now key st' p' lease ip E|s now key st' p' E
    |s now a key sd ip st' p' lease Ha E|s key lease|s lease l1 l2 E|s now]; split; simpl; try exact Hs.
  - by apply h1_pop_inv.
  - by apply put_h1_inv.
  - by eapply h2_pick_inv.
  - unfold h2_pick in E. repeat case_in E; try discriminate. injection E as <- _ <- _.
    match goal with E : new_lease _ ?sd ?a = _ |- _ =>
      pose proof (counters_add _ _ sd a Hs) as H; rewrite E in H; exact H end.
  - by eapply h2_pick_inv.
  - unfold h2_pick in E. repeat case_in E; try discriminate; by injection E as <- _.
  - by eapply put_h2_inv.
  - assert (Hf : counters_ok (<[a := 0]> (store s)) (leases s)) by (intros b; by rewrite load_fresh).
    pose proof (counters_add _ _ sd a Hf) as H. unfold put_h2 in E. simpl in *.
    repeat case_in E; injection E as <- _ <-; exact H.
  - by apply forget_h2_inv.
  - exact Hi.
  - apply counters_drop. by rewrite <- E.
  - by apply sweep_inv.
Qed.

(** ** Taking connections *)

Lemma admit_epoch p q e : admit_epoch_at p e = (q, true) -> epoch q = e.
Proof. unfold admit_epoch_at. cbv zeta. intros H. injection H as <- Hb. by apply Z.eqb_eq in Hb. Qed.

Lemma admit_same p e : epoch p = e -> admit_epoch_at p e = (p, true).
Proof. intros <-. unfold admit_epoch_at. by rewrite Z.ltb_irrefl, Z.eqb_refl. Qed.

Lemma h1_pop_spec p key p' idle : h1_pop p key = (p', Some idle) ->
  exists rest, h1 (admit_epoch_at p (key_epoch key)).1 !! key = Some (rest ++ [idle])
    /\ default [] (h1 p' !! key) = rest /\ admit_epoch_at p' (key_epoch key) = (p', true)
    /\ (forall k, k <> key -> h1 p' !! k = h1 (admit_epoch_at p (key_epoch key)).1 !! k).
Proof.
  unfold h1_pop.
  destruct (admit_epoch_at p (key_epoch key)) as [q []] eqn:Ea; simpl in *; [|discriminate].
  apply admit_epoch in Ea. destruct (h1 q !! key) as [conns|] eqn:Ek; [|discriminate].
  destruct (pop conns) as [[x rest]|] eqn:Ep; [|discriminate]. intros [= <- <-].
  apply pop_spec in Ep as ->. exists rest. split; [reflexivity|]. split; [|split].
  - unfold set_list. simpl. destruct rest; [by rewrite lookup_delete_eq|by rewrite lookup_insert_eq].
  - by apply admit_same.
  - intros k Hk. unfold set_list. simpl. destruct rest;
      [by rewrite lookup_delete_ne by congruence|by rewrite lookup_insert_ne by congruence].
Qed.

(** The check of one turn of the loop. *)
Definition usable (vet : IpAddr -> bool) (now : Z) (x : IdleH1) : bool :=
  fresh_h1 now (idle_timeout lim) x && still_idle (conn x) && vet (peer x).

Lemma take_h1_loop_total clock vet key fuel turn p :
  (length (default [] (h1 (admit_epoch_at p (key_epoch key)).1 !! key)) < fuel)%nat ->
  exists r, take_h1_loop fuel turn lim clock vet p key = Some r.
Proof.
  revert turn p; induction fuel as [|fuel IH]; intros turn p Hf; [lia|]. cbn [take_h1_loop].
  destruct (h1_pop p key) as [p' [idle|]] eqn:Ep; [|eauto].
  destruct (_ && _); [eauto|]. apply h1_pop_spec in Ep as (rest & Hk & Hd & Ha & _).
  apply IH. rewrite Ha. simpl. rewrite Hd. rewrite Hk in Hf. simpl in Hf. rewrite length_app in Hf.
  simpl in Hf. lia.
Qed.

Lemma take_h1_loop_spec clock vet key fuel turn p p' c ip :
  take_h1_loop fuel turn lim clock vet p key = Some (p', Some (c, ip)) ->
  exists pre idle rejected t,
    h1 (admit_epoch_at p (key_epoch key)).1 !! key = Some (pre ++ idle :: rejected)
    /\ conn idle = c /\ peer idle = ip /\ usable vet (clock t) idle = true
    /\ Forall (fun x => exists t, usable vet (clock t) x = false) rejected
    /\ default [] (h1 p' !! key) = pre
    /\ (forall k, k <> key -> h1 p' !! k = h1 (admit_epoch_at p (key_epoch key)).1 !! k).
Proof.
  revert turn p; induction fuel as [|fuel IH]; intros turn p H; [discriminate|]. cbn [take_h1_loop] in H.
  destruct (h1_pop p key) as [q [idle|]] eqn:Ep; [|discriminate].
  apply h1_pop_spec in Ep as (rest & Hk & Hd & Ha & Ho).
  destruct (_ && _) eqn:Eu.
  - injection H as <- <- <-. exists rest, idle, [], turn. auto 10.
  - destruct (IH _ _ H) as (pre & x & rejected & t & Hk' & Hc & Hi & Hu & Hr & Hd' & Ho').
    rewrite Ha in Hk', Ho'. simpl in Hk', Ho'. rewrite Hk' in Hd. simpl in Hd. subst rest.
    exists pre, x, (rejected ++ [idle]), t. rewrite <- app_assoc in Hk. simpl in Hk.
    repeat split; try assumption.
    + apply Forall_app. split; [exact Hr|]. apply Forall_singleton. exists turn. exact Eu.
    + intros k Hne. rewrite Ho' by exact Hne. by apply Ho.
Qed.

Lemma pick_min_spec st ok l i n : pick_min st ok l = Some (i, n) ->
  exists s, l !! i = Some s /\ ok s = true /\ n = load st (active s)
    /\ forall s', s' ∈ l -> ok s' = true -> n <= load st (active s').
Proof.
  revert i n; induction l as [|s l IH]; intros i n H; [discriminate|]. cbn [pick_min] in H. cbv zeta in H.
  assert (Hnone : pick_min st ok l = None -> forall s', s' ∈ l -> ok s' = false).
  { clear. induction l as [|x l IHl]; intros H s' Hs'; [set_solver|]. cbn [pick_min] in H. cbv zeta in H.
    destruct (pick_min st ok l) as [[? ?]|]; [repeat case_in H; discriminate|].
    destruct (ok x) eqn:Ex; [discriminate|]. apply elem_of_cons in Hs' as [->|Hs']; [exact Ex|eauto]. }
  destruct (pick_min st ok l) as [[j m]|] eqn:Ep.
  - destruct (IH j m eq_refl) as (s0 & Hj & Hok & Hm & Hmin).
    assert (Htail : forall s', s' ∈ s :: l -> ok s' = true -> (ok s = true -> m <= load st (active s)) ->
                    m <= load st (active s')).
    { intros s' Hs' Ho Hle. apply elem_of_cons in Hs' as [->|Hs']; auto. }
    destruct (ok s) eqn:Es; [destruct (Z.ltb_spec m (load st (active s)))|]; injection H as <- <-.
    + exists s0. split; [exact Hj|]. split; [exact Hok|]. split; [exact Hm|].
      intros s' Hs' Ho. apply Htail; auto with lia.
    + exists s. split; [reflexivity|]. split; [exact Es|]. split; [reflexivity|].
      intros s' Hs' Ho. apply elem_of_cons in Hs' as [->|Hs']; [lia|]. specialize (Hmin s' Hs' Ho). lia.
    + exists s0. split; [exact Hj|]. split; [exact Hok|]. split; [exact Hm|].
      intros s' Hs' Ho. apply Htail; auto. congruence.
  - destruct (ok s) eqn:Es; [|discriminate]. injection H as <- <-. exists s.
    split; [reflexivity|]. split; [exact Es|]. split; [reflexivity|].
    intros s' Hs' Ho. apply elem_of_cons in Hs' as [->|Hs']; [lia|].
    specialize (Hnone eq_refl s' Hs'). congruence.
Qed.

(** Which sessions of [kept] [h2] may use: with room for another session,
    only those below the server's stream limit. *)
Definition eligible (st : Store) (kept : list H2Session) (s : H2Session) : Prop :=
  (h2_per_key lim <= length kept)%nat \/ is_full st s = false.

Lemma eligible_spec st kept s :
  Nat.leb (h2_per_key lim) (length kept) || negb (is_full st s) = true <-> eligible st kept s.
Proof. unfold eligible. rewrite orb_true_iff, Nat.leb_le, negb_true_iff. reflexivity. Qed.

Lemma h2_pick_spec now st p key st' p' lease ip :
  h2_pick lim now st p key = (st', p', Some (lease, ip)) ->
  exists sessions s,
    h2 (admit_epoch_at p (key_epoch key)).1 !! key = Some sessions
    /\ let kept := List.filter (fun s => negb (is_closed s)) sessions in
       s ∈ kept /\ lease = mkLease (sender s) (active s) /\ ip = h2_peer s
       /\ eligible st kept s
       /\ (forall s', s' ∈ kept -> eligible st kept s' -> load st (active s) <= load st (active s'))
       /\ st' = fetch_add st (active s) 1.
Proof.
  unfold h2_pick, new_lease. destruct (admit_epoch_at p (key_epoch key)) as [q []]; simpl; [|discriminate].
  destruct (h2 q !! key) as [sessions|]; [|discriminate].
  set (kept := List.filter _ sessions).
  destruct (pick_min st _ kept) as [[i n]|] eqn:Em; [|discriminate].
  apply pick_min_spec in Em as (s & Hi & Hok & -> & Hmin). rewrite Hi. intros [= <- <- <- <-].
  exists sessions, s. split; [reflexivity|]. fold kept. split; [by eapply list_elem_of_lookup_2|].
  split; [reflexivity|]. split; [reflexivity|]. split; [by apply eligible_spec|]. split; [|reflexivity].
  intros s' Hs' He. apply Hmin; [exact Hs'|]. by apply eligible_spec.
Qed.

End Pool.

(** ** Runs *)

Section Runs.
Context {Conn Sender : Type}.
Context (buf_is_empty : Conn -> bool).

(** Every step has its own probes: [is_closed] polls the session, and
    [current_max_send_streams] is what the peer allows at that time. *)
Inductive pool_reachable (lim : PoolLimits) : PoolState (Conn:=Conn) (Sender:=Sender) -> Prop :=
| pool_init : pool_reachable lim (mkPool empty_inner ∅ [])
| pool_next sender_failed current_max_send_streams s s' :
    pool_reachable lim s ->
    pool_step buf_is_empty sender_failed current_max_send_streams lim s s' -> pool_reachable lim s'.

Lemma pool_inv_reachable lim s : 0 <= total lim -> (0 < idle_per_key lim)%nat ->
  pool_reachable lim s -> pool_inv lim s.
Proof.
  intros Ht Hk. induction 1 as [|failed streams s s' _ IH Hstep]; [|by eapply pool_inv_step].
  split; [|intros a; reflexivity]. split; simpl; try apply empty_lists_wf; [|lia].
  unfold lens. by rewrite !wsum_empty.
Qed.

End Runs.

(** * Properties *)

Section Properties.
Context {Conn Sender : Type}.
Context (buf_is_empty : Conn -> bool) (still_idle : Conn -> bool).
Context (sender_failed : Sender -> bool) (current_max_send_streams : Sender -> Z).

(** C35: However the critical sections of the connection tasks and of the
    reaper interleave, whatever sessions fail and whatever stream limits the
    peers set between them, the pool's count is the number of connections it
    holds and stays within the total, no key holds more than its share nor
    an empty list, every pooled connection belongs to the current config
    epoch, and the in-flight counter of every session is the number of
    leases alive on it. *)
Theorem pool_invariant lim (s : PoolState (Conn:=Conn) (Sender:=Sender)) :
  0 <= total lim -> (0 < idle_per_key lim)%nat ->
  pool_reachable buf_is_empty lim s ->
  count (inner s) = lens (h1 (inner s)) + lens (h2 (inner s)) /\ count (inner s) <= total lim
  /\ wf_lists (idle_per_key lim) (epoch (inner s)) (h1 (inner s))
  /\ wf_lists (h2_per_key lim) (epoch (inner s)) (h2 (inner s))
  /\ forall a, load (store s) a = lease_count (Sender:=Sender) a (leases s).
Proof.
  intros Ht Hk Hr.
  destruct (pool_inv_reachable _ lim s Ht Hk Hr) as [[Hc H1 H2 Htot] Hs]. auto.
Qed.

(** [take_h1] always returns; the connection it hands out was pooled
    under exactly the key asked for, in this epoch, is not past the idle
    timeout, still reads as quietly open and reached a peer the handler
    accepts; the more recently used ones before it failed one of these
    tests and are gone, the older ones stay, and no other key is touched. *)
Theorem take_h1_reuse_safe lim clock vet (p : Inner (Conn:=Conn) (Sender:=Sender)) key :
  exists p' r, take_h1 still_idle lim clock vet p key = Some (p', r)
    /\ forall c ip, r = Some (c, ip) ->
      exists pre idle rejected t,
        h1 (admit_epoch_at p (key_epoch key)).1 !! key = Some (pre ++ idle :: rejected)
        /\ conn idle = c /\ peer idle = ip
        /\ duration_since (clock t) (since idle) < idle_timeout lim
        /\ still_idle c = true /\ vet ip = true
        /\ Forall (fun x => exists t, usable still_idle lim vet (clock t) x = false) rejected
        /\ default [] (h1 p' !! key) = pre
        /\ forall k, k <> key -> h1 p' !! k = h1 (admit_epoch_at p (key_epoch key)).1 !! k.
Proof.
  assert (Hlen : (length (default [] (h1 (admit_epoch_at p (key_epoch key)).1 !! key))
                  <= length (default [] (h1 p !! key)))%nat).
  { unfold admit_epoch_at. simpl. destruct (epoch p <? key_epoch key); simpl; [rewrite lookup_empty; simpl; lia|lia]. }
  destruct (take_h1_loop_total still_idle lim clock vet key
    (S (length (default [] (h1 p !! key)))) 0 p) as [[p' r] Hr]; [lia|].
  exists p', r. split; [exact Hr|]. intros c ip ->.
  apply take_h1_loop_spec in Hr as (pre & idle & rejected & t & Hk & <- & <- & Hu & Hrej & Hd & Ho).
  exists pre, idle, rejected, t. unfold usable, fresh_h1 in Hu. bool_prop. auto 10.
Qed.

(** An HTTP/2 lease is on a live session of exactly the key asked for,
    to a vetted peer, below the server's stream limit unless the key already
    holds its share of sessions, and the least busy such session; the slot
    it takes is counted.  When the handler refuses the peer the slot is
    given back and the session is no longer handed out. *)
Theorem take_h2_vetted lim now vet st (p : Inner (Conn:=Conn) (Sender:=Sender)) key :
  (forall st' p' lease,
     take_h2 sender_failed current_max_send_streams lim now vet st p key = (st', p', Some lease) ->
     exists sessions s,
       h2 (admit_epoch_at p (key_epoch key)).1 !! key = Some sessions
       /\ let kept := List.filter (fun s => negb (is_closed sender_failed s)) sessions in
          s ∈ kept /\ lease = mkLease (sender s) (active s) /\ vet (h2_peer s) = true
          /\ eligible current_max_send_streams lim st kept s
          /\ (forall s', s' ∈ kept -> eligible current_max_send_streams lim st kept s' ->
                load st (active s) <= load st (active s'))
          /\ load st' (active s) = load st (active s) + 1)
  /\ (forall st1 p1 lease ip,
     h2_pick sender_failed current_max_send_streams lim now st p key = (st1, p1, Some (lease, ip)) ->
     vet ip = false ->
     exists st' p', take_h2 sender_failed current_max_send_streams lim now vet st p key = (st', p', None)
       /\ (forall a, load st' a = load st a)
       /\ forall s, s ∈ default [] (h2 p' !! key) -> active s <> lease_active lease).
Proof.
  split.
  - intros st' p' lease H. unfold take_h2 in H.
    destruct (h2_pick _ _ lim now st p key) as [[st1 p1] [[l ip]|]] eqn:Ep; [|discriminate].
    destruct (vet ip) eqn:Ev; [|discriminate]. injection H as <- <- <-.
    apply h2_pick_spec in Ep as (sessions & s & Hk & Hin & -> & -> & He & Hmin & ->).
    exists sessions, s. repeat split; try assumption. rewrite load_fetch_add, Nat.eqb_refl. reflexivity.
  - intros st1 p1 lease ip Ep Hv. unfold take_h2. rewrite Ep, Hv. do 2 eexists. split; [reflexivity|].
    apply h2_pick_spec in Ep as (sessions & s & _ & _ & -> & _ & _ & _ & ->). split.
    + intros a. unfold drop_lease. simpl lease_active. rewrite !load_fetch_add. destruct (Nat.eqb _ _); lia.
    + intros x Hx Heq. unfold forget_h2 in Hx. destruct (h2 p1 !! key) as [ss|] eqn:Ek; simpl in Hx.
      2: { rewrite Ek in Hx. set_solver. }
      assert (Hf : x ∈ List.filter (fun y => negb (Nat.eqb (active y) (active s))) ss).
      { unfold set_list in Hx. destruct (List.filter _ ss) as [|y r];
          [rewrite lookup_delete_eq in Hx; simpl in Hx; set_solver
          |rewrite lookup_insert_eq in Hx; exact Hx]. }
      apply list_elem_of_In, filter_In in Hf as [_ Hf]. simpl in Heq. rewrite Heq, Nat.eqb_refl in Hf.
      discriminate.
Qed.

End Properties.

(** A pool of connections named by numbers: an HTTP/1 connection is put
    back, an HTTP/2 session is opened and its stream ends. *)
Definition sample_key : UpstreamKey := mkKey false true (lit "api.example.com") 443 None [] 3.
Definition sample_put : PoolState (Conn:=nat) (Sender:=nat) :=
  mkPool (put_h1 (fun _ => true) (fun _ => false) default_limits 10 ∅ empty_inner sample_key 7%nat (V4 1)) ∅ [].

Lemma pool_invariant_witness : count (inner sample_put) = 1 /\ count (inner sample_put) <= 256.
Proof.
  split; [vm_compute; reflexivity|].
  apply (pool_invariant (fun _ : nat => true) default_limits sample_put).
  - vm_compute. congruence.
  - vm_compute. lia.
  - apply (pool_next _ _ (fun _ => false) (fun _ => 100) (mkPool empty_inner ∅ [])); [apply pool_init|].
    exact (pool_put_h1 _ _ _ default_limits (mkPool empty_inner ∅ []) 10 sample_key 7%nat (V4 1)).
Defined.
