(* ===== verification/DateTime.v ===== *)
(** Dates and times: the model of [agentcage-core/src/har/datetime.rs], the
    one date library of the program (HAR cut-offs, grant expiries, audit
    timestamps).  Text is a [&str] here, that is a UTF-8 byte string, because
    the parser slices it at byte offsets. *)
From S2P Require Import Prelude.
From Stdlib Require Import ZifyBool.

(** * Definitions *)

Definition MICROS_PER_SECOND : Z := 1000000.
Definition SECONDS_PER_DAY : Z := 86400.
Definition MIN_CIVIL_MICROS : Z := -62135596800 * MICROS_PER_SECOND.
Definition MAX_CIVIL_MICROS : Z := 253402300799 * MICROS_PER_SECOND + 999999.
Record DateTime : Type := mkDateTime { civil_micros : Z; offset_seconds : option Z }.
#[export] Instance DateTime_eq_dec : EqDecision DateTime.
Proof. solve_decision. Defined.

Definition is_leap (year : Z) : bool :=
  (Z.rem year 4 =? 0) && (negb (Z.rem year 100 =? 0) || (Z.rem year 400 =? 0)).

Definition days_in_month (year month : Z) : Z :=
  if (month =? 1) || (month =? 3) || (month =? 5) || (month =? 7) || (month =? 8)
     || (month =? 10) || (month =? 12) then 31
  else if (month =? 4) || (month =? 6) || (month =? 9) || (month =? 11) then 30
  else if (month =? 2) && is_leap year then 29
  else if month =? 2 then 28
  else 0.

(** The divisions are Rust's, truncating. *)
Definition days_from_civil (year month day : Z) : Z :=
  let year := if month <=? 2 then year - 1 else year in
  let era := Z.quot (if 0 <=? year then year else year - 399) 400 in
  let year_of_era := year - era * 400 in
  let day_of_year :=
    Z.quot (153 * (if 2 <? month then month - 3 else month + 9) + 2) 5 + day - 1 in
  let day_of_era := year_of_era * 365 + Z.quot year_of_era 4 - Z.quot year_of_era 100 + day_of_year in
  era * 146097 + day_of_era - 719468.

(** [u32::try_from(n).unwrap_or(default)]. *)
Definition u32_or (default n : Z) : Z := if in_range 0 u32_max n then n else default.

Definition civil_from_days (days : Z) : Z * Z * Z :=
  let z := days + 719468 in
  let era := Z.quot (if 0 <=? z then z else z - 146096) 146097 in
  let day_of_era := z - era * 146097 in
  let year_of_era :=
    Z.quot (day_of_era - Z.quot day_of_era 1460 + Z.quot day_of_era 36524 - Z.quot day_of_era 146096) 365 in
  let year := year_of_era + era * 400 in
  let day_of_year := day_of_era - (365 * year_of_era + Z.quot year_of_era 4 - Z.quot year_of_era 100) in
  let mp := Z.quot (5 * day_of_year + 2) 153 in
  let day := day_of_year - Z.quot (153 * mp + 2) 5 + 1 in
  let month := if mp <? 10 then mp + 3 else mp - 9 in
  (if month <=? 2 then year + 1 else year, u32_or 1 month, u32_or 1 day).

Definition from_parts (date : Z * Z * Z) (time : Z * Z * Z * Z) (offset : option Z) : option DateTime :=
  let '(year, month, day) := date in
  let '(hour, minute, second, microsecond) := time in
  if negb (in_range 1 9999 year) || negb (in_range 1 12 month) || (day <? 1)
     || (days_in_month year month <? day) || (23 <? hour) || (59 <? minute) || (59 <? second)
     || (999999 <? microsecond) then None
  else if match offset with Some o => 24 * 3600 <=? Z.abs o | None => false end then None
  else
    let day_seconds := hour * 3600 + minute * 60 + second in
    let civil := (days_from_civil year month day * SECONDS_PER_DAY + day_seconds) * MICROS_PER_SECOND
                 + microsecond in
    Some (mkDateTime civil offset).

Definition is_aware (d : DateTime) : bool := bool_decide (is_Some (offset_seconds d)).

Definition assume_utc (d : DateTime) : DateTime :=
  mkDateTime (civil_micros d) (match offset_seconds d with Some o => Some o | None => Some 0 end).

Definition checked_sub_micros (d : DateTime) (micros : Z) : option DateTime :=
  let? civil := i64_checked (civil_micros d - micros) in
  if negb (in_range MIN_CIVIL_MICROS MAX_CIVIL_MICROS civil) then None
  else Some (mkDateTime civil (offset_seconds d)).

Definition checked_sub_seconds (d : DateTime) (seconds : Z) : option DateTime :=
  let? micros := i64_checked (seconds * MICROS_PER_SECOND) in checked_sub_micros d micros.

Definition instant_micros (d : DateTime) : Z :=
  let offset := default 0 (offset_seconds d) in
  civil_micros d - offset * MICROS_PER_SECOND.

Definition comparable_with (a b : DateTime) : option (Z * Z) :=
  match offset_seconds a, offset_seconds b with
  | Some _, Some _ => Some (instant_micros a, instant_micros b)
  | None, None => Some (civil_micros a, civil_micros b)
  | _, _ => None
  end.

Definition lt (a b : DateTime) : option bool :=
  let? (lhs, rhs) := comparable_with a b in Some (lhs <? rhs).

(** [div_euclid] and [rem_euclid], for a positive divisor. *)
Definition round_half_even (value divisor : Z) : Z :=
  let quotient := value / divisor in
  let remainder := value mod divisor in
  let doubled := remainder * 2 in
  if (divisor <? doubled) || ((doubled =? divisor) && negb (Z.rem quotient 2 =? 0)) then quotient + 1
  else quotient.

Definition seconds_since (a b : DateTime) : option Z :=
  let? (lhs, rhs) := comparable_with a b in
  Some (round_half_even (lhs - rhs) MICROS_PER_SECOND).

Definition parts (d : DateTime) : Z * Z * Z * Z * Z * Z * Z :=
  let micros_per_day := SECONDS_PER_DAY * MICROS_PER_SECOND in
  let days := civil_micros d / micros_per_day in
  let rest := civil_micros d mod micros_per_day in
  let microsecond := Z.rem rest MICROS_PER_SECOND in
  let rest := Z.quot rest MICROS_PER_SECOND in
  let '(year, month, day) := civil_from_days days in
  (year, month, day, u32_or 0 (Z.quot rest 3600), u32_or 0 (Z.rem (Z.quot rest 60) 60),
   u32_or 0 (Z.rem rest 60), u32_or 0 microsecond).

Definition isoformat (d : DateTime) : str :=
  let '(year, month, day, hour, minute, second, microsecond) := parts d in
  pad 4 year ++ [45] ++ pad 2 month ++ [45] ++ pad 2 day ++ [84]
  ++ pad 2 hour ++ [58] ++ pad 2 minute ++ [58] ++ pad 2 second
  ++ (if negb (microsecond =? 0) then 46 :: pad 6 microsecond else [])
  ++ match offset_seconds d with
     | None => []
     | Some offset =>
         let sign := if offset <? 0 then 45 else 43 in
         let total := Z.abs offset in
         let hours := Z.quot total 3600 in
         let minutes := Z.rem (Z.quot total 60) 60 in
         let seconds := Z.rem total 60 in
         sign :: pad 2 hours ++ [58] ++ pad 2 minutes
         ++ (if negb (seconds =? 0) then 58 :: pad 2 seconds else [])
     end.

(** ** Parsing *)

(** [str::is_char_boundary] and [str::get(a..b)]. *)
Definition is_char_boundary (t : bytes) (i : nat) : bool :=
  Nat.eqb i 0 || Nat.eqb i (length t)
  || (Nat.ltb i (length t) && negb (in_range 128 191 (nth i t 0))).
Definition get_range (t : bytes) (a b : nat) : option bytes :=
  if Nat.leb a b && Nat.leb b (length t) && is_char_boundary t a && is_char_boundary t b
  then Some (take (b - a) (drop a t)) else None.

Definition parse_digits (text : bytes) : option Z :=
  if bool_decide (text = []) || negb (forallb is_ascii_digit text) then None
  else parse_unsigned u32_max text.

Definition parse_two_digits (text : bytes) : option Z :=
  if negb (Nat.eqb (length text) 2) then None else parse_digits text.

Definition parse_date (text : bytes) : option (Z * Z * Z * nat) :=
  if Nat.leb 10 (length text) && (nth 4 text 0 =? 45) && (nth 7 text 0 =? 45) then
    let? y := get_range text 0 4 in let? year := parse_digits y in
    let? m := get_range text 5 7 in let? month := parse_digits m in
    let? d := get_range text 8 10 in let? day := parse_digits d in
    Some (year, month, day, 10%nat)
  else if Nat.leb 8 (length text) && forallb is_ascii_digit (take 8 text) then
    let? year := parse_digits (take 4 text) in
    let? month := parse_digits (take 2 (drop 4 text)) in
    let? day := parse_digits (take 2 (drop 6 text)) in
    Some (year, month, day, 8%nat)
  else None.

Definition parse_fraction (fraction : option bytes) : option Z :=
  match fraction with
  | None => Some 0
  | Some digits =>
      if bool_decide (digits = []) || negb (forallb is_ascii_digit digits) then None
      else
        let micros := take (Nat.min (length digits) 6) digits in
        parse_unsigned u32_max (micros ++ repeat 48 (6 - length micros))
  end.

(** The first [.] or [,]. *)
Fixpoint find_any (cs : list Z) (l : bytes) : option nat :=
  match l with
  | [] => None
  | b :: r => if existsb (Z.eqb b) cs then Some 0%nat else S <$> find_any cs r
  end.

(** [fields.next().map_or(Some(0), parse_two_digits)?]. *)
Definition next_field (fields : list bytes) : option (Z * list bytes) :=
  match fields with
  | [] => Some (0, [])
  | f :: r => let? n := parse_two_digits f in Some (n, r)
  end.

(** The fields of a clock written with colons. *)
Definition colon_fields (clock : bytes) : option (Z * Z * Z) :=
  match split_on 58 clock with
  | [] => None
  | h :: fields =>
      let? hour := parse_two_digits h in
      let? (minute, fields) := next_field fields in
      let? (second, fields) := next_field fields in
      match fields with [] => Some (hour, minute, second) | _ => None end
  end.

(** The fields of a clock written without colons. *)
Definition basic_fields (clock : bytes) : option (Z * Z * Z) :=
  match length clock with
  | 2%nat => let? h := parse_digits clock in Some (h, 0, 0)
  | 4%nat =>
      let? a := get_range clock 0 2 in let? h := parse_digits a in
      let? b := get_range clock 2 4 in let? m := parse_digits b in
      Some (h, m, 0)
  | 6%nat =>
      let? a := get_range clock 0 2 in let? h := parse_digits a in
      let? b := get_range clock 2 4 in let? m := parse_digits b in
      let? c := get_range clock 4 6 in let? s := parse_digits c in
      Some (h, m, s)
  | _ => None
  end.

Definition parse_clock (text : bytes) : option (Z * Z * Z * Z) :=
  if bool_decide (text = []) then None
  else
    let '(clock, fraction) :=
      match find_any [46; 44] text with
      | Some index => (take index text, Some (drop (index + 1) text))
      | None => (text, None)
      end in
    let? (hour, minute, second) :=
      (if existsb (Z.eqb 58) clock then colon_fields clock
       else basic_fields clock) in
    let? micros := parse_fraction fraction in
    Some (hour, minute, second, micros).

Definition split_offset (text : bytes) : option (bytes * option Z) :=
  if bool_decide (last text = Some 90) then Some (removelast text, Some 0)
  else match find_any [43; 45] text with
       | None => Some (text, None)
       | Some index =>
           let clock := take index text in
           let offset_text := drop index text in
           let sign := if starts_with offset_text [45] then -1 else 1 in
           if Nat.ltb (length offset_text) 2 then None
           else
             let? (hour, minute, second, _) := parse_clock (drop 1 offset_text) in
             let magnitude := hour * 3600 + minute * 60 + second in
             if magnitude <=? i32_max then Some (clock, Some (sign * magnitude)) else None
       end.

Definition parse_time (text : bytes) : option (Z * Z * Z * Z * option Z) :=
  let? (time_text, offset) := split_offset text in
  let? (hour, minute, second, microsecond) := parse_clock time_text in
  Some (hour, minute, second, microsecond, offset).

(** [char::len_utf8] of the first character, from its lead byte. *)
Definition lead_len (b : Z) : nat :=
  if b <? 128 then 1 else if b <? 224 then 2 else if b <? 240 then 3 else 4.

Definition from_isoformat (text : bytes) : option DateTime :=
  let? (year, month, day, consumed) := parse_date text in
  let rest := drop consumed text in
  match rest with
  | [] => from_parts (year, month, day) (0, 0, 0, 0) None
  | separator :: _ =>
      let? (hour, minute, second, microsecond, offset) := parse_time (drop (lead_len separator) rest) in
      from_parts (year, month, day) (hour, minute, second, microsecond) offset
  end.


(** * Theorems *)

(** ** The calendar *)

Lemma quot_is a b q : 0 <= q -> 0 < b -> q * b <= a < q * b + b -> Z.quot a b = q.
Proof. intros. symmetry. apply (Z.quot_unique a b q (a - q * b)); lia. Qed.

(** The year of the era is recovered from the day of the era, whose year is
    cut here into century, leap cycle and year of the cycle. *)
Lemma year_of_era_inverse c q s doy :
  0 <= c <= 3 -> 0 <= q <= 24 -> 0 <= s <= 3 -> 0 <= doy <= 365 ->
  (doy = 365 -> s = 3 /\ (q = 24 -> c = 3)) ->
  let doe := 36524 * c + 1461 * q + 365 * s + doy in
  Z.quot (doe - Z.quot doe 1460 + Z.quot doe 36524 - Z.quot doe 146096) 365 = 100 * c + 4 * q + s.
Proof.
  intros Hc Hq Hs Hd Hl doe.
  assert (Z.quot doe 1460 = 25 * c + q + Z.b2z (1460 <=? 24 * c + q + 365 * s + doy)) as ->
    by (apply quot_is; lia).
  assert (Z.quot doe 36524 = c + Z.b2z (36524 <=? 1461 * q + 365 * s + doy)) as -> by (apply quot_is; lia).
  assert (Z.quot doe 146096 = Z.b2z (146096 <=? doe)) as -> by (apply quot_is; lia).
  subst doe. apply quot_is; lia.
Qed.

Lemma rem_0 a b : 0 < b -> (Z.rem a b =? 0) = (a mod b =? 0).
Proof.
  intros Hb. pose proof (Z.rem_divide a b ltac:(lia)). pose proof (Z.mod_divide a b ltac:(lia)).
  apply eq_bool_prop_intro. rewrite !Is_true_true, !Z.eqb_eq. tauto.
Qed.

Definition valid_date (y m d : Z) : Prop := 1 <= y <= 9999 /\ 1 <= m <= 12 /\ 1 <= d <= days_in_month y m.

(** The year, counted from March, in digits base 400, 100, 4. *)
Lemma year_digits y : 0 <= y -> exists e c q s,
  y = 400 * e + (100 * c + 4 * q + s) /\ 0 <= e /\ 0 <= c <= 3 /\ 0 <= q <= 24 /\ 0 <= s <= 3.
Proof.
  intros Hy. pose proof (Z.div_mod y 400 ltac:(lia)). pose proof (Z.mod_pos_bound y 400 ltac:(lia)).
  set (r := y mod 400) in *. pose proof (Z.div_mod r 100 ltac:(lia)).
  pose proof (Z.mod_pos_bound r 100 ltac:(lia)). set (r' := r mod 100) in *.
  pose proof (Z.div_mod r' 4 ltac:(lia)). pose proof (Z.mod_pos_bound r' 4 ltac:(lia)).
  exists (y / 400), (r / 100), (r' / 4), (r' mod 4). lia.
Qed.

Lemma leap_digits e c q s : 0 <= e -> 0 <= c <= 3 -> 0 <= q <= 24 -> 0 <= s <= 3 ->
  is_leap (400 * e + (100 * c + 4 * q + s) + 1)
  = (s =? 3) && ((q <? 24) || (c =? 3)).
Proof.
  intros. unfold is_leap. rewrite !rem_0 by lia.
  set (y := 400 * e + (100 * c + 4 * q + s) + 1).
  assert ((y mod 4 =? 0) = (s =? 3)) as ->
    by (subst y; Z.to_euclidean_division_equations; lia).
  assert ((y mod 100 =? 0) = (q =? 24) && (s =? 3)) as ->
    by (subst y; Z.to_euclidean_division_equations; lia).
  assert ((y mod 400 =? 0) = (c =? 3) && (q =? 24) && (s =? 3)) as ->
    by (subst y; Z.to_euclidean_division_equations; lia).
  lia.
Qed.

(** The year and month counted from March, and the day of that year. *)
Definition march_year (y m : Z) : Z := if m <=? 2 then y - 1 else y.
Definition march_month (m : Z) : Z := if 2 <? m then m - 3 else m + 9.
Definition march_day (m d : Z) : Z := Z.quot (153 * march_month m + 2) 5 + d - 1.

Lemma days_from_civil_digits y m d e c q s :
  march_year y m = 400 * e + (100 * c + 4 * q + s) -> 0 <= e -> 0 <= c <= 3 -> 0 <= q <= 24 -> 0 <= s <= 3 ->
  days_from_civil y m d = 146097 * e + (36524 * c + 1461 * q + 365 * s + march_day m d) - 719468.
Proof.
  intros Hy He Hc Hq Hs. unfold days_from_civil. fold (march_year y m) (march_month m) (march_day m d).
  rewrite Hy. decide_cmp. cbv zeta.
  rewrite (quot_is _ 400 e) by lia.
  rewrite (quot_is _ 4 (25 * c + q)) by lia. rewrite (quot_is _ 100 c) by lia. lia.
Qed.

(** Splits the month into its twelve values. *)
Ltac each_month m :=
  let H := fresh in
  assert (m = 1 \/ m = 2 \/ m = 3 \/ m = 4 \/ m = 5 \/ m = 6 \/ m = 7 \/ m = 8 \/ m = 9 \/ m = 10 \/ m = 11 \/ m = 12)
    as H by lia;
  repeat (destruct H as [->|H]); [..|subst m].

Ltac eval_month :=
  repeat match goal with
  | |- context [Z.quot (153 * march_month ?k + 2) 5] =>
      let v := eval vm_compute in (Z.quot (153 * march_month k + 2) 5) in
      change (Z.quot (153 * march_month k + 2) 5) with v
  | |- context [march_month ?k] =>
      let v := eval vm_compute in (march_month k) in change (march_month k) with v
  end.

Lemma march_day_bound y m d : 1 <= m <= 12 -> 1 <= d <= days_in_month y m ->
  0 <= march_day m d <= 365 /\ (march_day m d = 365 -> is_leap y = true /\ m = 2).
Proof.
  intros Hm Hd. unfold days_in_month in Hd.
  each_month m; unfold march_day; eval_month; cbn -[is_leap] in Hd;
    destruct (is_leap y); split; try lia; intros; split; try reflexivity; lia.
Qed.

Lemma march_inverse y m d : 1 <= m <= 12 -> 1 <= d <= days_in_month y m ->
  let doy := march_day m d in let mp := Z.quot (5 * doy + 2) 153 in
  mp = march_month m /\ doy - Z.quot (153 * mp + 2) 5 + 1 = d.
Proof.
  intros Hm Hd doy mp. assert (Hmp : mp = march_month m).
  { unfold mp, doy, march_day. unfold days_in_month in Hd.
    each_month m; eval_month; cbn -[is_leap] in Hd; apply quot_is; destruct (is_leap y); lia. }
  split; [exact Hmp|]. rewrite Hmp. unfold doy, march_day. lia.
Qed.

Lemma march_year_leap y m d e c q s : 1 <= m <= 12 -> 1 <= d <= days_in_month y m ->
  march_year y m = 400 * e + (100 * c + 4 * q + s) -> 0 <= e -> 0 <= c <= 3 -> 0 <= q <= 24 -> 0 <= s <= 3 ->
  march_day m d = 365 -> s = 3 /\ (q = 24 -> c = 3).
Proof.
  intros Hm Hd Hy He Hc Hq Hs Hl. apply (march_day_bound y) in Hl as [Hl ->]; [|assumption..].
  unfold march_year in Hy. change (2 <=? 2) with true in Hy. cbv iota in Hy.
  assert (y = 400 * e + (100 * c + 4 * q + s) + 1) as -> by lia.
  rewrite leap_digits in Hl by lia. lia.
Qed.

Lemma civil_inverse y m d : valid_date y m d -> civil_from_days (days_from_civil y m d) = (y, m, d).
Proof.
  intros (Hy & Hm & Hd).
  destruct (year_digits (march_year y m)) as (e & c & q & s & E & He & Hc & Hq & Hs).
  { unfold march_year. destruct (m <=? 2); lia. }
  pose proof (march_day_bound y m d Hm Hd) as [Hb _].
  pose proof (march_year_leap y m d e c q s Hm Hd E He Hc Hq Hs) as Hl.
  rewrite (days_from_civil_digits _ _ _ e c q s) by assumption.
  unfold civil_from_days. set (doy := march_day m d) in *.
  replace (146097 * e + (36524 * c + 1461 * q + 365 * s + doy) - 719468 + 719468)
    with (146097 * e + (36524 * c + 1461 * q + 365 * s + doy)) by lia.
  rewrite (proj2 (Z.leb_le 0 _)) by lia. cbv zeta.
  rewrite (quot_is _ 146097 e) by lia.
  replace (146097 * e + (36524 * c + 1461 * q + 365 * s + doy) - e * 146097)
    with (36524 * c + 1461 * q + 365 * s + doy) by lia.
  rewrite (year_of_era_inverse c q s doy) by assumption.
  rewrite (quot_is _ 4 (25 * c + q)), (quot_is _ 100 c) by lia.
  replace (36524 * c + 1461 * q + 365 * s + doy - (365 * (100 * c + 4 * q + s) + (25 * c + q) - c))
    with doy by lia.
  destruct (march_inverse y m d Hm Hd) as [Hmp Hday]. fold doy in Hmp, Hday. rewrite Hday, Hmp.
  assert ((if march_month m <? 10 then march_month m + 3 else march_month m - 9) = m) as ->
    by (unfold march_month; each_month m; reflexivity).
  assert (d <= 31) by (unfold days_in_month in Hd; each_month m; cbn -[is_leap] in Hd; destruct (is_leap y); lia).
  unfold u32_or, in_range, u32_max. rewrite !andb_true_intro by (split; apply Z.leb_le; lia).
  unfold march_year in E. f_equal. f_equal. destruct (m <=? 2); lia.
Qed.

(** The day after, by the calendar's rules. *)
Definition next_day (y m d : Z) : Z * Z * Z :=
  if d <? days_in_month y m then (y, m, d + 1)
  else if m <? 12 then (y, m + 1, 1) else (y + 1, 1, 1).

Lemma february_step e c q s y : y - 1 = 400 * e + (100 * c + 4 * q + s) ->
  0 <= e -> 0 <= c <= 3 -> 0 <= q <= 24 -> 0 <= s <= 3 ->
  days_from_civil y 3 1 = days_from_civil y 2 (days_in_month y 2) + 1.
Proof.
  intros E He Hc Hq Hs.
  rewrite (days_from_civil_digits y 2 _ e c q s) by (assumption || (unfold march_year; simpl; lia)).
  pose proof (leap_digits e c q s He Hc Hq Hs) as Hleap.
  rewrite <- E, Z.sub_add in Hleap. unfold days_in_month. cbn -[is_leap Z.add Z.mul]. rewrite Hleap.
  assert (Hmy : march_year y 3 = y) by reflexivity.
  assert (exists e' c' q' s', y = 400 * e' + (100 * c' + 4 * q' + s') /\ 0 <= e' /\ 0 <= c' <= 3
    /\ 0 <= q' <= 24 /\ 0 <= s' <= 3) as (e' & c' & q' & s' & E' & He' & Hc' & Hq' & Hs')
    by (apply year_digits; lia).
  rewrite (days_from_civil_digits y 3 1 e' c' q' s') by (assumption || lia).
  unfold march_day. eval_month.
  destruct (s =? 3) eqn:Es, (q <? 24) eqn:Eq, (c =? 3) eqn:Ec; cbn [andb orb]; lia.
Qed.

Lemma march_day_next y m : 1 <= m <= 12 -> m <> 2 ->
  march_day (if m <? 12 then m + 1 else 1) 1 = march_day m (days_in_month y m) + 1.
Proof. intros Hm H2. each_month m; try congruence; reflexivity. Qed.

Lemma next_day_succ y m d : valid_date y m d ->
  let '(y', m', d') := next_day y m d in days_from_civil y' m' d' = days_from_civil y m d + 1.
Proof.
  intros (Hy & Hm & Hd).
  destruct (year_digits (march_year y m)) as (e & c & q & s & E & He & Hc & Hq & Hs).
  { unfold march_year. destruct (m <=? 2); lia. }
  unfold next_day. destruct (d <? days_in_month y m) eqn:Ed.
  { rewrite !(days_from_civil_digits _ _ _ e c q s) by assumption. unfold march_day. lia. }
  assert (d = days_in_month y m) as -> by lia. clear Hd Ed.
  destruct (Z.eq_dec m 2) as [->|Hm2].
  { apply (february_step e c q s); auto. }
  assert (Hsame : march_year (if m <? 12 then y else y + 1) (if m <? 12 then m + 1 else 1) = march_year y m).
  { unfold march_year. destruct (m <? 12) eqn:?, (m <=? 2) eqn:?; case_goal; lia. }
  pose proof (march_day_next y m Hm Hm2).
  destruct (m <? 12); rewrite (days_from_civil_digits y m _ e c q s) by assumption;
    rewrite (days_from_civil_digits _ _ 1 e c q s) by (congruence || assumption); lia.
Qed.

(** The day number is the count of calendar days from 1970-01-01 (which is
    day 0, and each day's number is its predecessor's plus one, leap years and
    century years included), and [civil_from_days] takes the number back to the
    date, for every date of the years 1 to 9999. *)
Theorem days_from_civil_calendar :
  days_from_civil 1970 1 1 = 0 /\
  forall y m d, 1 <= y <= 9999 -> 1 <= m <= 12 -> 1 <= d <= days_in_month y m ->
    civil_from_days (days_from_civil y m d) = (y, m, d) /\
    let '(y', m', d') := next_day y m d in days_from_civil y' m' d' = days_from_civil y m d + 1.
Proof.
  split; [reflexivity|]. intros y m d Hy Hm Hd.
  split; [apply civil_inverse|apply next_day_succ]; repeat split; lia.
Qed.

Lemma days_from_civil_calendar_witness :
  civil_from_days (days_from_civil 2000 2 29) = (2000, 2, 29) /\
  days_from_civil 2000 3 1 = days_from_civil 2000 2 29 + 1.
Proof. apply (proj2 days_from_civil_calendar 2000 2 29); vm_compute; split; congruence. Defined.

(** ** The fields of a value *)

Lemma from_parts_spec y m d h mi s us off dt : 0 <= h -> 0 <= mi -> 0 <= s -> 0 <= us ->
  from_parts (y, m, d) (h, mi, s, us) off = Some dt ->
  valid_date y m d /\ h <= 23 /\ mi <= 59 /\ s <= 59 /\ us <= 999999 /\
  match off with Some o => Z.abs o < 86400 | None => True end /\
  dt = mkDateTime ((days_from_civil y m d * 86400 + (h * 3600 + mi * 60 + s)) * 1000000 + us) off.
Proof.
  intros Hh Hmi Hs Hus. unfold from_parts. cbv beta iota zeta.
  destruct (_ || _) eqn:E; [discriminate|]. bool_prop.
  repeat match goal with H : in_range _ _ _ = true |- _ => apply in_range_spec in H end.
  destruct (match off with Some _ => _ | None => _ end) eqn:Eo; [discriminate|].
  intros [= <-]. unfold valid_date.
  repeat match goal with |- _ /\ _ => split end; try lia; [|reflexivity].
  destruct off; [bool_prop; lia|exact I].
Qed.

Lemma parts_of_fields y m d h mi s us off : valid_date y m d ->
  0 <= h <= 23 -> 0 <= mi <= 59 -> 0 <= s <= 59 -> 0 <= us <= 999999 ->
  parts (mkDateTime ((days_from_civil y m d * 86400 + (h * 3600 + mi * 60 + s)) * 1000000 + us) off)
  = (y, m, d, h, mi, s, us).
Proof.
  intros Hv Hh Hmi Hs Hus. unfold parts, SECONDS_PER_DAY, MICROS_PER_SECOND. cbn [civil_micros].
  set (days := days_from_civil y m d).
  set (rest := (h * 3600 + mi * 60 + s) * 1000000 + us).
  replace ((days * 86400 + (h * 3600 + mi * 60 + s)) * 1000000 + us)
    with (rest + days * (86400 * 1000000)) by (subst rest; lia).
  rewrite Z.div_add, Z.mod_add by lia. rewrite Z.div_small, Z.mod_small by (subst rest; lia).
  rewrite Z.add_0_l. cbv zeta. unfold days. rewrite (civil_inverse _ _ _ Hv).
  assert (Z.quot rest 1000000 = h * 3600 + mi * 60 + s) as -> by (apply quot_is; subst rest; lia).
  assert (Z.rem rest 1000000 = us) as ->.
  { symmetry. apply (Z.rem_unique _ _ (h * 3600 + mi * 60 + s)); subst rest; lia. }
  rewrite (quot_is _ 3600 h), (quot_is _ 60 (h * 60 + mi)) by lia.
  rewrite <- (Z.rem_unique (h * 60 + mi) 60 h mi), <- (Z.rem_unique (h * 3600 + mi * 60 + s) 60 (h * 60 + mi) s)
    by lia.
  unfold u32_or, in_range, u32_max. by rewrite !andb_true_intro by (split; apply Z.leb_le; lia).
Qed.

(** ** Text *)

Abbreviation digits l := (Forall (fun c => is_ascii_digit c = true) l).

Lemma pad_spec w n : (0 < w)%nat -> 0 <= n < 10 ^ Z.of_nat w ->
  length (pad w n) = w /\ digits (pad w n) /\ dec_value 0 (pad w n) = n.
Proof.
  intros Hw Hn. destruct (show_unsigned_spec n ltac:(lia)) as (Hd & Hv & _ & Hl).
  specialize (Hl w Hw ltac:(lia)). unfold pad. rewrite length_app, repeat_length, dec_value_zeros.
  split; [lia|]. split; [|exact Hv]. apply Forall_app. split; [|exact Hd].
  generalize (w - length (show_unsigned n))%nat. intros k. induction k; simpl; constructor; auto.
Qed.

Lemma pad_digits w n : (0 < w)%nat -> 0 <= n < 10 ^ Z.of_nat w -> n <= u32_max ->
  parse_digits (pad w n) = Some n.
Proof.
  intros Hw Hn Hm. destruct (pad_spec w n Hw Hn) as (Hl & Hd & Hv). unfold parse_digits.
  assert (pad w n <> []) by (intros E; rewrite E in Hl; simpl in Hl; lia).
  rewrite bool_decide_eq_false_2 by assumption. rewrite (proj2 (forallb_Forall _ _) Hd). cbn [orb negb].
  rewrite parse_unsigned_digits by (auto; lia). by rewrite Hv.
Qed.

Lemma pad2 n : 0 <= n <= 99 ->
  exists a b, pad 2 n = [a; b] /\ digits [a; b] /\ parse_digits [a; b] = Some n.
Proof.
  intros Hn. destruct (pad_spec 2 n ltac:(lia) ltac:(lia)) as (Hl & Hd & _).
  pose proof (pad_digits 2 n ltac:(lia) ltac:(lia) ltac:(unfold u32_max; lia)) as Hp.
  destruct (pad 2 n) as [|a [|b [|]]]; try discriminate. eauto.
Qed.

Lemma find_any_none cs l : Forall (fun c => existsb (Z.eqb c) cs = false) l -> find_any cs l = None.
Proof. induction 1 as [|c l Hc Hl IH]; [reflexivity|]. cbn [find_any]. by rewrite Hc, IH. Qed.

Lemma find_any_at cs l c r : Forall (fun c => existsb (Z.eqb c) cs = false) l ->
  existsb (Z.eqb c) cs = true -> find_any cs (l ++ c :: r) = Some (length l).
Proof.
  intros Hl Hc. induction Hl as [|x l Hx Hl IH]; cbn [find_any app]; [by rewrite Hc|].
  by rewrite Hx, IH.
Qed.

(** The two pieces [isoformat] writes after the date. *)
Definition fraction_text (us : Z) : bytes := if negb (us =? 0) then 46 :: pad 6 us else [].
Definition clock_text (h mi s us : Z) : bytes :=
  pad 2 h ++ [58] ++ pad 2 mi ++ [58] ++ pad 2 s ++ fraction_text us.
Definition clock_char (c : Z) : bool := is_ascii_digit c || (c =? 58) || (c =? 46).

Lemma digit_not l cs : digits l -> (forall c, is_ascii_digit c = true -> existsb (Z.eqb c) cs = false) ->
  Forall (fun c => existsb (Z.eqb c) cs = false) l.
Proof. intros Hl Hc. eapply Forall_impl; [exact Hl|]. intros c. apply Hc. Qed.

Lemma digit_neq c x : is_ascii_digit c = true -> x < 48 \/ 57 < x -> (c =? x) = false.
Proof. intros Hc Hx. apply in_range_spec in Hc. lia. Qed.

Lemma digits_no_sep l x : digits l -> x < 48 \/ 57 < x -> x ∉ l.
Proof.
  intros Hl Hx Hin. rewrite Forall_forall in Hl. apply Hl, in_range_spec in Hin. lia.
Qed.

Lemma parse_fraction_text us : 0 <= us <= 999999 ->
  parse_fraction (Some (pad 6 us)) = Some us.
Proof.
  intros Hus. destruct (pad_spec 6 us ltac:(lia) ltac:(lia)) as (Hl & Hd & Hv).
  unfold parse_fraction. assert (pad 6 us <> []) by (intros E; by rewrite E in Hl).
  rewrite bool_decide_eq_false_2 by assumption. rewrite (proj2 (forallb_Forall _ _) Hd). cbn [orb negb].
  rewrite Hl, Nat.min_id, take_ge, Hl, app_nil_r by lia.
  rewrite parse_unsigned_digits by (auto; unfold u32_max; lia). by rewrite Hv.
Qed.

Lemma clock_fields h mi s (sep : bool) : 0 <= h <= 99 -> 0 <= mi <= 99 -> 0 <= s <= 99 ->
  let t := pad 2 h ++ [58] ++ pad 2 mi ++ (if sep then 58 :: pad 2 s else []) in
  t <> [] /\ existsb (Z.eqb 58) t = true /\ Forall (fun c => existsb (Z.eqb c) [46; 44] = false) t /\
  colon_fields t = Some (h, mi, if sep then s else 0).
Proof.
  intros Hh Hmi Hs t.
  destruct (pad2 h Hh) as (a & b & E1 & D1 & P1), (pad2 mi Hmi) as (c & d & E2 & D2 & P2),
    (pad2 s Hs) as (e & f & E3 & D3 & P3).
  assert (Hsplit : split_on 58 t = [a; b] :: [c; d] :: (if sep then [[e; f]] else [])).
  { rewrite <- (split_join 58 (_ :: _)); [|congruence|].
    - subst t. rewrite E1, E2, E3. by destruct sep.
    - destruct sep; repeat (apply Forall_cons; split); try apply Forall_nil_2;
        (apply digits_no_sep; [assumption|lia]). }
  unfold colon_fields. rewrite Hsplit. split; [subst t; by rewrite E1|]. split; [|split].
  - subst t. rewrite E1. simpl. by rewrite !orb_true_r.
  - subst t. rewrite E1, E2, E3.
    assert (Hno : forall l, digits l -> Forall (fun c => existsb (Z.eqb c) [46; 44] = false) l).
    { intros l Hl. apply digit_not; [exact Hl|]. intros x Hx. cbn [existsb].
      by rewrite !digit_neq by (assumption || lia). }
    apply Forall_app; split; [by apply Hno|]. apply Forall_cons; split; [reflexivity|].
    apply Forall_app; split; [by apply Hno|].
    destruct sep; [apply Forall_cons; split; [reflexivity|by apply Hno]|constructor].
  - unfold parse_two_digits. cbn [length Nat.eqb negb]. rewrite P1. cbn [next_field].
    unfold parse_two_digits. cbn [length Nat.eqb negb]. rewrite P2.
    destruct sep; cbn [next_field]; unfold parse_two_digits; cbn [length Nat.eqb negb]; rewrite ?P3; reflexivity.
Qed.

Lemma parse_clock_plain h mi s (sep : bool) : 0 <= h <= 99 -> 0 <= mi <= 99 -> 0 <= s <= 99 ->
  parse_clock (pad 2 h ++ [58] ++ pad 2 mi ++ (if sep then 58 :: pad 2 s else []))
  = Some (h, mi, if sep then s else 0, 0).
Proof.
  intros Hh Hmi Hs. destruct (clock_fields h mi s sep Hh Hmi Hs) as (Hn & Hc & Hf & Hv).
  set (t := pad 2 h ++ _) in *. unfold parse_clock. rewrite bool_decide_eq_false_2 by assumption.
  rewrite find_any_none by assumption. by rewrite Hc, Hv.
Qed.

Lemma parse_clock_text h mi s us : 0 <= h <= 99 -> 0 <= mi <= 99 -> 0 <= s <= 99 -> 0 <= us <= 999999 ->
  parse_clock (clock_text h mi s us) = Some (h, mi, s, us).
Proof.
  intros Hh Hmi Hs Hus. pose proof (parse_clock_plain h mi s true Hh Hmi Hs) as Hplain.
  destruct (clock_fields h mi s true Hh Hmi Hs) as (Hn & Hc & Hf & Hv).
  unfold clock_text, fraction_text. destruct (Z.eqb_spec us 0) as [->|Hne]; cbn [negb].
  { by rewrite app_nil_r. }
  replace (pad 2 h ++ [58] ++ pad 2 mi ++ [58] ++ pad 2 s ++ 46 :: pad 6 us)
    with ((pad 2 h ++ [58] ++ pad 2 mi ++ 58 :: pad 2 s) ++ 46 :: pad 6 us)
    by (rewrite <- !app_assoc; reflexivity).
  set (t := pad 2 h ++ _) in *. unfold parse_clock.
  rewrite bool_decide_eq_false_2 by (intros E; by apply app_nil in E as [? _]).
  rewrite find_any_at by (assumption || reflexivity).
  rewrite take_app_length. replace (drop (length t + 1) (t ++ 46 :: pad 6 us)) with (pad 6 us).
  - rewrite Hc, Hv, parse_fraction_text by lia. reflexivity.
  - rewrite drop_app. by rewrite drop_ge, Nat.add_sub_swap, Nat.sub_diag by lia.
Qed.

Lemma clock_text_chars h mi s us : 0 <= h <= 99 -> 0 <= mi <= 99 -> 0 <= s <= 99 -> 0 <= us <= 999999 ->
  clock_text h mi s us <> [] /\ Forall (fun c => clock_char c = true) (clock_text h mi s us).
Proof.
  intros Hh Hmi Hs Hus.
  assert (Hpad : forall w n, (0 < w)%nat -> 0 <= n < 10 ^ Z.of_nat w -> Forall (fun c => clock_char c = true) (pad w n)).
  { intros w n Hw Hn. destruct (pad_spec w n Hw Hn) as (_ & Hd & _). eapply Forall_impl; [exact Hd|].
    intros c Hc. unfold clock_char. by rewrite Hc. }
  unfold clock_text. destruct (pad2 h Hh) as (a & b & E & _ & _). split; [by rewrite E|].
  assert (Forall (fun c => clock_char c = true) (fraction_text us)).
  { unfold fraction_text. destruct (us =? 0); [constructor|].
    apply Forall_cons. split; [reflexivity|apply Hpad; lia]. }
  rewrite !Forall_app. split_and!; first [assumption|apply Hpad; lia|by constructor].
Qed.

(** The offset [isoformat] writes. *)
Definition offset_text (off : option Z) : bytes :=
  match off with
  | None => []
  | Some offset =>
      let total := Z.abs offset in
      (if offset <? 0 then 45 else 43) :: pad 2 (Z.quot total 3600) ++ [58]
      ++ pad 2 (Z.rem (Z.quot total 60) 60)
      ++ (if negb (Z.rem total 60 =? 0) then 58 :: pad 2 (Z.rem total 60) else [])
  end.

Lemma last_not_Z l c : last l = Some c -> Forall (fun c => clock_char c = true) l -> c <> 90.
Proof.
  intros Hl Hf ->. rewrite Forall_forall in Hf. apply last_Some in Hl as (l' & ->).
  specialize (Hf 90 ltac:(set_solver)). discriminate.
Qed.

Lemma hms_split total : 0 <= total < 86400 ->
  let h := Z.quot total 3600 in let mi := Z.rem (Z.quot total 60) 60 in let s := Z.rem total 60 in
  0 <= h <= 23 /\ 0 <= mi <= 59 /\ 0 <= s <= 59 /\ h * 3600 + mi * 60 + s = total.
Proof. intros Ht h mi s. subst h mi s. Z.to_euclidean_division_equations. lia. Qed.

Lemma split_offset_text t off : t <> [] -> Forall (fun c => clock_char c = true) t ->
  match off with Some o => Z.abs o < 86400 | None => True end ->
  split_offset (t ++ offset_text off) = Some (t, off).
Proof.
  intros Hn Ht Ho.
  assert (Hplain : Forall (fun c => existsb (Z.eqb c) [43; 45] = false) t).
  { eapply Forall_impl; [exact Ht|]. intros c Hc. unfold clock_char, is_ascii_digit, in_range in Hc.
    cbn [existsb]. lia. }
  unfold split_offset. destruct off as [o|]; cbn [offset_text].
  2:{ rewrite app_nil_r, bool_decide_eq_false_2, find_any_none; auto.
      intros E. by apply (last_not_Z _ _ E). }
  destruct (hms_split (Z.abs o) ltac:(lia)) as (Hh & Hmi & Hs & Hsum). cbv zeta.
  set (h := Z.quot (Z.abs o) 3600) in *. set (mi := Z.rem (Z.quot (Z.abs o) 60) 60) in *.
  set (s := Z.rem (Z.abs o) 60) in *. set (sign := if o <? 0 then 45 else 43).
  pose proof (parse_clock_plain h mi s (negb (s =? 0)) ltac:(lia) ltac:(lia) ltac:(lia)) as Hclock.
  set (ot := pad 2 h ++ _) in *.
  assert (Hot : ot <> [] /\ Forall (fun c => clock_char c = true) ot).
  { subst ot. destruct (clock_text_chars h mi s 0) as [Hne Hf]; [lia..|]. unfold clock_text, fraction_text in *.
    cbn [Z.eqb negb] in Hf. rewrite app_nil_r, !Forall_app in Hf. split; [by destruct (pad 2 h)|].
    rewrite !Forall_app. destruct (negb (s =? 0)); rewrite ?Forall_cons, ?Forall_nil; tauto. }
  destruct Hot as [Hotn Hotf].
  rewrite bool_decide_eq_false_2.
  2:{ intros E. rewrite last_app_cons in E. destruct ot as [|c ot'] eqn:Eot; [congruence|].
      rewrite last_cons_cons in E. by apply (last_not_Z _ _ E). }
  rewrite find_any_at; [|assumption|subst sign; by destruct (o <? 0)].
  rewrite take_app_length, drop_app_length. cbv zeta. cbn [length].
  destruct ot as [|c ot'] eqn:Eot; [congruence|]. cbn [Nat.ltb Nat.leb length drop].
  rewrite Hclock. cbv beta iota. assert ((if negb (s =? 0) then s else 0) = s) as -> by (destruct (Z.eqb_spec s 0); auto).
  rewrite Hsum, (proj2 (Z.leb_le _ _)) by (unfold i32_max; lia).
  do 3 f_equal. subst sign. destruct (o <? 0) eqn:?; cbn; lia.
Qed.

Lemma digit_boundary l i c : nth_error l i = Some c -> c < 128 -> is_char_boundary l i = true.
Proof.
  intros Hi Hc. assert (Hlt : (i < length l)%nat) by (apply nth_error_Some; congruence).
  unfold is_char_boundary. rewrite (nth_error_nth _ _ 0 Hi), (proj2 (Nat.ltb_lt _ _) Hlt).
  replace (in_range 128 191 c) with false by (unfold in_range; lia). by rewrite !orb_true_r.
Qed.

Lemma parse_date_text y m d rest : 0 <= y <= 9999 -> 0 <= m <= 99 -> 0 <= d <= 99 ->
  let t := pad 4 y ++ [45] ++ pad 2 m ++ [45] ++ pad 2 d ++ [84] ++ rest in
  parse_date t = Some (y, m, d, 10%nat) /\ drop 10 t = 84 :: rest.
Proof.
  intros Hy Hm Hd.
  destruct (pad_spec 4 y ltac:(lia) ltac:(lia)) as (Hl & Hyd & _).
  pose proof (pad_digits 4 y ltac:(lia) ltac:(lia) ltac:(unfold u32_max; lia)) as Py.
  destruct (pad 4 y) as [|y1 [|y2 [|y3 [|y4 [|]]]]]; try discriminate.
  destruct (pad2 m Hm) as (m1 & m2 & -> & Dm & Pm), (pad2 d Hd) as (d1 & d2 & -> & Dd & Pd).
  cbn [app]. cbv zeta. split; [|reflexivity]. set (t := y1 :: _).
  apply Forall_cons in Dm as [Dm _], Dd as [Dd _]. apply in_range_spec in Dm, Dd.
  unfold parse_date. change (Nat.leb 10 (length t)) with true.
  change (nth 4 t 0) with 45. change (nth 7 t 0) with 45. cbn [Z.eqb Pos.eqb andb].
  unfold get_range.
  change (is_char_boundary t 0) with true.
  rewrite (digit_boundary t 4 45), (digit_boundary t 5 m1), (digit_boundary t 7 45), (digit_boundary t 8 d1),
    (digit_boundary t 10 84) by (reflexivity || lia).
  subst t. cbn -[parse_digits]. by rewrite Py, Pm, Pd.
Qed.

Lemma isoformat_pieces y m d h mi s us off dt : parts dt = (y, m, d, h, mi, s, us) ->
  offset_seconds dt = off ->
  isoformat dt = pad 4 y ++ [45] ++ pad 2 m ++ [45] ++ pad 2 d ++ [84] ++ clock_text h mi s us ++ offset_text off.
Proof.
  intros Hp Ho. unfold isoformat. rewrite Hp, Ho. cbv beta iota. unfold clock_text.
  rewrite <- !app_assoc. reflexivity.
Qed.

Lemma isoformat_read y m d h mi s us off dt :
  0 <= h -> 0 <= mi -> 0 <= s -> 0 <= us ->
  from_parts (y, m, d) (h, mi, s, us) off = Some dt ->
  parts dt = (y, m, d, h, mi, s, us) /\ offset_seconds dt = off /\ from_isoformat (isoformat dt) = Some dt.
Proof.
  intros H1 H2 H3 H4 Hf.
  destruct (from_parts_spec _ _ _ _ _ _ _ _ _ H1 H2 H3 H4 Hf) as (Hv & Hh & Hmi & Hs & Hus & Ho & Hdt).
  assert (Hp : parts dt = (y, m, d, h, mi, s, us)) by (subst dt; apply parts_of_fields; auto; lia).
  assert (Hoff : offset_seconds dt = off) by (by subst dt).
  split; [exact Hp|]. split; [exact Hoff|]. rewrite (isoformat_pieces _ _ _ _ _ _ _ _ _ Hp Hoff).
  destruct Hv as (Hy & Hm & Hd).
  assert (d <= 31) by (unfold days_in_month in Hd; each_month m; cbn -[is_leap] in Hd; destruct (is_leap y); lia).
  destruct (parse_date_text y m d (clock_text h mi s us ++ offset_text off)) as [Hdate Hdrop]; [lia..|].
  destruct (clock_text_chars h mi s us) as [Hne Hchars]; [lia..|].
  unfold from_isoformat. rewrite Hdate. cbv beta iota zeta. rewrite Hdrop.
  change (drop (lead_len 84) (84 :: clock_text h mi s us ++ offset_text off))
    with (clock_text h mi s us ++ offset_text off).
  unfold parse_time. rewrite split_offset_text by assumption. rewrite parse_clock_text by lia. exact Hf.
Qed.

(** ** Comparison *)

(** Values the module hands out: [from_parts] and the checked subtractions stay
    inside the years 1 to 9999 and offsets inside a day. *)
Definition representable (d : DateTime) : Prop :=
  MIN_CIVIL_MICROS <= civil_micros d <= MAX_CIVIL_MICROS /\
  match offset_seconds d with Some o => Z.abs o < 86400 | None => True end.

Lemma days_mono y m d : valid_date y m d -> -719162 <= days_from_civil y m d <= 2932896.
Proof.
  intros (Hy & Hm & Hd).
  destruct (year_digits (march_year y m)) as (e & c & q & s & E & He & Hc & Hq & Hs).
  { unfold march_year. destruct (m <=? 2); lia. }
  pose proof (march_day_bound y m d Hm Hd) as [Hb _].
  pose proof (march_year_leap y m d e c q s Hm Hd E He Hc Hq Hs) as Hl.
  rewrite (days_from_civil_digits _ _ _ e c q s) by assumption.
  assert (march_year y m = 9999 -> march_day m d <= 305).
  { unfold march_year. intros E'. unfold march_day. unfold days_in_month in Hd.
    each_month m; eval_month; cbn -[is_leap] in Hd, E'; try lia. }
  assert (march_year y m = 0 -> 306 <= march_day m d).
  { unfold march_year. intros E'. unfold march_day. each_month m; eval_month; cbn in E'; lia. }
  assert (0 <= march_year y m <= 9999) by (unfold march_year; destruct (m <=? 2) eqn:?; lia).
  lia.
Qed.

(** Every day of the years 1 to 9999 has a date. *)
Lemma day_has_date n : 0 <= n -> -719162 + n <= 2932896 ->
  exists y m d, valid_date y m d /\ days_from_civil y m d = -719162 + n.
Proof.
  intros Hn. pattern n. apply natlike_ind; [| |exact Hn].
  { intros _. exists 1, 1, 1. repeat split; vm_compute; congruence. }
  clear n Hn. intros n Hn IH Hb. destruct (IH ltac:(lia)) as (y & m & d & Hv & E).
  pose proof (next_day_succ y m d Hv) as Hs. destruct Hv as (Hy & Hm & Hd).
  assert (Hlast : y = 9999 -> m = 12 -> d = days_in_month y m -> False).
  { intros -> -> ->. change (2932896 = -719162 + n) in E. lia. }
  assert (Hpos : forall y' m', 1 <= m' <= 12 -> 1 <= days_in_month y' m').
  { intros y' m' Hm'. unfold days_in_month. each_month m'; cbn -[is_leap]; try lia. by destruct (is_leap y'). }
  unfold next_day in Hs. destruct (Z.ltb_spec d (days_in_month y m)).
  - exists y, m, (d + 1). split; [split_and!; lia|lia].
  - destruct (Z.ltb_spec m 12); [exists y, (m + 1), 1|exists (y + 1), 1, 1];
      (split; [split_and!; try apply Hpos; lia|lia]).
Qed.

Lemma representable_fields dt : representable dt ->
  exists y m d h mi s us, 0 <= h /\ 0 <= mi /\ 0 <= s /\ 0 <= us /\
    from_parts (y, m, d) (h, mi, s, us) (offset_seconds dt) = Some dt.
Proof.
  intros [Hc Ho]. unfold MIN_CIVIL_MICROS, MAX_CIVIL_MICROS, MICROS_PER_SECOND in Hc.
  pose proof (Z.div_mod (civil_micros dt) 86400000000 ltac:(lia)) as E.
  pose proof (Z.mod_pos_bound (civil_micros dt) 86400000000 ltac:(lia)) as Hr.
  set (n := civil_micros dt / 86400000000) in *. set (rest := civil_micros dt mod 86400000000) in *.
  destruct (day_has_date (n + 719162)) as (y & m & d & Hv & Ed); [lia..|].
  pose proof (Z.quot_rem' rest 1000000). pose proof (Z.rem_bound_pos rest 1000000 ltac:(lia) ltac:(lia)).
  destruct (hms_split (Z.quot rest 1000000) ltac:(lia)) as (Hh & Hmi & Hs & Hsum).
  set (t := Z.quot rest 1000000) in *.
  exists y, m, d, (Z.quot t 3600), (Z.rem (Z.quot t 60) 60), (Z.rem t 60), (Z.rem rest 1000000).
  split_and!; try lia. destruct Hv as (Hy & Hm & Hd). unfold from_parts.
  rewrite (proj2 (in_range_spec 1 9999 y)), (proj2 (in_range_spec 1 12 m)) by lia. cbn [negb orb].
  rewrite !(proj2 (Z.ltb_ge _ _)) by lia. cbn [orb].
  assert ((match offset_seconds dt with Some o => 24 * 3600 <=? Z.abs o | None => false end) = false) as ->.
  { destruct (offset_seconds dt); [|reflexivity]. apply Z.leb_gt. lia. }
  rewrite Ed. unfold SECONDS_PER_DAY, MICROS_PER_SECOND. destruct dt as [c o]. cbn [civil_micros offset_seconds] in *.
  do 2 f_equal. lia.
Qed.

(** Text round trip.  Every value in the range the module keeps (years 1 to
    9999, offset below a day) is rebuilt by [from_parts] from the calendar
    fields it is shown as, and its ISO 8601 text parses back to the very same
    value: microseconds, awareness and offset (seconds included) are all
    kept. *)
Theorem isoformat_roundtrip dt : representable dt ->
  (let '(y, m, d, h, mi, s, us) := parts dt in from_parts (y, m, d) (h, mi, s, us) (offset_seconds dt) = Some dt) /\
  from_isoformat (isoformat dt) = Some dt.
Proof.
  intros Hr. destruct (representable_fields dt Hr) as (y & m & d & h & mi & s & us & H1 & H2 & H3 & H4 & Hf).
  destruct (isoformat_read _ _ _ _ _ _ _ _ _ H1 H2 H3 H4 Hf) as (-> & _ & E). by split.
Qed.

Lemma isoformat_roundtrip_witness :
  from_isoformat (isoformat (mkDateTime 1709251199500000 (Some (-19805)))) = Some (mkDateTime 1709251199500000 (Some (-19805))).
Proof.
  refine (proj2 (isoformat_roundtrip (mkDateTime 1709251199500000 (Some (-19805))) _)).
  split; vm_compute; [split|]; congruence.
Defined.

Lemma from_parts_representable y m d h mi s us off dt : 0 <= h -> 0 <= mi -> 0 <= s -> 0 <= us ->
  from_parts (y, m, d) (h, mi, s, us) off = Some dt -> representable dt.
Proof.
  intros H1 H2 H3 H4 Hf.
  destruct (from_parts_spec _ _ _ _ _ _ _ _ _ H1 H2 H3 H4 Hf) as (Hv & Hh & Hmi & Hs & Hus & Ho & ->).
  apply days_mono in Hv. split; [|exact Ho]. unfold MIN_CIVIL_MICROS, MAX_CIVIL_MICROS, MICROS_PER_SECOND. cbn. lia.
Qed.

Lemma round_half_even_spec v k : 0 < k -> let n := round_half_even v k in
  2 * Z.abs (n * k - v) <= k /\ (2 * Z.abs (n * k - v) = k -> Z.even n = true).
Proof.
  intros Hk. unfold round_half_even. cbv zeta.
  pose proof (Z.div_mod v k ltac:(lia)). pose proof (Z.mod_pos_bound v k Hk).
  set (q := v / k) in *. set (r := v mod k) in *.
  destruct (_ || _) eqn:E.
  - split; [lia|]. intros Ht. assert (r * 2 = k) by lia.
    rewrite Z.even_add. rewrite (rem_0 q 2), <- Zeven_mod in E by lia.
    destruct (Z.even q); [|reflexivity]. cbn in E. lia.
  - split; [lia|]. intros Ht. assert (r * 2 = k) by lia.
    rewrite (rem_0 q 2), <- Zeven_mod in E by lia. destruct (Z.even q); [reflexivity|]. cbn in E. lia.
Qed.

(** Comparison and differences.  Over the values the module can build, two
    datetimes compare exactly when both are aware or both are naive; then [lt]
    orders their instants and [seconds_since] is the nearest whole second of
    their difference, ties going to the even one; none of the [i64]
    intermediates overflows. *)
Theorem datetime_comparison a b : representable a -> representable b ->
  (lt a b = None <-> is_aware a <> is_aware b) /\
  (seconds_since a b = None <-> is_aware a <> is_aware b) /\
  (is_aware a = is_aware b ->
     lt a b = Some (instant_micros a <? instant_micros b) /\
     exists n, seconds_since a b = Some n /\
       let err := Z.abs (n * MICROS_PER_SECOND - (instant_micros a - instant_micros b)) in
       2 * err <= MICROS_PER_SECOND /\ (2 * err = MICROS_PER_SECOND -> Z.even n = true)) /\
  Forall (fun n => i64_min <= n <= i64_max)
    [instant_micros a; instant_micros b; instant_micros a - instant_micros b].
Proof.
  intros [Ha Hoa] [Hb Hob].
  pose proof (round_half_even_spec (instant_micros a - instant_micros b) MICROS_PER_SECOND eq_refl) as Hr.
  unfold lt, seconds_since, comparable_with, is_aware, instant_micros in *.
  unfold MIN_CIVIL_MICROS, MAX_CIVIL_MICROS, MICROS_PER_SECOND, i64_min, i64_max in *.
  destruct (offset_seconds a) as [oa|], (offset_seconds b) as [ob|]; cbn [default from_option id] in *;
    repeat (rewrite bool_decide_eq_true_2 by done || rewrite bool_decide_eq_false_2 by (by intros [? ?]));
    rewrite ?Z.mul_0_l, ?Z.sub_0_r in *; split_and!; try (by split); try (intros; congruence);
    try (repeat (apply Forall_cons; split); try apply Forall_nil_2; lia); eauto.
Qed.

Lemma datetime_comparison_witness :
  (lt (mkDateTime 0 (Some 0)) (mkDateTime 3600000000 None) = None
   <-> is_aware (mkDateTime 0 (Some 0)) <> is_aware (mkDateTime 3600000000 None)).
Proof.
  apply (datetime_comparison (mkDateTime 0 (Some 0)) (mkDateTime 3600000000 None));
    split; vm_compute; try split; congruence.
Defined.

Lemma parse_digits_nonneg t n : parse_digits t = Some n -> 0 <= n.
Proof.
  unfold parse_digits. destruct (_ || _); [discriminate|]. apply parse_unsigned_nonneg.
Qed.
#[export] Hint Resolve parse_digits_nonneg : rust.

(** Takes an [option] computation apart into the steps that succeeded. *)
Ltac steps H := repeat case_in H; try discriminate; simplify_eq; split_and?; eauto with rust; try done.

Lemma parse_two_digits_nonneg t n : parse_two_digits t = Some n -> 0 <= n.
Proof. unfold parse_two_digits. intros H. steps H. Qed.
#[export] Hint Resolve parse_two_digits_nonneg : rust.

Lemma next_field_nonneg fs n fs' : next_field fs = Some (n, fs') -> 0 <= n.
Proof. destruct fs as [|f fs]; cbn [next_field]; intros H; [simplify_eq; lia|steps H]. Qed.
#[export] Hint Resolve next_field_nonneg : rust.

Lemma colon_fields_nonneg t h m s : colon_fields t = Some (h, m, s) -> 0 <= h /\ 0 <= m /\ 0 <= s.
Proof. unfold colon_fields. intros H. steps H. Qed.

Lemma parse_fraction_nonneg f n : parse_fraction f = Some n -> 0 <= n.
Proof.
  destruct f; cbn [parse_fraction]; intros H; [|simplify_eq; lia].
  case_in H; [discriminate|]. by apply parse_unsigned_nonneg in H.
Qed.
#[export] Hint Resolve parse_fraction_nonneg : rust.

Lemma parse_clock_nonneg t h m s us : parse_clock t = Some (h, m, s, us) ->
  0 <= h /\ 0 <= m /\ 0 <= s /\ 0 <= us.
Proof.
  unfold parse_clock. destruct (bool_decide _); [discriminate|].
  destruct (match find_any _ t with Some _ => _ | None => _ end) as [clock fraction].
  destruct (existsb _ clock).
  - intros H. destruct (colon_fields clock) as [[[h' m'] s']|] eqn:E; [|discriminate].
    apply colon_fields_nonneg in E as (? & ? & ?). steps H.
  - intros H. destruct (basic_fields clock) as [[[h' m'] s']|] eqn:E; [|discriminate].
    assert (0 <= h' /\ 0 <= m' /\ 0 <= s') by (unfold basic_fields in E; steps E).
    destruct_and!. steps H.
Qed.

Lemma from_isoformat_representable text d : from_isoformat text = Some d -> representable d.
Proof.
  unfold from_isoformat. destruct (parse_date text) as [[[[y m] dd] n]|]; [|discriminate].
  cbv beta iota zeta. destruct (drop n text) as [|sep r].
  { intros H. by apply from_parts_representable in H. }
  unfold parse_time. destruct (split_offset _) as [[t off]|]; [|discriminate].
  destruct (parse_clock t) as [[[[h mi] s] us]|] eqn:E; [|discriminate].
  apply parse_clock_nonneg in E as (H1 & H2 & H3 & H4). intros H.
  exact (from_parts_representable _ _ _ _ _ _ _ _ _ H1 H2 H3 H4 H).
Qed.

Lemma i64_checked_in n : i64_min <= n <= i64_max -> i64_checked n = Some n.
Proof. intros H. unfold i64_checked. by rewrite (proj2 (andb_true_iff _ _)) by lia. Qed.

Lemma i64_checked_out n : ~ i64_min <= n <= i64_max -> i64_checked n = None.
Proof. intros H. unfold i64_checked. by rewrite (proj2 (andb_false_iff _ _)) by lia. Qed.

Lemma checked_sub_micros_exact d n : representable d -> i64_min <= n <= i64_max ->
  checked_sub_micros d n =
    (if in_range MIN_CIVIL_MICROS MAX_CIVIL_MICROS (civil_micros d - n)
     then Some (mkDateTime (civil_micros d - n) (offset_seconds d)) else None).
Proof.
  intros [Hd Ho] Hn. unfold checked_sub_micros.
  destruct (in_range _ _ (civil_micros d - n)) eqn:E.
  - rewrite i64_checked_in, E; [reflexivity|]. apply in_range_spec in E.
    unfold MIN_CIVIL_MICROS, MAX_CIVIL_MICROS, MICROS_PER_SECOND, i64_min, i64_max in *. lia.
  - destruct (i64_checked (civil_micros d - n)) as [c|] eqn:Ec; [|reflexivity].
    unfold i64_checked in Ec. destruct (_ && _); [|discriminate]. injection Ec as <-. by rewrite E.
Qed.

(** A checked subtraction is exact: it answers the moved value when that
    lies in the years 1 to 9999 and refuses otherwise, for every [i64] amount
    (an overflow of the arithmetic only happens where the result would be out of
    range anyway); what it answers is representable, like every value built
    from fields or parsed. *)
Theorem checked_sub_exact d n : representable d -> i64_min <= n <= i64_max ->
  (forall text d', from_isoformat text = Some d' -> representable d') /\
  checked_sub_micros d n =
    (if in_range MIN_CIVIL_MICROS MAX_CIVIL_MICROS (civil_micros d - n)
     then Some (mkDateTime (civil_micros d - n) (offset_seconds d)) else None) /\
  checked_sub_seconds d n =
    (if in_range MIN_CIVIL_MICROS MAX_CIVIL_MICROS (civil_micros d - n * MICROS_PER_SECOND)
     then Some (mkDateTime (civil_micros d - n * MICROS_PER_SECOND) (offset_seconds d)) else None) /\
  forall d', checked_sub_micros d n = Some d' \/ checked_sub_seconds d n = Some d' -> representable d'.
Proof.
  intros [Hd Ho] Hn. split; [apply from_isoformat_representable|].
  pose proof (checked_sub_micros_exact d n (conj Hd Ho) Hn) as H1.
  assert (H2 : checked_sub_seconds d n = (if in_range MIN_CIVIL_MICROS MAX_CIVIL_MICROS (civil_micros d - n * MICROS_PER_SECOND)
     then Some (mkDateTime (civil_micros d - n * MICROS_PER_SECOND) (offset_seconds d)) else None)).
  { unfold checked_sub_seconds.
    destruct (decide (i64_min <= n * MICROS_PER_SECOND <= i64_max)) as [Hin|Hout].
    - rewrite i64_checked_in by exact Hin. by apply checked_sub_micros_exact.
    - rewrite i64_checked_out by exact Hout. destruct (in_range _ _ (civil_micros d - n * _)) eqn:E; [|reflexivity].
      exfalso. apply Hout. apply in_range_spec in E.
      unfold MIN_CIVIL_MICROS, MAX_CIVIL_MICROS, MICROS_PER_SECOND, i64_min, i64_max in *. lia. }
  split; [exact H1|]. split; [exact H2|]. rewrite H1, H2.
  intros d' [H|H]; case_in H; try discriminate; apply in_range_spec in E; injection H as <-;
    (split; [exact E|exact Ho]).
Qed.

Lemma checked_sub_exact_witness :
  checked_sub_seconds (mkDateTime 0 (Some 0)) 62135596801 = None.
Proof.
  destruct (checked_sub_exact (mkDateTime 0 (Some 0)) 62135596801) as (_ & _ & H & _);
    [split; vm_compute; try split; congruence|vm_compute; split; congruence|exact H].
Defined.
