(* ===== verification/Timestamp.v ===== *)
(** Audit timestamps: the model of [Timestamp] in [agentcage-core/src/audit.rs],
    the second ISO 8601 reader of the program.  The egress domain inspector and
    [cage audit --since] read with it the texts that [DateTime::isoformat]
    writes; the property here is that the two agree. *)
From S2P Require Import Prelude DateTime.
From Stdlib Require Import ZifyBool.

(** * Definitions *)

(** [Timestamp], by its microseconds since the epoch. *)
Record Timestamp : Type := mkTimestamp { unix_micros : Z }.
#[export] Instance Timestamp_eq_dec : EqDecision Timestamp.
Proof. solve_decision. Defined.
Definition from_unix_micros (micros : Z) : Timestamp := mkTimestamp micros.
(** The derived [Ord]. *)
Definition ts_gtb (a b : Timestamp) : bool := unix_micros b <? unix_micros a.
Definition ts_geb (a b : Timestamp) : bool := unix_micros b <=? unix_micros a.

Definition audit_is_leap (y : Z) : bool :=
  (Z.rem y 4 =? 0) && (negb (Z.rem y 100 =? 0) || (Z.rem y 400 =? 0)).
Definition audit_days_in_month (y m : Z) : Z :=
  if (m =? 1) || (m =? 3) || (m =? 5) || (m =? 7) || (m =? 8) || (m =? 10) || (m =? 12) then 31
  else if (m =? 4) || (m =? 6) || (m =? 9) || (m =? 11) then 30
  else if (m =? 2) && audit_is_leap y then 29
  else if m =? 2 then 28
  else 0.

Definition audit_days_from_civil (y m d : Z) : Z :=
  let y := if m <=? 2 then y - 1 else y in
  let era := Z.quot (if 0 <=? y then y else y - 399) 400 in
  let yoe := y - era * 400 in
  let mp := Z.rem (m + 9) 12 in
  let doy := Z.quot (153 * mp + 2) 5 + d - 1 in
  let doe := yoe * 365 + Z.quot yoe 4 - Z.quot yoe 100 + doy in
  era * 146097 + doe - 719468.

Definition audit_civil_from_days (z : Z) : Z * Z * Z :=
  let z := z + 719468 in
  let era := Z.quot (if 0 <=? z then z else z - 146096) 146097 in
  let doe := z - era * 146097 in
  let yoe := Z.quot (doe - Z.quot doe 1460 + Z.quot doe 36524 - Z.quot doe 146096) 365 in
  let y := yoe + era * 400 in
  let doy := doe - (365 * yoe + Z.quot yoe 4 - Z.quot yoe 100) in
  let mp := Z.quot (5 * doy + 2) 153 in
  let d := doy - Z.quot (153 * mp + 2) 5 + 1 in
  let m := if mp <? 10 then mp + 3 else mp - 9 in
  (if m <=? 2 then y + 1 else y, m, d).

Definition iso_year_has_53_weeks (y : Z) : bool :=
  let jan1 := audit_days_from_civil y 1 1 in
  let weekday := jan1 mod 7 + 4 in
  let weekday := Z.rem (weekday - 1) 7 + 1 in
  (weekday =? 4) || ((weekday =? 3) && audit_is_leap y).

(** [b.get(at..at + n)], then the number. *)
Definition iso_digits (b : bytes) (at_ n : nat) : option Z :=
  if Nat.leb (at_ + n) (length b) then
    let slice := take n (drop at_ b) in
    if negb (forallb is_ascii_digit slice) then None
    else Some (fold_left (fun v c => v * 10 + (c - 48)) slice 0)
  else None.

(** [b.get(i) == Some(&c)]. *)
Definition byte_is (b : bytes) (i : nat) (c : Z) : bool := bool_decide (b !! i = Some c).

Definition parse_iso_week_date (b : bytes) (w : nat) : option (Z * nat) :=
  let extended := Nat.eqb w 5 in
  let? year := iso_digits b 0 4 in
  let? week := iso_digits b (w + 1) 2 in
  let after_week := (w + 3)%nat in
  let? (day, len) :=
    (if extended then
       if byte_is b after_week 45 then
         let? d := iso_digits b (after_week + 1) 1 in Some (d, (after_week + 2)%nat)
       else Some (1, after_week)
     else if match b !! after_week with Some c => is_ascii_digit c | None => false end then
       let? d := iso_digits b after_week 1 in Some (d, (after_week + 1)%nat)
     else Some (1, after_week)) in
  if negb (in_range 1 7 day) then None
  else if negb (in_range 1 53 week) || ((week =? 53) && negb (iso_year_has_53_weeks year)) then None
  else
    let jan4 := audit_days_from_civil year 1 4 in
    let jan4_weekday := Z.rem (jan4 mod 7 + 3) 7 in
    let days := jan4 - jan4_weekday + (week - 1) * 7 + (day - 1) in
    let '(landed_year, _, _) := audit_civil_from_days days in
    if negb (in_range 1 9999 landed_year) then None else Some (days, len).

Definition parse_iso_date (b : bytes) : option (Z * nat) :=
  let week_at :=
    if byte_is b 4 87 then Some 4%nat
    else if byte_is b 4 45 && byte_is b 5 87 then Some 5%nat
    else None in
  match week_at with
  | Some w => parse_iso_week_date b w
  | None =>
      let? year := iso_digits b 0 4 in
      let? (month, day, len) :=
        (if byte_is b 4 45 then
           if negb (byte_is b 7 45) then None
           else let? m := iso_digits b 5 2 in let? d := iso_digits b 8 2 in Some (m, d, 10%nat)
         else let? m := iso_digits b 4 2 in let? d := iso_digits b 6 2 in Some (m, d, 8%nat)) in
      if negb (in_range 1 12 month) || (day <? 1) || (audit_days_in_month year month <? day) then None
      else if year <? 1 then None
      else Some (audit_days_from_civil year month day, len)
  end.

Definition parse_iso_fraction (b : bytes) : option Z :=
  match b with
  | [] => Some 0
  | c :: digits_part =>
      if negb (c =? 46) && negb (c =? 44) then None
      else if bool_decide (digits_part = []) || negb (forallb is_ascii_digit digits_part) then None
      else
        Some (fold_left (fun micros i =>
                micros * 10 + match digits_part !! i with Some c => c - 48 | None => 0 end)
                [0; 1; 2; 3; 4; 5]%nat 0)
  end.

(** The fields of a clock or of an offset's body: the two functions of the
    source spell this block out once each. *)
Definition iso_fields (time : bytes) : option (Z * Z * Z * nat) :=
  let? hour := iso_digits time 0 2 in
  let extended := byte_is time 2 58 in
  let step := if extended then 1%nat else 0%nat in
  let n := length time in
  if Nat.eqb n 2 then Some (hour, 0, 0, 2%nat)
  else if Nat.leb (4 + step) n then
    let? minute := iso_digits time (2 + step) 2 in
    if Nat.eqb n (4 + step) then Some (hour, minute, 0, (4 + step)%nat)
    else if extended && negb (byte_is time 5 58) then None
    else let? second := iso_digits time (4 + 2 * step) 2 in
         Some (hour, minute, second, (6 + 2 * step)%nat)
  else None.

Definition parse_iso_offset (b : bytes) : option Z :=
  match b with
  | [] => None
  | c :: body =>
      let? sign := (if c =? 43 then Some 1 else if c =? 45 then Some (-1) else None) in
      let? (hour, minute, second, after) := iso_fields body in
      let? frac := parse_iso_fraction (drop (Nat.min after (length body)) body) in
      let magnitude := hour * 3600000000 + minute * 60000000 + second * 1000000 + frac in
      if 86400000000 <=? magnitude then None else Some (sign * magnitude)
  end.

Definition is_offset_mark (c : Z) : bool := (c =? 90) || (c =? 43) || (c =? 45).
Fixpoint position_where (f : Z -> bool) (l : bytes) : option nat :=
  match l with
  | [] => None
  | c :: r => if f c then Some 0%nat else S <$> position_where f r
  end.

Definition parse_iso_time (b : bytes) : option (Z * Z) :=
  let? (time, offset) :=
    match position_where is_offset_mark b with
    | Some i =>
        if byte_is b i 90 then if negb (Nat.eqb (i + 1) (length b)) then None else Some (take i b, 0)
        else let? o := parse_iso_offset (drop i b) in Some (take i b, o)
    | None => Some (b, 0)
    end in
  let? (hour, minute, second, after) := iso_fields time in
  let? frac := parse_iso_fraction (drop (Nat.min after (length time)) time) in
  if (23 <? hour) || (59 <? minute) || (59 <? second) then None
  else Some (hour * 3600000000 + minute * 60000000 + second * 1000000 + frac, offset).

Definition parse_iso_aware (b : bytes) : option (Timestamp * bool) :=
  if negb (forallb is_ascii b) then None
  else
    let? (days, date_len) := parse_iso_date b in
    if Nat.eqb (length b) date_len then
      let? micros := i64_checked (days * 86400000000) in Some (mkTimestamp micros, false)
    else
      let rest := drop (date_len + 1) b in
      let? (time_micros, offset_micros) := parse_iso_time rest in
      let aware := existsb is_offset_mark rest in
      let? m1 := i64_checked (days * 86400000000) in
      let? m2 := i64_checked (m1 + time_micros) in
      let? micros := i64_checked (m2 - offset_micros) in
      Some (mkTimestamp micros, aware).

Definition parse_iso (s : bytes) : option Timestamp := option_map fst (parse_iso_aware s).

(** * Theorems *)

Lemma audit_days_eq y m d : 1 <= m <= 12 -> audit_days_from_civil y m d = days_from_civil y m d.
Proof.
  intros Hm. unfold audit_days_from_civil, days_from_civil. fold (march_month m).
  assert (Z.rem (m + 9) 12 = march_month m) as -> by (each_month m; reflexivity). reflexivity.
Qed.

Lemma iso_digits_at t a n x : length x = n -> take n (drop a t) = x -> x <> [] -> digits x ->
  iso_digits t a n = Some (dec_value 0 x).
Proof.
  intros Hn Hx Hne Hd. unfold iso_digits.
  assert (Hl : (a + n <= length t)%nat).
  { destruct x as [|c x]; [congruence|]. apply (f_equal length) in Hx. rewrite length_take, length_drop in Hx.
    simpl in *. lia. }
  rewrite (proj2 (Nat.leb_le _ _) Hl), Hx. cbv zeta. by rewrite (proj2 (forallb_Forall _ _) Hd).
Qed.

Lemma pad2_value n : 0 <= n <= 99 -> exists a b, pad 2 n = [a; b] /\ digits [a; b] /\ dec_value 0 [a; b] = n.
Proof.
  intros Hn. destruct (pad_spec 2 n ltac:(lia) ltac:(lia)) as (Hl & Hd & Hv).
  destruct (pad 2 n) as [|a [|b [|]]]; try discriminate. eauto.
Qed.

Lemma byte_is_eq t i c c' : t !! i = Some c' -> byte_is t i c = (c' =? c).
Proof.
  intros E. unfold byte_is. rewrite E. destruct (Z.eqb_spec c' c).
  - subst. by apply bool_decide_eq_true_2.
  - apply bool_decide_eq_false_2. congruence.
Qed.

Lemma parse_iso_date_text y m d rest : valid_date y m d ->
  let t := pad 4 y ++ [45] ++ pad 2 m ++ [45] ++ pad 2 d ++ [84] ++ rest in
  parse_iso_date t = Some (days_from_civil y m d, 10%nat) /\ length t = (11 + length rest)%nat /\ drop 11 t = rest.
Proof.
  intros (Hy & Hm & Hd).
  assert (d <= 31) by (unfold days_in_month in Hd; each_month m; cbn -[is_leap] in Hd; destruct (is_leap y); lia).
  destruct (pad_spec 4 y ltac:(lia) ltac:(lia)) as (Hl & Hyd & Hyv).
  destruct (pad 4 y) as [|y1 [|y2 [|y3 [|y4 [|]]]]]; try discriminate.
  destruct (pad2_value m ltac:(lia)) as (m1 & m2 & -> & Dm & Pm), (pad2_value d ltac:(lia)) as (d1 & d2 & -> & Dd & Pd).
  cbn [app]. cbv zeta. split; [|split; reflexivity]. set (t := y1 :: _).
  assert (H5 : byte_is t 5 87 = false).
  { rewrite (byte_is_eq t 5 87 m1 eq_refl). apply Forall_cons in Dm as [Dm _]. apply in_range_spec in Dm. lia. }
  unfold parse_iso_date. rewrite H5, !(byte_is_eq t 4 _ 45 eq_refl), (byte_is_eq t 7 _ 45 eq_refl).
  cbn [Z.eqb Pos.eqb andb negb].
  rewrite (iso_digits_at t 0 4 [y1; y2; y3; y4] eq_refl eq_refl ltac:(done) Hyd), Hyv.
  rewrite (iso_digits_at t 5 2 [m1; m2] eq_refl eq_refl ltac:(done) Dm), Pm.
  rewrite (iso_digits_at t 8 2 [d1; d2] eq_refl eq_refl ltac:(done) Dd), Pd.
  cbv beta iota. rewrite (proj2 (in_range_spec 1 12 m)) by lia.
  change (audit_days_in_month y m) with (days_in_month y m).
  rewrite (proj2 (Z.ltb_ge _ _)), (proj2 (Z.ltb_ge _ _)), (proj2 (Z.ltb_ge y 1)) by lia. cbn [negb orb].
  by rewrite audit_days_eq by lia.
Qed.

Lemma parse_iso_fraction_text us : 0 <= us <= 999999 ->
  parse_iso_fraction (fraction_text us) = Some us.
Proof.
  intros Hus. unfold fraction_text. destruct (Z.eqb_spec us 0) as [->|Hne]; [reflexivity|]. cbn [negb].
  destruct (pad_spec 6 us ltac:(lia) ltac:(lia)) as (Hl & Hd & Hv).
  destruct (pad 6 us) as [|a [|b [|c [|d [|e [|f [|]]]]]]]; try discriminate.
  cbn [parse_iso_fraction]. rewrite (proj2 (forallb_Forall _ _) Hd). rewrite <- Hv. reflexivity.
Qed.

Lemma iso_fields_hms h mi s fr : 0 <= h <= 99 -> 0 <= mi <= 99 -> 0 <= s <= 99 ->
  let t := pad 2 h ++ [58] ++ pad 2 mi ++ [58] ++ pad 2 s ++ fr in
  iso_fields t = Some (h, mi, s, 8%nat) /\ drop (Nat.min 8 (length t)) t = fr.
Proof.
  intros Hh Hmi Hs.
  destruct (pad2_value h Hh) as (a & b & -> & D1 & P1), (pad2_value mi Hmi) as (c & d & -> & D2 & P2),
    (pad2_value s Hs) as (e & f & -> & D3 & P3).
  cbn [app]. cbv zeta. split; [|reflexivity]. set (t := a :: _). unfold iso_fields.
  rewrite (byte_is_eq t 2 58 58 eq_refl), (byte_is_eq t 5 58 58 eq_refl). cbv zeta. cbn [Z.eqb Pos.eqb].
  rewrite (iso_digits_at t 0 2 [a; b] eq_refl eq_refl ltac:(done) D1), P1.
  rewrite (iso_digits_at t (2 + 1) 2 [c; d] eq_refl eq_refl ltac:(done) D2), P2.
  rewrite (iso_digits_at t (4 + 2 * 1) 2 [e; f] eq_refl eq_refl ltac:(done) D3), P3. reflexivity.
Qed.

Lemma iso_fields_hm h mi : 0 <= h <= 99 -> 0 <= mi <= 99 ->
  let t := pad 2 h ++ [58] ++ pad 2 mi in
  iso_fields t = Some (h, mi, 0, 5%nat) /\ drop (Nat.min 5 (length t)) t = [].
Proof.
  intros Hh Hmi.
  destruct (pad2_value h Hh) as (a & b & -> & D1 & P1), (pad2_value mi Hmi) as (c & d & -> & D2 & P2).
  cbn [app]. cbv zeta. split; [|reflexivity]. set (t := a :: _). unfold iso_fields.
  rewrite (byte_is_eq t 2 58 58 eq_refl). cbv zeta. cbn [Z.eqb Pos.eqb].
  rewrite (iso_digits_at t 0 2 [a; b] eq_refl eq_refl ltac:(done) D1), P1.
  rewrite (iso_digits_at t (2 + 1) 2 [c; d] eq_refl eq_refl ltac:(done) D2), P2. reflexivity.
Qed.

Lemma parse_iso_offset_text o : Z.abs o < 86400 ->
  parse_iso_offset (offset_text (Some o)) = Some (o * 1000000).
Proof.
  intros Ho. destruct (hms_split (Z.abs o) ltac:(lia)) as (Hh & Hmi & Hs & Hsum). cbn [offset_text].
  cbv zeta. set (h := Z.quot (Z.abs o) 3600) in *.
  set (mi := Z.rem (Z.quot (Z.abs o) 60) 60) in *. set (s := Z.rem (Z.abs o) 60) in *.
  cbn [parse_iso_offset].
  assert ((if (if o <? 0 then 45 else 43) =? 43 then Some 1
     else if (if o <? 0 then 45 else 43) =? 45 then Some (-1) else None) = Some (if o <? 0 then -1 else 1)) as ->
    by (by destruct (o <? 0)).
  assert (Hbody : exists after, iso_fields (pad 2 h ++ [58] ++ pad 2 mi ++ (if negb (s =? 0) then 58 :: pad 2 s else []))
    = Some (h, mi, s, after) /\ drop (Nat.min after (length (pad 2 h ++ [58] ++ pad 2 mi ++ (if negb (s =? 0) then 58 :: pad 2 s else []))))
        (pad 2 h ++ [58] ++ pad 2 mi ++ (if negb (s =? 0) then 58 :: pad 2 s else [])) = []).
  { destruct (Z.eqb_spec s 0) as [E|E]; cbn [negb].
    - exists 5%nat. rewrite E, app_nil_r. apply iso_fields_hm; lia.
    - exists 8%nat. pose proof (iso_fields_hms h mi s [] ltac:(lia) ltac:(lia) ltac:(lia)) as H.
      by rewrite app_nil_r in H. }
  destruct Hbody as (after & Hf & Hdrop). rewrite Hf. cbv beta iota. rewrite Hdrop. cbn [parse_iso_fraction].
  cbv beta iota zeta. rewrite (proj2 (Z.leb_gt _ _)) by lia. f_equal. destruct (o <? 0) eqn:?; lia.
Qed.

Lemma position_where_at f l c r : Forall (fun c => f c = false) l -> f c = true ->
  position_where f (l ++ c :: r) = Some (length l).
Proof.
  intros Hl Hc. induction Hl as [|x l Hx Hl IH]; cbn [position_where app]; [by rewrite Hc|]. by rewrite Hx, IH.
Qed.
Lemma position_where_none f l : Forall (fun c => f c = false) l -> position_where f l = None.
Proof. induction 1 as [|x l Hx Hl IH]; [reflexivity|]. cbn [position_where]. by rewrite Hx, IH. Qed.

Lemma parse_iso_time_text h mi s us off : 0 <= h <= 23 -> 0 <= mi <= 59 -> 0 <= s <= 59 -> 0 <= us <= 999999 ->
  match off with Some o => Z.abs o < 86400 | None => True end ->
  parse_iso_time (clock_text h mi s us ++ offset_text off)
  = Some ((h * 3600 + mi * 60 + s) * 1000000 + us, default 0 off * 1000000) /\
  existsb is_offset_mark (clock_text h mi s us ++ offset_text off) = bool_decide (is_Some off).
Proof.
  intros Hh Hmi Hs Hus Ho.
  destruct (clock_text_chars h mi s us) as [Hne Hchars]; [lia..|].
  assert (Hmark : Forall (fun c => is_offset_mark c = false) (clock_text h mi s us)).
  { eapply Forall_impl; [exact Hchars|]. intros c Hc.
    unfold clock_char, is_ascii_digit, in_range in Hc. unfold is_offset_mark. lia. }
  destruct (iso_fields_hms h mi s (fraction_text us)) as [Hf Hdrop]; [lia..|]. fold (clock_text h mi s us) in Hf, Hdrop.
  assert (Hsplit : forall offset : Z,
    (let? (time, offset) := Some (clock_text h mi s us, offset) in
     let? (hour, minute, second, after) := iso_fields time in
     let? frac := parse_iso_fraction (drop (Nat.min after (length time)) time) in
     if (23 <? hour) || (59 <? minute) || (59 <? second) then None
     else Some (hour * 3600000000 + minute * 60000000 + second * 1000000 + frac, offset))
    = Some ((h * 3600 + mi * 60 + s) * 1000000 + us, offset)).
  { intros offset. rewrite Hf. cbv beta iota. rewrite Hdrop, parse_iso_fraction_text by lia.
    rewrite !(proj2 (Z.ltb_ge _ _)) by lia. cbn [orb]. do 2 f_equal. lia. }
  destruct off as [o|]; cbn [offset_text default].
  - pose proof (parse_iso_offset_text o Ho) as Hoff. cbn [offset_text] in Hoff. cbv zeta in *.
    set (sign := if o <? 0 then 45 else 43) in *. set (body := pad 2 _ ++ _) in *.
    assert (Hsm : is_offset_mark sign = true) by (subst sign; by destruct (o <? 0)).
    split.
    + unfold parse_iso_time. rewrite position_where_at by assumption.
      rewrite (byte_is_eq _ _ _ sign) by (rewrite lookup_app_r, Nat.sub_diag by lia; reflexivity).
      assert ((sign =? 90) = false) as -> by (subst sign; by destruct (o <? 0)).
      rewrite take_app_length, drop_app_length, Hoff. apply Hsplit.
    + rewrite existsb_app. cbn [existsb]. rewrite Hsm. by rewrite orb_true_r.
  - rewrite app_nil_r. split.
    + unfold parse_iso_time. rewrite position_where_none by assumption. apply Hsplit.
    + by apply existsb_false_Forall.
Qed.

Lemma iso_ascii y m d h mi s us off dt : 0 <= h -> 0 <= mi -> 0 <= s -> 0 <= us ->
  from_parts (y, m, d) (h, mi, s, us) off = Some dt ->
  Forall (fun c => is_ascii c = true)
    (pad 4 y ++ [45] ++ pad 2 m ++ [45] ++ pad 2 d ++ [84] ++ clock_text h mi s us ++ offset_text off).
Proof.
  intros H1 H2 H3 H4 Hf.
  destruct (from_parts_spec _ _ _ _ _ _ _ _ _ H1 H2 H3 H4 Hf) as ((Hy & Hm & Hd) & Hh & Hmi & Hs & Hus & Ho & _).
  assert (d <= 31) by (unfold days_in_month in Hd; each_month m; cbn -[is_leap] in Hd; destruct (is_leap y); lia).
  assert (Hpad : forall w n, (0 < w)%nat -> 0 <= n < 10 ^ Z.of_nat w -> Forall (fun c => is_ascii c = true) (pad w n)).
  { intros w n Hw Hn. destruct (pad_spec w n Hw Hn) as (_ & Hdg & _). eapply Forall_impl; [exact Hdg|].
    intros c Hc. unfold is_ascii_digit, is_ascii, in_range in *. lia. }
  destruct (clock_text_chars h mi s us) as [_ Hc]; [lia..|].
  rewrite !Forall_app. split_and!; try (apply Hpad; lia); try (by constructor).
  - eapply Forall_impl; [exact Hc|]. intros c. unfold clock_char, is_ascii_digit, is_ascii, in_range. lia.
  - destruct off as [o|]; cbn [offset_text]; [|constructor]. cbv zeta.
    destruct (hms_split (Z.abs o) ltac:(lia)) as (Hh' & Hmi' & Hs' & _). apply Forall_cons. split.
    { by destruct (o <? 0). }
    rewrite !Forall_app. split_and!; try (apply Hpad; lia); try (by constructor).
    destruct (negb _); [|constructor]. apply Forall_cons. split; [reflexivity|apply Hpad; lia].
Qed.

Lemma iso_read_back y m d h mi s us off dt :
  0 <= h -> 0 <= mi -> 0 <= s -> 0 <= us ->
  from_parts (y, m, d) (h, mi, s, us) off = Some dt ->
  parse_iso_aware (isoformat dt) = Some (mkTimestamp (instant_micros dt), is_aware dt).
Proof.
  intros H1 H2 H3 H4 Hf. pose proof (iso_ascii _ _ _ _ _ _ _ _ _ H1 H2 H3 H4 Hf) as Hascii.
  destruct (from_parts_spec _ _ _ _ _ _ _ _ _ H1 H2 H3 H4 Hf) as (Hv & Hh & Hmi & Hs & Hus & Ho & Hdt).
  assert (Hp : parts dt = (y, m, d, h, mi, s, us)) by (subst dt; apply parts_of_fields; auto; lia).
  assert (Hoff : offset_seconds dt = off) by (by subst dt).
  pose proof (days_mono y m d Hv) as Hb.
  rewrite (isoformat_pieces _ _ _ _ _ _ _ _ _ Hp Hoff).
  destruct (parse_iso_date_text y m d (clock_text h mi s us ++ offset_text off) Hv) as (Hdate & Hlen & Hdrop).
  destruct (parse_iso_time_text h mi s us off) as [Htime Haware]; [lia..|exact Ho|].
  unfold parse_iso_aware. rewrite (proj2 (forallb_Forall _ _) Hascii). cbn [negb].
  rewrite Hdate. cbv beta iota. rewrite Hlen, (proj2 (Nat.eqb_neq _ _)) by lia.
  change (drop (10 + 1)) with (drop (A:=Z) 11). rewrite Hdrop. cbv zeta. rewrite Htime, Haware. cbv beta iota.
  assert (Z.abs (default 0 off) < 86400) by (destruct off; [exact Ho|reflexivity]).
  rewrite !i64_checked_in by (unfold i64_min, i64_max; lia). unfold instant_micros, is_aware. rewrite Hoff, Hdt.
  cbn [civil_micros]. unfold MICROS_PER_SECOND. do 3 f_equal. lia.
Qed.

Lemma representable_read_back dt : representable dt ->
  parse_iso_aware (isoformat dt) = Some (mkTimestamp (instant_micros dt), is_aware dt).
Proof.
  intros Hr. destruct (representable_fields dt Hr) as (y & m & d & h & mi & s & us & H1 & H2 & H3 & H4 & Hf).
  exact (iso_read_back _ _ _ _ _ _ _ _ _ H1 H2 H3 H4 Hf).
Qed.

Lemma isoformat_as_bytes dt : representable dt -> as_bytes (isoformat dt) = isoformat dt.
Proof.
  intros Hr. destruct (representable_fields dt Hr) as (y & m & d & h & mi & s & us & H1 & H2 & H3 & H4 & Hf).
  destruct (isoformat_read _ _ _ _ _ _ _ _ _ H1 H2 H3 H4 Hf) as (Hp & Ho & _).
  rewrite (isoformat_pieces _ _ _ _ _ _ _ _ _ Hp Ho). apply as_bytes_ascii.
  eapply Forall_impl; [exact (iso_ascii _ _ _ _ _ _ _ _ _ H1 H2 H3 H4 Hf)|]. unfold is_ascii, in_range. lia.
Qed.

(** The two date readers agree: the text [DateTime::isoformat] writes for
    any representable value is read by [Timestamp::parse_iso_aware] as
    that value's instant (a naive value being read as UTC), with the awareness
    flag the value has, and no step of the [i64] arithmetic overflows.  Hence
    ordering the two timestamps is ordering the two instants. *)
Theorem parse_iso_reads_isoformat dt : representable dt ->
  parse_iso_aware (isoformat dt) = Some (mkTimestamp (instant_micros dt), is_aware dt) /\
  forall dt', representable dt' ->
    option_map (ts_gtb (mkTimestamp (instant_micros dt))) (parse_iso (as_bytes (isoformat dt'))) = Some (instant_micros dt' <? instant_micros dt).
Proof.
  intros Hr. split; [by apply representable_read_back|]. intros dt' Hr'. unfold parse_iso.
  by rewrite isoformat_as_bytes, representable_read_back.
Qed.

Lemma parse_iso_reads_isoformat_witness :
  parse_iso_aware (isoformat (mkDateTime 1709251199500000 (Some (-19805))))
  = Some (mkTimestamp (instant_micros (mkDateTime 1709251199500000 (Some (-19805)))), true).
Proof.
  refine (proj1 (parse_iso_reads_isoformat (mkDateTime 1709251199500000 (Some (-19805))) _)).
  split; vm_compute; [split|]; congruence.
Defined.
