(* ===== verification/IsoOrder.v ===== *)
(** The order of ISO 8601 texts.  The overlay compares expiries with the clock as
    texts ([drop_expired_at] and [publishable]); here that is shown to be the
    order in time, for values at one offset. *)
From S2P Require Import Prelude DateTime Timestamp.

(** * Theorems *)

(** ** Lexicographic comparison *)

(** The second comparison counts where the first ties. *)
Definition then_ (c c' : comparison) : comparison := match c with Eq => c' | _ => c end.

Lemma then_digits a b x y k : 0 <= x < k -> 0 <= y < k -> then_ (a ?= b) (x ?= y) = (a * k + x ?= b * k + y).
Proof.
  intros Hx Hy. destruct (Z.compare_spec a b) as [->|Hab|Hab]; cbn [then_]; symmetry.
  - destruct (Z.compare_spec x y) as [->|?|?]; [apply Z.compare_refl|apply Z.compare_lt_iff; lia|apply Z.compare_gt_iff; lia].
  - apply Z.compare_lt_iff. nia.
  - apply Z.compare_gt_iff. nia.
Qed.
Lemma then_assoc a b c : then_ (then_ a b) c = then_ a (then_ b c).
Proof. by destruct a. Qed.

Lemma compare_add_r a b k : (a + k ?= b + k) = (a ?= b).
Proof.
  destruct (Z.compare_spec a b); [subst; apply Z.compare_refl|apply Z.compare_lt_iff; lia|apply Z.compare_gt_iff; lia].
Qed.

Lemma str_compare_cons c a b : str_compare (c :: a) (c :: b) = str_compare a b.
Proof. cbn [str_compare]. by rewrite Z.compare_refl. Qed.

Lemma str_compare_app a b a' b' : length a = length b ->
  str_compare (a ++ a') (b ++ b') = then_ (str_compare a b) (str_compare a' b').
Proof.
  revert b. induction a as [|c a IH]; intros [|d b] Hl; try discriminate; [reflexivity|].
  cbn [app str_compare]. injection Hl as Hl. rewrite (IH b Hl). by destruct (c ?= d).
Qed.

Lemma str_compare_digits a b p q : length a = length b -> digits a -> digits b ->
  then_ (p ?= q) (str_compare a b) = (dec_value p a ?= dec_value q b).
Proof.
  revert b p q. induction a as [|c a IH]; intros [|d b] p q Hl Ha Hb; try discriminate.
  { by destruct (p ?= q) eqn:E; unfold dec_value; cbn [fold_left then_]; rewrite E. }
  injection Hl as Hl. apply Forall_cons in Ha as [Hc Ha], Hb as [Hd Hb]. apply in_range_spec in Hc, Hd.
  change (dec_value p (c :: a)) with (dec_value (p * 10 + (c - 48)) a).
  change (dec_value q (d :: b)) with (dec_value (q * 10 + (d - 48)) b).
  rewrite <- IH by assumption. rewrite <- then_digits by lia. rewrite then_assoc. do 2 f_equal.
  cbn [str_compare]. change (c - 48) with (c + -48). change (d - 48) with (d + -48). rewrite compare_add_r. by destruct (c ?= d).
Qed.

(** Numbers padded to one width compare as texts like numbers. *)
Lemma str_compare_pad w n m a b : (0 < w)%nat -> 0 <= n < 10 ^ Z.of_nat w -> 0 <= m < 10 ^ Z.of_nat w ->
  str_compare (pad w n ++ a) (pad w m ++ b) = then_ (n ?= m) (str_compare a b).
Proof.
  intros Hw Hn Hm. destruct (pad_spec w n Hw Hn) as (L1 & D1 & V1), (pad_spec w m Hw Hm) as (L2 & D2 & V2).
  rewrite str_compare_app by congruence. f_equal.
  pose proof (str_compare_digits (pad w n) (pad w m) 0 0 ltac:(congruence) D1 D2) as E. cbn [Z.compare then_] in E.
  by rewrite E, V1, V2.
Qed.

(** ** Dates *)

Definition date_key (d : Z * Z * Z) : Z := (d.1.1 * 100 + d.1.2) * 100 + d.2.

Lemma days_in_month_bound y m : 1 <= m <= 12 -> 1 <= days_in_month y m <= 31.
Proof. intros Hm. unfold days_in_month. each_month m; cbn -[is_leap]; try lia. destruct (is_leap y); lia. Qed.

Lemma date_key_mono n : 0 <= n -> forall y m d y' m' d', valid_date y m d -> valid_date y' m' d' ->
  days_from_civil y' m' d' = days_from_civil y m d + 1 + n -> date_key (y, m, d) < date_key (y', m', d').
Proof.
  intros Hn. pattern n. apply natlike_ind; [| |exact Hn]; clear n Hn.
  2: intros n Hn IH.
  all: intros y m d y' m' d' Hv Hv' E; pose proof (next_day_succ y m d Hv) as Hs;
    pose proof (days_mono _ _ _ Hv') as Hmax; destruct Hv as (Hy & Hm & Hd);
    pose proof (days_in_month_bound y m Hm) as Hb;
    assert (Hlast : y = 9999 -> m = 12 -> d = days_in_month y m -> False)
      by (intros -> -> ->; change (days_from_civil 9999 12 (days_in_month 9999 12)) with 2932896 in E; lia);
    assert (Hnext : let '(a, b, c) := next_day y m d in valid_date a b c /\ date_key (y, m, d) < date_key (a, b, c))
      by (unfold next_day, date_key in *; cbn [fst snd] in *; destruct (Z.ltb_spec d (days_in_month y m));
          [|destruct (Z.ltb_spec m 12)];
          (split; [split_and!; try lia; match goal with |- 1 <= days_in_month ?a ?b => pose proof (days_in_month_bound a b); lia end|lia]));
    destruct (next_day y m d) as [[a b] c]; destruct Hnext as [Hv Hk].
  - assert (Heq : (a, b, c) = (y', m', d')).
    { rewrite <- (civil_inverse a b c Hv), <- (civil_inverse y' m' d' Hv'). f_equal. lia. }
    congruence.
  - etransitivity; [exact Hk|]. apply IH; [exact Hv|exact Hv'|]. lia.
Qed.

Lemma date_compare y m d y' m' d' : valid_date y m d -> valid_date y' m' d' ->
  (date_key (y, m, d) ?= date_key (y', m', d')) = (days_from_civil y m d ?= days_from_civil y' m' d').
Proof.
  intros Hv Hv'. destruct (Z.compare_spec (days_from_civil y m d) (days_from_civil y' m' d')) as [E|E|E].
  - assert (Heq : (y, m, d) = (y', m', d')) by (rewrite <- (civil_inverse y m d Hv), <- (civil_inverse y' m' d' Hv'); congruence).
    rewrite Heq. apply Z.compare_refl.
  - apply Z.compare_lt_iff. apply (date_key_mono (days_from_civil y' m' d' - days_from_civil y m d - 1)); auto; lia.
  - apply Z.compare_gt_iff. apply (date_key_mono (days_from_civil y m d - days_from_civil y' m' d' - 1)); auto; lia.
Qed.

(** ** The text of a time *)

Lemma fraction_compare u v o : 0 <= u <= 999999 -> 0 <= v <= 999999 ->
  str_compare (fraction_text u ++ offset_text o) (fraction_text v ++ offset_text o) = (u ?= v).
Proof.
  intros Hu Hv. unfold fraction_text.
  assert (Hsame : forall l, str_compare l l = Eq).
  { induction l as [|c l IH]; [reflexivity|]. by rewrite str_compare_cons. }
  assert (Hlow : forall r, str_compare (offset_text o) (46 :: r) = Lt /\ str_compare (46 :: r) (offset_text o) = Gt).
  { intros r. destruct o as [o|]; [|done]. cbn [offset_text]. cbv zeta. by destruct (o <? 0). }
  destruct (Z.eqb_spec u 0) as [->|Hu0], (Z.eqb_spec v 0) as [->|Hv0]; cbn [negb app].
  - apply Hsame.
  - rewrite (proj1 (Hlow _)). symmetry. apply Z.compare_lt_iff. lia.
  - rewrite (proj2 (Hlow _)). symmetry. apply Z.compare_gt_iff. lia.
  - rewrite str_compare_cons, str_compare_pad, Hsame by lia. by destruct (u ?= v).
Qed.

(** For two values at one offset, or both without one, comparing the ISO 8601
    texts is comparing the times. *)
Lemma isoformat_compare a b : representable a -> representable b -> offset_seconds a = offset_seconds b ->
  str_compare (isoformat a) (isoformat b) = (civil_micros a ?= civil_micros b).
Proof.
  intros Ha Hb Eo.
  destruct (representable_fields a Ha) as (y & m & d & h & mi & s & us & G1 & G2 & G3 & G4 & Hf).
  destruct (representable_fields b Hb) as (y' & m' & d' & h' & mi' & s' & us' & G1' & G2' & G3' & G4' & Hf').
  destruct (isoformat_read _ _ _ _ _ _ _ _ _ G1 G2 G3 G4 Hf) as (Hp & Ho & _).
  destruct (isoformat_read _ _ _ _ _ _ _ _ _ G1' G2' G3' G4' Hf') as (Hp' & Ho' & _).
  rewrite (isoformat_pieces _ _ _ _ _ _ _ _ _ Hp Ho), (isoformat_pieces _ _ _ _ _ _ _ _ _ Hp' Ho'), <- Eo.
  destruct (from_parts_spec _ _ _ _ _ _ _ _ _ G1 G2 G3 G4 Hf) as (Hv & Hh & Hmi & Hs & Hus & _ & ->).
  destruct (from_parts_spec _ _ _ _ _ _ _ _ _ G1' G2' G3' G4' Hf') as (Hv' & Hh' & Hmi' & Hs' & Hus' & _ & ->).
  pose proof (date_compare _ _ _ _ _ _ Hv Hv') as Hd. cbn [civil_micros].
  destruct Hv as (Hy & Hm & Hdd), Hv' as (Hy' & Hm' & Hdd').
  pose proof (days_in_month_bound y m Hm). pose proof (days_in_month_bound y' m' Hm').
  unfold clock_text. rewrite <- !app_assoc. cbn [app].
  rewrite !(str_compare_pad 4), str_compare_cons, !(str_compare_pad 2), str_compare_cons, (str_compare_pad 2), str_compare_cons,
    (str_compare_pad 2), str_compare_cons, (str_compare_pad 2), str_compare_cons, (str_compare_pad 2) by lia.
  rewrite fraction_compare by lia.
  rewrite <- !then_assoc. rewrite (then_digits y y' m m' 100), (then_digits _ _ d d' 100) by lia.
  change ((y * 100 + m) * 100 + d) with (date_key (y, m, d)).
  change ((y' * 100 + m') * 100 + d') with (date_key (y', m', d')). rewrite Hd.
  rewrite (then_digits _ _ h h' 24), (then_digits _ _ mi mi' 60), (then_digits _ _ s s' 60), (then_digits _ _ us us' 1000000) by lia.
  f_equal; lia.
Qed.

Lemma isoformat_ltb a b : representable a -> representable b -> offset_seconds a = offset_seconds b ->
  str_ltb (isoformat a) (isoformat b) = (instant_micros a <? instant_micros b) /\
  str_leb (isoformat a) (isoformat b) = (instant_micros a <=? instant_micros b).
Proof.
  intros Ha Hb Eo. unfold str_ltb, str_leb, instant_micros. rewrite isoformat_compare, Eo by assumption.
  set (o := default 0 (offset_seconds b) * MICROS_PER_SECOND). unfold Z.ltb, Z.leb.
  rewrite <- !Z.add_opp_r, compare_add_r. by destruct (civil_micros a ?= civil_micros b).
Qed.
