(* ===== verification/Json.v ===== *)
(** JSON values: the model of [agentcage-core/src/har/json.rs], the parser and
    the writer behind audit records, captures, block bodies and the HTTP
    interfaces of the egress. *)
From S2P Require Import Prelude Utf8.
From Stdlib Require Import SpecFloat ZifyBool.

(** * Definitions *)

Inductive Json : Type :=
| JNull
| JBool (b : bool)
| JInt (i : Z)
| JBigInt (digits : str)
| JFloat (f : spec_float)
| JStr (s : str)
| JArray (items : list Json)
| JObject (pairs : list (str * Json)).

(** Objects keep the place of a key's first appearance. *)
Fixpoint pairs_get (pairs : list (str * Json)) (key : str) : option Json :=
  match pairs with
  | [] => None
  | (k, v) :: r => if bool_decide (k = key) then Some v else pairs_get r key
  end.
Fixpoint pairs_set (pairs : list (str * Json)) (key : str) (v : Json) : list (str * Json) :=
  match pairs with
  | [] => [(key, v)]
  | (k, w) :: r => if bool_decide (k = key) then (k, v) :: r else (k, w) :: pairs_set r key v
  end.
Definition json_get (j : Json) (key : str) : option Json :=
  match j with JObject pairs => pairs_get pairs key | _ => None end.
Definition json_set (j : Json) (key : str) (v : Json) : Json :=
  match j with JObject pairs => JObject (pairs_set pairs key v) | other => other end.
Definition json_as_str (j : Json) : option str := match j with JStr s => Some s | _ => None end.
Definition float_nonzero (f : spec_float) : bool := match f with S754_zero _ => false | _ => true end.
Definition json_is_truthy (j : Json) : bool :=
  match j with
  | JNull => false
  | JBool b => b
  | JInt i => negb (i =? 0)
  | JBigInt _ => true
  | JFloat f => float_nonzero f
  | JStr s => negb (bool_decide (s = []))
  | JArray items => match items with [] => false | _ => true end
  | JObject pairs => match pairs with [] => false | _ => true end
  end.

(** ** Numbers as text *)

(** The two float conversions of the standard library the module calls:
    [format!("{:e}", v)] and [str::parse::<f64>]. *)
Class F64Text := {
  lower_exp : spec_float -> str;
  parse_f64 : str -> option spec_float
}.

Definition is_sign_negative (f : spec_float) : bool :=
  match f with
  | S754_zero s | S754_infinity s | S754_finite s _ _ => s
  | S754_nan => false
  end.
Definition f64_abs (f : spec_float) : spec_float := SFabs f.

Section Floats.
Context `{F64Text}.

(** The layout of a non-zero finite float from its shortest digits. *)
Definition layout_float (sign digits : str) (exponent : Z) : str :=
  let point := exponent + 1 in
  let len := Z.of_nat (length digits) in
  if (point <=? -4) || (16 <? point) then
    let fraction := drop 1 digits in
    let dot := match fraction with [] => [] | _ => 46 :: fraction end in
    let exponent_sign := if exponent <? 0 then 45 else 43 in
    sign ++ take 1 digits ++ dot ++ [101; exponent_sign] ++ pad 2 (Z.abs exponent)
  else if point <=? 0 then
    sign ++ lit "0." ++ repeat 48 (Z.to_nat (Z.abs point)) ++ digits
  else if len <=? point then
    sign ++ digits ++ repeat 48 (Z.to_nat (point - len)) ++ lit ".0"
  else
    let split := Z.to_nat point in
    sign ++ take split digits ++ [46] ++ drop split digits.

Definition format_float (value : spec_float) : str :=
  match value with
  | S754_nan => lit "NaN"
  | S754_infinity s => if s then lit "-Infinity" else lit "Infinity"
  | _ =>
      let sign := if is_sign_negative value then [45] else [] in
      match value with
      | S754_zero _ => sign ++ lit "0.0"
      | _ =>
          let scientific := lower_exp (f64_abs value) in
          let '(mantissa, exponent) := default (scientific, lit "0") (split_once 101 scientific) in
          let digits := List.filter is_ascii_digit mantissa in
          let exponent := default 0 (parse_i32 exponent) in
          layout_float sign digits exponent
      end
  end.
End Floats.

(** ** The writer *)

Record DumpOptions : Type := mkDump {
  indent : option nat; sort_keys : bool; ensure_ascii : bool; separators : option (str * str)
}.
Definition default_dump : DumpOptions := mkDump None false true None.
Definition indented : DumpOptions := mkDump (Some 2%nat) false true None.
Definition resolved_separators (o : DumpOptions) : str * str :=
  match separators o with
  | Some s => s
  | None => match indent o with Some _ => (lit ",", lit ": ") | None => (lit ", ", lit ": ") end
  end.

(** ["\\u{code:04x}"], for the codes below 2{^16} it is called with. *)
Definition push_hex_escape (code : Z) : str :=
  [92; 117; hex_digit (Z.shiftr code 12 mod 16); hex_digit (Z.shiftr code 8 mod 16);
   hex_digit (Z.shiftr code 4 mod 16); hex_digit (code mod 16)].
Definition push_escaped_ascii (code : Z) : str :=
  if 65536 <=? code then
    let offset := code - 65536 in
    push_hex_escape (55296 + Z.shiftr offset 10) ++ push_hex_escape (56320 + Z.land offset 1023)
  else push_hex_escape code.
Definition write_char (ascii : bool) (c : Z) : str :=
  if c =? 34 then [92; 34]
  else if c =? 92 then [92; 92]
  else if c =? 8 then [92; 98]
  else if c =? 12 then [92; 102]
  else if c =? 10 then [92; 110]
  else if c =? 13 then [92; 114]
  else if c =? 9 then [92; 116]
  else if c <? 32 then push_hex_escape c
  else if ascii && (126 <? c) then push_escaped_ascii c
  else [c].
Definition write_string (ascii : bool) (s : str) : str := [34] ++ flat_map (write_char ascii) s ++ [34].
Definition write_indent (o : DumpOptions) (depth : nat) : str :=
  match indent o with Some width => 10 :: repeat 32 (width * depth) | None => [] end.

(** [sort_by] on the keys, stable: a pair goes before the equal ones after it. *)
Fixpoint insert_pair {A} (p : str * A) (l : list (str * A)) : list (str * A) :=
  match l with
  | [] => [p]
  | q :: r => if str_leb p.1 q.1 then p :: l else q :: insert_pair p r
  end.
Definition sort_pairs {A} (l : list (str * A)) : list (str * A) := foldr insert_pair [] l.

(** The texts of an object's values are computed before the pairs are put in
    order, which keeps the recursion structural; the order only looks at the
    keys. *)
Fixpoint write_value `{F64Text} (o : DumpOptions) (depth : nat) (v : Json) : str :=
  match v with
  | JNull => lit "null"
  | JBool true => lit "true"
  | JBool false => lit "false"
  | JInt i => show_signed i
  | JBigInt digits => digits
  | JFloat x => format_float x
  | JStr s => write_string (ensure_ascii o) s
  | JArray items =>
      match items with
      | [] => lit "[]"
      | _ =>
          [91] ++ sep_concat (resolved_separators o).1
                    (map (fun item => write_indent o (depth + 1) ++ write_value o (depth + 1) item) items)
          ++ write_indent o depth ++ [93]
      end
  | JObject pairs =>
      match pairs with
      | [] => lit "{}"
      | _ =>
          let texts := map (fun kv => (kv.1, write_value o (depth + 1) kv.2)) pairs in
          let order := if sort_keys o then sort_pairs texts else texts in
          [123] ++ sep_concat (resolved_separators o).1
                     (map (fun kv => write_indent o (depth + 1) ++ write_string (ensure_ascii o) kv.1
                                       ++ (resolved_separators o).2 ++ kv.2) order)
          ++ write_indent o depth ++ [125]
      end
  end.
Definition dumps `{F64Text} (v : Json) (o : DumpOptions) : str := write_value o 0 v.

(** The helpers of [agentcage-egress/src/json.rs]. *)
Definition to_string `{F64Text} (value : Json) : str := dumps value default_dump.
Definition compact_dump : DumpOptions := mkDump None false true (Some (lit ",", lit ":")).
Definition to_compact_string `{F64Text} (value : Json) : str := dumps value compact_dump.
Definition object (pairs : list (string * Json)) : Json := JObject (map (fun e => (lit e.1, e.2)) pairs).

(** ** The parser *)

(** Positions are byte offsets into the text; the parser's cursor is kept as
    the characters still to read. *)
Record ParseError : Type := mkParseError { message : str; position : Z }.

Section Parser.
Context `{F64Text}.
Variable src : str.

Definition byte_len (s : str) : Z := Z.of_nat (length (as_bytes s)).
Definition pos (rest : str) : Z := byte_len src - byte_len rest.
Definition err {A} (msg : string) (rest : str) : result ParseError A := Err (mkParseError (lit msg) (pos rest)).

Definition is_json_space (c : Z) : bool := (c =? 32) || (c =? 9) || (c =? 10) || (c =? 13).
Definition skip_whitespace (rest : str) : str := (span is_json_space rest).2.
(** [eat]: what follows the literal. *)
Definition eat (rest l : str) : option str :=
  if starts_with rest l then Some (drop (length l) rest) else None.

(** [u32::from_str_radix(digits, 16)]: a leading [+] is accepted. *)
Definition hex_value (c : Z) : option Z :=
  if is_ascii_digit c then Some (c - 48)
  else if in_range 97 102 c then Some (c - 87)
  else if in_range 65 70 c then Some (c - 55)
  else None.
Fixpoint hex_digits (acc : Z) (l : str) : option Z :=
  match l with
  | [] => Some acc
  | c :: r => let? d := hex_value c in hex_digits (acc * 16 + d) r
  end.
Definition from_str_radix_16 (digits : str) : option Z :=
  match digits with
  | [] => None
  | [c] => hex_digits 0 [c]
  | c :: r => if c =? 43 then hex_digits 0 r else hex_digits 0 digits
  end.

(** [self.src.get(pos..pos + 4)]: four bytes; a slice holding a character past
    ASCII has fewer characters and no hexadecimal value, which fails alike. *)
Definition parse_hex4 (rest : str) : result ParseError (Z * str) :=
  match rest with
  | a :: b :: c :: d :: r =>
      match from_str_radix_16 [a; b; c; d] with
      | Some v => Ok (v, r)
      | None => err "Invalid \uXXXX escape" rest
      end
  | _ => err "Invalid \uXXXX escape" rest
  end.

(** [char::from_u32(code).unwrap_or(REPLACEMENT_CHARACTER)]. *)
Definition char_or_replacement (code : Z) : Z := if in_range 55296 57343 code then 65533 else code.

Definition parse_unicode_escape (rest out : str) : result ParseError (str * str) :=
  let! (first, rest) := parse_hex4 rest in
  let unpaired := Ok (out ++ [char_or_replacement first], rest) in
  if in_range 55296 56319 first && starts_with rest [92; 117] then
    let! (second, rest2) := parse_hex4 (drop 2 rest) in
    if in_range 56320 57343 second then
      Ok (out ++ [65536 + Z.shiftl (first - 55296) 10 + (second - 56320)], rest2)
    else unpaired
  else unpaired.

Definition parse_escape (rest out : str) : result ParseError (str * str) :=
  match rest with
  | [] => err "Unterminated string" rest
  | c :: r =>
      if c =? 34 then Ok (out ++ [34], r)
      else if c =? 92 then Ok (out ++ [92], r)
      else if c =? 47 then Ok (out ++ [47], r)
      else if c =? 98 then Ok (out ++ [8], r)
      else if c =? 102 then Ok (out ++ [12], r)
      else if c =? 110 then Ok (out ++ [10], r)
      else if c =? 114 then Ok (out ++ [13], r)
      else if c =? 116 then Ok (out ++ [9], r)
      else if c =? 117 then parse_unicode_escape r out
      else Err (mkParseError (lit "Invalid \escape") (pos rest + 1))
  end.

Definition is_string_plain (c : Z) : bool := negb ((c =? 34) || (c =? 92) || (c <? 32)).
Fixpoint string_loop (fuel : nat) (rest out : str) : option (result ParseError (str * str)) :=
  match fuel with
  | O => None
  | S f =>
      let '(chunk, rest1) := span is_string_plain rest in
      match rest1 with
      | [] => Some (err "Unterminated string starting at" rest)
      | c :: r =>
          let out := out ++ chunk in
          if c =? 34 then Some (Ok (out, r))
          else if c =? 92 then
            match parse_escape r out with
            | Ok (out, r) => string_loop f r out
            | Err e => Some (Err e)
            end
          else Some (err "Invalid control character at" rest1)
      end
  end.
(** [rest] starts with the opening quote. *)
Definition parse_string (fuel : nat) (rest : str) : option (result ParseError (str * str)) :=
  string_loop fuel (drop 1 rest) [].

Definition skip_digits (rest : str) : nat * str :=
  let '(a, r) := span is_ascii_digit rest in (length a, r).

(** The three parts of the number grammar, the last two with whether they are
    there (which makes the number a float). *)
Definition scan_integer (rest : str) : result ParseError str :=
  let rest := match rest with c :: r => if c =? 45 then r else rest | [] => rest end in
  match rest with
  | c :: r => if c =? 48 then Ok r
              else let '(n, r) := skip_digits rest in
                   if Nat.eqb n 0 then err "Expecting value" r else Ok r
  | [] => err "Expecting value" rest
  end.
Definition scan_fraction (rest : str) : result ParseError (str * bool) :=
  match rest with
  | c :: r =>
      if c =? 46 then
        let '(n, r) := skip_digits r in
        if Nat.eqb n 0 then err "Expecting value" r else Ok (r, true)
      else Ok (rest, false)
  | [] => Ok (rest, false)
  end.
Definition scan_exponent (rest : str) : result ParseError (str * bool) :=
  match rest with
  | c :: r =>
      if (c =? 101) || (c =? 69) then
        let r := match r with s :: r' => if (s =? 43) || (s =? 45) then r' else r | [] => r end in
        let '(n, r) := skip_digits r in
        if Nat.eqb n 0 then err "Expecting value" r else Ok (r, true)
      else Ok (rest, false)
  | [] => Ok (rest, false)
  end.
Definition parse_number (rest : str) : result ParseError (Json * str) :=
  let! r1 := scan_integer rest in
  let! (r2, fraction) := scan_fraction r1 in
  let! (r3, exponent) := scan_exponent r2 in
  let text := take (length rest - length r3) rest in
  if fraction || exponent then
    match parse_f64 text with
    | Some f => Ok (JFloat f, r3)
    | None => err "Expecting value" r3
    end
  else Ok (match parse_i64 text with Some i => JInt i | None => JBigInt text end, r3).

(** The object and array loops are the [loop] blocks of the two functions. *)
Fixpoint parse_value (fuel : nat) (rest : str) : option (result ParseError (Json * str)) :=
  match fuel with
  | O => None
  | S f =>
      let literal (l : string) (v : Json) (otherwise : option (result ParseError (Json * str))) :=
        match eat rest (lit l) with Some r => Some (Ok (v, r)) | None => otherwise end in
      let fail := Some (err "Expecting value" rest) in
      match rest with
      | [] => fail
      | c :: _ =>
          if c =? 123 then
            let r := skip_whitespace (drop 1 rest) in
            match r with
            | d :: r' => if d =? 125 then Some (Ok (JObject [], r')) else object_loop f r []
            | [] => object_loop f r []
            end
          else if c =? 91 then
            let r := skip_whitespace (drop 1 rest) in
            match r with
            | d :: r' => if d =? 93 then Some (Ok (JArray [], r')) else array_loop f r []
            | [] => array_loop f r []
            end
          else if c =? 34 then
            match parse_string f rest with
            | None => None
            | Some (Err e) => Some (Err e)
            | Some (Ok (s, r)) => Some (Ok (JStr s, r))
            end
          else if c =? 116 then literal "true" (JBool true) fail
          else if c =? 102 then literal "false" (JBool false) fail
          else if c =? 110 then literal "null" JNull fail
          else if c =? 78 then literal "NaN" (JFloat S754_nan) fail
          else if c =? 73 then literal "Infinity" (JFloat (S754_infinity false)) fail
          else if c =? 45 then literal "-Infinity" (JFloat (S754_infinity true)) (Some (parse_number rest))
          else if is_ascii_digit c then Some (parse_number rest)
          else fail
      end
  end
with object_loop (fuel : nat) (rest : str) (acc : list (str * Json)) : option (result ParseError (Json * str)) :=
  match fuel with
  | O => None
  | S f =>
      let rest := skip_whitespace rest in
      match rest with
      | c :: _ =>
          if c =? 34 then
            match parse_string f rest with
            | None => None
            | Some (Err e) => Some (Err e)
            | Some (Ok (key, r)) =>
                match skip_whitespace r with
                | d :: r =>
                    if d =? 58 then
                      match parse_value f (skip_whitespace r) with
                      | None => None
                      | Some (Err e) => Some (Err e)
                      | Some (Ok (item, r)) =>
                          let acc := pairs_set acc key item in
                          match skip_whitespace r with
                          | d :: r' =>
                              if d =? 44 then object_loop f r' acc
                              else if d =? 125 then Some (Ok (JObject acc, r'))
                              else Some (err "Expecting ',' delimiter" (d :: r'))
                          | [] => Some (err "Expecting ',' delimiter" [])
                          end
                      end
                    else Some (err "Expecting ':' delimiter" (d :: r))
                | [] => Some (err "Expecting ':' delimiter" [])
                end
            end
          else Some (err "Expecting property name enclosed in double quotes" rest)
      | [] => Some (err "Expecting property name enclosed in double quotes" rest)
      end
  end
with array_loop (fuel : nat) (rest : str) (acc : list Json) : option (result ParseError (Json * str)) :=
  match fuel with
  | O => None
  | S f =>
      match parse_value f (skip_whitespace rest) with
      | None => None
      | Some (Err e) => Some (Err e)
      | Some (Ok (item, r)) =>
          let acc := acc ++ [item] in
          match skip_whitespace r with
          | d :: r' =>
              if d =? 44 then array_loop f r' acc
              else if d =? 93 then Some (Ok (JArray acc, r'))
              else Some (err "Expecting ',' delimiter" (d :: r'))
          | [] => Some (err "Expecting ',' delimiter" [])
          end
      end
  end.
End Parser.

(** Every step of the parser consumes a character or descends once per
    character, so this fuel is enough for any text. *)
Definition parse_fuel (text : str) : nat := (2 * length text + 2)%nat.
Definition parse `{F64Text} (text : str) : option (result ParseError Json) :=
  match parse_value text (parse_fuel text) (skip_whitespace text) with
  | None => None
  | Some (Err e) => Some (Err e)
  | Some (Ok (v, r)) =>
      match skip_whitespace r with
      | [] => Some (Ok v)
      | r => Some (err text "Extra data" r)
      end
  end.

(** * Theorems *)

(** ** The parser always answers *)

Lemma span_length f l : (length (span f l).1 + length (span f l).2 = length l)%nat.
Proof.
  destruct (span f l) as [a b] eqn:E. apply span_app in E as ->. by rewrite length_app.
Qed.

Lemma span_stop f l c b a : span f l = (a, c :: b) -> f c = false.
Proof.
  revert a. induction l as [|x l IH]; intros a H; cbn [span] in H; [discriminate|].
  destruct (f x) eqn:E; [|by injection H as _ <- _]. destruct (span f l) as [a' b'] eqn:Es.
  injection H as <- ->. eauto.
Qed.

Lemma skip_whitespace_length r : (length (skip_whitespace r) <= length r)%nat.
Proof. unfold skip_whitespace. pose proof (span_length is_json_space r). lia. Qed.

Section Total.
Context `{F64Text}.
Variable src : str.

(** The outcome is an answer, and a success has consumed something. *)
Definition answers {A} (rest : str) (o : option (result ParseError (A * str))) : Prop :=
  match o with
  | None => False
  | Some (Err _) => True
  | Some (Ok (_, r)) => (length r < length rest)%nat
  end.

Lemma parse_hex4_length rest : match parse_hex4 src rest with Ok (_, r) => (length r < length rest)%nat | Err _ => True end.
Proof.
  unfold parse_hex4. destruct rest as [|a [|b [|c [|d r]]]]; try exact I.
  destruct (from_str_radix_16 _); [cbn [length]; lia|exact I].
Qed.

Lemma parse_escape_length rest out :
  match parse_escape src rest out with Ok (_, r) => (length r < length rest)%nat | Err _ => True end.
Proof.
  destruct rest as [|c r]; cbn [parse_escape]; [exact I|].
  repeat (case_goal; [cbn [length]; lia|]). destruct (c =? 117); [|exact I].
  unfold parse_unicode_escape. pose proof (parse_hex4_length r) as H1.
  destruct (parse_hex4 src r) as [[first r1]|e]; cbn [result_bind length]; [|exact I].
  destruct (_ && _) eqn:Epair; [|cbn; lia].
  pose proof (parse_hex4_length (drop 2 r1)) as H2. rewrite length_drop in H2.
  destruct (parse_hex4 src (drop 2 r1)) as [[second r2]|e]; cbn [result_bind]; [|exact I].
  destruct (in_range _ _ second); cbn; lia.
Qed.

Lemma string_loop_answers fuel rest out : (length rest < fuel)%nat -> answers rest (string_loop src fuel rest out).
Proof.
  revert rest out. induction fuel as [|f IH]; intros rest out Hf; [lia|]. cbn [string_loop].
  pose proof (span_length is_string_plain rest) as Hl. destruct (span is_string_plain rest) as [chunk [|c r]]; [exact I|].
  cbn [fst snd length] in Hl. destruct (c =? 34); [cbn; lia|]. destruct (c =? 92); [|exact I].
  pose proof (parse_escape_length r (out ++ chunk)) as He.
  destruct (parse_escape src r (out ++ chunk)) as [[out' r']|e]; [|exact I].
  specialize (IH r' out' ltac:(lia)). unfold answers in *. repeat case_match; try lia; auto.
Qed.

Lemma skip_digits_length r : (length (skip_digits r).2 <= length r)%nat /\
  (skip_digits r).1 = (length r - length (skip_digits r).2)%nat.
Proof.
  unfold skip_digits. pose proof (span_length is_ascii_digit r). destruct (span is_ascii_digit r) as [a b].
  cbn [fst snd] in *. lia.
Qed.

Lemma scan_integer_length rest :
  match scan_integer src rest with Ok r => (length r < length rest)%nat | Err _ => True end.
Proof.
  unfold scan_integer. set (rest' := match rest with c :: r => if c =? 45 then r else rest | [] => rest end).
  assert (length rest' <= length rest)%nat by (subst rest'; destruct rest as [|c r]; cbn; [lia|case_match; cbn; lia]).
  destruct rest' as [|c r] eqn:E; [exact I|]. destruct (c =? 48); [cbn in *; lia|].
  pose proof (skip_digits_length (c :: r)) as [H1 H2]. destruct (skip_digits (c :: r)) as [n r'].
  cbn [fst snd] in *. destruct (Nat.eqb_spec n 0); [exact I|]. lia.
Qed.

Lemma scan_fraction_length rest :
  match scan_fraction src rest with Ok (r, _) => (length r <= length rest)%nat | Err _ => True end.
Proof.
  destruct rest as [|c r]; cbn [scan_fraction]; [cbn; lia|]. destruct (c =? 46); [|cbn; lia].
  pose proof (skip_digits_length r) as [H1 H2]. destruct (skip_digits r) as [n r']. cbn [fst snd length] in *.
  destruct (Nat.eqb n 0); [exact I|lia].
Qed.

Lemma scan_exponent_length rest :
  match scan_exponent src rest with Ok (r, _) => (length r <= length rest)%nat | Err _ => True end.
Proof.
  destruct rest as [|c r]; cbn [scan_exponent]; [cbn; lia|]. destruct (_ || _); [|cbn; lia].
  set (r1 := match r with [] => r | _ => _ end).
  assert (length r1 <= length r)%nat by (subst r1; destruct r; cbn; [lia|case_match; cbn; lia]).
  pose proof (skip_digits_length r1) as [H1 H2]. destruct (skip_digits r1) as [n r']. cbn [fst snd length] in *.
  destruct (Nat.eqb n 0); [exact I|lia].
Qed.

Lemma parse_number_answers rest : answers rest (Some (parse_number src rest)).
Proof.
  unfold parse_number. pose proof (scan_integer_length rest) as H1.
  destruct (scan_integer src rest) as [r1|e]; cbn [result_bind]; [|exact I].
  pose proof (scan_fraction_length r1) as H2.
  destruct (scan_fraction src r1) as [[r2 fr]|e]; cbn [result_bind]; [|exact I].
  pose proof (scan_exponent_length r2) as H3.
  destruct (scan_exponent src r2) as [[r3 ex]|e]; cbn [result_bind]; [|exact I].
  destruct (fr || ex); [destruct (parse_f64 _)|]; cbn; try exact I; lia.
Qed.

Lemma answers_weaken {A} r1 r2 (o : option (result ParseError (A * str))) :
  (length r1 <= length r2)%nat -> answers r1 o -> answers r2 o.
Proof. intros Hl. unfold answers. repeat case_match; auto. lia. Qed.

(** The equations of the three mutual functions. *)
Lemma parse_value_cons f c r :
  parse_value src (S f) (c :: r) =
  let literal (l : string) (v : Json) (otherwise : option (result ParseError (Json * str))) :=
    match eat (c :: r) (lit l) with Some r => Some (Ok (v, r)) | None => otherwise end in
  let fail := Some (err src "Expecting value" (c :: r)) in
  if c =? 123 then
    match skip_whitespace r with
    | d :: r' => if d =? 125 then Some (Ok (JObject [], r')) else object_loop src f (d :: r') []
    | [] => object_loop src f [] []
    end
  else if c =? 91 then
    match skip_whitespace r with
    | d :: r' => if d =? 93 then Some (Ok (JArray [], r')) else array_loop src f (d :: r') []
    | [] => array_loop src f [] []
    end
  else if c =? 34 then
    match string_loop src f r [] with
    | None => None
    | Some (Err e) => Some (Err e)
    | Some (Ok (s, r)) => Some (Ok (JStr s, r))
    end
  else if c =? 116 then literal "true" (JBool true) fail
  else if c =? 102 then literal "false" (JBool false) fail
  else if c =? 110 then literal "null" JNull fail
  else if c =? 78 then literal "NaN" (JFloat S754_nan) fail
  else if c =? 73 then literal "Infinity" (JFloat (S754_infinity false)) fail
  else if c =? 45 then literal "-Infinity" (JFloat (S754_infinity true)) (Some (parse_number src (c :: r)))
  else if is_ascii_digit c then Some (parse_number src (c :: r))
  else fail.
Proof.
  cbn [parse_value]. unfold parse_string. change (drop 1 (c :: r)) with r.
  destruct (c =? 123); [by destruct (skip_whitespace r)|].
  destruct (c =? 91); [by destruct (skip_whitespace r)|]. reflexivity.
Qed.

Lemma object_loop_eq f rest acc :
  object_loop src (S f) rest acc =
  match skip_whitespace rest with
  | c :: r =>
      if c =? 34 then
        match string_loop src f r [] with
        | None => None
        | Some (Err e) => Some (Err e)
        | Some (Ok (key, r)) =>
            match skip_whitespace r with
            | d :: r =>
                if d =? 58 then
                  match parse_value src f (skip_whitespace r) with
                  | None => None
                  | Some (Err e) => Some (Err e)
                  | Some (Ok (item, r)) =>
                      match skip_whitespace r with
                      | d :: r' =>
                          if d =? 44 then object_loop src f r' (pairs_set acc key item)
                          else if d =? 125 then Some (Ok (JObject (pairs_set acc key item), r'))
                          else Some (err src "Expecting ',' delimiter" (d :: r'))
                      | [] => Some (err src "Expecting ',' delimiter" [])
                      end
                  end
                else Some (err src "Expecting ':' delimiter" (d :: r))
            | [] => Some (err src "Expecting ':' delimiter" [])
            end
        end
      else Some (err src "Expecting property name enclosed in double quotes" (c :: r))
  | [] => Some (err src "Expecting property name enclosed in double quotes" [])
  end.
Proof. cbn [object_loop]. by destruct (skip_whitespace rest). Qed.

Lemma array_loop_eq f rest acc :
  array_loop src (S f) rest acc =
  match parse_value src f (skip_whitespace rest) with
  | None => None
  | Some (Err e) => Some (Err e)
  | Some (Ok (item, r)) =>
      match skip_whitespace r with
      | d :: r' =>
          if d =? 44 then array_loop src f r' (acc ++ [item])
          else if d =? 93 then Some (Ok (JArray (acc ++ [item]), r'))
          else Some (err src "Expecting ',' delimiter" (d :: r'))
      | [] => Some (err src "Expecting ',' delimiter" [])
      end
  end.
Proof. reflexivity. Qed.

Lemma parse_answers fuel :
  (forall rest, (2 * length rest + 1 <= fuel)%nat -> answers rest (parse_value src fuel rest)) /\
  (forall rest acc, (2 * length rest + 2 <= fuel)%nat -> answers rest (object_loop src fuel rest acc)) /\
  (forall rest acc, (2 * length rest + 2 <= fuel)%nat -> answers rest (array_loop src fuel rest acc)).
Proof.
  induction fuel as [|f (IHv & IHo & IHa)]; [split_and!; intros; lia|]. split_and!.
  - intros rest Hf. destruct rest as [|c r]; [exact I|]. rewrite parse_value_cons. cbv zeta. cbn [length] in Hf.
    pose proof (skip_whitespace_length r) as Hw.
    destruct (c =? 123).
    { destruct (skip_whitespace r) as [|d r'] eqn:Ew; cbn [length] in Hw; [|destruct (d =? 125); [cbn; lia|]];
        (eapply answers_weaken; [|apply IHo]; cbn [length]; lia). }
    destruct (c =? 91).
    { destruct (skip_whitespace r) as [|d r'] eqn:Ew; cbn [length] in Hw; [|destruct (d =? 93); [cbn; lia|]];
        (eapply answers_weaken; [|apply IHa]; cbn [length]; lia). }
    destruct (c =? 34).
    { pose proof (string_loop_answers f r [] ltac:(lia)) as Hs.
      destruct (string_loop src f r []) as [[[s r']|e]|]; cbn in *; try lia; auto. }
    assert (Hlit : forall l v (o : option (result ParseError (Json * str))), answers (c :: r) o -> l <> ""%string ->
      answers (c :: r) (match eat (c :: r) (lit l) with Some r => Some (Ok (v, r)) | None => o end)).
    { intros l v o Ho Hl. unfold eat. destruct (starts_with _ _); [|exact Ho]. cbn [answers].
      rewrite length_drop. destruct l as [|a l]; [congruence|]. cbn. lia. }
    pose proof (parse_number_answers (c :: r)) as Hn.
    repeat (destruct (c =? _); [apply Hlit; [first [exact I|exact Hn]|discriminate]|]).
    destruct (is_ascii_digit c); [exact Hn|exact I].
  - intros rest acc Hf. rewrite object_loop_eq. pose proof (skip_whitespace_length rest) as Hw.
    destruct (skip_whitespace rest) as [|c r]; [exact I|]. cbn [length] in Hw. destruct (c =? 34); [|exact I].
    pose proof (string_loop_answers f r [] ltac:(lia)) as Hs.
    destruct (string_loop src f r []) as [[[key r1]|e]|]; cbn in Hs; try lia; [|exact I].
    pose proof (skip_whitespace_length r1) as Hw1. destruct (skip_whitespace r1) as [|d r2]; [exact I|].
    cbn [length] in Hw1. destruct (d =? 58); [|exact I]. pose proof (skip_whitespace_length r2) as Hw2.
    specialize (IHv (skip_whitespace r2) ltac:(lia)).
    destruct (parse_value src f (skip_whitespace r2)) as [[[item r3]|e]|]; cbn in IHv; try lia; [|exact I].
    pose proof (skip_whitespace_length r3) as Hw3. destruct (skip_whitespace r3) as [|d' r4]; [exact I|].
    cbn [length] in Hw3. destruct (d' =? 44); [|destruct (d' =? 125); [cbn; lia|exact I]].
    eapply answers_weaken; [|apply IHo]; lia.
  - intros rest acc Hf. rewrite array_loop_eq. pose proof (skip_whitespace_length rest) as Hw.
    specialize (IHv (skip_whitespace rest) ltac:(lia)).
    destruct (parse_value src f (skip_whitespace rest)) as [[[item r3]|e]|]; cbn in IHv; try lia; [|exact I].
    pose proof (skip_whitespace_length r3) as Hw3. destruct (skip_whitespace r3) as [|d' r4]; [exact I|].
    cbn [length] in Hw3. destruct (d' =? 44); [|destruct (d' =? 93); [cbn; lia|exact I]].
    eapply answers_weaken; [|apply IHa]; lia.
Qed.
End Total.

(** The JSON parser answers on every text: it never runs past the fuel
    computed from the text's length, whatever the nesting. *)
Theorem parse_total `{F64Text} text : exists r, parse text = Some r.
Proof.
  unfold parse. pose proof (skip_whitespace_length text).
  pose proof (proj1 (parse_answers text (parse_fuel text)) (skip_whitespace text) ltac:(unfold parse_fuel; lia)) as Ha.
  destruct (parse_value _ _ _) as [[[v r]|e]|]; cbn in Ha; [|eauto|destruct Ha].
  destruct (skip_whitespace r); eauto.
Qed.

(** ** Numbers read back *)

Abbreviation digits l := (Forall (fun c => is_ascii_digit c = true) l).

(** What may follow a number without being read into it. *)
Definition ends_number (tail : str) : Prop :=
  match tail with [] => True | c :: _ => is_ascii_digit c = false /\ c <> 46 /\ c <> 101 /\ c <> 69 end.
(** The integers of the JSON grammar. *)
Definition int_lit (neg : bool) (ds : str) : Prop :=
  digits ds /\ (ds = [48] \/ exists d r, ds = d :: r /\ d <> 48).
Definition sign_text (neg : bool) : str := if neg then [45] else [].

Lemma span_stops f l c r : Forall (fun c => f c = true) l -> f c = false -> span f (l ++ c :: r) = (l, c :: r).
Proof.
  intros Hl Hc. induction Hl as [|x l Hx Hl IH]; cbn [span app]; [by rewrite Hc|]. by rewrite Hx, IH.
Qed.
Lemma span_whole f l : Forall (fun c => f c = true) l -> span f l = (l, []).
Proof. induction 1 as [|x l Hx Hl IH]; [reflexivity|]. cbn [span]. by rewrite Hx, IH. Qed.

Lemma skip_digits_stop ds tail : digits ds -> match tail with c :: _ => is_ascii_digit c = false | [] => True end ->
  skip_digits (ds ++ tail) = (length ds, tail).
Proof.
  intros Hd Ht. unfold skip_digits. destruct tail as [|c r].
  - by rewrite app_nil_r, span_whole.
  - by rewrite span_stops.
Qed.

Section NumberBack.
Context `{F64Text}.
Variable src : str.

Lemma scan_integer_lit neg ds tail : int_lit neg ds ->
  match tail with c :: _ => is_ascii_digit c = false | [] => True end ->
  scan_integer src (sign_text neg ++ ds ++ tail) = Ok tail.
Proof.
  intros [Hd Hz] Ht.
  assert (Hstrip : match sign_text neg ++ ds ++ tail with c :: r => if c =? 45 then r else sign_text neg ++ ds ++ tail | [] => sign_text neg ++ ds ++ tail end
    = ds ++ tail).
  { destruct neg; [reflexivity|]. cbn [sign_text app]. destruct Hz as [->|(d & r & -> & Hne)]; [reflexivity|].
    apply Forall_cons in Hd as [Hd _]. apply in_range_spec in Hd. cbn [app].
    by rewrite (proj2 (Z.eqb_neq d 45)) by lia. }
  unfold scan_integer. rewrite Hstrip. destruct Hz as [->|(d & r & -> & Hne)]; [reflexivity|].
  pose proof (skip_digits_stop (d :: r) tail Hd Ht) as Hs. cbn [app] in *.
  by rewrite (proj2 (Z.eqb_neq d 48)), Hs.
Qed.

(** The optional parts of a float literal. *)
Definition fraction_part (fp : str) : str := match fp with [] => [] | _ => 46 :: fp end.
Definition exponent_part (ex : option (bool * str)) : str :=
  match ex with None => [] | Some (neg, es) => 101 :: (if neg then 45 else 43) :: es end.
Definition exponent_ok (ex : option (bool * str)) : Prop :=
  match ex with None => True | Some (_, es) => digits es /\ es <> [] end.

Lemma scan_fraction_part fp tail : digits fp ->
  match tail with c :: _ => is_ascii_digit c = false /\ c <> 46 | [] => True end ->
  scan_fraction src (fraction_part fp ++ tail) = Ok (tail, negb (bool_decide (fp = []))).
Proof.
  intros Hd Ht. destruct fp as [|d fp].
  - cbn [fraction_part app]. rewrite bool_decide_eq_true_2 by reflexivity.
    destruct tail as [|c r]; [reflexivity|]. cbn [scan_fraction]. by rewrite (proj2 (Z.eqb_neq c 46)) by tauto.
  - cbn [fraction_part app scan_fraction Z.eqb Pos.eqb].
    pose proof (skip_digits_stop (d :: fp) tail Hd ltac:(destruct tail; tauto)) as Hs. cbn [app] in Hs.
    by rewrite Hs.
Qed.

Lemma scan_exponent_part ex tail : exponent_ok ex ->
  match tail with c :: _ => is_ascii_digit c = false /\ c <> 101 /\ c <> 69 | [] => True end ->
  scan_exponent src (exponent_part ex ++ tail) = Ok (tail, bool_decide (is_Some ex)).
Proof.
  intros Hex Ht. destruct ex as [[neg es]|].
  - destruct Hex as [Hd Hne]. cbn [exponent_part app scan_exponent Z.eqb Pos.eqb orb].
    rewrite bool_decide_eq_true_2 by done.
    replace (((if neg then 45 else 43) =? 43) || ((if neg then 45 else 43) =? 45)) with true by (by destruct neg).
    rewrite skip_digits_stop; [|exact Hd|destruct tail; tauto]. by destruct es.
  - cbn [exponent_part app]. rewrite bool_decide_eq_false_2 by (by intros [? ?]).
    destruct tail as [|c r]; [reflexivity|]. cbn [scan_exponent].
    by rewrite (proj2 (Z.eqb_neq c 101)), (proj2 (Z.eqb_neq c 69)) by tauto.
Qed.

(** A number literal followed by what ends it. *)
Definition num_text (neg : bool) (ip fp : str) (ex : option (bool * str)) : str :=
  sign_text neg ++ ip ++ fraction_part fp ++ exponent_part ex.

Lemma parse_number_text neg ip fp ex tail : int_lit neg ip -> digits fp -> exponent_ok ex -> ends_number tail ->
  parse_number src (num_text neg ip fp ex ++ tail) =
  if negb (bool_decide (fp = [])) || bool_decide (is_Some ex)
  then match parse_f64 (num_text neg ip fp ex) with Some f => Ok (JFloat f, tail) | None => err src "Expecting value" tail end
  else Ok (match parse_i64 (num_text neg ip fp ex) with Some i => JInt i | None => JBigInt (num_text neg ip fp ex) end, tail).
Proof.
  intros Hi Hf Hex Ht. unfold num_text. rewrite <- !app_assoc.
  unfold parse_number. rewrite scan_integer_lit; [|exact Hi|].
  2:{ destruct fp as [|d fp]; cbn [fraction_part app]; [|reflexivity].
      destruct ex as [[? ?]|]; cbn [exponent_part app]; [reflexivity|]. destruct tail; [exact I|]. by destruct Ht. }
  cbn [result_bind]. rewrite scan_fraction_part; [|exact Hf|].
  2:{ destruct ex as [[? ?]|]; cbn [exponent_part app]; [done|]. destruct tail; [exact I|]. by destruct Ht as (? & ? & _). }
  cbn [result_bind]. rewrite scan_exponent_part; [|exact Hex|destruct tail; [exact I|]; by destruct Ht as (? & ? & ? & ?)].
  cbn [result_bind].
  assert (Htake : take (length (sign_text neg ++ ip ++ fraction_part fp ++ exponent_part ex ++ tail) - length tail)
    (sign_text neg ++ ip ++ fraction_part fp ++ exponent_part ex ++ tail)
    = sign_text neg ++ ip ++ fraction_part fp ++ exponent_part ex).
  { replace (sign_text neg ++ ip ++ fraction_part fp ++ exponent_part ex ++ tail)
      with ((sign_text neg ++ ip ++ fraction_part fp ++ exponent_part ex) ++ tail) by (by rewrite <- !app_assoc).
    rewrite length_app, Nat.add_sub. apply take_app_length. }
  rewrite Htake. reflexivity.
Qed.
End NumberBack.

Lemma show_digits_head fuel n acc : 0 < n < 2 ^ Z.of_nat fuel ->
  exists c r, show_digits fuel n acc = c :: r /\ c <> 48.
Proof.
  revert n acc. induction fuel as [|f IH]; intros n acc Hn; [change (2 ^ Z.of_nat 0) with 1 in Hn; lia|].
  cbn [show_digits]. rewrite Nat2Z.inj_succ, Z.pow_succ_r in Hn by lia. destruct (n <? 10) eqn:E.
  - exists (48 + n mod 10), acc. rewrite Z.mod_small by lia. split; [reflexivity|lia].
  - apply IH. pose proof (Z.div_mod n 10 ltac:(lia)). pose proof (Z.mod_pos_bound n 10 ltac:(lia)). lia.
Qed.

Lemma show_unsigned_lit neg n : 0 <= n -> int_lit neg (show_unsigned n).
Proof.
  intros Hn. destruct (show_unsigned_spec n Hn) as (Hd & _ & _ & _). split; [exact Hd|].
  destruct (Z.eq_dec n 0) as [->|Hne]; [by left|right].
  unfold show_unsigned. apply show_digits_head. rewrite Nat2Z.inj_succ, Z2Nat.id by apply Z.log2_nonneg.
  pose proof (Z.log2_spec n ltac:(lia)). lia.
Qed.

Lemma show_signed_text i : show_signed i = num_text (i <? 0) (show_unsigned (Z.abs i)) [] None.
Proof.
  unfold num_text, show_signed. cbn [fraction_part exponent_part]. rewrite !app_nil_r.
  destruct (i <? 0) eqn:E; cbn [sign_text app]; repeat f_equal; lia.
Qed.

Lemma parse_signed_show lo hi i : lo <= i <= hi -> lo <= 0 <= hi -> parse_signed lo hi (show_signed i) = Some i.
Proof.
  intros Hi Hr. unfold show_signed. destruct (i <? 0) eqn:E.
  - destruct (show_unsigned_spec (- i) ltac:(lia)) as (Hd & Hv & Hne & _).
    destruct (show_unsigned (- i)) as [|c r] eqn:Es; [congruence|]. cbn [parse_signed]. cbn [Z.eqb Pos.eqb].
    rewrite digits_value_spec; [|lia|exact Hd|lia]. rewrite Hv. f_equal. lia.
  - destruct (show_unsigned_spec i ltac:(lia)) as (Hd & Hv & Hne & _).
    assert (parse_signed lo hi (show_unsigned i) = parse_unsigned hi (show_unsigned i)) as ->.
    { destruct (show_unsigned i) as [|c [|d r]]; try reflexivity. cbn [parse_signed].
      apply Forall_cons in Hd as [Hd _]. apply in_range_spec in Hd. by rewrite (proj2 (Z.eqb_neq c 45)) by lia. }
    rewrite parse_unsigned_digits by (auto; lia). by rewrite Hv.
Qed.

(** ** The float layout *)

(** [m1 * 10^e1 = m2 * 10^e2]. *)
Definition same_decimal (m1 e1 m2 e2 : Z) : Prop :=
  exists k, 0 <= e1 + k /\ 0 <= e2 + k /\ m1 * 10 ^ (e1 + k) = m2 * 10 ^ (e2 + k).

Definition exponent_value (ex : option (bool * str)) : Z :=
  match ex with None => 0 | Some (neg, es) => if neg then - dec_value 0 es else dec_value 0 es end.

(** What the code relies on for one float: [{:e}] writes its shortest digits in
    scientific notation, and [parse] gives the float back on any literal whose
    decimal value is the one those digits denote. *)
Record std_float `{F64Text} (f : spec_float) : Prop := {
  std_lower_exp : exists d ds e,
    lower_exp (f64_abs f) = d :: fraction_part ds ++ 101 :: show_signed e /\
    digits (d :: ds) /\ d <> 48 /\ Z.of_nat (length ds) <= 16 /\ -400 <= e <= 400 /\
    forall ip fp ex, digits ip -> digits fp -> exponent_ok ex ->
      same_decimal (dec_value 0 (ip ++ fp)) (exponent_value ex - Z.of_nat (length fp))
                   (dec_value 0 (d :: ds)) (e - Z.of_nat (length ds)) ->
      parse_f64 (num_text (is_sign_negative f) ip fp ex) = Some f
}.

(** Floats the round trip covers: the special values, which are spelled as
    words, the zeros, and the finite floats the standard library treats as
    documented. *)
Definition float_ok `{F64Text} (f : spec_float) : Prop :=
  match f with
  | S754_nan | S754_infinity _ => True
  | S754_zero s => parse_f64 (num_text s (lit "0") (lit "0") None) = Some f
  | S754_finite _ _ _ => std_float f
  end.

Lemma filter_mantissa d ds : digits (d :: ds) ->
  List.filter is_ascii_digit (d :: fraction_part ds) = d :: ds.
Proof.
  intros Hd. apply Forall_cons in Hd as [Hd Hds]. cbn [List.filter]. rewrite Hd. f_equal.
  assert (Hfil : forall l, digits l -> List.filter is_ascii_digit l = l).
  { intros l. induction 1 as [|x l Hx Hl IH]; [reflexivity|]. cbn [List.filter]. by rewrite Hx, IH. }
  destruct ds as [|c ds]; [reflexivity|]. cbn [fraction_part]. change (List.filter is_ascii_digit (46 :: c :: ds))
    with (List.filter is_ascii_digit (c :: ds)). by apply Hfil.
Qed.

Lemma split_scientific d ds e : digits (d :: ds) ->
  split_once 101 (d :: fraction_part ds ++ 101 :: show_signed e) = Some (d :: fraction_part ds, show_signed e).
Proof.
  intros Hd. unfold split_once. rewrite app_comm_cons, span_stops; [reflexivity| |reflexivity].
  assert (Hno : forall l, digits l -> Forall (fun c => negb (c =? 101) = true) l).
  { intros l Hl. eapply Forall_impl; [exact Hl|]. intros c Hc. apply in_range_spec in Hc. lia. }
  apply Forall_cons in Hd as [Hd Hds]. apply Forall_cons. split; [apply in_range_spec in Hd; lia|].
  destruct ds as [|c ds]; [constructor|]. cbn [fraction_part]. apply Forall_cons. split; [reflexivity|by apply Hno].
Qed.

Lemma repeat_zero_digits k : digits (repeat 48 k).
Proof. induction k; simpl; constructor; auto. Qed.

Lemma pad_any w n : 0 <= n -> digits (pad w n) /\ pad w n <> [] /\ dec_value 0 (pad w n) = n.
Proof.
  intros Hn. destruct (show_unsigned_spec n Hn) as (Hd & Hv & Hne & _). unfold pad. split_and!.
  - apply Forall_app. split; [apply repeat_zero_digits|exact Hd].
  - intros E. by apply app_nil in E as [_ ?].
  - by rewrite dec_value_zeros.
Qed.

Lemma same_decimal_refl m e : same_decimal m e m e.
Proof. exists (Z.abs e). split_and!; lia. Qed.

(** Every layout of [format_float] is a float literal that denotes the digits
    and the exponent it was given. *)
Lemma layout_float_text s d ds e : digits (d :: ds) -> d <> 48 ->
  exists ip fp ex, layout_float (sign_text s) (d :: ds) e = num_text s ip fp ex /\
    int_lit s ip /\ digits fp /\ exponent_ok ex /\ (fp <> [] \/ is_Some ex) /\
    same_decimal (dec_value 0 (ip ++ fp)) (exponent_value ex - Z.of_nat (length fp))
                 (dec_value 0 (d :: ds)) (e - Z.of_nat (length ds)).
Proof.
  intros Hd Hne. pose proof Hd as Hd'. apply Forall_cons in Hd' as [Hd1 Hds].
  unfold layout_float. cbv zeta. set (L := Z.of_nat (length (d :: ds))).
  assert (HL : L = Z.of_nat (length ds) + 1) by (subst L; cbn [length]; lia).
  destruct (_ || _) eqn:E1.
  { destruct (pad_any 2 (Z.abs e) ltac:(lia)) as (Hpd & Hpn & Hpv).
    exists [d], ds, (Some (e <? 0, pad 2 (Z.abs e))). split_and!.
    - unfold num_text. cbn [drop take exponent_part]. by destruct ds, (e <? 0).
    - split; [by constructor|]. right. eauto.
    - exact Hds.
    - split; assumption.
    - right. eauto.
    - cbn [app exponent_value]. rewrite Hpv.
      replace (if e <? 0 then - Z.abs e else Z.abs e) with e by (destruct (e <? 0) eqn:?; lia).
      apply same_decimal_refl. }
  destruct (e + 1 <=? 0) eqn:E2.
  { exists [48], (repeat 48 (Z.to_nat (Z.abs (e + 1))) ++ d :: ds), None. split_and!.
    - unfold num_text. cbn [exponent_part]. rewrite app_nil_r.
      destruct (repeat 48 (Z.to_nat (Z.abs (e + 1))) ++ d :: ds) as [|x l] eqn:Ex.
      + by apply app_nil in Ex as [_ ?].
      + reflexivity.
    - split; [by constructor|by left].
    - apply Forall_app. split; [apply repeat_zero_digits|exact Hd].
    - exact I.
    - left. intros E. by apply app_nil in E as [_ ?].
    - change ([48] ++ repeat 48 (Z.to_nat (Z.abs (e + 1))) ++ d :: ds)
        with (repeat 48 (S (Z.to_nat (Z.abs (e + 1)))) ++ d :: ds).
      rewrite dec_value_zeros, length_app, repeat_length. cbn [exponent_value length].
      replace (0 - Z.of_nat (Z.to_nat (Z.abs (e + 1)) + S (length ds))) with (e - Z.of_nat (length ds)) by lia.
      apply same_decimal_refl. }
  destruct (L <=? e + 1) eqn:E3.
  { exists ((d :: ds) ++ repeat 48 (Z.to_nat (e + 1 - L))), [48], None. split_and!.
    - unfold num_text. cbn [exponent_part fraction_part]. by rewrite <- !app_assoc.
    - split; [apply Forall_app; split; [exact Hd|apply repeat_zero_digits]|]. right. eexists _, _. split; [reflexivity|exact Hne].
    - by constructor.
    - exact I.
    - by left.
    - rewrite <- app_assoc. change [48] with (repeat 48 1). rewrite <- repeat_app, dec_value_trailing_zeros.
      cbn [exponent_value length repeat]. exists (Z.abs e + 1 + L). split_and!; try lia.
      rewrite <- Z.mul_assoc, <- Z.pow_add_r by lia. f_equal. f_equal. lia. }
  exists (take (Z.to_nat (e + 1)) (d :: ds)), (drop (Z.to_nat (e + 1)) (d :: ds)), None.
  assert (Hsplit : Z.to_nat (e + 1) = S (Z.to_nat e)) by lia.
  assert (Hdrop : drop (Z.to_nat (e + 1)) (d :: ds) <> []).
  { intros E. apply (f_equal length) in E. rewrite length_drop in E. cbn [length] in E. lia. }
  split_and!.
  - unfold num_text. cbn [exponent_part]. rewrite app_nil_r.
    destruct (drop (Z.to_nat (e + 1)) (d :: ds)) as [|x l] eqn:Ex; [congruence|reflexivity].
  - split; [by apply Forall_take|]. right. rewrite Hsplit. cbn [take]. eauto.
  - by apply Forall_drop.
  - exact I.
  - by left.
  - rewrite take_drop. cbn [exponent_value]. rewrite length_drop. cbn [length].
    replace (0 - Z.of_nat (S (length ds) - Z.to_nat (e + 1))) with (e - Z.of_nat (length ds)) by lia.
    apply same_decimal_refl.
Qed.

(** A float the standard library treats as documented is written as a literal
    that parses back to it. *)
Lemma format_float_back `{F64Text} f : match f with S754_finite _ _ _ | S754_zero _ => True | _ => False end ->
  float_ok f -> exists ip fp ex, format_float f = num_text (is_sign_negative f) ip fp ex /\
    int_lit (is_sign_negative f) ip /\ digits fp /\ exponent_ok ex /\ (fp <> [] \/ is_Some ex) /\
    parse_f64 (num_text (is_sign_negative f) ip fp ex) = Some f.
Proof.
  intros Hkind Hok. destruct f as [s|s| |s m e]; try destruct Hkind.
  - exists [48], [48], None. split_and!; [by destruct s| |by constructor|exact I|by left|exact Hok].
    split; [by constructor|by left].
  - destruct Hok as [(d & ds & x & Hexp & Hd & Hne & _ & Hx & Hback)].
    destruct (layout_float_text s d ds x Hd Hne) as (ip & fp & ex & Ht & Hi & Hfp & Hex & Hsome & Hsame).
    exists ip, fp, ex. split_and!; auto; [|by apply Hback; [apply Hi|..]].
    cbn [format_float]. rewrite Hexp, (split_scientific d ds x Hd). cbn [from_option]. unfold id. cbv beta iota zeta. rewrite filter_mantissa by exact Hd.
    unfold parse_i32. rewrite parse_signed_show by (unfold i32_min, i32_max; lia). exact Ht.
Qed.

(** ** Strings read back *)

Lemma hex_value_digit n : 0 <= n < 16 -> hex_value (hex_digit n) = Some n.
Proof.
  intros Hn. unfold hex_value, hex_digit, is_ascii_digit, in_range. destruct (n <? 10) eqn:E.
  - rewrite (proj2 (andb_true_iff _ _)) by lia. f_equal. lia.
  - rewrite (proj2 (andb_false_iff _ _)) by lia. rewrite (proj2 (andb_true_iff _ _)) by lia. f_equal. lia.
Qed.

Lemma hex4_sum code : 0 <= code < 65536 ->
  (((0 * 16 + Z.shiftr code 12 mod 16) * 16 + Z.shiftr code 8 mod 16) * 16 + Z.shiftr code 4 mod 16) * 16
  + code mod 16 = code.
Proof.
  intros Hc. rewrite !Z.shiftr_div_pow2 by lia.
  change (2 ^ 12) with 4096. change (2 ^ 8) with 256. change (2 ^ 4) with 16.
  Z.to_euclidean_division_equations. lia.
Qed.

Section StringBack.
Variable src : str.

Lemma parse_hex4_digits code r : 0 <= code < 65536 ->
  parse_hex4 src (drop 2 (push_hex_escape code) ++ r) = Ok (code, r).
Proof.
  intros Hc. unfold push_hex_escape. cbn [drop app]. unfold parse_hex4, from_str_radix_16.
  assert (Hm : forall x, 0 <= x mod 16 < 16) by (intros x; apply Z.mod_pos_bound; lia).
  assert ((hex_digit (Z.shiftr code 12 mod 16) =? 43) = false) as ->.
  { unfold hex_digit. specialize (Hm (Z.shiftr code 12)). destruct (_ <? 10); lia. }
  cbn [hex_digits]. rewrite !hex_value_digit by apply Hm. by rewrite hex4_sum.
Qed.

Lemma parse_hex_escape code r out : scalar code -> code < 65536 ->
  parse_escape src (drop 1 (push_hex_escape code) ++ r) out = Ok (out ++ [code], r).
Proof.
  intros Hs Hc. assert (Hb : 0 <= code < 65536) by (unfold scalar in Hs; lia).
  change (drop 1 (push_hex_escape code) ++ r) with (117 :: drop 2 (push_hex_escape code) ++ r).
  cbn [parse_escape Z.eqb Pos.eqb]. unfold parse_unicode_escape. rewrite parse_hex4_digits by exact Hb.
  cbn [result_bind]. unfold char_or_replacement, in_range. unfold scalar in Hs.
  rewrite (proj2 (andb_false_iff (55296 <=? code) (code <=? 56319))) by lia. cbn [andb].
  by rewrite (proj2 (andb_false_iff (55296 <=? code) (code <=? 57343))) by lia.
Qed.

Lemma parse_pair_escape code r out : 65536 <= code < 1114112 ->
  parse_escape src (drop 1 (push_escaped_ascii code) ++ r) out = Ok (out ++ [code], r).
Proof.
  intros Hc. unfold push_escaped_ascii. rewrite (proj2 (Z.leb_le _ _)) by lia. cbv zeta.
  set (off := code - 65536). rewrite Z.shiftr_div_pow2 by lia. change 1023 with (Z.ones 10). rewrite Z.land_ones by lia.
  change (2 ^ 10) with 1024. pose proof (Z.div_mod off 1024 ltac:(lia)). pose proof (Z.mod_pos_bound off 1024 ltac:(lia)).
  set (hi := off / 1024) in *. set (lo := off mod 1024) in *.
  change (drop 1 (push_hex_escape (55296 + hi) ++ push_hex_escape (56320 + lo)) ++ r)
    with (117 :: drop 2 (push_hex_escape (55296 + hi)) ++ 92 :: 117 :: drop 2 (push_hex_escape (56320 + lo)) ++ r).
  cbn [parse_escape Z.eqb Pos.eqb]. unfold parse_unicode_escape. rewrite parse_hex4_digits by lia.
  cbn [result_bind]. cbv beta iota zeta. unfold in_range.
  rewrite (proj2 (andb_true_iff (55296 <=? 55296 + hi) (55296 + hi <=? 56319))) by lia.
  cbn [starts_with Z.eqb Pos.eqb andb].
  change (drop 2 (92 :: 117 :: drop 2 (push_hex_escape (56320 + lo)) ++ r))
    with (drop 2 (push_hex_escape (56320 + lo)) ++ r). rewrite parse_hex4_digits by lia. cbn [result_bind].
  rewrite (proj2 (andb_true_iff (56320 <=? 56320 + lo) _)) by lia.
  rewrite Z.shiftl_mul_pow2 by lia. change (2 ^ 10) with 1024. do 4 f_equal. lia.
Qed.

Lemma string_loop_plain c f rest out r : is_string_plain c = true ->
  string_loop src (S f) rest (out ++ [c]) = Some (Ok r) -> string_loop src (S f) (c :: rest) out = Some (Ok r).
Proof.
  intros Hc. cbn [string_loop span]. rewrite Hc. destruct (span is_string_plain rest) as [chunk [|d rest1]]; [discriminate|].
  change (c :: chunk) with ([c] ++ chunk). rewrite <- app_assoc. auto.
Qed.

Lemma string_loop_escape f rest out : 
  string_loop src (S f) (92 :: rest) out =
  match parse_escape src rest out with Ok (out, r) => string_loop src f r out | Err e => Some (Err e) end.
Proof. cbn [string_loop span]. change (is_string_plain 92) with false. cbv beta iota zeta. by rewrite app_nil_r. Qed.

Lemma string_loop_mono f rest out r : string_loop src f rest out = Some (Ok r) ->
  string_loop src (S f) rest out = Some (Ok r).
Proof.
  revert rest out. induction f as [|f IH]; intros rest out; [discriminate|].
  intros Hl. cbn [string_loop] in Hl |- *. destruct (span is_string_plain rest) as [chunk [|c r1]]; [discriminate|].
  destruct (c =? 34); [exact Hl|]. destruct (c =? 92); [|discriminate].
  destruct (parse_escape src r1 (out ++ chunk)) as [[out' r']|e]; [|discriminate]. by apply IH.
Qed.

(** One written character is read back, using at most one unit of fuel. *)
Lemma string_loop_char ascii c f rest out r : scalar c ->
  string_loop src f rest (out ++ [c]) = Some (Ok r) ->
  string_loop src (S f) (write_char ascii c ++ rest) out = Some (Ok r).
Proof.
  intros Hs Hr. unfold write_char.
  destruct (Z.eqb_spec c 34) as [->|H1]; [cbn [app]; by rewrite string_loop_escape|].
  destruct (Z.eqb_spec c 92) as [->|H2]; [cbn [app]; by rewrite string_loop_escape|].
  destruct (Z.eqb_spec c 8) as [->|H3]; [cbn [app]; by rewrite string_loop_escape|].
  destruct (Z.eqb_spec c 12) as [->|H4]; [cbn [app]; by rewrite string_loop_escape|].
  destruct (Z.eqb_spec c 10) as [->|H5]; [cbn [app]; by rewrite string_loop_escape|].
  destruct (Z.eqb_spec c 13) as [->|H6]; [cbn [app]; by rewrite string_loop_escape|].
  destruct (Z.eqb_spec c 9) as [->|H7]; [cbn [app]; by rewrite string_loop_escape|].
  destruct (c <? 32) eqn:E1.
  { change (push_hex_escape c ++ rest) with (92 :: drop 1 (push_hex_escape c) ++ rest).
    rewrite string_loop_escape, parse_hex_escape by (assumption || lia). exact Hr. }
  destruct (ascii && (126 <? c)) eqn:E2.
  { assert (Hesc : push_escaped_ascii c ++ rest = 92 :: drop 1 (push_escaped_ascii c) ++ rest)
      by (unfold push_escaped_ascii; by destruct (65536 <=? c)).
    rewrite Hesc, string_loop_escape. destruct (65536 <=? c) eqn:E3.
    - rewrite parse_pair_escape by (unfold scalar in Hs; lia). exact Hr.
    - unfold push_escaped_ascii. rewrite E3, parse_hex_escape by (assumption || lia). exact Hr. }
  apply string_loop_plain; [|by apply string_loop_mono].
  unfold is_string_plain. rewrite !orb_false_intro; [reflexivity|..]; lia.
Qed.

Lemma string_back ascii s fuel tail out : Forall scalar s -> (length s < fuel)%nat ->
  string_loop src fuel (flat_map (write_char ascii) s ++ 34 :: tail) out = Some (Ok (out ++ s, tail)).
Proof.
  intros Hs. revert fuel out. induction Hs as [|c s Hc Hs IH]; intros [|f] out Hf; cbn [length] in Hf; try lia.
  - cbn. by rewrite app_nil_r.
  - cbn [flat_map]. rewrite <- app_assoc. apply string_loop_char; [exact Hc|].
    rewrite IH by lia. by rewrite <- app_assoc.
Qed.
End StringBack.

(** ** Values read back *)

Section JsonInd.
Variable P : Json -> Prop.
Hypothesis Hnull : P JNull.
Hypothesis Hbool : forall b, P (JBool b).
Hypothesis Hint : forall i, P (JInt i).
Hypothesis Hbig : forall d, P (JBigInt d).
Hypothesis Hfloat : forall f, P (JFloat f).
Hypothesis Hstr : forall s, P (JStr s).
Hypothesis Harray : forall items, Forall P items -> P (JArray items).
Hypothesis Hobject : forall pairs, Forall (fun kv => P kv.2) pairs -> P (JObject pairs).
Fixpoint Json_nested_ind (v : Json) : P v :=
  match v with
  | JNull => Hnull
  | JBool b => Hbool b
  | JInt i => Hint i
  | JBigInt d => Hbig d
  | JFloat f => Hfloat f
  | JStr s => Hstr s
  | JArray items =>
      Harray items ((fix go l : Forall P l :=
        match l with [] => Forall_nil_2 P | x :: r => Forall_cons_2 P x r (Json_nested_ind x) (go r) end) items)
  | JObject pairs =>
      Hobject pairs ((fix go l : Forall (fun kv => P kv.2) l :=
        match l with
        | [] => Forall_nil_2 _
        | x :: r => Forall_cons_2 _ x r (Json_nested_ind x.2) (go r)
        end) pairs)
  end.
End JsonInd.

(** The values a Rust [Json] of the program can be: strings of characters, an
    [i64] in range, a [BigInt] holding an integer literal past it, floats the
    standard library treats as documented, no key twice. *)
Fixpoint wf_json `{F64Text} (v : Json) : Prop :=
  match v with
  | JNull | JBool _ => True
  | JInt i => i64_min <= i <= i64_max
  | JBigInt d => parse_i64 d = None /\ exists neg ds, d = sign_text neg ++ ds /\ int_lit neg ds
  | JFloat f => float_ok f
  | JStr s => Forall scalar s
  | JArray items => (fix go l := match l with [] => True | x :: r => wf_json x /\ go r end) items
  | JObject pairs =>
      NoDup (map fst pairs) /\
      (fix go l := match l with [] => True | kv :: r => Forall scalar kv.1 /\ wf_json kv.2 /\ go r end) pairs
  end.

Lemma wf_array `{F64Text} items : wf_json (JArray items) <-> Forall wf_json items.
Proof.
  cbn [wf_json]. induction items as [|x r IH]; [by split|]. rewrite Forall_cons, IH. reflexivity.
Qed.
Lemma wf_object `{F64Text} pairs : wf_json (JObject pairs) <->
  NoDup (map fst pairs) /\ Forall (fun kv => Forall scalar kv.1 /\ wf_json kv.2) pairs.
Proof.
  cbn [wf_json]. apply and_iff_compat_l. induction pairs as [|x r IH]; [by split|]. rewrite Forall_cons, IH. tauto.
Qed.

Abbreviation white w := (Forall (fun c => is_json_space c = true) w).
(** Separators that are a comma, and a colon, in white space. *)
Definition good_separators (o : DumpOptions) : Prop :=
  (exists w1 w2, (resolved_separators o).1 = w1 ++ 44 :: w2 /\ white w1 /\ white w2) /\
  (exists w1 w2, (resolved_separators o).2 = w1 ++ 58 :: w2 /\ white w1 /\ white w2).

Lemma skip_white w c r : white w -> is_json_space c = false -> skip_whitespace (w ++ c :: r) = c :: r.
Proof. intros Hw Hc. unfold skip_whitespace. by rewrite span_stops. Qed.

Lemma white_indent o depth : white (write_indent o depth).
Proof.
  unfold write_indent. destruct (indent o) as [w|]; [|constructor]. apply Forall_cons. split; [reflexivity|].
  generalize (w * depth)%nat. intros n. induction n; simpl; constructor; auto.
Qed.

Lemma ends_number_white w c r : white w -> (c = 44 \/ c = 93 \/ c = 125) -> ends_number (w ++ c :: r).
Proof.
  intros Hw Hc. destruct Hw as [|x w Hx Hw]; cbn [app ends_number].
  - destruct Hc as [->|[->| ->]]; done.
  - unfold is_json_space in Hx. unfold is_ascii_digit, in_range. lia.
Qed.

(** What a written value starts with. *)
Definition starts_value (t : str) : Prop :=
  exists c r, t = c :: r /\ is_json_space c = false /\ c <> 93 /\ c <> 125.

Lemma int_lit_starts neg ds r : int_lit neg ds -> starts_value (sign_text neg ++ ds ++ r).
Proof.
  intros [Hd Hz]. destruct neg; cbn [sign_text app].
  - eexists _, _. split; [reflexivity|]. done.
  - assert (exists c r, ds = c :: r) as (c & r' & ->) by (destruct Hz as [->|(d & r' & -> & _)]; eauto).
    apply Forall_cons in Hd as [Hc _]. apply in_range_spec in Hc. exists c, (r' ++ r). split; [reflexivity|].
    unfold is_json_space. split_and!; lia.
Qed.

Lemma format_float_starts `{F64Text} f : float_ok f -> starts_value (format_float f).
Proof.
  intros Hf. destruct f as [s|s| |s m e].
  1: destruct (format_float_back (S754_zero s) I Hf) as (ip & fp & ex & -> & Hi & _).
  4: destruct (format_float_back (S754_finite s m e) I Hf) as (ip & fp & ex & -> & Hi & _).
  1,4: unfold num_text; by apply int_lit_starts.
  - destruct s; eexists _, _; (split; [reflexivity|done]).
  - eexists _, _; (split; [reflexivity|done]).
Qed.

Lemma write_value_starts `{F64Text} o depth v : wf_json v -> starts_value (write_value o depth v).
Proof.
  intros Hv. destruct v as [|b|i|d|f|s|items|pairs].
  - eexists _, _; (split; [reflexivity|done]).
  - destruct b; eexists _, _; (split; [reflexivity|done]).
  - cbn [write_value]. rewrite show_signed_text. unfold num_text. apply int_lit_starts, show_unsigned_lit. lia.
  - destruct Hv as [_ (neg & ds & -> & Hl)]. cbn [write_value]. rewrite <- (app_nil_r ds). by apply int_lit_starts.
  - by apply format_float_starts.
  - eexists _, _; (split; [reflexivity|done]).
  - destruct items; eexists _, _; (split; [reflexivity|done]).
  - destruct pairs; eexists _, _; (split; [reflexivity|done]).
Qed.

Lemma parse_value_number `{F64Text} src f t tail j : starts_value t ->
  (forall c r, t = c :: r -> is_ascii_digit c = true \/ (c = 45 /\ starts_with (t ++ tail) (lit "-Infinity") = false)) ->
  parse_number src (t ++ tail) = Ok (j, tail) -> parse_value src (S f) (t ++ tail) = Some (Ok (j, tail)).
Proof.
  intros (c & r & -> & _) Hc Hp. destruct (Hc c r eq_refl) as [Hd|[-> Hinf]].
  - cbn [app] in *. rewrite parse_value_cons. cbv zeta. rewrite Hd. apply in_range_spec in Hd.
    rewrite !(proj2 (Z.eqb_neq c _)) by lia. by rewrite Hp.
  - cbn [app] in *. rewrite parse_value_cons. cbv zeta. cbn [Z.eqb Pos.eqb]. unfold eat. by rewrite Hinf, Hp.
Qed.

Lemma int_lit_first neg ds c r x : int_lit neg ds -> sign_text neg ++ ds ++ x = c :: r ->
  is_ascii_digit c = true \/ (c = 45 /\ exists d r', r = d :: r' /\ is_ascii_digit d = true).
Proof.
  intros [Hd Hz] E. assert (exists d r, ds = d :: r) as (d & r' & ->) by (destruct Hz as [->|(d & r' & -> & _)]; eauto).
  apply Forall_cons in Hd as [Hd _]. destruct neg; cbn [sign_text app] in E; injection E as <- <-; [right|left]; eauto.
Qed.

Lemma num_text_read `{F64Text} src f neg ip fp ex tail j : int_lit neg ip ->
  parse_number src (num_text neg ip fp ex ++ tail) = Ok (j, tail) ->
  parse_value src (S f) (num_text neg ip fp ex ++ tail) = Some (Ok (j, tail)).
Proof.
  intros Hi Hp. apply parse_value_number; [by apply int_lit_starts| |exact Hp].
  intros c r E. destruct (int_lit_first _ _ _ _ _ Hi E) as [Hd|(-> & d & r' & -> & Hd)]; [by left|right].
  split; [reflexivity|]. rewrite E. apply in_range_spec in Hd.
  change (lit "-Infinity") with (45 :: 73 :: lit "nfinity"). cbn [app starts_with].
  by rewrite (proj2 (Z.eqb_neq d 73)), andb_false_r by lia.
Qed.

Lemma int_read `{F64Text} src f i tail : i64_min <= i <= i64_max -> ends_number tail ->
  parse_value src (S f) (show_signed i ++ tail) = Some (Ok (JInt i, tail)).
Proof.
  intros Hi Ht. rewrite show_signed_text. pose proof (show_unsigned_lit (i <? 0) (Z.abs i) ltac:(lia)) as Hl.
  apply num_text_read; [exact Hl|]. rewrite parse_number_text by (auto; done || constructor).
  rewrite bool_decide_eq_true_2, bool_decide_eq_false_2 by (done || by intros [? ?]). cbn [negb orb].
  rewrite <- show_signed_text. unfold parse_i64. by rewrite parse_signed_show by (unfold i64_min, i64_max in *; lia).
Qed.

Lemma bigint_read `{F64Text} src f neg ds tail : int_lit neg ds -> parse_i64 (sign_text neg ++ ds) = None ->
  ends_number tail ->
  parse_value src (S f) ((sign_text neg ++ ds) ++ tail) = Some (Ok (JBigInt (sign_text neg ++ ds), tail)).
Proof.
  intros Hl Hn Ht. assert (E : sign_text neg ++ ds = num_text neg ds [] None)
    by (unfold num_text; cbn [fraction_part exponent_part]; by rewrite !app_nil_r).
  rewrite E in *. apply num_text_read; [exact Hl|]. rewrite parse_number_text by (auto; done || constructor).
  rewrite bool_decide_eq_true_2, bool_decide_eq_false_2 by (done || by intros [? ?]). cbn [negb orb]. by rewrite Hn.
Qed.

Lemma float_read `{F64Text} src f x tail : float_ok x -> ends_number tail ->
  parse_value src (S f) (format_float x ++ tail) = Some (Ok (JFloat x, tail)).
Proof.
  intros Hx Ht.
  assert (Hnum : match x with S754_finite _ _ _ | S754_zero _ => True | _ => False end ->
    parse_value src (S f) (format_float x ++ tail) = Some (Ok (JFloat x, tail))).
  { intros Hk. destruct (format_float_back x Hk Hx) as (ip & fp & ex & -> & Hi & Hfp & Hex & Hsome & Hback).
    apply num_text_read; [exact Hi|]. rewrite parse_number_text by assumption. rewrite Hback.
    assert (negb (bool_decide (fp = [])) || bool_decide (is_Some ex) = true) as ->; [|reflexivity].
    destruct Hsome as [Hs|Hs]; [by rewrite bool_decide_eq_false_2|].
    by rewrite (bool_decide_eq_true_2 _ Hs), orb_true_r. }
  destruct x as [s|s| |s m e]; [by apply Hnum| | |by apply Hnum].
  - by destruct s.
  - reflexivity.
Qed.

(** A written value, read with enough fuel for what is left of the text. *)
Definition reads `{F64Text} (o : DumpOptions) (v : Json) : Prop :=
  forall src depth tail fuel, ends_number tail ->
    (2 * length (write_value o depth v ++ tail) + 1 <= fuel)%nat ->
    parse_value src fuel (write_value o depth v ++ tail) = Some (Ok (v, tail)).

Lemma sep_concat_cons sep x y l : sep_concat sep (x :: y :: l) = x ++ sep ++ sep_concat sep (y :: l).
Proof. reflexivity. Qed.

(** What closes a container or separates two of its items. *)
Lemma close_skip o depth c tail : is_json_space c = false ->
  skip_whitespace (write_indent o depth ++ c :: tail) = c :: tail.
Proof. intros Hc. by apply skip_white; [apply white_indent|]. Qed.

Lemma item_skip o depth t rest w : white w -> starts_value t ->
  skip_whitespace (w ++ write_indent o depth ++ t ++ rest) = t ++ rest.
Proof.
  intros Hw (c & r & -> & Hc & _). rewrite app_assoc. cbn [app]. apply skip_white; [|exact Hc].
  apply Forall_app. split; [exact Hw|apply white_indent].
Qed.

(** Reassociates nested appends to the right. *)
Ltac flat_app := repeat progress (cbn [app]; rewrite <- ?app_assoc).

(** Arithmetic on the lengths of appends. *)
Ltac len_lia := repeat progress (rewrite ?length_app in *; cbn [length] in *); lia.

Section Containers.
Context `{F64Text}.
Variables (o : DumpOptions) (src : str) (depth : nat).
Hypothesis Hsep : good_separators o.

Lemma array_loop_reads items w tail acc fuel : items <> [] -> white w ->
  Forall (fun v => reads o v /\ wf_json v) items ->
  let text := w ++ sep_concat (resolved_separators o).1
      (map (fun v => write_indent o (depth + 1) ++ write_value o (depth + 1) v) items)
      ++ write_indent o depth ++ 93 :: tail in
  (2 * length text + 2 <= fuel)%nat ->
  array_loop src fuel text acc = Some (Ok (JArray (acc ++ items), tail)).
Proof.
  destruct Hsep as [(w1 & w2 & Ei & Hw1 & Hw2) _]. intros Hne Hw Hall. revert w Hw acc fuel.
  induction Hall as [|v items [Hv Hwf] Hall IH]; [congruence|]. intros w Hw acc [|f] text Hf; [lia|].
  rewrite array_loop_eq. destruct items as [|v2 items].
  - cbn [map sep_concat] in text. subst text. rewrite <- !app_assoc in *.
    rewrite (item_skip o _ _ _ w Hw (write_value_starts o _ v Hwf)).
    rewrite Hv; [|apply ends_number_white; [apply white_indent|auto]|rewrite !length_app in *; lia].
    by rewrite close_skip by reflexivity.
  - set (rest := w2 ++ sep_concat (resolved_separators o).1
      (map (fun v => write_indent o (depth + 1) ++ write_value o (depth + 1) v) (v2 :: items))
      ++ write_indent o depth ++ 93 :: tail).
    assert (Et : text = w ++ write_indent o (depth + 1) ++ write_value o (depth + 1) v ++ w1 ++ 44 :: rest).
    { subst text rest. cbn [map]. rewrite sep_concat_cons, Ei. rewrite <- !app_assoc. reflexivity. }
    rewrite Et in *. clear Et. clearbody text.
    rewrite (item_skip o _ _ _ w Hw (write_value_starts o _ v Hwf)).
    rewrite Hv; [|apply ends_number_white; [exact Hw1|auto]|rewrite !length_app in *; lia].
    rewrite skip_white by (exact Hw1 || reflexivity). cbn [Z.eqb Pos.eqb].
    subst rest. rewrite (IH ltac:(congruence) w2 Hw2); [by rewrite <- app_assoc|].
    rewrite !length_app in Hf. cbn [length] in Hf. rewrite !length_app in *. lia.
Qed.

Lemma pairs_set_fresh acc key v : key ∉ map fst acc -> pairs_set acc key v = acc ++ [(key, v)].
Proof.
  induction acc as [|[k w] acc IH]; [reflexivity|]. cbn [map fst pairs_set]. intros Hk.
  rewrite bool_decide_eq_false_2 by set_solver. rewrite IH by set_solver. reflexivity.
Qed.

Lemma write_string_length ascii s : (length s < length (flat_map (write_char ascii) s ++ [34%Z]))%nat.
Proof.
  induction s as [|c s IH]; cbn [flat_map length app]; [lia|]. rewrite <- app_assoc, length_app.
  assert (1 <= length (write_char ascii c))%nat; [|lia].
  unfold write_char, push_escaped_ascii. repeat (case_goal; [cbn; lia|]). repeat case_goal; cbn; lia.
Qed.

(** The text of one pair. *)
Definition pair_text (kv : str * Json) : str :=
  write_indent o (depth + 1) ++ write_string (ensure_ascii o) kv.1
  ++ (resolved_separators o).2 ++ write_value o (depth + 1) kv.2.

Lemma object_loop_reads pairs w tail acc fuel : pairs <> [] -> white w ->
  NoDup (map fst acc ++ map fst pairs) ->
  Forall (fun kv => Forall scalar kv.1 /\ reads o kv.2 /\ wf_json kv.2) pairs ->
  let text := w ++ sep_concat (resolved_separators o).1 (map pair_text pairs)
      ++ write_indent o depth ++ 125 :: tail in
  (2 * length text + 2 <= fuel)%nat ->
  object_loop src fuel text acc = Some (Ok (JObject (acc ++ pairs), tail)).
Proof.
  destruct Hsep as [(w1 & w2 & Ei & Hw1 & Hw2) (u1 & u2 & Ek & Hu1 & Hu2)].
  intros Hne Hw Hnd Hall. revert w Hw acc Hnd fuel.
  induction Hall as [|[key v] pairs (Hs & Hv & Hwf) Hall IH]; [congruence|]. cbn [fst snd] in Hs, Hv, Hwf.
  intros w Hw acc Hnd [|f] text Hf; [lia|]. rewrite object_loop_eq.
  assert (Hfresh : key ∉ map fst acc).
  { rewrite NoDup_app in Hnd. destruct Hnd as (_ & Hd & _). intros Hin. apply (Hd key Hin). cbn. set_solver. }
  assert (Hgen : exists rest, text = w ++ write_indent o (depth + 1) ++ 34 :: flat_map (write_char (ensure_ascii o)) key
      ++ 34 :: u1 ++ 58 :: u2 ++ write_value o (depth + 1) v ++ rest /\ ends_number rest /\
      match pairs with
      | [] => rest = write_indent o depth ++ 125 :: tail
      | _ => rest = w1 ++ 44 :: w2 ++ sep_concat (resolved_separators o).1 (map pair_text pairs)
                    ++ write_indent o depth ++ 125 :: tail
      end).
  { subst text. destruct pairs as [|kv2 pairs].
    - exists (write_indent o depth ++ 125 :: tail). split_and!; [|apply ends_number_white; [apply white_indent|auto]|reflexivity].
      cbn [map sep_concat]. unfold pair_text, write_string. cbn [fst snd]. rewrite Ek. by flat_app.
    - exists (w1 ++ 44 :: w2 ++ sep_concat (resolved_separators o).1 (map pair_text (kv2 :: pairs))
                 ++ write_indent o depth ++ 125 :: tail).
      split_and!; [|apply ends_number_white; auto|reflexivity].
      cbn [map]. rewrite sep_concat_cons, Ei. unfold pair_text at 1, write_string at 1. cbn [fst snd]. rewrite Ek.
      by flat_app. }
  destruct Hgen as (rest & Et & Hend & Hrest). rewrite Et in *. clear Et. clearbody text.
  pose proof (write_string_length (ensure_ascii o) key) as Hkl.
  rewrite app_assoc, skip_white; [|apply Forall_app; split; [exact Hw|apply white_indent]|reflexivity].
  cbn [Z.eqb Pos.eqb]. rewrite string_back by (exact Hs || len_lia). cbn [app].
  rewrite skip_white by (exact Hu1 || reflexivity). cbn [Z.eqb Pos.eqb].
  assert (skip_whitespace (u2 ++ write_value o (depth + 1) v ++ rest) = write_value o (depth + 1) v ++ rest) as ->.
  { destruct (write_value_starts o (depth + 1) v Hwf) as (c & r & -> & Hc & _). cbn [app]. by apply skip_white. }
  rewrite Hv; [|exact Hend|len_lia]. rewrite pairs_set_fresh by exact Hfresh.
  destruct pairs as [|kv2 pairs]; subst rest.
  - by rewrite close_skip by reflexivity.
  - rewrite skip_white by (exact Hw1 || reflexivity). cbn [Z.eqb Pos.eqb].
    rewrite (IH ltac:(congruence) w2 Hw2); [by rewrite <- app_assoc| |].
    + rewrite map_app. cbn [map fst]. rewrite <- app_assoc. exact Hnd.
    + len_lia.
Qed.
End Containers.

Lemma skip_whitespace_idem t : skip_whitespace (skip_whitespace t) = skip_whitespace t.
Proof.
  unfold skip_whitespace. destruct (span is_json_space t) as [a [|c r]] eqn:E; [reflexivity|].
  apply span_stop in E. cbn [snd span]. by rewrite E.
Qed.

Lemma array_loop_skip `{F64Text} src f t acc : array_loop src f (skip_whitespace t) acc = array_loop src f t acc.
Proof. destruct f; [reflexivity|]. by rewrite !array_loop_eq, skip_whitespace_idem. Qed.
Lemma object_loop_skip `{F64Text} src f t acc : object_loop src f (skip_whitespace t) acc = object_loop src f t acc.
Proof. destruct f; [reflexivity|]. by rewrite !object_loop_eq, skip_whitespace_idem. Qed.

Section ContainersRead.
Context `{F64Text}.
Variable o : DumpOptions.
Hypothesis Hsep : good_separators o.

Lemma array_reads items : Forall (fun v => reads o v /\ wf_json v) items -> reads o (JArray items).
Proof.
  intros Hall src depth tail [|fuel] Ht Hf; [lia|]. cbn [write_value] in *. destruct items as [|v items]; [reflexivity|].
  rewrite <- !app_assoc in *. cbn [app] in *. rewrite parse_value_cons. cbv zeta. cbn [Z.eqb Pos.eqb].
  set (body := sep_concat _ _ ++ write_indent o depth ++ 93 :: tail) in *.
  assert (Hhead : exists c r, skip_whitespace body = c :: r /\ c <> 93).
  { apply Forall_cons in Hall as [[_ Hv] _]. destruct (write_value_starts o (depth + 1) v Hv) as (c & r & E & Hc & H93 & _).
    subst body. destruct items as [|v2 items]; cbn [map]; [|rewrite sep_concat_cons]; cbn [sep_concat];
      rewrite E; flat_app; rewrite skip_white by (apply white_indent || assumption); eauto. }
  assert (Hloop : array_loop src fuel (skip_whitespace body) [] = Some (Ok (JArray (v :: items), tail))).
  { rewrite array_loop_skip. change (v :: items) with ([] ++ v :: items).
    apply (array_loop_reads o src depth Hsep (v :: items) [] tail [] fuel);
      [congruence|apply Forall_nil_2|exact Hall|subst body; cbn [app]; len_lia]. }
  destruct Hhead as (c & r & E & Hc). rewrite E in *. by rewrite (proj2 (Z.eqb_neq c 93)).
Qed.

Lemma object_reads pairs : sort_keys o = false -> NoDup (map fst pairs) ->
  Forall (fun kv => Forall scalar kv.1 /\ reads o kv.2 /\ wf_json kv.2) pairs -> reads o (JObject pairs).
Proof.
  intros Hsort Hnd Hall src depth tail [|fuel] Ht Hf; [lia|]. cbn [write_value] in *. rewrite Hsort in *.
  destruct pairs as [|[key v] pairs]; [reflexivity|].
  rewrite <- !app_assoc in *. cbn [app] in *. rewrite parse_value_cons. cbv zeta. cbn [Z.eqb Pos.eqb].
  assert (Hmap : forall l, map (fun kv => write_indent o (depth + 1) ++ write_string (ensure_ascii o) kv.1
      ++ (resolved_separators o).2 ++ kv.2) (map (fun kv => (kv.1, write_value o (depth + 1) kv.2)) l)
    = map (pair_text o depth) l) by (intros l; rewrite map_map; reflexivity).
  rewrite Hmap in *. clear Hmap.
  set (body := sep_concat _ _ ++ write_indent o depth ++ 125 :: tail) in *.
  assert (Hhead : exists r, skip_whitespace body = 34 :: r).
  { subst body. destruct pairs as [|kv2 pairs]; cbn [map]; [|rewrite sep_concat_cons]; cbn [sep_concat];
      unfold pair_text at 1, write_string at 1; flat_app; rewrite skip_white by (apply white_indent || reflexivity); eauto. }
  assert (Hloop : object_loop src fuel (skip_whitespace body) [] = Some (Ok (JObject ((key, v) :: pairs), tail))).
  { rewrite object_loop_skip. change ((key, v) :: pairs) with ([] ++ (key, v) :: pairs).
    apply (object_loop_reads o src depth Hsep ((key, v) :: pairs) [] tail [] fuel);
      [congruence|apply Forall_nil_2|exact Hnd|exact Hall|subst body; cbn [app]; len_lia]. }
  destruct Hhead as (r & E). rewrite E in *. exact Hloop.
Qed.

Lemma write_value_reads v : sort_keys o = false -> wf_json v -> reads o v.
Proof.
  intros Hsort. induction v as [|b|i|d|f|s|items IH|pairs IH] using Json_nested_ind; intros Hwf.
  1-6: intros src depth tail [|fuel] Ht Hf; [lia|].
  - reflexivity.
  - by destruct b.
  - by apply int_read.
  - destruct Hwf as [Hn (neg & ds & -> & Hl)]. by apply bigint_read.
  - by apply float_read.
  - cbn [write_value] in *. unfold write_string in *. rewrite <- !app_assoc in *. cbn [app] in *.
    rewrite parse_value_cons. cbv zeta. cbn [Z.eqb Pos.eqb].
    pose proof (write_string_length (ensure_ascii o) s). rewrite string_back; [reflexivity|exact Hwf|len_lia].
  - apply wf_array in Hwf. apply array_reads. rewrite Forall_forall in *. eauto.
  - apply wf_object in Hwf as [Hnd Hwf]. apply object_reads; [exact Hsort|exact Hnd|].
    rewrite Forall_forall in *. intros x Hx. destruct (Hwf x Hx). eauto.
Qed.
End ContainersRead.

(** ** Sorted keys *)

(** What [sort_keys] writes: the objects' pairs in the order of their keys. *)
Fixpoint sort_json (v : Json) : Json :=
  match v with
  | JArray items => JArray (map sort_json items)
  | JObject pairs => JObject (sort_pairs (map (fun kv => (kv.1, sort_json kv.2)) pairs))
  | other => other
  end.

Lemma insert_pair_map {A B} (g : A -> B) p l :
  map (fun kv => (kv.1, g kv.2)) (insert_pair p l) = insert_pair (p.1, g p.2) (map (fun kv => (kv.1, g kv.2)) l).
Proof.
  induction l as [|q l IH]; [reflexivity|]. cbn [insert_pair map fst]. destruct (str_leb p.1 q.1); [reflexivity|].
  cbn [map]. by rewrite IH.
Qed.
Lemma sort_pairs_map {A B} (g : A -> B) l :
  map (fun kv => (kv.1, g kv.2)) (sort_pairs l) = sort_pairs (map (fun kv => (kv.1, g kv.2)) l).
Proof.
  induction l as [|p l IH]; [reflexivity|]. unfold sort_pairs in *. cbn [foldr map]. by rewrite insert_pair_map, IH.
Qed.
Lemma insert_pair_perm {A} (p : str * A) l : insert_pair p l ≡ₚ p :: l.
Proof.
  induction l as [|q l IH]; [reflexivity|]. cbn [insert_pair]. destruct (str_leb p.1 q.1); [reflexivity|].
  rewrite IH. apply perm_swap.
Qed.
Lemma sort_pairs_perm {A} (l : list (str * A)) : sort_pairs l ≡ₚ l.
Proof.
  induction l as [|p l IH]; [reflexivity|]. unfold sort_pairs in *. cbn [foldr]. by rewrite insert_pair_perm, IH.
Qed.

Definition unsorted (o : DumpOptions) : DumpOptions := mkDump (indent o) false (ensure_ascii o) (separators o).

Lemma write_value_sorted `{F64Text} o v depth : sort_keys o = true ->
  write_value o depth v = write_value (unsorted o) depth (sort_json v).
Proof.
  intros Hs. revert depth. induction v as [|b|i|d|f|s|items IH|pairs IH] using Json_nested_ind; intros depth; try reflexivity.
  - cbn [write_value sort_json]. destruct items as [|v items]; [reflexivity|].
    change (map sort_json (v :: items)) with (sort_json v :: map sort_json items) at 1. cbv iota.
    change (sort_json v :: map sort_json items) with (map sort_json (v :: items)).
    change (resolved_separators (unsorted o)) with (resolved_separators o). rewrite map_map.
    do 3 f_equal. apply map_ext_Forall. eapply Forall_impl; [exact IH|]. intros x Hx.
    change (write_indent (unsorted o)) with (write_indent o). by rewrite Hx.
  - cbn [write_value sort_json]. rewrite Hs. destruct pairs as [|kv pairs]; [reflexivity|].
    set (ps := kv :: pairs) in *.
    assert (Hne : sort_pairs (map (fun kv => (kv.1, sort_json kv.2)) ps) <> []).
    { intros E. pose proof (sort_pairs_perm (map (fun kv => (kv.1, sort_json kv.2)) ps)) as Hp. rewrite E in Hp.
      apply Permutation_nil_l in Hp. discriminate. }
    destruct (sort_pairs (map (fun kv => (kv.1, sort_json kv.2)) ps)) as [|p l] eqn:E; [congruence|]. rewrite <- E.
    cbn [sort_keys unsorted]. change (resolved_separators (unsorted o)) with (resolved_separators o).
    do 3 f_equal. change (write_indent (unsorted o)) with (write_indent o).
    change (ensure_ascii (unsorted o)) with (ensure_ascii o). f_equal.
    rewrite (sort_pairs_map (write_value (unsorted o) (depth + 1)) (map (fun kv => (kv.1, sort_json kv.2)) ps)), map_map.
    f_equal. apply map_ext_Forall. eapply Forall_impl; [exact IH|]. intros x Hx. cbn [fst snd]. by rewrite Hx.
Qed.

Lemma wf_sort_json `{F64Text} v : wf_json v -> wf_json (sort_json v).
Proof.
  induction v as [|b|i|d|f|s|items IH|pairs IH] using Json_nested_ind; intros Hwf; try exact Hwf.
  - apply wf_array in Hwf. cbn [sort_json]. apply wf_array. apply Forall_map. rewrite Forall_forall in *. eauto.
  - apply wf_object in Hwf as [Hnd Hwf]. cbn [sort_json]. apply wf_object.
    set (ps := map (fun kv => (kv.1, sort_json kv.2)) pairs).
    rewrite (sort_pairs_perm ps). split.
    + subst ps. by rewrite map_map.
    + subst ps. apply Forall_map. rewrite Forall_forall in *. intros x Hx. destruct (Hwf x Hx). cbn. eauto.
Qed.

(** C38: Round trip.  Whatever the options (indent, key order, escaping, any
    separators that are a comma and a colon in white space), the text the
    writer produces for a value parses back to that value, with its objects in
    key order when the keys were sorted.  Strings may hold any character,
    integers may pass [i64]; floats are those the standard library's two
    conversions treat as documented ([std_float]). *)
Theorem dumps_roundtrip `{F64Text} v o : wf_json v -> good_separators o ->
  parse (dumps v o) = Some (Ok (if sort_keys o then sort_json v else v)).
Proof.
  intros Hwf Hsep. unfold dumps.
  assert (Hread : exists o', sort_keys o' = false /\ good_separators o' /\
    write_value o 0 v = write_value o' 0 (if sort_keys o then sort_json v else v)
    /\ wf_json (if sort_keys o then sort_json v else v)).
  { destruct (sort_keys o) eqn:Hs.
    - exists (unsorted o). split_and!; [reflexivity|exact Hsep|by apply write_value_sorted|by apply wf_sort_json].
    - exists o. auto. }
  destruct Hread as (o' & Hs & Hsep' & -> & Hwf'). set (v' := if sort_keys o then sort_json v else v) in *.
  destruct (write_value_starts o' 0 v' Hwf') as (c & r & E & Hc & _).
  unfold parse. assert (skip_whitespace (write_value o' 0 v') = write_value o' 0 v') as ->.
  { rewrite E. exact (skip_white [] c r (Forall_nil_2 _) Hc). }
  pose proof (write_value_reads o' Hsep' v' Hs Hwf' (write_value o' 0 v') 0%nat [] (parse_fuel (write_value o' 0 v')) I) as Hr.
  rewrite app_nil_r in Hr. rewrite Hr by (unfold parse_fuel; lia). reflexivity.
Qed.

(** A standard library that knows one float, for the concrete instances. *)
Definition two_and_a_half : spec_float := S754_finite false 5 (-1).
Definition sample_f64 : F64Text := {| lower_exp := fun _ => lit "2.5e0"; parse_f64 := fun _ => Some two_and_a_half |}.

Lemma two_and_a_half_ok : @float_ok sample_f64 two_and_a_half.
Proof.
  split. exists 50, [53], 0. split; [reflexivity|]. split; [by repeat constructor|]. split; [done|].
  split; [simpl; lia|]. split; [lia|]. reflexivity.
Qed.

(** Nested objects out of order, escapes, a character past the BMP, an integer
    past [i64], a float. *)
Definition sample_json : Json :=
  JObject [(lit "b", JArray [JInt (-7); JBigInt (lit "9223372036854775808"); JFloat two_and_a_half]);
           (lit "a", JObject [([34; 10; 233; 128512], JNull); ([], JArray [])])].

Definition scalarb (c : Z) : bool := in_range 0 55295 c || in_range 57344 1114111 c.
Lemma scalars_decide l : forallb scalarb l = true -> Forall scalar l.
Proof.
  intros Hl. apply forallb_Forall in Hl. eapply Forall_impl; [exact Hl|]. intros c.
  unfold scalarb, in_range, scalar. lia.
Qed.

Lemma sample_json_wf : @wf_json sample_f64 sample_json.
Proof.
  apply wf_object. split; [apply (bool_decide_unpack _); vm_compute; exact I|].
  repeat (apply Forall_cons; split); try apply Forall_nil_2; (split; [by apply scalars_decide|]); cbn [snd].
  - apply wf_array. repeat (apply Forall_cons; split); try apply Forall_nil_2.
    + vm_compute. split; congruence.
    + split; [reflexivity|]. exists false, (lit "9223372036854775808"). split; [reflexivity|].
      split; [by repeat constructor|]. right. eexists _, _. split; [reflexivity|done].
    + exact two_and_a_half_ok.
  - apply wf_object. split; [apply (bool_decide_unpack _); vm_compute; exact I|].
    repeat (apply Forall_cons; split); try apply Forall_nil_2; (split; [by apply scalars_decide|exact I]).
Qed.

Lemma dumps_roundtrip_witness :
  @parse sample_f64 (@dumps sample_f64 sample_json (mkDump (Some 2%nat) true true None))
  = Some (Ok (sort_json sample_json)).
Proof.
  apply (@dumps_roundtrip sample_f64 sample_json (mkDump (Some 2%nat) true true None)).
  - exact sample_json_wf.
  - split; [exists [], []|exists [], [32]]; (split; [reflexivity|split; by repeat constructor]).
Defined.

(** A [\u] escape is read with [u32::from_str_radix], which takes a sign: the
    text of a string holding ["\u+041"] is accepted and reads as ["A"], where
    [json.loads], whose refusals the parser promises, raises an error. *)
Lemma parse_accepts_signed_escape `{F64Text} :
  parse [34; 92; 117; 43; 48; 52; 49; 34] = Some (Ok (JStr [65])).
Proof. reflexivity. Qed.
