(* ===== verification/Value.v ===== *)
(** Configuration values: the YAML tree of [agentcage-core/src/yaml/mod.rs],
    its readers in [agentcage-egress/src/config.rs] and its text in
    [agentcage-core/src/value_fmt.rs]. *)
From S2P Require Import Prelude Json.
From Stdlib Require Import SpecFloat ZifyBool.

(** * Definitions *)

Inductive Number : Type := NInt (n : Z) | NFloat (f : spec_float).
(** [Mapping] keeps its entries in insertion order, one per key. *)
Inductive Value : Type :=
| VNull
| VBool (b : bool)
| VNumber (n : Number)
| VString (s : str)
| VSequence (items : list Value)
| VMapping (entries : list (Value * Value))
| VTagged (tag : str) (v : Value).
Abbreviation Mapping := (list (Value * Value)).

Definition is_key (key : str) (v : Value) : bool :=
  match v with VString s => bool_decide (s = key) | _ => false end.
(** [Mapping::get(&str)]. *)
Fixpoint mget (m : Mapping) (key : str) : option Value :=
  match m with
  | [] => None
  | (k, v) :: r => if is_key key k then Some v else mget r key
  end.
(** [Mapping::contains_key(&str)]. *)
Definition contains_key (m : Mapping) (key : str) : bool := bool_decide (is_Some (mget m key)).
(** [Mapping::insert(Value::from(key), v)]: a present key keeps its place. *)
Fixpoint minsert (m : Mapping) (key : str) (v : Value) : Mapping :=
  match m with
  | [] => [(VString key, v)]
  | (k, w) :: r => if is_key key k then (k, v) :: r else (k, w) :: minsert r key v
  end.

Definition is_truthy (v : Value) : bool :=
  match v with
  | VNull => false
  | VBool flag => flag
  | VNumber (NInt n) => negb (n =? 0)
  | VNumber (NFloat f) => float_nonzero f
  | VString text => negb (bool_decide (text = []))
  | VSequence items => match items with [] => false | _ => true end
  | VMapping entries => match entries with [] => false | _ => true end
  | VTagged _ _ => true
  end.
(** The egress's name for it. *)
Definition truthy (v : Value) : bool := is_truthy v.

(** ** Reading a section *)

Definition get (v : Value) (key : str) : option Value :=
  match v with VMapping m => mget m key | _ => None end.
Definition section (v : Value) (key : str) : Mapping :=
  match get v key with Some (VMapping m) => m | _ => [] end.
Definition as_str (v : option Value) : option str :=
  match v with Some (VString s) => Some s | _ => None end.
Definition str_list (v : option Value) : list str :=
  match v with
  | Some (VSequence items) => omap (fun v => match v with VString s => Some s | _ => None end) items
  | _ => []
  end.

(** A loaded config document. *)
Inductive LoadError : Type := NotAMapping.
Record Config : Type := mkConfig { raw : Value }.
Definition config_from_value (v : Value) : result LoadError Config :=
  match v with
  | VNull => Ok (mkConfig (VMapping []))
  | VMapping _ => Ok (mkConfig v)
  | _ => Err NotAMapping
  end.
Definition cfg_get (c : Config) (key : str) : option Value := get (raw c) key.
Definition cfg_section (c : Config) (key : str) : Mapping := section (raw c) key.

(** ** Text *)

Definition kind_name (v : Value) : str :=
  lit (match v with
       | VNull => "NoneType"
       | VBool _ => "bool"
       | VNumber (NFloat _) => "float"
       | VNumber (NInt _) => "int"
       | VString _ => "str"
       | VSequence _ => "list"
       | VMapping _ => "dict"
       | VTagged _ _ => "object"
       end).

Definition number_text `{F64Text} (n : Number) : str :=
  match n with NInt n => show_signed n | NFloat f => format_float f end.

(** [char::is_control]: C0, DEL and C1. *)
Definition is_control (c : Z) : bool := in_range 0 31 c || in_range 127 159 c.
(** [\x{code:02x}], and [\u{code:04x}] for a larger code. *)
Definition hex2 (n : Z) : str := [hex_digit (n / 16 mod 16); hex_digit (n mod 16)].
Definition escape_control (c : Z) : str :=
  if c <=? 255 then 92 :: 120 :: hex2 c else 92 :: 117 :: hex2 (c / 256) ++ hex2 (c mod 256).

Definition quote_char (quote c : Z) : str :=
  if c =? 92 then [92; 92]
  else if c =? 10 then [92; 110]
  else if c =? 13 then [92; 114]
  else if c =? 9 then [92; 116]
  else if c =? quote then [92; c]
  else if is_control c then escape_control c
  else [c].
Definition chosen_quote (text : str) : Z :=
  if bool_decide (39 ∈ text) && negb (bool_decide (34 ∈ text)) then 34 else 39.
Definition quote_text (text : str) : str :=
  let quote := chosen_quote text in quote :: flat_map (quote_char quote) text ++ [quote].

Fixpoint display_value `{F64Text} (v : Value) : str :=
  match v with
  | VNull => lit "None"
  | VBool true => lit "True"
  | VBool false => lit "False"
  | VNumber n => number_text n
  | VString text => quote_text text
  | VSequence items => [91] ++ sep_concat (lit ", ") (map display_value items) ++ [93]
  | VMapping entries =>
      [123] ++ sep_concat (lit ", ")
        (map (fun kv => display_value kv.1 ++ lit ": " ++ display_value kv.2) entries) ++ [125]
  | VTagged tag _ => tag
  end.
Definition coerce_to_string `{F64Text} (v : Value) : str :=
  match v with VString text => text | other => display_value other end.

(** * Lemmas *)

Lemma is_key_spec key v : is_key key v = true <-> v = VString key.
Proof.
  destruct v; simpl; try (split; intros; discriminate). rewrite bool_decide_eq_true.
  split; [by intros ->|by intros [= ->]].
Qed.

Lemma mget_minsert m key v : mget (minsert m key v) key = Some v.
Proof.
  induction m as [|[k w] m IH]; cbn [minsert mget is_key]; [by rewrite bool_decide_eq_true_2|].
  destruct (is_key key k) eqn:E; cbn [mget]; by rewrite E.
Qed.

Lemma mget_minsert_ne m key key' v : key <> key' -> mget (minsert m key v) key' = mget m key'.
Proof.
  intros Hne. induction m as [|[k w] m IH]; cbn [minsert mget is_key].
  - by rewrite bool_decide_eq_false_2.
  - destruct (is_key key k) eqn:E; cbn [mget].
    + apply is_key_spec in E as ->. cbn [is_key]. by rewrite !bool_decide_eq_false_2.
    + by rewrite IH.
Qed.

(** ** The quoted literal reads back *)

Definition unhex (c : Z) : Z := if c <? 97 then c - 48 else c - 87.
(** A reader of the quoted literals: what the escapes mean. *)
Fixpoint unquote (quote : Z) (fuel : nat) (l : str) : option str :=
  match fuel with
  | O => None
  | S f =>
      match l with
      | [] => None
      | c :: r =>
          if c =? quote then match r with [] => Some [] | _ => None end
          else if c =? 92 then
            match r with
            | e :: r =>
                if e =? 110 then cons 10 <$> unquote quote f r
                else if e =? 114 then cons 13 <$> unquote quote f r
                else if e =? 116 then cons 9 <$> unquote quote f r
                else if e =? 120 then
                  match r with
                  | a :: b :: r => cons (unhex a * 16 + unhex b) <$> unquote quote f r
                  | _ => None
                  end
                else cons e <$> unquote quote f r
            | [] => None
            end
          else cons c <$> unquote quote f r
      end
  end.

Lemma unquote_char quote c f r : quote = 34 \/ quote = 39 ->
  unquote quote (S f) (quote_char quote c ++ r) = cons c <$> unquote quote f r.
Proof.
  intros Hq. unfold quote_char.
  destruct (Z.eqb_spec c 92) as [->|H1]; [by destruct Hq as [-> | ->]|].
  destruct (Z.eqb_spec c 10) as [->|H2]; [by destruct Hq as [-> | ->]|].
  destruct (Z.eqb_spec c 13) as [->|H3]; [by destruct Hq as [-> | ->]|].
  destruct (Z.eqb_spec c 9) as [->|H4]; [by destruct Hq as [-> | ->]|].
  destruct (Z.eqb_spec c quote) as [->|H5]; [by destruct Hq as [-> | ->]|].
  destruct (is_control c) eqn:Ec.
  - unfold is_control, in_range in Ec. unfold escape_control. rewrite (proj2 (Z.leb_le _ _)) by lia.
    unfold hex2. cbn [app unquote]. replace (92 =? quote) with false by lia.
    cbn [Z.eqb Pos.eqb]. do 2 f_equal. unfold unhex, hex_digit.
    pose proof (Z.div_mod c 16 ltac:(lia)). pose proof (Z.mod_pos_bound c 16 ltac:(lia)).
    rewrite (Z.mod_small (c / 16) 16) by (split; [apply Z.div_pos|apply Z.div_lt_upper_bound]; lia).
    assert (0 <= c / 16 < 10) by (split; [apply Z.div_pos|apply Z.div_lt_upper_bound]; lia).
    rewrite (proj2 (Z.ltb_lt (c / 16) 10)), (proj2 (Z.ltb_lt (48 + c / 16) 97)) by lia.
    destruct (c mod 16 <? 10) eqn:E; [rewrite (proj2 (Z.ltb_lt _ 97))|rewrite (proj2 (Z.ltb_ge _ 97))]; lia.
  - cbn [app unquote]. by rewrite (proj2 (Z.eqb_neq c quote)), (proj2 (Z.eqb_neq c 92)) by assumption.
Qed.

Lemma unquote_text quote text fuel : quote = 34 \/ quote = 39 -> (length text < fuel)%nat ->
  unquote quote fuel (flat_map (quote_char quote) text ++ [quote]) = Some text.
Proof.
  intros Hq. revert fuel. induction text as [|c text IH]; intros [|f] Hf; simpl in Hf; try lia.
  - cbn [flat_map app unquote]. by rewrite Z.eqb_refl.
  - cbn [flat_map]. rewrite <- app_assoc, unquote_char by exact Hq. rewrite IH by lia. reflexivity.
Qed.

Definition read_quoted (s : str) : option str :=
  match s with q :: r => unquote q (length r) r | [] => None end.

Lemma chosen_quote_cases text : chosen_quote text = 34 \/ chosen_quote text = 39.
Proof. unfold chosen_quote. destruct (_ && _); auto. Qed.

Lemma hex_digit_plain n : 0 <= n < 16 -> is_control (hex_digit n) = false.
Proof. intros Hn. unfold is_control, in_range, hex_digit. destruct (n <? 10) eqn:?; lia. Qed.

Lemma quote_char_plain quote c : quote = 34 \/ quote = 39 ->
  Forall (fun c => is_control c = false) (quote_char quote c).
Proof.
  intros Hq. unfold quote_char.
  destruct (c =? 92); [by repeat constructor|]. destruct (c =? 10); [by repeat constructor|].
  destruct (c =? 13); [by repeat constructor|]. destruct (c =? 9); [by repeat constructor|].
  destruct (Z.eqb_spec c quote) as [->|_]; [destruct Hq as [-> | ->]; by repeat constructor|].
  destruct (is_control c) eqn:Ec; [|by repeat constructor].
  assert (Hh : forall n, is_control (hex_digit (n mod 16)) = false)
    by (intros n; apply hex_digit_plain, Z.mod_pos_bound; lia).
  unfold escape_control, hex2. destruct (c <=? 255); cbn [app]; repeat (apply Forall_cons; split); auto.
Qed.

Lemma quote_text_length quote text : (length text <= length (flat_map (quote_char quote) text))%nat.
Proof.
  induction text as [|c text IH]; simpl; [lia|]. rewrite length_app.
  assert (1 <= length (quote_char quote c))%nat; [|lia].
  unfold quote_char, escape_control. repeat case_match; simpl; lia.
Qed.

(** A text written as a quoted literal, as every message and audit
    reason does with a text it did not choose, contains no control character
    (so it cannot break a log line), and the literal determines the text:
    reading its escapes back gives the text, whatever it contains. *)
Theorem quote_text_safe text :
  Forall (fun c => is_control c = false) (quote_text text) /\ read_quoted (quote_text text) = Some text.
Proof.
  pose proof (chosen_quote_cases text) as Hq. unfold quote_text. cbv zeta. split.
  - apply Forall_cons. split; [by destruct Hq as [-> | ->]|]. apply Forall_app. split.
    + apply Forall_flat_map, Forall_forall. intros c _. by apply quote_char_plain.
    + apply Forall_singleton. by destruct Hq as [-> | ->].
  - cbn [read_quoted]. apply unquote_text; [exact Hq|]. rewrite length_app. simpl.
    pose proof (quote_text_length (chosen_quote text) text). lia.
Qed.
