(* ===== verification/Inspect.v ===== *)
(** The inspector contract and the chain runner: the model of
    [agentcage-egress/src/inspect/mod.rs]. *)
From S2P Require Import Prelude Json.
From Stdlib Require Import SpecFloat.

(** * Definitions *)

Inductive Action : Type := Block | Flag.
#[export] Instance Action_eq_dec : EqDecision Action.
Proof. solve_decision. Defined.
Definition action_as_str (a : Action) : str := lit (match a with Block => "block" | Flag => "flag" end).

Inductive Severity : Type := Debug_ | Info_ | Warning_ | Error_ | Critical_.
#[export] Instance Severity_eq_dec : EqDecision Severity.
Proof. solve_decision. Defined.
Definition severity_as_str (s : Severity) : str :=
  lit (match s with
       | Debug_ => "debug" | Info_ => "info" | Warning_ => "warning" | Error_ => "error" | Critical_ => "critical"
       end).
Definition severity_parse (text : str) : option Severity :=
  if bool_decide (text = lit "debug") then Some Debug_
  else if bool_decide (text = lit "info") then Some Info_
  else if bool_decide (text = lit "warning") then Some Warning_
  else if bool_decide (text = lit "error") then Some Error_
  else if bool_decide (text = lit "critical") then Some Critical_
  else None.

Record Verdict : Type := mkVerdict {
  inspector : str; action : Action; reason : str; severity : Severity; metadata : list (str * Json)
}.
Definition new_verdict (inspector : str) (action : Action) (reason : str) (severity : Severity) : Verdict :=
  mkVerdict inspector action reason severity [].

Inductive Phase : Type := Request | Response.
Inductive Direction : Type := Outbound | Inbound.

Record Context : Type := mkContext {
  url : str; host : str; method : str; headers : list (str * str); content_type : str;
  body_bytes : option bytes; body_text : option str; body_size : Z; body_entropy : option spec_float;
  prior_results : list Verdict; direction : Direction; websocket : bool
}.
Definition set_prior (c : Context) (prior : list Verdict) : Context :=
  mkContext (url c) (host c) (method c) (headers c) (content_type c) (body_bytes c) (body_text c)
    (body_size c) (body_entropy c) prior (direction c) (websocket c).

(** The trait.  Its two default methods are [no_response]: no verdict, and
    nothing to inspect. *)
Record Inspector : Type := mkInspector {
  name : str;
  inspect_request : Context -> option Verdict;
  inspect_response : Context -> option Verdict;
  inspects_responses : bool
}.
Definition request_inspector (name : str) (f : Context -> option Verdict) : Inspector :=
  mkInspector name f (fun _ => None) false.

Definition ask (phase : Phase) (i : Inspector) (ctx : Context) : option Verdict :=
  match phase with Request => inspect_request i ctx | Response => inspect_response i ctx end.
Definition is_block (v : Verdict) : bool := match action v with Block => true | Flag => false end.

(** [run_chain]: the verdicts, and the context with them appended. *)
Fixpoint run_chain (inspectors : list Inspector) (ctx : Context) (phase : Phase) (skip : Inspector -> bool)
  : list Verdict * Context :=
  match inspectors with
  | [] => ([], ctx)
  | i :: rest =>
      if skip i then run_chain rest ctx phase skip
      else
        match ask phase i ctx with
        | None => run_chain rest ctx phase skip
        | Some verdict =>
            let ctx := set_prior ctx (prior_results ctx ++ [verdict]) in
            if is_block verdict then ([verdict], ctx)
            else let '(results, ctx) := run_chain rest ctx phase skip in (verdict :: results, ctx)
        end
  end.

(** * Theorems *)

(** The chain was ended by a block. *)
Definition blocked (results : list Verdict) : bool := existsb is_block results.

Lemma blocked_app a b : blocked (a ++ b) = blocked a || blocked b.
Proof. apply existsb_app. Qed.
Lemma set_prior_prior c p : prior_results (set_prior c p) = p.
Proof. reflexivity. Qed.
Lemma set_prior_twice c p q : set_prior (set_prior c p) q = set_prior c q.
Proof. reflexivity. Qed.
Lemma set_prior_same c : set_prior c (prior_results c) = c.
Proof. by destruct c. Qed.

Lemma run_chain_context l ctx phase skip :
  (run_chain l ctx phase skip).2 = set_prior ctx (prior_results ctx ++ (run_chain l ctx phase skip).1).
Proof.
  revert ctx. induction l as [|i l IH]; intros ctx; cbn [run_chain fst snd].
  { rewrite app_nil_r. symmetry. apply set_prior_same. }
  destruct (skip i); [apply IH|]. destruct (ask phase i ctx) as [v|]; [|apply IH].
  cbv zeta. destruct (is_block v); [reflexivity|].
  specialize (IH (set_prior ctx (prior_results ctx ++ [v]))).
  destruct (run_chain l _ phase skip) as [results ctx']. cbn [fst snd] in *.
  rewrite IH, set_prior_prior, set_prior_twice, <- app_assoc. reflexivity.
Qed.

Lemma run_chain_flags l ctx phase skip :
  Forall (fun v => action v = Flag) (removelast (run_chain l ctx phase skip).1).
Proof.
  revert ctx. induction l as [|i l IH]; intros ctx; cbn [run_chain fst]; [constructor|].
  destruct (skip i); [apply IH|]. destruct (ask phase i ctx) as [v|]; [|apply IH].
  cbv zeta. destruct (is_block v) eqn:Eb; [constructor|].
  specialize (IH (set_prior ctx (prior_results ctx ++ [v]))).
  destruct (run_chain l _ phase skip) as [results ctx']. cbn [fst] in *.
  destruct results as [|w results]; [constructor|].
  change (removelast (v :: w :: results)) with (v :: removelast (w :: results)).
  constructor; [|exact IH]. unfold is_block in Eb. by destruct (action v).
Qed.

Lemma run_chain_app l1 l2 ctx phase skip :
  run_chain (l1 ++ l2) ctx phase skip =
  let '(r1, c1) := run_chain l1 ctx phase skip in
  if blocked r1 then (r1, c1)
  else let '(r2, c2) := run_chain l2 c1 phase skip in (r1 ++ r2, c2).
Proof.
  revert ctx. induction l1 as [|i l1 IH]; intros ctx; cbn [run_chain app].
  { by destruct (run_chain l2 ctx phase skip). }
  destruct (skip i); [apply IH|]. destruct (ask phase i ctx) as [v|]; [|apply IH].
  cbv zeta. destruct (is_block v) eqn:Eb; [cbn [blocked existsb]; by rewrite Eb|].
  rewrite IH. destruct (run_chain l1 _ phase skip) as [r1 c1].
  unfold blocked. cbn [existsb]. rewrite Eb. cbn [orb].
  destruct (existsb is_block r1); [reflexivity|]. by destruct (run_chain l2 c1 phase skip).
Qed.

Lemma run_chain_skip l ctx phase skip :
  run_chain l ctx phase skip = run_chain (List.filter (fun i => negb (skip i)) l) ctx phase (fun _ => false).
Proof.
  revert ctx. induction l as [|i l IH]; intros ctx; cbn [run_chain List.filter]; [reflexivity|].
  destruct (skip i); cbn [negb]; [apply IH|]. cbn [run_chain]. destruct (ask phase i ctx) as [v|]; [|apply IH].
  cbv zeta. destruct (is_block v); [reflexivity|]. by rewrite IH.
Qed.

(** The chain runner.  Only the last verdict returned can be a block; the
    verdicts are appended to the context's prior results and nothing else of it
    changes; a skipped inspector has no effect at all; and for any cut of the
    chain, the part after the cut is asked, with the verdicts of the part
    before already among the prior results, exactly when that part did not
    block.  So the chain blocks exactly when some inspector, reached with only
    flags before it, answers a block. *)
Theorem run_chain_spec phase skip ctx l1 i l2 :
  Forall (fun v => action v = Flag) (removelast (run_chain (l1 ++ i :: l2) ctx phase skip).1) /\
  (run_chain (l1 ++ i :: l2) ctx phase skip).2
    = set_prior ctx (prior_results ctx ++ (run_chain (l1 ++ i :: l2) ctx phase skip).1) /\
  (skip i = true -> run_chain (l1 ++ i :: l2) ctx phase skip = run_chain (l1 ++ l2) ctx phase skip) /\
  let '(r1, c1) := run_chain l1 ctx phase skip in
  if blocked r1 then run_chain (l1 ++ i :: l2) ctx phase skip = (r1, c1)
  else skip i = false ->
    match ask phase i c1 with
    | Some v => if is_block v then (run_chain (l1 ++ i :: l2) ctx phase skip).1 = r1 ++ [v]
                else (run_chain (l1 ++ i :: l2) ctx phase skip).1
                     = r1 ++ v :: (run_chain l2 (set_prior ctx (prior_results ctx ++ r1 ++ [v])) phase skip).1
    | None => (run_chain (l1 ++ i :: l2) ctx phase skip).1 = r1 ++ (run_chain l2 c1 phase skip).1
    end.
Proof.
  split; [apply run_chain_flags|]. split; [apply run_chain_context|]. split.
  { intros Hs. rewrite !run_chain_app. cbn [run_chain]. by rewrite Hs. }
  pose proof (run_chain_context l1 ctx phase skip) as Hc. rewrite run_chain_app.
  destruct (run_chain l1 ctx phase skip) as [r1 c1]. cbn [fst snd] in Hc.
  destruct (blocked r1); [reflexivity|]. intros Hs. cbn [run_chain]. rewrite Hs.
  destruct (ask phase i c1) as [v|]; cbv zeta.
  - destruct (is_block v); [reflexivity|].
    assert (Hp : set_prior c1 (prior_results c1 ++ [v]) = set_prior ctx (prior_results ctx ++ r1 ++ [v]))
      by (rewrite Hc, set_prior_prior, set_prior_twice, <- app_assoc; reflexivity).
    rewrite Hp. by destruct (run_chain l2 _ phase skip).
  - by destruct (run_chain l2 c1 phase skip).
Qed.

Lemma run_chain_spec_witness :
  (run_chain ([request_inspector (lit "a") (fun c => Some (new_verdict (lit "a") Flag [] Info_))]
              ++ request_inspector (lit "b") (fun _ => None) :: [])
     (mkContext [] [] [] [] [] None None 0 None [] Outbound false) Request (fun i => bool_decide (name i = lit "b"))).1
  = [new_verdict (lit "a") Flag [] Info_].
Proof.
  destruct (run_chain_spec Request (fun i => bool_decide (name i = lit "b"))
    (mkContext [] [] [] [] [] None None 0 None [] Outbound false)
    [request_inspector (lit "a") (fun c => Some (new_verdict (lit "a") Flag [] Info_))]
    (request_inspector (lit "b") (fun _ => None)) []) as (_ & _ & H & _).
  rewrite H; reflexivity.
Defined.
