(* ===== verification/IndexMap.v ===== *)
(** Insertion-ordered maps with string keys: what the program uses of the
    [indexmap] crate's [IndexMap]. *)
From S2P Require Import Prelude.

(** * Definitions *)

Section IndexMap.
Context {A : Type}.
Implicit Types (m : list (str * A)) (k : str).

Fixpoint im_get m k : option A :=
  match m with
  | [] => None
  | (k', v) :: r => if bool_decide (k' = k) then Some v else im_get r k
  end.
Definition im_contains m k : bool := bool_decide (is_Some (im_get m k)).
(** A present key keeps its place and takes the new value. *)
Fixpoint im_insert m k (v : A) : list (str * A) :=
  match m with
  | [] => [(k, v)]
  | (k', w) :: r => if bool_decide (k' = k) then (k', v) :: r else (k', w) :: im_insert r k v
  end.
(** [shift_remove]: the order of the others is kept. *)
Definition im_remove m k : list (str * A) := List.filter (fun e => negb (bool_decide (e.1 = k))) m.
Definition im_retain (f : str -> A -> bool) m : list (str * A) := List.filter (fun e => f e.1 e.2) m.
Definition im_keys m : list str := map fst m.

(** * Lemmas *)

Lemma im_get_elem m k v : im_get m k = Some v -> (k, v) ∈ m.
Proof.
  induction m as [|[k' w] m IH]; cbn [im_get]; [discriminate|]. case_bool_decide; [|set_solver].
  intros [= <-]. subst. set_solver.
Qed.

Lemma im_get_in m k v : NoDup (im_keys m) -> (k, v) ∈ m -> im_get m k = Some v.
Proof.
  induction m as [|[k' w] m IH]; cbn [im_get im_keys map fst]; [set_solver|].
  intros [Hk Hn]%NoDup_cons [E|Hin]%elem_of_cons.
  - injection E as -> ->. by rewrite bool_decide_eq_true_2.
  - rewrite bool_decide_eq_false_2; [by apply IH|]. intros ->. apply Hk.
    unfold im_keys. apply list_elem_of_In, in_map_iff. exists (k, v). by rewrite <- list_elem_of_In.
Qed.

Lemma im_get_keys m k : is_Some (im_get m k) <-> k ∈ im_keys m.
Proof.
  induction m as [|[k' w] m IH]; cbn [im_get im_keys map fst].
  { split; [by intros [? ?]|set_solver]. }
  case_bool_decide as E.
  - split; [intros _; set_solver|eauto].
  - unfold im_keys in IH. rewrite elem_of_cons, <- IH. naive_solver.
Qed.

Lemma im_contains_keys m k : im_contains m k = true <-> k ∈ im_keys m.
Proof. unfold im_contains. rewrite bool_decide_eq_true. apply im_get_keys. Qed.

Lemma im_get_none m k : k ∉ im_keys m -> im_get m k = None.
Proof. intros Hk. destruct (im_get m k) eqn:E; [|reflexivity]. destruct Hk. apply im_get_keys. eauto. Qed.

Lemma im_insert_get m k v : im_get (im_insert m k v) k = Some v.
Proof.
  induction m as [|[k' w] m IH]; cbn [im_insert im_get]; [by rewrite bool_decide_eq_true_2|].
  case_bool_decide as E; cbn [im_get]; [by rewrite bool_decide_eq_true_2|by rewrite bool_decide_eq_false_2].
Qed.

Lemma im_insert_get_ne m k k' v : k <> k' -> im_get (im_insert m k v) k' = im_get m k'.
Proof.
  intros Hne. induction m as [|[k2 w] m IH]; cbn [im_insert im_get]; [by rewrite bool_decide_eq_false_2|].
  case_bool_decide as E; cbn [im_get].
  - subst. by rewrite !bool_decide_eq_false_2.
  - by rewrite IH.
Qed.

Lemma im_insert_keys m k v :
  im_keys (im_insert m k v) = if im_contains m k then im_keys m else im_keys m ++ [k].
Proof.
  unfold im_contains. induction m as [|[k' w] m IH]; cbn [im_insert im_get im_keys map fst]; [reflexivity|].
  destruct (bool_decide (k' = k)); cbn [im_keys map fst].
  - rewrite bool_decide_eq_true_2; [reflexivity|by eexists].
  - unfold im_keys in IH. rewrite IH. by destruct (bool_decide (is_Some (im_get m k))).
Qed.

Lemma im_insert_nodup m k v : NoDup (im_keys m) -> NoDup (im_keys (im_insert m k v)).
Proof.
  intros Hn. rewrite im_insert_keys. destruct (im_contains m k) eqn:E; [exact Hn|].
  rewrite Permutation_app_comm. constructor; [|exact Hn].
  intros Hin. apply im_contains_keys in Hin. congruence.
Qed.

Lemma im_retain_get f m k : NoDup (im_keys m) ->
  im_get (im_retain f m) k = match im_get m k with Some v => if f k v then Some v else None | None => None end.
Proof.
  unfold im_retain. induction m as [|[k' w] m IH]; intros Hn; cbn [im_get List.filter fst snd]; [reflexivity|].
  apply NoDup_cons in Hn as [Hk Hn]. specialize (IH Hn). case_bool_decide as E.
  - subst k'. destruct (f k w); cbn [im_get]; [by rewrite bool_decide_eq_true_2|].
    rewrite IH. by rewrite (im_get_none m k Hk).
  - destruct (f k' w); cbn [im_get]; [by rewrite bool_decide_eq_false_2|exact IH].
Qed.

Lemma filter_keys_sub (f : str * A -> bool) m : NoDup (im_keys m) -> NoDup (im_keys (List.filter f m)).
Proof.
  induction m as [|e m IH]; intros Hn; cbn [List.filter]; [constructor|].
  cbn [im_keys map] in Hn. apply NoDup_cons in Hn as [Hk Hn]. destruct (f e); [|auto].
  cbn [im_keys map]. constructor; [|auto]. intros Hin. apply Hk.
  unfold im_keys in *. apply list_elem_of_In in Hin. apply list_elem_of_In.
  apply in_map_iff in Hin as (x & Ex & Hx). apply filter_In in Hx as [Hx _]. apply in_map_iff. eauto.
Qed.

Lemma im_remove_get m k k' : NoDup (im_keys m) ->
  im_get (im_remove m k) k' = if bool_decide (k' = k) then None else im_get m k'.
Proof.
  intros Hn. change (im_remove m k) with (im_retain (fun k' _ => negb (bool_decide (k' = k))) m).
  rewrite im_retain_get by exact Hn. case_bool_decide; cbn; by destruct (im_get m k').
Qed.

Lemma im_insert_fresh m k v : im_contains m k = false -> im_insert m k v = m ++ [(k, v)].
Proof.
  intros Hk. assert (Hn : k ∉ im_keys m) by (rewrite <- im_contains_keys; congruence). clear Hk.
  induction m as [|[k' w] m IH]; [reflexivity|]. cbn [im_insert im_keys map fst] in *.
  rewrite bool_decide_eq_false_2 by set_solver. rewrite IH by set_solver. reflexivity.
Qed.

Lemma im_keys_app m1 m2 : im_keys (m1 ++ m2) = im_keys m1 ++ im_keys m2.
Proof. apply map_app. Qed.

Lemma im_get_app m1 m2 k v : im_get m1 k = Some v -> im_get (m1 ++ m2) k = Some v.
Proof.
  induction m1 as [|[k' w] m1 IH]; [discriminate|]. cbn [im_get app]. case_bool_decide; [done|exact IH].
Qed.

Lemma im_contains_app m1 m2 k : im_contains (m1 ++ m2) k = im_contains m1 k || im_contains m2 k.
Proof.
  apply eq_bool_prop_intro. rewrite !Is_true_true, orb_true_iff, !im_contains_keys, im_keys_app. set_solver.
Qed.

(** Inserting the entries of a second map that the first lacks appends them. *)
Lemma im_merge_missing m new : NoDup (im_keys new) ->
  fold_left (fun g e => if negb (im_contains g e.1) then im_insert g e.1 e.2 else g) new m
  = m ++ List.filter (fun e => negb (im_contains m e.1)) new.
Proof.
  revert m. induction new as [|[k v] new IH]; intros m Hn; cbn [fold_left List.filter fst snd]; [by rewrite app_nil_r|].
  cbn [im_keys map fst] in Hn. apply NoDup_cons in Hn as [Hk Hn].
  destruct (im_contains m k) eqn:E; cbn [negb]; [by apply IH|].
  rewrite (im_insert_fresh _ _ _ E), IH by exact Hn. rewrite <- app_assoc. cbn [app]. do 2 f_equal.
  apply filter_ext_in. intros [k' v'] Hin. cbn [fst]. f_equal. rewrite im_contains_app.
  destruct (im_contains [(k, v)] k') eqn:E'; [|by rewrite orb_false_r].
  apply im_contains_keys in E'. unfold im_keys in E'. cbn in E'. assert (k' = k) as -> by set_solver.
  destruct Hk. unfold im_keys. apply list_elem_of_In, in_map_iff. by exists (k, v').
Qed.

Lemma im_retain_keys (f : str -> bool) m : im_keys (im_retain (fun k _ => f k) m) = List.filter f (im_keys m).
Proof.
  unfold im_keys, im_retain. induction m as [|[k v] m IH]; [reflexivity|]. cbn [List.filter map fst].
  destruct (f k); cbn [map fst]; by rewrite IH.
Qed.

Lemma im_remove_keys m k : im_keys (im_remove m k) = List.filter (fun k' => negb (bool_decide (k' = k))) (im_keys m).
Proof.
  unfold im_keys, im_remove. induction m as [|[k' v] m IH]; [reflexivity|]. cbn [List.filter map fst].
  destruct (negb _); cbn [map fst]; by rewrite IH.
Qed.
End IndexMap.
