(* ===== verification/DomainInspector.v ===== *)
(** The domain inspector: the model of [agentcage-egress/src/inspect/domain.rs],
    with the baseline, the live grants and their expiries, and of the DNS list
    of [agentcage-egress/src/policy/overlay.rs]. *)
From S2P Require Import Prelude Domain IndexMap Timestamp Json Value Inspect.
From Stdlib Require Import SpecFloat.

(** * Definitions *)

Definition NAME : str := lit "domain".
Definition DEFAULT_GRANT_SOURCE : str := lit "policy-hook".
Definition ALLOWLIST : str := lit "allowlist".
Definition BLOCKLIST : str := lit "blocklist".

(** The baseline: a sorted set of names, and the expiry of each. *)
Record DomainConfig : Type := mkDomainConfig {
  mode : option str; baseline : gset str; expires : gmap str str
}.
Definition default_config : DomainConfig := mkDomainConfig None ∅ ∅.

Record State : Type := mkState { config : DomainConfig; granted : list (str * Mapping) }.
(** [DomainInspector::new]. *)
Definition new_state : State := mkState default_config [].

Section Inspector.
Context `{Unicode} `{F64Text}.

Definition normalise (domain : str) : str := trim_end_matches 46 (to_lowercase domain).

Definition lowered_list (map_ : Mapping) (key : str) : result str (gset str) :=
  match mget map_ key with
  | Some (VSequence items) =>
      let! l := collect (map (fun v => match v with
                                       | VString s => Ok (to_lowercase s)
                                       | _ => Err (lit "domains." ++ key ++ lit " entries must be strings")
                                       end) items) in
      Ok (list_to_set l)
  | _ => Err (lit "domains." ++ key ++ lit " must be a list of domain names")
  end.

(** The two shapes of [expires:]. *)
Definition add_expiry (d x : Value) (m : gmap str str) : gmap str str :=
  if truthy d && truthy x then <[normalise (coerce_to_string d) := coerce_to_string x]> m else m.
Definition parse_expires (v : option Value) : gmap str str :=
  match v with
  | Some (VMapping raw) => fold_left (fun m kv => add_expiry kv.1 kv.2 m) raw ∅
  | Some (VSequence raw) =>
      fold_left (fun m e => match e with
                            | VMapping e =>
                                match mget e (lit "domain"), mget e (lit "expires_at") with
                                | Some d, Some x => add_expiry d x m
                                | _, _ => m
                                end
                            | _ => m
                            end) raw ∅
  | _ => ∅
  end.

Definition parse (section : Value) : result str DomainConfig :=
  let! map_ := match section with
               | VNull => Ok []
               | VMapping m => Ok m
               | other => Err (lit "domain inspector config must be a mapping (got " ++ kind_name other ++ lit ")")
               end in
  let! (mode, baseline) :=
    (if contains_key map_ (lit "allow") then
       let! l := lowered_list map_ (lit "allow") in Ok (Some ALLOWLIST, l)
     else if contains_key map_ (lit "block") then
       let! l := lowered_list map_ (lit "block") in Ok (Some BLOCKLIST, l)
     else
       let! mode := match mget map_ (lit "mode") with
                    | None | Some VNull => Ok None
                    | Some (VString s) => Ok (Some s)
                    | Some other => Err (lit "domains.mode must be a string (got " ++ kind_name other ++ lit ")")
                    end in
       let! baseline := (if contains_key map_ (lit "list") then lowered_list map_ (lit "list") else Ok ∅) in
       Ok (mode, baseline)) in
  Ok (mkDomainConfig mode baseline (parse_expires (mget map_ (lit "expires")))).

(** Every suffix of [host] after a dot, longest first, the host itself before. *)
Fixpoint after_dots (host : str) : list str :=
  match host with
  | [] => []
  | c :: r => if c =? 46 then r :: after_dots r else after_dots r
  end.
Definition suffixes (host : str) : list str := host :: after_dots host.

Definition entry_expiry (entry : Mapping) : str :=
  match mget entry (lit "expires_at") with
  | Some v => if truthy v then coerce_to_string v else []
  | None => []
  end.

Definition expiry_in_future (exp : str) (now : Timestamp) : option bool :=
  match parse_iso_aware (as_bytes exp) with
  | Some (ts, true) => Some (ts_gtb ts now)
  | _ => None
  end.

Definition is_allowlist (st : State) : bool := bool_decide (mode (config st) = Some ALLOWLIST).

Definition in_domain_set (st : State) (suffix : str) : bool :=
  bool_decide (suffix ∈ baseline (config st)) || (is_allowlist st && im_contains (granted st) suffix).

Definition matches (st : State) (host : str) : bool :=
  existsb (in_domain_set st) (suffixes (to_lowercase host)).

(** The expiry [matched_expired] looks at for a matching suffix. *)
Definition entry_exp (st : State) (suffix : str) : str :=
  let exp := default [] (expires (config st) !! suffix) in
  if bool_decide (exp = []) then
    match im_get (granted st) suffix with Some entry => entry_expiry entry | None => exp end
  else exp.
Fixpoint matched_expired_loop (st : State) (now : Timestamp) (l : list str) (expired_longest : option str)
  : option str :=
  match l with
  | [] => expired_longest
  | suffix :: rest =>
      if negb (in_domain_set st suffix) then matched_expired_loop st now rest expired_longest
      else
        let exp := entry_exp st suffix in
        if bool_decide (exp = []) then None
        else
          match expiry_in_future exp now with
          | Some false =>
              matched_expired_loop st now rest
                (match expired_longest with None => Some suffix | some => some end)
          | Some true | None => None
          end
  end.
Definition matched_expired_at (st : State) (host : str) (now : Timestamp) : option str :=
  matched_expired_loop st now (suffixes (to_lowercase host)) None.

Definition matches_baseline (st : State) (host : str) : bool :=
  existsb (fun s => bool_decide (s ∈ baseline (config st))) (suffixes (normalise host)).

Definition inspect_host_at (st : State) (host : str) (now : Timestamp) : option Verdict :=
  let block reason := Some (new_verdict NAME Block reason Error_) in
  let other := block (lit "no domain allowlist configured (default-deny): " ++ host) in
  match mode (config st) with
  | Some m =>
      if bool_decide (m = ALLOWLIST) then
        if negb (matches st host) then block (lit "domain not in allowlist: " ++ host)
        else match matched_expired_at st host now with
             | Some expired =>
                 block (lit "domain allowlist entry expired: " ++ expired
                        ++ lit " (was allowed until its TTL elapsed)")
             | None => None
             end
      else if bool_decide (m = BLOCKLIST) then
        if matches st host then block (lit "domain in blocklist: " ++ host) else None
      else other
  | None => other
  end.
(** [impl Inspector for DomainInspector], at the time of the call. *)
Definition domain_inspector (st : State) (now : Timestamp) : Inspect.Inspector :=
  request_inspector NAME (fun ctx => inspect_host_at st (Inspect.host ctx) now).

(** ** Configuration *)

Definition apply_config (st : State) (c : DomainConfig) : State := mkState c (granted st).
Definition configure (st : State) (section : Value) : result str State :=
  let! c := parse section in Ok (apply_config st c).
Definition from_config (section : Value) : result str State := configure new_state section.

(** ** Grants *)

Definition grant_entry (d granted_at expires_at reason source : str) : Mapping :=
  fold_left (fun entry kv => minsert entry (lit kv.1) (VString kv.2))
    [("domain"%string, d); ("granted_at"%string, granted_at); ("expires_at"%string, expires_at);
     ("reason"%string, reason); ("source"%string, source)] [].
Definition grant_at (st : State) (domain expires_at reason source granted_at : str) : State * bool :=
  if negb (is_allowlist st) then (st, false)
  else
    let d := normalise domain in
    if bool_decide (d = []) then (st, false)
    else
      let source := if bool_decide (source = []) then DEFAULT_GRANT_SOURCE else source in
      (mkState (config st) (im_insert (granted st) d (grant_entry d granted_at expires_at reason source)), true).
Definition insert_raw_grant (st : State) (domain : str) (entry : Mapping) : State :=
  mkState (config st) (im_insert (granted st) domain entry).
Definition revoke (st : State) (domain : str) : State * bool :=
  (mkState (config st) (im_remove (granted st) (normalise domain)),
   im_contains (granted st) (normalise domain)).
Definition is_granted (st : State) (domain : str) : bool := im_contains (granted st) (normalise domain).
Definition grant_count (st : State) : nat := length (granted st).

Definition is_grant_only (st : State) (host : str) : bool :=
  let host := normalise host in
  if existsb (fun s => bool_decide (s ∈ baseline (config st))) (suffixes host) then false
  else existsb (fun s => im_contains (granted st) s) (suffixes host).

Definition baseline_contains (st : State) (suffix : str) : bool := bool_decide (suffix ∈ baseline (config st)).
Definition baseline_expiry (st : State) (suffix : str) : str := default [] (expires (config st) !! suffix).
Definition baseline_active_covers_at (st : State) (domain : str) (now : Timestamp) : bool :=
  if negb (matches_baseline st domain) then false
  else existsb (fun s =>
         if negb (bool_decide (s ∈ baseline (config st))) then false
         else match expires (config st) !! s with
              | None => true
              | Some exp => default true (expiry_in_future exp now)
              end) (suffixes domain).

(** The order of [&str]s is that of their bytes, which is that of their
    characters. *)
Definition lapsed (now_iso : str) (entry : Mapping) : bool :=
  negb (bool_decide (entry_expiry entry = [])) && str_leb (entry_expiry entry) now_iso.
Definition drop_expired_at (st : State) (now_iso : str) : State * list str :=
  (mkState (config st) (im_retain (fun _ entry => negb (lapsed now_iso entry)) (granted st)),
   im_keys (im_retain (fun _ entry => lapsed now_iso entry) (granted st))).

Definition granted_domains (st : State) : list str := im_keys (granted st).
Definition granted_entries (st : State) : list (str * Mapping) := sort_pairs (granted st).

Definition index_entries (entries : list Mapping) : list (str * Mapping) :=
  fold_left (fun new e => match mget e (lit "domain") with
                          | Some d => if truthy d then im_insert new (normalise (coerce_to_string d)) e else new
                          | None => new
                          end) entries [].
Definition reconcile (st : State) (entries : list Mapping) : State :=
  let new := index_entries entries in
  let kept := im_retain (fun d _ => im_contains new d) (granted st) in
  mkState (config st)
    (fold_left (fun g e => if negb (im_contains g e.1) then im_insert g e.1 e.2 else g) new kept).

(** [parse_overlay], on the YAML document. *)
Definition parse_overlay (doc : option Value) : list Mapping :=
  match doc with
  | Some (VSequence entries) =>
      omap (fun e => match e with
                     | VMapping m =>
                         match mget m (lit "domain") with
                         | Some d => if truthy d then Some m else None
                         | None => None
                         end
                     | _ => None
                     end) entries
  | _ => []
  end.

(** [publishable]: the names written for the DNS supervisor. *)
Fixpoint insert_name (s : str) (l : list str) : list str :=
  match l with
  | [] => [s]
  | t :: r => if str_leb s t then s :: l else t :: insert_name s r
  end.
Definition publishable (granted : list (str * Mapping)) (now_iso : str) : list str :=
  foldr insert_name []
    (map fst (List.filter (fun e =>
       if bool_decide (e.1 = []) || negb (matches_domain_shape e.1) then false
       else bool_decide (entry_expiry e.2 = []) || str_ltb now_iso (entry_expiry e.2)) granted)).
End Inspector.

(** * Theorems *)

Section Theorems.
Context `{Unicode} `{F64Text}.

(** ** Matching *)

Lemma after_dots_spec h s : s ∈ after_dots h <-> exists pre, h = pre ++ 46 :: s.
Proof.
  induction h as [|c r IH]; cbn [after_dots].
  { split; [set_solver|]. intros (pre & E). by destruct pre. }
  assert (Hr : (exists pre, c :: r = pre ++ 46 :: s) <-> (c = 46 /\ s = r) \/ exists pre, r = pre ++ 46 :: s).
  { split.
    - intros ([|x pre] & E); injection E as -> E; [auto|right; eauto].
    - intros [[-> ->]|(pre & ->)]; [by exists []|by exists (c :: pre)]. }
  rewrite Hr, <- IH. destruct (Z.eqb_spec c 46); [rewrite elem_of_cons|]; naive_solver.
Qed.

Lemma suffixes_spec h s : s ∈ suffixes h <-> h = s \/ exists pre, h = pre ++ 46 :: s.
Proof. unfold suffixes. rewrite elem_of_cons, after_dots_spec. naive_solver. Qed.

(** The inspector matches by whole labels: a host is in the effective set
    exactly when, lowercased, it is an entry or ends with a dot and an entry; the
    effective set is the baseline, and in allowlist mode only also the grants. *)
Theorem matches_spec st host :
  matches st host = true <->
  exists s, (s ∈ baseline (config st) \/ (mode (config st) = Some ALLOWLIST /\ s ∈ granted_domains st)) /\
            (to_lowercase host = s \/ exists pre, to_lowercase host = pre ++ 46 :: s).
Proof.
  unfold matches. rewrite existsb_elem. split; intros (s & H1 & H2); exists s.
  - apply suffixes_spec in H1. split; [|exact H1]. unfold in_domain_set, is_allowlist in H2.
    rewrite orb_true_iff, andb_true_iff, !bool_decide_eq_true, im_contains_keys in H2. exact H2.
  - split; [by apply suffixes_spec|]. unfold in_domain_set, is_allowlist.
    rewrite orb_true_iff, andb_true_iff, !bool_decide_eq_true, im_contains_keys. exact H1.
Qed.

(** ** Expiry *)

(** [s] is an effective entry that covers the host. *)
Definition covers (st : State) (host s : str) : Prop :=
  in_domain_set st s = true /\ s ∈ suffixes (to_lowercase host).
(** Its expiry has not passed: it has none, it is in the future, or it cannot be
    compared. *)
Definition active (st : State) (now : Timestamp) (s : str) : Prop :=
  entry_exp st s = [] \/ expiry_in_future (entry_exp st s) now <> Some false.

Lemma active_dec st now s : {active st now s} + {~ active st now s}.
Proof. unfold active. apply (decide (entry_exp st s = [] \/ expiry_in_future (entry_exp st s) now <> Some false)). Qed.

Lemma expired_loop_step st now s rest acc : in_domain_set st s = true ->
  matched_expired_loop st now (s :: rest) acc =
  if active_dec st now s then None
  else matched_expired_loop st now rest (match acc with None => Some s | some => some end).
Proof.
  intros Hs. cbn [matched_expired_loop]. rewrite Hs. cbn [negb]. cbv zeta.
  destruct (active_dec st now s) as [Ha|Ha]; unfold active in Ha.
  - destruct (bool_decide (entry_exp st s = [])) eqn:E; [reflexivity|]. apply bool_decide_eq_false in E.
    destruct Ha as [?|Ha]; [congruence|]. by destruct (expiry_in_future _ now) as [[]|].
  - rewrite bool_decide_eq_false_2 by tauto. destruct (expiry_in_future _ now) as [[]|]; [|reflexivity|]; exfalso; apply Ha; right; congruence.
Qed.

(** The result is [None] when an entry of the walk is active or none matches
    and nothing was found before; else it is what was found before, or the
    first matching entry. *)
Lemma expired_loop_spec st now l acc :
  matched_expired_loop st now l acc =
  if decide (Exists (fun s => in_domain_set st s = true /\ active st now s) l) then None
  else match acc with Some s => Some s | None => List.find (in_domain_set st) l end.
Proof.
  revert acc. induction l as [|s l IH]; intros acc.
  { destruct (decide _) as [E|_]; [by apply Exists_nil in E|]. by destruct acc. }
  destruct (in_domain_set st s) eqn:Es.
  - rewrite expired_loop_step by exact Es. destruct (active_dec st now s) as [Ha|Ha].
    + destruct (decide (Exists _ (s :: l))) as [_|E]; [reflexivity|]. destruct E. apply Exists_cons. auto.
    + rewrite IH. cbn [List.find]. rewrite Es.
      destruct (decide (Exists _ l)) as [E|E], (decide (Exists _ (s :: l))) as [E'|E']; try reflexivity.
      * destruct E'. apply Exists_cons. auto.
      * apply Exists_cons in E' as [[_ ?]|?]; contradiction.
      * by destruct acc.
  - cbn [matched_expired_loop List.find]. rewrite Es. cbn [negb]. rewrite IH.
    destruct (decide (Exists _ l)) as [E|E], (decide (Exists _ (s :: l))) as [E'|E']; try reflexivity.
    + destruct E'. apply Exists_cons. auto.
    + apply Exists_cons in E' as [[? _]|?]; [congruence|contradiction].
Qed.

Lemma Exists_elem {A} (P : A -> Prop) l : Exists P l <-> exists x, x ∈ l /\ P x.
Proof. rewrite Exists_exists. reflexivity. Qed.

Lemma after_dots_shorter h s : s ∈ after_dots h -> (length s < length h)%nat.
Proof. intros Hs. apply after_dots_spec in Hs as (pre & ->). rewrite length_app. simpl. lia. Qed.

(** The first match of the walk is the longest. *)
Lemma find_longest f h s s' : List.find f (suffixes h) = Some s -> s' ∈ suffixes h -> f s' = true ->
  (length s' <= length s)%nat.
Proof.
  unfold suffixes. cbn [List.find]. rewrite elem_of_cons. destruct (f h) eqn:Eh.
  { intros [= <-] [->|Hs] _; [lia|]. apply after_dots_shorter in Hs. lia. }
  intros Hf [->|Hs] Hs'; [congruence|]. clear Eh. induction h as [|c r IH]; [discriminate|].
  cbn [after_dots] in *. destruct (c =? 46); [|auto]. cbn [List.find] in Hf. destruct (f r) eqn:Er.
  - injection Hf as <-. apply elem_of_cons in Hs as [->|Hs]; [lia|]. apply after_dots_shorter in Hs. lia.
  - apply elem_of_cons in Hs as [->|Hs]; [congruence|]. auto.
Qed.

Lemma matches_covers st host : matches st host = true <-> exists s, covers st host s.
Proof. unfold matches, covers. rewrite existsb_elem. naive_solver. Qed.

Lemma matched_expired_Some st host now s : matched_expired_at st host now = Some s ->
  covers st host s /\ forall s', covers st host s' -> ~ active st now s' /\ (length s' <= length s)%nat.
Proof.
  unfold matched_expired_at. rewrite expired_loop_spec. destruct (decide _) as [E|E]; [discriminate|].
  rewrite Exists_elem in E. intros Hf. apply find_some in Hf as Hf'. destruct Hf' as [Hin Hs].
  split; [split; [exact Hs|by apply list_elem_of_In]|]. intros s' [Hs' Hin']. split; [naive_solver|].
  by apply (find_longest (in_domain_set st) (to_lowercase host)).
Qed.

Lemma matched_expired_None st host now : matched_expired_at st host now = None ->
  matches st host = true -> exists s, covers st host s /\ active st now s.
Proof.
  unfold matched_expired_at, covers. rewrite expired_loop_spec. intros Hd Hmt. destruct (decide _) as [E|E].
  - apply Exists_elem in E. naive_solver.
  - apply matches_covers in Hmt as (s & Hs & Hin). apply list_elem_of_In in Hin.
    by rewrite (find_none _ _ Hd s Hin) in Hs.
Qed.

Lemma inspect_allowlist st host now : mode (config st) = Some ALLOWLIST ->
  inspect_host_at st host now = None <-> exists s, covers st host s /\ active st now s.
Proof.
  intros Hm. unfold inspect_host_at. rewrite Hm, bool_decide_eq_true_2 by reflexivity.
  destruct (matches st host) eqn:E; cbn [negb].
  - destruct (matched_expired_at st host now) as [s|] eqn:Ex; [|split; [intros _; by apply matched_expired_None|done]].
    apply matched_expired_Some in Ex as [_ Hall]. split; [done|]. intros (s' & Hc & Ha). by destruct (Hall s' Hc).
  - split; [done|]. intros (s & Hc & _). rewrite (proj2 (matches_covers st host)) in E; eauto. discriminate.
Qed.

Lemma inspect_blocklist st host now : mode (config st) = Some BLOCKLIST ->
  inspect_host_at st host now = None <-> forall s, ~ covers st host s.
Proof.
  intros Hm. unfold inspect_host_at. rewrite Hm, bool_decide_eq_false_2, bool_decide_eq_true_2 by done.
  destruct (matches st host) eqn:E.
  - split; [done|]. intros Hno. apply matches_covers in E as (s & Hs). by destruct (Hno s).
  - split; [|done]. intros _ s Hs. rewrite (proj2 (matches_covers st host)) in E; eauto. discriminate.
Qed.

(** C17: The request check.  A host passes exactly when the mode is allowlist
    and some effective entry covering it has not expired, or the mode is
    blocklist and no entry covers it; with any other mode, or none, every host is
    refused.  A refusal is a block of severity error in the inspector's name,
    and the expired entry it names is the longest one covering the host, all of
    them having expired. *)
Theorem inspect_host_spec st host now :
  (inspect_host_at st host now = None <->
     (mode (config st) = Some ALLOWLIST /\ exists s, covers st host s /\ active st now s) \/
     (mode (config st) = Some BLOCKLIST /\ forall s, ~ covers st host s)) /\
  (forall v, inspect_host_at st host now = Some v ->
     action v = Block /\ inspector v = NAME /\ severity v = Error_) /\
  (forall s, matched_expired_at st host now = Some s ->
     covers st host s /\ (forall s', covers st host s' -> ~ active st now s' /\ (length s' <= length s)%nat)).
Proof.
  split; [|split].
  - destruct (decide (mode (config st) = Some ALLOWLIST)) as [Ha|Ha].
    { rewrite inspect_allowlist by exact Ha. rewrite Ha. split; [auto|]. intros [[_ ?]|[? _]]; [assumption|discriminate]. }
    destruct (decide (mode (config st) = Some BLOCKLIST)) as [Hb|Hb].
    { rewrite inspect_blocklist by exact Hb. rewrite Hb. split; [auto|]. intros [[? _]|[_ ?]]; [discriminate|assumption]. }
    split; [|tauto]. unfold inspect_host_at. destruct (mode (config st)) as [m|]; [|discriminate].
    by rewrite !bool_decide_eq_false_2 by congruence.
  - unfold inspect_host_at. intros v Hv. repeat case_in Hv; try discriminate; by injection Hv as <-.
  - apply matched_expired_Some.
Qed.

(** ** Grants *)

Lemma entry_expiry_grant d ts exp reason source : entry_expiry (grant_entry d ts exp reason source) = exp.
Proof.
  unfold entry_expiry, grant_entry. cbn [fold_left fst snd].
  rewrite !mget_minsert_ne, mget_minsert by done. cbn [truthy is_truthy coerce_to_string].
  destruct exp; [by rewrite bool_decide_eq_true_2|by rewrite bool_decide_eq_false_2].
Qed.

Lemma grant_at_cases st d exp reason source ts :
  grant_at st d exp reason source ts =
  if decide (mode (config st) = Some ALLOWLIST /\ normalise d <> []) then
    (mkState (config st) (im_insert (granted st) (normalise d)
       (grant_entry (normalise d) ts exp reason (if bool_decide (source = []) then DEFAULT_GRANT_SOURCE else source))), true)
  else (st, false).
Proof.
  unfold grant_at, is_allowlist. cbv zeta. destruct (decide (mode (config st) = Some ALLOWLIST)) as [Hm|Hm].
  - rewrite bool_decide_eq_true_2 by exact Hm. cbn [negb].
    destruct (decide (normalise d = [])) as [E|E].
    + rewrite bool_decide_eq_true_2 by exact E. by destruct (decide _) as [[? ?]|_].
    + rewrite bool_decide_eq_false_2 by exact E. destruct (decide (_ /\ _)) as [_|Hn]; [reflexivity|tauto].
  - rewrite bool_decide_eq_false_2 by exact Hm. cbn [negb]. destruct (decide (_ /\ _)) as [[? _]|_]; [contradiction|reflexivity].
Qed.

(** Adding or replacing one grant, seen from the request check. *)
Lemma in_domain_set_insert st d e s : in_domain_set st s = true ->
  in_domain_set (mkState (config st) (im_insert (granted st) d e)) s = true.
Proof.
  unfold in_domain_set, is_allowlist. cbn [config granted].
  rewrite !orb_true_iff, !andb_true_iff, !im_contains_keys, im_insert_keys. intros [?|[? Hs]]; [auto|].
  right. split; [assumption|]. destruct (im_contains _ _); [exact Hs|set_solver].
Qed.

Lemma entry_exp_insert st d e s :
  entry_exp (mkState (config st) (im_insert (granted st) d e)) s
  = if bool_decide (s = d) then
      (if bool_decide (default [] (expires (config st) !! s) = []) then entry_expiry e
       else default [] (expires (config st) !! s))
    else entry_exp st s.
Proof.
  unfold entry_exp. cbn [config granted]. cbv zeta. case_bool_decide as E1; [|by destruct (bool_decide (s = d))].
  case_bool_decide as E2; [subst; by rewrite im_insert_get|]. by rewrite im_insert_get_ne by congruence.
Qed.

Lemma entry_exp_insert_same st d e now : entry_expiry e = [] \/ expiry_in_future (entry_expiry e) now <> Some false ->
  active st now d \/ default [] (expires (config st) !! d) = [] ->
  active (mkState (config st) (im_insert (granted st) d e)) now d.
Proof.
  intros He Hd. unfold active in *. rewrite entry_exp_insert, bool_decide_eq_true_2 by reflexivity.
  unfold entry_exp in Hd. case_bool_decide; [exact He|]. tauto.
Qed.

(** A grant.  It is recorded exactly in allowlist mode for a name that
    does not normalise to nothing; it then replaces or adds the entry of that
    name and nothing else of the overlay or of the baseline.  As long as its
    own expiry has not passed it only widens: every host allowed before is
    still allowed, and every host under the granted name is allowed, unless the
    operator's own [expires:] has an entry for the name. *)
Theorem grant_spec st d exp reason source ts st' ok :
  grant_at st d exp reason source ts = (st', ok) ->
  (ok = true <-> mode (config st) = Some ALLOWLIST /\ normalise d <> []) /\
  (ok = false -> st' = st) /\ config st' = config st /\
  (forall d', d' <> normalise d -> im_get (granted st') d' = im_get (granted st) d') /\
  (ok = true -> is_granted st' d = true /\
     forall now host, exp = [] \/ expiry_in_future exp now <> Some false ->
       (inspect_host_at st host now = None -> inspect_host_at st' host now = None) /\
       (normalise d ∈ suffixes (to_lowercase host) -> expires (config st) !! normalise d = None ->
        inspect_host_at st' host now = None)).
Proof.
  rewrite grant_at_cases. destruct (decide _) as [[Hm Hd]|Hn]; intros [= <- <-].
  2:{ split_and!; try done; try (split; [done|tauto]). }
  set (e := grant_entry _ _ _ _ _). split_and!; try done.
  { intros d' Hne. cbn [granted]. by apply im_insert_get_ne. }
  intros _. split.
  { unfold is_granted, im_contains. cbn [granted]. rewrite im_insert_get. by apply bool_decide_eq_true_2. }
  intros now host He. assert (Hee : entry_expiry e = exp) by apply entry_expiry_grant.
  rewrite <- Hee in He. rewrite !inspect_allowlist by exact Hm. split.
  - intros (s & [Hs Hin] & Ha). exists s. split; [split; [by apply in_domain_set_insert|exact Hin]|].
    destruct (decide (s = normalise d)) as [->|Hne]; [apply entry_exp_insert_same; auto|].
    unfold active. by rewrite entry_exp_insert, bool_decide_eq_false_2.
  - intros Hin Hx. exists (normalise d). split; [split; [|exact Hin]|].
    + unfold in_domain_set, is_allowlist. cbn [config granted]. rewrite orb_true_iff, andb_true_iff. right.
      split; [by apply bool_decide_eq_true_2|]. unfold im_contains. rewrite im_insert_get. by apply bool_decide_eq_true_2.
    + apply entry_exp_insert_same; [exact He|]. right. by rewrite Hx.
Qed.

(** Which expiry counts.  The operator's [expires:] entry for a name
    hides the expiry of a grant of the same name, and a grant's expiry applies to
    a baseline name that has none.  Two consequences the module's documentation
    rules out: a fresh permanent grant does not reopen a name whose baseline
    expiry has passed, and a lapsed grant closes a name the baseline allows for
    good. *)
Theorem expiry_precedence d e host now : d ∈ suffixes (to_lowercase host) ->
  let allow exp := mkDomainConfig (Some ALLOWLIST) {[ d ]} exp in
  (forall past, past <> [] -> expiry_in_future past now = Some false ->
     inspect_host_at (mkState (allow {[ d := past ]}) [(d, e)]) host now <> None) /\
  (expiry_in_future (entry_expiry e) now = Some false -> entry_expiry e <> [] ->
     inspect_host_at (mkState (allow ∅) []) host now = None /\
     inspect_host_at (mkState (allow ∅) [(d, e)]) host now <> None).
Proof.
  intros Hin allow.
  assert (Hset : forall exp g s, in_domain_set (mkState (allow exp) g) s = true -> Forall (fun x => x.1 = d) g -> s = d).
  { intros exp g s Hs Hg. unfold in_domain_set, is_allowlist in Hs. cbn [config granted baseline allow] in Hs.
    rewrite orb_true_iff, andb_true_iff, bool_decide_eq_true, im_contains_keys in Hs.
    destruct Hs as [Hs|[_ Hs]]; [set_solver|]. unfold im_keys in Hs. apply list_elem_of_In, in_map_iff in Hs as (x & <- & Hx).
    rewrite Forall_forall in Hg. apply Hg. by apply list_elem_of_In. }
  split.
  - intros past Hne Hp Hnone. apply inspect_allowlist in Hnone as (s & [Hs _] & Ha); [|reflexivity].
    apply Hset in Hs as ->; [|by repeat constructor]. unfold active, entry_exp in Ha. cbn [config expires allow] in Ha.
    rewrite lookup_singleton_eq in Ha. cbn [from_option] in Ha. unfold id in Ha. rewrite bool_decide_eq_false_2 in Ha by exact Hne.
    destruct Ha; congruence.
  - intros Hp Hne. split.
    + apply inspect_allowlist; [reflexivity|]. exists d. split; [split; [|exact Hin]|by left].
      unfold in_domain_set. cbn [config baseline allow]. by rewrite bool_decide_eq_true_2 by set_solver.
    + intros Hnone. apply inspect_allowlist in Hnone as (s & [Hs _] & Ha); [|reflexivity].
      apply Hset in Hs as ->; [|by repeat constructor]. unfold active, entry_exp in Ha. cbn [config granted expires allow im_get] in Ha.
      rewrite lookup_empty in Ha. cbn [from_option] in Ha. rewrite !bool_decide_eq_true_2 in Ha by reflexivity.
      destruct Ha; congruence.
Qed.

(** ** The overlay over time *)

Lemma index_entries_nodup_from entries acc : NoDup (im_keys acc) ->
  NoDup (im_keys (fold_left (fun new e => match mget e (lit "domain") with
     | Some d => if truthy d then im_insert new (normalise (coerce_to_string d)) e else new
     | None => new end) entries acc)).
Proof.
  revert acc. induction entries as [|e entries IH]; intros acc Ha; [exact Ha|]. cbn [fold_left]. apply IH.
  destruct (mget e (lit "domain")) as [d|]; [|exact Ha]. destruct (truthy d); [|exact Ha]. by apply im_insert_nodup.
Qed.
Lemma index_entries_nodup entries : NoDup (im_keys (index_entries entries)).
Proof. apply index_entries_nodup_from. constructor. Qed.

(** The name an overlay entry is for, if it is usable. *)
Definition entry_name (e : Mapping) : option str :=
  match mget e (lit "domain") with
  | Some d => if truthy d then Some (normalise (coerce_to_string d)) else None
  | None => None
  end.

Lemma index_entries_last entries d :
  im_get (index_entries entries) d = List.find (fun e => bool_decide (entry_name e = Some d)) (rev entries).
Proof.
  unfold index_entries. rewrite <- fold_left_rev_right. induction (rev entries) as [|e l IH]; [reflexivity|].
  cbn [foldr List.find]. destruct (bool_decide (entry_name e = Some d)) eqn:E.
  - apply bool_decide_eq_true in E. unfold entry_name in E. destruct (mget e (lit "domain")) as [x|]; [|discriminate].
    destruct (truthy x); [|discriminate]. injection E as <-. apply im_insert_get.
  - apply bool_decide_eq_false in E. unfold entry_name in E. destruct (mget e (lit "domain")) as [x|]; [|exact IH].
    destruct (truthy x); [|exact IH]. by rewrite im_insert_get_ne by congruence.
Qed.

Lemma filter_contains_same (m : list (str * Mapping)) new : NoDup (im_keys m) ->
  List.filter (fun e : str * Mapping => negb (im_contains (im_retain (fun d _ => im_contains (A:=Mapping) new d) m) e.1)) new
  = List.filter (fun e => negb (im_contains m e.1)) new.
Proof.
  intros Hn. apply filter_ext_in. intros [k v] Hin. cbn [fst]. f_equal.
  unfold im_contains at 1 3. rewrite im_retain_get by exact Hn. destruct (im_get m k) as [w|]; [|reflexivity].
  assert (im_contains new k = true) as ->; [|reflexivity].
  apply im_contains_keys. unfold im_keys. apply list_elem_of_In, in_map_iff. by exists (k, v).
Qed.

Lemma reconcile_granted st entries : NoDup (granted_domains st) ->
  granted (reconcile st entries) =
    im_retain (fun d _ => im_contains (index_entries entries) d) (granted st)
    ++ List.filter (fun e => negb (im_contains (granted st) e.1)) (index_entries entries).
Proof.
  intros Hn. unfold reconcile. cbn [granted]. rewrite im_merge_missing by apply index_entries_nodup.
  by rewrite filter_contains_same.
Qed.

Lemma reconcile_keys st entries d : NoDup (granted_domains st) ->
  d ∈ granted_domains (reconcile st entries) <-> d ∈ im_keys (index_entries entries).
Proof.
  intros Hn. set (new := index_entries entries).
  unfold granted_domains. rewrite reconcile_granted by exact Hn. fold new.
  rewrite im_keys_app, elem_of_app, im_retain_keys.
  rewrite !list_elem_of_In, filter_In. rewrite im_contains_keys, !list_elem_of_In.
  unfold im_keys at 3. rewrite in_map_iff. split.
  - intros [[_ ?]|([k e] & <- & Hin)]; [assumption|]. apply filter_In in Hin as [Hin _].
    unfold im_keys. apply in_map_iff. by exists (k, e).
  - intros Hd. destruct (im_contains (granted st) d) eqn:E.
    + left. apply im_contains_keys, list_elem_of_In in E. auto.
    + right. unfold im_keys in Hd. apply in_map_iff in Hd as ([k e] & <- & Hin). exists (k, e).
      split; [reflexivity|]. apply filter_In. cbn [fst] in *. by rewrite E.
Qed.

(** Reconciling with the overlay file keeps, untouched and in their order,
    the grants memory holds that the file still names, drops the others, and
    appends the names only the file has, in the file's order; of several
    entries for one name the last counts, entries without a usable domain
    none; the baseline is not touched. *)
Theorem reconcile_spec st entries : NoDup (granted_domains st) ->
  let new := index_entries entries in
  let st' := reconcile st entries in
  config st' = config st /\
  granted st' = im_retain (fun d _ => im_contains new d) (granted st)
                ++ List.filter (fun e => negb (im_contains (granted st) e.1)) new /\
  (forall d, im_get new d = List.find (fun e => bool_decide (entry_name e = Some d)) (rev entries)) /\
  (forall d, d ∈ granted_domains st' <-> d ∈ im_keys new) /\
  (forall d e, im_get (granted st) d = Some e -> d ∈ im_keys new -> im_get (granted st') d = Some e).
Proof.
  intros Hn new st'. split_and!; [reflexivity|by apply reconcile_granted|apply index_entries_last| |].
  - intros d. by apply reconcile_keys.
  - intros d e Hd Hin. subst st'. rewrite reconcile_granted by exact Hn. fold new.
    assert (Hk : im_get (im_retain (fun d _ => im_contains new d) (granted st)) d = Some e).
    { rewrite im_retain_get by exact Hn. rewrite Hd. by rewrite (proj2 (im_contains_keys new d) Hin). }
    by apply im_get_app.
Qed.

(** Everything that changes the inspector's state. *)
Inductive domain_step : State -> State -> Prop :=
| step_configure st section st' : configure st section = Ok st' -> domain_step st st'
| step_grant st d exp reason source ts : domain_step st (grant_at st d exp reason source ts).1
| step_revoke st d : domain_step st (revoke st d).1
| step_drop st now_iso : domain_step st (drop_expired_at st now_iso).1
| step_reconcile st entries : domain_step st (reconcile st entries).
Inductive domain_reachable : State -> Prop :=
| reach_new : domain_reachable new_state
| reach_step st st' : domain_reachable st -> domain_step st st' -> domain_reachable st'.

Definition norm_key (d : str) : Prop := exists d0, d = normalise d0.

Lemma domain_step_nodup st st' : domain_step st st' -> NoDup (granted_domains st) -> NoDup (granted_domains st').
Proof.
  intros Hstep Hn. destruct Hstep as [st section st' Hc|st d exp reason source ts|st d|st now_iso|st entries].
  - unfold configure in Hc. destruct (parse section); [|discriminate]. by injection Hc as <-.
  - rewrite grant_at_cases. destruct (decide _); [|exact Hn]. by apply im_insert_nodup.
  - by apply filter_keys_sub.
  - by apply filter_keys_sub.
  - pose proof (reconcile_granted st entries Hn) as Hg. unfold granted_domains in *. rewrite Hg, im_keys_app.
    apply NoDup_app. split; [by apply filter_keys_sub|]. split; [|apply filter_keys_sub, index_entries_nodup].
    intros d Hd1 Hd2. rewrite im_retain_keys in Hd1. apply list_elem_of_In, filter_In in Hd1 as [Hd1 _].
    unfold im_keys in Hd2. apply list_elem_of_In, in_map_iff in Hd2 as ([k e] & <- & Hin).
    apply filter_In in Hin as [_ Hin]. cbn [fst] in *. apply negb_true_iff in Hin.
    apply list_elem_of_In, im_contains_keys in Hd1. congruence.
Qed.

(** In every history of reloads, grants, revocations, expiry sweeps and
    reconciliations, no name is granted twice; a reload leaves the grants as
    they are; a revocation removes exactly the name it normalises to; and a
    sweep removes exactly the entries whose expiry text is not empty and not after
    the given time, keeping the others in order and reporting the removed names
    in order. *)
Theorem overlay_invariant st : domain_reachable st ->
  NoDup (granted_domains st) /\
  (forall section st', configure st section = Ok st' -> granted st' = granted st) /\
  (forall d, granted_domains (revoke st d).1 = List.filter (fun k => negb (bool_decide (k = normalise d))) (granted_domains st)
             /\ ((revoke st d).2 = true <-> normalise d ∈ granted_domains st)) /\
  (forall now_iso, let '(st', dropped) := drop_expired_at st now_iso in
     config st' = config st /\
     granted st' = List.filter (fun e => negb (lapsed now_iso e.2)) (granted st) /\
     dropped = map fst (List.filter (fun e => lapsed now_iso e.2) (granted st))).
Proof.
  intros Hr. split_and!.
  - induction Hr as [|st st' Hr IH Hs]; [constructor|]. by eapply domain_step_nodup.
  - intros section st' Hc. unfold configure in Hc. destruct (parse section); [|discriminate]. by injection Hc as <-.
  - intros d. split; [|apply im_contains_keys]. apply im_remove_keys.
  - intros now_iso. by split_and!.
Qed.
End Theorems.

(** ** Concrete instances *)

Definition sample_state : State :=
  mkState (mkDomainConfig (Some ALLOWLIST) {[ lit "example.com" ]} ∅) [].
Definition sample_now : Timestamp := mkTimestamp 1767225600000000.
Definition sample_past : str := lit "2025-01-01T00:00:00+00:00".

Lemma grant_spec_witness :
  let st' := (@grant_at ascii_unicode sample_state (lit "Api.Test.org.") [] (lit "r") [] sample_past).1 in
  @inspect_host_at ascii_unicode sample_f64 st' (lit "x.api.test.org") sample_now = None.
Proof.
  destruct (@grant_spec ascii_unicode sample_f64 sample_state (lit "Api.Test.org.") [] (lit "r") [] sample_past
    _ _ eq_refl) as (_ & _ & _ & _ & Hok).
  destruct (Hok eq_refl) as [_ Hw].
  destruct (Hw sample_now (lit "x.api.test.org") (or_introl eq_refl)) as [_ Hall].
  apply Hall; [apply suffixes_spec; right; exists (lit "x"); reflexivity|reflexivity].
Defined.

Lemma expiry_precedence_witness :
  @inspect_host_at ascii_unicode sample_f64
    (mkState (mkDomainConfig (Some ALLOWLIST) {[ lit "example.com" ]} ∅)
       [(lit "example.com", grant_entry (lit "example.com") [] sample_past [] [])]) (lit "example.com") sample_now <> None.
Proof.
  refine (proj2 (proj2 (@expiry_precedence ascii_unicode sample_f64 (lit "example.com")
    (grant_entry (lit "example.com") [] sample_past [] []) (lit "example.com") sample_now _) _ _));
    [apply suffixes_spec; left; reflexivity|vm_compute; reflexivity|vm_compute; discriminate].
Defined.

Lemma reconcile_spec_witness :
  granted (@reconcile ascii_unicode sample_f64 (mkState default_config [(lit "a.com", []); (lit "b.com", [])])
    [[(VString (lit "domain"), VString (lit "B.com"))]; [(VString (lit "domain"), VString (lit "c.com"))]])
  = [(lit "b.com", []); (lit "c.com", [(VString (lit "domain"), VString (lit "c.com"))])].
Proof.
  destruct (@reconcile_spec ascii_unicode sample_f64 (mkState default_config [(lit "a.com", []); (lit "b.com", [])])
    [[(VString (lit "domain"), VString (lit "B.com"))]; [(VString (lit "domain"), VString (lit "c.com"))]]) as (_ & Hg & _).
  - apply (bool_decide_unpack _); vm_compute; exact I.
  - rewrite Hg. vm_compute. reflexivity.
Defined.

Lemma overlay_invariant_witness :
  NoDup (granted_domains (@grant_at ascii_unicode (apply_config new_state (config sample_state)) (lit "a.com") [] [] [] []).1).
Proof.
  apply (@overlay_invariant ascii_unicode sample_f64).
  eapply reach_step; [|apply step_grant]. eapply reach_step; [apply reach_new|].
  apply (step_configure _ (VMapping [(VString (lit "allow"), VSequence [VString (lit "example.com")])])).
  vm_compute. reflexivity.
Defined.
