(* ===== verification/ConfigValues.v ===== *)
(** Reading an inspector's config section: the model of
    [agentcage-egress/src/inspect/config_values.rs], with the numeric readers
    of [agentcage-egress/src/config.rs] and the float formatting the verdicts
    use. *)
From S2P Require Import Prelude Utf8 IndexMap Json Value Inspect.
From Stdlib Require Import SpecFloat ZifyBool.

(** * Definitions *)

(** ** Doubles *)

(** [n as f64]: the nearest double, ties to even. *)
Definition f64_of_int (n : Z) : spec_float := binary_normalize 53 1024 n 0 false.
Definition f64_gtb (a b : spec_float) : bool := match SFcompare a b with Some Gt => true | _ => false end.
Definition f64_geb (a b : spec_float) : bool :=
  match SFcompare a b with Some Gt | Some Eq => true | _ => false end.
Definition f64_ltb (a b : spec_float) : bool := match SFcompare a b with Some Lt => true | _ => false end.
Definition clamp_i64 (n : Z) : Z := Z.max i64_min (Z.min i64_max n).
(** [f.trunc() as i64]: saturating, NaN to zero. *)
Definition f64_as_i64 (f : spec_float) : Z :=
  match f with
  | S754_nan | S754_zero _ => 0
  | S754_infinity s => if s then i64_min else i64_max
  | S754_finite s m e =>
      let n := if 0 <=? e then Z.pos m * 2 ^ e else Z.pos m / 2 ^ (- e) in
      clamp_i64 (if s then - n else n)
  end.

(** [format!("{:.2}", f)]: the exact value rounded to hundredths, ties to even. *)
Definition div_half_even (n d : Z) : Z :=
  let q := n / d in
  let r := n mod d in
  if d <? 2 * r then q + 1 else if 2 * r <? d then q else if Z.even q then q else q + 1.
Definition fixed2 (f : spec_float) : str :=
  let sign s := if s : bool then [45] else [] in
  let hundredths n := show_unsigned (n / 100) ++ [46] ++ pad 2 (n mod 100) in
  match f with
  | S754_nan => lit "NaN"
  | S754_infinity s => sign s ++ lit "inf"
  | S754_zero s => sign s ++ hundredths 0
  | S754_finite s m e =>
      sign s ++ hundredths (if 0 <=? e then Z.pos m * 2 ^ e * 100 else div_half_even (Z.pos m * 100) (2 ^ (- e)))
  end.

(** ** Numbers of a YAML document *)

(** [Number::as_i64], [as_u64] and [as_f64]: an integer of the document is kept
    as an [i64] or a [u64]. *)
Definition number_as_i64 (n : Number) : option Z :=
  match n with NInt n => i64_checked n | NFloat _ => None end.
Definition number_as_u64 (n : Number) : option Z :=
  match n with NInt n => if (0 <=? n) && (n <=? u64_max) then Some n else None | NFloat _ => None end.
Definition number_as_f64 (n : Number) : spec_float :=
  match n with NInt n => f64_of_int n | NFloat f => f end.

Definition as_i64 (value : option Value) : option Z :=
  match value with
  | Some (VNumber n) =>
      match number_as_i64 n with
      | Some i => Some i
      | None => Some (f64_as_i64 (number_as_f64 n))
      end
  | Some (VBool b) => Some (if b then 1 else 0)
  | Some (VString s) => parse_i64 (trim s)
  | _ => None
  end.
Definition as_f64 `{F64Text} (value : option Value) : option spec_float :=
  match value with
  | Some (VNumber n) => Some (number_as_f64 n)
  | Some (VBool b) => Some (f64_of_int (if b then 1 else 0))
  | Some (VString s) => parse_f64 (trim s)
  | _ => None
  end.

(** ** Readers *)

Definition section (value : Value) (inspector : str) : result str Mapping :=
  match value with
  | VNull => Ok []
  | VMapping m => Ok m
  | other => Err (inspector ++ lit " inspector config must be a mapping (got " ++ kind_name other ++ lit ")")
  end.

Record Num : Type := mkNum { value : spec_float; text : str; json : Json }.

(** [Num::int]. *)
Definition num_int (i : Z) : Num := mkNum (f64_of_int i) (show_signed i) (JInt i).
Definition is_zero (n : Num) : bool := match value n with S754_zero _ => true | _ => false end.

Section Readers.
Context `{Unicode} `{F64Text}.

Definition float_text (f : spec_float) : str :=
  match f with
  | S754_nan => lit "nan"
  | S754_infinity s => if s then lit "-inf" else lit "inf"
  | _ => format_float f
  end.
(** [Num::float]. *)
Definition num_float (f : spec_float) : Num := mkNum f (float_text f) (JFloat f).
(** [Num::from_value]. *)
Definition num_from_value (v : Value) : option Num :=
  match v with
  | VBool b => Some (mkNum (f64_of_int (if b then 1 else 0)) (coerce_to_string v) (JBool b))
  | VNumber n =>
      Some match number_as_i64 n with
           | Some i => num_int i
           | None =>
               match number_as_u64 n with
               | Some u => mkNum (f64_of_int u) (show_unsigned u) (JBigInt (show_unsigned u))
               | None => num_float (number_as_f64 n)
               end
           end
  | _ => None
  end.

Definition num (map : Mapping) (key : str) (default : Num) (inspector : str) : result str Num :=
  match mget map key with
  | None => Ok default
  | Some v =>
      match num_from_value v with
      | Some n => Ok n
      | None => Err (inspector ++ [46] ++ key ++ lit " must be a number (got " ++ kind_name v ++ lit ")")
      end
  end.

Definition int_like (v : Value) : option Z :=
  match v with
  | VString s => parse_i64 (trim s)
  | VNumber _ | VBool _ => as_i64 (Some v)
  | _ => None
  end.

(** [config_values::string]. *)
Definition string_ (map : Mapping) (key default inspector : str) : result str str :=
  match mget map key with
  | None => Ok default
  | Some (VString s) => Ok s
  | Some v => Err (inspector ++ [46] ++ key ++ lit " must be a string (got " ++ kind_name v ++ lit ")")
  end.

Definition flag (map : Mapping) (key : str) (default : bool) : bool :=
  match mget map key with None => default | Some v => truthy v end.

Definition str_items (v : Value) (what : str) : result str (list str) :=
  match v with
  | VSequence items =>
      collect (List.map (fun v => match v with
                                  | VString s => Ok s
                                  | other => Err (what ++ lit " entries must be strings (got " ++ kind_name other ++ lit ")")
                                  end) items)
  | _ => Err (what ++ lit " must be a list of strings (got " ++ kind_name v ++ lit ")")
  end.

Definition str_list (map : Mapping) (key : str) (default : list str) (inspector : str) : result str (list str) :=
  match mget map key with
  | None => Ok default
  | Some v => str_items v (inspector ++ [46] ++ key)
  end.

Fixpoint host_lists_loop (raw : Mapping) (where_ : str) (out : list (str * list str))
  : result str (list (str * list str)) :=
  match raw with
  | [] => Ok out
  | (VString h, v) :: rest =>
      let! items := str_items v (where_ ++ [46] ++ h) in
      host_lists_loop rest where_ (im_insert out (to_lowercase h) items)
  | _ => Err (where_ ++ lit " keys must be host names")
  end.
Definition host_lists (map : Mapping) (key inspector : str) : result str (list (str * list str)) :=
  match mget map key with
  | None => Ok []
  | Some (VMapping raw) => host_lists_loop raw (inspector ++ [46] ++ key) []
  | Some v => Err (inspector ++ [46] ++ key ++ lit " must be a mapping (got " ++ kind_name v ++ lit ")")
  end.
End Readers.

(** [str::strip_suffix], [str::ends_with]. *)
Definition strip_suffix (s suffix : str) : option str :=
  if starts_with (rev s) (rev suffix) then Some (take (length s - length suffix) s) else None.
Definition host_matches (host h : str) : bool :=
  bool_decide (host = h) ||
  match strip_suffix host h with Some rest => bool_decide (last rest = Some 46) | None => false end.

Definition is_strip_space (c : Z) : bool := is_whitespace c || in_range 28 31 c.
Definition strip_space (s : str) : str := trim_matches is_strip_space s.

(** [content_type::action_of]: anything but [block] flags. *)
Definition action_of (action : str) : Action := if bool_decide (action = lit "block") then Block else Flag.

(** * Lemmas *)

Lemma strip_suffix_spec s suffix rest : strip_suffix s suffix = Some rest <-> s = rest ++ suffix.
Proof.
  unfold strip_suffix. destruct (starts_with (rev s) (rev suffix)) eqn:E.
  - apply starts_with_prefix in E as (r & E). apply (f_equal (@rev Z)) in E.
    rewrite rev_involutive, rev_app_distr, rev_involutive in E. subst s.
    replace (length (rev r ++ suffix) - length suffix)%nat with (length (rev r)) by (rewrite length_app; lia).
    rewrite take_app_length. split; [by intros [= ->]|]. intros E. by apply app_inv_tail in E as ->.
  - split; [discriminate|]. intros ->. assert (H : starts_with (rev (rest ++ suffix)) (rev suffix) = true).
    { apply starts_with_prefix. exists (rev rest). apply rev_app_distr. }
    congruence.
Qed.

(** A key matches its own name and every subdomain of it. *)
Lemma host_matches_spec host h :
  host_matches host h = true <-> host = h \/ exists pre, host = pre ++ 46 :: h.
Proof.
  unfold host_matches. rewrite orb_true_iff, bool_decide_eq_true.
  assert (Hs : match strip_suffix host h with Some rest => bool_decide (last rest = Some 46) | None => false end = true
               <-> exists pre, host = pre ++ 46 :: h); [|by rewrite Hs].
  split.
  - destruct (strip_suffix host h) as [rest|] eqn:E; [|discriminate].
    apply strip_suffix_spec in E as ->. rewrite bool_decide_eq_true. intros Hl.
    apply last_Some in Hl as (pre & ->). exists pre. by rewrite <- app_assoc.
  - intros (pre & ->). assert (E : strip_suffix (pre ++ 46 :: h) h = Some (pre ++ [46])).
    { apply strip_suffix_spec. by rewrite <- app_assoc. }
    rewrite E, last_snoc. by apply bool_decide_eq_true_2.
Qed.

(** A host has one suffix of each length, so two keys of one length that match
    it are the same key. *)
Lemma host_matches_suffix host h : host_matches host h = true -> exists pre, host = pre ++ h.
Proof.
  rewrite host_matches_spec. intros [->|(pre & ->)]; [by exists []|]. exists (pre ++ [46]). by rewrite <- app_assoc.
Qed.
Lemma host_matches_same host h1 h2 : host_matches host h1 = true -> host_matches host h2 = true ->
  length h1 = length h2 -> h1 = h2.
Proof.
  intros (p1 & E1)%host_matches_suffix (p2 & E2)%host_matches_suffix Hl. subst host.
  by apply app_inj_2 in E2 as [_ ?].
Qed.
