(* ===== verification/BodySize.v ===== *)
(** The request body size inspector: the model of
    [agentcage-egress/src/inspect/body_size.rs]. *)
From S2P Require Import Prelude IndexMap Json Value Inspect ConfigValues.
From Stdlib Require Import SpecFloat ZifyBool.

(** * Definitions *)

Definition NAME : str := lit "body-size".

Record BodySizeInspector : Type := mkBodySize { max_bytes : Num; host_max_bytes : list (str * Num) }.

Section BodySize.
Context `{Unicode} `{F64Text}.

(** The loop over the [host_max_bytes] mapping. *)
Fixpoint read_host_limits (raw : Mapping) (out : list (str * Num)) : result str (list (str * Num)) :=
  match raw with
  | [] => Ok out
  | (VString h, v) :: rest =>
      match int_like v with
      | Some limit => read_host_limits rest (im_insert out (to_lowercase h) (num_int limit))
      | None =>
          Err (NAME ++ lit ".host_max_bytes." ++ h ++ lit " must be an integer (got " ++ kind_name v ++ lit ")")
      end
  | _ => Err (NAME ++ lit ".host_max_bytes keys must be host names")
  end.

Definition from_config (section : Value) : result str BodySizeInspector :=
  let! map := ConfigValues.section section NAME in
  let! max_bytes := num map (lit "max_bytes") (num_int 0) NAME in
  let! host_max_bytes :=
    match mget map (lit "host_max_bytes") with
    | None => Ok []
    | Some (VMapping raw) => read_host_limits raw []
    | Some v => Err (NAME ++ lit ".host_max_bytes must be a mapping (got " ++ kind_name v ++ lit ")")
    end in
  Ok (mkBodySize max_bytes host_max_bytes).

Fixpoint best_limit (host : str) (l : list (str * Num)) (best_len : option nat) (best : Num) : Num :=
  match l with
  | [] => best
  | (h, limit) :: rest =>
      let len := length h in
      if host_matches host h && match best_len with None => true | Some b => (b <? len)%nat end
      then best_limit host rest (Some len) limit
      else best_limit host rest best_len best
  end.
Definition limit_for_host (b : BodySizeInspector) (host : str) : Num :=
  match host_max_bytes b with
  | [] => max_bytes b
  | l => best_limit (to_lowercase host) l None (max_bytes b)
  end.

(** [i64::try_from(n).unwrap_or(i64::MAX)]. *)
Definition json_size (n : Z) : Json := JInt (Z.min n i64_max).

Definition inspect_request (b : BodySizeInspector) (ctx : Context) : option Verdict :=
  let limit := limit_for_host b (host ctx) in
  if is_zero limit then None
  else if negb (f64_gtb (f64_of_int (body_size ctx)) (value limit)) then None
  else
    Some (mkVerdict NAME Block
            (lit "body too large: " ++ show_unsigned (body_size ctx) ++ lit " > " ++ text limit) Warning_
            [(lit "body_size", json_size (body_size ctx)); (lit "max_bytes", ConfigValues.json limit);
             (lit "host", JStr (host ctx))]).

Definition body_size_inspector (b : BodySizeInspector) : Inspect.Inspector :=
  request_inspector NAME (inspect_request b).
End BodySize.

(** * Theorems *)

Section Theorems.
Context `{Unicode} `{F64Text}.

Lemma read_host_limits_nodup raw out l : NoDup (im_keys out) -> read_host_limits raw out = Ok l -> NoDup (im_keys l).
Proof.
  revert out. induction raw as [|[k v] raw IH]; intros out Hn; cbn [read_host_limits]; [by intros [= <-]|].
  destruct k; try discriminate. destruct (int_like v); [|discriminate]. apply IH. by apply im_insert_nodup.
Qed.

Lemma from_config_nodup section b : from_config section = Ok b -> NoDup (im_keys (host_max_bytes b)).
Proof.
  unfold from_config. destruct (ConfigValues.section section NAME) as [m|]; [|discriminate]. cbn [result_bind].
  destruct (num m _ _ NAME) as [mb|]; [|discriminate]. cbn [result_bind].
  destruct (mget m (lit "host_max_bytes")) as [v|]; [|intros [= <-]; constructor].
  destruct v; try discriminate. destruct (read_host_limits entries []) as [l|] eqn:E; [|discriminate].
  cbn [result_bind]. intros [= <-]. eapply read_host_limits_nodup, E. constructor.
Qed.

(** What the walk ends with: the entry it holds, unless a longer key matches. *)
Definition longest (host : str) (l : list (str * Num)) (best_len : option nat) (best r : Num) : Prop :=
  (r = best /\ Forall (fun e => host_matches host e.1 = true ->
                         exists n, best_len = Some n /\ (length e.1 <= n)%nat) l) \/
  exists h, (h, r) ∈ l /\ host_matches host h = true /\
            match best_len with None => True | Some n => (n < length h)%nat end /\
            Forall (fun e => host_matches host e.1 = true -> (length e.1 <= length h)%nat) l.

Lemma best_limit_longest host l best_len best : longest host l best_len best (best_limit host l best_len best).
Proof.
  revert best_len best. induction l as [|[h limit] l IH]; intros best_len best; cbn [best_limit]; [by left|].
  destruct (host_matches host h) eqn:Em; cbn [andb].
  2:{ destruct (IH best_len best) as [[E Hall]|(h' & Hin & Hm & Hl & Hall)].
      - left. split; [exact E|]. constructor; [cbn; congruence|exact Hall].
      - right. exists h'. split; [set_solver|]. do 2 (split; [assumption|]). constructor; [cbn; congruence|exact Hall]. }
  destruct (match best_len with None => true | Some b => (b <? length h)%nat end) eqn:Ec.
  - right. destruct (IH (Some (length h)) limit) as [[E Hall]|(h' & Hin & Hm & Hl & Hall)].
    + exists h. rewrite E. split; [set_solver|]. split; [exact Em|]. split; [destruct best_len; [lia|exact I]|].
      constructor; [cbn; lia|]. eapply Forall_impl; [exact Hall|]. cbn. intros [k x] Hx Hk.
      destruct (Hx Hk) as (n & [= <-] & Hn). exact Hn.
    + exists h'. split; [set_solver|]. split; [exact Hm|]. split; [destruct best_len; [lia|exact I]|].
      constructor; [cbn; lia|exact Hall].
  - destruct best_len as [b|]; [|discriminate].
    destruct (IH (Some b) best) as [[E Hall]|(h' & Hin & Hm & Hl & Hall)].
    + left. split; [exact E|]. constructor; [|exact Hall]. intros _. exists b. split; [reflexivity|]. cbn. lia.
    + right. exists h'. split; [set_solver|]. do 2 (split; [assumption|]). constructor; [cbn; lia|exact Hall].
Qed.

(** The limit of a host is that of the longest key it matches. *)
Definition limit_of (b : BodySizeInspector) (host : str) (limit : Num) : Prop :=
  (exists h, im_get (host_max_bytes b) h = Some limit /\ host_matches (to_lowercase host) h = true /\
     forall h', is_Some (im_get (host_max_bytes b) h') -> host_matches (to_lowercase host) h' = true ->
       h' = h \/ (length h' < length h)%nat) \/
  (limit = max_bytes b /\
     forall h, is_Some (im_get (host_max_bytes b) h) -> host_matches (to_lowercase host) h = false).

Lemma limit_for_host_of b host : NoDup (im_keys (host_max_bytes b)) -> limit_of b host (limit_for_host b host).
Proof.
  intros Hn. assert (Eb : limit_for_host b host = best_limit (to_lowercase host) (host_max_bytes b) None (max_bytes b)).
  { unfold limit_for_host. by destruct (host_max_bytes b). }
  rewrite Eb. destruct (best_limit_longest (to_lowercase host) (host_max_bytes b) None (max_bytes b))
    as [[E Hall]|(h & Hin & Hm & _ & Hall)]; [right|left]; rewrite Forall_forall in Hall.
  - split; [exact E|]. intros h (x & Hx). destruct (host_matches _ h) eqn:Em; [|reflexivity].
    destruct (Hall _ (im_get_elem _ _ _ Hx) Em) as (n & [=] & _).
  - exists h. split; [by apply im_get_in|]. split; [exact Hm|]. intros h' (x & Hx) Hm'.
    pose proof (Hall _ (im_get_elem _ _ _ Hx) Hm') as Hle. cbn in Hle.
    destruct (decide (length h' = length h)) as [El|]; [left|right; lia]. by apply (host_matches_same (to_lowercase host)).
Qed.

(** Whatever configuration builds, the limit of a host is that of the
    longest key it equals or is a subdomain of (there is one such key), the
    global one when no key matches; a zero limit turns the check off; a request
    is blocked exactly when its size is over a limit that is a number, and the
    verdict is then a block. *)
Theorem body_size_spec section b ctx : from_config section = Ok b ->
  exists limit, limit_of b (host ctx) limit /\
    (is_Some (inspect_request b ctx) <->
       is_zero limit = false /\ SFcompare (f64_of_int (body_size ctx)) (value limit) = Some Gt) /\
    (forall v, inspect_request b ctx = Some v -> action v = Block /\ inspector v = NAME).
Proof.
  intros Hb%from_config_nodup. exists (limit_for_host b (host ctx)).
  split; [by apply limit_for_host_of|]. unfold inspect_request, f64_gtb. cbv zeta.
  destruct (is_zero _); [split; [split; [by intros [? ?]|by intros [? ?]]|discriminate]|].
  destruct (SFcompare _ _) as [[]|]; cbn [negb];
    (split; [split; [intros [? ?]|intros [_ ?]]|intros v Hv]); try discriminate; eauto.
  by injection Hv as <-.
Qed.
End Theorems.

Definition sample_section : Value :=
  VMapping [(VString (lit "max_bytes"), VNumber (NInt 100));
            (VString (lit "host_max_bytes"),
             VMapping [(VString (lit "A.com"), VNumber (NInt 10)); (VString (lit "b.a.com"), VString (lit " 20 "))])].
Definition sample_ctx : Context :=
  mkContext [] (lit "x.B.a.com") [] [] [] None None 21 None [] Outbound false.

Lemma body_size_spec_witness :
  let U := ascii_unicode in let F := sample_f64 in
  exists b v, from_config sample_section = Ok b /\ text (limit_for_host b (host sample_ctx)) = lit "20" /\
    inspect_request b sample_ctx = Some v /\ action v = Block.
Proof.
  intros U F. eexists _, _. split; [vm_compute; reflexivity|]. split; [vm_compute; reflexivity|].
  split; [vm_compute; reflexivity|].
  destruct (body_size_spec (H := U) (H0 := F) sample_section
    (mkBodySize (num_int 100) [(lit "a.com", num_int 10); (lit "b.a.com", num_int 20)]) sample_ctx
    ltac:(vm_compute; reflexivity)) as (limit & _ & _ & Hv).
  apply (Hv _ ltac:(vm_compute; reflexivity)).
Defined.
