(* ===== verification/Secrets.v ===== *)
(** The secret leak inspector: the model of
    [agentcage-egress/src/inspect/secrets.rs]. *)
From S2P Require Import Prelude IndexMap Json Value Inspect ConfigValues.
From Stdlib Require Import ZifyBool.

(** * Definitions *)

Definition NAME : str := lit "secrets".

Definition BUILTIN_PATTERNS : list (str * str) :=
  map (fun e => (lit e.1, lit e.2))
  [("openai_key", "sk-(?:proj|svcacct|admin)-[A-Za-z0-9_-]{20,250}T3BlbkFJ[A-Za-z0-9_-]{20,250}");
   ("anthropic_key", "sk-ant-(?:api|admin)\d+-[a-zA-Z0-9_-]{20,250}");
   ("aws_access_key", "AKIA[A-Z2-7]{16}");
   ("github_token", "gh[ps]_[A-Za-z0-9]{36}");
   ("github_pat", "github_pat_[A-Za-z0-9]{22}_[A-Za-z0-9]{59}");
   ("google_api_key", "AIza[0-9A-Za-z\-_]{35}");
   ("google_oauth_access_token", "ya29\.[A-Za-z0-9_-]{50,}");
   ("slack_token", "xox[bpors]-[0-9]{10,20}-[a-zA-Z0-9-]{1,255}");
   ("stripe_key", "[sr]k_(live|test)_[0-9a-zA-Z]{24,255}");
   ("private_key", "-----BEGIN[ A-Z]{0,20}PRIVATE KEY-----");
   ("gitlab_token", "glpat-[A-Za-z0-9\-_]{20,255}");
   ("huggingface_token", "hf_[a-zA-Z]{34}");
   ("databricks_token", "dapi[0-9a-f]{32}");
   ("azure_jwt", "eyJ[A-Za-z0-9_-]{50,4096}\.eyJ[A-Za-z0-9_-]{50,4096}");
   ("openrouter_key", "sk-or-v1-[a-f0-9]{64}");
   ("perplexity_key", "pplx-[a-zA-Z0-9]{48}");
   ("brave_api_key", "");
   ("telegram_bot_token", "[0-9]{5,16}:[A-Za-z0-9_-]{35}");
   ("discord_bot_token", "[MNO][A-Za-z0-9_-]{23,26}\.[A-Za-z0-9_-]{6}\.[A-Za-z0-9_-]{27,255}");
   ("firecrawl_key", "fc-[a-f0-9]{32}")]%string.

Definition BUILTIN_ALLOW_TO_DOMAINS : list (str * list str) :=
  map (fun e => (lit e.1, map lit e.2))
  [("openai_key", ["openai.com"]); ("anthropic_key", ["anthropic.com"]); ("aws_access_key", ["amazonaws.com"]);
   ("github_token", ["github.com"; "githubusercontent.com"]); ("github_pat", ["github.com"; "githubusercontent.com"]);
   ("google_api_key", ["googleapis.com"; "google.com"]);
   ("google_oauth_access_token", ["googleapis.com"; "google.com"]); ("slack_token", ["slack.com"]);
   ("stripe_key", ["stripe.com"]); ("gitlab_token", ["gitlab.com"]);
   ("huggingface_token", ["huggingface.co"; "hf.co"]); ("databricks_token", ["databricks.com"]);
   ("openrouter_key", ["openrouter.ai"]); ("perplexity_key", ["perplexity.ai"]);
   ("brave_api_key", ["search.brave.com"]); ("telegram_bot_token", ["api.telegram.org"]);
   ("discord_bot_token", ["discord.com"]); ("firecrawl_key", ["firecrawl.dev"; "api.firecrawl.dev"])]%string.

Definition BINARY_BODY_CONTENT_TYPE_PREFIXES : list str :=
  map lit ["image/"; "audio/"; "video/"; "application/octet-stream"; "application/pdf"]%string.

(** The [regex] crate: a pattern compiles to a [Regex] or is refused with a
    message, [is_match] says whether a text has a match, and [find] is the text
    of the leftmost match. *)
Class RegexEngine := {
  Regex : Type;
  compile : str -> result str Regex;
  is_match_re : Regex -> str -> bool;
  find_re : Regex -> str -> option str
}.
(** The process environment: [std::env::var(name).ok()]. *)
Class Env := { env_var : str -> option str }.

(** ** The hand-coded Brave pattern *)

Definition brave_class (b : Z) : bool := is_ascii_alphanumeric b || (b =? 95) || (b =? 45).
Definition BSAI : bytes := lit "BSAI".
(** [b.get(from..to)]. *)
Definition get_range (b : bytes) (from to : nat) : option bytes :=
  if (to <=? length b)%nat then Some (take (to - from) (drop from b)) else None.
Definition is_some_and {A} (f : A -> bool) (o : option A) : bool := match o with Some x => f x | None => false end.
Definition is_none_or {A} (f : A -> bool) (o : option A) : bool := match o with Some x => f x | None => true end.

Definition brave_candidate (b : bytes) (i : nat) : bool :=
  let bounded_before := (i =? 0)%nat || is_some_and (fun c => negb (brave_class c)) (b !! (i - 1)%nat) in
  let body_ok := is_some_and (forallb brave_class) (get_range b (i + 4) (i + 32)) in
  let bounded_after := is_none_or (fun c => negb (brave_class c)) (b !! (i + 32)%nat) in
  bounded_before && body_ok && bounded_after.
Fixpoint brave_loop (fuel : nat) (b : bytes) (from : nat) : bool :=
  match fuel with
  | O => false
  | S fuel =>
      match find_sub BSAI (drop from b) with
      | Some off =>
          let i := (from + off)%nat in
          if brave_candidate b i then true else brave_loop fuel b (i + 1)
      | None => false
      end
  end.
(** A round moves past a start of the text, so as many rounds as bytes and one
    more are enough. *)
Definition brave_match (text : str) : bool := let b := as_bytes text in brave_loop (S (length b)) b 0.

Section Secrets.
Context `{Unicode} `{RegexEngine} `{Env}.

(** ** Patterns *)

Inductive Matcher : Type := MRegex (r : Regex) | Literal (l : str) | Brave.
Definition is_match (m : Matcher) (text : str) : bool :=
  match m with
  | MRegex r => is_match_re r text
  | Literal l => bool_decide (is_Some (find_sub (as_bytes l) (as_bytes text)))
  | Brave => brave_match text
  end.

(** [None] is the panic of a built-in pattern that does not compile. *)
Fixpoint build_builtins (l : list (str * str)) : option (list (str * Matcher)) :=
  match l with
  | [] => Some []
  | (name, pattern) :: rest =>
      let? m := (if bool_decide (name = lit "brave_api_key") then Some Brave
                 else match compile pattern with Ok r => Some (MRegex r) | Err _ => None end) in
      let? l := build_builtins rest in
      Some ((name, m) :: l)
  end.
Definition BUILTINS : option (list (str * Matcher)) := build_builtins BUILTIN_PATTERNS.

Definition is_binary_body_content_type (content_type : str) : bool :=
  if bool_decide (content_type = []) then false
  else
    let ct := default [] (head (split_on 59 content_type)) in
    let ct := to_lowercase (strip_space ct) in
    existsb (fun p => starts_with ct p) BINARY_BODY_CONTENT_TYPE_PREFIXES.

Record SecretsInspector : Type := mkSecrets {
  enabled : bool; action : Action; action_explicit : bool;
  patterns : list (str * Matcher); allow_to_domains : list (str * list str)
}.

(** ** Configuration *)

Definition field (p : Mapping) (key : str) : result str str :=
  match mget p key with
  | Some (VString s) => Ok s
  | Some v => Err (NAME ++ lit ".extra_patterns[]." ++ key ++ lit " must be a string (got " ++ kind_name v ++ lit ")")
  | None => Err (NAME ++ lit ".extra_patterns[] entry has no " ++ [34] ++ key ++ [34])
  end.
Definition extra_pattern (p : Value) : result str (option (str * Matcher)) :=
  match p with
  | VMapping p =>
      let by_pattern :=
        let! name := field p (lit "name") in
        let! pattern := field p (lit "pattern") in
        match compile pattern with
        | Ok regex => Ok (Some (name, MRegex regex))
        | Err e => Err (NAME ++ lit ".extra_patterns[" ++ name ++ lit "]: invalid pattern: " ++ e)
        end in
      match mget p (lit "env") with
      | Some env =>
          if truthy env then
            match env with
            | VString env =>
                let value := default [] (env_var env) in
                if bool_decide (value = []) then Ok None
                else let! name := field p (lit "name") in Ok (Some (name, Literal value))
            | _ => Err (NAME ++ lit ".extra_patterns[].env must be a string (got " ++ kind_name env ++ lit ")")
            end
          else by_pattern
      | None => by_pattern
      end
  | _ => Err (NAME ++ lit ".extra_patterns entries must be mappings (got " ++ kind_name p ++ lit ")")
  end.

Fixpoint add_extras (extras : list Value) (patterns : list (str * Matcher)) : result str (list (str * Matcher)) :=
  match extras with
  | [] => Ok patterns
  | p :: rest =>
      let! e := extra_pattern p in
      add_extras rest (match e with Some (name, m) => im_insert patterns name m | None => patterns end)
  end.
Fixpoint add_allowed (user : Mapping) (allow : list (str * list str)) : result str (list (str * list str)) :=
  match user with
  | [] => Ok allow
  | (VString name, domains) :: rest =>
      let! domains := str_items domains (NAME ++ lit ".allow_to_domains." ++ name) in
      add_allowed rest (im_insert allow name (map to_lowercase domains))
  | _ => Err (NAME ++ lit ".allow_to_domains keys must be pattern names")
  end.

Definition insert_all {A} (l m : list (str * A)) : list (str * A) := fold_left (fun m e => im_insert m e.1 e.2) l m.
Definition read_patterns (map : Mapping) (builtins : list (str * Matcher)) : result str (list (str * Matcher)) :=
  let patterns := insert_all builtins [] in
  match mget map (lit "extra_patterns") with
  | None => Ok patterns
  | Some (VSequence extras) => add_extras extras patterns
  | Some v => Err (NAME ++ lit ".extra_patterns must be a list (got " ++ kind_name v ++ lit ")")
  end.
Definition read_allow (map : Mapping) : result str (list (str * list str)) :=
  let allow :=
    if flag map (lit "builtin_allow_to_domains") true
    then insert_all (List.map (fun e => (e.1, List.map to_lowercase e.2)) BUILTIN_ALLOW_TO_DOMAINS) []
    else [] in
  match mget map (lit "allow_to_domains") with
  | None => Ok allow
  | Some v =>
      if negb (truthy v) then Ok allow
      else match v with
           | VMapping user => add_allowed user allow
           | _ => Err (NAME ++ lit ".allow_to_domains must be a mapping (got " ++ kind_name v ++ lit ")")
           end
  end.

(** [None] is the panic of [BUILTINS]. *)
Definition from_config (section : Value) : option (result str SecretsInspector) :=
  match ConfigValues.section section NAME with
  | Err e => Some (Err e)
  | Ok map =>
      let enabled := flag map (lit "enabled") true in
      let action_explicit := contains_key map (lit "action") in
      let action := match mget map (lit "action") with
                    | Some (VString s) => if bool_decide (s = lit "block") then Block else Flag
                    | _ => Flag
                    end in
      if enabled then
        let? builtins := BUILTINS in
        Some (let! patterns := read_patterns map builtins in
              let! allow := read_allow map in
              Ok (mkSecrets enabled action action_explicit patterns allow))
      else Some (Ok (mkSecrets enabled action action_explicit [] []))
  end.

Definition pattern_names (s : SecretsInspector) : list str := map fst (patterns s).
Definition matching_patterns (s : SecretsInspector) (text : str) : list str :=
  map fst (List.filter (fun e => is_match e.2 text) (patterns s)).
Definition allowed_to (s : SecretsInspector) (name host : str) : bool :=
  match List.find (fun e => bool_decide (e.1 = name)) (allow_to_domains s) with
  | Some (_, domains) => existsb (fun d => host_matches host d) domains
  | None => false
  end.

(** ** Inspection *)

Definition targets (ctx : Context) : list str :=
  url ctx :: map snd (headers ctx) ++
  match body_text ctx with
  | Some text =>
      if negb (bool_decide (text = [])) && negb (is_binary_body_content_type (content_type ctx)) then [text] else []
  | None => []
  end.
Definition secret_verdict (s : SecretsInspector) (name : str) : Verdict :=
  mkVerdict NAME (action s) (lit "secret detected: " ++ name) Critical_ [(lit "pattern", JStr name)].
Fixpoint first_leak (s : SecretsInspector) (targets : list str) (host : str) (l : list (str * Matcher))
  : option Verdict :=
  match l with
  | [] => None
  | (name, matcher) :: rest =>
      if negb (existsb (fun t => is_match matcher t) targets) then first_leak s targets host rest
      else if allowed_to s name host then first_leak s targets host rest
      else Some (secret_verdict s name)
  end.
Definition inspect_request (s : SecretsInspector) (ctx : Context) : option Verdict :=
  if negb (enabled s) then None
  else first_leak s (targets ctx) (to_lowercase (host ctx)) (patterns s).

Definition secrets_inspector (s : SecretsInspector) : Inspect.Inspector :=
  request_inspector NAME (inspect_request s).

(** The relay's view of it. *)
Definition adjust (s : SecretsInspector) (verdict : option Verdict) : option Verdict :=
  let? v := verdict in
  Some (if negb (action_explicit s)
        then mkVerdict (inspector v) Block (reason v) (severity v) (metadata v) else v).
Definition relay_secrets (s : SecretsInspector) : Inspect.Inspector :=
  mkInspector NAME
    (fun ctx => adjust s (Inspect.inspect_request (secrets_inspector s) ctx))
    (fun ctx => adjust s (Inspect.inspect_response (secrets_inspector s) ctx))
    (inspects_responses (secrets_inspector s)).
End Secrets.

(** * Theorems *)

(** ** The Brave pattern *)

(** An occurrence of
    [(?<![A-Za-z0-9_-])BSAI[a-zA-Z0-9_-]{28}(?![A-Za-z0-9_-])] at offset [i]. *)
Definition brave_at (b : bytes) (i : nat) : Prop :=
  exists pre body post, b = pre ++ BSAI ++ body ++ post /\ length pre = i /\ length body = 28%nat /\
    Forall (fun c => brave_class c = true) body /\
    (forall c, last pre = Some c -> brave_class c = false) /\
    (forall c, head post = Some c -> brave_class c = false).

Lemma brave_at_starts b i : brave_at b i -> starts_with (drop i b) BSAI = true /\ (i < length b)%nat.
Proof.
  intros (pre & body & post & -> & <- & Hl & _). rewrite drop_app_length. split.
  - apply starts_with_prefix. by eexists.
  - rewrite !length_app. change (length BSAI) with 4%nat. lia.
Qed.

Lemma is_some_and_spec {A} (f : A -> bool) o : is_some_and f o = true <-> exists x, o = Some x /\ f x = true.
Proof. destruct o; cbn; naive_solver. Qed.
Lemma is_none_or_spec {A} (f : A -> bool) o : is_none_or f o = true <-> forall x, o = Some x -> f x = true.
Proof. destruct o; cbn; naive_solver. Qed.

Lemma brave_candidate_spec b i : starts_with (drop i b) BSAI = true -> (i <= length b)%nat ->
  brave_candidate b i = true <-> brave_at b i.
Proof.
  intros Hs Hi. apply starts_with_prefix in Hs as (rest & Hr).
  assert (Eb : b = take i b ++ BSAI ++ rest) by (rewrite <- Hr, take_drop; reflexivity).
  assert (Lp : length (take i b) = i) by (rewrite length_take; lia).
  revert Eb Lp. generalize (take i b). intros pre Eb Lp. subst b i. clear Hr Hi.
  unfold brave_candidate. rewrite !andb_true_iff, orb_true_iff, is_none_or_spec.
  assert (Hbefore : ((length pre =? 0)%nat = true \/
      is_some_and (fun c => negb (brave_class c)) ((pre ++ BSAI ++ rest) !! (length pre - 1)%nat) = true)
      <-> forall c, last pre = Some c -> brave_class c = false).
  { destruct (nil_or_length_pos pre) as [->|Hp].
    { split; [by intros _ c Hc|]. intros _. by left. }
    rewrite lookup_app_l by lia. rewrite is_some_and_spec. split.
    - intros [?|(c & Hc & Hn)] d Hd; [lia|]. rewrite last_lookup in Hd.
      replace (Nat.pred (length pre)) with (length pre - 1)%nat in Hd by lia. rewrite Hc in Hd.
      injection Hd as <-. by apply negb_true_iff.
    - intros Hc. right. destruct (lookup_lt_is_Some_2 pre (length pre - 1)) as (c & Ec); [lia|].
      exists c. split; [exact Ec|]. apply negb_true_iff, Hc. rewrite last_lookup, <- Ec. f_equal. lia. }
  assert (Hbody : is_some_and (forallb brave_class) (get_range (pre ++ BSAI ++ rest) (length pre + 4) (length pre + 32)) = true
      <-> (28 <= length rest)%nat /\ Forall (fun c => brave_class c = true) (take 28 rest)).
  { unfold get_range. rewrite !length_app. change (length BSAI) with 4%nat.
    destruct (Nat.leb_spec (length pre + 32) (length pre + (4 + length rest))); cbn [is_some_and]; [|split; [done|lia]].
    replace (length pre + 32 - (length pre + 4))%nat with 28%nat by lia.
    rewrite app_assoc, drop_app_ge by (rewrite length_app; cbn; lia). rewrite length_app. change (length BSAI) with 4%nat.
    rewrite Nat.sub_diag, drop_0, forallb_Forall. split; [intros ?; split; [lia|done]|tauto]. }
  rewrite Hbefore, Hbody.
  assert (Hafter : (pre ++ BSAI ++ rest) !! (length pre + 32)%nat = rest !! 28%nat).
  { rewrite lookup_app_r by lia. replace (length pre + 32 - length pre)%nat with 32%nat by lia. reflexivity. }
  rewrite Hafter. split.
  - intros [[H1 [H2 H3]] H4]. exists pre, (take 28 rest), (drop 28 rest). rewrite take_drop.
    repeat split; try assumption; [rewrite length_take; lia|].
    intros c Hc. apply negb_true_iff, H4. rewrite head_lookup, lookup_drop in Hc. exact Hc.
  - intros (pre' & body & post & E & Lp & Lb & H1 & H2 & H3).
    apply app_inj_1 in E as [<- E]; [|lia]. apply app_inv_head in E as ->.
    rewrite <- Lb at 2. rewrite take_app_length, length_app. repeat split; [exact H2|lia|exact H1|].
    intros c Hc. apply negb_true_iff, H3. rewrite lookup_app_r in Hc by lia. rewrite Lb, Nat.sub_diag in Hc.
    by rewrite head_lookup.
Qed.

Lemma brave_loop_spec fuel b from : (length b - from < fuel)%nat -> (from <= length b)%nat ->
  brave_loop fuel b from = true <-> exists i, (from <= i)%nat /\ brave_at b i.
Proof.
  revert from. induction fuel as [|fuel IH]; intros from Hf Hle; [lia|]. cbn [brave_loop].
  pose proof (find_sub_spec BSAI (drop from b)) as Hfind. destruct (find_sub BSAI (drop from b)) as [off|].
  - destruct Hfind as ((r & Hr) & Hoff & Hbefore). rewrite drop_drop in Hr. rewrite length_drop in Hoff.
    assert (Hs : starts_with (drop (from + off) b) BSAI = true) by (apply starts_with_prefix; by exists r).
    assert (Hlt : (from + off < length b)%nat).
    { apply (f_equal length) in Hr. rewrite length_drop, length_app in Hr. change (length BSAI) with 4%nat in Hr. lia. }
    pose proof (brave_candidate_spec b (from + off) Hs ltac:(lia)) as Hc. cbv zeta.
    destruct (brave_candidate b (from + off)).
    + split; [|done]. intros _. exists (from + off)%nat. split; [lia|by apply Hc].
    + rewrite IH by lia. split; intros (i & Hi & Hat).
      * exists i. split; [lia|exact Hat].
      * exists i. split; [|exact Hat]. destruct (decide (i = from + off)%nat) as [->|]; [by apply Hc in Hat|].
        destruct (decide (i < from + off)%nat); [|lia]. exfalso.
        specialize (Hbefore (i - from)%nat ltac:(lia)). rewrite drop_drop in Hbefore.
        replace (from + (i - from))%nat with i in Hbefore by lia.
        destruct (brave_at_starts b i Hat) as [E _]. congruence.
  - split; [discriminate|]. intros (i & Hi & Hat). exfalso. specialize (Hfind (i - from)%nat).
    rewrite drop_drop in Hfind. replace (from + (i - from))%nat with i in Hfind by lia.
    destruct (brave_at_starts b i Hat) as [E _]. congruence.
Qed.

(** The byte scan decides the pattern it stands for, lookbehind and
    lookahead included: it succeeds exactly when the text holds [BSAI] and
    28 bytes of the class with no byte of the class before or after.  A rejected
    candidate hides no later one, and the scan always ends. *)
Theorem brave_match_spec text :
  brave_match text = true <->
  exists pre body post, as_bytes text = pre ++ BSAI ++ body ++ post /\ length body = 28%nat /\
    Forall (fun c => brave_class c = true) body /\
    (forall c, last pre = Some c -> brave_class c = false) /\
    (forall c, head post = Some c -> brave_class c = false).
Proof.
  unfold brave_match. cbv zeta. rewrite brave_loop_spec by lia. unfold brave_at. split.
  - intros (i & _ & pre & body & post & ? & _ & ? & ?). by exists pre, body, post.
  - intros (pre & body & post & ? & ?). exists (length pre). split; [lia|]. by exists pre, body, post.
Qed.

(** ** The scan *)

Section Theorems.
Context `{Unicode} `{RegexEngine} `{Env}.

Lemma insert_all_fresh {A} (l m : list (str * A)) : NoDup (im_keys (m ++ l)) -> insert_all l m = m ++ l.
Proof.
  revert m. induction l as [|[k v] l IH]; intros m Hn; unfold insert_all; cbn [fold_left fst snd]; [by rewrite app_nil_r|].
  assert (Hk : im_contains m k = false).
  { apply not_true_is_false. rewrite im_contains_keys. intros Hin. rewrite im_keys_app in Hn.
    apply NoDup_app in Hn as (_ & Hd & _). apply (Hd k Hin). cbn. set_solver. }
  rewrite (im_insert_fresh _ _ _ Hk). fold (insert_all l (m ++ [(k, v)])).
  rewrite IH; rewrite <- app_assoc; [reflexivity|exact Hn].
Qed.

Lemma insert_all_keys {A} (l m : list (str * A)) : NoDup (im_keys m) -> NoDup (im_keys (insert_all l m)).
Proof.
  unfold insert_all. revert m. induction l as [|e l IH]; intros m Hm; [exact Hm|]. cbn [fold_left].
  apply IH. by apply im_insert_nodup.
Qed.

Lemma build_builtins_names l l' : build_builtins l = Some l' -> map fst l' = map fst l.
Proof.
  revert l'. induction l as [|[n p] l IH]; intros l'; cbn [build_builtins]; [by intros [= <-]|].
  destruct (if bool_decide (n = _) then _ else _) as [m|]; [|discriminate].
  destruct (build_builtins l) as [l2|]; [|discriminate]. intros [= <-]. cbn [map fst]. f_equal. by apply IH.
Qed.

Lemma builtin_names_distinct : NoDup (map fst BUILTIN_PATTERNS).
Proof. apply (bool_decide_unpack _). vm_compute. exact I. Qed.

(** [m] extends [m0] with names after its own. *)
Definition extends {A} (m0 m : list (str * A)) : Prop :=
  NoDup (im_keys m) /\ exists extras, im_keys m = im_keys m0 ++ extras.
Lemma im_insert_extends {A} (m0 m : list (str * A)) k v : extends m0 m -> extends m0 (im_insert m k v).
Proof.
  intros (Hn & extras & E). split; [by apply im_insert_nodup|]. rewrite im_insert_keys, E.
  destruct (im_contains m k); [by exists extras|]. exists (extras ++ [k]). by rewrite app_assoc.
Qed.

Lemma add_extras_extends m0 extras m m' : extends m0 m -> add_extras extras m = Ok m' -> extends m0 m'.
Proof.
  revert m. induction extras as [|p extras IH]; intros m Hm; cbn [add_extras]; [by intros [= <-]|].
  destruct (extra_pattern p) as [e|]; [|discriminate]. cbn [result_bind]. apply IH.
  destruct e as [[n x]|]; [by apply im_insert_extends|exact Hm].
Qed.

Lemma add_allowed_nodup user m m' : NoDup (im_keys m) -> add_allowed user m = Ok m' -> NoDup (im_keys m').
Proof.
  revert m. induction user as [|[k v] user IH]; intros m Hm; cbn [add_allowed]; [by intros [= <-]|].
  destruct k; try discriminate. destruct (str_items _ _); [|discriminate]. cbn [result_bind].
  apply IH. by apply im_insert_nodup.
Qed.

Lemma read_allow_nodup map allow : read_allow map = Ok allow -> NoDup (im_keys allow).
Proof.
  unfold read_allow. cbv zeta. set (base := if flag _ _ _ then _ else _).
  assert (Hb : NoDup (im_keys base)).
  { subst base. destruct (flag _ _ _); [|constructor]. apply insert_all_keys. constructor. }
  destruct (mget map (lit "allow_to_domains")) as [v|]; [|by intros [= <-]].
  destruct (negb (truthy v)); [by intros [= <-]|]. destruct v; try discriminate. by apply add_allowed_nodup.
Qed.

Lemma from_config_wf section s : from_config section = Some (Ok s) ->
  NoDup (pattern_names s) /\ NoDup (im_keys (allow_to_domains s)) /\
  (enabled s = true -> exists extras, pattern_names s = map fst BUILTIN_PATTERNS ++ extras).
Proof.
  unfold from_config. destruct (ConfigValues.section section NAME) as [map|]; [|discriminate]. cbv zeta.
  destruct (flag map (lit "enabled") true).
  2:{ intros [= <-]. unfold pattern_names. cbn. repeat split; try constructor. discriminate. }
  destruct BUILTINS as [builtins|] eqn:Eb; [|discriminate]. intros [= E].
  apply build_builtins_names in Eb.
  assert (Hn : NoDup (im_keys ([] ++ builtins))).
  { unfold im_keys. cbn [app]. rewrite Eb. apply builtin_names_distinct. }
  destruct (read_patterns map builtins) as [patterns|] eqn:Ep; [|discriminate]. cbn [result_bind] in E.
  destruct (read_allow map) as [allow|] eqn:Ea; [|discriminate]. cbn [result_bind] in E. injection E as <-.
  unfold pattern_names. cbn [Secrets.patterns Secrets.allow_to_domains Secrets.enabled].
  assert (Hx : extends builtins patterns).
  { unfold read_patterns in Ep. cbv zeta in Ep. rewrite insert_all_fresh in Ep by exact Hn. cbn [app] in *.
    assert (H0' : extends builtins builtins) by (split; [exact Hn|exists []; by rewrite app_nil_r]).
    destruct (mget map (lit "extra_patterns")) as [v|]; [|by injection Ep as <-].
    destruct v; try discriminate. by eapply add_extras_extends. }
  destruct Hx as (Hnd & extras & Ek). split; [exact Hnd|]. split; [by eapply read_allow_nodup|].
  intros _. exists extras. unfold im_keys in Ek. by rewrite Ek, Eb.
Qed.

(** A pattern that matches a target and may not go to the host. *)
Definition leaks (s : SecretsInspector) (ctx : Context) (e : str * Matcher) : Prop :=
  (exists t, t ∈ targets ctx /\ is_match e.2 t = true) /\
  ~ exists domains d, im_get (allow_to_domains s) e.1 = Some domains /\ d ∈ domains /\
      (to_lowercase (host ctx) = d \/ exists pre, to_lowercase (host ctx) = pre ++ 46 :: d).

Lemma find_im_get {A} (l : list (str * A)) name :
  List.find (fun e => bool_decide (e.1 = name)) l = let? v := im_get l name in Some (name, v).
Proof.
  induction l as [|[k v] l IH]; [reflexivity|]. cbn [List.find im_get fst].
  case_bool_decide; [by subst|exact IH].
Qed.

Lemma allowed_to_spec s name host : allowed_to s name host = true <->
  exists domains d, im_get (allow_to_domains s) name = Some domains /\ d ∈ domains /\
    (host = d \/ exists pre, host = pre ++ 46 :: d).
Proof.
  unfold allowed_to. rewrite find_im_get. destruct (im_get _ name) as [domains|].
  - rewrite existsb_elem. split.
    + intros (d & Hd & Hm). exists domains, d. by rewrite <- host_matches_spec.
    + intros (? & d & [= <-] & Hd & Hm). exists d. by rewrite host_matches_spec.
  - split; [discriminate|]. by intros (? & ? & ? & _).
Qed.

Lemma first_leak_spec s ctx l v :
  first_leak s (targets ctx) (to_lowercase (host ctx)) l = Some v <->
  exists l1 name m l2, l = l1 ++ (name, m) :: l2 /\ leaks s ctx (name, m) /\
    Forall (fun e => ~ leaks s ctx e) l1 /\ v = secret_verdict s name.
Proof.
  induction l as [|[name m] l IH]; cbn [first_leak].
  { split; [discriminate|]. intros (l1 & ? & ? & ? & E & _). by destruct l1. }
  assert (Hcons : (exists l1 n m' l2, (name, m) :: l = l1 ++ (n, m') :: l2 /\ leaks s ctx (n, m') /\
              Forall (fun e => ~ leaks s ctx e) l1 /\ v = secret_verdict s n) <->
          (leaks s ctx (name, m) /\ v = secret_verdict s name) \/
          (~ leaks s ctx (name, m) /\ first_leak s (targets ctx) (to_lowercase (host ctx)) l = Some v)).
  { rewrite IH. split.
    - intros ([|e l1] & n & m' & l2 & E & Hl & Hf & Hv).
      + injection E as -> -> ->. auto.
      + injection E as <- ->. apply Forall_cons in Hf as [Hn Hf]. right. split; [exact Hn|]. by exists l1, n, m', l2.
    - intros [[Hl Hv]|(Hn & l1 & n & m' & l2 & -> & Hl & Hf & Hv)].
      + by exists [], name, m, l.
      + exists ((name, m) :: l1), n, m', l2. do 2 (split; [done|]). split; [apply Forall_cons; by split|exact Hv]. }
  rewrite Hcons. clear Hcons IH.
  assert (Hl : leaks s ctx (name, m) <-> existsb (fun t => is_match m t) (targets ctx) = true /\
                                        allowed_to s name (to_lowercase (host ctx)) = false).
  { unfold leaks. rewrite <- not_true_iff_false, allowed_to_spec, existsb_elem. reflexivity. }
  rewrite Hl. clear Hl. destruct (existsb _ _); cbn [negb].
  2:{ split; [intros Hr; right; split; [by intros []|exact Hr]|by intros [[[? _] _]|[_ ?]]]. }
  destruct (allowed_to s name (to_lowercase (host ctx))).
  { split; [intros Hr; right; split; [by intros []|exact Hr]|by intros [[[_ ?] _]|[_ ?]]]. }
  split; [intros [= <-]; by left|]. intros [[_ ->]|[[] _]]; [reflexivity|done].
Qed.

(** Whatever configuration builds, an enabled inspector scans the built-in
    names first and in order, then the operator's, each once (an extra pattern
    can replace a built-in of its name, never remove one).  It answers exactly
    when some pattern matches the URL, a header value or a text body and its
    allow list has no domain the host equals or is under; the verdict names the
    first such pattern and carries the configured action.  The relay's view
    detects the same and blocks unless the operator chose the action. *)
Theorem secrets_spec section s : from_config section = Some (Ok s) ->
  NoDup (pattern_names s) /\
  (enabled s = true -> exists extras, pattern_names s = map fst BUILTIN_PATTERNS ++ extras) /\
  (forall ctx v, inspect_request s ctx = Some v <->
     enabled s = true /\ exists l1 name m l2, patterns s = l1 ++ (name, m) :: l2 /\
       leaks s ctx (name, m) /\ Forall (fun e => ~ leaks s ctx e) l1 /\ v = secret_verdict s name) /\
  (forall ctx, Inspect.inspect_request (relay_secrets s) ctx =
     match inspect_request s ctx with
     | None => None
     | Some v => Some (mkVerdict NAME (if action_explicit s then action s else Block) (reason v) Critical_ (metadata v))
     end).
Proof.
  intros Hs. destruct (from_config_wf _ _ Hs) as (Hn & _ & Hb). split; [exact Hn|]. split; [exact Hb|]. split.
  - intros ctx v. unfold inspect_request. destruct (enabled s); cbn [negb]; [|split; [discriminate|by intros [? _]]].
    rewrite first_leak_spec. tauto.
  - intros ctx. cbn [relay_secrets secrets_inspector request_inspector Inspect.inspect_request]. unfold adjust.
    destruct (inspect_request s ctx) as [v|] eqn:E; [|reflexivity].
    unfold inspect_request in E. destruct (negb (enabled s)); [discriminate|].
    apply first_leak_spec in E as (l1 & name & m & l2 & _ & _ & _ & ->). by destruct (action_explicit s).
Qed.
End Theorems.

(** An engine that takes every pattern literally. *)
Definition literal_engine : RegexEngine :=
  {| Regex := str; compile := Ok; is_match_re := fun r t => bool_decide (is_Some (find_sub r t));
     find_re := fun r t => if bool_decide (is_Some (find_sub r t)) then Some r else None |}.
Definition no_env : Env := {| env_var := fun _ => None |}.
Definition leaking_ctx : Context :=
  mkContext (lit "http://x/?k=AKIA[A-Z2-7]{16}") (lit "x") [] [] [] None None 0 None [] Outbound false.

Definition default_secrets : SecretsInspector (H0 := literal_engine) :=
  match from_config (H := ascii_unicode) (H0 := literal_engine) (H1 := no_env) VNull with
  | Some (Ok s) => s
  | _ => mkSecrets (H0 := literal_engine) false Flag false [] []
  end.

Lemma secrets_spec_witness :
  let U := ascii_unicode in let R := literal_engine in let E := no_env in
  from_config VNull = Some (Ok default_secrets) /\
  option_map (fun v => (reason v, Inspect.action v)) (inspect_request default_secrets leaking_ctx)
    = Some (lit "secret detected: aws_access_key", Flag) /\
  option_map Inspect.action (Inspect.inspect_request (relay_secrets default_secrets) leaking_ctx) = Some Block.
Proof.
  intros U R E. assert (Es : from_config VNull = Some (Ok default_secrets)) by (vm_compute; reflexivity).
  split; [exact Es|]. split; [vm_compute; reflexivity|].
  destruct (secrets_spec (H := U) (H0 := R) (H1 := E) VNull default_secrets Es) as (_ & _ & _ & Hrelay).
  rewrite Hrelay. vm_compute. reflexivity.
Defined.
