(* ===== verification/ContentType.v ===== *)
(** The content-type mismatch inspector: the model of
    [agentcage-egress/src/inspect/content_type.rs]. *)
From S2P Require Import Prelude IndexMap Json Value Inspect ConfigValues Secrets BodySize.
From Stdlib Require Import SpecFloat ZifyBool.

(** * Definitions *)

Definition NAME : str := lit "content-type".
Definition TEXT_CT_PREFIXES : list str :=
  map lit ["application/json"; "application/xml"; "text/"; "application/x-www-form-urlencoded";
           "multipart/form-data"]%string.
(** The pattern of [BASE64_RE]. *)
Definition BASE64_CLASS : str := lit "A-Za-z0-9+/=\-_\s\x1C-\x1F".
Definition BASE64_PATTERN : str := lit "(?m)^[" ++ BASE64_CLASS ++ lit "]{64,}$".

Record ContentTypeInspector : Type := mkContentType {
  entropy_ceiling : Num; detect_base64 : bool; base64_min_len : Num; action : Action;
  host_exempt_content_types : list (str * list str)
}.

(** The double 6.5. *)
Definition six_and_a_half : spec_float := binary_normalize 53 1024 13 (-1) false.

Section ContentType.
Context `{Unicode} `{F64Text} `{RegexEngine}.

Definition from_config (section : Value) : result str ContentTypeInspector :=
  let! map := ConfigValues.section section NAME in
  let! entropy_ceiling := num map (lit "entropy_ceiling") (num_float six_and_a_half) NAME in
  let detect_base64 := flag map (lit "detect_base64") true in
  let! base64_min_len := num map (lit "base64_min_len") (num_int 256) NAME in
  let! action := string_ map (lit "action") (lit "block") NAME in
  let! host_exempt := host_lists map (lit "host_exempt_content_types") NAME in
  Ok (mkContentType entropy_ceiling detect_base64 base64_min_len (action_of action) host_exempt).

(** The per-host exemptions, which the entropy inspector has too. *)
Definition host_exempt (exemptions : list (str * list str)) (host ct : str) : bool :=
  existsb (fun e => host_matches host e.1 && existsb (fun p => starts_with ct p) e.2) exemptions.

(** [BASE64_RE] is the compiled [BASE64_PATTERN]. *)
Definition inspect_request (BASE64_RE : Regex) (c : ContentTypeInspector) (ctx : Context) : option Verdict :=
  let? text := match body_text ctx with Some [] | None => None | Some t => Some t end in
  let ct := content_type ctx in
  if bool_decide (ct = []) || negb (existsb (fun p => starts_with ct p) TEXT_CT_PREFIXES) then None
  else if host_exempt (host_exempt_content_types c) (to_lowercase (host ctx)) ct then None
  else
    let base64 :=
      if detect_base64 c then
        let? m := find_re BASE64_RE text in
        let len := Z.of_nat (length m) in
        if f64_geb (f64_of_int len) (value (base64_min_len c)) then
          Some (mkVerdict NAME (action c)
                  (lit "large base64 blob (" ++ show_unsigned len ++ lit " chars) in " ++ ct ++ lit " body")
                  Warning_ [(lit "content_type", JStr ct); (lit "base64_length", json_size len)])
        else None
      else None in
    match body_entropy ctx with
    | Some entropy =>
        if f64_gtb entropy (value (entropy_ceiling c)) then
          Some (mkVerdict NAME (action c)
                  (lit "content-type mismatch: " ++ ct ++ lit " declared but body entropy is " ++ fixed2 entropy
                   ++ lit " (expected <" ++ ConfigValues.text (entropy_ceiling c) ++ lit ")")
                  Error_
                  [(lit "content_type", JStr ct); (lit "entropy", JFloat entropy);
                   (lit "ceiling", ConfigValues.json (entropy_ceiling c))])
        else base64
    | None => base64
    end.

Definition content_type_inspector (BASE64_RE : Regex) (c : ContentTypeInspector) : Inspect.Inspector :=
  request_inspector NAME (inspect_request BASE64_RE c).
End ContentType.
