(* ===== verification/Entropy.v ===== *)
(** The entropy inspector: the model of
    [agentcage-egress/src/inspect/entropy.rs], with the [urllib.parse] readers
    it carries, and of [shannon_entropy] of [inspect/mod.rs]. *)
From S2P Require Import Prelude Utf8 IndexMap Json Value Inspect ConfigValues Secrets BodySize ContentType.
From Stdlib Require Import SpecFloat ZifyBool.

(** * Definitions *)

Definition NAME : str := lit "entropy".
Definition DEFAULT_HOST_URL_PARAM_ALLOWLIST : list (str * list str) :=
  map (fun e => (lit e.1, map lit e.2))
  [("cloudfront.net", ["Policy"; "Signature"; "Key-Pair-Id"]);
   ("xethub.hf.co", ["Policy"; "Signature"; "Key-Pair-Id"; "X-Amz-Signature"; "X-Amz-Credential"]);
   ("amazonaws.com", ["X-Amz-Signature"; "X-Amz-Credential"]);
   ("storage.googleapis.com", ["X-Goog-Signature"]);
   ("blob.core.windows.net", ["sig"; "se"; "sp"])]%string.

(** ** Reading a URL *)

(** [clean_url]: the leading C0 controls and spaces, and every tab, CR and LF. *)
Definition clean_url (url : str) : str :=
  List.filter (fun c => negb ((c =? 9) || (c =? 13) || (c =? 10))) (drop_while (fun c => c <=? 32) url).

Definition USES_PARAMS : list str :=
  map lit [""; "ftp"; "hdl"; "prospero"; "http"; "imap"; "https"; "shttp"; "rtsp"; "rtsps"; "rtspu";
           "sip"; "sips"; "mms"; "sftp"; "tel"]%string.

Record SplitUrl : Type := mkSplitUrl { path : str; query : str }.

(** The part of a string before the first character of a set. *)
Definition until (f : Z -> bool) (s : str) : str := (span (fun c => negb (f c)) s).1.
Definition is_scheme_char (c : Z) : bool := is_ascii_alphanumeric c || (c =? 43) || (c =? 45) || (c =? 46).
Definition scheme_of (url : str) : str * str :=
  match split_once 58 url with
  | Some (candidate, rest) =>
      let first_ok := match candidate with c :: _ => is_ascii_alphabetic c | [] => false end in
      if negb (bool_decide (candidate = [])) && first_ok && forallb is_scheme_char candidate
      then (map ascii_lower candidate, rest) else ([], url)
  | None => ([], url)
  end.
(** [_splitparams]: the first [;] after the last [/], or the first [;]. *)
Definition cut_params (path : str) : str :=
  let tail := rev (until (fun c => c =? 47) (rev path)) in
  take (length path - length tail) path ++ until (fun c => c =? 59) tail.
Definition split_url (url : str) : result str SplitUrl :=
  let '(scheme, rest) := scheme_of url in
  let! rest :=
    match rest with
    | 47 :: 47 :: after =>
        let netloc := until (fun c => (c =? 47) || (c =? 63) || (c =? 35)) after in
        if negb (Bool.eqb (bool_decide (91 ∈ netloc)) (bool_decide (93 ∈ netloc))) then Err (lit "Invalid IPv6 URL")
        else Ok (drop (length netloc) after)
    | _ => Ok rest
    end in
  let rest := until (fun c => c =? 35) rest in
  let '(path, query) := default (rest, []) (split_once 63 rest) in
  Ok (mkSplitUrl (if bool_decide (scheme ∈ USES_PARAMS) && bool_decide (59 ∈ path) then cut_params path else path) query).

(** ** Reading a query *)

Fixpoint unquote_bytes (b : bytes) : bytes :=
  match b with
  | [] => []
  | c :: r =>
      match r with
      | h :: l :: r' =>
          match (if c =? 37 then to_digit16 h else None), to_digit16 l with
          | Some hi, Some lo => hi * 16 + lo :: unquote_bytes r'
          | _, _ => c :: unquote_bytes r
          end
      | _ => c :: unquote_bytes r
      end
  end.
Definition unquote_ascii (run : str) : str := from_utf8_lossy (unquote_bytes run).
(** The runs of ASCII characters are decoded, the characters between kept. *)
Fixpoint unquote_loop (s run : str) : str :=
  match s with
  | [] => match run with [] => [] | _ => unquote_ascii run end
  | c :: r =>
      if is_ascii c then unquote_loop r (run ++ [c])
      else match run with [] => [] | _ => unquote_ascii run end ++ c :: unquote_loop r []
  end.
Definition unquote (s : str) : str := if negb (bool_decide (37 ∈ s)) then s else unquote_loop s [].

Definition plus_to_space (s : str) : str := map (fun c => if c =? 43 then 32 else c) s.
(** [out.entry(name).or_default().push(value)]. *)
Definition push_value (out : list (str * list str)) (name v : str) : list (str * list str) :=
  im_insert out name (default [] (im_get out name) ++ [v]).
Definition parse_pair (pair : str) : option (str * str) :=
  let? (name, v) := split_once 61 pair in
  if bool_decide (v = []) then None
  else Some (unquote (plus_to_space name), unquote (plus_to_space v)).
Definition parse_qs (query : str) : list (str * list str) :=
  fold_left (fun out e => push_value out e.1 e.2) (omap parse_pair (split_on 38 query)) [].

(** ** Entropy *)

(** [f64::log2]. *)
Class Log2 := { log2 : spec_float -> spec_float }.

Definition count_byte (b : Z) (data : bytes) : Z := Z.of_nat (length (List.filter (Z.eqb b) data)).
Fixpoint shannon_loop `{Log2} (data rest : bytes) (seen : list Z) (entropy : spec_float) : spec_float :=
  match rest with
  | [] => entropy
  | b :: rest =>
      if bool_decide (b ∈ seen) then shannon_loop data rest seen entropy
      else
        let p := SFdiv 53 1024 (f64_of_int (count_byte b data)) (f64_of_int (Z.of_nat (length data))) in
        shannon_loop data rest (b :: seen) (SFsub 53 1024 entropy (SFmul 53 1024 p (log2 p)))
  end.
Definition shannon_entropy `{Log2} (data : bytes) : spec_float :=
  match data with [] => S754_zero false | _ => shannon_loop data data [] (S754_zero false) end.

(** ** The inspector *)

Record EntropyInspector : Type := mkEntropy {
  threshold : Num; min_body_bytes : Num; action : Action;
  exempt_content_types : list str; host_exempt_content_types : list (str * list str);
  check_url_params : bool; check_url_path : bool; url_threshold : Num; url_min_value_bytes : Num;
  host_url_param_allowlist : list (str * list str)
}.

(** The doubles 7.0 and 5.5. *)
Definition seven : spec_float := f64_of_int 7.
Definition five_and_a_half : spec_float := binary_normalize 53 1024 11 (-1) false.

Section Entropy.
Context `{Unicode} `{F64Text} `{Log2}.

Fixpoint merge_allowlist (user : Mapping) (merged : list (str * list str)) : result str (list (str * list str)) :=
  match user with
  | [] => Ok merged
  | (VString h, ps) :: rest =>
      let! ps := str_items ps (NAME ++ lit ".host_url_param_allowlist." ++ h) in
      merge_allowlist rest (im_insert merged h ps)
  | _ => Err (NAME ++ lit ".host_url_param_allowlist keys must be host names")
  end.
Definition lower_allowlist (merged : list (str * list str)) : list (str * list str) :=
  fold_left (fun allow e => im_insert allow (to_lowercase e.1) (map to_lowercase e.2)) merged [].

Definition from_config (section : Value) : result str EntropyInspector :=
  let! map := ConfigValues.section section NAME in
  let! merged :=
    match mget map (lit "host_url_param_allowlist") with
    | None => Ok DEFAULT_HOST_URL_PARAM_ALLOWLIST
    | Some (VMapping user) => merge_allowlist user DEFAULT_HOST_URL_PARAM_ALLOWLIST
    | Some v => Err (NAME ++ lit ".host_url_param_allowlist must be a mapping (got " ++ kind_name v ++ lit ")")
    end in
  let allow := lower_allowlist merged in
  let! threshold := num map (lit "threshold") (num_float seven) NAME in
  let! min_body_bytes := num map (lit "min_body_bytes") (num_int 256) NAME in
  let! action := string_ map (lit "action") (lit "block") NAME in
  let! exempt := str_list map (lit "exempt_content_types")
                   (List.map lit ["image/"; "application/gzip"; "application/zip"]%string) NAME in
  let! host_exempt := host_lists map (lit "host_exempt_content_types") NAME in
  let params := flag map (lit "check_url_params") true in
  let path := flag map (lit "check_url_path") true in
  let! url_threshold := num map (lit "url_threshold") (num_float five_and_a_half) NAME in
  let! url_min := num map (lit "url_min_value_bytes") (num_int 64) NAME in
  Ok (mkEntropy threshold min_body_bytes (action_of action) exempt host_exempt params path url_threshold url_min allow).

Definition verdict (i : EntropyInspector) (reason : str) (metadata : list (str * Json)) : Verdict :=
  mkVerdict NAME (action i) reason Error_ metadata.

Definition check_body (i : EntropyInspector) (ctx : Context) : option Verdict :=
  let? entropy := body_entropy ctx in
  let ct := content_type ctx in
  if f64_ltb (f64_of_int (body_size ctx)) (value (min_body_bytes i)) then None
  else if existsb (fun p => starts_with ct p) (exempt_content_types i) then None
  else if host_exempt (host_exempt_content_types i) (to_lowercase (host ctx)) ct then None
  else if f64_geb entropy (value (threshold i)) then
    Some (verdict i (lit "high entropy body: " ++ fixed2 entropy ++ lit " (threshold " ++ text (threshold i) ++ lit ")")
            [(lit "entropy", JFloat entropy); (lit "threshold", ConfigValues.json (threshold i));
             (lit "body_size", json_size (body_size ctx)); (lit "content_type", JStr ct)])
  else None.

(** A string's length is that of its UTF-8 bytes. *)
Definition long_enough (i : EntropyInspector) (len : nat) : bool :=
  f64_geb (f64_of_int (Z.of_nat len)) (value (url_min_value_bytes i)).

(** The parameters allowed to a host. *)
Definition allowed_params (i : EntropyInspector) (host : str) : list str :=
  flat_map (fun e => if host_matches host e.1 then e.2 else []) (host_url_param_allowlist i).

Definition check_value (i : EntropyInspector) (key val : str) : option Verdict :=
  let b := as_bytes val in
  if negb (long_enough i (length b)) then None
  else
    let ent := shannon_entropy b in
    if f64_geb ent (value (url_threshold i)) then
      Some (verdict i (lit "high entropy URL param '" ++ key ++ lit "': " ++ fixed2 ent
                       ++ lit " (threshold " ++ text (url_threshold i) ++ lit ")")
              [(lit "entropy", JFloat ent); (lit "url_threshold", ConfigValues.json (url_threshold i));
               (lit "param", JStr key); (lit "param_length", json_size (Z.of_nat (length b)))])
    else None.
(** The first verdict of a list of checks. *)
Fixpoint first_some {A B} (f : A -> option B) (l : list A) : option B :=
  match l with
  | [] => None
  | a :: r => match f a with Some b => Some b | None => first_some f r end
  end.
Definition check_params (i : EntropyInspector) (ctx : Context) (url : SplitUrl) : option Verdict :=
  if negb (check_url_params i) || bool_decide (query url = []) then None
  else
    let allowed := allowed_params i (to_lowercase (host ctx)) in
    if bool_decide (lit "*" ∈ allowed) then None
    else first_some (fun kv => if bool_decide (to_lowercase kv.1 ∈ allowed) then None
                               else first_some (check_value i kv.1) kv.2) (parse_qs (query url)).

Definition check_segment (i : EntropyInspector) (segment : str) : option Verdict :=
  let b := as_bytes segment in
  if bool_decide (segment = []) || negb (long_enough i (length b)) then None
  else
    let ent := shannon_entropy b in
    if f64_geb ent (value (url_threshold i)) then
      Some (verdict i (lit "high entropy URL path segment: " ++ fixed2 ent
                       ++ lit " (threshold " ++ text (url_threshold i) ++ lit ")")
              [(lit "entropy", JFloat ent); (lit "url_threshold", ConfigValues.json (url_threshold i));
               (lit "segment_length", json_size (Z.of_nat (length b)))])
    else None.
Definition check_path (i : EntropyInspector) (ctx : Context) (url : SplitUrl) : option Verdict :=
  if negb (check_url_path i) || bool_decide (path url = []) then None
  else if existsb (fun e => host_matches (to_lowercase (host ctx)) e.1 && existsb (fun p => bool_decide (p = lit "*")) e.2)
            (host_url_param_allowlist i) then None
  else first_some (check_segment i) (split_on 47 (path url)).

Definition inspect_request (i : EntropyInspector) (ctx : Context) : option Verdict :=
  match check_body i ctx with
  | Some v => Some v
  | None =>
      if negb (check_url_params i) && negb (check_url_path i) then None
      else
        match split_url (clean_url (url ctx)) with
        | Err e => Some (new_verdict NAME Block (lit "inspector " ++ NAME ++ lit " failed: " ++ e) Error_)
        | Ok url =>
            match check_params i ctx url with
            | Some v => Some v
            | None => check_path i ctx url
            end
        end
  end.

Definition entropy_inspector (i : EntropyInspector) : Inspect.Inspector := request_inspector NAME (inspect_request i).
End Entropy.

(** * Theorems *)

(** ** Reading a query back *)

(** Ways to write a string in a query: a byte as an escape, a space as a plus,
    any other character as itself. *)
Definition pct_byte (b : Z) : str := [37; hex_digit (b / 16); hex_digit (b mod 16)].
Inductive encodes : str -> str -> Prop :=
| enc_nil : encodes [] []
| enc_plain c s e : c ∉ [37; 38; 61; 43] -> encodes s e -> encodes (c :: s) (c :: e)
| enc_plus s e : encodes s e -> encodes (32 :: s) (43 :: e)
| enc_pct c s e : encodes s e -> encodes (c :: s) (flat_map pct_byte (utf8_char c) ++ e).

Lemma byte_halves b : 0 <= b < 256 -> 0 <= b / 16 < 16 /\ 0 <= b mod 16 < 16 /\ b / 16 * 16 + b mod 16 = b.
Proof.
  intros Hb. Z.to_euclidean_division_equations. lia.
Qed.

Lemma pct_byte_ascii b : 0 <= b < 256 -> Forall (fun c => is_ascii c = true /\ c <> 38 /\ c <> 61 /\ c <> 43) (pct_byte b).
Proof.
  intros Hb. destruct (byte_halves b Hb) as (Hh & Hl & _). unfold pct_byte, is_ascii, in_range.
  pose proof (hex_digit_range _ Hh). pose proof (hex_digit_range _ Hl). repeat constructor; lia.
Qed.

Lemma pct_bytes_ascii c : scalar c ->
  Forall (fun c => is_ascii c = true /\ c <> 38 /\ c <> 61 /\ c <> 43) (flat_map pct_byte (utf8_char c)).
Proof.
  intros Hc. pose proof (utf8_char_bytes c Hc) as Hb. induction Hb as [|b l Hb Hl IH]; [constructor|].
  cbn [flat_map]. apply Forall_app. split; [by apply pct_byte_ascii|exact IH].
Qed.

Lemma unquote_bytes_pct b r : 0 <= b < 256 -> unquote_bytes (pct_byte b ++ r) = b :: unquote_bytes r.
Proof.
  intros Hb. destruct (byte_halves b Hb) as (Hh & Hl & E). unfold pct_byte. cbn [app unquote_bytes].
  rewrite Z.eqb_refl, !to_digit16_hex_digit by assumption. by rewrite E.
Qed.

Lemma unquote_bytes_plain c r : c <> 37 -> unquote_bytes (c :: r) = c :: unquote_bytes r.
Proof.
  intros Hc. cbn [unquote_bytes]. assert ((c =? 37) = false) as -> by (by apply Z.eqb_neq).
  destruct r as [|h [|l r]]; reflexivity.
Qed.

(** The run [run] stands for [rs], whatever follows it. *)
Definition run_of (run rs : str) : Prop :=
  (forall rest, unquote_bytes (run ++ rest) = as_bytes rs ++ unquote_bytes rest) /\ Forall scalar rs.

Lemma run_of_nil : run_of [] [].
Proof. split; [reflexivity|constructor]. Qed.

Lemma run_of_flush run rs : run_of run rs -> match run with [] => [] | _ => unquote_ascii run end = rs.
Proof.
  intros [Hr Hs]. specialize (Hr []). rewrite app_nil_r in Hr. cbn [unquote_bytes] in Hr. rewrite app_nil_r in Hr.
  assert (E : unquote_ascii run = rs) by (unfold unquote_ascii; by rewrite Hr, from_utf8_lossy_as_bytes).
  destruct run; [|exact E]. by rewrite <- E.
Qed.

Lemma run_of_plain run rs c : run_of run rs -> 0 <= c < 128 -> c <> 37 -> run_of (run ++ [c]) (rs ++ [c]).
Proof.
  intros [Hr Hs] Hc Hne. split.
  - intros rest. rewrite <- app_assoc, Hr. cbn [app]. rewrite unquote_bytes_plain by exact Hne.
    unfold as_bytes. rewrite flat_map_app. cbn [flat_map]. rewrite utf8_char_ascii by lia.
    by rewrite app_nil_r, <- app_assoc.
  - apply Forall_app. split; [exact Hs|]. constructor; [unfold scalar; lia|constructor].
Qed.

Lemma run_of_pct run rs c : run_of run rs -> scalar c -> run_of (run ++ flat_map pct_byte (utf8_char c)) (rs ++ [c]).
Proof.
  intros [Hr Hs] Hc. split.
  - intros rest. rewrite <- app_assoc, Hr. unfold as_bytes. rewrite flat_map_app. cbn [flat_map].
    rewrite app_nil_r, <- app_assoc. f_equal. pose proof (utf8_char_bytes c Hc) as Hb.
    induction Hb as [|b l Hb Hl IH]; [reflexivity|]. cbn [flat_map]. rewrite <- app_assoc, unquote_bytes_pct by exact Hb.
    by rewrite IH.
  - apply Forall_app. split; [exact Hs|]. by constructor.
Qed.

Lemma unquote_loop_ascii l r run : Forall (fun c => is_ascii c = true) l ->
  unquote_loop (l ++ r) run = unquote_loop r (run ++ l).
Proof.
  intros Hl. revert run. induction Hl as [|c l Hc Hl IH]; intros run; [by rewrite app_nil_r|].
  cbn [app unquote_loop]. by rewrite Hc, IH, <- app_assoc.
Qed.

Lemma plus_to_space_app a b : plus_to_space (a ++ b) = plus_to_space a ++ plus_to_space b.
Proof. apply map_app. Qed.
Lemma plus_to_space_id l : Forall (fun c => c <> 43) l -> plus_to_space l = l.
Proof.
  induction 1 as [|c l Hc Hl IH]; [reflexivity|]. unfold plus_to_space in *. cbn [map]. rewrite IH.
  by assert ((c =? 43) = false) as -> by (by apply Z.eqb_neq).
Qed.

Lemma plus_to_space_plain c e : c <> 43 -> plus_to_space (c :: e) = c :: plus_to_space e.
Proof. intros Hc. unfold plus_to_space. cbn [map]. by assert ((c =? 43) = false) as -> by (by apply Z.eqb_neq). Qed.

Lemma unquote_loop_encodes s e run rs : encodes s e -> Forall scalar s -> run_of run rs ->
  unquote_loop (plus_to_space e) run = rs ++ s.
Proof.
  intros He. revert run rs. induction He as [|c s e Hc He IH|s e He IH|c s e He IH]; intros run rs Hs Hr.
  - cbn. rewrite app_nil_r. by apply run_of_flush.
  - apply Forall_cons in Hs as [Hc' Hs]. rewrite plus_to_space_plain by set_solver. cbn [unquote_loop].
    destruct (is_ascii c) eqn:Ea.
    + apply in_range_spec in Ea. rewrite (IH _ (rs ++ [c])); [by rewrite <- app_assoc|exact Hs|].
      apply run_of_plain; [exact Hr|lia|set_solver].
    + rewrite (run_of_flush _ _ Hr), (IH [] []); [done|exact Hs|apply run_of_nil].
  - apply Forall_cons in Hs as [_ Hs]. change (plus_to_space (43 :: e)) with (32 :: plus_to_space e).
    cbn [unquote_loop]. rewrite (IH _ (rs ++ [32])); [by rewrite <- app_assoc|exact Hs|].
    apply run_of_plain; [exact Hr|lia|lia].
  - apply Forall_cons in Hs as [Hc Hs]. pose proof (pct_bytes_ascii c Hc) as Hp. rewrite plus_to_space_app.
    rewrite (plus_to_space_id (flat_map _ _)) by (eapply Forall_impl; [exact Hp|]; cbn; tauto).
    rewrite unquote_loop_ascii by (eapply Forall_impl; [exact Hp|]; cbn; tauto).
    rewrite (IH _ (rs ++ [c])); [by rewrite <- app_assoc|exact Hs|by apply run_of_pct].
Qed.

(** No escape in an encoding: it differs from the string by its pluses only. *)
Lemma encodes_no_pct s e : encodes s e -> Forall scalar s -> 37 ∉ e -> plus_to_space e = s.
Proof.
  induction 1 as [|c s e Hc He IH|s e He IH|c s e He IH]; intros Hs Hn; [reflexivity| | |].
  - apply Forall_cons in Hs as [_ Hs]. rewrite plus_to_space_plain by set_solver. f_equal. apply IH; [exact Hs|set_solver].
  - apply Forall_cons in Hs as [_ Hs]. change (plus_to_space (43 :: e)) with (32 :: plus_to_space e).
    f_equal. apply IH; [exact Hs|set_solver].
  - exfalso. apply Hn. assert (Hne : utf8_char c <> []).
    { unfold utf8_char. by repeat case_goal. }
    destruct (utf8_char c) as [|b l]; [done|]. cbn. set_solver.
Qed.

Lemma unquote_encodes s e : encodes s e -> Forall scalar s -> unquote (plus_to_space e) = s.
Proof.
  intros He Hs. unfold unquote. destruct (bool_decide (37 ∈ plus_to_space e)) eqn:E; cbn [negb].
  - by rewrite (unquote_loop_encodes s e [] [] He Hs run_of_nil).
  - apply bool_decide_eq_false in E. apply encodes_no_pct; [exact He|exact Hs|]. intros Hin. apply E.
    unfold plus_to_space. apply list_elem_of_In, in_map_iff. exists 37. split; [reflexivity|by apply list_elem_of_In].
Qed.

Lemma encodes_chars s e : encodes s e -> Forall scalar s -> Forall (fun c => c <> 38 /\ c <> 61) e.
Proof.
  induction 1 as [|c s e Hc He IH|s e He IH|c s e He IH]; intros Hs; [constructor| | |];
    apply Forall_cons in Hs as [Hc' Hs].
  - constructor; [set_solver|by apply IH].
  - constructor; [lia|by apply IH].
  - apply Forall_app. split; [|by apply IH]. eapply Forall_impl; [by apply pct_bytes_ascii|]. cbn. tauto.
Qed.
Lemma encodes_nonempty s e : encodes s e -> s <> [] -> e <> [].
Proof.
  intros [] Hs; try done. unfold utf8_char. repeat case_goal; done.
Qed.

(** A query that writes the pairs: each name and value in some encoding. *)
Inductive query_of : list (str * str) -> list str -> Prop :=
| query_nil : query_of [] []
| query_cons n v en ev pairs pieces :
    encodes n en -> encodes v ev -> query_of pairs pieces -> query_of ((n, v) :: pairs) ((en ++ 61 :: ev) :: pieces).

Lemma parse_pair_encodes n v en ev : encodes n en -> encodes v ev -> Forall scalar n -> Forall scalar v -> v <> [] ->
  parse_pair (en ++ 61 :: ev) = Some (n, v).
Proof.
  intros Hn Hv Sn Sv Hne. unfold parse_pair. rewrite split_once_app.
  - rewrite bool_decide_eq_false_2 by (by apply (encodes_nonempty v)).
    by rewrite (unquote_encodes n), (unquote_encodes v).
  - pose proof (encodes_chars _ _ Hn Sn) as Hc. rewrite Forall_forall in Hc. intros Hin. by destruct (Hc _ Hin).
Qed.

Lemma query_of_read pairs pieces : query_of pairs pieces ->
  Forall (fun e => Forall scalar e.1 /\ Forall scalar e.2 /\ e.2 <> []) pairs ->
  omap parse_pair pieces = pairs /\ Forall (fun p => 38 ∉ p) pieces.
Proof.
  induction 1 as [|n v en ev pairs pieces Hn Hv Hq IH]; intros Hs; [by split; [|constructor]|].
  apply Forall_cons in Hs as [(Sn & Sv & Hne) Hs]. destruct (IH Hs) as [E Hf]. cbn in Sn, Sv, Hne.
  split.
  - cbn. rewrite (parse_pair_encodes n v) by assumption. f_equal. exact E.
  - constructor; [|exact Hf]. pose proof (encodes_chars _ _ Hn Sn) as H1. pose proof (encodes_chars _ _ Hv Sv) as H2.
    rewrite Forall_forall in H1, H2. intros Hin. rewrite elem_of_app, elem_of_cons in Hin.
    destruct Hin as [Hin|[?|Hin]]; [by destruct (H1 _ Hin)|lia|by destruct (H2 _ Hin)].
Qed.

(** The values given to a name, in order. *)
Definition values_of (name : str) (pairs : list (str * str)) : list str :=
  map snd (List.filter (fun e => bool_decide (e.1 = name)) pairs).
Lemma push_values pairs out : NoDup (im_keys out) ->
  let r := fold_left (fun out e => push_value out e.1 e.2) pairs out in
  NoDup (im_keys r) /\ forall name, default [] (im_get r name) = default [] (im_get out name) ++ values_of name pairs.
Proof.
  revert out. induction pairs as [|[n v] pairs IH]; intros out Hn; cbn [fold_left fst snd].
  { split; [exact Hn|]. intros name. by rewrite app_nil_r. }
  destruct (IH (push_value out n v)) as [Hr Hg]; [by apply im_insert_nodup|]. split; [exact Hr|].
  intros name. rewrite Hg. unfold values_of, push_value. cbn [List.filter fst].
  case_bool_decide as E.
  - subst. rewrite im_insert_get. cbn. by rewrite <- app_assoc.
  - by rewrite im_insert_get_ne.
Qed.

(** The query reader reads back every query: for any names and non-empty
    values, each written with any mix of escapes, pluses and literal
    characters, the result gives every name its values in the order of the
    query, each name once. *)
Theorem parse_qs_roundtrip pairs pieces : query_of pairs pieces -> pieces <> [] ->
  Forall (fun e => Forall scalar e.1 /\ Forall scalar e.2 /\ e.2 <> []) pairs ->
  NoDup (im_keys (parse_qs (join_with 38 pieces))) /\
  forall name, default [] (im_get (parse_qs (join_with 38 pieces)) name) = values_of name pairs.
Proof.
  intros Hq Hne Hs. destruct (query_of_read _ _ Hq Hs) as [E Hf]. unfold parse_qs.
  rewrite split_join by assumption. rewrite E. destruct (push_values pairs [] ltac:(constructor)) as [Hn Hg]. by split.
Qed.

Lemma parse_qs_roundtrip_witness :
  im_get (parse_qs (lit "a=x+%C3%a9&b=1&a=2")) (lit "a") = Some [[120; 32; 233]; lit "2"] /\
  default [] (im_get (parse_qs (join_with 38 [lit "a=x+%c3%a9"; lit "b=1"; lit "a=2"])) (lit "a")) = [[120; 32; 233]; lit "2"].
Proof.
  split; [vm_compute; reflexivity|].
  assert (Hp : forall c, c ∉ [37; 38; 61; 43] -> encodes [c] [c]) by (intros c Hc; by apply enc_plain, enc_nil).
  assert (Hx : encodes [120; 32; 233] (lit "x+%c3%a9")).
  { apply enc_plain; [set_solver|]. apply enc_plus. exact (enc_pct 233 [] [] enc_nil). }
  destruct (parse_qs_roundtrip [(lit "a", [120; 32; 233]); (lit "b", lit "1"); (lit "a", lit "2")]
    [lit "a" ++ 61 :: lit "x+%c3%a9"; lit "b" ++ 61 :: lit "1"; lit "a" ++ 61 :: lit "2"]) as [_ Hr].
  - repeat (apply query_cons; [apply Hp; set_solver|first [exact Hx|apply Hp; set_solver]|]). constructor.
  - discriminate.
  - repeat constructor; unfold scalar; cbn; (lia || discriminate).
  - exact (Hr (lit "a")).
Defined.

(** ** What passes *)

Section Passes.
Context `{Unicode} `{F64Text} `{Log2}.

Lemma first_some_none {A B} (f : A -> option B) l : first_some f l = None <-> forall a, a ∈ l -> f a = None.
Proof.
  induction l as [|a l IH]; cbn [first_some]; [split; [set_solver|done]|].
  destruct (f a) eqn:E.
  - split; [discriminate|]. intros Hall. rewrite <- E. apply Hall. set_solver.
  - rewrite IH. split; [intros Hall x [->|Hx]%elem_of_cons; auto|intros Hall x Hx; apply Hall; set_solver].
Qed.

(** A string the URL checks measure stays under the threshold. *)
Definition measured_low (i : EntropyInspector) (s : str) : Prop :=
  long_enough i (length (as_bytes s)) = true ->
  f64_geb (shannon_entropy (as_bytes s)) (value (url_threshold i)) = false.
Definition wildcard (i : EntropyInspector) (host : str) : Prop := lit "*" ∈ allowed_params i host.

Definition body_passes (i : EntropyInspector) (ctx : Context) : Prop :=
  forall e, body_entropy ctx = Some e ->
    f64_ltb (f64_of_int (body_size ctx)) (value (min_body_bytes i)) = true \/
    (exists p, p ∈ exempt_content_types i /\ starts_with (content_type ctx) p = true) \/
    host_exempt (host_exempt_content_types i) (to_lowercase (host ctx)) (content_type ctx) = true \/
    f64_geb e (value (threshold i)) = false.
Definition params_pass (i : EntropyInspector) (ctx : Context) (u : SplitUrl) : Prop :=
  check_url_params i = true -> ~ wildcard i (to_lowercase (host ctx)) ->
  forall k vs v, (k, vs) ∈ parse_qs (query u) -> v ∈ vs ->
    to_lowercase k ∉ allowed_params i (to_lowercase (host ctx)) -> measured_low i v.
Definition path_passes (i : EntropyInspector) (ctx : Context) (u : SplitUrl) : Prop :=
  check_url_path i = true -> ~ wildcard i (to_lowercase (host ctx)) ->
  forall segment, segment ∈ split_on 47 (path u) -> segment <> [] -> measured_low i segment.

Lemma check_body_none i ctx : check_body i ctx = None <-> body_passes i ctx.
Proof.
  unfold check_body, body_passes. destruct (body_entropy ctx) as [e|]; [|split; [intros _ ? [=]|done]].
  cbv zeta. pose proof (existsb_elem (fun p => starts_with (content_type ctx) p) (exempt_content_types i)) as Hx.
  destruct (f64_ltb _ _); [split; [intros _ ? [= <-]; by left|done]|].
  destruct (existsb _ _); [split; [intros _ ? [= <-]; right; left; by apply Hx|done]|].
  destruct (host_exempt _ _ _); [split; [intros _ ? [= <-]; do 2 right; by left|done]|].
  destruct (f64_geb e _) eqn:Eg; [split; [discriminate|]|split; [intros _ ? [= <-]; by do 3 right|done]].
  intros Hall. destruct (Hall e eq_refl) as [?|[Hp|[?|?]]]; [congruence|apply Hx in Hp; congruence|congruence|congruence].
Qed.

Lemma check_value_none i k v : check_value i k v = None <-> measured_low i v.
Proof.
  unfold check_value, measured_low. cbv zeta. destruct (long_enough i _); cbn [negb]; [|done].
  destruct (f64_geb _ _); [split; [discriminate|intros Hl; by specialize (Hl eq_refl)]|done].
Qed.

Lemma check_params_none i ctx u : check_params i ctx u = None <-> params_pass i ctx u.
Proof.
  unfold check_params, params_pass. destruct (check_url_params i); cbn [negb orb]; [|split; [intros _ [=]|done]].
  case_bool_decide as Eq; [split; [|done]|].
  { intros _ _ _ k vs v Hin. rewrite Eq in Hin. change (parse_qs []) with (@nil (str * list str)) in Hin. set_solver. }
  cbv zeta. unfold wildcard. case_bool_decide as Ew; [split; [by intros _ _ []|done]|].
  rewrite first_some_none. split.
  - intros Hall _ _ k vs v Hin Hv Hk. specialize (Hall _ Hin). cbn [fst snd] in Hall.
    rewrite bool_decide_eq_false_2 in Hall by exact Hk. rewrite first_some_none in Hall.
    apply (check_value_none i k). by apply Hall.
  - intros Hall [k vs] Hin. cbn [fst snd]. case_bool_decide as Ek; [reflexivity|].
    apply first_some_none. intros v Hv. apply check_value_none. by apply (Hall eq_refl Ew k vs v).
Qed.

Lemma wildcard_entries i host :
  existsb (fun e => host_matches host e.1 && existsb (fun p => bool_decide (p = lit "*")) e.2)
    (host_url_param_allowlist i) = true <-> wildcard i host.
Proof.
  unfold wildcard, allowed_params. rewrite existsb_elem. split.
  - intros ([h ps] & Hin & Hm). apply andb_true_iff in Hm as [Hm Hs]. apply existsb_elem in Hs as (p & Hp & E).
    apply bool_decide_eq_true in E as ->. apply list_elem_of_In, in_flat_map. exists (h, ps).
    split; [by apply list_elem_of_In|]. cbn [fst snd] in *. rewrite Hm. by apply list_elem_of_In.
  - intros Hin. apply list_elem_of_In, in_flat_map in Hin as ([h ps] & Hin & Hs). cbn [fst snd] in Hs.
    exists (h, ps). split; [by apply list_elem_of_In|]. cbn [fst snd]. destruct (host_matches host h); [|destruct Hs].
    cbn [andb]. apply existsb_elem. exists (lit "*"). split; [by apply list_elem_of_In|]. by apply bool_decide_eq_true.
Qed.

Lemma check_path_none i ctx u : check_path i ctx u = None <-> path_passes i ctx u.
Proof.
  unfold check_path, path_passes. destruct (check_url_path i); cbn [negb orb]; [|split; [intros _ [=]|done]].
  case_bool_decide as Ep; [split; [|done]|].
  { intros _ _ _ s Hin Hs. rewrite Ep in Hin. cbn in Hin. set_solver. }
  rewrite <- wildcard_entries.
  destruct (existsb _ (host_url_param_allowlist i)); [split; [by intros _ _ []|done]|].
  rewrite first_some_none.
  assert (Hseg : forall s, check_segment i s = None <-> (s <> [] -> measured_low i s)).
  { intros s. unfold check_segment, measured_low. cbv zeta. case_bool_decide as Es; [by split|]. cbn [orb].
    destruct (long_enough i _); cbn [negb]; [|done].
    destruct (f64_geb _ _); [split; [discriminate|intros Hl; by specialize (Hl Es eq_refl)]|done]. }
  split; intros Hall.
  - intros _ _ s Hs. by apply Hseg, Hall.
  - intros s Hs. apply Hseg. by apply Hall.
Qed.

(** Every verdict of a check carries the configured action. *)
Ltac own_action :=
  repeat match goal with
         | |- (if ?b then _ else _) = Some _ -> _ => destruct b
         | |- match ?o with Some _ => _ | None => _ end = Some _ -> _ => destruct o
         | |- None = Some _ -> _ => discriminate
         | |- Some (verdict _ _ _) = Some _ -> _ => intros [= <-]; reflexivity
         end.
Lemma first_some_action {A} i (f : A -> option Verdict) l v :
  (forall a v, f a = Some v -> Inspect.action v = action i) -> first_some f l = Some v -> Inspect.action v = action i.
Proof.
  intros Hf. induction l as [|a l IH]; cbn [first_some]; [discriminate|].
  destruct (f a) eqn:E; [intros [= <-]; by eapply Hf|exact IH].
Qed.
Lemma check_body_action i ctx v : check_body i ctx = Some v -> Inspect.action v = action i.
Proof. unfold check_body. cbv zeta. own_action. Qed.
Lemma check_params_action i ctx u v : check_params i ctx u = Some v -> Inspect.action v = action i.
Proof.
  unfold check_params. cbv zeta. own_action. apply first_some_action. intros kv w. own_action.
  apply first_some_action. intros x y. unfold check_value. cbv zeta. own_action.
Qed.
Lemma check_path_action i ctx u v : check_path i ctx u = Some v -> Inspect.action v = action i.
Proof.
  unfold check_path. own_action. apply first_some_action. intros s w. unfold check_segment. cbv zeta. own_action.
Qed.

(** The inspector lets a request pass exactly when its body passes and,
    if a URL check is on, its URL splits and every value of every query
    parameter not allowed to the host and every path segment that is long
    enough measures under the threshold ([*] in the host's allow list
    waiving both).  Nothing measured too high is missed, a URL that cannot be
    split is always blocked, and every other verdict carries the configured
    action. *)
Theorem entropy_spec i ctx :
  (inspect_request i ctx = None <->
     body_passes i ctx /\
     ((check_url_params i = false /\ check_url_path i = false) \/
      exists u, split_url (clean_url (url ctx)) = Ok u /\ params_pass i ctx u /\ path_passes i ctx u)) /\
  (forall v, inspect_request i ctx = Some v ->
     Inspect.action v = action i \/ (Inspect.action v = Block /\ exists e, split_url (clean_url (url ctx)) = Err e)).
Proof.
  unfold inspect_request. pose proof (check_body_none i ctx) as Hbody. pose proof (check_body_action i ctx) as Hact.
  destruct (check_body i ctx) as [b|].
  { split; [split; [discriminate|]|].
    - intros [Hb _]. by apply Hbody in Hb.
    - intros v [= <-]. left. by apply Hact. }
  destruct (negb (check_url_params i) && negb (check_url_path i)) eqn:E.
  { apply andb_true_iff in E as [E1 E2]. rewrite negb_true_iff in E1, E2. split; [|discriminate].
    split; [|done]. intros _. split; [by apply Hbody|by left]. }
  assert (Hoff : ~ (check_url_params i = false /\ check_url_path i = false)) by (intros [E1 E2]; by rewrite E1, E2 in E).
  destruct (split_url _) as [u|e].
  2:{ split; [split; [discriminate|]|intros v [= <-]; right; split; eauto].
      by intros (_ & [?|(u & ? & _)]). }
  pose proof (check_params_none i ctx u) as Hp. pose proof (check_params_action i ctx u) as Hpa.
  pose proof (check_path_none i ctx u) as Hq. pose proof (check_path_action i ctx u) as Hqa. split.
  - split.
    + intros Hn. split; [by apply Hbody|]. right. exists u. split; [reflexivity|].
      destruct (check_params i ctx u); [discriminate|]. split; [by apply Hp|by apply Hq].
    + intros (_ & [?|(u' & [= <-] & Hp' & Hq')]); [tauto|]. apply Hp in Hp'. rewrite Hp'. by apply Hq.
  - intros v Hv. left. destruct (check_params i ctx u); [injection Hv as <-; by apply Hpa|by apply Hqa].
Qed.
End Passes.
