(* ===== verification/Chain.v ===== *)
(** The inspector chain a config describes: the model of
    [agentcage-egress/src/inspect/chain.rs]. *)
From S2P Require Import Prelude IndexMap Timestamp Json Value Inspect DomainInspector ConfigValues.
From S2P Require BodySize Secrets ContentType Entropy.
From Stdlib Require Import ZifyBool.

(** * Definitions *)

Definition BUILTIN_NAMES : list str :=
  [DomainInspector.NAME; Secrets.NAME; BodySize.NAME; Entropy.NAME; ContentType.NAME].
Definition DEFAULT_MAX_REQUEST_BODY : Z := 10485760.

(** What the chain asks of the plugin host. *)
Class PluginLoader := {
  declared_name : str -> str -> result str str;
  instantiate : str -> str -> Value -> result str Inspect.Inspector
}.

Inductive SlotKind : Type := Builtin | Plugin (path : str).
#[export] Instance SlotKind_eq_dec : EqDecision SlotKind.
Proof. solve_decision. Defined.
Record Slot : Type := mkSlot { name : str; kind : SlotKind; config : Value }.

(** A member of the chain is the one long-lived domain inspector, whose state is
    shared with the rest of the egress, or an inspector of its own. *)
Inductive Member : Type := Shared | Own (i : Inspect.Inspector).

Definition empty_mapping : Value := VMapping [].

(** [_build_legacy_config]. *)
Definition legacy_sections (cfg : Config) : list (str * Value) :=
  let get k := cfg_get cfg (lit k) in
  let max_body := default (VNumber (NInt DEFAULT_MAX_REQUEST_BODY)) (get "max_request_body"%string) in
  [(DomainInspector.NAME, default empty_mapping (get "domains"%string));
   (Secrets.NAME, default empty_mapping (get "secrets"%string))]
  ++ (if truthy max_body then [(BodySize.NAME, VMapping [(VString (lit "max_bytes"), max_body)])] else [])
  ++ match get "entropy"%string with
     | Some (VMapping m) => [(Entropy.NAME, VMapping m)]
     | _ => []
     end
  ++ match get "content_type"%string with
     | Some (VBool false) => []
     | Some (VMapping m) => [(ContentType.NAME, VMapping m)]
     | _ => [(ContentType.NAME, empty_mapping)]
     end.

Fixpoint position_of (name_ : str) (slots : list Slot) : option nat :=
  match slots with
  | [] => None
  | s :: r => if bool_decide (name s = name_) then Some 0%nat else let? n := position_of name_ r in Some (S n)
  end.
Definition slot_named (slots : list Slot) (name_ : str) : option nat :=
  if bool_decide (name_ = []) then None else position_of name_ slots.
(** [slots[i].config = config]. *)
Definition set_config (slots : list Slot) (i : nat) (c : Value) : list Slot :=
  alter (fun s => mkSlot (name s) (kind s) c) i slots.

Section Chain.
Context `{Unicode} `{F64Text} `{StrDebug} `{Secrets.RegexEngine} `{Secrets.Env} `{Entropy.Log2}.
Context (BASE64_RE : Secrets.Regex).

(** A build without plugin support. *)
Definition NoPlugins : PluginLoader :=
  let refuse name path :=
    lit "custom inspector " ++ debug_str name ++ lit " (" ++ path ++ lit "): plugins are not supported by this egress" in
  {| declared_name := fun entry_name path => Err (refuse entry_name path);
     instantiate := fun name path _ => Err (refuse name path) |}.

(** ** The plan *)

Definition plan_entry `{PluginLoader} (entry : Value) (acc : list Slot * list str)
  : result str (list Slot * list str) :=
  let '(slots, warnings) := acc in
  match entry with
  | VMapping entry =>
      let name := match mget entry (lit "name") with Some v => coerce_to_string v | None => [] end in
      let path := match mget entry (lit "path") with
                  | Some p => if truthy p then Some (coerce_to_string p) else None
                  | None => None
                  end in
      let config := default empty_mapping (mget entry (lit "config")) in
      match path with
      | Some path =>
          match slot_named slots name with
          | Some i => Ok (set_config slots i config, warnings)
          | None =>
              let! declared := declared_name name path in
              match slot_named slots declared with
              | Some i => Ok (set_config slots i config, warnings)
              | None => Ok (slots ++ [mkSlot declared (Plugin path) config], warnings)
              end
          end
      | None =>
          if bool_decide (name ∈ BUILTIN_NAMES) then
            match slot_named slots name with
            | Some i => Ok (set_config slots i config, warnings)
            | None => Ok (slots ++ [mkSlot name Builtin config], warnings)
            end
          else Ok (slots, warnings ++ [lit "skipping unknown inspector: " ++ name])
      end
  | other => Err (lit "inspectors entries must be mappings (got " ++ kind_name other ++ lit ")")
  end.
Fixpoint plan_loop `{PluginLoader} (entries : list Value) (acc : list Slot * list str)
  : result str (list Slot * list str) :=
  match entries with
  | [] => Ok acc
  | entry :: rest => let! acc := plan_entry entry acc in plan_loop rest acc
  end.
Definition plan `{PluginLoader} (cfg : Config) : result str (list Slot * list str) :=
  let slots := map (fun e => mkSlot e.1 Builtin e.2) (legacy_sections cfg) in
  let! entries :=
    match cfg_get cfg (lit "inspectors") with
    | None => Ok []
    | Some v =>
        if negb (truthy v) then Ok []
        else match v with
             | VSequence entries => Ok entries
             | v => Err (lit "inspectors must be a list (got " ++ kind_name v ++ lit ")")
             end
    end in
  plan_loop entries (slots, []).

(** ** The chain *)

Record Chain : Type := mkChain {
  members : list Member; slots : list Slot; secrets : Secrets.SecretsInspector; warnings : list str
}.
Record PendingChain : Type := mkPending { chain : Chain; domain_config : DomainConfig }.

(** One slot's inspector, with the domain baseline or the secrets inspector it
    yields.  [None] is an [unreachable!] or the panic of the static patterns. *)
Definition build_slot `{PluginLoader} (slot : Slot)
  : option (result str (Member * option DomainConfig * option Secrets.SecretsInspector)) :=
  match kind slot with
  | Plugin path => Some (let! i := instantiate (name slot) path (config slot) in Ok (Own i, None, None))
  | Builtin =>
      if bool_decide (name slot = DomainInspector.NAME) then
        Some (let! c := DomainInspector.parse (config slot) in Ok (Shared, Some c, None))
      else if bool_decide (name slot = Secrets.NAME) then
        let? r := Secrets.from_config (config slot) in
        Some (let! s := r in Ok (Own (Secrets.secrets_inspector s), None, Some s))
      else if bool_decide (name slot = BodySize.NAME) then
        Some (let! b := BodySize.from_config (config slot) in Ok (Own (BodySize.body_size_inspector b), None, None))
      else if bool_decide (name slot = Entropy.NAME) then
        Some (let! e := Entropy.from_config (config slot) in Ok (Own (Entropy.entropy_inspector e), None, None))
      else if bool_decide (name slot = ContentType.NAME) then
        Some (let! c := ContentType.from_config (config slot) in
              Ok (Own (ContentType.content_type_inspector BASE64_RE c), None, None))
      else None
  end.
(** [Some] replaces what was found before. *)
Definition later {A} (new old : option A) : option A := match new with Some a => Some a | None => old end.
Fixpoint build_loop `{PluginLoader} (l : list Slot) (members : list Member) (dc : option DomainConfig)
    (sec : option Secrets.SecretsInspector)
  : option (result str (list Member * option DomainConfig * option Secrets.SecretsInspector)) :=
  match l with
  | [] => Some (Ok (members, dc, sec))
  | slot :: rest =>
      let? built := build_slot slot in
      match built with
      | Err e => Some (Err e)
      | Ok (m, dc', sec') => build_loop rest (members ++ [m]) (later dc' dc) (later sec' sec)
      end
  end.
(** [None] is a panic. *)
Definition build_chain `{PluginLoader} (cfg : Config) : option (result str PendingChain) :=
  match plan cfg with
  | Err e => Some (Err e)
  | Ok (slots, warnings) =>
      let? built := build_loop slots [] None None in
      match built with
      | Err e => Some (Err e)
      | Ok (members, Some domain_config, Some secrets) =>
          Some (Ok (mkPending (mkChain members slots secrets warnings) domain_config))
      | Ok _ => None
      end
  end.

(** [PendingChain::commit]: the only change to the live inspector. *)
Definition commit (p : PendingChain) (st : State) : State * Chain := (apply_config st (domain_config p), chain p).

(** The inspectors as they answer now. *)
Definition member_inspector (st : State) (now : Timestamp) (m : Member) : Inspect.Inspector :=
  match m with Shared => domain_inspector st now | Own i => i end.
Definition inspectors (st : State) (now : Timestamp) (c : Chain) : list Inspect.Inspector :=
  map (member_inspector st now) (members c).
Definition chain_inspects_responses (st : State) (now : Timestamp) (c : Chain) : bool :=
  existsb inspects_responses (inspectors st now c).
Definition names (c : Chain) : list str := map name (slots c).
Definition is_domain (m : Member) : bool := match m with Shared => true | Own _ => false end.

Definition relay_member (secrets : Secrets.SecretsInspector) (m : Member) (s : Slot) : option Member :=
  match kind s with
  | Builtin =>
      if bool_decide (name s = DomainInspector.NAME) then None
      else if bool_decide (name s = Secrets.NAME) then Some (Own (Secrets.relay_secrets secrets))
      else Some m
  | Plugin _ => Some m
  end.
Definition relay_inspectors (c : Chain) : list Member :=
  omap (fun e => relay_member (secrets c) e.1 e.2) (zip (members c) (slots c)).

(** ** The refusal *)

Definition REFUSE_ALL : str := lit "chain".
Definition refuse_all_inspector (reason : str) : Inspect.Inspector :=
  let answer := fun _ : Context => Some (new_verdict REFUSE_ALL Block reason Critical_) in
  mkInspector REFUSE_ALL answer answer true.
Definition refuse_all (reason : str) : option Chain :=
  match Secrets.from_config VNull with
  | Some (Ok secrets) =>
      Some (mkChain [Own (refuse_all_inspector (lit "egress inspector chain failed to load: " ++ reason))]
              [mkSlot REFUSE_ALL Builtin VNull] secrets [])
  | _ => None
  end.
End Chain.

(** * Theorems *)

Section Theorems.
Context `{Unicode} `{F64Text} `{StrDebug} `{Secrets.RegexEngine} `{Secrets.Env} `{Entropy.Log2}.
Context (BASE64_RE : Secrets.Regex).

(** ** The plan *)

(** What never changes of a slot. *)
Definition sig (s : Slot) : str * SlotKind := (name s, kind s).
Definition named (l : list (str * SlotKind)) : list str :=
  List.filter (fun n => negb (bool_decide (n = []))) (map fst l).
(** Slots with distinct non-empty names, the built-ins among them known. *)
Definition plan_ok (l : list (str * SlotKind)) : Prop :=
  NoDup (named l) /\ Forall (fun e => e.2 = Builtin -> e.1 ∈ BUILTIN_NAMES) l.

Lemma set_config_sig l i c : map sig (set_config l i c) = map sig l.
Proof.
  unfold set_config. revert i. induction l as [|s l IH]; intros [|i]; try reflexivity. cbn. f_equal. apply IH.
Qed.

Lemma position_of_spec n l :
  match position_of n l with
  | Some i => exists s, l !! i = Some s /\ name s = n
  | None => n ∉ map fst (map sig l)
  end.
Proof.
  induction l as [|s l IH]; cbn [position_of map]; [set_solver|]. case_bool_decide as E; [by exists s|].
  destruct (position_of n l) as [i|]; [exact IH|]. intros [Hn|Hn]%elem_of_cons; [by apply E|by apply IH].
Qed.

Lemma slot_named_none n l : slot_named l n = None -> n = [] \/ n ∉ map fst (map sig l).
Proof.
  unfold slot_named. case_bool_decide; [by left|]. intros E. right. pose proof (position_of_spec n l) as Hp. by rewrite E in Hp.
Qed.

Lemma named_elem n l : n ∈ named l <-> n <> [] /\ n ∈ map fst l.
Proof.
  unfold named. rewrite !list_elem_of_In, filter_In, negb_true_iff, bool_decide_eq_false. tauto.
Qed.

Lemma plan_ok_snoc l n k : plan_ok l -> n = [] \/ n ∉ map fst l -> (k = Builtin -> n ∈ BUILTIN_NAMES) -> plan_ok (l ++ [(n, k)]).
Proof.
  intros [Hn Hb] Hf Hk. split; [|apply Forall_app; split; [exact Hb|by constructor]].
  unfold named in *. rewrite map_app, List.filter_app. cbn [map fst List.filter].
  case_bool_decide as E; cbn [negb]; [by rewrite app_nil_r|]. destruct Hf as [?|Hf]; [done|].
  rewrite Permutation_app_comm. constructor; [|exact Hn]. fold (named l). rewrite named_elem. tauto.
Qed.

(** An entry reconfigures a slot or appends one. *)
Definition grows (l l' : list (str * SlotKind)) : Prop := exists extra, l' = l ++ extra.
Lemma plan_entry_ok `{PluginLoader} entry l w l' w' : plan_ok (map sig l) ->
  plan_entry entry (l, w) = Ok (l', w') -> plan_ok (map sig l') /\ grows (map sig l) (map sig l').
Proof.
  intros Hok. unfold plan_entry. destruct entry as [| | | | |e|]; try discriminate. cbv zeta.
  assert (Hset : forall i c, plan_ok (map sig (set_config l i c)) /\ grows (map sig l) (map sig (set_config l i c))).
  { intros i c. rewrite set_config_sig. split; [exact Hok|]. exists []. by rewrite app_nil_r. }
  assert (Hnew : forall n k c, slot_named l n = None -> (k = Builtin -> n ∈ BUILTIN_NAMES) ->
      plan_ok (map sig (l ++ [mkSlot n k c])) /\ grows (map sig l) (map sig (l ++ [mkSlot n k c]))).
  { intros n k c Hs Hk. rewrite map_app. split; [|by eexists]. apply plan_ok_snoc; [exact Hok| |exact Hk].
    by apply slot_named_none. }
  destruct (match mget e (lit "path") with Some p => _ | None => None end) as [path|].
  - destruct (slot_named l _); [intros [= <- <-]; apply Hset|].
    destruct (declared_name _ path) as [d|]; [|discriminate]. cbn [result_bind].
    destruct (slot_named l d) eqn:E; intros [= <- <-]; [apply Hset|by apply Hnew].
  - case_bool_decide as Eb; [|intros [= <- <-]; split; [exact Hok|exists []; by rewrite app_nil_r]].
    destruct (slot_named l _) eqn:E; intros [= <- <-]; [apply Hset|by apply Hnew].
Qed.

Lemma plan_loop_ok `{PluginLoader} entries l w l' w' : plan_ok (map sig l) ->
  plan_loop entries (l, w) = Ok (l', w') -> plan_ok (map sig l') /\ grows (map sig l) (map sig l').
Proof.
  revert l w. induction entries as [|e entries IH]; intros l w Hok; cbn [plan_loop].
  { intros [= <- <-]. split; [exact Hok|]. exists []. by rewrite app_nil_r. }
  destruct (plan_entry e (l, w)) as [[l1 w1]|] eqn:E; [|discriminate]. cbn [result_bind]. intros Hl.
  destruct (plan_entry_ok e _ _ _ _ Hok E) as [Hok1 (x1 & G1)]. destruct (IH _ _ Hok1 Hl) as [Hok2 (x2 & G2)].
  split; [exact Hok2|]. exists (x1 ++ x2). by rewrite G2, G1, app_assoc.
Qed.

Lemma plan_loop_app `{PluginLoader} a b acc : plan_loop (a ++ b) acc = let! acc := plan_loop a acc in plan_loop b acc.
Proof.
  revert acc. induction a as [|e a IH]; intros acc; [reflexivity|]. cbn [app plan_loop].
  destruct (plan_entry e acc); [apply IH|reflexivity].
Qed.

Definition legacy_sigs (cfg : Config) : list (str * SlotKind) := map (fun e => (e.1, Builtin)) (legacy_sections cfg).
Lemma legacy_ok cfg : plan_ok (legacy_sigs cfg) /\
  exists rest, legacy_sigs cfg = (DomainInspector.NAME, Builtin) :: (Secrets.NAME, Builtin) :: rest.
Proof.
  split; [|by eexists]. unfold legacy_sigs, legacy_sections. rewrite !map_app.
  set (a := map _ [_; _]). set (b := map _ (if truthy _ then _ else _)).
  set (c := map _ (match cfg_get cfg (lit "entropy") with _ => _ end)).
  set (d := map _ (match cfg_get cfg (lit "content_type") with _ => _ end)).
  assert (Ha : a = [(DomainInspector.NAME, Builtin); (Secrets.NAME, Builtin)]) by reflexivity.
  assert (Hb : b = [] \/ b = [(BodySize.NAME, Builtin)]) by (subst b; destruct (truthy _); auto).
  assert (Hc : c = [] \/ c = [(Entropy.NAME, Builtin)]) by (subst c; destruct (cfg_get cfg (lit "entropy")) as [v|]; [destruct v|]; auto).
  assert (Hd : d = [] \/ d = [(ContentType.NAME, Builtin)]) by 
    (subst d; destruct (cfg_get cfg (lit "content_type")) as [v|]; [destruct v as [|flag_| | | | |]; try destruct flag_|]; auto).
  clearbody a b c d. subst a. destruct Hb as [-> | ->], Hc as [-> | ->], Hd as [-> | ->];
    (split; [apply (bool_decide_unpack _); vm_compute; exact I|]);
    repeat constructor; intros _; apply (bool_decide_unpack _); vm_compute; exact I.
Qed.

Lemma plan_invariant `{PluginLoader} cfg l w : plan cfg = Ok (l, w) ->
  plan_ok (map sig l) /\ grows (legacy_sigs cfg) (map sig l).
Proof.
  unfold plan. cbv zeta.
  match goal with |- result_bind ?e _ = _ -> _ => destruct e as [entries|]; [|discriminate] end. cbn [result_bind].
  assert (E : map sig (map (fun e => mkSlot e.1 Builtin e.2) (legacy_sections cfg)) = legacy_sigs cfg).
  { rewrite map_map. reflexivity. }
  rewrite <- E. apply plan_loop_ok. rewrite E. apply legacy_ok.
Qed.

Lemma no_empty_builtin : [] ∉ BUILTIN_NAMES.
Proof. apply (bool_decide_unpack _). vm_compute. exact I. Qed.

(** The plan, whatever the plugins declare.  The built-ins the top-level
    keys enable stay first, in registry order, with domain and secrets always
    among them; no later entry removes one or makes it a plugin.  No two slots
    share a (non-empty) name and only known built-ins are planned as such.  An
    entry naming a built-in decides its configuration wholesale when nothing
    after it does. *)
Theorem plan_spec `{PluginLoader} cfg l w : plan cfg = Ok (l, w) ->
  (exists extra, map sig l = legacy_sigs cfg ++ extra) /\
  (exists rest, legacy_sigs cfg = (DomainInspector.NAME, Builtin) :: (Secrets.NAME, Builtin) :: rest) /\
  NoDup (named (map sig l)) /\
  (forall s, s ∈ l -> kind s = Builtin -> name s ∈ BUILTIN_NAMES) /\
  (forall before e n, cfg_get cfg (lit "inspectors") = Some (VSequence (before ++ [VMapping e])) ->
     mget e (lit "name") = Some (VString n) -> n ∈ BUILTIN_NAMES -> mget e (lit "path") = None ->
     exists s, s ∈ l /\ name s = n /\ config s = default empty_mapping (mget e (lit "config"))).
Proof.
  intros Hp. destruct (plan_invariant _ _ _ Hp) as [[Hn Hb] Hg].
  split; [exact Hg|]. split; [apply legacy_ok|]. split; [exact Hn|]. split.
  { intros s Hs. rewrite Forall_forall in Hb. apply (Hb (sig s)).
    apply list_elem_of_In, in_map. by apply list_elem_of_In. }
  intros before e n Hi He Hk Hpath. unfold plan in Hp. cbv zeta in Hp. rewrite Hi in Hp.
  destruct (negb (truthy (VSequence (before ++ [VMapping e])))) eqn:Et; [by destruct before|]. cbn [result_bind] in Hp.
  rewrite plan_loop_app in Hp. destruct (plan_loop before _) as [[l0 w0]|]; [|discriminate]. cbn [result_bind plan_loop] in Hp.
  unfold plan_entry in Hp. cbv zeta in Hp. rewrite He, Hpath in Hp. cbn [coerce_to_string] in Hp.
  rewrite bool_decide_eq_true_2 in Hp by exact Hk. set (c := default empty_mapping _) in *.
  assert (Hne : n <> []) by (intros ->; by apply no_empty_builtin).
  assert (Es : slot_named l0 n = position_of n l0) by (unfold slot_named; by rewrite bool_decide_eq_false_2).
  rewrite Es in Hp. pose proof (position_of_spec n l0) as Hpos. destruct (position_of n l0) as [i|].
  - injection Hp as <- <-. destruct Hpos as (s & Hs & En). exists (mkSlot (name s) (kind s) c). split; [|by split].
    apply (list_elem_of_lookup_2 _ i). unfold set_config. rewrite list_lookup_alter_eq, Hs. reflexivity.
  - injection Hp as <- <-. exists (mkSlot n Builtin c). split; [set_solver|by split].
Qed.

(** ** The build *)

Definition special (e : str * SlotKind) : bool :=
  bool_decide (e = (DomainInspector.NAME, Builtin)) || bool_decide (e = (Secrets.NAME, Builtin)).

Lemma build_slot_ordinary `{PluginLoader} s m dc sec : special (sig s) = false ->
  build_slot BASE64_RE s = Some (Ok (m, dc, sec)) -> is_domain m = false /\ dc = None /\ sec = None.
Proof.
  unfold special, sig, build_slot. rewrite orb_false_iff, !bool_decide_eq_false.
  destruct (kind s) eqn:Ek.
  - intros [Hd Hs]. rewrite (bool_decide_eq_false_2 (name s = DomainInspector.NAME)) by congruence.
    rewrite (bool_decide_eq_false_2 (name s = Secrets.NAME)) by congruence.
    repeat match goal with
           | |- (if ?b then _ else _) = _ -> _ => destruct b; [|]
           | |- Some (result_bind ?r _) = _ -> _ => destruct r; cbn [result_bind]; [|discriminate]
           end; try discriminate; by intros [= <- <- <-].
  - intros _. destruct (instantiate _ _ _); cbn [result_bind]; [by intros [= <- <- <-]|discriminate].
Qed.

Lemma build_slot_total `{PluginLoader} s : Secrets.BUILTINS <> None -> (kind s = Builtin -> name s ∈ BUILTIN_NAMES) ->
  build_slot BASE64_RE s <> None.
Proof.
  intros HB Hs. unfold build_slot. destruct (kind s); [|discriminate]. specialize (Hs eq_refl).
  unfold BUILTIN_NAMES in Hs. rewrite !elem_of_cons in Hs.
  assert (Hsec : Secrets.from_config (config s) <> None).
  { unfold Secrets.from_config. destruct (ConfigValues.section _ _); [|discriminate]. cbv zeta.
    destruct (flag _ _ _); [|discriminate]. by destruct Secrets.BUILTINS. }
  repeat case_bool_decide; try discriminate; [by destruct (Secrets.from_config _)|].
  destruct Hs as [?|[?|[?|[?|[?|Hnil]]]]]; try done. by apply not_elem_of_nil in Hnil.
Qed.

Lemma build_loop_total `{PluginLoader} l ms dc sec : Secrets.BUILTINS <> None ->
  (forall s, s ∈ l -> kind s = Builtin -> name s ∈ BUILTIN_NAMES) -> build_loop BASE64_RE l ms dc sec <> None.
Proof.
  intros HB. revert ms dc sec. induction l as [|s l IH]; intros ms dc sec Hl; cbn [build_loop]; [discriminate|].
  pose proof (build_slot_total s HB (Hl s ltac:(set_solver))) as Hs.
  destruct (build_slot BASE64_RE s) as [[[[m dc'] sec']|]|]; [|discriminate|done]. apply IH. intros x Hx. apply Hl. set_solver.
Qed.

Lemma build_loop_ordinary `{PluginLoader} l ms dc sec ms' dc' sec' :
  Forall (fun s => special (sig s) = false) l ->
  build_loop BASE64_RE l ms dc sec = Some (Ok (ms', dc', sec')) ->
  dc' = dc /\ sec' = sec /\ exists own, ms' = ms ++ own /\ length own = length l /\ Forall (fun m => is_domain m = false) own.
Proof.
  intros Hl. revert ms dc sec. induction Hl as [|s l Hs Hl IH]; intros ms dc sec; cbn [build_loop].
  { intros [= <- <- <-]. do 2 (split; [reflexivity|]). exists []. by rewrite app_nil_r. }
  destruct (build_slot BASE64_RE s) as [[[[m dc1] sec1]|]|] eqn:E; [|discriminate|discriminate].
  destruct (build_slot_ordinary _ _ _ _ Hs E) as (Hm & -> & ->). cbn [later]. intros Hb.
  destruct (IH _ _ _ Hb) as (-> & -> & own & -> & Hlen & Hown). do 2 (split; [reflexivity|]).
  exists (m :: own). rewrite <- app_assoc. cbn. repeat split; [lia|by constructor].
Qed.

(** The first two slots are the domain and the secrets slots, and only they. *)
Lemma plan_shape `{PluginLoader} cfg l w : plan cfg = Ok (l, w) -> exists d s rest, l = d :: s :: rest /\
  sig d = (DomainInspector.NAME, Builtin) /\ sig s = (Secrets.NAME, Builtin) /\
  Forall (fun s => special (sig s) = false) rest.
Proof.
  intros Hp. destruct (plan_invariant _ _ _ Hp) as [[Hn _] (extra & Hg)].
  destruct (legacy_ok cfg) as (_ & tail & Hl). rewrite Hl in Hg.
  destruct l as [|d [|s rest]]; try discriminate. cbn [map app] in Hg.
  assert (Hd : sig d = (DomainInspector.NAME, Builtin)) by congruence.
  assert (Hs : sig s = (Secrets.NAME, Builtin)) by congruence. clear Hg.
  exists d, s, rest. split; [reflexivity|]. split; [exact Hd|]. split; [exact Hs|].
  cbn [map] in Hn. rewrite Hd, Hs in Hn. unfold named in Hn. cbn [map fst List.filter] in Hn.
  rewrite !bool_decide_eq_false_2 in Hn by discriminate. cbn [negb] in Hn.
  apply NoDup_cons in Hn as [Hnd Hn]. apply NoDup_cons in Hn as [Hns _].
  apply Forall_forall. intros x Hx. unfold special. rewrite orb_false_iff, !bool_decide_eq_false.
  assert (Hin : forall n k, sig x = (n, k) -> n <> [] -> n ∈ named (map sig rest)).
  { intros n k E Hne. apply named_elem. split; [exact Hne|]. apply list_elem_of_In, in_map_iff.
    exists (sig x). rewrite E. split; [reflexivity|]. rewrite <- E. apply in_map. by apply list_elem_of_In. }
  split; intros E; specialize (Hin _ _ E ltac:(discriminate)); unfold named in Hin; [set_solver|set_solver].
Qed.

Lemma build_slot_domain `{PluginLoader} d : sig d = (DomainInspector.NAME, Builtin) ->
  build_slot BASE64_RE d = Some (let! c := DomainInspector.parse (config d) in Ok (Shared, Some c, None)).
Proof. intros [= En Ek]. unfold build_slot. rewrite Ek, En. by rewrite bool_decide_eq_true_2. Qed.
Lemma build_slot_secrets `{PluginLoader} s : sig s = (Secrets.NAME, Builtin) ->
  build_slot BASE64_RE s = let? r := Secrets.from_config (config s) in
    Some (let! sec := r in Ok (Own (Secrets.secrets_inspector sec), None, Some sec)).
Proof.
  intros [= En Ek]. unfold build_slot. rewrite Ek, En.
  rewrite bool_decide_eq_false_2 by discriminate. by rewrite bool_decide_eq_true_2.
Qed.

(** The inspector a slot past the first two asks for: a plugin's, loaded from the
    slot's path with the slot's config, or the built-in of the slot's name reading the
    slot's config. *)
Inductive slot_inspector `{PluginLoader} (s : Slot) : Inspect.Inspector -> Prop :=
| plugin_slot path i : kind s = Plugin path -> instantiate (name s) path (config s) = Ok i -> slot_inspector s i
| body_size_slot b : kind s = Builtin -> name s = BodySize.NAME -> BodySize.from_config (config s) = Ok b ->
    slot_inspector s (BodySize.body_size_inspector b)
| entropy_slot e : kind s = Builtin -> name s = Entropy.NAME -> Entropy.from_config (config s) = Ok e ->
    slot_inspector s (Entropy.entropy_inspector e)
| content_type_slot c : kind s = Builtin -> name s = ContentType.NAME -> ContentType.from_config (config s) = Ok c ->
    slot_inspector s (ContentType.content_type_inspector BASE64_RE c).
Definition slot_member `{PluginLoader} (s : Slot) (m : Member) : Prop := exists i, m = Own i /\ slot_inspector s i.

Lemma build_slot_member `{PluginLoader} s m dc sec : special (sig s) = false ->
  build_slot BASE64_RE s = Some (Ok (m, dc, sec)) -> slot_member s m.
Proof.
  unfold special, sig, build_slot. rewrite orb_false_iff, !bool_decide_eq_false.
  destruct (kind s) as [|path] eqn:Ek.
  - intros [Hd Hs]. rewrite (bool_decide_eq_false_2 (name s = DomainInspector.NAME)) by congruence.
    rewrite (bool_decide_eq_false_2 (name s = Secrets.NAME)) by congruence.
    case_bool_decide as E1; [destruct (BodySize.from_config _) eqn:Ec|
      case_bool_decide as E2; [destruct (Entropy.from_config _) eqn:Ec|
        case_bool_decide as E3; [destruct (ContentType.from_config _) eqn:Ec|discriminate]]];
      cbn [result_bind]; try discriminate; intros [= <- _ _]; eexists; (split; [reflexivity|]).
    + by apply body_size_slot.
    + by apply entropy_slot.
    + by apply content_type_slot.
  - intros _. destruct (instantiate _ _ _) eqn:Ei; cbn [result_bind]; [|discriminate]. intros [= <- _ _].
    eexists. split; [reflexivity|]. by eapply plugin_slot.
Qed.
Lemma build_loop_members `{PluginLoader} l ms dc sec own dc' sec' :
  Forall (fun s => special (sig s) = false) l ->
  build_loop BASE64_RE l ms dc sec = Some (Ok (ms ++ own, dc', sec')) -> Forall2 slot_member l own.
Proof.
  intros Hl. revert ms dc sec own. induction Hl as [|s l Hs Hl IH]; intros ms dc sec own; cbn [build_loop].
  { intros [= E _ _]. rewrite <- (app_nil_r ms) in E at 1. apply app_inv_head in E as <-. constructor. }
  destruct (build_slot BASE64_RE s) as [[[[m dc1] sec1]|]|] eqn:E; [|discriminate|discriminate]. intros Hb.
  destruct (build_loop_ordinary l (ms ++ [m]) _ _ _ _ _ Hl Hb) as (_ & _ & rest & Er & _).
  rewrite <- app_assoc in Er. apply app_inv_head in Er as ->. cbn in *. constructor; [by eapply build_slot_member|].
  apply (IH (ms ++ [m]) (later dc1 dc) (later sec1 sec)). by rewrite <- app_assoc.
Qed.
(** A build fails with the error of one of its slots. *)
Lemma build_loop_err `{PluginLoader} l ms dc sec e : build_loop BASE64_RE l ms dc sec = Some (Err e) ->
  exists s, s ∈ l /\ build_slot BASE64_RE s = Some (Err e).
Proof.
  revert ms dc sec. induction l as [|s l IH]; intros ms dc sec; cbn [build_loop]; [discriminate|].
  destruct (build_slot BASE64_RE s) as [[[[m dc1] sec1]|e']|] eqn:E; [|intros [= <-]; exists s; by split; [left|]|discriminate].
  intros Hb. destruct (IH _ _ _ Hb) as (x & Hx & He). exists x. by split; [right|].
Qed.

(** A built chain follows its plan slot by slot. *)
Definition follows_plan `{PluginLoader} (cfg : Config) (p : PendingChain) : Prop :=
  plan cfg = Ok (slots (chain p), warnings (chain p)) /\
  exists d s rest own, slots (chain p) = d :: s :: rest /\
    DomainInspector.parse (config d) = Ok (domain_config p) /\
    Secrets.from_config (config s) = Some (Ok (secrets (chain p))) /\
    members (chain p) = Shared :: Own (Secrets.secrets_inspector (secrets (chain p))) :: own /\
    length own = length rest /\ Forall (fun m => is_domain m = false) own /\ Forall2 slot_member rest own.

Lemma build_chain_shape `{PluginLoader} cfg : Secrets.BUILTINS <> None ->
  build_chain BASE64_RE cfg <> None /\
  forall p, build_chain BASE64_RE cfg = Some (Ok p) -> follows_plan cfg p.
Proof.
  intros HB. unfold build_chain. destruct (plan cfg) as [[l w]|] eqn:Hp; [|split; [discriminate|discriminate]].
  destruct (plan_shape _ _ _ Hp) as (d & s & rest & -> & Hd & Hs & Hr).
  destruct (plan_invariant _ _ _ Hp) as [[_ Hb] _].
  assert (Hk : forall x, x ∈ d :: s :: rest -> kind x = Builtin -> name x ∈ BUILTIN_NAMES).
  { intros x Hx. rewrite Forall_forall in Hb. apply (Hb (sig x)). apply list_elem_of_In, in_map. by apply list_elem_of_In. }
  pose proof (build_loop_total (d :: s :: rest) [] None None HB Hk) as Htot. revert Htot.
  cbn [build_loop]. rewrite (build_slot_domain _ Hd).
  destruct (DomainInspector.parse (config d)) as [dc|] eqn:Edc; cbn [result_bind]; [|split; discriminate].
  rewrite (build_slot_secrets _ Hs).
  destruct (Secrets.from_config (config s)) as [[sec|]|] eqn:Esf; cbn [result_bind later app];
    [|split; discriminate|done].
  destruct (build_loop BASE64_RE rest _ _ _) as [[[[ms dc'] sec']|]|] eqn:El; [|split; discriminate|done].
  destruct (build_loop_ordinary _ _ _ _ _ _ _ Hr El) as (-> & -> & own & -> & Hlen & Hown). intros _.
  pose proof (build_loop_members _ _ _ _ _ _ _ Hr El) as Hmem. split; [discriminate|]. intros p [= <-]. cbn [chain slots warnings secrets domain_config members]. split; [exact Hp|].
  exists d, s, rest, own. by split_and!.
Qed.

(** C18: Building a chain.  None of the [unreachable!] branches is reached (the
    static patterns compiling), whatever the config and the plugins.  A chain that
    builds follows its plan slot by slot: the shared domain inspector first, and only
    there, with the baseline its slot's config describes; then the secrets inspector
    its slot configures, the one the chain hands out; then, for every remaining slot in
    order, the built-in of that slot's name reading that slot's config, or the plugin
    loaded from that slot's path with its config.  A chain that does not build reports
    the error of the plan or of one of its slots.  Committing a chain gives the live
    inspector the planned baseline, leaves its grants alone, and the members past the
    first answer as they did. *)
Theorem build_chain_spec `{PluginLoader} cfg : Secrets.BUILTINS <> None ->
  match build_chain BASE64_RE cfg with
  | None => False
  | Some (Err e) => plan cfg = Err e
      \/ exists slots w s, plan cfg = Ok (slots, w) /\ s ∈ slots /\ build_slot BASE64_RE s = Some (Err e)
  | Some (Ok p) => follows_plan cfg p
      /\ forall st now, let '(st', c) := commit p st in
         granted st' = granted st /\ DomainInspector.config st' = domain_config p
         /\ inspectors st' now c = domain_inspector st' now :: tail (inspectors st now c)
  end.
Proof.
  intros HB. destruct (build_chain_shape cfg HB) as [Hn Hs]. destruct (build_chain BASE64_RE cfg) as [[p|e]|] eqn:Hb; [| |done].
  - pose proof (Hs p eq_refl) as Hf. split; [exact Hf|]. destruct Hf as (_ & d & s & rest & own & _ & _ & _ & Hm & _ & Hown & _).
    intros st now. unfold commit, inspectors. rewrite Hm. do 2 (split; [reflexivity|]). cbn [map tail member_inspector]. do 2 f_equal.
    apply map_ext_Forall. eapply Forall_impl; [exact Hown|]. by intros [].
  - unfold build_chain in Hb. destruct (plan cfg) as [[l w]|e'] eqn:Hp; [|left; congruence]. right. exists l, w.
    destruct (build_loop BASE64_RE l [] None None) as [[[[ms [dc|]] [sec|]]|e']|] eqn:El; try discriminate.
    injection Hb as ->. destruct (build_loop_err _ _ _ _ _ El) as (s & Hs' & He). by exists s.
Qed.

(** ** Relays and refusals *)

Lemma relay_member_ordinary sec m s : special (sig s) = false -> relay_member sec m s = Some m.
Proof.
  unfold special, sig, relay_member. rewrite orb_false_iff, !bool_decide_eq_false. intros [Hd Hs].
  destruct (kind s); [|reflexivity]. rewrite !bool_decide_eq_false_2 by congruence. reflexivity.
Qed.

Lemma relay_ordinary sec own rest : length own = length rest -> Forall (fun s => special (sig s) = false) rest ->
  omap (fun e => relay_member sec e.1 e.2) (zip own rest) = own.
Proof.
  revert rest. induction own as [|m own IH]; intros [|s rest] Hl Hr; try discriminate; [reflexivity|].
  apply Forall_cons in Hr as [Hs Hr]. cbn. rewrite relay_member_ordinary by exact Hs. f_equal. apply IH; [|exact Hr].
  by injection Hl.
Qed.

(** What the protocol relays run is the built chain without the domain
    inspector and with the secrets inspector in its relay form, everything else
    kept in order; so a leak in a mail is a block unless the operator chose the
    action. *)
Theorem relay_spec `{PluginLoader} cfg p : Secrets.BUILTINS <> None -> build_chain BASE64_RE cfg = Some (Ok p) ->
  exists own, members (chain p) = Shared :: Own (Secrets.secrets_inspector (secrets (chain p))) :: own /\
    relay_inspectors (chain p) = Own (Secrets.relay_secrets (secrets (chain p))) :: own /\
    Forall (fun m => is_domain m = false) (relay_inspectors (chain p)) /\
    (forall ctx v, Inspect.inspect_request (Secrets.relay_secrets (secrets (chain p))) ctx = Some v ->
       Secrets.action_explicit (secrets (chain p)) = false -> Inspect.action v = Block).
Proof.
  intros HB Hb. destruct (build_chain_shape cfg HB) as [_ Hs].
  destruct (Hs p Hb) as (Hp & d & s & rest & own & Hsl & _ & _ & Hm & Hlen & Hown & _).
  exists own. split; [exact Hm|]. rewrite Hsl in Hp. destruct (plan_shape _ _ _ Hp) as (d' & s' & rest' & E & Hd & Hse & Hr).
  injection E as <- <- <-. injection Hd as Nd Kd. injection Hse as Ns Ks.
  assert (Hri : relay_inspectors (chain p) = Own (Secrets.relay_secrets (secrets (chain p))) :: own).
  { unfold relay_inspectors. rewrite Hm, Hsl. cbn [zip zip_with omap list_omap fst snd].
    unfold relay_member at 1. rewrite Kd, Nd, bool_decide_eq_true_2 by reflexivity.
    unfold relay_member at 1. rewrite Ks, Ns, bool_decide_eq_false_2 by discriminate.
    rewrite bool_decide_eq_true_2 by reflexivity. f_equal. by apply relay_ordinary. }
  split; [exact Hri|]. split; [rewrite Hri; by constructor|].
  intros ctx v. cbn [Secrets.relay_secrets Inspect.inspect_request]. unfold Secrets.adjust.
  destruct (Inspect.inspect_request _ ctx); [|discriminate]. intros [= <-] ->. reflexivity.
Qed.

Lemma plan_entry_no_plugins entry l w l' w' :
  plan_entry (H5 := NoPlugins) entry (l, w) = Ok (l', w') -> Forall (fun s => kind s = Builtin) l ->
  Forall (fun s => kind s = Builtin) l' /\
  forall e q, entry = VMapping e -> mget e (lit "path") = Some q -> truthy q = true ->
    match mget e (lit "name") with Some v => coerce_to_string v | None => [] end ∈ map fst (map sig l).
Proof.
  unfold plan_entry. destruct entry as [| | | | |e|]; try discriminate. cbv zeta. intros He Hl.
  set (n := match mget e (lit "name") with Some v => _ | None => _ end) in *.
  set (c := default _ _) in *.
  assert (Hset : forall i, Forall (fun s => kind s = Builtin) (set_config l i c)).
  { unfold set_config. clear He. induction Hl as [|s l Hs Hl IH]; intros [|i]; try constructor; try assumption. apply IH. }
  assert (Hnamed : forall i, slot_named l n = Some i -> n ∈ map fst (map sig l)).
  { intros i. unfold slot_named. destruct (bool_decide (n = [])); [discriminate|]. intros Ei. pose proof (position_of_spec n l) as Hp.
    rewrite Ei in Hp. destruct Hp as (s & Hs & <-). apply list_elem_of_lookup_2 in Hs.
    apply list_elem_of_In, in_map_iff. exists (sig s). split; [reflexivity|]. apply in_map. by apply list_elem_of_In. }
  destruct (mget e (lit "path")) as [q|] eqn:Eq; [destruct (truthy q) eqn:Et|].
  { destruct (slot_named l n) as [i|] eqn:Ei; [|by cbn in He]. injection He as <- <-. split; [apply Hset|].
    intros e' q' [= <-] _ _. by apply (Hnamed i). }
  all: assert (Hrest : Forall (fun s => kind s = Builtin) l') by
    (destruct (bool_decide (n ∈ BUILTIN_NAMES)); [|by injection He as <- <-];
     destruct (slot_named l n); injection He as <- <-; [apply Hset|apply Forall_app; split; [exact Hl|by constructor]]).
  all: split; [exact Hrest|]; intros e' q' [= <-] Eq' Et'; congruence.
Qed.

Lemma names_grow l l' n : grows (map sig l) (map sig l') -> n ∈ map fst (map sig l) -> n ∈ map fst (map sig l').
Proof. intros (x & ->). rewrite map_app, elem_of_app. by left. Qed.

Lemma plan_loop_no_plugins entries l w l' w' : plan_ok (map sig l) ->
  plan_loop (H5 := NoPlugins) entries (l, w) = Ok (l', w') -> Forall (fun s => kind s = Builtin) l ->
  Forall (fun s => kind s = Builtin) l' /\
  forall e q, VMapping e ∈ entries -> mget e (lit "path") = Some q -> truthy q = true ->
    match mget e (lit "name") with Some v => coerce_to_string v | None => [] end ∈ map fst (map sig l').
Proof.
  revert l w. induction entries as [|entry entries IH]; intros l w Hok; cbn [plan_loop].
  { intros [= <- <-] Hl. split; [exact Hl|]. intros e q He. by apply not_elem_of_nil in He. }
  destruct (plan_entry entry (l, w)) as [[l1 w1]|] eqn:Ee; [|discriminate]. cbn [result_bind]. intros Hloop Hl.
  destruct (plan_entry_ok (H5 := NoPlugins) _ _ _ _ _ Hok Ee) as [Hok1 Hg1].
  destruct (plan_entry_no_plugins _ _ _ _ _ Ee Hl) as [Hl1 Hn1].
  destruct (plan_loop_ok (H5 := NoPlugins) _ _ _ _ _ Hok1 Hloop) as [_ Hg2].
  destruct (IH _ _ Hok1 Hloop Hl1) as [Hl2 Hn2]. split; [exact Hl2|].
  intros e q [E|Hin]%elem_of_cons Hq Ht; [|by eapply Hn2].
  apply (names_grow l1); [exact Hg2|]. apply (names_grow l); [exact Hg1|]. by apply (Hn1 e q).
Qed.

(** Failing closed.  An egress without plugin support plans only
    built-ins, and no plan at all for a config that lists a plugin under a name
    of its own: a chain never runs without a plugin it was told to load.  And
    the chain used when no config ever built always builds, blocks every
    request and every response, over HTTP and over the relays, and gives the
    reason. *)
Theorem fail_closed reason : Secrets.BUILTINS <> None ->
  (forall cfg l w, plan (H5 := NoPlugins) cfg = Ok (l, w) ->
     Forall (fun s => kind s = Builtin) l /\
     forall entries e q, cfg_get cfg (lit "inspectors") = Some (VSequence entries) -> VMapping e ∈ entries ->
       mget e (lit "path") = Some q -> truthy q = true ->
       match mget e (lit "name") with Some v => coerce_to_string v | None => [] end ∈ map name l) /\
  exists c, refuse_all reason = Some c /\
    forall st now phase ctx, exists v,
      (run_chain (inspectors st now c) ctx phase (fun _ => false)).1 = [v] /\
      (run_chain (map (member_inspector st now) (relay_inspectors c)) ctx phase (fun _ => false)).1 = [v] /\
      action v = Block /\ Inspect.reason v = lit "egress inspector chain failed to load: " ++ reason /\
      chain_inspects_responses st now c = true.
Proof.
  intros HB. split.
  - intros cfg l w Hp. unfold plan in Hp. cbv zeta in Hp.
    set (base := map (fun e => mkSlot e.1 Builtin e.2) (legacy_sections cfg)) in *.
    assert (Eb : map sig base = legacy_sigs cfg) by (unfold base; rewrite map_map; reflexivity).
    assert (Hbase : Forall (fun s => kind s = Builtin) base).
    { unfold base. apply Forall_forall. intros s Hs. apply list_elem_of_In, in_map_iff in Hs as (e & <- & _). reflexivity. }
    assert (Hok : plan_ok (map sig base)) by (rewrite Eb; apply legacy_ok).
    match type of Hp with result_bind ?e _ = _ => destruct e as [entries|] eqn:Ee; [|discriminate] end.
    cbn [result_bind] in Hp. destruct (plan_loop_no_plugins _ _ _ _ _ Hok Hp Hbase) as [Hl Hn]. split; [exact Hl|].
    intros es e q Hi He Hq Ht. rewrite Hi in Ee.
    destruct (negb (truthy (VSequence es))) eqn:Etr; [destruct es; [by apply not_elem_of_nil in He|discriminate]|].
    injection Ee as <-. specialize (Hn e q He Hq Ht). by rewrite map_map in Hn.
  - unfold refuse_all. unfold Secrets.from_config. cbn [ConfigValues.section]. cbv zeta.
    destruct (flag [] _ true); [|eexists; split; [reflexivity|]; intros st now phase ctx; destruct phase; eexists; by repeat split].
    destruct Secrets.BUILTINS as [b|]; [|done]. eexists. split; [reflexivity|].
    intros st now phase ctx. destruct phase; eexists; by repeat split.
Qed.
End Theorems.

(** ** Instances *)

Section Instances.
Let U : Unicode := ascii_unicode.
Let F : F64Text := sample_f64.
Let D : StrDebug := {| debug_str := fun s => [34] ++ s ++ [34] |}.
Let R : Secrets.RegexEngine := Secrets.literal_engine.
Let RE : @Secrets.Regex R := [].
Let E : Secrets.Env := Secrets.no_env.
Let L : Entropy.Log2 := {| Entropy.log2 := fun f => f |}.
#[local] Existing Instances U F D R E L.

(** A loader whose plugins declare their file name, and answer nothing. *)
Definition sample_loader : PluginLoader :=
  {| declared_name := fun _ path => Ok path; instantiate := fun name _ _ => Ok (request_inspector name (fun _ => None)) |}.
Definition entry (l : list (string * Value)) : Value := VMapping (map (fun e => (VString (lit e.1), e.2)) l).
Definition sample_cfg : Config :=
  mkConfig (entry [("domains", entry [("allow", VSequence [VString (lit "a.com")])]);
                   ("inspectors", VSequence [entry [("name", VString (lit "mine")); ("path", VString (lit "secrets"))];
                                             entry [("name", VString (lit "x")); ("path", VString (lit "x.wasm"))];
                                             entry [("name", VString (lit "body-size")); ("config", VNull)]])])%string.
Definition sample_plan : list Slot * list str :=
  match plan (H5 := sample_loader) sample_cfg with Ok r => r | Err _ => ([], []) end.

Lemma builtins_compile : Secrets.BUILTINS <> None.
Proof. vm_compute. discriminate. Qed.

Lemma plan_spec_witness :
  plan (H5 := sample_loader) sample_cfg = Ok sample_plan /\
  map (fun s => (name s, kind s)) sample_plan.1
    = [(lit "domain", Builtin); (lit "secrets", Builtin); (lit "body-size", Builtin); (lit "content-type", Builtin);
       (lit "x.wasm", Plugin (lit "x.wasm"))] /\
  exists s, s ∈ sample_plan.1 /\ name s = lit "body-size" /\ config s = VNull.
Proof.
  assert (Hp : plan (H5 := sample_loader) sample_cfg = Ok sample_plan) by (vm_compute; reflexivity).
  split; [exact Hp|]. split; [vm_compute; reflexivity|].
  destruct (plan_spec (H5 := sample_loader) sample_cfg sample_plan.1 sample_plan.2
              ltac:(rewrite Hp; by destruct sample_plan)) as (_ & _ & _ & _ & Hlast).
  refine (Hlast [_; _] _ (lit "body-size") eq_refl eq_refl _ eq_refl).
  apply (bool_decide_unpack _). vm_compute. exact I.
Defined.

Definition is_built (r : option (result str (PendingChain (H2 := R)))) : bool :=
  match r with Some (Ok _) => true | _ => false end.
Lemma sample_builds : is_built (build_chain RE (H5 := sample_loader) sample_cfg) = true.
Proof. vm_compute. reflexivity. Qed.
Lemma is_built_ok r : is_built r = true -> exists p, r = Some (Ok p).
Proof. destruct r as [[p|]|]; [by exists p|discriminate|discriminate]. Qed.

Lemma build_chain_spec_witness :
  exists p, build_chain RE (H5 := sample_loader) sample_cfg = Some (Ok p) /\ follows_plan RE (H5 := sample_loader) sample_cfg p.
Proof.
  destruct (is_built_ok _ sample_builds) as [p Hp]. exists p. split; [exact Hp|].
  pose proof (build_chain_spec RE (H5 := sample_loader) sample_cfg builtins_compile) as Hs. rewrite Hp in Hs. exact (proj1 Hs).
Defined.

Lemma relay_spec_witness :
  exists p, build_chain RE (H5 := sample_loader) sample_cfg = Some (Ok p) /\
    Forall (fun m => is_domain m = false) (relay_inspectors (chain p)).
Proof.
  destruct (is_built_ok _ sample_builds) as [p Hp]. exists p. split; [exact Hp|].
  destruct (relay_spec RE (H5 := sample_loader) sample_cfg p builtins_compile Hp) as (own & _ & _ & Hd & _). exact Hd.
Defined.

Lemma fail_closed_witness : exists c, refuse_all (lit "no plugins") = Some c /\
  (exists e, plan (H5 := NoPlugins) sample_cfg = Err e) /\
  forall st now, chain_inspects_responses st now c = true.
Proof.
  destruct (fail_closed (lit "no plugins") builtins_compile) as (_ & c & Hc & Hrun).
  exists c. split; [exact Hc|]. split; [eexists; vm_compute; reflexivity|]. intros st now.
  by destruct (Hrun st now Request Secrets.leaking_ctx) as (v & _ & _ & _ & _ & ?).
Defined.
End Instances.
