(* ===== verification/Coerce.v ===== *)
(** The coercions of the Policy API: the model of
    [agentcage-egress/src/policy/coerce.rs]. *)
From S2P Require Import Prelude Utf8 Domain Json Value ConfigValues.
From Stdlib Require Import SpecFloat ZifyBool.

(** * Definitions *)

(** ** Text *)

Definition strip (text : str) : str := trim_matches is_strip_space text.
Definition truncate_chars (text : str) (n : nat) : str := take n text.
Definition normalise_domain `{Unicode} (text : str) : str := trim_end_matches 46 (to_lowercase text).

(** [is_printable]. *)
Definition NON_PRINTABLE : list (Z * Z) :=
  [(0x00, 0x1f); (0x7f, 0x9f);
   (0xa0, 0xa0); (0x1680, 0x1680); (0x2000, 0x200a); (0x2028, 0x2028); (0x2029, 0x2029); (0x202f, 0x202f);
   (0x205f, 0x205f); (0x3000, 0x3000);
   (0xad, 0xad); (0x600, 0x605); (0x61c, 0x61c); (0x6dd, 0x6dd); (0x70f, 0x70f); (0x890, 0x890); (0x891, 0x891);
   (0x8e2, 0x8e2); (0x180e, 0x180e); (0x200b, 0x200f); (0x202a, 0x202e); (0x2060, 0x2064); (0x2066, 0x206f);
   (0xfeff, 0xfeff); (0xfff9, 0xfffb); (0x110bd, 0x110bd); (0x110cd, 0x110cd); (0x13430, 0x1343f);
   (0x1bca0, 0x1bca3); (0x1d173, 0x1d17a); (0xe0001, 0xe0001); (0xe0020, 0xe007f);
   (0xe000, 0xf8ff); (0xf0000, 0xffffd); (0x100000, 0x10fffd);
   (0xfdd0, 0xfdef); (0xfffe, 0xfffe); (0xffff, 0xffff)].
Definition is_printable (c : Z) : bool := negb (existsb (fun r => in_range r.1 r.2 c) NON_PRINTABLE).

(** [{code:04x}], [{code:08x}]. *)
Definition hex4 (n : Z) : str := hex2 (n / 256) ++ hex2 (n mod 256).
Definition escape_code (c : Z) : str :=
  if c <? 256 then 92 :: 120 :: hex2 c
  else if c <? 65536 then 92 :: 117 :: hex4 c
  else 92 :: 85 :: hex4 (c / 65536) ++ hex4 (c mod 65536).
Definition quote_char (quote c : Z) : str :=
  if c =? 92 then [92; 92]
  else if c =? 10 then [92; 110]
  else if c =? 13 then [92; 114]
  else if c =? 9 then [92; 116]
  else if c =? quote then [92; c]
  else if negb (is_printable c) then escape_code c
  else [c].
Definition quote_text (text : str) : str :=
  let quote := if bool_decide (39 ∈ text) && negb (bool_decide (34 ∈ text)) then 34 else 39 in
  quote :: flat_map (quote_char quote) text ++ [quote].

Section Coerce.
Context `{F64Text}.

Definition float_repr (f : spec_float) : str :=
  match f with
  | S754_nan => lit "nan"
  | S754_infinity s => if s then lit "-inf" else lit "inf"
  | _ => format_float f
  end.

Fixpoint display_value (v : Json) : str :=
  match v with
  | JNull => lit "None"
  | JBool true => lit "True"
  | JBool false => lit "False"
  | JInt i => show_signed i
  | JBigInt digits => digits
  | JFloat f => float_repr f
  | JStr s => quote_text s
  | JArray items => [91] ++ sep_concat (lit ", ") (map display_value items) ++ [93]
  | JObject pairs =>
      [123] ++ sep_concat (lit ", ") (map (fun kv => quote_text kv.1 ++ lit ": " ++ display_value kv.2) pairs) ++ [125]
  end.
Definition coerce_to_string (v : Json) : str := match v with JStr s => s | other => display_value other end.
Definition str_or_empty (v : option Json) : str :=
  match v with Some v => if json_is_truthy v then coerce_to_string v else [] | None => [] end.

(** ** Integers *)

Definition saturate (n : Z) : Z := Z.max i64_min (Z.min i64_max n).
(** The loop over the digits: the value so far, and whether the last byte was an
    underscore. *)
Fixpoint int_digits (b : bytes) (value : Z) (previous_underscore : bool) : option Z :=
  match b with
  | [] => Some value
  | c :: r =>
      if c =? 95 then if previous_underscore then None else int_digits r value true
      else if negb (is_ascii_digit c) then None
      else int_digits r (saturate (saturate (value * 10) + (c - 48))) false
  end.
Definition int_literal (text : str) : option Z :=
  let body := as_bytes (strip text) in
  let? (negative, digits) :=
    match body with
    | [] => None
    | 45 :: digits => Some (true, digits)
    | 43 :: digits => Some (false, digits)
    | _ => Some (false, body)
    end in
  if bool_decide (digits = []) || bool_decide (head digits = Some 95) || bool_decide (last digits = Some 95) then None
  else let? value := int_digits digits 0 false in Some (if negative : bool then - value else value).

Definition not_a_number (kind_name : str) : str :=
  lit "int() argument must be a string, a bytes-like object or a real number, not '" ++ kind_name ++ lit "'".
Definition int_or_zero (v : option Json) : result str Z :=
  match v with
  | None => Ok 0
  | Some v =>
      if negb (json_is_truthy v) then Ok 0
      else match v with
           | JNull | JBool false => Ok 0
           | JBool true => Ok 1
           | JInt i => Ok i
           | JBigInt digits => Ok (if starts_with digits [45] then i64_min else i64_max)
           | JFloat f =>
               match f with
               | S754_nan => Err (lit "cannot convert float NaN to integer")
               | S754_infinity _ => Err (lit "cannot convert float infinity to integer")
               | _ => Ok (f64_as_i64 f)
               end
           | JStr s =>
               match int_literal s with
               | Some i => Ok i
               | None => Err (lit "invalid literal for int() with base 10: " ++ quote_text s)
               end
           | JArray _ => Err (not_a_number (lit "list"))
           | JObject _ => Err (not_a_number (lit "dict"))
           end
  end.

(** ** Request bytes *)

Fixpoint utf16_units (b : bytes) (big_endian : bool) : list Z :=
  match b with
  | x :: y :: r => (if big_endian then x * 256 + y else y * 256 + x) :: utf16_units r big_endian
  | _ => []
  end.
(** [char::decode_utf16], collected. *)
Fixpoint decode_utf16 (units : list Z) : option str :=
  match units with
  | [] => Some []
  | u :: r =>
      if in_range 0xd800 0xdfff u then
        if 0xdc00 <=? u then None
        else match r with
             | v :: r' =>
                 if in_range 0xdc00 0xdfff v then
                   let? s := decode_utf16 r' in Some ((u - 0xd800) * 1024 + (v - 0xdc00) + 0x10000 :: s)
                 else None
             | [] => None
             end
      else let? s := decode_utf16 r in Some (u :: s)
  end.
Definition utf16 (b : bytes) (big_endian : bool) : option str :=
  if negb (Z.of_nat (length b) mod 2 =? 0) then None else decode_utf16 (utf16_units b big_endian).
(** [char::from_u32]. *)
Definition char_from_u32 (code : Z) : option Z :=
  if (1114111 <? code) || in_range 0xd800 0xdfff code then None else Some code.
Fixpoint utf32_chars (b : bytes) (big_endian : bool) : option str :=
  match b with
  | x :: y :: z :: t :: r =>
      let code := if big_endian then from_be_bytes x y z t else from_be_bytes t z y x in
      let? c := char_from_u32 code in
      let? s := utf32_chars r big_endian in Some (c :: s)
  | _ => Some []
  end.
Definition utf32 (b : bytes) (big_endian : bool) : option str :=
  if negb (Z.of_nat (length b) mod 4 =? 0) then None else utf32_chars b big_endian.

Definition decode_json_bytes (b : bytes) : option str :=
  if starts_with b [0x00; 0x00; 0xfe; 0xff] then utf32 (drop 4 b) true
  else if starts_with b [0xff; 0xfe; 0x00; 0x00] then utf32 (drop 4 b) false
  else if starts_with b [0xfe; 0xff] then utf16 (drop 2 b) true
  else if starts_with b [0xff; 0xfe] then utf16 (drop 2 b) false
  else if starts_with b [0xef; 0xbb; 0xbf] then from_utf8 (drop 3 b)
  else
    match b with
    | b0 :: b1 :: b2 :: b3 :: _ =>
        if b0 =? 0 then if b1 =? 0 then utf32 b true else utf16 b true
        else if b1 =? 0 then if negb (b2 =? 0) || negb (b3 =? 0) then utf16 b false else utf32 b false
        else from_utf8 b
    | [b0; b1] => if b0 =? 0 then utf16 b true else if b1 =? 0 then utf16 b false else from_utf8 b
    | _ => from_utf8 b
    end.
(** The outer option is the parser's fuel, which never runs out. *)
Definition loads_bytes (body : bytes) : option (option Json) :=
  match decode_json_bytes body with
  | None => Some None
  | Some text => let? r := parse text in Some (match r with Ok j => Some j | Err _ => None end)
  end.

(** ** YAML values *)

Definition json_key (key : Value) : str :=
  match key with
  | VString s => s
  | VNull => lit "null"
  | VBool true => lit "true"
  | VBool false => lit "false"
  | other => Value.coerce_to_string other
  end.
Fixpoint yaml_to_json (v : Value) : Json :=
  match v with
  | VNull => JNull
  | VBool b => JBool b
  | VNumber n =>
      match number_as_i64 n with
      | Some i => JInt i
      | None => match number_as_u64 n with
                | Some u => JBigInt (show_unsigned u)
                | None => JFloat (number_as_f64 n)
                end
      end
  | VString s => JStr s
  | VSequence items => JArray (map yaml_to_json items)
  | VMapping entries => JObject (map (fun kv => (json_key kv.1, yaml_to_json kv.2)) entries)
  | VTagged _ v => yaml_to_json v
  end.
End Coerce.
