(* ===== verification/Settings.v ===== *)
(** The [agents.decider] block: the model of
    [agentcage-egress/src/policy/settings.rs]. *)
From S2P Require Import Prelude Domain Json Value ConfigValues.
From S2P Require Coerce.
From Stdlib Require Import SpecFloat ZifyBool.

(** * Definitions *)

Definition DEFAULT_CONTROL_HOST : str := lit "agentcage.local".
Definition MAX_CONTEXT_CHARS : nat := 4096.

Definition decider_enabled (config : Config) : bool :=
  match cfg_get config (lit "agents") with
  | Some (VMapping agents) =>
      if truthy (VMapping agents) then
        match mget agents (lit "decider") with
        | Some (VMapping m) => match mget m (lit "enable") with Some v => truthy v | None => false end
        | _ => false
        end
      else false
  | _ => false
  end.

Record Settings : Type := mkSettings {
  enable : bool; host : str; context : str; passthrough : list str; timeout_seconds : spec_float; max_tokens : Z;
  provider : str; model : str; base_url : str; system_prefix : str; api_key_name : str;
  rate_rps : spec_float; rate_burst : spec_float; agentcage_version : str
}.

(** [ConfigError] is its message. *)
Definition mapping_or_empty (v : option Value) (what : str) : result str (option Mapping) :=
  match v with
  | None => Ok None
  | Some v =>
      if negb (truthy v) then Ok None
      else match v with
           | VMapping m => Ok (Some m)
           | _ => Err (what ++ lit " is not a mapping")
           end
  end.
Definition get (m : option Mapping) (key : string) : option Value := let? m := m in mget m (lit key).

Section Settings.
Context `{Unicode} `{F64Text}.

Definition str_or_empty (v : option Value) : str :=
  match v with Some v => if truthy v then coerce_to_string v else [] | None => [] end.

Definition remove_underscores (s : str) : str := List.filter (fun c => negb (c =? 95)) s.
Definition to_float (v : Value) (what : str) : result str spec_float :=
  let bad := Err (what ++ lit " is not a number: " ++ coerce_to_string v) in
  match v with
  | VNumber n => Ok (number_as_f64 n)
  | VBool b => Ok (f64_of_int (if b then 1 else 0))
  | VString s => match parse_f64 (remove_underscores (Coerce.strip s)) with Some f => Ok f | None => bad end
  | _ => bad
  end.
Definition is_finite (f : spec_float) : bool :=
  match f with S754_zero _ | S754_finite _ _ _ => true | _ => false end.
Definition to_int (v : Value) (what : str) : result str Z :=
  let bad := Err (what ++ lit " is not an integer: " ++ coerce_to_string v) in
  match v with
  | VNumber n =>
      match number_as_i64 n with
      | Some i => Ok i
      | None =>
          match number_as_u64 n with
          | Some _ => Ok i64_max
          | None => let f := number_as_f64 n in if is_finite f then Ok (f64_as_i64 f) else bad
          end
      end
  | VBool b => Ok (if b then 1 else 0)
  | VString s => match Coerce.int_literal s with Some i => Ok i | None => bad end
  | _ => bad
  end.

Definition strings (l : list Value) : list str := omap (fun v => match v with VString s => Some s | _ => None end) l.
Definition read_passthrough (config : Config) : result str (list str) :=
  let! domains := mapping_or_empty (cfg_get config (lit "domains")) (lit "domains") in
  match get domains "passthrough" with
  | None => Ok []
  | Some v =>
      if negb (truthy v) then Ok []
      else match v with
           | VSequence items => Ok (strings items)
           | VString s => Ok (map (fun c => [c]) s)
           | VMapping m => Ok (strings (map fst m))
           | _ => Err (lit "domains.passthrough is not iterable")
           end
  end.

Definition read_context (v : option Value) : str :=
  match v with
  | Some (VString s) =>
      let stripped := Coerce.strip s in
      if (MAX_CONTEXT_CHARS <? length stripped)%nat then Coerce.truncate_chars stripped MAX_CONTEXT_CHARS else stripped
  | _ => []
  end.
Definition unset (v : option Value) : bool :=
  match v with None | Some VNull => true | Some (VString s) => bool_decide (s = []) | _ => false end.
Definition filter_truthy (v : option Value) : option Value :=
  match v with Some v => if truthy v then Some v else None | None => None end.

(** [u32::try_from]. *)
Definition max_tokens_of (n : Z) : result str Z :=
  if in_range 0 u32_max n then Ok n else Err (lit "max_tokens out of range: " ++ show_signed n).

Definition parse (config : Config) : result str Settings :=
  let! agents := mapping_or_empty (cfg_get config (lit "agents")) (lit "agents") in
  let! cfg := mapping_or_empty (get agents "decider") (lit "agents.decider") in
  let! passthrough := read_passthrough config in
  let host := match filter_truthy (get cfg "host") with
              | Some v => coerce_to_string v
              | None => DEFAULT_CONTROL_HOST
              end in
  let context := read_context (get cfg "context") in
  let! timeout_seconds :=
    match filter_truthy (get cfg "timeout_seconds") with
    | Some v => to_float v (lit "timeout_seconds")
    | None => Ok (f64_of_int 15)
    end in
  let! max_tokens :=
    match filter_truthy (get cfg "max_tokens") with
    | Some v => to_int v (lit "max_tokens")
    | None => Ok 8192
    end in
  let! max_tokens := max_tokens_of max_tokens in
  let! rl := mapping_or_empty (get cfg "rate_limit") (lit "agents.decider.rate_limit") in
  let rps_v := get rl "requests_per_second" in
  let! rate_rps :=
    (if unset rps_v then Ok (f64_of_int 1)
     else to_float (default VNull rps_v) (lit "rate_limit.requests_per_second")) in
  let burst_v := get rl "burst" in
  let! rate_burst :=
    (if unset burst_v then Ok 5 else to_int (default VNull burst_v) (lit "rate_limit.burst")) in
  let api_key := str_or_empty (get cfg "api_key") in
  let api_key_name := match split_once 58 api_key with Some (_, name) => name | None => [] end in
  Ok (mkSettings
        (match get cfg "enable" with Some v => truthy v | None => false end)
        (trim_end_matches 46 (to_lowercase host)) context passthrough timeout_seconds max_tokens
        (to_lowercase (str_or_empty (get cfg "provider"))) (str_or_empty (get cfg "model"))
        (trim_end_matches 47 (str_or_empty (get cfg "base_url"))) (str_or_empty (get cfg "system_prefix"))
        api_key_name rate_rps (f64_of_int rate_burst) (str_or_empty (cfg_get config (lit "agentcage_version")))).
End Settings.
