(* ===== verification/Policy.v ===== *)
(** The Policy API: the model of [agentcage-egress/src/policy/mod.rs], with the
    state it keeps, its routes, the decider's verdict and the grants overlay. *)
From S2P Require Import Prelude Domain DateTime Timestamp IndexMap Json Value Inspect DomainInspector ConfigValues.
From S2P Require Coerce Settings.
From Stdlib Require Import SpecFloat ZifyBool.

(** * Definitions *)

Definition MAX_BODY : Z := 8 * 1024.
Definition MAX_GRANTS : Z := 32.
Definition MAX_TTL_SECONDS : Z := 86400.
(** [agentcage-core/src/config/types.rs]. *)
Definition AUTO_NEVER_GRANT : list str := map lit ["internal"; "local"; "localhost"; "metadata.goog"]%string.

Record ControlRequest : Type := mkRequest { req_method : str; req_path : str; req_body : bytes }.
Record ControlResponse : Type := mkResponse { status : Z; resp_body : bytes; audit : list Json }.

(** The clock readings of one operation, by what they are read for. *)
Inductive Reading : Type :=
| ForEvent (n : nat) | ForNow | ForExpiry | ForGrantedAt | ForPublish (n : nat) | ForSweep.
(** What is ambient to one operation: the clock, the request id, the version
    stamp, and how its file writes end ([None] is a failed write of the overlay,
    [Some m] a written file of modification time [m]). *)
Record PolicyEnv : Type := mkEnv {
  now_utc : Reading -> DateTime; monotonic : spec_float; request_id : str; version_env : str;
  write_outcome : option (option Z); publish_ok : nat -> bool
}.

Record Live : Type := mkLive { settings : Settings.Settings; api_key : str }.
Record Bucket : Type := mkBucket { tokens : spec_float; last_ : spec_float }.
Record OverlayState : Type := mkOverlay { mtime : option Z; reserved : Z }.
(** The files: what [overlay::load] answers for the overlay and its modification
    time, and the names published for DNS. *)
Record World : Type := mkWorld { file : list Mapping; file_mtime : option Z; published : list str }.
Record PolicyApi : Type := mkApi {
  live : Live; bucket : Bucket; overlay : OverlayState; dom : State; world : World
}.

Definition set_overlay (a : PolicyApi) (o : OverlayState) : PolicyApi := mkApi (live a) (bucket a) o (dom a) (world a).
Definition set_dom (a : PolicyApi) (d : State) : PolicyApi := mkApi (live a) (bucket a) (overlay a) d (world a).
Definition set_world (a : PolicyApi) (w : World) : PolicyApi := mkApi (live a) (bucket a) (overlay a) (dom a) w.
Definition set_bucket (a : PolicyApi) (b : Bucket) : PolicyApi := mkApi (live a) b (overlay a) (dom a) (world a).

(** A decider verdict, normalised. *)
Record DeciderVerdict : Type := mkDecided {
  decision : str; v_reason : str; agent_reason : option str; ttl_seconds : Z; decided_by : option str
}.
Definition deny (reason : str) : DeciderVerdict := mkDecided (lit "deny") reason None 0 None.

Inductive Revocation : Type := Revoked | NotGranted.

(** [str::to_uppercase], as [Unicode] for the lower case. *)
Class UnicodeUpper := { unicode_uppercase : str -> str }.
(** The text [render_overlay] writes for some entries, read by [overlay::load]. *)
Class OverlayFile := { written : list Mapping -> list Mapping }.

(** [f64::min]: a NaN gives way to the other. *)
Definition is_nan (f : spec_float) : bool := match f with S754_nan => true | _ => false end.
Definition f64_min (a b : spec_float) : spec_float :=
  if is_nan a then b else if is_nan b then a else if f64_ltb b a then b else a.

(** [Duration::try_from_secs_f64] answers: the value is not negative, not NaN,
    and below 2{^64} seconds. *)
Definition duration_ok (f : spec_float) : bool :=
  match f with
  | S754_zero _ => true
  | S754_finite s m e => negb s && (if 0 <=? e then Z.pos m * 2 ^ e <? 2 ^ 64 else true)
  | _ => false
  end.

(** ** [llm.rs] *)

Definition default_base_url (provider : str) : option str :=
  if bool_decide (provider = lit "anthropic") then Some (lit "https://api.anthropic.com")
  else if bool_decide (provider = lit "openai") then Some (lit "https://api.openai.com")
  else if bool_decide (provider = lit "openrouter") then Some (lit "https://openrouter.ai/api/v1")
  else None.
Definition agent_facing (message : str) : str :=
  let prefix := lit "llm http " in
  if starts_with message prefix then
    let rest := drop (length prefix) message in
    match find_sub (lit ": ") rest with
    | Some end_ =>
        if forallb is_ascii_digit (take end_ rest) then take (length prefix + end_) message else message
    | None => message
    end
  else message.
(** [str::replace]; [fuel] is the length of the text. *)
Fixpoint replace_fuel (fuel : nat) (text from to : str) : str :=
  match fuel with
  | O => text
  | S fuel =>
      match find_sub from text with
      | Some n => take n text ++ to ++ replace_fuel fuel (drop (n + length from) text) from to
      | None => text
      end
  end.
Definition replace (text from to : str) : str := replace_fuel (length text) text from to.

Section Policy.
Context `{Unicode} `{UnicodeUpper} `{F64Text} `{OverlayFile}.

Definition to_uppercase (s : str) : str :=
  if forallb is_ascii s then map (fun c => if is_ascii_lowercase c then c - 32 else c) s else unicode_uppercase s.

(** ** Answers *)

Definition respond (status : Z) (body : Json) (audit : list Json) : ControlResponse :=
  mkResponse status (as_bytes (dumps body default_dump)) audit.
Definition error_body (message : str) : Json := object [("error"%string, JStr message)].
Definition event_at (now : DateTime) (kind : string) (fields : list (string * Json)) : Json :=
  object ([("kind"%string, JStr (lit kind)); ("ts"%string, JStr (isoformat now))] ++ fields).
Definition event (e : PolicyEnv) (kind : string) (fields : list (string * Json)) : Json :=
  event_at (now_utc e (ForEvent 0)) kind fields.
Definition now_ts (e : PolicyEnv) : Timestamp :=
  default (from_unix_micros 0) (parse_iso (as_bytes (isoformat (now_utc e ForNow)))).

(** ** The control host *)

Definition rsplit_once (c : Z) (s : str) : option (str * str) :=
  match split_once c (rev s) with Some (b, a) => Some (rev a, rev b) | None => None end.
Definition is_control_host (l : Live) (sni host_header : option str) : bool :=
  let host := Settings.host (settings l) in
  let header := default [] host_header in
  let header := match rsplit_once 58 header with Some (h, _) => h | None => header end in
  let header := Coerce.normalise_domain header in
  let sni := Coerce.normalise_domain (default [] sni) in
  if bool_decide (sni = []) then bool_decide (header = host)
  else bool_decide (sni = host) && bool_decide (header = host).
Definition version (e : PolicyEnv) (l : Live) : str :=
  let env := Coerce.strip (version_env e) in
  if bool_decide (env = []) then Settings.agentcage_version (settings l) else env.

(** ** The overlay *)

(** [publish_ok]: the list was written and renamed into place.  The flag that asks the
    resolver to reload comes after; that failing is only logged, and the list stands. *)
Definition publish_dns (e : PolicyEnv) (n : nat) (a : PolicyApi) : PolicyApi :=
  let names := publishable (granted_entries (dom a)) (isoformat (now_utc e (ForPublish n))) in
  if publish_ok e n then set_world a (mkWorld (file (world a)) (file_mtime (world a)) names) else a.
Definition reconcile (e : PolicyEnv) (n : nat) (a : PolicyApi) : PolicyApi :=
  let a := set_overlay a (mkOverlay (file_mtime (world a)) (reserved (overlay a))) in
  publish_dns e n (set_dom a (DomainInspector.reconcile (dom a) (file (world a)))).
Definition maybe_reload_locked (e : PolicyEnv) (a : PolicyApi) : PolicyApi * bool :=
  if bool_decide (file_mtime (world a) = mtime (overlay a)) then (a, false) else (reconcile e 0 a, true).
Definition persist_locked (e : PolicyEnv) (a : PolicyApi) : PolicyApi :=
  let entries := map snd (granted_entries (dom a)) in
  let a :=
    match write_outcome e with
    | Some m =>
        set_overlay (set_world a (mkWorld (written entries) m (published (world a)))) (mkOverlay m (reserved (overlay a)))
    | None => a
    end in
  publish_dns e 1 a.

Definition reserve_slot (a : PolicyApi) : option PolicyApi :=
  if MAX_GRANTS <=? Z.of_nat (grant_count (dom a)) + reserved (overlay a) then None
  else Some (set_overlay a (mkOverlay (mtime (overlay a)) (reserved (overlay a) + 1))).
(** [SlotGuard::drop], for a slot that became no grant. *)
Definition release_slot (a : PolicyApi) : PolicyApi :=
  set_overlay a (mkOverlay (mtime (overlay a)) (saturating_sub (reserved (overlay a)) 1)).

Definition check_rate_limit (e : PolicyEnv) (a : PolicyApi) : PolicyApi * bool :=
  let s := settings (live a) in
  match Settings.rate_rps s with
  | S754_zero _ => (a, true)
  | rps =>
      let now := monotonic e in
      let elapsed := SFsub 53 1024 now (last_ (bucket a)) in
      let tokens := f64_min (Settings.rate_burst s) (SFadd 53 1024 (tokens (bucket a)) (SFmul 53 1024 elapsed rps)) in
      if f64_geb tokens (f64_of_int 1)
      then (set_bucket a (mkBucket (SFsub 53 1024 tokens (f64_of_int 1)) now), true)
      else (set_bucket a (mkBucket tokens now), false)
  end.

Definition apply_grant (e : PolicyEnv) (a : PolicyApi) (domain reason decided_by expires_at : str) : PolicyApi :=
  let a := (maybe_reload_locked e a).1 in
  let granted_at := isoformat (now_utc e ForGrantedAt) in
  let a := set_dom a (grant_at (dom a) domain expires_at reason decided_by granted_at).1 in
  persist_locked e (release_slot a).

Definition revoke_live_grant (e : PolicyEnv) (a : PolicyApi) (domain : str) : PolicyApi * Revocation :=
  let a := (maybe_reload_locked e a).1 in
  if negb (is_granted (dom a) domain) then (a, NotGranted)
  else (persist_locked e (set_dom a (revoke (dom a) domain).1), Revoked).

Definition sweeper_tick (e : PolicyEnv) (a : PolicyApi) : PolicyApi * list Json :=
  let a := (maybe_reload_locked e a).1 in
  let '(d, expired) := drop_expired_at (dom a) (isoformat (now_utc e ForSweep)) in
  let a := set_dom a d in
  if bool_decide (expired = []) then (a, [])
  else (persist_locked e a,
        imap (fun n d => event_at (now_utc e (ForEvent n)) "policy_grant_expired"
                           [("domain"%string, JStr d); ("reason"%string, JStr (lit "ttl expired"))]) expired).

(** ** Construction and reload *)

Definition new_api (e : PolicyEnv) (config : Config) (read_secret : str -> str) (d : State) (w : World)
  : result str PolicyApi :=
  let! s := Settings.parse config in
  let l := mkLive s (read_secret (Settings.api_key_name s)) in
  Ok (reconcile e 0 (mkApi l (mkBucket (Settings.rate_burst s) (monotonic e)) (mkOverlay None 0) d w)).
(** [replaced] is the inspector passed in when it is not the one held. *)
Definition reconfigure (e : PolicyEnv) (config : Config) (read_secret : str -> str) (replaced : option State) (a : PolicyApi)
  : result str PolicyApi :=
  let! s := Settings.parse config in
  let l := mkLive s (read_secret (Settings.api_key_name s)) in
  let b := mkBucket (f64_min (tokens (bucket a)) (Settings.rate_burst s)) (last_ (bucket a)) in
  Ok match replaced with
     | None => mkApi l b (overlay a) (dom a) (world a)
     | Some d => reconcile e 0 (mkApi l b (overlay a) d (world a))
     end.

(** ** The decider *)

Definition without_key (l : Live) (text : str) : str :=
  if bool_decide (api_key l = []) then text else replace text (api_key l) (lit "[redacted]").

(** [reply] is what the client's call answers: the tool's arguments or an error
    message. *)
Definition call_decider (l : Live) (reply : result str Json) : DeciderVerdict :=
  let s := settings l in
  let base := if bool_decide (Settings.base_url s = []) then default [] (default_base_url (Settings.provider s))
              else Settings.base_url s in
  if bool_decide (base = []) then deny (lit "no llm base url")
  else if negb (duration_ok (Settings.timeout_seconds s)) then deny (lit "llm error: Timeout value out of range")
  else
    match reply with
    | Err message =>
        let shown := agent_facing message in
        mkDecided (lit "deny") message (if bool_decide (shown = message) then None else Some shown) 0 None
    | Ok args =>
        let decision := to_lowercase (Coerce.str_or_empty (json_get args (lit "decision"))) in
        if bool_decide (decision <> lit "grant") && bool_decide (decision <> lit "deny")
        then deny (lit "llm returned no usable decision")
        else
          match Coerce.int_or_zero (json_get args (lit "ttl_seconds")) with
          | Ok ttl => mkDecided decision (Coerce.str_or_empty (json_get args (lit "reason"))) None ttl None
          | Err message =>
              mkDecided (lit "deny") (without_key l (lit "llm call failed: " ++ message)) None 0 (Some (lit "decider"))
          end
    end.

Definition expires_at (e : PolicyEnv) (ttl : Z) : str :=
  if ttl <=? 0 then []
  else match checked_sub_seconds (now_utc e ForExpiry) (- ttl) with Some t => isoformat t | None => [] end.

Definition deny_body (e : PolicyEnv) (domain reason decided_by : str) : Json :=
  object [("id"%string, JStr (request_id e)); ("status"%string, JStr (lit "denied")); ("domain"%string, JStr domain);
          ("reason"%string, JStr reason); ("suggestion"%string, JStr reason); ("retryable"%string, JBool true);
          ("decided_by"%string, JStr decided_by)].

(** The slot is held on entry; it is turned into the grant or released. *)
Definition decide (e : PolicyEnv) (reply : result str Json) (a : PolicyApi) (domain reason : str)
  : PolicyApi * ControlResponse :=
  let l := live a in
  let s := settings l in
  let record fields := [event e "policy_request" (("domain"%string, JStr domain) :: fields)] in
  if bool_decide (Settings.provider s = []) || bool_decide (Settings.model s = []) || bool_decide (api_key l = []) then
    (release_slot a,
     respond 503 (error_body (lit "llm provider not configured"))
       (record [("decision"%string, JStr (lit "denied")); ("reason"%string, JStr (lit "llm provider not configured"));
                ("decided_by"%string, JStr (lit "decider"))]))
  else
    let verdict := call_decider l reply in
    let by_ := default (lit "decider:agent:" ++ Settings.provider s) (decided_by verdict) in
    let llm_reason := Coerce.truncate_chars (v_reason verdict) 1000 in
    if negb (bool_decide (decision verdict = lit "grant")) then
      let shown := match agent_reason verdict with
                   | Some r => r
                   | None => if bool_decide (llm_reason = []) then lit "denied by the llm decider agent; no reason provided"
                             else llm_reason
                   end in
      (release_slot a,
       respond 403 (deny_body e domain shown by_)
         (record [("decision"%string, JStr (lit "denied")); ("reason"%string, JStr llm_reason);
                  ("decided_by"%string, JStr by_)]))
    else
      let ttl := Z.min (ttl_seconds verdict) MAX_TTL_SECONDS in
      if ttl <? 0 then
        (release_slot a,
         respond 403 (deny_body e domain (lit "denied: malformed decider response (negative ttl_seconds)") by_)
           (record [("decision"%string, JStr (lit "denied"));
                    ("reason"%string, JStr (lit "malformed decider response: negative ttl_seconds"));
                    ("decided_by"%string, JStr by_)]))
      else
        let exp := expires_at e ttl in
        let grant_reason := if bool_decide (llm_reason = []) then reason else llm_reason in
        (apply_grant e a domain grant_reason by_ exp,
         respond 200
           (object [("id"%string, JStr (request_id e)); ("status"%string, JStr (lit "granted"));
                    ("domain"%string, JStr domain); ("reason"%string, JStr grant_reason);
                    ("expires_at"%string, JStr exp); ("ttl_seconds"%string, JInt ttl); ("decided_by"%string, JStr by_)])
           (record [("decision"%string, JStr (lit "granted")); ("reason"%string, JStr llm_reason);
                    ("decided_by"%string, JStr by_); ("expires_at"%string, JStr exp)])).

(** ** Requests *)

(** [is_never_grant]. *)
Definition is_never_grant (domain control_host : str) : bool :=
  match encoded_private_ip domain with
  | Some _ => true
  | None =>
      existsb (fun suffix => bool_decide (suffix = control_host) || bool_decide (suffix ∈ AUTO_NEVER_GRANT))
        (suffixes (Coerce.normalise_domain domain))
  end.

Definition loads (body : bytes) : option Json := default None (Coerce.loads_bytes body).
(** The JSON object of a body, or [None] for a 400. *)
Definition payload (body : bytes) : option Json :=
  match loads (if bool_decide (body = []) then lit "{}" else body) with
  | Some (JObject pairs) => Some (JObject pairs)
  | _ => None
  end.

Definition denied_body (e : PolicyEnv) (domain reason suggestion : str) (retryable : bool) (by_ : list (string * Json)) : Json :=
  object ([("id"%string, JStr (request_id e)); ("status"%string, JStr (lit "denied")); ("domain"%string, JStr domain);
           ("reason"%string, JStr reason); ("suggestion"%string, JStr suggestion); ("retryable"%string, JBool retryable)]
          ++ by_).

Definition handle_request (e : PolicyEnv) (reply : result str Json) (a : PolicyApi) (body : bytes)
  : PolicyApi * ControlResponse :=
  match payload body with
  | None => (a, respond 400 (error_body (lit "invalid JSON body")) [])
  | Some payload =>
      let domain := Coerce.normalise_domain (Coerce.str_or_empty (json_get payload (lit "domain"))) in
      let reason := Coerce.truncate_chars (Coerce.str_or_empty (json_get payload (lit "reason"))) 1000 in
      let record fields := [event e "policy_request" (("domain"%string, JStr domain) :: fields)] in
      let decider := [("decided_by"%string, JStr (lit "decider"))] in
      if bool_decide (Coerce.strip reason = []) then
        (a, respond 400 (error_body (lit "a non-empty 'reason' justification is required"))
              (record [("decision"%string, JStr (lit "rejected")); ("reason"%string, JStr (lit "missing justification"))]))
      else if negb (is_allowlist (dom a)) then
        (a, respond 400 (error_body (lit "request endpoint requires allowlist mode")) [])
      else if negb (valid_domain domain StrictDotted) then
        (a, respond 400 (error_body (lit "invalid domain: " ++ Coerce.quote_text domain))
              (record [("decision"%string, JStr (lit "rejected")); ("reason"%string, JStr (lit "invalid domain syntax"))]))
      else if bool_decide (matched_expired_at (dom a) domain (now_ts e) = None)
              && (matches (dom a) domain || is_granted (dom a) domain) then
        (a, respond 200
              (object [("id"%string, JStr (request_id e)); ("status"%string, JStr (lit "already_allowed"));
                       ("domain"%string, JStr domain); ("reason"%string, JStr (lit "already in baseline or granted"))])
              (record [("decision"%string, JStr (lit "already_allowed"))]))
      else if is_never_grant domain (Settings.host (settings (live a))) then
        (a, respond 403
              (denied_body e domain
                 (domain ++ lit " is on the operator's never_grant list and cannot be granted by the policy API")
                 (lit "request a different, non-internal domain; this one is permanently denied by policy") false decider)
              (record ([("decision"%string, JStr (lit "denied")); ("reason"%string, JStr (lit "never_grant"))] ++ decider)))
      else
        match reserve_slot a with
        | None =>
            (a, respond 409
                  (denied_body e domain
                     (lit "max_grants (" ++ show_unsigned MAX_GRANTS ++ lit ") reached; no room for another grant")
                     (lit "wait for an existing grant to expire, or ask the operator to revoke one with `agentcage cage grants <name> revoke <domain>`, then re-request")
                     true decider)
                  (record ([("decision"%string, JStr (lit "denied")); ("reason"%string, JStr (lit "max_grants reached"))]
                           ++ decider)))
        | Some a =>
            let '(a, within) := check_rate_limit e a in
            if negb within then
              (release_slot a,
               respond 429
                 (denied_body e domain (lit "request rate limit exceeded")
                    (lit "wait a few seconds and re-request the same domain") true decider)
                 (record [("decision"%string, JStr (lit "rejected")); ("reason"%string, JStr (lit "rate limit"))]))
            else decide e reply a domain reason
        end
  end.

(** ** Removals *)

Definition handle_removal (e : PolicyEnv) (a : PolicyApi) (body : bytes) : PolicyApi * ControlResponse :=
  match payload body with
  | None => (a, respond 400 (error_body (lit "invalid JSON body")) [])
  | Some payload =>
      let domain := Coerce.normalise_domain (Coerce.str_or_empty (json_get payload (lit "domain"))) in
      let reason := Coerce.truncate_chars (Coerce.str_or_empty (json_get payload (lit "reason"))) 1000 in
      let record fields := [event e "policy_removal" (("domain"%string, JStr domain) :: fields)] in
      if negb (is_allowlist (dom a)) then
        (a, respond 400 (error_body (lit "removal endpoint requires allowlist mode")) [])
      else
        let '(a, within) := check_rate_limit e a in
        if negb within then
          (a, respond 429
                (denied_body e domain (lit "request rate limit exceeded")
                   (lit "wait a few seconds and re-send the removal") true [])
                (record [("decision"%string, JStr (lit "rejected")); ("reason"%string, JStr (lit "rate limit"))]))
        else if negb (valid_domain domain StrictDotted) then
          (a, respond 400 (error_body (lit "invalid domain: " ++ Coerce.quote_text domain))
                (record [("decision"%string, JStr (lit "rejected")); ("reason"%string, JStr (lit "invalid domain syntax"))]))
        else
          match revoke_live_grant e a domain with
          | (a, Revoked) =>
              let shown := if bool_decide (reason = []) then lit "removed at the agent's request" else reason in
              let still := if baseline_active_covers_at (dom a) domain (now_ts e)
                           then [("still_allowed_by_baseline"%string, JBool true)] else [] in
              (a, respond 200
                    (object ([("id"%string, JStr (request_id e)); ("status"%string, JStr (lit "removed"));
                              ("domain"%string, JStr domain); ("reason"%string, JStr shown)] ++ still))
                    (record [("decision"%string, JStr (lit "removed")); ("reason"%string, JStr reason)]))
          | (a, NotGranted) =>
              if matches_baseline (dom a) domain then
                (a, respond 403
                      (denied_body e domain
                         (domain ++ lit " matches the operator's static baseline (or a grant already promoted into it); the policy API can only remove live runtime grants")
                         (lit "ask the operator to run `agentcage domain rm` if this domain should really go away") false [])
                      (record [("decision"%string, JStr (lit "denied"));
                               ("reason"%string, JStr (lit "baseline entry (operator-owned)"))]))
              else
                (a, respond 404
                      (object [("id"%string, JStr (request_id e)); ("status"%string, JStr (lit "not_found"));
                               ("domain"%string, JStr domain);
                               ("reason"%string, JStr (domain ++ lit " is not a live runtime grant"));
                               ("suggestion"%string, JStr (lit "GET /v1/allowlist and use the exact domain from the granted list"))])
                      (record [("decision"%string, JStr (lit "not_found"))]))
          end
  end.

(** ** The router *)

Definition health (e : PolicyEnv) (l : Live) : Json :=
  let on := JBool (Settings.enable (settings l)) in
  object [("status"%string, JStr (lit "ok")); ("version"%string, JStr (version e l));
          ("features"%string, object [("introspection"%string, on); ("request"%string, on); ("removal"%string, on)]);
          ("host"%string, JStr (Settings.host (settings l)))].
Definition sort_names (l : list str) : list str := foldr insert_name [] l.
Definition baseline_list (st : State) : list str := sort_names (elements (baseline (config st))).
Definition allowlist (e : PolicyEnv) (a : PolicyApi) : Json :=
  let s := settings (live a) in
  object [("mode"%string, match mode (config (dom a)) with Some m => JStr m | None => JNull end);
          ("baseline"%string, JArray (map JStr (baseline_list (dom a))));
          ("granted"%string, JArray (map (fun g => Coerce.yaml_to_json (VMapping g.2)) (granted_entries (dom a))));
          ("passthrough"%string, JArray (map JStr (sort_names (Settings.passthrough s))));
          ("requestable"%string, JBool (Settings.enable s)); ("context"%string, JStr (Settings.context s));
          ("version"%string, JStr (version e (live a)))].

Definition handle (e : PolicyEnv) (reply : result str Json) (a : PolicyApi) (r : ControlRequest)
  : PolicyApi * ControlResponse :=
  let path := req_path r in
  let method := to_uppercase (req_method r) in
  if MAX_BODY <? Z.of_nat (length (req_body r)) then
    (a, respond 413 (error_body (lit "request body too large"))
          [event e "policy_request"
             [("path"%string, JStr path); ("method"%string, JStr method); ("decision"%string, JStr (lit "rejected"));
              ("reason"%string, JStr (lit "body too large"))]])
  else if bool_decide (method = lit "GET") && bool_decide (path = lit "/v1/health") then
    (a, respond 200 (health e (live a)) [])
  else if negb (Settings.enable (settings (live a))) then
    (a, respond 404 (error_body (lit "policy api disabled")) [])
  else if bool_decide (method = lit "GET") && bool_decide (path = lit "/v1/allowlist") then
    (a, respond 200 (allowlist e a) [event e "policy_introspect" [("path"%string, JStr path)]])
  else if bool_decide (method = lit "POST") && bool_decide (path = lit "/v1/allowlist/requests") then
    handle_request e reply a (req_body r)
  else if bool_decide (method = lit "POST") && bool_decide (path = lit "/v1/allowlist/removals") then
    handle_removal e a (req_body r)
  else (a, respond 404 (error_body (lit "not found")) []).
End Policy.

(** * Theorems *)

Section Theorems.
Context `{Unicode} `{UnicodeUpper} `{F64Text} `{OverlayFile}.

(** ** Names *)

Lemma join_last ls l : exists pre, join_with 46 (ls ++ [l]) = pre ++ l.
Proof.
  induction ls as [|a ls [pre IH]]; [by exists []|]. exists (a ++ 46 :: pre). cbn [app].
  destruct (ls ++ [l]) as [|b r] eqn:E; [by destruct ls|]. change (join_with 46 (a :: b :: r)) with (a ++ 46 :: join_with 46 (b :: r)).
  rewrite IH, <- app_assoc. reflexivity.
Qed.

Lemma label_last l : Label l -> exists c, last l = Some c /\ c <> 46.
Proof.
  intros [(c & -> & Hc)|(c & m & d & -> & _ & Hd & _)].
  - exists c. split; [reflexivity|]. unfold alnum in Hc. lia.
  - exists d. split; [|unfold alnum in Hd; lia]. change (c :: m ++ [d]) with ((c :: m) ++ [d]). apply last_snoc.
Qed.

(** A name the gate accepts is its own normal form. *)
Lemma valid_normal d : valid_domain d StrictDotted = true -> normalise d = d /\ d <> [].
Proof.
  intros Hv. destruct (valid_domain_cases d StrictDotted Hv) as [[Hd|[? _]] _]; [|discriminate].
  pose proof (DottedName_chars d Hd) as Hc. destruct Hd as (_ & labels & Hl & Hall & Ed).
  assert (Hlast : exists c, last d = Some c /\ c <> 46).
  { destruct labels as [|l0 ls] using rev_ind; [cbn in Hl; lia|]. rewrite Forall_app in Hall.
    destruct Hall as [_ Hl0]. apply Forall_cons in Hl0 as [Hl0 _]. destruct (label_last l0 Hl0) as (c & Hc0 & Hne).
    exists c. split; [|exact Hne]. destruct (join_last ls l0) as (pre & Ej). rewrite Ed, Ej, last_app, Hc0. reflexivity. }
  assert (Hlow : to_lowercase d = d).
  { unfold to_lowercase. assert (forallb is_ascii d = true) as ->.
    { apply forallb_Forall. eapply Forall_impl; [exact Hc|]. unfold directive_safe, alnum, is_ascii, in_range. lia. }
    rewrite <- (map_id d) at 2. apply map_ext_in. intros x Hx. rewrite Forall_forall in Hc.
    apply list_elem_of_In in Hx. specialize (Hc x Hx). unfold directive_safe, alnum in Hc.
    unfold ascii_lower, is_ascii_uppercase, in_range. assert (((65 <=? x) && (x <=? 90)) = false) as -> by lia. reflexivity. }
  destruct Hlast as (c & Hc0 & Hne). assert (Hn : d <> []) by (by intros ->). split; [|exact Hn].
  unfold normalise. rewrite Hlow. rewrite <- (app_nil_r d) at 1. rewrite trim_end_app; [by rewrite app_nil_r|congruence|exact Hn].
Qed.

(** The floor no decision reaches: addresses spelled in a name, the internal
    suffixes and the control host. *)
Definition grantable (d control_host : str) : Prop :=
  encoded_private_ip d = None /\
  forall s, s = control_host \/ s ∈ AUTO_NEVER_GRANT -> d <> s /\ ~ exists pre, d = pre ++ 46 :: s.
Lemma is_never_grant_false d host : normalise d = d -> is_never_grant d host = false -> grantable d host.
Proof.
  intros Hd. unfold is_never_grant, grantable. destruct (encoded_private_ip d); [discriminate|]. intros Hf.
  split; [reflexivity|]. change (Coerce.normalise_domain d) with (normalise d) in Hf. rewrite Hd in Hf.
  intros s Hs. assert (Hn : s ∉ suffixes d).
  { intros Hin. apply not_true_iff_false in Hf. apply Hf. apply existsb_elem. exists s. split; [exact Hin|].
    apply orb_true_iff. rewrite !bool_decide_eq_true. exact Hs. }
  rewrite suffixes_spec in Hn. tauto.
Qed.

(** ** What the parts change *)

Lemma publish_dns_same e n a : dom (publish_dns e n a) = dom a /\ live (publish_dns e n a) = live a /\
  overlay (publish_dns e n a) = overlay a /\ file (world (publish_dns e n a)) = file (world a).
Proof. unfold publish_dns. cbv zeta. by destruct (publish_ok e n). Qed.

Lemma persist_same e a : dom (persist_locked e a) = dom a /\ live (persist_locked e a) = live a /\
  reserved (overlay (persist_locked e a)) = reserved (overlay a).
Proof.
  unfold persist_locked. cbv zeta. destruct (write_outcome e);
    match goal with |- context [publish_dns e 1 ?b] => destruct (publish_dns_same e 1 b) as (-> & -> & -> & _) end; done.
Qed.

(** Reading the file again: the grants become those of the file. *)
Lemma reload_cases e a : let a' := (maybe_reload_locked e a).1 in
  (a' = a) \/ (dom a' = DomainInspector.reconcile (dom a) (file (world a)) /\ live a' = live a /\
               reserved (overlay a') = reserved (overlay a) /\ file (world a') = file (world a)).
Proof.
  unfold maybe_reload_locked. case_bool_decide; [by left|]. right. cbn [fst]. unfold reconcile.
  match goal with |- context [publish_dns e 0 ?b] => destruct (publish_dns_same e 0 b) as (-> & -> & -> & ->) end. done.
Qed.

Definition known (a : PolicyApi) (d : str) : Prop :=
  d ∈ granted_domains (dom a) \/ d ∈ im_keys (index_entries (file (world a))).
Lemma reload_known e a d : NoDup (granted_domains (dom a)) -> d ∈ granted_domains (dom (maybe_reload_locked e a).1) -> known a d.
Proof.
  intros Hn Hd. destruct (reload_cases e a) as [E|(E & _)]; rewrite E in Hd; [by left|]. right. by apply (reconcile_keys (dom a)).
Qed.
Lemma reload_nodup e a : NoDup (granted_domains (dom a)) -> NoDup (granted_domains (dom (maybe_reload_locked e a).1)).
Proof.
  intros Hn. destruct (reload_cases e a) as [->|(-> & _)]; [exact Hn|].
  apply (domain_step_nodup (dom a)); [constructor|exact Hn].
Qed.
Lemma reload_same e a : config (dom (maybe_reload_locked e a).1) = config (dom a) /\ live (maybe_reload_locked e a).1 = live a.
Proof. by destruct (reload_cases e a) as [->|(-> & -> & _)]. Qed.

Lemma rate_same e a : dom (check_rate_limit e a).1 = dom a /\ live (check_rate_limit e a).1 = live a /\
  overlay (check_rate_limit e a).1 = overlay a /\ world (check_rate_limit e a).1 = world a.
Proof.
  unfold check_rate_limit. cbv zeta. destruct (Settings.rate_rps _); try done; by destruct (f64_geb _ _).
Qed.
Lemma reserve_same a a' : reserve_slot a = Some a' -> dom a' = dom a /\ live a' = live a /\ world a' = world a.
Proof. unfold reserve_slot. destruct (_ <=? _); [discriminate|]. by intros [= <-]. Qed.

Lemma grant_domains st d exp reason by_ ts :
  config (grant_at st d exp reason by_ ts).1 = config st /\
  forall x, x ∈ granted_domains (grant_at st d exp reason by_ ts).1 -> x ∈ granted_domains st \/ x = normalise d.
Proof.
  rewrite grant_at_cases. destruct (base.decide _); cbn [fst config]; [|split; [done|by left]]. split; [reflexivity|].
  intros x. unfold granted_domains. cbn [granted]. rewrite im_insert_keys. destruct (im_contains _ _); [by left|].
  rewrite elem_of_app, list_elem_of_singleton. tauto.
Qed.

Lemma apply_grant_known e a d reason by_ exp x : NoDup (granted_domains (dom a)) ->
  x ∈ granted_domains (dom (apply_grant e a d reason by_ exp)) -> known a x \/ x = normalise d.
Proof.
  intros Hn. unfold apply_grant. cbv zeta. match goal with |- context [persist_locked e ?b] => destruct (persist_same e b) as (-> & _ & _) end.
  unfold release_slot, set_overlay, set_dom. cbn [dom]. intros Hx. apply grant_domains in Hx as [Hx|Hx]; [|by right].
  left. by apply (reload_known e).
Qed.
Lemma apply_grant_same e a d reason by_ exp :
  config (dom (apply_grant e a d reason by_ exp)) = config (dom a) /\ live (apply_grant e a d reason by_ exp) = live a.
Proof.
  unfold apply_grant. cbv zeta. match goal with |- context [persist_locked e ?b] => destruct (persist_same e b) as (-> & -> & _) end.
  unfold release_slot, set_overlay, set_dom. cbn [dom live]. rewrite (proj1 (grant_domains _ _ _ _ _ _)). apply reload_same.
Qed.

(** ** Decisions *)

(** The decider said yes: its tool arguments decide [grant], with a lifetime
    that is a number and not negative. *)
Definition approves (reply : result str Json) : Prop :=
  exists args ttl, reply = Ok args /\
    to_lowercase (Coerce.str_or_empty (json_get args (lit "decision"))) = lit "grant" /\
    Coerce.int_or_zero (json_get args (lit "ttl_seconds")) = Ok ttl /\ 0 <= ttl.

Lemma call_decider_grant l reply : decision (call_decider l reply) = lit "grant" -> 0 <= ttl_seconds (call_decider l reply) ->
  approves reply.
Proof.
  unfold call_decider. cbv zeta.
  destruct (bool_decide (_ = [])) in |- *; [discriminate|]. destruct (negb (duration_ok _)); [discriminate|].
  destruct reply as [args|m]; [|discriminate]. destruct (_ && _); [discriminate|].
  destruct (Coerce.int_or_zero _) as [ttl|] eqn:E; [|discriminate]. cbn [decision ttl_seconds].
  intros Hd Ht. by exists args, ttl.
Qed.

Lemma release_same a : dom (release_slot a) = dom a /\ live (release_slot a) = live a /\ world (release_slot a) = world a.
Proof. done. Qed.

Lemma decide_effect e reply a d reason : NoDup (granted_domains (dom a)) ->
  let '(a', resp) := decide e reply a d reason in
  config (dom a') = config (dom a) /\ live a' = live a /\
  forall x, x ∈ granted_domains (dom a') -> known a x \/ (x = normalise d /\ approves reply /\ status resp = 200).
Proof.
  intros Hn. unfold decide. cbv zeta.
  destruct (_ || _ || _); [split_and!; [done|done|by left; left]|].
  destruct (negb (bool_decide (decision (call_decider (live a) reply) = lit "grant"))) eqn:Ed;
    [split_and!; [done|done|by left; left]|].
  apply negb_false_iff, bool_decide_eq_true in Ed.
  destruct (Z.ltb_spec (Z.min (ttl_seconds (call_decider (live a) reply)) MAX_TTL_SECONDS) 0) as [Ht|Ht];
    [split_and!; [done|done|by left; left]|].
  destruct (apply_grant_same e a d
    (if bool_decide (Coerce.truncate_chars (v_reason (call_decider (live a) reply)) 1000 = []) then reason
     else Coerce.truncate_chars (v_reason (call_decider (live a) reply)) 1000)
    (default (lit "decider:agent:" ++ Settings.provider (settings (live a))) (decided_by (call_decider (live a) reply)))
    (expires_at e (Z.min (ttl_seconds (call_decider (live a) reply)) MAX_TTL_SECONDS))) as [E1 E2].
  split_and!; [exact E1|exact E2|]. intros x Hx. apply apply_grant_known in Hx as [Hx| ->]; [by left| |exact Hn].
  right. split; [reflexivity|]. split; [|reflexivity]. apply (call_decider_grant (live a)); [exact Ed|].
  unfold MAX_TTL_SECONDS in Ht. lia.
Qed.

(** What a request body asks. *)
Definition asks (body : bytes) (d reason : str) : Prop :=
  exists p, payload body = Some p /\ d = Coerce.normalise_domain (Coerce.str_or_empty (json_get p (lit "domain"))) /\
    reason = Coerce.truncate_chars (Coerce.str_or_empty (json_get p (lit "reason"))) 1000.

(** A name newly granted by a request. *)
Definition admitted (reply : result str Json) (a : PolicyApi) (body : bytes) (resp : ControlResponse) (x : str) : Prop :=
  mode (config (dom a)) = Some ALLOWLIST /\
  (exists reason, asks body x reason /\ Coerce.strip reason <> []) /\
  valid_domain x StrictDotted = true /\ grantable x (Settings.host (settings (live a))) /\
  Z.of_nat (grant_count (dom a)) + reserved (overlay a) < MAX_GRANTS /\
  approves reply /\ status resp = 200.

Lemma handle_request_effect e reply a body : NoDup (granted_domains (dom a)) ->
  let '(a', resp) := handle_request e reply a body in
  config (dom a') = config (dom a) /\ live a' = live a /\
  forall x, x ∈ granted_domains (dom a') -> known a x \/ admitted reply a body resp x.
Proof.
  intros Hn. unfold handle_request. destruct (payload body) as [p|] eqn:Ep; [|split_and!; [done|done|by left; left]].
  cbv zeta. set (d := Coerce.normalise_domain _). set (reason := Coerce.truncate_chars _ 1000).
  destruct (bool_decide (Coerce.strip reason = [])) eqn:Er; [split_and!; [done|done|by left; left]|].
  destruct (is_allowlist (dom a)) eqn:Em; cbn [negb]; [|split_and!; [done|done|by left; left]].
  destruct (valid_domain d StrictDotted) eqn:Ev; cbn [negb]; [|split_and!; [done|done|by left; left]].
  destruct (bool_decide (matched_expired_at _ _ _ = None) && _); [split_and!; [done|done|by left; left]|].
  destruct (is_never_grant d _) eqn:Eg; [split_and!; [done|done|by left; left]|].
  destruct (reserve_slot a) as [b|] eqn:Eb; [|split_and!; [done|done|by left; left]].
  destruct (reserve_same a b Eb) as (Hdom & Hlive & Hworld).
  destruct (check_rate_limit e b) as [c within] eqn:Ec.
  pose proof (rate_same e b) as Hrate. rewrite Ec in Hrate. cbn [fst] in Hrate. destruct Hrate as (Rd & Rl & _ & Rw).
  destruct within; cbn [negb].
  2:{ cbn [release_slot set_overlay dom live]. rewrite Rd, Rl, Hdom, Hlive. split_and!; [done|done|by left; left]. }
  assert (Hnc : NoDup (granted_domains (dom c))) by (by rewrite Rd, Hdom).
  pose proof (decide_effect e reply c d reason Hnc) as Hd. destruct (decide e reply c d reason) as [a' resp].
  destruct Hd as (H1' & H2' & H3'). rewrite H1', H2', Rd, Rl, Hdom, Hlive. split_and!; [done|done|].
  intros x Hx. destruct (H3' x Hx) as [Hk|(-> & Ha & Hs)].
  { left. unfold known in *. by rewrite Rd, Rw, Hdom, Hworld in Hk. }
  right. destruct (valid_normal d Ev) as [Ed Hne]. rewrite Ed. unfold admitted. split_and!; try assumption.
  - unfold is_allowlist in Em. by apply bool_decide_eq_true in Em.
  - exists reason. split; [by exists p|]. by apply bool_decide_eq_false in Er.
  - by apply is_never_grant_false.
  - unfold reserve_slot in Eb. destruct (Z.leb_spec MAX_GRANTS (Z.of_nat (grant_count (dom a)) + reserved (overlay a))); [discriminate|assumption].
Qed.

(** ** Removals *)

Lemma revoke_effect e a d : NoDup (granted_domains (dom a)) ->
  let '(a', r) := revoke_live_grant e a d in
  config (dom a') = config (dom a) /\ live a' = live a /\
  (r = Revoked <-> normalise d ∈ granted_domains (dom (maybe_reload_locked e a).1)) /\
  forall x, x ∈ granted_domains (dom a') <->
            x ∈ granted_domains (dom (maybe_reload_locked e a).1) /\ (r = Revoked -> x <> normalise d).
Proof.
  intros Hn. unfold revoke_live_grant. cbv zeta. destruct (reload_same e a) as [Hc Hl].
  set (b := (maybe_reload_locked e a).1) in *.
  assert (Hg : is_granted (dom b) d = true <-> normalise d ∈ granted_domains (dom b)) by apply im_contains_keys.
  destruct (is_granted (dom b) d); cbn [negb].
  - match goal with |- context [persist_locked e ?c] => destruct (persist_same e c) as (-> & -> & _) end.
    unfold set_dom, revoke. cbn [dom live fst config]. split_and!; [exact Hc|exact Hl|tauto|].
    intros x. unfold granted_domains. cbn [granted]. rewrite im_remove_keys, list_elem_of_In, filter_In, <- list_elem_of_In.
    rewrite negb_true_iff, bool_decide_eq_false. tauto.
  - split_and!; [exact Hc|exact Hl|split; [discriminate|intros Hin; by apply Hg in Hin]|]. intros x. split; [|tauto].
    intros Hx. by split.
Qed.

Lemma handle_removal_effect e a body : NoDup (granted_domains (dom a)) ->
  let '(a', resp) := handle_removal e a body in
  config (dom a') = config (dom a) /\ live a' = live a /\ forall x, x ∈ granted_domains (dom a') -> known a x.
Proof.
  intros Hn. unfold handle_removal. destruct (payload body) as [p|]; [|split_and!; [done|done|by left]]. cbv zeta.
  destruct (negb (is_allowlist (dom a))); [split_and!; [done|done|by left]|].
  destruct (check_rate_limit e a) as [c within] eqn:Ec.
  pose proof (rate_same e a) as Hrate. rewrite Ec in Hrate. cbn [fst] in Hrate. destruct Hrate as (Rd & Rl & _ & Rw).
  assert (Hk : forall x, x ∈ granted_domains (dom c) -> known a x) by (intros x; rewrite Rd; by left).
  destruct (negb within); [rewrite Rd, Rl in *; split_and!; [done|done|exact Hk]|].
  destruct (negb (valid_domain _ _)); [rewrite Rd, Rl in *; split_and!; [done|done|exact Hk]|].
  pose proof (revoke_effect e c (Coerce.normalise_domain (Coerce.str_or_empty (json_get p (lit "domain")))) ltac:(by rewrite Rd)) as Hr.
  destruct (revoke_live_grant e c _) as [a' r] eqn:Er. destruct Hr as (E1 & E2 & _ & E3).
  assert (Hall : config (dom a') = config (dom a) /\ live a' = live a /\ forall x, x ∈ granted_domains (dom a') -> known a x).
  { rewrite E1, E2, Rd, Rl. split_and!; [done|done|]. intros x Hx. apply E3 in Hx as [Hx _].
    apply (reload_known e c) in Hx; [|by rewrite Rd]. unfold known in *. by rewrite Rd, Rw in Hx. }
  destruct r; [exact Hall|]. destruct (matches_baseline _ _); exact Hall.
Qed.

(** A branch that leaves the state alone. *)
Ltac unchanged := cbv beta iota; split_and!; [reflexivity|reflexivity|intros x Hx Hnew _; by destruct Hnew].

(** C7: The Policy API fails closed.  Whatever a request is and whatever the decider
    answers, the operator's baseline and the settings are untouched, and a name
    that was neither granted nor in the overlay file is granted only by a
    [POST] to the requests route, at most 8 KiB long, with the API enabled and
    the inspector in allowlist mode, for the name the body asks with a
    justification, a well-formed dotted name that spells no private address
    and is not the control host or internal nor under either, while there is
    room, on a decider answer that says [grant] with a lifetime that is a number
    and not negative; and then the answer is 200. *)
Theorem policy_fails_closed e reply a r : NoDup (granted_domains (dom a)) ->
  let '(a', resp) := handle e reply a r in
  config (dom a') = config (dom a) /\ live a' = live a /\
  forall x, x ∈ granted_domains (dom a') -> x ∉ granted_domains (dom a) -> x ∉ im_keys (index_entries (file (world a))) ->
    to_uppercase (req_method r) = lit "POST" /\ req_path r = lit "/v1/allowlist/requests" /\
    Z.of_nat (length (req_body r)) <= MAX_BODY /\ Settings.enable (settings (live a)) = true /\
    admitted reply a (req_body r) resp x.
Proof.
  intros Hn. unfold handle. cbv zeta.
  destruct (Z.ltb_spec MAX_BODY (Z.of_nat (length (req_body r)))); [unchanged|].
  destruct (bool_decide (to_uppercase (req_method r) = lit "GET") && bool_decide (req_path r = lit "/v1/health")); [unchanged|].
  destruct (Settings.enable (settings (live a))) eqn:Een; cbn [negb]; [|unchanged].
  destruct (bool_decide (to_uppercase (req_method r) = lit "GET") && _); [unchanged|].
  destruct (bool_decide (to_uppercase (req_method r) = lit "POST") && bool_decide (req_path r = lit "/v1/allowlist/requests")) eqn:E1.
  - apply andb_true_iff in E1 as [E1 E2]. apply bool_decide_eq_true in E1, E2.
    pose proof (handle_request_effect e reply a (req_body r) Hn) as Hr.
    destruct (handle_request e reply a (req_body r)) as [a' resp]. destruct Hr as (Hc & Hl & Hk).
    split_and!; [exact Hc|exact Hl|]. intros x Hx Hnew Hfile. destruct (Hk x Hx) as [[?|?]|Ha]; [done|done|].
    by split_and!.
  - destruct (bool_decide (to_uppercase (req_method r) = lit "POST") && bool_decide (req_path r = lit "/v1/allowlist/removals")); [|unchanged].
    pose proof (handle_removal_effect e a (req_body r) Hn) as Hr.
    destruct (handle_removal e a (req_body r)) as [a' resp]. destruct Hr as (Hc & Hl & Hk).
    split_and!; [exact Hc|exact Hl|]. intros x Hx Hnew Hfile. by destruct (Hk x Hx).
Qed.
End Theorems.

(** ** Concrete instances *)

Definition sample_upper : UnicodeUpper := {| unicode_uppercase := fun s => s |}.
Definition sample_overlay : OverlayFile := {| written := fun entries => entries |}.

Section Instances.
#[local] Existing Instances ascii_unicode sample_upper sample_f64 sample_overlay.

Definition sample_settings : Settings.Settings :=
  Settings.mkSettings true (lit "agentcage.local") [] [] (f64_of_int 30) 1024 (lit "anthropic") (lit "model") [] []
    (lit "LLM_KEY") (f64_of_int 0) (f64_of_int 1) [].
Definition sample_time : DateTime := mkDateTime 1767225600000000 (Some 0).
Definition sample_env : PolicyEnv := mkEnv (fun _ => sample_time) (f64_of_int 0) (lit "id") [] (Some None) (fun _ => true).
Definition sample_api : PolicyApi :=
  mkApi (mkLive sample_settings (lit "key")) (mkBucket (f64_of_int 1) (f64_of_int 0)) (mkOverlay None 0) sample_state
    (mkWorld [] None []).
Definition sample_reply : result str Json :=
  Ok (JObject [(lit "decision", JStr (lit "grant")); (lit "ttl_seconds", JInt 60); (lit "reason", JStr (lit "ok"))]).
Definition quoted (s : string) : bytes := [34] ++ lit s ++ [34].
Definition sample_body : bytes :=
  lit "{" ++ quoted "domain" ++ lit ":" ++ quoted "api.test.org" ++ lit "," ++ quoted "reason" ++ lit ":" ++ quoted "docs" ++ lit "}".
Definition sample_request : ControlRequest := mkRequest (lit "POST") (lit "/v1/allowlist/requests") sample_body.

Lemma policy_fails_closed_witness :
  let '(a', resp) := handle sample_env sample_reply sample_api sample_request in
  granted_domains (dom a') = [lit "api.test.org"] /\ admitted sample_reply sample_api sample_body resp (lit "api.test.org").
Proof.
  assert (Hg : granted_domains (dom (handle sample_env sample_reply sample_api sample_request).1) = [lit "api.test.org"])
    by (vm_compute; reflexivity).
  pose proof (policy_fails_closed sample_env sample_reply sample_api sample_request ltac:(constructor)) as Hp.
  destruct (handle sample_env sample_reply sample_api sample_request) as [a' resp]. cbn [fst] in Hg.
  split; [exact Hg|]. destruct Hp as (_ & _ & Hp). apply (Hp (lit "api.test.org")).
  - rewrite Hg. by apply list_elem_of_singleton.
  - by apply not_elem_of_nil.
  - by apply not_elem_of_nil.
Defined.
End Instances.
