(* ===== verification/PolicyRuns.v ===== *)
(** The grants over time: how long a grant lives, what the overlay file and the
    DNS list hold, and how many grants there can be when requests, removals,
    sweeps, reloads and edits of the file interleave. *)
From S2P Require Import Prelude Domain DateTime Timestamp IsoOrder IndexMap Json Value Inspect DomainInspector ConfigValues.
From S2P Require Coerce Settings.
From S2P Require Import Policy.
From Stdlib Require Import SpecFloat Sorting.Sorted.

(** * Definitions *)

(** What the clock gives: a value in range, in UTC. *)
Definition utc (t : DateTime) : Prop := representable t /\ offset_seconds t = Some 0.
Definition stamp (t : DateTime) : Timestamp := mkTimestamp (instant_micros t).

(** The Policy API shared by concurrent requests: its state and the number of
    requests past the [max_grants] gate whose decision is pending.  Each step is
    one critical section of the code, under its own clock and file outcomes; the
    host's edits of the overlay file withdraw grants ([cage grants] revokes and
    promotes), and whatever else they do to the file they add none. *)
Section Steps.
Context `{Unicode} `{UnicodeUpper} `{F64Text} `{OverlayFile}.

Inductive policy_step : PolicyApi * Z -> PolicyApi * Z -> Prop :=
| step_reserve a a' n : reserve_slot a = Some a' -> policy_step (a, n) (a', n + 1)
| step_release a n : 0 < n -> policy_step (a, n) (release_slot a, n - 1)
| step_apply e a n d reason by_ exp : 0 < n -> policy_step (a, n) (apply_grant e a d reason by_ exp, n - 1)
| step_revoked e a n d : write_outcome e <> None -> policy_step (a, n) ((revoke_live_grant e a d).1, n)
| step_sweep e a n : write_outcome e <> None -> policy_step (a, n) ((sweeper_tick e a).1, n)
| step_reload e a n : policy_step (a, n) ((maybe_reload_locked e a).1, n)
| step_rate e a n : policy_step (a, n) ((check_rate_limit e a).1, n)
| step_live e c secret a a' n : reconfigure e c secret None a = Ok a' -> policy_step (a, n) (a', n)
| step_domains a n section st' : configure (dom a) section = Ok st' -> policy_step (a, n) (set_dom a st', n)
| step_host a n f m : im_keys (index_entries f) ⊆ im_keys (index_entries (file (world a))) ->
    policy_step (a, n) (set_world a (mkWorld f m (published (world a))), n).

(** A fresh API over the overlay file [entries]. *)
Inductive policy_reachable (entries : list Mapping) : PolicyApi * Z -> Prop :=
| policy_start e c secret d w a : new_api e c secret d w = Ok a -> file w = entries -> granted d = [] ->
    policy_reachable entries (a, 0)
| policy_next s s' : policy_reachable entries s -> policy_step s s' -> policy_reachable entries s'.
End Steps.

(** * Theorems *)

Section Runs.
Context `{Unicode} `{UnicodeUpper} `{F64Text} `{OverlayFile}.

(** ** The published list *)

Lemma insert_name_perm s l : insert_name s l ≡ₚ s :: l.
Proof.
  induction l as [|t l IH]; [reflexivity|]. cbn [insert_name]. destruct (str_leb s t); [reflexivity|].
  rewrite IH. apply perm_swap.
Qed.
Lemma sort_names_perm l : foldr insert_name [] l ≡ₚ l.
Proof. induction l as [|s l IH]; [reflexivity|]. cbn [foldr]. by rewrite insert_name_perm, IH. Qed.

Abbreviation name_le := (fun a b : str => str_leb a b = true).

Lemma str_leb_total a b : str_leb a b = false -> str_leb b a = true.
Proof.
  unfold str_leb. revert b. induction a as [|x a IH]; intros [|y b]; cbn [str_compare]; try done.
  destruct (Z.compare_spec x y) as [->|Hxy|Hxy]; [rewrite Z.compare_refl; apply IH|done|].
  intros _. by rewrite (proj2 (Z.compare_lt_iff y x) Hxy).
Qed.

Lemma insert_name_sorted s l : Sorted name_le l -> Sorted name_le (insert_name s l).
Proof.
  induction 1 as [|t l Hl IH Hh]; cbn [insert_name]; [by repeat constructor|].
  destruct (str_leb s t) eqn:E; [by repeat constructor|]. constructor; [exact IH|].
  apply str_leb_total in E. destruct l as [|u l]; cbn [insert_name]; [by constructor|].
  destruct (str_leb s u); constructor; [exact E|]. by inversion Hh.
Qed.
Lemma sort_names_sorted l : Sorted name_le (foldr insert_name [] l).
Proof. induction l as [|s l IH]; [constructor|]. cbn [foldr]. by apply insert_name_sorted. Qed.

(** A grant that the text rule of the overlay still counts at [now_iso]. *)
Definition unexpired (now_iso : str) (entry : Mapping) : Prop :=
  entry_expiry entry = [] \/ str_ltb now_iso (entry_expiry entry) = true.

Lemma publishable_elem l now_iso x :
  x ∈ publishable l now_iso <-> exists entry, (x, entry) ∈ l /\ matches_domain_shape x = true /\ unexpired now_iso entry.
Proof.
  unfold publishable. rewrite sort_names_perm. rewrite list_elem_of_In, in_map_iff. split.
  - intros ([d entry] & <- & Hin). apply filter_In in Hin as [Hin Hf]. cbn [fst snd] in *.
    destruct (bool_decide (d = []) || negb (matches_domain_shape d)) eqn:E; [discriminate|].
    apply orb_false_iff in E as [_ E]. apply negb_false_iff in E. exists entry.
    split; [by apply list_elem_of_In|]. split; [exact E|]. unfold unexpired.
    by rewrite orb_true_iff, bool_decide_eq_true in Hf.
  - intros (entry & Hin & Hs & Hu). exists (x, entry). split; [reflexivity|]. apply filter_In. cbn [fst snd].
    split; [by apply list_elem_of_In|]. rewrite Hs, bool_decide_eq_false_2.
    + cbn [negb orb]. rewrite orb_true_iff, bool_decide_eq_true. exact Hu.
    + intros ->. apply matches_domain_shape_iff in Hs as (_ & labels & Hl & Hall & E).
      destruct labels as [|a [|b r]]; cbn in Hl; try lia. apply (f_equal length) in E. cbn in E. rewrite length_app in E. cbn in E. lia.
Qed.

Lemma granted_published st now_iso x : x ∈ publishable (granted_entries st) now_iso <->
  exists entry, (x, entry) ∈ granted st /\ matches_domain_shape x = true /\ unexpired now_iso entry.
Proof.
  rewrite publishable_elem. unfold granted_entries. split; intros (entry & Hin & Hr); exists entry; split; try exact Hr.
  - by rewrite sort_pairs_perm in Hin.
  - by rewrite sort_pairs_perm.
Qed.

(** ** Lifetimes *)

Lemma im_get_elem_iff {A} (m : list (str * A)) k v : NoDup (im_keys m) -> (k, v) ∈ m <-> im_get m k = Some v.
Proof. intros Hn. split; [by apply im_get_in|apply im_get_elem]. Qed.

(** The expiry written for a lifetime, within the range of dates. *)
Lemma expires_at_text e ttl : utc (now_utc e ForExpiry) -> 0 < ttl <= MAX_TTL_SECONDS ->
  civil_micros (now_utc e ForExpiry) + MAX_TTL_SECONDS * MICROS_PER_SECOND <= MAX_CIVIL_MICROS ->
  exists t, expires_at e ttl = isoformat t /\ utc t /\
    instant_micros t = instant_micros (now_utc e ForExpiry) + ttl * MICROS_PER_SECOND.
Proof.
  unfold expires_at, MAX_TTL_SECONDS. intros [Hr Ho] Ht Hmax. set (now := now_utc e ForExpiry) in *.
  destruct (Z.leb_spec ttl 0); [lia|]. unfold checked_sub_seconds.
  assert (Hm : MICROS_PER_SECOND = 1000000) by reflexivity. destruct Hr as [Hc Hoff].
  rewrite i64_checked_in by (unfold i64_min, i64_max; lia).
  rewrite checked_sub_micros_exact by (first [by split|unfold i64_min, i64_max; lia]).
  rewrite (proj2 (in_range_spec _ _ _)) by lia.
  exists (mkDateTime (civil_micros now - - ttl * MICROS_PER_SECOND) (offset_seconds now)).
  split; [reflexivity|]. split; [split; [split|]|]; cbn [civil_micros offset_seconds]; [lia|exact Hoff|exact Ho|].
  unfold instant_micros. cbn [civil_micros offset_seconds]. lia.
Qed.

(** The three readers of an expiry agree: the request check, the sweeper and the
    DNS list. *)
Lemma expiry_readers e ttl entry t : utc (now_utc e ForExpiry) -> 0 <= ttl <= MAX_TTL_SECONDS ->
  civil_micros (now_utc e ForExpiry) + MAX_TTL_SECONDS * MICROS_PER_SECOND <= MAX_CIVIL_MICROS ->
  entry_expiry entry = expires_at e ttl -> utc t ->
  let live := ttl = 0 \/ instant_micros t < instant_micros (now_utc e ForExpiry) + ttl * MICROS_PER_SECOND in
  ((entry_expiry entry = [] \/ expiry_in_future (entry_expiry entry) (stamp t) <> Some false) <-> live) /\
  (lapsed (isoformat t) entry = true <-> ~ live) /\ (unexpired (isoformat t) entry <-> live).
Proof.
  intros Hnow Ht Hmax He [Htr Hto] live. unfold lapsed, unexpired. rewrite He. destruct (base.decide (ttl = 0)) as [->|Hne].
  { change (expires_at e 0) with ([] : str). assert (Hl : live) by (by left).
    split; [|split]; [|rewrite bool_decide_eq_true_2 by reflexivity; cbn [negb andb]|]; intuition discriminate. }
  destruct (expires_at_text e ttl Hnow ltac:(lia) Hmax) as (x & -> & [Hxr Hxo] & Ex).
  assert (Hn : isoformat x <> []).
  { intros E. pose proof (representable_read_back x Hxr) as Hp. rewrite E in Hp. discriminate. }
  destruct (isoformat_ltb t x Htr Hxr ltac:(congruence)) as [Elt _].
  destruct (isoformat_ltb x t Hxr Htr ltac:(congruence)) as [_ Ele].
  rewrite (bool_decide_eq_false_2 _ Hn), Elt, Ele. cbn [negb andb].
  unfold expiry_in_future. rewrite isoformat_as_bytes, representable_read_back by exact Hxr.
  unfold is_aware. rewrite Hxo. rewrite bool_decide_eq_true_2 by eauto. cbv beta iota.
  unfold ts_gtb, stamp. cbn [unix_micros]. rewrite Ex. subst live. set (z := instant_micros _ + _).
  rewrite Z.leb_le, Z.ltb_lt. destruct (Z.ltb_spec (instant_micros t) z); intuition (try discriminate; try lia; try congruence).
Qed.

Lemma decide_granted e reply a d reason : status (decide e reply a d reason).2 = 200 ->
  exists args t reason' by_, reply = Ok args /\ Coerce.int_or_zero (json_get args (lit "ttl_seconds")) = Ok t /\ 0 <= t /\
    (decide e reply a d reason).1 = apply_grant e a d reason' by_ (expires_at e (Z.min t MAX_TTL_SECONDS)).
Proof.
  unfold decide. cbv zeta. destruct (_ || _ || _) in |- *; [discriminate|].
  destruct (negb (bool_decide (decision (call_decider (live a) reply) = lit "grant"))) eqn:Ed; [discriminate|].
  apply negb_false_iff, bool_decide_eq_true in Ed.
  destruct (Z.ltb_spec (Z.min (ttl_seconds (call_decider (live a) reply)) MAX_TTL_SECONDS) 0) as [Ht|Ht]; [discriminate|].
  intros _. cbn [fst]. unfold MAX_TTL_SECONDS in Ht.
  destruct (call_decider_grant (live a) reply Ed ltac:(lia)) as (args & t & -> & _ & Ei & Hpos).
  exists args, t. eexists _, _. split_and!; try assumption; [reflexivity|].
  enough (E : ttl_seconds (call_decider (live a) (Ok args)) = t) by (rewrite E; reflexivity).
  revert Ed. unfold call_decider. cbv zeta.
  destruct (bool_decide (_ = [])) in |- *; [discriminate|]. destruct (negb (duration_ok _)); [discriminate|].
  destruct (_ && _); [discriminate|]. by rewrite Ei.
Qed.

Lemma apply_grant_dom e a d reason by_ exp : mode (config (dom a)) = Some ALLOWLIST -> normalise d <> [] ->
  exists ts src, granted (dom (apply_grant e a d reason by_ exp)) =
    im_insert (granted (dom (maybe_reload_locked e a).1)) (normalise d) (grant_entry (normalise d) ts exp reason src).
Proof.
  intros Hm Hd. unfold apply_grant. cbv zeta.
  match goal with |- context [persist_locked e ?b] => destruct (persist_same e b) as (-> & _ & _) end.
  unfold release_slot, set_overlay, set_dom. cbn [dom]. rewrite grant_at_cases.
  destruct (reload_same e a) as [Hc _]. destruct (base.decide _) as [_|Hn]; [|rewrite Hc in Hn; tauto].
  cbn [fst granted]. eauto.
Qed.

Lemma granted_in_set st d e : mode (config st) = Some ALLOWLIST -> im_get (granted st) d = Some e ->
  in_domain_set st d = true.
Proof.
  intros Hm Hg. unfold in_domain_set, is_allowlist, im_contains. rewrite Hm, Hg. rewrite (bool_decide_eq_true_2 (is_Some _)) by eauto.
  rewrite (bool_decide_eq_true_2 (Some ALLOWLIST = _)) by done. apply orb_true_r.
Qed.

(** C16: How long a grant lives.  When the decider's answer is a grant (200), its
    lifetime is what the answer asks, cut to a day, and 0 is for good.  From then on, at
    every time, the three readers of the recorded expiry agree on whether the grant is
    live: the DNS list carries the name exactly while it is, the sweeper drops it exactly
    when it no longer is, and the request check lets a host under the name through
    exactly while it is or while another entry covering that host is active.  There is
    one exception, which the DNS list and the sweeper do not share: where the baseline
    gives the same name an expiry of its own, the request check goes by that one and
    ignores the grant's.  The request check reads the text back as a date, the two others
    compare texts.  (The gates before the decider see to it that the config is an allowlist
    and the name valid; the clock is taken to be a day short of the last date.) *)
Theorem grant_lifetime e reply a d reason : NoDup (granted_domains (dom a)) ->
  mode (config (dom a)) = Some ALLOWLIST -> valid_domain d StrictDotted = true ->
  utc (now_utc e ForExpiry) ->
  civil_micros (now_utc e ForExpiry) + MAX_TTL_SECONDS * MICROS_PER_SECOND <= MAX_CIVIL_MICROS ->
  let '(a', resp) := decide e reply a d reason in
  status resp = 200 ->
  exists args t, reply = Ok args /\ Coerce.int_or_zero (json_get args (lit "ttl_seconds")) = Ok t /\ 0 <= t /\
    is_granted (dom a') d = true /\
    forall now, utc now ->
      let live := t = 0 \/ instant_micros now < instant_micros (now_utc e ForExpiry) + Z.min t MAX_TTL_SECONDS * MICROS_PER_SECOND in
      let baseline := default [] (expires (config (dom a)) !! d) in
      (forall host, d ∈ suffixes (to_lowercase host) ->
         (inspect_host_at (dom a') host (stamp now) = None <->
          (if bool_decide (baseline = []) then live else expiry_in_future baseline (stamp now) <> Some false)
          \/ exists s, s <> d /\ covers (dom a') host s /\ active (dom a') (stamp now) s)) /\
      (d ∈ publishable (granted_entries (dom a')) (isoformat now) <-> live) /\
      (d ∈ (drop_expired_at (dom a') (isoformat now)).2 <-> ~ live).
Proof.
  intros Hn Hm Hv Hnow Hmax. pose proof (decide_granted e reply a d reason) as Hg.
  destruct (decide e reply a d reason) as [a' resp]. cbn [fst snd] in Hg. intros Hs.
  destruct (Hg Hs) as (args & t & reason' & by_ & -> & Ei & Ht & ->). exists args, t. split_and!; [done|done|done| |].
  all: destruct (valid_normal d Hv) as [Ed Hne];
    destruct (apply_grant_dom e a d reason' by_ (expires_at e (Z.min t MAX_TTL_SECONDS)) Hm ltac:(by rewrite Ed))
      as (ts & src & Eg); rewrite Ed in Eg; set (st := dom (apply_grant _ _ _ _ _ _)) in *; set (entry := grant_entry _ _ _ _ _) in *.
  { unfold is_granted, im_contains. rewrite Eg, Ed, im_insert_get. by apply bool_decide_eq_true_2. }
  intros now Hu live baseline.
  assert (Hget : im_get (granted st) d = Some entry) by (by rewrite Eg, im_insert_get).
  assert (Hnd : NoDup (im_keys (granted st))) by (rewrite Eg; apply im_insert_nodup, reload_nodup, Hn).
  destruct (expiry_readers e (Z.min t MAX_TTL_SECONDS) entry now Hnow ltac:(unfold MAX_TTL_SECONDS; lia) Hmax (entry_expiry_grant _ _ _ _ _) Hu)
    as (R1 & R2 & R3).
  assert (Hlive : (Z.min t MAX_TTL_SECONDS = 0 \/ instant_micros now < instant_micros (now_utc e ForExpiry) + Z.min t MAX_TTL_SECONDS * MICROS_PER_SECOND) <-> live)
    by (subst live; unfold MAX_TTL_SECONDS in *; intuition lia).
  cbv zeta in R1, R2, R3. rewrite Hlive in R1, R2, R3.
  assert (Hcfg : config st = config (dom a)) by apply apply_grant_same.
  split_and!.
  - intros host Hsuf. rewrite inspect_allowlist by (by rewrite Hcfg).
    assert (Hcov : covers st host d) by (split; [by apply (granted_in_set st d entry); [rewrite Hcfg|]|exact Hsuf]).
    assert (Hact : active st (stamp now) d <->
      if bool_decide (baseline = []) then live else expiry_in_future baseline (stamp now) <> Some false).
    { unfold active, entry_exp. rewrite Hcfg, Hget. fold baseline. case_bool_decide as Eb; [exact R1|]. tauto. }
    split.
    + intros (s & Hc & Ha). destruct (base.decide (s = d)) as [->|Hother]; [left; by apply Hact|right; by exists s].
    + intros [Ha%Hact|(s & _ & Hc & Ha)]; [by exists d|by exists s].
  - rewrite <- R3. rewrite granted_published. split.
    + intros (en & Hin & _ & Hun). apply im_get_elem_iff in Hin; [|exact Hnd]. congruence.
    + intros Hun. exists entry. split; [by apply im_get_elem|]. split; [|exact Hun].
      apply matches_domain_shape_iff. by destruct (valid_domain_cases d StrictDotted Hv) as [[?|[? _]] _].
  - rewrite <- R2. unfold drop_expired_at. cbn [snd]. rewrite <- im_get_keys, im_retain_get, Hget by exact Hnd.
    destruct (lapsed (isoformat now) entry); split; [done|eauto|by intros [? ?]|done].
Qed.

(** ** Capacity *)

Lemma index_entries_length_from entries acc :
  (length (fold_left (fun new e => match mget e (lit "domain") with
     | Some d => if truthy d then im_insert new (normalise (coerce_to_string d)) e else new
     | None => new end) entries acc) <= length entries + length acc)%nat.
Proof.
  revert acc. induction entries as [|e entries IH]; intros acc; [simpl; lia|]. cbn [fold_left]. rewrite IH.
  assert (Hi : forall k v, (length (im_insert acc k v) <= S (length acc))%nat).
  { intros k v. pose proof (f_equal length (im_insert_keys acc k v)) as E. unfold im_keys in E.
    destruct (im_contains acc k); rewrite ?length_app, !length_map in E; simpl in E; lia. }
  cbn [length]. destruct (mget e (lit "domain")) as [d|]; [|lia]. destruct (truthy d); [|lia].
  specialize (Hi (normalise (coerce_to_string d)) e). lia.
Qed.
Lemma index_entries_length entries : (length (index_entries entries) <= length entries)%nat.
Proof. unfold index_entries. rewrite (index_entries_length_from entries []). simpl. lia. Qed.

Definition file_count (a : PolicyApi) : nat := length (index_entries (file (world a))).

(** The invariant: the pending requests are those counted, they fit with the
    grants, and the file never holds more grants than memory. *)
Definition capacity (s : PolicyApi * Z) : Prop :=
  NoDup (granted_domains (dom s.1)) /\ 0 <= s.2 /\ reserved (overlay s.1) = s.2 /\
  Z.of_nat (grant_count (dom s.1)) + s.2 <= MAX_GRANTS /\ (file_count s.1 <= grant_count (dom s.1))%nat.

Lemma count_keys (st : State) : grant_count st = length (granted_domains st).
Proof. unfold granted_domains, im_keys. by rewrite length_map. Qed.

Lemma reconcile_count st entries : NoDup (granted_domains st) ->
  grant_count (DomainInspector.reconcile st entries) = length (index_entries entries).
Proof.
  intros Hn. rewrite count_keys. transitivity (length (im_keys (index_entries entries))); [|apply length_map].
  apply Nat.le_antisymm; apply NoDup_length_le || apply submseteq_length, NoDup_submseteq; intros;
    try apply index_entries_nodup; try (by apply (domain_step_nodup st); [constructor|]);
    by apply (reconcile_keys st entries).
Qed.

Section Capacity.
(** A list of entries written and read back has no more entries. *)
Hypothesis written_length : forall entries, (length (written entries) <= length entries)%nat.

Lemma saturating_pred n : 0 < n -> saturating_sub n 1 = n - 1.
Proof. intros Hn. unfold saturating_sub. destruct (Z.ltb_spec n 1); lia. Qed.

Lemma capacity_reload e a n : capacity (a, n) -> capacity ((maybe_reload_locked e a).1, n).
Proof.
  intros (Hn & Hz & Hr & Hc & Hf). cbn [fst snd] in *. pose proof (reload_nodup e a Hn) as Hn'.
  destruct (reload_cases e a) as [->|(Ed & _ & Er & Ew)]; [by split_and!|].
  unfold capacity, file_count in *. cbn [fst snd]. rewrite Ed, Er, Ew, reconcile_count by exact Hn.
  rewrite Ed in Hn'. split_and!; first [assumption|lia].
Qed.

Lemma capacity_persist e b n : write_outcome e <> None \/ (file_count b <= grant_count (dom b))%nat ->
  NoDup (granted_domains (dom b)) -> 0 <= n -> reserved (overlay b) = n ->
  Z.of_nat (grant_count (dom b)) + n <= MAX_GRANTS -> capacity (persist_locked e b, n).
Proof.
  intros Hw Hn Hz Hr Hc. destruct (persist_same e b) as (Ed & _ & Er). unfold capacity. cbn [fst snd].
  rewrite Ed, Er. split_and!; try assumption. unfold file_count, persist_locked. cbv zeta.
  destruct (write_outcome e) as [m|]; match goal with |- context [publish_dns e 1 ?c] => destruct (publish_dns_same e 1 c) as (_ & _ & _ & ->) end.
  - unfold set_overlay, set_world. cbn [world file]. rewrite index_entries_length, written_length, length_map.
    unfold granted_entries. rewrite sort_pairs_perm. reflexivity.
  - destruct Hw as [?|?]; [congruence|assumption].
Qed.

Lemma capacity_apply e a n d reason by_ exp : 0 < n -> capacity (a, n) -> capacity (apply_grant e a d reason by_ exp, n - 1).
Proof.
  intros Hpos Hcap. apply (capacity_reload e) in Hcap. unfold apply_grant. cbv zeta.
  set (b := (maybe_reload_locked e a).1) in *. destruct Hcap as (Hn & Hz & Hr & Hc & Hf). cbn [fst snd] in *.
  set (st := (grant_at _ _ _ _ _ _).1).
  assert (Hst : NoDup (granted_domains st)) by (apply (domain_step_nodup (dom b)); [constructor|exact Hn]).
  assert (Hcount : (grant_count (dom b) <= grant_count st <= S (grant_count (dom b)))%nat).
  { subst st. rewrite grant_at_cases. destruct (base.decide _); cbn [fst]; [|lia]. rewrite !count_keys. unfold granted_domains.
    cbn [granted]. rewrite im_insert_keys. destruct (im_contains _ _); rewrite ?length_app; simpl; lia. }
  apply capacity_persist; unfold release_slot, set_overlay, set_dom, file_count in *; cbn [dom overlay world reserved] in *.
  - right. lia.
  - exact Hst.
  - lia.
  - rewrite saturating_pred; lia.
  - lia.
Qed.

Lemma filter_length {A} (f : A -> bool) l : (length (List.filter f l) <= length l)%nat.
Proof. induction l as [|x l IH]; cbn [List.filter length]; [lia|]. destruct (f x); simpl; lia. Qed.

Lemma filter_complement {A} (f : A -> bool) l :
  (length (List.filter f l) + length (List.filter (fun x => negb (f x)) l) = length l)%nat.
Proof. induction l as [|x l IH]; [reflexivity|]. cbn [List.filter length]. destruct (f x); cbn [negb length]; lia. Qed.

Lemma capacity_step s s' : capacity s -> policy_step s s' -> capacity s'.
Proof.
  intros Hcap Hstep. destruct Hstep as [a a' n Hr|a n Hn|e a n d reason by_ exp Hn|e a n d Hw|e a n Hw|e a n|e a n
    |e c secret a a' n Hr|a n section st' Hc|a n f m Hsub].
  - revert Hr. unfold reserve_slot. destruct (Z.leb_spec MAX_GRANTS (Z.of_nat (grant_count (dom a)) + reserved (overlay a))); [discriminate|].
    intros [= <-]. destruct Hcap as (? & ? & ? & ? & ?). unfold capacity, file_count, set_overlay in *. cbn in *. split_and!; first [assumption|lia].
  - destruct Hcap as (? & ? & ? & ? & ?). unfold capacity, file_count, release_slot, set_overlay in *. cbn -[saturating_sub] in *.
    split_and!; first [assumption|rewrite saturating_pred; lia|lia].
  - by apply capacity_apply.
  - apply (capacity_reload e) in Hcap. unfold revoke_live_grant. cbv zeta. destruct (negb _); [exact Hcap|]. cbn [fst].
    destruct Hcap as (Hn & Hz & Hr & Hc & Hf). cbn [fst snd] in *.
    apply capacity_persist; unfold set_dom; cbn [dom overlay revoke fst]; try assumption; [by left|by apply filter_keys_sub|].
    unfold grant_count, im_remove in *. cbn [granted]. pose proof (filter_length (fun e0 : str * Mapping => negb (bool_decide (e0.1 = normalise d))) (granted (dom (maybe_reload_locked e a).1))). lia.
  - apply (capacity_reload e) in Hcap. unfold sweeper_tick. cbv zeta. unfold drop_expired_at. cbv beta iota.
    set (b := (maybe_reload_locked e a).1) in *. set (now := isoformat _). destruct Hcap as (Hn & Hz & Hr & Hc & Hf). cbn [fst snd] in *.
    destruct (bool_decide (im_keys _ = [])) eqn:E; cbn [fst].
    + apply bool_decide_eq_true in E. unfold im_keys in E. apply map_eq_nil in E.
      assert (Eg : im_retain (fun _ entry => negb (lapsed now entry)) (granted (dom b)) = granted (dom b)).
      { revert E. unfold im_retain. generalize (granted (dom b)). intros l. induction l as [|x l IH]; [reflexivity|].
        cbn [List.filter]. destruct (lapsed now x.2); [discriminate|]. cbn [negb]. intros El. by rewrite IH. }
      rewrite Eg. unfold capacity, file_count, set_dom in *. cbn [dom overlay world fst snd grant_count granted granted_domains] in *.
      split_and!; assumption.
    + apply capacity_persist; unfold set_dom; cbn [dom overlay]; try assumption; [by left|by apply filter_keys_sub|].
      unfold grant_count, im_retain in *. cbn [granted]. pose proof (filter_length (fun e0 : str * Mapping => negb (lapsed now e0.2)) (granted (dom b))). lia.
  - by apply capacity_reload.
  - destruct (rate_same e a) as (Ed & _ & Eo & Ew). unfold capacity, file_count in *. cbn [fst snd] in *. by rewrite Ed, Eo, Ew.
  - revert Hr. unfold reconfigure. destruct (Settings.parse c); [|discriminate]. intros [= <-]. exact Hcap.
  - revert Hc. unfold configure. destruct (parse section); [|discriminate]. intros [= <-]. exact Hcap.
  - destruct Hcap as (? & ? & ? & ? & Hf). unfold capacity, file_count, set_world in *. cbn [fst snd dom overlay world file] in *.
    split_and!; try assumption. etransitivity; [|exact Hf]. rewrite <- (length_map fst (index_entries f)), <- (length_map fst (index_entries (file (world a)))).
    apply submseteq_length, NoDup_submseteq; [apply index_entries_nodup|]. intros x Hx. by apply Hsub.
Qed.

Lemma capacity_reachable entries s : (length (index_entries entries) <= Z.to_nat MAX_GRANTS)%nat ->
  policy_reachable entries s -> capacity s.
Proof.
  intros Hl Hr. induction Hr as [e c secret d w a Hnew Hw Hd|s s' Hr IH Hs]; [|by apply (capacity_step s)].
  unfold new_api in Hnew. destruct (Settings.parse c) as [ss|]; [|discriminate]. injection Hnew as <-. subst entries.
  unfold reconcile, capacity, file_count. cbn [fst snd].
  match goal with |- context [publish_dns e 0 ?b] => destruct (publish_dns_same e 0 b) as (-> & _ & -> & ->) end.
  cbn [set_overlay set_dom overlay dom world reserved].
  assert (Hn : NoDup (granted_domains d)) by (unfold granted_domains; rewrite Hd; constructor).
  rewrite reconcile_count by exact Hn. unfold MAX_GRANTS in *. split_and!; try lia; try reflexivity.
  by apply (domain_step_nodup d); [constructor|].
Qed.
End Capacity.

(** ** A request is a sequence of critical sections *)

Lemma pending_back (a b : PolicyApi) n : policy_step (a, n + 1) (b, n + 1 - 1) -> policy_step (a, n + 1) (b, n).
Proof. by replace (n + 1 - 1) with n by lia. Qed.

Lemma decide_step e reply a d reason n : 0 <= n -> policy_step (a, n + 1) ((decide e reply a d reason).1, n).
Proof.
  intros Hn. assert (Hrel : policy_step (a, n + 1) (release_slot a, n)) by (apply pending_back, step_release; lia).
  unfold decide. cbv zeta. destruct (_ || _ || _) in |- *; [exact Hrel|].
  destruct (negb _) in |- *; [exact Hrel|]. destruct (_ <? 0) in |- *; [exact Hrel|]. cbn [fst].
  apply pending_back, step_apply. lia.
Qed.

Lemma handle_request_steps e reply a body n : 0 <= n ->
  rtc policy_step (a, n) ((handle_request e reply a body).1, n).
Proof.
  intros Hn. unfold handle_request. destruct (payload body) as [p|]; [|reflexivity]. cbv zeta.
  destruct (bool_decide (Coerce.strip _ = [])); [reflexivity|]. destruct (negb (is_allowlist (dom a))); [reflexivity|].
  destruct (negb (valid_domain _ _)); [reflexivity|]. destruct (bool_decide (matched_expired_at _ _ _ = None) && _); [reflexivity|].
  destruct (is_never_grant _ _); [reflexivity|]. destruct (reserve_slot a) as [b|] eqn:Eb; [|reflexivity].
  apply (rtc_l _ _ (b, n + 1)); [by apply step_reserve|].
  pose proof (step_rate e b (n + 1)) as Hrate. destruct (check_rate_limit e b) as [c within]. cbn [fst] in Hrate.
  apply (rtc_l _ _ (c, n + 1)); [exact Hrate|]. destruct (negb within); cbn [fst]; apply rtc_once;
    [apply pending_back, step_release; lia|by apply decide_step].
Qed.

Lemma handle_removal_steps e a body n : write_outcome e <> None -> rtc policy_step (a, n) ((handle_removal e a body).1, n).
Proof.
  intros Hw. unfold handle_removal. destruct (payload body) as [p|]; [|reflexivity]. cbv zeta.
  destruct (negb (is_allowlist (dom a))); [reflexivity|].
  pose proof (step_rate e a n) as Hrate. destruct (check_rate_limit e a) as [c within]. cbn [fst] in Hrate.
  apply (rtc_l _ _ (c, n)); [exact Hrate|]. destruct (negb within); [reflexivity|].
  destruct (negb (valid_domain _ _)); [reflexivity|]. set (d := Coerce.normalise_domain _).
  pose proof (step_revoked e c n d Hw) as Hr. destruct (revoke_live_grant e c d) as [b r]. cbn [fst] in Hr.
  apply rtc_once. destruct r; [exact Hr|]. destruct (matches_baseline _ _); exact Hr.
Qed.

Lemma handle_steps e reply a r n : 0 <= n -> write_outcome e <> None ->
  rtc policy_step (a, n) ((handle e reply a r).1, n).
Proof.
  intros Hn Hw. unfold handle. cbv zeta. destruct (MAX_BODY <? _); [reflexivity|].
  destruct (bool_decide (to_uppercase (req_method r) = lit "GET") && bool_decide (req_path r = lit "/v1/health")); [reflexivity|].
  destruct (negb _) in |- *; [reflexivity|].
  destruct (bool_decide (to_uppercase (req_method r) = lit "GET") && _); [reflexivity|].
  destruct (bool_decide (to_uppercase (req_method r) = lit "POST") && bool_decide (req_path r = lit "/v1/allowlist/requests"));
    [by apply handle_request_steps|].
  destruct (bool_decide (to_uppercase (req_method r) = lit "POST") && _); [by apply handle_removal_steps|reflexivity].
Qed.

Lemma reachable_steps entries s s' : policy_reachable entries s -> rtc policy_step s s' -> policy_reachable entries s'.
Proof. intros Hr Hs. induction Hs as [|s s1 s2 Hs _ IH]; [exact Hr|]. apply IH. by apply (policy_next entries s). Qed.

(** C15: Never more than [max_grants].  In every interleaving of the critical
    sections of any number of requests, removals, watcher revocations, sweeps,
    reloads of the file and of the configuration, and host edits that withdraw
    grants, starting from an overlay file of at most 32 names: the slots counted
    are those of the pending decisions, grants and pending decisions together
    are at most 32, no name is granted twice, and reading the file again would
    not exceed 32 either.  A failed write of a fresh grant is harmless; the
    writes of revocations and sweeps are taken to succeed.  Each whole request
    is such a sequence of critical sections. *)
Theorem grants_bounded entries s :
  (forall l, (length (written l) <= length l)%nat) ->
  (length (index_entries entries) <= Z.to_nat MAX_GRANTS)%nat ->
  policy_reachable entries s ->
  reserved (overlay s.1) = s.2 /\ 0 <= s.2 /\ Z.of_nat (grant_count (dom s.1)) + s.2 <= MAX_GRANTS /\
  NoDup (granted_domains (dom s.1)) /\
  (forall e, Z.of_nat (grant_count (dom (maybe_reload_locked e s.1).1)) + s.2 <= MAX_GRANTS) /\
  (forall e reply r, write_outcome e <> None -> policy_reachable entries ((handle e reply s.1 r).1, s.2)).
Proof.
  intros Hw Hl Hr. pose proof (capacity_reachable Hw entries s Hl Hr) as Hcap. destruct s as [a n].
  pose proof Hcap as (Hn & Hz & Hres & Hc & _). cbn [fst snd] in *. split_and!; try assumption.
  - intros e. apply (capacity_reload e a n) in Hcap. by destruct Hcap as (_ & _ & _ & ? & _).
  - intros e reply r Hwe. apply (reachable_steps entries (a, n)); [exact Hr|]. by apply handle_steps.
Qed.

(** C32: Room comes back.  In the same histories, a sweep leaves exactly the grants
    that have not lapsed, and answers one audit record for each it drops; when it
    drops one, or when a pending decision ends without a grant, the next request
    gets past the gate. *)
Theorem room_comes_back entries s :
  (forall l, (length (written l) <= length l)%nat) ->
  (length (index_entries entries) <= Z.to_nat MAX_GRANTS)%nat ->
  policy_reachable entries s ->
  (forall e, write_outcome e <> None ->
     let before := dom (maybe_reload_locked e s.1).1 in
     let '(a', events) := sweeper_tick e s.1 in
     granted (dom a') = List.filter (fun g => negb (lapsed (isoformat (now_utc e ForSweep)) g.2)) (granted before) /\
     (length events + grant_count (dom a') = grant_count before)%nat /\
     (events <> [] -> reserve_slot a' <> None)) /\
  (0 < s.2 -> reserve_slot (release_slot s.1) <> None).
Proof.
  intros Hw Hl Hr. pose proof (capacity_reachable Hw entries s Hl Hr) as Hcap. destruct s as [a n]. cbn [fst snd]. split.
  - intros e Hwe. pose proof (capacity_step Hw _ _ Hcap (step_sweep e a n Hwe)) as Hafter.
    apply (capacity_reload e) in Hcap. unfold sweeper_tick in *. cbv zeta in *. unfold drop_expired_at in *. cbv beta iota in *.
    set (b := (maybe_reload_locked e a).1) in *. set (now := isoformat _) in *.
    set (kept := im_retain (fun _ entry => negb (lapsed now entry)) (granted (dom b))) in *.
    set (gone := im_keys (im_retain (fun _ entry => lapsed now entry) (granted (dom b)))) in *.
    assert (Hsum : (length gone + length kept = length (granted (dom b)))%nat).
    { subst gone kept. unfold im_keys, im_retain. rewrite length_map. apply (filter_complement (fun g : str * Mapping => lapsed now g.2)). }
    destruct (bool_decide (gone = [])) eqn:E.
    { apply bool_decide_eq_true in E. rewrite E in Hsum. cbn [set_dom dom granted grant_count length] in *. split_and!; [reflexivity|exact Hsum|done]. }
    cbn [fst] in Hafter. destruct Hafter as (_ & _ & Hres & _). cbn [fst snd] in *.
    destruct (persist_same e (set_dom b (mkState (config (dom b)) kept))) as (Ed & _ & _). rewrite Ed in *.
    cbn [set_dom dom granted] in *. split; [reflexivity|]. rewrite length_imap. split; [exact Hsum|]. intros _.
    unfold reserve_slot. rewrite Ed. cbn [set_dom dom]. rewrite Hres.
    destruct Hcap as (_ & _ & _ & Hc & _). cbn [fst snd] in Hc. unfold grant_count in *. cbn [granted].
    assert (length gone <> 0%nat) by (intros Hlen; apply bool_decide_eq_false in E; by apply E, length_zero_iff_nil).
    destruct (Z.leb_spec MAX_GRANTS (Z.of_nat (length kept) + n)); [lia|discriminate].
  - intros Hpos. destruct Hcap as (_ & _ & Hres & Hc & _). cbn [fst snd] in *. unfold reserve_slot, release_slot, set_overlay.
    cbn [dom overlay reserved]. rewrite Hres, saturating_pred by lia.
    destruct (Z.leb_spec MAX_GRANTS (Z.of_nat (grant_count (dom a)) + (n - 1))); [lia|discriminate].
Qed.

(** ** Removals and the DNS list *)

(** The DNS list.  When the publish succeeds, the list is the granted names that
    are well-formed and unexpired, sorted, each made of letters, digits, dashes
    and dots alone, so that no name can carry a second directive into the
    resolver's configuration; the grants themselves are as before. *)
Theorem publish_spec e n a : publish_ok e n = true ->
  let a' := publish_dns e n a in
  let names := published (world a') in
  Sorted (fun x y => str_leb x y = true) names /\
  (forall x, x ∈ names <-> exists entry, (x, entry) ∈ granted (dom a') /\ DottedName x /\
                           unexpired (isoformat (now_utc e (ForPublish n))) entry) /\
  Forall (Forall directive_safe) names /\ dom a' = dom a.
Proof.
  intros Hok a' names.
  assert (En : names = publishable (granted_entries (dom a)) (isoformat (now_utc e (ForPublish n)))).
  { subst names a'. unfold publish_dns. cbv zeta. by rewrite Hok. }
  assert (Hspec : forall x, x ∈ names <-> exists entry, (x, entry) ∈ granted (dom a) /\ DottedName x /\
                           unexpired (isoformat (now_utc e (ForPublish n))) entry).
  { intros x. rewrite En, granted_published. by setoid_rewrite matches_domain_shape_iff. }
  assert (Ed : dom a' = dom a) by apply publish_dns_same.
  split_and!.
  - rewrite En. apply sort_names_sorted.
  - intros x. by rewrite Ed.
  - apply Forall_forall. intros x Hx. apply Hspec in Hx as (_ & _ & Hx & _). by apply DottedName_chars.
  - exact Ed.
Qed.

Lemma revoke_cases e a d : normalise d = d ->
  let b := (maybe_reload_locked e a).1 in
  revoke_live_grant e a d =
    if im_contains (granted (dom b)) d
    then (persist_locked e (set_dom b (mkState (config (dom b)) (im_remove (granted (dom b)) d))), Revoked)
    else (b, NotGranted).
Proof.
  intros Hd b. unfold revoke_live_grant. cbv zeta. fold b. unfold is_granted, revoke. rewrite Hd. cbn [fst].
  by destruct (im_contains (granted (dom b)) d).
Qed.

(** The agent gives a grant back.  A removal past the gates (allowlist mode,
    rate, a well-formed name) answers 200 exactly when the name is a live grant
    after the file was read again; then exactly that grant is gone from
    memory, from the file written and from the DNS list, and the others stay.
    Otherwise the answer is 403 for a name of the operator's baseline and 404
    for any other, and a removal that fails a gate answers 400 or 429, with the
    grants as they were.  The baseline is never touched. *)
Theorem removal_spec e a body p : NoDup (granted_domains (dom a)) -> payload body = Some p ->
  let d := Coerce.normalise_domain (Coerce.str_or_empty (json_get p (lit "domain"))) in
  let gates := is_allowlist (dom a) && (check_rate_limit e a).2 && valid_domain d StrictDotted in
  let before := dom (maybe_reload_locked e (check_rate_limit e a).1).1 in
  let '(a', resp) := handle_removal e a body in
  config (dom a') = config (dom a) /\
  (gates = false -> (status resp = 400 \/ status resp = 429) /\ dom a' = dom a) /\
  (gates = true ->
     (status resp = 200 <-> d ∈ granted_domains before) /\
     (d ∈ granted_domains before ->
        granted (dom a') = im_remove (granted before) d /\ (d ∉ granted_domains (dom a')) /\
        (forall m, write_outcome e = Some m -> file (world a') = written (map snd (granted_entries (dom a')))) /\
        (publish_ok e 1 = true -> d ∉ published (world a'))) /\
     (d ∉ granted_domains before ->
        dom a' = before /\ status resp = (if matches_baseline (dom a) d then 403 else 404))).
Proof.
  intros Hn Hp d gates before. unfold handle_removal. rewrite Hp. cbv zeta. fold d.
  subst gates before. destruct (is_allowlist (dom a)); cbn [negb andb]; [|by split_and!; auto].
  destruct (check_rate_limit e a) as [c within] eqn:Ec.
  pose proof (rate_same e a) as (Rd & _). rewrite Ec in Rd. cbn [fst snd] in *.
  destruct within; cbn [negb andb]; [|rewrite Rd; by split_and!; auto].
  destruct (valid_domain d StrictDotted) eqn:Ev; cbn [negb]; [|rewrite Rd; by split_and!; auto].
  destruct (valid_normal d Ev) as [Ed _]. rewrite (revoke_cases e c d Ed). cbv zeta.
  set (b := (maybe_reload_locked e c).1).
  assert (Hcfg : config (dom b) = config (dom a)) by (rewrite <- Rd; apply reload_same).
  assert (Hnb : NoDup (granted_domains (dom b))) by (apply reload_nodup; by rewrite Rd).
  assert (Hb : matches_baseline (dom b) d = matches_baseline (dom a) d) by (unfold matches_baseline; by rewrite Hcfg).
  destruct (im_contains (granted (dom b)) d) eqn:Eg.
  - apply im_contains_keys in Eg. set (st := mkState _ _).
    destruct (persist_same e (set_dom b st)) as (Edom & _ & _). rewrite Edom. unfold set_dom at 1 2 3. cbn [dom].
    split; [exact Hcfg|]. split; [discriminate|]. intros _. split; [done|]. split; [|done]. intros _.
    assert (Hgone : d ∉ granted_domains st).
    { subst st. unfold granted_domains. cbn [granted]. rewrite im_remove_keys, list_elem_of_In, filter_In.
      rewrite bool_decide_eq_true_2 by reflexivity. intros [_ ?]. discriminate. }
    split; [reflexivity|]. split; [exact Hgone|]. split.
    + intros m Hm. unfold persist_locked. cbv zeta. rewrite Hm.
      match goal with |- context [publish_dns e 1 ?x] => destruct (publish_dns_same e 1 x) as (_ & _ & _ & ->) end. reflexivity.
    + intros Hok. unfold persist_locked. cbv zeta. intros Hin.
      assert (Hd : d ∈ granted_domains st); [|by apply Hgone].
      assert (Hdom : forall x, d ∈ published (world (publish_dns e 1 x)) -> dom x = st -> d ∈ granted_domains st).
      { intros x Hx Hst. unfold publish_dns in Hx. cbv zeta in Hx. rewrite Hok, Hst in Hx. cbn [set_world world published] in Hx.
        apply granted_published in Hx as (en & Hx & _). unfold granted_domains, im_keys. apply list_elem_of_In, in_map_iff.
        exists (d, en). split; [reflexivity|by apply list_elem_of_In]. }
      destruct (write_outcome e); (eapply Hdom; [exact Hin|reflexivity]).
  - assert (Hno : d ∉ granted_domains (dom b)) by (intros Hin; apply im_contains_keys in Hin; congruence).
    cbv iota. rewrite Hb. destruct (matches_baseline (dom a) d); cbn [fst snd status respond];
      (split; [exact Hcfg|]; split; [discriminate|]; intros _; split; [split; [discriminate|intros Hin; by destruct Hno]|];
       split; [intros Hin; by destruct Hno|]; intros _; by split).
Qed.
End Runs.

(** ** Concrete instances *)

Section Instances.
#[local] Existing Instances ascii_unicode sample_upper sample_f64 sample_overlay.

Definition granted_run : PolicyApi * ControlResponse :=
  decide sample_env sample_reply sample_api (lit "api.test.org") (lit "docs").

Lemma sample_utc t : t ∈ [sample_time; mkDateTime (civil_micros sample_time + 59000000) (Some 0)] -> utc t.
Proof.
  intros Ht. repeat (apply elem_of_cons in Ht as [->|Ht]; [by repeat split; vm_compute; congruence|]).
  by apply not_elem_of_nil in Ht.
Qed.

Lemma grant_lifetime_witness :
  lit "api.test.org" ∈ publishable (granted_entries (dom granted_run.1))
    (isoformat (mkDateTime (civil_micros sample_time + 59000000) (Some 0))).
Proof.
  pose proof (grant_lifetime sample_env sample_reply sample_api (lit "api.test.org") (lit "docs")
    ltac:(constructor) eq_refl ltac:(vm_compute; reflexivity) (sample_utc _ ltac:(left)) ltac:(vm_compute; congruence)) as Hg.
  assert (Hs : status granted_run.2 = 200) by (vm_compute; reflexivity).
  unfold granted_run in *. destruct (decide sample_env sample_reply sample_api (lit "api.test.org") (lit "docs")) as [a' resp].
  destruct (Hg Hs) as (args & t & Ea & Et & _ & _ & Hl). injection Ea as <-.
  assert (t = 60) as -> by (revert Et; vm_compute; congruence).
  destruct (Hl (mkDateTime (civil_micros sample_time + 59000000) (Some 0))) as (_ & Hpub & _);
    [apply sample_utc; right; left|]. apply Hpub. right. vm_compute. reflexivity.
Defined.

Definition sample_agents : Config := mkConfig (VMapping []).
Definition start_api : PolicyApi :=
  match new_api sample_env sample_agents (fun _ => lit "key") sample_state (mkWorld [] None []) with
  | Ok a => a
  | Err _ => sample_api
  end.
Lemma start_reachable : policy_reachable [] (start_api, 0).
Proof.
  apply (policy_start [] sample_env sample_agents (fun _ => lit "key") sample_state (mkWorld [] None []));
    [vm_compute; reflexivity|reflexivity|reflexivity].
Qed.
Lemma busy_reachable : exists a, reserve_slot start_api = Some a /\ policy_reachable [] (a, 1).
Proof.
  destruct (reserve_slot start_api) as [a|] eqn:E; [|exfalso; revert E; vm_compute; discriminate].
  exists a. split; [reflexivity|]. eapply policy_next; [apply start_reachable|]. by apply (step_reserve start_api a 0).
Qed.

Lemma grants_bounded_witness : exists a, reserve_slot start_api = Some a /\ Z.of_nat (grant_count (dom a)) + 1 <= MAX_GRANTS.
Proof.
  destruct busy_reachable as (a & E & Hr). exists a. split; [exact E|].
  exact (proj1 (proj2 (proj2 (grants_bounded [] (a, 1) (fun l => Nat.le_refl (length l)) ltac:(simpl; lia) Hr)))).
Defined.

Lemma room_comes_back_witness : exists a, reserve_slot start_api = Some a /\ reserve_slot (release_slot a) <> None.
Proof.
  destruct busy_reachable as (a & E & Hr). exists a. split; [exact E|].
  exact (proj2 (room_comes_back [] (a, 1) (fun l => Nat.le_refl (length l)) ltac:(simpl; lia) Hr) eq_refl).
Defined.

Lemma publish_spec_witness :
  lit "api.test.org" ∈ published (world (publish_dns sample_env 0 granted_run.1)).
Proof.
  destruct (publish_spec sample_env 0 granted_run.1 eq_refl) as (_ & Hn & _). apply Hn.
  exists (match granted (dom granted_run.1) with e :: _ => e.2 | [] => [] end). split; [|split].
  - vm_compute. left.
  - apply matches_domain_shape_iff. vm_compute. reflexivity.
  - right. vm_compute. reflexivity.
Defined.

Lemma removal_spec_witness :
  status (handle_removal sample_env granted_run.1 sample_body).2 = 200.
Proof.
  pose proof (removal_spec sample_env granted_run.1 sample_body
    (JObject [(lit "domain", JStr (lit "api.test.org")); (lit "reason", JStr (lit "docs"))])
    ltac:(apply (bool_decide_unpack _); vm_compute; exact I) ltac:(vm_compute; reflexivity)) as Hr.
  destruct (handle_removal sample_env granted_run.1 sample_body) as [a' resp].
  destruct Hr as (_ & _ & Hr). destruct (Hr ltac:(vm_compute; reflexivity)) as [Hs _]. apply Hs.
  apply (bool_decide_unpack _). vm_compute. exact I.
Defined.
End Instances.
