(* ===== verification/Forms.v ===== *)
(** Secret forms: the model of the first half of [agentcage-egress/src/inject.rs],
    base64 and every spelling under which a secret is found and swapped back to
    its placeholder ([SecretForms]). *)
From S2P Require Import Prelude Utf8 Json.
From Stdlib Require Import ZifyBool.

(** * Definitions *)

(** ** The crates *)

(** The regular expressions the code builds, as sequences of groups: a group is
    an ordered list of alternatives, an alternative a sequence of byte classes. *)
Abbreviation Class_ := (list Z).
Abbreviation Alternative := (list Class_).
Abbreviation Group := (list Alternative).
Abbreviation Pattern := (list Group).

(** What is used of [memchr], [base64], [regex] and [aho-corasick]. *)
Class Crates := {
  memmem_find : bytes -> bytes -> option nat;
  standard_encode : bytes -> bytes;
  regex_is_match : Pattern -> bytes -> bool;
  regex_replace_all : Pattern -> (bytes -> bytes) -> bytes -> bytes * nat;
  aho_corasick : list bytes -> option (bytes -> bool)
}.

(** The length of what an alternative matches at the start of the data. *)
Fixpoint match_alternative (a : Alternative) (data : bytes) : bool :=
  match a, data with
  | [], _ => true
  | c :: a, b :: data => bool_decide (b ∈ c) && match_alternative a data
  | _ :: _, [] => false
  end.
(** Leftmost-first: the alternatives of a group are tried in order. *)
Fixpoint match_here (p : Pattern) (data : bytes) : option nat :=
  match p with
  | [] => Some 0%nat
  | g :: p =>
      (fix try (g : Group) : option nat :=
         match g with
         | [] => None
         | a :: g =>
             if match_alternative a data then
               match match_here p (drop (length a) data) with
               | Some n => Some (length a + n)%nat
               | None => try g
               end
             else try g
         end) g
  end.
Fixpoint find_match (p : Pattern) (data : bytes) : option (nat * nat) :=
  match match_here p data with
  | Some n => Some (0%nat, n)
  | None => match data with
            | [] => None
            | _ :: data => match find_match p data with Some (i, n) => Some (S i, n) | None => None end
            end
  end.
Fixpoint replace_matches (fuel : nat) (p : Pattern) (f : bytes -> bytes) (data : bytes) : bytes * nat :=
  match fuel with
  | O => (data, 0%nat)
  | S fuel =>
      match find_match p data with
      | None => (data, 0%nat)
      | Some (i, n) =>
          let '(rest, count) := replace_matches fuel p f (drop (i + n) data) in
          (take i data ++ f (take n (drop i data)) ++ rest, S count)
      end
  end.

(** RFC 4648, padded. *)
Definition b64_char (n : Z) : Z :=
  if n <? 26 then 65 + n else if n <? 52 then 97 + (n - 26) else if n <? 62 then 48 + (n - 52)
  else if n =? 62 then 43 else 47.
Fixpoint rfc4648 (data : bytes) : bytes :=
  match data with
  | a :: b :: c :: r =>
      [b64_char (a / 4); b64_char (a mod 4 * 16 + b / 16); b64_char (b mod 16 * 4 + c / 64); b64_char (c mod 64)] ++ rfc4648 r
  | [a; b] => [b64_char (a / 4); b64_char (a mod 4 * 16 + b / 16); b64_char (b mod 16 * 4); 61]
  | [a] => [b64_char (a / 4); b64_char (a mod 4 * 16); 61; 61]
  | [] => []
  end.

(** The documented behaviour: the leftmost occurrence, the standard encoding, the
    leftmost-first non-overlapping matches (for patterns with no empty match),
    and whether any needle occurs when the automaton could be built. *)
Class CratesLaws (C : Crates) : Prop := {
  memmem_find_law hay needle : memmem_find hay needle = find_sub needle hay;
  standard_encode_law data : Forall (fun b => 0 <= b < 256) data -> standard_encode data = rfc4648 data;
  regex_is_match_law p data : regex_is_match p data = bool_decide (is_Some (find_match p data));
  regex_replace_law p f data : match_here p [] = None ->
    regex_replace_all p f data = replace_matches (length data) p f data;
  aho_corasick_law needles f data : aho_corasick needles = Some f ->
    f data = existsb (fun n => bool_decide (is_Some (find_sub n data))) needles
}.
Definition model_crates : Crates := {|
  memmem_find hay needle := find_sub needle hay;
  standard_encode := rfc4648;
  regex_is_match p data := bool_decide (is_Some (find_match p data));
  regex_replace_all p f data := replace_matches (length data) p f data;
  aho_corasick needles := Some (fun data => existsb (fun n => bool_decide (is_Some (find_sub n data))) needles)
|}.
Lemma model_crates_laws : CratesLaws model_crates.
Proof. split; try done. by intros needles f data [= <-]. Qed.

Section Forms.
Context `{Crates} `{F64Text}.

(** ** Base64 *)

Definition b64_encode_std (data : bytes) : bytes := standard_encode data.
Definition b64_value (c : Z) : option Z :=
  if in_range 65 90 c then Some (c - 65)
  else if in_range 97 122 c then Some (c - 97 + 26)
  else if in_range 48 57 c then Some (c - 48 + 52)
  else if c =? 43 then Some 62
  else if c =? 47 then Some 63
  else None.
Fixpoint b64_loop (body : bytes) (acc bits : Z) (out : bytes) : option bytes :=
  match body with
  | [] => Some out
  | c :: body =>
      let? v := b64_value c in
      let acc := Z.lor (Z.shiftl acc 6) v in
      let bits := bits + 6 in
      if 8 <=? bits then
        let bits := bits - 8 in
        b64_loop body (Z.land acc (2 ^ bits - 1)) bits (out ++ [Z.shiftr acc bits mod 256])
      else b64_loop body acc bits out
  end.
Definition b64_decode_strict (data : bytes) : option bytes :=
  let pads := length (span (Z.eqb 61) (rev data)).1 in
  let body := take (length data - pads) data in
  let? needed := match (length body mod 4)%nat with 0%nat => Some 0%nat | 1%nat => None | 2%nat => Some 2%nat | _ => Some 1%nat end in
  if negb (Nat.eqb pads needed) then None else b64_loop body 0 0 [].

Definition std_to_url (data : bytes) : bytes := map (fun b => if b =? 43 then 45 else if b =? 47 then 95 else b) data.
Definition url_to_std (data : bytes) : bytes := map (fun b => if b =? 45 then 43 else if b =? 95 then 47 else b) data.

(** ** Bytes *)

Definition contains (hay needle : bytes) : bool := bool_decide (is_Some (memmem_find hay needle)).
(** The loop over [memmem::find_iter], whose matches do not overlap; [fuel] is
    the length of the data. *)
Fixpoint replace_loop (fuel : nat) (hay needle with_ : bytes) : bytes :=
  match fuel with
  | O => hay
  | S fuel =>
      match memmem_find hay needle with
      | Some i => take i hay ++ with_ ++ replace_loop fuel (drop (i + length needle) hay) needle with_
      | None => hay
      end
  end.
Definition replace_all (hay needle with_ : bytes) : bytes := replace_loop (length hay) hay needle with_.

(** ** The spellings of a character *)

Definition unescaped (b : Z) : bool := is_ascii_alphanumeric b || (b =? 45) || (b =? 46) || (b =? 95).
Definition B64_MIN_BYTES : nat := 8.
Definition b64_std_char (b : Z) : bool := is_ascii_alphanumeric b || (b =? 43) || (b =? 47).
Definition b64_url_char (b : Z) : bool := is_ascii_alphanumeric b || (b =? 45) || (b =? 95).

(** [{number:0width$X}], each letter in either case. *)
Fixpoint hex_class (number : Z) (width : nat) : Alternative :=
  match width with
  | O => []
  | S w =>
      let d := number / 16 ^ Z.of_nat w mod 16 in
      (if d <? 10 then [48 + d] else [55 + d; 87 + d]) :: hex_class number w
  end.
(** [char::encode_utf16]. *)
Definition encode_utf16 (c : Z) : list Z :=
  if c <? 65536 then [c] else [55296 + (c - 65536) / 1024; 56320 + (c - 65536) mod 1024].
Definition literal (l : bytes) : Alternative := map (fun b => [b]) l.
Definition char_pattern (ch : Z) : Group :=
  let raw := utf8_char ch in
  let percent := flat_map (fun b => [37] :: hex_class b 2) raw in
  if Nat.eqb (length raw) 1 && unescaped ch then [literal raw; percent]
  else
    [literal raw; percent]
    ++ (if ch =? 32 then [literal [43]] else [])
    ++ [flat_map (fun u => [92] :: [117] :: hex_class u 4) (encode_utf16 ch)]
    ++ match ch with
       | 34 => [literal [92; 34]]
       | 92 => [literal [92; 92]]
       | 47 => [literal [92; 47]]
       | 8 => [literal [92; 98]]
       | 12 => [literal [92; 102]]
       | 10 => [literal [92; 110]]
       | 13 => [literal [92; 114]]
       | 9 => [literal [92; 116]]
       | _ => []
       end.

(** ** Base64 blobs *)

(** [(8 * shift).div_ceil(6)] and [8 * (shift + raw.len()) / 6]. *)
Definition core_at (raw : bytes) (shift : nat) : bytes :=
  let enc := b64_encode_std (repeat 0 shift ++ raw) in
  let start := ((8 * shift + 5) / 6)%nat in
  let end_ := (8 * (shift + length raw) / 6)%nat in
  take (end_ - start) (drop start enc).
Definition add_core (cores : list bytes) (c : bytes) : list bytes :=
  if bool_decide (c ∈ cores) then cores else cores ++ [c].
Definition base64_cores (raw : bytes) : list bytes :=
  fold_left (fun cores shift => let core := core_at raw shift in add_core (add_core cores core) (std_to_url core))
    [0; 1; 2]%nat [].

Fixpoint replace_in_base64_from (offs : list nat) (blob raw ph_raw : bytes) (urlsafe padded : bool) : option bytes :=
  match offs with
  | [] => None
  | off :: offs =>
      let next := replace_in_base64_from offs blob raw ph_raw urlsafe padded in
      let body := drop off blob in
      let '(body, tail) := if Nat.eqb (length body mod 4) 1 then (take (length body - 1) body, drop (length body - 1) body)
                           else (body, []) in
      let std := if urlsafe then url_to_std body else body in
      let std := std ++ repeat 61 ((4 - length std mod 4) mod 4) in
      match b64_decode_strict std with
      | None => next
      | Some decoded =>
          if negb (contains decoded raw) then next
          else
            let enc := b64_encode_std (replace_all decoded raw ph_raw) in
            let enc := if urlsafe then std_to_url enc else enc in
            let enc := if padded then enc else trim_end_matches 61 enc in
            Some (take off blob ++ enc ++ tail)
      end
  end.
Definition replace_in_base64 : bytes -> bytes -> bytes -> bool -> bool -> option bytes :=
  replace_in_base64_from [0; 1; 2; 3]%nat.

(** The three bounds of the blob around the core found at [i]. *)
Definition blob_bounds (is_char : Z -> bool) (data core : bytes) (i : nat) : nat * nat * nat :=
  let start := (i - length (span is_char (rev (take i data))).1)%nat in
  let end_ := (i + length core + length (span is_char (drop (i + length core) data)).1)%nat in
  let pad_end := (end_ + Nat.min 2 (length (span (Z.eqb 61) (drop end_ data)).1))%nat in
  (start, end_, pad_end).
(** The blob rewritten in one alphabet: the new data and where the search goes on. *)
Definition rewrite_at (urlsafe : bool) (data core raw ph_raw : bytes) (i : nat) : option (bytes * nat) :=
  let '(start, end_, pad_end) := blob_bounds (if urlsafe then b64_url_char else b64_std_char) data core i in
  let padded := Nat.ltb end_ pad_end || (negb urlsafe && Nat.eqb ((end_ - start) mod 4) 0) in
  let? new := replace_in_base64 (take (end_ - start) (drop start data)) raw ph_raw urlsafe padded in
  Some (take start data ++ new ++ drop pad_end data, (start + length new)%nat).
(** The loop; what is left to search shrinks at every turn. *)
Fixpoint rewrite_base64_loop (fuel : nat) (data : bytes) (pos : nat) (core raw ph_raw : bytes) (count : nat) : bytes * nat :=
  match fuel with
  | O => (data, count)
  | S fuel =>
      match (if Nat.leb pos (length data) then memmem_find (drop pos data) core else None) with
      | None => (data, count)
      | Some found =>
          let i := (pos + found)%nat in
          match rewrite_at false data core raw ph_raw i with
          | Some (data, pos) => rewrite_base64_loop fuel data pos core raw ph_raw (S count)
          | None =>
              match rewrite_at true data core raw ph_raw i with
              | Some (data, pos) => rewrite_base64_loop fuel data pos core raw ph_raw (S count)
              | None => rewrite_base64_loop fuel data (i + 1) core raw ph_raw count
              end
          end
      end
  end.
Definition rewrite_base64 (data core raw ph_raw : bytes) : bytes * nat :=
  rewrite_base64_loop (S (length data)) data 0 core raw ph_raw 0.

(** ** [SecretForms] *)

Definition hex_any : Class_ := lit "0123456789ABCDEFabcdef".
Definition PERCENT_ESCAPE : Pattern := [[[[37]; hex_any; hex_any]]].
Definition LOWER_HEX_ESCAPE : Pattern :=
  [[[[37]]]; [[lit "abcdef"; hex_any]; [lit "0123456789ABCDEF"; lit "abcdef"]]].

Record SecretForms : Type := mkForms {
  value : str; placeholder : str; name : str; pattern : option Pattern; anchor : option bytes;
  b64_cores : list bytes; ph_percent : bytes; ph_json : bytes
}.

(** [slice::split] on the bytes that are not unescaped. *)
Fixpoint split_runs (l : bytes) : list bytes :=
  match l with
  | [] => [[]]
  | b :: r => match split_runs r with
              | p :: ps => if unescaped b then (b :: p) :: ps else [] :: p :: ps
              | [] => []
              end
  end.
Definition longest_run (raw : bytes) : bytes :=
  fold_left (fun best run => if Nat.ltb (length best) (length run) then run else best) (split_runs raw) [].
Definition upper_hex2 (b : Z) : bytes := let d n := if n <? 10 then 48 + n else 55 + n in [d (b / 16); d (b mod 16)].
Definition percent_encode (placeholder : str) : bytes :=
  flat_map (fun b => if is_ascii_alphanumeric b || (b =? 95) || (b =? 46) || (b =? 45) || (b =? 126) then [b]
                     else 37 :: upper_hex2 b) (as_bytes placeholder).
Definition new_forms (value placeholder name : str) : SecretForms :=
  let raw := as_bytes value in
  let parts := map char_pattern value in
  let '(pattern, anchor) :=
    if bool_decide (parts = []) then (None, None)
    else (Some parts, if bool_decide (longest_run raw = []) then None else Some (longest_run raw)) in
  let cores := if Nat.leb B64_MIN_BYTES (length raw) then base64_cores raw else [] in
  let quoted := as_bytes (dumps (JStr placeholder) default_dump) in
  mkForms value placeholder name pattern anchor cores (percent_encode placeholder)
    (take (length quoted - 2) (drop 1 quoted)).

Definition raw (f : SecretForms) : bytes := as_bytes (value f).
Definition ph_raw (f : SecretForms) : bytes := as_bytes (placeholder f).
Definition has_derived (f : SecretForms) : bool :=
  bool_decide (is_Some (pattern f)) || negb (bool_decide (b64_cores f = [])).
Definition escaped_may_occur (f : SecretForms) (data : bytes) : bool :=
  match anchor f with None => true | Some a => contains data a || contains data [37] end.

Fixpoint lower_escapes (out : bytes) : bytes :=
  match out with
  | a :: ((b :: c :: r) as rest) =>
      if a =? 37 then a :: ascii_lower b :: ascii_lower c :: lower_escapes r else a :: lower_escapes rest
  | _ => out
  end.
Definition ascii_upper (c : Z) : Z := if is_ascii_lowercase c then c - 32 else c.
Definition placeholder_for (f : SecretForms) (m : bytes) : bytes :=
  if bool_decide (m = raw f) then ph_raw f
  else
    let plus_for_space := contains (raw f) [32] && negb (contains m [32]) && negb (contains (map ascii_upper m) (lit "%20"))
                          && negb (contains (map ascii_lower m) (lit "\u0020")) in
    if regex_is_match PERCENT_ESCAPE m || plus_for_space then
      if regex_is_match LOWER_HEX_ESCAPE m then lower_escapes (ph_percent f) else ph_percent f
    else if contains m [92] then ph_json f
    else ph_raw f.

Definition redact_derived (f : SecretForms) (data : bytes) : bytes * bool :=
  let '(data, found) :=
    match pattern f with
    | Some p =>
        if escaped_may_occur f data then
          let '(replaced, n) := regex_replace_all p (placeholder_for f) data in
          if Nat.ltb 0 n then (replaced, true) else (data, false)
        else (data, false)
    | None => (data, false)
    end in
  fold_left (fun st core =>
    let '(data, found) := st in
    if contains data core then
      let '(new, n) := rewrite_base64 data core (raw f) (ph_raw f) in (new, found || Nat.ltb 0 n)
    else (data, found)) (b64_cores f) (data, found).

Definition may_occur (f : SecretForms) (data : bytes) : bool :=
  contains data (raw f) || (bool_decide (is_Some (pattern f)) && escaped_may_occur f data)
  || existsb (contains data) (b64_cores f).

Definition redact (f : SecretForms) (data : bytes) : option bytes :=
  if negb (may_occur f data) then None
  else
    let '(out, found) :=
      if negb (bool_decide (is_Some (pattern f))) && contains data (raw f)
      then (replace_all data (raw f) (ph_raw f), true) else (data, false) in
    let '(out, found) :=
      if has_derived f then let '(new, derived) := redact_derived f out in (new, found || derived) else (out, found) in
    if found then Some out else None.
Definition redact_text (f : SecretForms) (text : str) : option str :=
  let? b := redact f (as_bytes text) in
  Some match from_utf8 b with Some s => s | None => from_utf8_lossy b end.
Definition occurs (f : SecretForms) (data : bytes) : bool :=
  contains data (raw f) || (has_derived f && may_occur f data && (redact_derived f data).2).
End Forms.
