(* ===== verification/FormsSplit.v ===== *)
(** How redaction meets a separator: a byte no spelling of a secret can contain
    cuts every pass of [SecretForms::redact] into two independent halves, and
    the substring prefilters never hide a match. *)
From S2P Require Import Prelude Utf8 Json Forms.
From Stdlib Require Import ZifyBool.

(** * Definitions *)

(** A pass: the new data and whether anything was found. *)
Abbreviation pass := (bytes -> bytes * bool).
(** [s] cuts the pass in two. *)
Definition splits (s : Z) (T : pass) : Prop :=
  T [] = ([], false) /\ forall A B, T (A ++ s :: B) = ((T A).1 ++ s :: (T B).1, (T A).2 || (T B).2).
(** What finds nothing changes nothing. *)
Definition quiet (T : pass) : Prop := forall d, (T d).2 = false -> (T d).1 = d.

Definition then_pass (T U : pass) : pass := fun d => ((U (T d).1).1, (T d).2 || (U (T d).1).2).
Definition no_pass : pass := fun d => (d, false).

(** * Theorems *)

Lemma splits_then s T U : splits s T -> splits s U -> splits s (then_pass T U).
Proof.
  intros [T0 HT] [U0 HU]. unfold then_pass. split; [rewrite T0; cbn [fst snd]; by rewrite U0|]. intros A B. rewrite HT. cbn [fst snd].
  rewrite HU. cbn [fst snd]. f_equal. by destruct (T A).2, (T B).2, (U (T A).1).2, (U (T B).1).2.
Qed.
Lemma splits_none s : splits s no_pass.
Proof. split; [done|]. by intros A B. Qed.
Lemma quiet_then T U : quiet T -> quiet U -> quiet (then_pass T U).
Proof.
  intros HT HU d. unfold then_pass. cbn [fst snd]. intros [E1 E2]%orb_false_iff. by rewrite (HU _ E2), (HT _ E1).
Qed.
Lemma quiet_none : quiet no_pass.
Proof. by intros d. Qed.

(** ** Patterns *)

Definition avoids (s : Z) (p : Pattern) : Prop := Forall (Forall (Forall (fun c => s ∉ c))) p.
(** Every alternative matches at least a byte. *)
Definition solid (p : Pattern) : Prop := p <> [] /\ Forall (Forall (fun a => a <> [])) p.

Section Pattern.
Implicit Types (p : Pattern) (d A B : bytes).

Lemma match_alternative_app s a A B : Forall (fun c => s ∉ c) a -> match_alternative a (A ++ s :: B) = match_alternative a A.
Proof.
  intros Ha. revert A. induction Ha as [|c a Hc Ha IH]; intros A; [by destruct A|]. destruct A as [|b A]; cbn [match_alternative app].
  - by rewrite bool_decide_eq_false_2.
  - by rewrite IH.
Qed.

Lemma match_alternative_length a d : match_alternative a d = true -> (length a <= length d)%nat.
Proof.
  revert d. induction a as [|c a IH]; intros [|b d]; cbn [match_alternative length]; try done; [lia|].
  intros [_ Hm]%andb_true_iff. apply IH in Hm. lia.
Qed.

Lemma match_here_cons g p d : match_here (g :: p) d =
  match g with
  | [] => None
  | a :: g' => if match_alternative a d then
                 match match_here p (drop (length a) d) with Some n => Some (length a + n)%nat | None => match_here (g' :: p) d end
               else match_here (g' :: p) d
  end.
Proof. by destruct g. Qed.

Lemma match_here_app s p A B : avoids s p -> match_here p (A ++ s :: B) = match_here p A.
Proof.
  intros Hp. revert A. induction Hp as [|g p Hg Hp IH]; intros A; [reflexivity|].
  induction Hg as [|a g Ha Hg IHg]; [reflexivity|]. rewrite !(match_here_cons (a :: g)), IHg.
  rewrite match_alternative_app by exact Ha. destruct (match_alternative a A) eqn:E; [|reflexivity].
  apply match_alternative_length in E. rewrite drop_app_le by lia. by rewrite IH.
Qed.

Lemma match_here_bounds p d n : solid p -> match_here p d = Some n -> (0 < n <= length d)%nat.
Proof.
  intros [Hne Hp]. assert (Hle : forall p d n, match_here p d = Some n -> (n <= length d)%nat).
  { clear. intros p. induction p as [|g p IH]; intros d n; [intros [= <-]; lia|].
    induction g as [|a g IHg]; [discriminate|]. rewrite match_here_cons. destruct (match_alternative a d) eqn:E; [|exact IHg].
    destruct (match_here p (drop (length a) d)) as [k|] eqn:Ek; [|exact IHg]. intros [= <-]. apply IH in Ek.
    apply match_alternative_length in E. rewrite length_drop in Ek. lia. }
  intros Hm. split; [|by apply (Hle p d)]. destruct p as [|g p]; [congruence|]. apply Forall_cons in Hp as [Hg _]. clear Hne.
  induction Hg as [|a g Ha Hg IHg]; [discriminate|]. revert Hm. rewrite match_here_cons.
  destruct (match_alternative a d); [|exact IHg]. destruct (match_here p _); [|exact IHg]. intros [= <-]. destruct a; [done|simpl; lia].
Qed.

Lemma solid_empty p : solid p -> match_here p [] = None.
Proof. intros Hs. destruct (match_here p []) as [n|] eqn:E; [|reflexivity]. apply match_here_bounds in E; [|exact Hs]. simpl in E. lia. Qed.

Lemma find_match_bounds p d i n : solid p -> find_match p d = Some (i, n) -> (0 < n)%nat /\ (i + n <= length d)%nat.
Proof.
  intros Hs. revert i. induction d as [|b d IH]; intros i; cbn [find_match].
  - rewrite solid_empty by exact Hs. discriminate.
  - destruct (match_here p (b :: d)) as [k|] eqn:E.
    + intros [= <- <-]. apply match_here_bounds in E; [|exact Hs]. simpl in *. lia.
    + destruct (find_match p d) as [[j k]|]; [|discriminate]. intros [= <- <-]. destruct (IH j eq_refl). simpl. lia.
Qed.

Lemma find_match_app s p A B : solid p -> avoids s p ->
  find_match p (A ++ s :: B) =
  match find_match p A with
  | Some x => Some x
  | None => match find_match p B with Some (i, n) => Some (S (length A) + i, n)%nat | None => None end
  end.
Proof.
  intros Hs Ha. induction A as [|b A IH].
  - cbn [app find_match length]. pose proof (match_here_app s p [] B Ha) as E. cbn [app] in E. rewrite E, solid_empty by exact Hs.
    by destruct (find_match p B) as [[i n]|].
  - cbn [find_match]. change ((b :: A) ++ s :: B) with (b :: A ++ s :: B). cbn [find_match].
    change (b :: A ++ s :: B) with ((b :: A) ++ s :: B). rewrite match_here_app by exact Ha.
    destruct (match_here p (b :: A)); [reflexivity|]. rewrite IH. destruct (find_match p A) as [[i n]|]; [reflexivity|].
    by destruct (find_match p B) as [[i n]|].
Qed.

(** Enough fuel gives the replacement, whatever it is. *)
Lemma replace_matches_fuel p f d k : solid p -> (length d <= k)%nat -> replace_matches k p f d = replace_matches (length d) p f d.
Proof.
  intros Hs. enough (H : forall m d k k', (length d <= m)%nat -> (length d <= k)%nat -> (length d <= k')%nat ->
    replace_matches k p f d = replace_matches k' p f d) by (intros Hk; apply (H (length d)); lia).
  clear d k. intros m. induction m as [|m IH]; intros d k k' Hm Hk Hk'.
  - destruct d; [|simpl in Hm; lia]. assert (E : find_match p [] = None) by (cbn [find_match]; by rewrite solid_empty).
    destruct k, k'; cbn [replace_matches]; by rewrite ?E.
  - destruct d as [|b d]; [apply (IH []); simpl; lia|]. destruct k as [|k], k' as [|k']; try (simpl in *; lia). cbn [replace_matches].
    destruct (find_match p (b :: d)) as [[i n]|] eqn:E; [|reflexivity]. apply find_match_bounds in E; [|exact Hs].
    rewrite (IH (drop (i + n) (b :: d)) k k'); [reflexivity|rewrite length_drop; simpl in *; lia..].
Qed.

Definition pattern_pass (p : Pattern) (f : bytes -> bytes) : pass :=
  fun d => let '(r, n) := replace_matches (length d) p f d in (r, Nat.ltb 0 n).

Lemma replace_matches_eq p f d : solid p -> replace_matches (length d) p f d =
  match find_match p d with
  | None => (d, 0%nat)
  | Some (i, n) => let '(rest, count) := replace_matches (length (drop (i + n) d)) p f (drop (i + n) d) in
                   (take i d ++ f (take n (drop i d)) ++ rest, S count)
  end.
Proof.
  intros Hs. destruct d as [|b d].
  - cbn [length replace_matches find_match]. by rewrite solid_empty.
  - cbn [length replace_matches]. destruct (find_match p (b :: d)) as [[i n]|] eqn:E; [|reflexivity].
    apply find_match_bounds in E; [|exact Hs]. rewrite replace_matches_fuel; [reflexivity|exact Hs|]. rewrite length_drop. simpl in *. lia.
Qed.

Lemma replace_matches_split s p f A B : solid p -> avoids s p ->
  let '(a, n) := replace_matches (length A) p f A in
  let '(b, m) := replace_matches (length B) p f B in
  replace_matches (length (A ++ s :: B)) p f (A ++ s :: B) = (a ++ s :: b, n + m)%nat.
Proof.
  intros Hs Ha. remember (length A) as k eqn:Ek. revert A Ek. induction (lt_wf k) as [k _ IH]. intros A ->.
  rewrite (replace_matches_eq p f (A ++ s :: B)), find_match_app by assumption.
  rewrite (replace_matches_eq p f A) by exact Hs. destruct (find_match p A) as [[i n]|] eqn:E.
  - apply find_match_bounds in E as [Hn Hin]; [|exact Hs]. rewrite drop_app_le by lia.
    specialize (IH (length (drop (i + n) A)) ltac:(rewrite length_drop; lia) (drop (i + n) A) eq_refl).
    destruct (replace_matches (length (drop (i + n) A)) p f (drop (i + n) A)) as [a c].
    destruct (replace_matches (length B) p f B) as [b m]. rewrite IH. rewrite take_app_le, drop_app_le by lia.
    rewrite take_app_le by (rewrite length_drop; lia). by rewrite <- !app_assoc.
  - rewrite (replace_matches_eq p f B) by exact Hs. destruct (find_match p B) as [[i n]|] eqn:EB; [|reflexivity].
    assert (Hdrop : forall j, drop (S (length A) + j) (A ++ s :: B) = drop j B).
    { intros j. rewrite drop_app_ge by lia. by replace (S (length A) + j - length A)%nat with (S j) by lia. }
    rewrite <- Nat.add_assoc, !Hdrop. destruct (replace_matches (length (drop (i + n) B)) p f (drop (i + n) B)) as [b m].
    rewrite take_app_ge by lia. replace (S (length A) + i - length A)%nat with (S i) by lia. cbn [take].
    by rewrite <- !app_assoc.
Qed.

Lemma pattern_splits s p f : solid p -> avoids s p -> splits s (pattern_pass p f).
Proof.
  intros Hs Ha. unfold pattern_pass. split.
  - rewrite replace_matches_eq by exact Hs. cbn [find_match]. by rewrite solid_empty.
  - intros A B. pose proof (replace_matches_split s p f A B Hs Ha) as E.
    destruct (replace_matches (length A) p f A) as [a n], (replace_matches (length B) p f B) as [b m]. rewrite E. cbn [fst snd].
    f_equal. destruct n, m; reflexivity.
Qed.
Lemma pattern_quiet p f : solid p -> quiet (pattern_pass p f).
Proof.
  intros Hs d. unfold pattern_pass. rewrite replace_matches_eq by exact Hs. destruct (find_match p d) as [[i n]|]; [|done].
  by destruct (replace_matches _ p f _).
Qed.
Lemma pattern_none p f d : solid p -> find_match p d = None -> pattern_pass p f d = (d, false).
Proof. intros Hs E. unfold pattern_pass. by rewrite replace_matches_eq, E. Qed.
End Pattern.

(** ** Searching *)

Section Search.
Context `{C : Crates} {CL : CratesLaws C}.

Lemma contains_iff d w : contains d w = true <-> exists x y, d = x ++ w ++ y.
Proof.
  unfold contains. rewrite memmem_find_law, bool_decide_eq_true. pose proof (find_sub_spec w d) as Hs. split.
  - intros [n E]. rewrite E in Hs. destruct Hs as ((r & Er) & _). exists (take n d), r. by rewrite <- Er, take_drop.
  - intros (x & y & ->). destruct (find_sub w (x ++ w ++ y)) as [n|]; [by eexists|]. specialize (Hs (length x)).
    rewrite drop_app_length in Hs. assert (starts_with (w ++ y) w = true) by (apply starts_with_prefix; by exists y). congruence.
Qed.

Lemma starts_with_cut s w A B : s ∉ w -> w <> [] -> starts_with (A ++ s :: B) w = starts_with A w.
Proof.
  intros Hs _. revert A. induction w as [|c w IH]; intros A; [by destruct A|]. apply not_elem_of_cons in Hs as [Hc Hs].
  destruct A as [|b A]; cbn [app starts_with]; [by rewrite (proj2 (Z.eqb_neq s c)) by congruence|]. by rewrite IH.
Qed.

Lemma starts_with_short w : w <> [] -> starts_with [] w = false.
Proof. by destruct w. Qed.

Lemma find_sub_cons w c d : find_sub w (c :: d) = if starts_with (c :: d) w then Some 0%nat else option_map S (find_sub w d).
Proof. cbn [find_sub]. destruct (starts_with (c :: d) w); [reflexivity|]. by destruct (find_sub w d). Qed.

Lemma find_sub_app s w A B : s ∉ w -> w <> [] ->
  find_sub w (A ++ s :: B) =
  match find_sub w A with
  | Some i => Some i
  | None => match find_sub w B with Some i => Some (S (length A) + i)%nat | None => None end
  end.
Proof.
  intros Hs Hw. induction A as [|b A IH].
  - cbn [app length]. rewrite find_sub_cons. change (s :: B) with ([] ++ s :: B). rewrite starts_with_cut by assumption.
    assert (E : find_sub w [] = None) by (cbn [find_sub]; by rewrite starts_with_short). rewrite E, starts_with_short by exact Hw.
    by destruct (find_sub w B).
  - change ((b :: A) ++ s :: B) with (b :: A ++ s :: B). rewrite !find_sub_cons.
    change (b :: A ++ s :: B) with ((b :: A) ++ s :: B). rewrite starts_with_cut by assumption.
    destruct (starts_with (b :: A) w); [reflexivity|]. rewrite IH. destruct (find_sub w A); [reflexivity|]. by destruct (find_sub w B).
Qed.

Lemma find_sub_bound w d i : find_sub w d = Some i -> (i + length w <= length d)%nat.
Proof.
  intros E. pose proof (find_sub_spec w d) as Hs. rewrite E in Hs. destruct Hs as ((r & Er) & Hi & _).
  apply (f_equal length) in Er. rewrite length_drop, length_app in Er. lia.
Qed.

(** ** The anchor *)

(** What one group matched. *)
Definition spelling (g : Group) (m : bytes) : Prop := exists a, a ∈ g /\ length a = length m /\ match_alternative a m = true.

Lemma match_alternative_take a d : match_alternative a d = true -> match_alternative a (take (length a) d) = true.
Proof.
  revert d. induction a as [|c a IH]; intros [|b d]; cbn [match_alternative length take]; try done.
  intros [Hb Hm]%andb_true_iff. by rewrite Hb, IH.
Qed.

Lemma match_here_spellings p d n : match_here p d = Some n -> exists ms, Forall2 spelling p ms /\ take n d = concat ms.
Proof.
  revert d n. induction p as [|g p IH]; intros d n; [intros [= <-]; by exists []|].
  enough (Hall : forall g', (forall a, a ∈ g' -> a ∈ g) -> match_here (g' :: p) d = Some n ->
    exists ms, Forall2 spelling (g :: p) ms /\ take n d = concat ms) by (intros Hm; by apply (Hall g)).
  intros g'. induction g' as [|a g' IHg]; intros Hg Hm; [discriminate|]. revert Hm. rewrite match_here_cons.
  assert (Hrest : forall a0, a0 ∈ g' -> a0 ∈ g) by (intros a0 Ha0; apply Hg; by right).
  destruct (match_alternative a d) eqn:E; [|by apply IHg].
  destruct (match_here p (drop (length a) d)) as [k|] eqn:Ek; [|by apply IHg]. intros [= <-].
  destruct (IH _ _ Ek) as (ms & Hms & Et). exists (take (length a) d :: ms). split.
  - constructor; [|exact Hms]. exists a. split; [apply Hg; by left|]. pose proof (match_alternative_length a d E).
    split; [by rewrite length_take_le|]. by apply match_alternative_take.
  - cbn [concat]. rewrite <- Et. by rewrite take_take_drop.
Qed.

Lemma literal_spelling l m : length (literal l) = length m -> match_alternative (literal l) m = true -> m = l.
Proof.
  unfold literal. revert m. induction l as [|b l IH]; intros [|c m]; cbn [map length match_alternative]; try done.
  intros [= El] [Hc Hm]%andb_true_iff. apply bool_decide_eq_true, list_elem_of_singleton in Hc. subst. by rewrite (IH m).
Qed.

Lemma utf8_char_high_bytes c : 128 <= c -> Forall (fun b => 128 <= b) (utf8_char c).
Proof.
  intros Hc. unfold utf8_char. destruct (Z.ltb_spec c 128); [lia|].
  assert (Hm : forall x, 0 <= x mod 64) by (intros x; apply Z.mod_pos_bound; lia).
  assert (0 <= c / 64 /\ 0 <= c / 4096 /\ 0 <= c / 262144) as (? & ? & ?) by (split_and!; apply Z.div_pos; lia).
  pose proof (Hm c). pose proof (Hm (c / 64)). pose proof (Hm (c / 4096)).
  destruct (c <? 2048); [|destruct (c <? 65536)]; rewrite !Forall_cons; split_and!; try apply Forall_nil; try exact I; lia.
Qed.

Lemma utf8_char_nonempty c : utf8_char c <> [].
Proof. unfold utf8_char. by repeat case_goal. Qed.

Lemma unescaped_range b : unescaped b = true -> 45 <= b < 123 /\ b <> 92 /\ b <> 47.
Proof. unfold unescaped, is_ascii_alphanumeric, is_ascii_alphabetic, is_ascii_lowercase, is_ascii_uppercase, is_ascii_digit, in_range. lia. Qed.

(** The literal bytes of a character against what was matched for it: the same
    byte when it has no short escape and no percent sign was used, and no
    unescaped byte otherwise. *)
Definition linked (l m : bytes) : Prop := (exists b, l = [b] /\ m = [b]) \/ (l <> [] /\ Forall (fun b => unescaped b = false) l).

Lemma spelling_linked c m : spelling (char_pattern c) m -> 37 ∉ m -> linked (utf8_char c) m.
Proof.
  intros (a & Ha & Hl & Hm) Hp. unfold char_pattern in Ha. cbv zeta in Ha.
  destruct (Nat.eqb (length (utf8_char c)) 1 && unescaped c) eqn:E.
  - apply andb_true_iff in E as [_ Eu]. pose proof (unescaped_range c Eu). rewrite utf8_char_ascii in * by lia.
    apply elem_of_cons in Ha as [->|Ha]; [left; exists c; split; [reflexivity|by apply literal_spelling]|].
    apply list_elem_of_singleton in Ha as ->. exfalso. cbn [flat_map app] in Hm. destruct m as [|b m]; [discriminate|].
    cbn [match_alternative] in Hm. apply andb_true_iff in Hm as [Hm _]. apply bool_decide_eq_true, list_elem_of_singleton in Hm as ->.
    apply Hp. by left.
  - right. split; [by apply utf8_char_nonempty|]. destruct (Z.ltb_spec c 128).
    + rewrite utf8_char_ascii in * by lia. cbn [length Nat.eqb andb] in E. by repeat constructor.
    + eapply Forall_impl; [by apply utf8_char_high_bytes|]. intros b Hb. cbv beta in Hb. apply not_true_iff_false.
      intros Hu%unescaped_range. lia.
Qed.

Lemma run_prefix ls ms w y : Forall2 linked ls ms -> Forall (fun b => unescaped b = true) w ->
  concat ls = w ++ y -> exists y', concat ms = w ++ y'.
Proof.
  intros Hl Hw. revert w y Hw. induction Hl as [|l m ls ms [(b & -> & ->)|[Hne Hn]] _ IH]; intros w y Hw E; cbn [concat] in *.
  - destruct w; [by eexists|discriminate].
  - destruct w as [|c w]; [by eexists|]. injection E as <- E. apply Forall_cons in Hw as [_ Hw].
    destruct (IH w y Hw E) as (y' & ->). by exists y'.
  - destruct w as [|c w]; [by eexists|]. destruct l as [|d l]; [done|]. exfalso. injection E as -> E. apply Forall_cons in Hn as [Hn _]. apply Forall_cons in Hw as [Hw _]. congruence.
Qed.

Lemma run_inside ls ms x w y : Forall2 linked ls ms -> Forall (fun b => unescaped b = true) w -> w <> [] ->
  concat ls = x ++ w ++ y -> exists x' y', concat ms = x' ++ w ++ y'.
Proof.
  intros Hl Hw Hne. revert x. induction Hl as [|l m ls ms Hlm Hl IH]; intros x E; cbn [concat] in *.
  { destruct x, w; discriminate || congruence. }
  assert (Hcase : (exists x2, x = l ++ x2 /\ concat ls = x2 ++ w ++ y) \/ (exists b, l = [b] /\ m = [b] /\ x = [])).
  { destruct Hlm as [(b & -> & ->)|[_ Hn]].
    - destruct x as [|c x]; [right; by exists b|]. injection E as <- E. left. by exists x.
    - left. clear IH. revert x E. induction Hn as [|b l Hb Hn IHn]; intros x E; [by exists x|]. destruct x as [|c x].
      + exfalso. destruct w as [|c w]; [done|]. injection E as -> _. apply Forall_cons in Hw as [Hw _]. congruence.
      + injection E as <- E. destruct (IHn x E) as (x2 & -> & E2). by exists x2. }
  destruct Hcase as [(x2 & -> & E2)|(b & -> & -> & ->)].
  - destruct (IH x2 E2) as (x' & y' & ->). exists (m ++ x'), y'. by rewrite <- app_assoc.
  - cbn [app] in E. destruct (run_prefix ([b] :: ls) ([b] :: ms) w y) as (y' & E'); [|exact Hw|exact E|].
    + constructor; [left; by exists b|exact Hl].
    + cbn [concat] in E'. exists [], y'. exact E'.
Qed.

Lemma split_runs_elem l w : w ∈ split_runs l ->
  Forall (fun b => unescaped b = true) w /\ exists x y, l = x ++ w ++ y.
Proof.
  enough (Hs : split_runs l <> [] /\ (forall w, w ∈ split_runs l -> Forall (fun b => unescaped b = true) w /\ exists x y, l = x ++ w ++ y) /\
               (forall w ws, split_runs l = w :: ws -> exists y, l = w ++ y)) by (apply Hs).
  clear w. induction l as [|b l (Hne & Hall & Hhd)]; cbn [split_runs].
  { split; [done|]. split; [|intros w ws [= <- _]; by exists []]. intros w ->%list_elem_of_singleton. split; [constructor|by exists [], []]. }
  destruct (split_runs l) as [|p ps] eqn:E; [done|]. destruct (Hhd p ps eq_refl) as (y & ->). destruct (unescaped b) eqn:Eb.
  - split; [done|]. split.
    + intros w [->|Hw]%elem_of_cons; [split; [constructor; [exact Eb|]|by exists [], y]|].
      * apply (Hall p). by left.
      * destruct (Hall w) as (Hf & x & z & ->); [by right|]. split; [exact Hf|]. by exists (b :: x), z.
    + intros w ws [= <- _]. by exists y.
  - split; [done|]. split.
    + intros w [->|Hw]%elem_of_cons; [split; [constructor|by exists [], (b :: p ++ y)]|].
      destruct (Hall w Hw) as (Hf & x & z & ->). split; [exact Hf|]. by exists (b :: x), z.
    + intros w ws [= <- _]. by exists (b :: p ++ y).
Qed.

Lemma longest_run_elem l : longest_run l = [] \/ longest_run l ∈ split_runs l.
Proof.
  unfold longest_run. enough (H : forall runs best, best = [] \/ best ∈ split_runs l -> (forall w, w ∈ runs -> w ∈ split_runs l) ->
    let r := fold_left (fun best run => if Nat.ltb (length best) (length run) then run else best) runs best in r = [] \/ r ∈ split_runs l).
  { apply H; [by left|done]. }
  intros runs. induction runs as [|r runs IH]; intros best Hb Hr; [exact Hb|]. cbn [fold_left]. apply IH.
  - destruct (Nat.ltb _ _); [right; apply Hr; by left|exact Hb].
  - intros w Hw. apply Hr. by right.
Qed.

(** A match without a percent sign holds the anchor. *)
Lemma match_holds_run value d i n w : find_match (map char_pattern value) d = Some (i, n) -> w <> [] -> w ∈ split_runs (as_bytes value) ->
  contains d w = true \/ contains d [37] = true.
Proof.
  intros Hf Hne Hw. destruct (split_runs_elem _ _ Hw) as (Hu & x & y & E).
  assert (Hm : exists k, match_here (map char_pattern value) (drop k d) = Some n).
  { revert i Hf. induction d as [|b d IH]; intros i; cbn [find_match].
    - destruct (match_here _ []) as [k|] eqn:Ek; [|done]. intros [= <- <-]. by exists 0%nat.
    - destruct (match_here _ (b :: d)) as [k|] eqn:Ek; [intros [= <- <-]; by exists 0%nat|].
      destruct (find_match _ d) as [[j k]|]; [|done]. intros [= <- <-]. destruct (IH j eq_refl) as (k0 & ?). by exists (S k0). }
  destruct Hm as (k & Hm). apply match_here_spellings in Hm as (ms & Hms & Et).
  assert (Ed : d = take k d ++ concat ms ++ drop n (drop k d)).
  { rewrite <- Et, take_drop. by rewrite take_drop. }
  destruct (base.decide (37 ∈ concat ms)) as [H37|H37].
  - right. apply contains_iff. apply list_elem_of_split in H37 as (a & b & E37).
    exists (take k d ++ a), (b ++ drop n (drop k d)). rewrite Ed at 1. rewrite E37. by rewrite <- !app_assoc.
  - left. apply contains_iff.
    assert (Hl : Forall2 linked (map utf8_char value) ms).
    { clear -Hms H37. revert ms Hms H37. induction value as [|c value IH]; intros ms Hms H37; apply Forall2_cons_inv_l in Hms || apply Forall2_nil_inv_l in Hms.
      - subst. constructor.
      - destruct Hms as (m & ms' & Hm & Hms & ->). cbn [concat] in H37. rewrite elem_of_app in H37. constructor; [apply spelling_linked; tauto|].
        apply IH; tauto. }
    destruct (run_inside _ _ x w y Hl Hu Hne) as (x' & y' & Ec).
    { unfold as_bytes in E. rewrite flat_map_concat_map in E. exact E. }
    exists (take k d ++ x'), (y' ++ drop n (drop k d)). rewrite Ed at 1. rewrite Ec. by rewrite <- !app_assoc.
Qed.

Context `{F64Text}.

Lemma escaped_sound value ph nm d : escaped_may_occur (new_forms value ph nm) d = false -> find_match (map char_pattern value) d = None.
Proof.
  destruct (find_match _ d) as [[i n]|] eqn:E; [|done]. unfold escaped_may_occur, new_forms.
  destruct (bool_decide (map char_pattern value = [])); cbn [anchor]; [done|].
  destruct (bool_decide (longest_run (as_bytes value) = [])) eqn:Er; cbn [anchor]; [done|]. apply bool_decide_eq_false in Er.
  destruct (longest_run_elem (as_bytes value)) as [?|Hin]; [done|]. intros [E1 E2]%orb_false_iff.
  destruct (match_holds_run value d i n _ E Er Hin); congruence.
Qed.
End Search.

(** ** Base64 blobs *)

Lemma span_head_stop f X s Y : f s = false -> (span f (X ++ s :: Y)).1 = (span f X).1.
Proof.
  intros Hs. induction X as [|c X IH]; cbn [app span]; [by rewrite Hs|]. destruct (f c); [|reflexivity].
  destruct (span f (X ++ s :: Y)) as [a b], (span f X) as [a' b']. cbn [fst] in *. by subst.
Qed.
Lemma span_head_length f l : (length (span f l).1 <= length l)%nat.
Proof.
  induction l as [|c l IH]; simpl; [lia|]. destruct (f c); [|simpl; lia]. destruct (span f l). simpl in *. lia.
Qed.

(** No blob can hold the byte, in either alphabet or as padding. *)
Definition off_b64 (s : Z) : Prop := b64_std_char s = false /\ b64_url_char s = false /\ s <> 61.

Section Blobs.
Context `{C : Crates} {CL : CratesLaws C} `{F64Text}.
Variables (core raw ph : bytes).
Hypothesis Hcore : core <> [].

Abbreviation char_of u := (if (u : bool) then b64_url_char else b64_std_char).
Lemma blob_bounds_range f d i : (i + length core <= length d)%nat ->
  let '(start, end_, pad_end) := blob_bounds f d core i in
  (start <= i)%nat /\ (i + length core <= end_)%nat /\ (end_ <= pad_end)%nat /\ (pad_end <= length d)%nat.
Proof.
  intros Hi. unfold blob_bounds. cbv zeta. set (e := (i + length core + length (span _ _).1)%nat).
  assert (He : (e <= length d)%nat).
  { subst e. pose proof (span_head_length f (drop (i + length core) d)) as Hl. rewrite length_drop in Hl. lia. }
  pose proof (span_head_length (Z.eqb 61) (drop e d)) as Hp. rewrite length_drop in Hp. cbv beta iota zeta. split_and!; lia.
Qed.

(** A rewrite leaves less to search. *)
Lemma rewrite_at_progress u D i d p : (i + length core <= length D)%nat -> rewrite_at u D core raw ph i = Some (d, p) ->
  (p <= length d)%nat /\ (length d - p < length D - i)%nat.
Proof.
  intros Hi. unfold rewrite_at. pose proof (blob_bounds_range (char_of u) D i Hi) as Hb.
  destruct (blob_bounds _ D core i) as [[st e] pe]. destruct Hb as (H1 & H2 & H3 & H4).
  destruct (replace_in_base64 _ raw ph u _) as [new|]; [|discriminate]. intros [= <- <-].
  rewrite !length_app, length_take, length_drop. assert (length core <> 0%nat) by (by destruct core). lia.
Qed.

Abbreviation loop fuel d p n := (rewrite_base64_loop fuel d p core raw ph n).

(** Where the next core is. *)
Definition next_core (d : bytes) (p : nat) : option nat :=
  if Nat.leb p (length d) then memmem_find (drop p d) core else None.
Lemma next_core_bound d p k : next_core d p = Some k -> (p + k + length core <= length d)%nat /\ (p <= length d)%nat.
Proof.
  unfold next_core. destruct (Nat.leb_spec p (length d)); [|discriminate]. rewrite memmem_find_law. intros E.
  apply find_sub_bound in E. rewrite length_drop in E. lia.
Qed.

(** One turn: the data, the place and the count to go on with. *)
Definition turn (d : bytes) (i n : nat) : bytes * nat * nat :=
  match rewrite_at false d core raw ph i with
  | Some (d', p) => (d', p, S n)
  | None => match rewrite_at true d core raw ph i with
            | Some (d', p) => (d', p, S n)
            | None => (d, (i + 1)%nat, n)
            end
  end.
Lemma loop_turn fuel d p n : loop (S fuel) d p n =
  match next_core d p with
  | None => (d, n)
  | Some k => let '(d', p', n') := turn d (p + k) n in loop fuel d' p' n'
  end.
Proof.
  cbn [rewrite_base64_loop]. fold (next_core d p). destruct (next_core d p) as [k|]; [|reflexivity]. unfold turn.
  destruct (rewrite_at false _ _ _ _ _) as [[d' p']|]; [reflexivity|]. by destruct (rewrite_at true _ _ _ _ _) as [[d' p']|].
Qed.
Lemma turn_progress d i n d' p' n' : (i + length core <= length d)%nat -> turn d i n = (d', p', n') ->
  (p' <= length d')%nat /\ (length d' - p' < length d - i)%nat.
Proof.
  intros Hi. unfold turn. assert (length core <> 0%nat) by (by destruct core).
  destruct (rewrite_at false _ _ _ _ _) as [[x y]|] eqn:E1; [intros [= <- <- _]; by apply (rewrite_at_progress false) in E1|].
  destruct (rewrite_at true _ _ _ _ _) as [[x y]|] eqn:E2; [intros [= <- <- _]; by apply (rewrite_at_progress true) in E2|].
  intros [= <- <- _]. lia.
Qed.
Lemma turn_count d i n m : turn d i (n + m)%nat = let '(d', p', n') := turn d i n in (d', p', (n' + m)%nat).
Proof. unfold turn. repeat (destruct (rewrite_at _ _ _ _ _ _) as [[x y]|]; [reflexivity|]). reflexivity. Qed.

Lemma loop_count fuel d p n m : loop fuel d p (n + m)%nat = ((loop fuel d p n).1, (loop fuel d p n).2 + m)%nat.
Proof.
  revert d p n. induction fuel as [|fuel IH]; intros d p n; [reflexivity|]. rewrite !loop_turn.
  destruct (next_core d p) as [k|]; [|reflexivity]. rewrite turn_count. destruct (turn d (p + k) n) as [[d' p'] n']. apply IH.
Qed.
(** The loop ends before its fuel does. *)
Lemma loop_fuel fuel fuel' d p n : (length d - p < fuel)%nat -> (length d - p < fuel')%nat -> loop fuel d p n = loop fuel' d p n.
Proof.
  revert fuel' d p n. induction fuel as [|fuel IH]; intros fuel' d p n Hf Hf'; [lia|]. destruct fuel' as [|fuel']; [lia|].
  rewrite !loop_turn. destruct (next_core d p) as [k|] eqn:E; [|reflexivity]. apply next_core_bound in E as [Hk Hp].
  destruct (turn d (p + k) n) as [[d' p'] n'] eqn:Et. apply turn_progress in Et as [Hp' Hlt]; [|lia]. apply IH; lia.
Qed.

(** The rewrite from a position on. *)
Definition rewrite_from (d : bytes) (p : nat) : bytes * nat := loop (S (length d - p)) d p 0.
Lemma rewrite_from_turn d p : rewrite_from d p =
  match next_core d p with
  | None => (d, 0%nat)
  | Some k => let '(d', p', n') := turn d (p + k) 0 in ((rewrite_from d' p').1, (rewrite_from d' p').2 + n')%nat
  end.
Proof.
  unfold rewrite_from at 1. rewrite loop_turn. destruct (next_core d p) as [k|] eqn:E; [|reflexivity].
  apply next_core_bound in E as [Hk Hp]. destruct (turn d (p + k) 0) as [[d' p'] n'] eqn:Et.
  apply turn_progress in Et as [Hp' Hlt]; [|lia]. rewrite (loop_fuel _ (S (length d' - p'))) by lia.
  apply (loop_count _ d' p' 0 n').
Qed.

(** A separator: no blob and no core holds it. *)
Variable s : Z.
Hypotheses (Hs : off_b64 s) (Hsc : s ∉ core).

Lemma char_of_s u : char_of u s = false.
Proof. destruct Hs as (? & ? & _). by destruct u. Qed.
Lemma pad_s : Z.eqb 61 s = false.
Proof. destruct Hs as (_ & _ & Hne). apply Z.eqb_neq. congruence. Qed.

(** A separator after the blob does not matter. *)
Lemma blob_bounds_suffix u D B i : (i + length core <= length D)%nat ->
  blob_bounds (char_of u) (D ++ s :: B) core i = blob_bounds (char_of u) D core i.
Proof.
  intros Hi. unfold blob_bounds. rewrite take_app_le, drop_app_le, span_head_stop by (apply char_of_s || lia).
  set (e := (i + length core + length (span _ _).1)%nat).
  assert (He : (e <= length D)%nat).
  { subst e. pose proof (span_head_length (char_of u) (drop (i + length core) D)) as Hl. rewrite length_drop in Hl. lia. }
  rewrite drop_app_le, span_head_stop by (apply pad_s || exact He). reflexivity.
Qed.
(** Nor one before it. *)
Lemma blob_bounds_prefix u P D j : (j <= length D)%nat ->
  blob_bounds (char_of u) (P ++ s :: D) core (S (length P) + j) =
  let '(start, end_, pad_end) := blob_bounds (char_of u) D core j in
  (S (length P) + start, S (length P) + end_, S (length P) + pad_end)%nat.
Proof.
  intros Hj. unfold blob_bounds. cbv zeta.
  assert (Hd : forall n k, n = (S (length P) + k)%nat -> drop n (P ++ s :: D) = drop k D).
  { intros n k ->. rewrite drop_app_ge by lia. by replace (S (length P) + k - length P)%nat with (S k) by lia. }
  assert (Ht : take (S (length P) + j) (P ++ s :: D) = P ++ s :: take j D).
  { rewrite take_app_ge by lia. by replace (S (length P) + j - length P)%nat with (S j) by lia. }
  rewrite Ht, rev_app_distr. cbn [rev]. rewrite <- app_assoc. cbn [app]. rewrite span_head_stop by apply char_of_s.
  pose proof (span_head_length (char_of u) (rev (take j D))) as Hl. rewrite length_rev, length_take in Hl.
  rewrite (Hd _ (j + length core)%nat) by lia. set (n := length (span _ (drop (j + length core) D)).1).
  rewrite (Hd _ (j + length core + n)%nat) by lia. f_equal; [f_equal|]; lia.
Qed.

Lemma rewrite_at_suffix u D B i : (i + length core <= length D)%nat ->
  rewrite_at u (D ++ s :: B) core raw ph i =
  match rewrite_at u D core raw ph i with Some (d, p) => Some (d ++ s :: B, p) | None => None end.
Proof.
  intros Hi. unfold rewrite_at. rewrite blob_bounds_suffix by exact Hi.
  pose proof (blob_bounds_range (char_of u) D i Hi) as Hb. destruct (blob_bounds _ D core i) as [[st e] pe].
  destruct Hb as (H1 & H2 & H3 & H4). rewrite drop_app_le, take_app_le by (rewrite ?length_drop; lia).
  destruct (replace_in_base64 _ raw ph u _) as [new|]; [|reflexivity]. rewrite take_app_le, drop_app_le by lia.
  by rewrite <- !app_assoc.
Qed.

Lemma rewrite_at_prefix u P D j : (j + length core <= length D)%nat ->
  rewrite_at u (P ++ s :: D) core raw ph (S (length P) + j) =
  match rewrite_at u D core raw ph j with Some (d, p) => Some (P ++ s :: d, (S (length P) + p)%nat) | None => None end.
Proof.
  intros Hj. unfold rewrite_at. rewrite blob_bounds_prefix by lia.
  destruct (blob_bounds _ D core j) as [[st e] pe].
  assert (Hd : forall k, drop (S (length P) + k) (P ++ s :: D) = drop k D).
  { intros k. rewrite drop_app_ge by lia. by replace (S (length P) + k - length P)%nat with (S k) by lia. }
  assert (Ht : take (S (length P) + st) (P ++ s :: D) = P ++ s :: take st D).
  { rewrite take_app_ge by lia. by replace (S (length P) + st - length P)%nat with (S st) by lia. }
  rewrite !Hd, Ht. replace (S (length P) + e - (S (length P) + st))%nat with (e - st)%nat by lia.
  assert (Nat.ltb (S (length P) + e) (S (length P) + pe) = Nat.ltb e pe) as ->.
  { apply eq_bool_prop_intro. rewrite !Is_true_true, !Nat.ltb_lt. lia. }
  destruct (replace_in_base64 _ raw ph u _) as [new|]; [|reflexivity]. rewrite <- app_assoc. cbn [app].
  do 2 f_equal. lia.
Qed.

Lemma turn_suffix D B i n : (i + length core <= length D)%nat ->
  turn (D ++ s :: B) i n = let '(d, p, m) := turn D i n in (d ++ s :: B, p, m).
Proof.
  intros Hi. unfold turn. rewrite !rewrite_at_suffix by exact Hi.
  repeat (destruct (rewrite_at _ D core raw ph i) as [[x y]|]; [reflexivity|]). reflexivity.
Qed.
Lemma turn_prefix P D j n : (j + length core <= length D)%nat ->
  turn (P ++ s :: D) (S (length P) + j) n = let '(d, p, m) := turn D j n in (P ++ s :: d, (S (length P) + p)%nat, m).
Proof.
  intros Hj. unfold turn. rewrite !rewrite_at_prefix by exact Hj.
  repeat (destruct (rewrite_at _ D core raw ph j) as [[x y]|]; [reflexivity|]). do 2 f_equal. lia.
Qed.

Lemma next_core_prefix P D j : (j <= length D)%nat -> next_core (P ++ s :: D) (S (length P) + j) = next_core D j.
Proof.
  intros Hj. unfold next_core. rewrite length_app. cbn [length]. rewrite !(proj2 (Nat.leb_le _ _)) by lia.
  rewrite drop_app_ge by lia. by replace (S (length P) + j - length P)%nat with (S j) by lia.
Qed.
Lemma next_core_split A B p : (p <= length A)%nat ->
  next_core (A ++ s :: B) p =
  match next_core A p with
  | Some k => Some k
  | None => match next_core B 0 with Some k => Some (S (length A - p) + k)%nat | None => None end
  end.
Proof.
  intros Hp. unfold next_core. rewrite length_app. cbn [length Nat.leb drop]. rewrite !(proj2 (Nat.leb_le _ _)) by lia.
  rewrite drop_app_le by exact Hp. rewrite !memmem_find_law, find_sub_app by assumption. by rewrite length_drop.
Qed.

(** What comes before a separator is left alone... *)
Lemma rewrite_from_prefix P D j : (j <= length D)%nat ->
  rewrite_from (P ++ s :: D) (S (length P) + j) = (P ++ s :: (rewrite_from D j).1, (rewrite_from D j).2).
Proof.
  remember (length D - j)%nat as k eqn:Ek. revert D j Ek. induction (lt_wf k) as [k _ IH]. intros D j -> Hj.
  rewrite !(rewrite_from_turn (P ++ s :: D)), (rewrite_from_turn D j), next_core_prefix by exact Hj.
  destruct (next_core D j) as [f|] eqn:E; [|reflexivity]. apply next_core_bound in E as [Hf _].
  rewrite <- Nat.add_assoc, turn_prefix by lia. destruct (turn D (j + f) 0) as [[d p] m] eqn:Et.
  apply turn_progress in Et as [Hp Hlt]; [|lia]. rewrite (IH (length d - p)%nat) by lia. reflexivity.
Qed.
(** ...and so is what comes after it, in its own turn. *)
Lemma rewrite_from_split A B p : (p <= length A)%nat ->
  rewrite_from (A ++ s :: B) p =
  ((rewrite_from A p).1 ++ s :: (rewrite_from B 0).1, (rewrite_from A p).2 + (rewrite_from B 0).2)%nat.
Proof.
  remember (length A - p)%nat as k eqn:Ek. revert A p Ek. induction (lt_wf k) as [k _ IH]. intros A p -> Hp.
  rewrite (rewrite_from_turn A p). destruct (next_core A p) as [f|] eqn:E.
  - rewrite (rewrite_from_turn (A ++ s :: B)), next_core_split, E by exact Hp. apply next_core_bound in E as [Hf _].
    rewrite turn_suffix by lia. destruct (turn A (p + f) 0) as [[d q] m] eqn:Et.
    apply turn_progress in Et as [Hq Hlt]; [|lia]. rewrite (IH (length d - q)%nat) by lia. cbn [fst snd]. f_equal. lia.
  - cbn [fst snd]. pose proof (rewrite_from_prefix A B 0 ltac:(lia)) as Hpre. rewrite Nat.add_0_r in Hpre. rewrite Nat.add_0_l, <- Hpre.
    rewrite (rewrite_from_turn _ p), (rewrite_from_turn _ (S (length A))), next_core_split, E by exact Hp.
    pose proof (next_core_prefix A B 0 ltac:(lia)) as En. rewrite Nat.add_0_r in En. rewrite En.
    destruct (next_core B 0) as [f|]; [|reflexivity]. by replace (p + (S (length A - p) + f))%nat with (S (length A) + f)%nat by lia.
Qed.

Definition blob_pass : pass := fun d => let '(new, n) := rewrite_base64 d core raw ph in (new, Nat.ltb 0 n).
Lemma rewrite_base64_from d : rewrite_base64 d core raw ph = rewrite_from d 0.
Proof. unfold rewrite_base64, rewrite_from. by rewrite Nat.sub_0_r. Qed.

Lemma blob_splits : splits s blob_pass.
Proof.
  unfold blob_pass. split.
  - rewrite rewrite_base64_from, rewrite_from_turn. unfold next_core. cbn [length Nat.leb drop]. rewrite memmem_find_law.
    cbn [find_sub]. by rewrite starts_with_short.
  - intros A B. rewrite !rewrite_base64_from, rewrite_from_split by lia.
    destruct (rewrite_from A 0) as [a n], (rewrite_from B 0) as [b m]. cbn [fst snd]. f_equal. by destruct n, m.
Qed.
End Blobs.

Section BlobQuiet.
Context `{C : Crates} {CL : CratesLaws C} `{F64Text}.
Variables (core raw ph : bytes).
Hypothesis Hcore : core <> [].

Lemma rewrite_from_quiet d p : (rewrite_from core raw ph d p).2 = 0%nat -> (rewrite_from core raw ph d p).1 = d.
Proof.
  remember (length d - p)%nat as k eqn:Ek. revert d p Ek. induction (lt_wf k) as [k _ IH]. intros d p ->.
  rewrite rewrite_from_turn by exact Hcore. destruct (next_core core d p) as [f|] eqn:E; [|done].
  apply next_core_bound in E as [Hf Hp]. destruct (turn core raw ph d (p + f) 0) as [[d' p'] n'] eqn:Et.
  pose proof (turn_progress core raw ph Hcore d (p + f) 0 d' p' n' ltac:(lia) Et) as [Hp' Hlt]. cbn [fst snd]. intros Hz.
  assert (d' = d) as ->.
  { revert Et. unfold turn. repeat (destruct (rewrite_at _ _ _ _ _ _) as [[x y]|]; [intros [= _ _ <-]; lia|]). by intros [= <- _ _]. }
  apply (IH (length d - p')%nat); lia.
Qed.
Lemma blob_quiet : quiet (blob_pass core raw ph).
Proof.
  intros d. unfold blob_pass. rewrite rewrite_base64_from. pose proof (rewrite_from_quiet d 0) as Hq.
  destruct (rewrite_from core raw ph d 0) as [x n]. cbn [fst snd] in *. intros Hn. apply Hq. by destruct n.
Qed.
Lemma blob_none d : contains d core = false -> blob_pass core raw ph d = (d, false).
Proof.
  intros Hc. unfold blob_pass. rewrite rewrite_base64_from, rewrite_from_turn by exact Hcore. unfold next_core.
  cbn [Nat.leb drop]. change (drop 0 d) with d. unfold contains in Hc. destruct (memmem_find d core); [|reflexivity]. by rewrite bool_decide_eq_true_2 in Hc by eauto.
Qed.
End BlobQuiet.
