(* ===== verification/StreamRedact.v ===== *)
(** Redaction of a body relayed chunk by chunk: the model of
    [agentcage-egress/src/inject/stream.rs], and the proof that what it relays is
    byte for byte what redacting the whole body gives. *)
From S2P Require Import Prelude Utf8 Json Forms FormsSplit.
From Stdlib Require Import ZifyBool.

(** * Definitions *)

Definition MAX_HOLD : Z := 16 * 1024 * 1024.
Inductive StreamRedactError : Type := UnboundedRun.

Definition escape_bytes : bytes := lit "%0123456789ABCDEFabcdef+\u" ++ [34] ++ lit "/bfnrt".
Definition blob_bytes : bytes := lit "ABCDEFGHIJKLMNOPQRSTUVWXYZabcdefghijklmnopqrstuvwxyz0123456789+/-_=".

(** [slice::position] and [rposition]. *)
Fixpoint position (f : Z -> bool) (l : bytes) : option nat :=
  match l with
  | [] => None
  | b :: l => if f b then Some 0%nat else S <$> position f l
  end.
Definition rposition (f : Z -> bool) (l : bytes) : option nat :=
  match position f (rev l) with Some i => Some (length l - 1 - i)%nat | None => None end.

Section Stream.
Context `{Crates} `{F64Text}.

(** Whether a match of the forms can hold the byte. *)
Definition alphabet (forms : list SecretForms) (b : Z) : bool :=
  existsb (fun f => bool_decide (b ∈ raw f)
                    || (bool_decide (is_Some (pattern f)) && bool_decide (b ∈ escape_bytes))
                    || (negb (bool_decide (b64_cores f = [])) && bool_decide (b ∈ blob_bytes))) forms.

(** The substrings one scan looks for; [None] when a pattern has no anchor. *)
Fixpoint needles (forms : list SecretForms) : option (list bytes) :=
  match forms with
  | [] => Some []
  | f :: forms =>
      let? own := match pattern f with
                  | None => Some []
                  | Some _ => let? a := anchor f in Some [a]
                  end in
      let? rest := needles forms in
      Some (raw f :: own ++ b64_cores f ++ rest)
  end.
Definition triggers (forms : list SecretForms) : option (bytes -> bool) :=
  let? l := needles forms in
  aho_corasick (l ++ if existsb (fun f => bool_decide (is_Some (pattern f))) forms then [[37]] else []).

Record StreamRedactor : Type := mkStream {
  forms : list SecretForms; separator : Z -> bool; scan : option (bytes -> bool); held : bytes; found : list bool; max_hold : Z
}.
Definition new_stream (forms : list SecretForms) : StreamRedactor :=
  mkStream forms (fun b => negb (alphabet forms b)) (triggers forms) [] (repeat false (length forms)) MAX_HOLD.
Definition with_max_hold (st : StreamRedactor) (n : Z) : StreamRedactor :=
  mkStream (forms st) (separator st) (scan st) (held st) (found st) n.
Definition set_held (st : StreamRedactor) (h : bytes) : StreamRedactor :=
  mkStream (forms st) (separator st) (scan st) h (found st) (max_hold st).
Definition set_found (st : StreamRedactor) (l : list bool) : StreamRedactor :=
  mkStream (forms st) (separator st) (scan st) (held st) l (max_hold st).

Fixpoint segment_loop (forms : list SecretForms) (found : list bool) (content : bytes) : bytes * list bool :=
  match forms, found with
  | f :: forms, b :: found =>
      match redact f content with
      | Some new => let '(content, found) := segment_loop forms found new in (content, true :: found)
      | None => let '(content, found) := segment_loop forms found content in (content, b :: found)
      end
  | _, _ => (content, found)
  end.
(** The state and the pieces released. *)
Definition segment (st : StreamRedactor) (data : bytes) : StreamRedactor * list bytes :=
  if bool_decide (data = []) then (st, [])
  else if match scan st with Some is_match => negb (is_match data) | None => false end then (st, [data])
  else let '(content, found) := segment_loop (forms st) (found st) data in (set_found st found, [content]).

Definition push (st : StreamRedactor) (chunk : bytes) : result StreamRedactError (StreamRedactor * list bytes) :=
  if bool_decide (chunk = []) then Ok (st, [])
  else
    match rposition (separator st) chunk with
    | None =>
        if max_hold st <? Z.of_nat (length (held st)) + Z.of_nat (length chunk) then Err UnboundedRun
        else Ok (set_held st (held st ++ chunk), [])
    | Some last_ =>
        if bool_decide (held st = []) then
          let '(st, out) := segment st (take (last_ + 1) chunk) in Ok (set_held st (drop (last_ + 1) chunk), out)
        else
          let first := default last_ (position (separator st) chunk) in
          let head := take (first + 1) chunk in
          let rest := drop (first + 1) chunk in
          let joined := held st ++ head in
          let '(st, out1) := segment (set_held st []) joined in
          let '(st, out2) := segment st (take (last_ - first) rest) in
          Ok (set_held st (drop (last_ - first) rest), out1 ++ out2)
    end.
Definition finish (st : StreamRedactor) : StreamRedactor * list bytes := segment (set_held st []) (held st).

Fixpoint names_loop (forms : list SecretForms) (found header_found : list bool) (names : list str) : list str :=
  match forms, found with
  | f :: forms, b :: found =>
      let '(h, header_found) := match header_found with [] => (false, []) | h :: r => (h, r) end in
      names_loop forms found header_found
        (if (b || h) && negb (bool_decide (name f ∈ names)) then names ++ [name f] else names)
  | _, _ => names
  end.
Definition names (st : StreamRedactor) (header_found : list bool) : list str :=
  names_loop (forms st) (found st) header_found [].

(** The body half of [Injector::redact_response_body]: each form in turn over
    what the one before made of the body. *)
Fixpoint redact_body (forms : list SecretForms) (content : bytes) : bytes * list bool :=
  match forms with
  | [] => (content, [])
  | f :: forms =>
      match (if bool_decide (content = []) then None else redact f content) with
      | Some new => let '(content, found) := redact_body forms new in (content, true :: found)
      | None => let '(content, found) := redact_body forms content in (content, false :: found)
      end
  end.

(** A whole body pushed chunk by chunk. *)
Fixpoint push_all (st : StreamRedactor) (chunks : list bytes) : result StreamRedactError (StreamRedactor * list bytes) :=
  match chunks with
  | [] => Ok (st, [])
  | chunk :: chunks =>
      let! (st, out) := push st chunk in
      let! (st, rest) := push_all st chunks in
      Ok (st, out ++ rest)
  end.
End Stream.

(** * Theorems *)

Section Theorems.
Context `{C : Crates} {CL : CratesLaws C} `{F64Text}.

(** ** Redaction as passes *)

(** The forms the injector builds: of a secret that is not empty. *)
Definition wf_forms (f : SecretForms) : Prop :=
  exists v ph nm, f = new_forms v ph nm /\ v <> [] /\ Forall scalar v.

Definition blob_passes (f : SecretForms) : list bytes -> pass :=
  fold_right (fun core T => then_pass (blob_pass core (raw f) (ph_raw f)) T) no_pass.
Definition redact_pass (f : SecretForms) : pass :=
  then_pass (pattern_pass (default [] (pattern f)) (placeholder_for f)) (blob_passes f (b64_cores f)).

Lemma rfc4648_length data : length (rfc4648 data) = (4 * ((length data + 2) / 3))%nat.
Proof.
  enough (Hs : forall n data, (length data <= n)%nat -> length (rfc4648 data) = (4 * ((length data + 2) / 3))%nat) by (by apply (Hs (length data))).
  clear data. intros n. induction n as [|n IH]; intros data Hn.
  - destruct data; [reflexivity|simpl in Hn; lia].
  - destruct data as [|a [|b [|c r]]]; try reflexivity. cbn [rfc4648 app length]. rewrite (IH r) by (simpl in Hn; lia).
    replace (S (S (S (length r))) + 2)%nat with (length r + 2 + 1 * 3)%nat by lia. rewrite Nat.div_add by lia. lia.
Qed.

Lemma b64_char_std n : 0 <= n < 64 -> b64_std_char (b64_char n) = true.
Proof.
  intros Hn. unfold b64_char, b64_std_char, is_ascii_alphanumeric, is_ascii_alphabetic, is_ascii_lowercase, is_ascii_uppercase, is_ascii_digit, in_range.
  repeat case_goal; lia.
Qed.
Lemma rfc4648_chars data : Forall (fun b => 0 <= b < 256) data -> Forall (fun c => b64_std_char c = true \/ c = 61) (rfc4648 data).
Proof.
  enough (Hs : forall n data, (length data <= n)%nat -> Forall (fun b => 0 <= b < 256) data ->
    Forall (fun c => b64_std_char c = true \/ c = 61) (rfc4648 data)) by (by apply (Hs (length data))).
  clear data. intros n. induction n as [|n IH]; intros data Hn Hb.
  - destruct data; [constructor|simpl in Hn; lia].
  - destruct data as [|a [|b [|c r]]]; cbn [rfc4648 app]; rewrite ?Forall_cons in Hb; rewrite ?Forall_cons;
      split_and?; try (apply Forall_nil; done); try (by right);
      try (left; apply b64_char_std; Z.to_euclidean_division_equations; lia).
    apply IH; [simpl in Hn; lia|tauto].
Qed.

Lemma std_to_url_char c : b64_std_char c = true \/ c = 61 ->
  let u := if c =? 43 then 45 else if c =? 47 then 95 else c in b64_url_char u = true \/ u = 61.
Proof.
  unfold b64_std_char, b64_url_char, is_ascii_alphanumeric, is_ascii_alphabetic, is_ascii_lowercase, is_ascii_uppercase, is_ascii_digit, in_range.
  intros Hc. cbv zeta. repeat case_goal; lia.
Qed.

Lemma cores_spec raw : (B64_MIN_BYTES <= length raw)%nat -> Forall (fun b => 0 <= b < 256) raw ->
  Forall (fun c => c <> [] /\ Forall (fun b => b64_std_char b = true \/ b64_url_char b = true \/ b = 61) c) (base64_cores raw).
Proof.
  intros Hl Hb. set (P := fun c : bytes => c <> [] /\ _). unfold base64_cores.
  assert (Hadd : forall cores c, Forall P cores -> P c -> Forall P (add_core cores c)).
  { intros cores c Hc Hp. unfold add_core. case_bool_decide; [exact Hc|]. apply Forall_app. split; [exact Hc|by constructor]. }
  assert (Hcore : forall shift, (shift < 3)%nat -> P (core_at raw shift) /\ P (std_to_url (core_at raw shift))).
  { intros shift Hs. set (data := repeat 0 shift ++ raw).
    assert (Hd : Forall (fun b => 0 <= b < 256) data).
    { apply Forall_app. split; [|exact Hb]. clear. induction shift; simpl; constructor; [lia|assumption]. }
    assert (Hlen : length data = (shift + length raw)%nat) by (subst data; rewrite length_app, repeat_length; lia).
    assert (Hch : Forall (fun c => b64_std_char c = true \/ c = 61) (core_at raw shift)).
    { unfold core_at, b64_encode_std. fold data. rewrite standard_encode_law by exact Hd. apply Forall_take, Forall_drop, rfc4648_chars, Hd. }
    assert (Hne : core_at raw shift <> []).
    { unfold core_at, b64_encode_std. fold data. rewrite standard_encode_law by exact Hd. intros E. apply (f_equal length) in E.
      rewrite length_take, length_drop, rfc4648_length, Hlen in E. cbn [length] in E. unfold B64_MIN_BYTES in Hl. revert E.
      Z.to_euclidean_division_equations. pose proof (Nat.div_mod (8 * shift + 5) 6 ltac:(lia)). pose proof (Nat.mod_upper_bound (8 * shift + 5) 6 ltac:(lia)).
      pose proof (Nat.div_mod (8 * (shift + length raw)) 6 ltac:(lia)). pose proof (Nat.mod_upper_bound (8 * (shift + length raw)) 6 ltac:(lia)).
      pose proof (Nat.div_mod (shift + length raw + 2) 3 ltac:(lia)). pose proof (Nat.mod_upper_bound (shift + length raw + 2) 3 ltac:(lia)). lia. }
    split; (split; [|]).
    - exact Hne.
    - eapply Forall_impl; [exact Hch|]. intros c Hc. cbv beta in *. tauto.
    - unfold std_to_url. intros E. by apply map_eq_nil in E.
    - unfold std_to_url. apply Forall_map. eapply Forall_impl; [exact Hch|]. intros c Hc. apply std_to_url_char in Hc. cbv beta. tauto. }
  cbn [fold_left]. repeat (apply Hadd); try apply Hcore; try lia. constructor.
Qed.

Lemma char_pattern_solid c : Forall (fun a => a <> []) (char_pattern c) /\ char_pattern c <> [].
Proof.
  assert (Hne : literal (utf8_char c) <> []).
  { unfold literal. intros E%map_eq_nil. by apply (utf8_char_nonempty c). }
  assert (Hp : flat_map (fun b => [37] :: hex_class b 2) (utf8_char c) <> []).
  { pose proof (utf8_char_nonempty c). by destruct (utf8_char c). }
  assert (Hu : flat_map (fun u => [92] :: [117] :: hex_class u 4) (encode_utf16 c) <> []) by (unfold encode_utf16; by case_goal).
  unfold char_pattern. cbv zeta. destruct (_ && _); [by rewrite !Forall_cons|]. split; [|done].
  cbn [app]. rewrite !Forall_cons, !Forall_app. split_and!; try assumption.
  all: try (destruct (c =? 32); by repeat constructor).
  all: try (by repeat constructor).
  all: repeat case_match; by repeat constructor.
Qed.

Lemma wf_pattern f : wf_forms f -> exists v, pattern f = Some (map char_pattern v) /\ solid (map char_pattern v) /\
  raw f = as_bytes v /\ Forall scalar v /\ (forall d, escaped_may_occur f d = false -> find_match (map char_pattern v) d = None).
Proof.
  intros (v & ph & nm & -> & Hne & Hv). exists v. split_and!.
  - unfold new_forms. rewrite bool_decide_eq_false_2; [reflexivity|]. intros E%map_eq_nil. done.
  - split; [by intros E%map_eq_nil|]. apply Forall_map. eapply Forall_impl; [exact Hv|]. intros c _. apply char_pattern_solid.
  - unfold new_forms. by case_bool_decide.
  - exact Hv.
  - intros d. apply (escaped_sound v ph nm d).
Qed.
Lemma wf_cores f : wf_forms f ->
  Forall (fun c => c <> [] /\ Forall (fun b => b64_std_char b = true \/ b64_url_char b = true \/ b = 61) c) (b64_cores f).
Proof.
  intros (v & ph & nm & -> & Hne & Hv). unfold new_forms. case_bool_decide; cbn [b64_cores];
    (destruct (Nat.leb_spec B64_MIN_BYTES (length (as_bytes v))); [|constructor]; apply cores_spec; [assumption|]);
    unfold as_bytes; rewrite Forall_flat_map; (eapply Forall_impl; [exact Hv|]; intros c Hc; by apply utf8_char_bytes).
Qed.

Lemma redact_derived_pass f d : wf_forms f -> redact_derived f d = redact_pass f d.
Proof.
  intros Hf. destruct (wf_pattern f Hf) as (v & Ep & Hs & _ & _ & Hgate). pose proof (wf_cores f Hf) as Hc.
  unfold redact_derived, redact_pass. rewrite Ep. cbn [default from_option]. cbv zeta.
  assert (E1 : (if escaped_may_occur f d then
                 let '(replaced, n) := regex_replace_all (map char_pattern v) (placeholder_for f) d in
                 if Nat.ltb 0 n then (replaced, true) else (d, false) else (d, false))
               = pattern_pass (map char_pattern v) (placeholder_for f) d).
  { destruct (escaped_may_occur f d) eqn:Eg; [|symmetry; apply pattern_none; [exact Hs|by apply Hgate]].
    rewrite regex_replace_law by (by apply solid_empty). pose proof (pattern_quiet (map char_pattern v) (placeholder_for f) Hs d) as Hq.
    unfold pattern_pass in *. destruct (replace_matches _ _ _ _) as [r n]. cbn [fst snd] in Hq.
    destruct (Nat.ltb 0 n) eqn:En; [reflexivity|]. by rewrite Hq. }
  rewrite E1. clear E1. unfold then_pass. destruct (pattern_pass _ _ d) as [d1 b1]. cbn [fst snd].
  clear Ep Hgate. revert d1 b1. induction Hc as [|c cs [Hne _] _ IH]; intros d1 b1; cbn [fold_left blob_passes fold_right].
  - unfold no_pass. cbn [fst snd]. by rewrite orb_false_r.
  - assert (Ec : (if contains d1 c then let '(new, n) := rewrite_base64 d1 c (raw f) (ph_raw f) in (new, b1 || Nat.ltb 0 n) else (d1, b1))
                 = ((blob_pass c (raw f) (ph_raw f) d1).1, b1 || (blob_pass c (raw f) (ph_raw f) d1).2)).
    { destruct (contains d1 c) eqn:Ec; [|rewrite blob_none by assumption; cbn [fst snd]; by rewrite orb_false_r].
      unfold blob_pass. by destruct (rewrite_base64 _ _ _ _). }
    rewrite Ec, IH. unfold then_pass. cbn [fst snd]. by rewrite orb_assoc.
Qed.

Lemma redact_pass_quiet f : wf_forms f -> quiet (redact_pass f).
Proof.
  intros Hf. destruct (wf_pattern f Hf) as (v & Ep & Hs & _). unfold redact_pass. rewrite Ep.
  apply quiet_then; [by apply pattern_quiet|]. induction (wf_cores f Hf) as [|c cs [Hne _] _ IH]; [apply quiet_none|].
  cbn [blob_passes fold_right]. apply quiet_then; [by apply blob_quiet|exact IH].
Qed.

(** What cannot occur is not found. *)
Lemma may_occur_false f d : wf_forms f -> may_occur f d = false -> redact_pass f d = (d, false).
Proof.
  intros Hf. destruct (wf_pattern f Hf) as (v & Ep & Hs & _ & _ & Hgate). unfold may_occur. rewrite Ep.
  rewrite bool_decide_eq_true_2 by eauto. cbn [andb]. intros [[_ Hesc]%orb_false_iff Hcores]%orb_false_iff.
  unfold redact_pass. rewrite Ep. cbn [default from_option]. unfold then_pass. rewrite pattern_none by (try apply Hgate; assumption).
  cbn [fst snd orb]. pose proof (wf_cores f Hf) as Hc. revert Hcores. induction Hc as [|c cs [Hne _] _ IH]; [done|]. cbn [existsb].
  intros [Hc1 Hc2]%orb_false_iff. cbn [blob_passes fold_right]. unfold then_pass. rewrite blob_none by assumption. cbn [fst snd orb]. by apply IH.
Qed.

Lemma redact_is_pass f d : wf_forms f -> redact f d = if (redact_pass f d).2 then Some (redact_pass f d).1 else None.
Proof.
  intros Hf. destruct (wf_pattern f Hf) as (v & Ep & _). unfold redact. destruct (may_occur f d) eqn:Em; cbn [negb].
  - rewrite Ep. rewrite bool_decide_eq_true_2 by eauto. cbn [negb andb]. unfold has_derived. rewrite Ep.
    rewrite bool_decide_eq_true_2 by eauto. cbn [orb]. rewrite redact_derived_pass by exact Hf. by destruct (redact_pass f d) as [x []].
  - by rewrite may_occur_false.
Qed.

(** ** Separators *)

Lemma hex_class_avoids s n w : s ∉ hex_any -> Forall (fun c => s ∉ c) (hex_class n w).
Proof.
  intros Hs. induction w as [|w IH]; cbn [hex_class]; constructor; [|exact IH].
  set (d := n / 16 ^ Z.of_nat w mod 16). assert (Hd : 0 <= d < 16) by (apply Z.mod_pos_bound; lia). clearbody d.
  assert (Hall : forall k, (48 <= k <= 57 \/ 65 <= k <= 70 \/ 97 <= k <= 102) -> s <> k).
  { intros k Hk ->. apply Hs. unfold hex_any. vm_compute lit. repeat (rewrite elem_of_cons). lia. }
  destruct (Z.ltb_spec d 10); rewrite ?not_elem_of_cons; split_and?; try apply not_elem_of_nil; apply Hall; lia.
Qed.
Lemma literal_avoids s l : s ∉ l -> Forall (fun c => s ∉ c) (literal l).
Proof.
  intros Hs. unfold literal. apply Forall_map, Forall_forall. intros b Hb ->%list_elem_of_singleton. contradiction.
Qed.
Lemma flat_map_avoids s (g : Z -> Alternative) l : (forall x, x ∈ l -> Forall (fun c => s ∉ c) (g x)) -> Forall (fun c => s ∉ c) (flat_map g l).
Proof. intros Hg. rewrite Forall_flat_map. apply Forall_forall. exact Hg. Qed.

Lemma char_pattern_avoids s c : s ∉ utf8_char c -> s ∉ escape_bytes -> Forall (Forall (fun c => s ∉ c)) (char_pattern c).
Proof.
  intros Hc He.
  assert (Hin : forall k, k ∈ escape_bytes -> s <> k) by (intros k Hk ->; contradiction).
  assert (Hhex : s ∉ hex_any).
  { intros Hs. apply He. revert Hs. unfold hex_any, escape_bytes. vm_compute lit. cbn [app]. rewrite !elem_of_cons. tauto. }
  assert (Hone : forall k, k ∈ escape_bytes -> s ∉ [k]) by (intros k Hk Hs%list_elem_of_singleton; by apply (Hin k)).
  assert (Hlit : forall l, Forall (fun k => k ∈ escape_bytes) l -> Forall (fun c => s ∉ c) (literal l)).
  { intros l Hl. apply literal_avoids. intros Hs. rewrite Forall_forall in Hl. contradiction (He (Hl s Hs)). }
  assert (Hmem : forall k, k ∈ [37; 43; 92; 117; 34; 47; 98; 102; 110; 114; 116] -> k ∈ escape_bytes).
  { intros k. unfold escape_bytes. vm_compute lit. cbn [app]. rewrite !elem_of_cons. tauto. }
  assert (Hshort : forall x y, x ∈ [37; 43; 92; 117; 34; 47; 98; 102; 110; 114; 116] -> y ∈ [37; 43; 92; 117; 34; 47; 98; 102; 110; 114; 116] ->
    Forall (Forall (fun c => s ∉ c)) [literal [x; y]]).
  { intros x y Hx Hy. constructor; [|constructor]. apply Hlit. rewrite !Forall_cons. split_and!; [by apply Hmem..|constructor]. }
  assert (Hpct : Forall (fun c => s ∉ c) (flat_map (fun b => [37] :: hex_class b 2) (utf8_char c))).
  { apply flat_map_avoids. intros b _. constructor; [apply Hone, Hmem; apply (bool_decide_unpack _); exact I|by apply hex_class_avoids]. }
  unfold char_pattern. cbv zeta. destruct (_ && _).
  { repeat constructor; [by apply literal_avoids|exact Hpct]. }
  cbn [app]. rewrite !Forall_cons, !Forall_app. split_and!.
  - by apply literal_avoids.
  - exact Hpct.
  - destruct (c =? 32); [|constructor]. constructor; [|constructor]. apply Hlit. constructor; [|constructor]. apply Hmem. apply (bool_decide_unpack _). exact I.
  - constructor; [|repeat case_match; try apply Forall_nil_2; apply Hshort; apply (bool_decide_unpack _); exact I].
    apply flat_map_avoids. intros u _.
    constructor; [apply Hone, Hmem; apply (bool_decide_unpack _); exact I|]. constructor; [apply Hone, Hmem; apply (bool_decide_unpack _); exact I|by apply hex_class_avoids].
Qed.

Lemma separator_splits fs s f : Forall wf_forms fs -> f ∈ fs -> alphabet fs s = false -> splits s (redact_pass f).
Proof.
  intros Hwf Hin Ha. rewrite Forall_forall in Hwf. pose proof (Hwf f Hin) as Hf.
  assert (Hs : (s ∉ raw f) /\ (s ∉ escape_bytes) /\ (b64_cores f <> [] -> s ∉ blob_bytes)).
  { destruct (wf_pattern f Hf) as (v & Ep & _). apply not_true_iff_false in Ha.
    split_and!; [intros Hs|intros Hs|intros Hne Hs]; apply Ha; apply existsb_elem; exists f; (split; [exact Hin|]).
    - by rewrite bool_decide_eq_true_2.
    - rewrite (bool_decide_eq_true_2 (is_Some _)) by (rewrite Ep; eauto). rewrite (bool_decide_eq_true_2 (s ∈ escape_bytes)) by exact Hs.
      by rewrite orb_true_r.
    - rewrite (bool_decide_eq_false_2 _ Hne), (bool_decide_eq_true_2 (s ∈ blob_bytes)) by exact Hs. by rewrite orb_true_r. }
  destruct Hs as (Hraw & Hesc & Hblob). unfold redact_pass. destruct (wf_pattern f Hf) as (v & Ep & Hsol & Er & _). rewrite Ep.
  apply splits_then.
  - apply pattern_splits; [exact Hsol|]. cbn [default from_option]. unfold avoids. apply Forall_map, Forall_forall. intros c Hc. unfold compose.
    apply char_pattern_avoids; [|exact Hesc]. intros Hs. apply Hraw. rewrite Er. unfold as_bytes. apply list_elem_of_In, in_flat_map.
    exists c. by rewrite <- !list_elem_of_In.
  - pose proof (wf_cores f Hf) as Hc. clear Ep Hsol Er. destruct (b64_cores f) as [|c0 cs0] eqn:Eb; [apply splits_none|]. rewrite <- Eb in *.
    assert (Hne : b64_cores f <> []) by (by rewrite Eb). specialize (Hblob Hne). clear Eb Hne.
    assert (Hoff : off_b64 s /\ s <> 61).
    { assert (Hb : forall k, b64_std_char k = true \/ b64_url_char k = true \/ k = 61 -> k ∈ blob_bytes).
      { intros k Hk. unfold b64_std_char, b64_url_char, is_ascii_alphanumeric, is_ascii_alphabetic, is_ascii_lowercase, is_ascii_uppercase, is_ascii_digit, in_range in Hk.
        unfold blob_bytes. vm_compute lit. repeat (rewrite elem_of_cons). lia. }
      unfold off_b64. split_and!; try (apply not_true_iff_false); intros Hk; apply Hblob, Hb; tauto. }
    induction Hc as [|c cs [Hne Hch] _ IH]; [apply splits_none|]. cbn [blob_passes fold_right]. apply splits_then; [|exact IH].
    apply blob_splits; [exact Hne|apply Hoff|]. intros Hs. rewrite Forall_forall in Hch. specialize (Hch s Hs).
    destruct Hoff as [(? & ? & ?) _]. destruct Hch as [?|[?|?]]; congruence.
Qed.

(** ** All the forms in turn *)

Fixpoint body_pass (fs : list SecretForms) (d : bytes) : bytes * list bool :=
  match fs with
  | [] => (d, [])
  | f :: fs => ((body_pass fs (redact_pass f d).1).1, (redact_pass f d).2 :: (body_pass fs (redact_pass f d).1).2)
  end.
Abbreviation orbs := (zip_with orb).

Lemma redact_pass_empty f : wf_forms f -> redact_pass f [] = ([], false).
Proof.
  intros Hf. destruct (wf_pattern f Hf) as (v & Ep & Hs & _). unfold redact_pass. rewrite Ep. cbn [default from_option]. cbv zeta.
  unfold then_pass. rewrite pattern_none; [|exact Hs|cbn [find_match]; by rewrite solid_empty]. cbn [fst snd orb].
  induction (wf_cores f Hf) as [|c cs [Hne _] _ IH]; [reflexivity|]. cbn [blob_passes fold_right]. unfold then_pass.
  rewrite blob_none; [exact IH|exact Hne|]. unfold contains. rewrite memmem_find_law. cbn [find_sub]. by rewrite starts_with_short.
Qed.
Lemma redact_pass_redact f d : wf_forms f ->
  redact f d = if (redact_pass f d).2 then Some (redact_pass f d).1 else None.
Proof. apply redact_is_pass. Qed.

Lemma redact_body_pass fs d : Forall wf_forms fs -> redact_body fs d = body_pass fs d.
Proof.
  intros Hfs. revert d. induction Hfs as [|f fs Hf _ IH]; intros d; [reflexivity|]. cbn [redact_body body_pass].
  assert (Er : (if bool_decide (d = []) then None else redact f d) = if (redact_pass f d).2 then Some (redact_pass f d).1 else None).
  { case_bool_decide as E; [subst; by rewrite redact_pass_empty|by apply redact_is_pass]. }
  rewrite Er. pose proof (redact_pass_quiet f Hf d) as Hq. destruct (redact_pass f d) as [x []]; cbn [fst snd] in *.
  - rewrite IH. by destruct (body_pass fs x).
  - rewrite Hq by reflexivity. rewrite IH. by destruct (body_pass fs d).
Qed.
Lemma segment_loop_pass fs bs d : Forall wf_forms fs -> length bs = length fs ->
  segment_loop fs bs d = ((body_pass fs d).1, orbs bs (body_pass fs d).2).
Proof.
  intros Hfs. revert bs d. induction Hfs as [|f fs Hf _ IH]; intros [|b bs] d Hl; try discriminate; [reflexivity|].
  injection Hl as Hl. cbn [segment_loop body_pass fst snd zip_with]. rewrite redact_is_pass by exact Hf.
  pose proof (redact_pass_quiet f Hf d) as Hq. destruct (redact_pass f d) as [x []]; cbn [fst snd] in *.
  - rewrite IH by exact Hl. by rewrite orb_true_r.
  - rewrite Hq by reflexivity. rewrite IH by exact Hl. by rewrite orb_false_r.
Qed.
Lemma body_pass_length fs d : length (body_pass fs d).2 = length fs.
Proof. revert d. induction fs as [|f fs IH]; intros d; [reflexivity|]. cbn [body_pass snd length]. by rewrite IH. Qed.

Lemma body_pass_split fs0 fs s A B : Forall wf_forms fs0 -> (forall f, f ∈ fs -> f ∈ fs0) -> alphabet fs0 s = false ->
  body_pass fs (A ++ s :: B) = ((body_pass fs A).1 ++ s :: (body_pass fs B).1, orbs (body_pass fs A).2 (body_pass fs B).2).
Proof.
  intros Hwf Hsub Ha. revert A B. induction fs as [|f fs IH]; intros A B; [reflexivity|].
  destruct (separator_splits fs0 s f Hwf (Hsub f (list_elem_of_here _ _)) Ha) as [_ Hsp].
  cbn [body_pass]. rewrite Hsp. cbn [fst snd]. rewrite IH by (intros g Hg; apply Hsub; by right). reflexivity.
Qed.
Lemma body_pass_none fs d : Forall wf_forms fs -> (forall f, f ∈ fs -> may_occur f d = false) ->
  body_pass fs d = (d, repeat false (length fs)).
Proof.
  intros Hwf. induction Hwf as [|f fs Hf _ IH]; intros Hm; [reflexivity|]. cbn [body_pass length repeat].
  rewrite may_occur_false by (assumption || (apply Hm; by left)). cbn [fst snd]. rewrite IH; [reflexivity|].
  intros g Hg. apply Hm. by right.
Qed.
Lemma body_pass_empty fs : Forall wf_forms fs -> body_pass fs [] = ([], repeat false (length fs)).
Proof.
  induction 1 as [|f fs Hf _ IH]; [reflexivity|]. cbn [body_pass]. rewrite redact_pass_empty by exact Hf. cbn [fst snd length repeat]. by rewrite IH.
Qed.
Lemma orbs_false_l bs n : length bs = n -> orbs (repeat false n) bs = bs.
Proof. intros <-. induction bs as [|b bs IH]; [reflexivity|]. cbn. by rewrite IH. Qed.
Lemma orbs_false_r bs n : length bs = n -> orbs bs (repeat false n) = bs.
Proof. intros <-. induction bs as [|b bs IH]; [reflexivity|]. cbn. by rewrite orb_false_r, IH. Qed.
Lemma orbs_assoc a b c : orbs (orbs a b) c = orbs a (orbs b c).
Proof. revert b c. induction a as [|x a IH]; intros [|y b] [|z c]; try reflexivity. cbn. by rewrite orb_assoc, IH. Qed.

(** The scan fires wherever a form can occur. *)
Lemma triggers_sound fs is_match d : Forall wf_forms fs -> triggers fs = Some is_match -> is_match d = false ->
  forall f, f ∈ fs -> may_occur f d = false.
Proof.
  intros Hwf. unfold triggers. destruct (needles fs) as [l|] eqn:El; [|discriminate]. intros Hac Hd f Hf.
  rewrite (aho_corasick_law _ _ _ Hac) in Hd. rewrite existsb_app in Hd. apply orb_false_iff in Hd as [Hd Hpct].
  assert (Hno : forall n, n ∈ l -> contains d n = false).
  { intros n Hn. apply not_true_iff_false. intros Hc. apply not_true_iff_false in Hd. apply Hd, existsb_elem. exists n.
    split; [exact Hn|]. unfold contains in Hc. by rewrite memmem_find_law in Hc. }
  assert (Hsub : raw f ∈ l /\ (forall c, c ∈ b64_cores f -> c ∈ l) /\ (pattern f <> None -> exists a, anchor f = Some a /\ a ∈ l)).
  { clear Hac Hd Hpct Hno. revert l El. induction fs as [|g fs IH]; [by apply not_elem_of_nil in Hf|]. intros l. cbn [needles].
    destruct (match pattern g with None => Some [] | Some _ => _ end) as [own|] eqn:Eo; [|discriminate].
    destruct (needles fs) as [rest|] eqn:Er; [|discriminate]. intros [= <-]. apply Forall_cons in Hwf as [_ Hwf].
    apply elem_of_cons in Hf as [->|Hf].
    - split; [by left|]. split; [intros c Hc; right; apply elem_of_app; right; apply elem_of_app; by left|].
      intros Hp. destruct (pattern g); [|done]. destruct (anchor g) as [a|]; [|discriminate]. injection Eo as <-.
      exists a. split; [reflexivity|]. right. apply elem_of_app. left. by left.
    - destruct (IH Hwf Hf rest eq_refl) as (H1 & H2 & H3).
      assert (Hin : forall x, x ∈ rest -> x ∈ raw g :: own ++ b64_cores g ++ rest).
      { intros x Hx. right. apply elem_of_app. right. apply elem_of_app. by right. }
      split; [by apply Hin|]. split; [intros c Hc; by apply Hin, H2|]. intros Hp. destruct (H3 Hp) as (a & Ea & Ha). exists a. auto. }
  destruct Hsub as (H1 & H2 & H3). rewrite Forall_forall in Hwf. destruct (wf_pattern f (Hwf f Hf)) as (v & Ep & _).
  unfold may_occur. rewrite (Hno _ H1). cbn [orb]. apply orb_false_iff. split.
  - rewrite Ep, bool_decide_eq_true_2 by eauto. cbn [andb]. unfold escaped_may_occur. destruct H3 as (a & -> & Ha); [by rewrite Ep|].
    rewrite (Hno a Ha). cbn [orb].
    assert (Hany : existsb (fun f => bool_decide (is_Some (pattern f))) fs = true).
    { apply existsb_elem. exists f. split; [exact Hf|]. rewrite Ep. apply bool_decide_eq_true_2. eauto. }
    rewrite Hany in Hpct. cbn [existsb] in Hpct. rewrite orb_false_r in Hpct. unfold contains. by rewrite memmem_find_law.
  - apply existsb_false_Forall, Forall_forall. intros c Hc. by apply Hno, H2.
Qed.

(** ** Where a chunk is cut *)

Lemma first_position_spec f l : match position f l with
  | Some i => exists a s b, l = a ++ s :: b /\ length a = i /\ f s = true /\ Forall (fun x => f x = false) a
  | None => Forall (fun x => f x = false) l
  end.
Proof.
  induction l as [|x l IH]; cbn [position]; [constructor|]. destruct (f x) eqn:Ex.
  - exists [], x, l. by repeat split.
  - destruct (position f l) as [i|]; cbn [fmap option_fmap option_map].
    + destruct IH as (a & s & b & -> & <- & Hs & Ha). exists (x :: a), s, b. split_and!; try done. constructor; assumption.
    + constructor; assumption.
Qed.
Lemma rposition_spec f l : match rposition f l with
  | Some i => exists a s b, l = a ++ s :: b /\ length a = i /\ f s = true /\ Forall (fun x => f x = false) b
  | None => Forall (fun x => f x = false) l
  end.
Proof.
  unfold rposition. pose proof (first_position_spec f (rev l)) as Hp. destruct (position f (rev l)) as [i|].
  - destruct Hp as (a & s & b & E & <- & Hs & Ha). apply (f_equal (@rev Z)) in E. rewrite rev_involutive, rev_app_distr in E. cbn [rev] in E.
    rewrite <- app_assoc in E. exists (rev b), s, (rev a). split_and!; [exact E| |exact Hs|by apply Forall_rev].
    apply (f_equal length) in E. rewrite length_app in E. cbn [app length] in E. rewrite !length_rev in *. lia.
  - apply Forall_rev in Hp. by rewrite rev_involutive in Hp.
Qed.

(** A released prefix ends at a separator. *)
Definition cut (fs : list SecretForms) (d : bytes) : Prop := d = [] \/ exists a s, d = a ++ [s] /\ alphabet fs s = false.

Lemma body_pass_cut fs d x : Forall wf_forms fs -> cut fs d ->
  body_pass fs (d ++ x) = ((body_pass fs d).1 ++ (body_pass fs x).1, orbs (body_pass fs d).2 (body_pass fs x).2).
Proof.
  intros Hwf [->|(a & s & -> & Hs)].
  - rewrite body_pass_empty by exact Hwf. cbn [app fst snd]. rewrite orbs_false_l by apply body_pass_length. by destruct (body_pass fs x).
  - rewrite <- app_assoc. cbn [app]. rewrite !(body_pass_split fs fs s) by (assumption || auto). cbn [fst snd].
    rewrite body_pass_empty by exact Hwf. cbn [fst snd]. rewrite orbs_false_r by apply body_pass_length. by rewrite <- app_assoc.
Qed.

(** ** The redactor's invariant *)

Section Run.
Variable fs : list SecretForms.
Hypothesis Hwf : Forall wf_forms fs.

Record sound (n : Z) (st : StreamRedactor) : Prop := {
  sound_forms : forms st = fs;
  sound_separator : forall b, separator st b = negb (alphabet fs b);
  sound_scan : scan st = triggers fs;
  sound_bound : max_hold st = n
}.
(** [d] is what was released, [out] what was relayed for it. *)
Record relays (d : bytes) (st : StreamRedactor) (out : list bytes) : Prop := {
  relays_out : concat out = (body_pass fs d).1;
  relays_found : found st = (body_pass fs d).2
}.
Definition unbroken (d : bytes) : Prop := Forall (fun b => alphabet fs b = true) d.

Lemma segment_spec n st d out data : sound n st -> cut fs d -> relays d st out ->
  exists st' new, segment st data = (st', new) /\ sound n st' /\ held st' = held st /\ relays (d ++ data) st' (out ++ new).
Proof.
  intros [E1 E2 E3 E4] Hcut [Ro Rf]. pose proof (body_pass_cut fs d data Hwf Hcut) as Hb.
  assert (Hid : forall new, concat new = data -> body_pass fs data = (data, repeat false (length fs)) ->
    relays (d ++ data) st (out ++ new)).
  { intros new En Ed. split; rewrite Hb, Ed; cbn [fst snd]; [by rewrite concat_app, Ro, En|].
    by rewrite orbs_false_r by apply body_pass_length. }
  unfold segment. case_bool_decide as Ee.
  { exists st, []. split_and!; [done|by split|done|]. apply Hid; [by rewrite Ee|]. rewrite Ee. by apply body_pass_empty. }
  destruct (match scan st with Some _ => _ | None => _ end) eqn:Es.
  { exists st, [data]. split_and!; [done|by split|done|]. apply Hid; [cbn [concat]; by rewrite app_nil_r|].
    apply body_pass_none; [exact Hwf|]. rewrite E3 in Es. destruct (triggers fs) as [m|] eqn:Et; [|discriminate].
    apply (triggers_sound fs m data Hwf Et). by apply negb_true_iff. }
  rewrite E1, Rf, segment_loop_pass by (exact Hwf || apply body_pass_length).
  eexists _, _. split; [reflexivity|]. split; [by split|]. split; [reflexivity|].
  split; rewrite Hb; cbn [fst snd found set_found]; [|done]. by rewrite concat_app, Ro; cbn [concat]; rewrite app_nil_r.
Qed.

Lemma sound_set_held n st h : sound n st -> sound n (set_held st h).
Proof. intros [? ? ? ?]. by split. Qed.
Lemma relays_set_held d st out h : relays d st out -> relays d (set_held st h) out.
Proof. intros [? ?]. by split. Qed.

Lemma not_separator n st l : sound n st -> Forall (fun x => separator st x = false) l -> unbroken l.
Proof. intros Hs Hl. eapply Forall_impl; [exact Hl|]. intros x. cbv beta. rewrite (sound_separator n st Hs). by destruct (alphabet fs x). Qed.

(** One chunk. *)
Lemma push_spec n st d out chunk : sound n st -> cut fs d -> relays d st out -> unbroken (held st) ->
  match push st chunk with
  | Ok (st', new) => sound n st' /\ unbroken (held st') /\
      exists d', cut fs d' /\ relays d' st' (out ++ new) /\ d' ++ held st' = d ++ held st ++ chunk
  | Err _ => unbroken (held st ++ chunk) /\ n < Z.of_nat (length (held st ++ chunk))
  end.
Proof.
  intros Hs Hcut Hr Hh. unfold push. case_bool_decide as Ec.
  { subst chunk. rewrite app_nil_r. split_and!; try assumption. exists d. rewrite app_nil_r. by split_and!. }
  pose proof (rposition_spec (separator st) chunk) as Hlast. destruct (rposition (separator st) chunk) as [i|].
  2:{ apply (not_separator n) in Hlast; [|exact Hs]. rewrite (sound_bound n st Hs). rewrite length_app, Nat2Z.inj_add.
      assert (Hu : unbroken (held st ++ chunk)) by (apply Forall_app; by split).
      destruct (Z.ltb_spec n (Z.of_nat (length (held st)) + Z.of_nat (length chunk))) as [Hlt|Hge]; [by split|].
      split; [by apply sound_set_held|]. split; [exact Hu|]. exists d. rewrite app_nil_r. split_and!; [exact Hcut|by apply relays_set_held|done]. }
  destruct Hlast as (a & s & b & E & <- & Hsep & Hb). apply (not_separator n) in Hb; [|exact Hs].
  assert (Hs0 : alphabet fs s = false) by (rewrite (sound_separator n st Hs) in Hsep; by destruct (alphabet fs s)).
  assert (Et : forall l, take (length a + 1) (a ++ s :: l) = a ++ [s] /\ drop (length a + 1) (a ++ s :: l) = l).
  { intros l. rewrite take_app_add', drop_app_add' by reflexivity. done. }
  case_bool_decide as Eh.
  - destruct (segment_spec n st d out (take (length a + 1) chunk) Hs Hcut Hr) as (st' & new & -> & Hs' & _ & Hr').
    rewrite E in *. rewrite (proj1 (Et b)) in Hr'. rewrite (proj2 (Et b)).
    split; [by apply sound_set_held|]. split; [exact Hb|]. exists (d ++ a ++ [s]). split_and!.
    + right. exists (d ++ a), s. by rewrite app_assoc.
    + by apply relays_set_held.
    + rewrite Eh. cbn [held set_held app]. rewrite <- !app_assoc. reflexivity.
  - pose proof (first_position_spec (separator st) chunk) as Hfirst. destruct (position (separator st) chunk) as [j|].
    2:{ exfalso. rewrite E in Hfirst. apply Forall_app in Hfirst as [_ Hfirst]. apply Forall_cons in Hfirst as [Hfirst _]. cbv beta in Hfirst. congruence. }
    destruct Hfirst as (a1 & s1 & b1 & E1 & <- & Hsep1 & Ha1). cbn [default from_option]. cbv zeta.
    assert (Hs1 : alphabet fs s1 = false) by (rewrite (sound_separator n st Hs) in Hsep1; by destruct (alphabet fs s1)).
    assert (Hle : (length a1 <= length a)%nat).
    { destruct (Nat.le_gt_cases (length a1) (length a)) as [|Hgt]; [assumption|]. exfalso.
      assert (Hin : a1 !! length a = Some s).
      { rewrite <- (lookup_app_l a1 (s1 :: b1)) by exact Hgt. rewrite <- E1, E. by rewrite list_lookup_middle. }
      rewrite Forall_forall in Ha1. specialize (Ha1 s (list_elem_of_lookup_2 _ _ _ Hin)). cbv beta in Ha1. congruence. }
    assert (Eh1 : take (length a1 + 1) chunk = a1 ++ [s1] /\ drop (length a1 + 1) chunk = b1).
    { rewrite E1. rewrite take_app_add', drop_app_add' by reflexivity. done. }
    change (id (length a1)) with (length a1). destruct Eh1 as [-> Er].
    destruct (segment_spec n (set_held st []) d out (held st ++ a1 ++ [s1]) (sound_set_held _ _ _ Hs) Hcut (relays_set_held _ _ _ _ Hr))
      as (st1 & new1 & -> & Hs1' & _ & Hr1).
    assert (Hcut1 : cut fs (d ++ held st ++ a1 ++ [s1])).
    { right. exists (d ++ held st ++ a1), s1. by rewrite <- !app_assoc. }
    destruct (segment_spec n st1 _ _ (take (length a - length a1) (drop (length a1 + 1) chunk)) Hs1' Hcut1 Hr1) as (st2 & new2 & -> & Hs2 & _ & Hr2).
    rewrite drop_drop. replace (length a1 + 1 + (length a - length a1))%nat with (length a + 1)%nat by lia.
    assert (Ej : a1 ++ [s1] ++ take (length a - length a1) (drop (length a1 + 1) chunk) = a ++ [s]).
    { rewrite <- (proj1 (Et b)), <- E, Er. rewrite E1. replace (length a + 1)%nat with (length a1 + S (length a - length a1))%nat by lia.
      by rewrite take_app_add' by reflexivity. }
    rewrite <- !app_assoc in Hr2. rewrite Ej in Hr2.
    rewrite E, (proj2 (Et b)).
    split; [by apply sound_set_held|]. split; [exact Hb|]. exists (d ++ held st ++ a ++ [s]). split_and!.
    + right. exists (d ++ held st ++ a), s. by rewrite <- !app_assoc.
    + by apply relays_set_held.
    + cbn [held set_held]. by rewrite <- !app_assoc.
Qed.

Lemma push_all_spec n chunks : forall st d out, sound n st -> cut fs d -> relays d st out -> unbroken (held st) ->
  match push_all st chunks with
  | Ok (st', new) => sound n st' /\ unbroken (held st') /\
      exists d', cut fs d' /\ relays d' st' (out ++ new) /\ d' ++ held st' = d ++ held st ++ concat chunks
  | Err _ => exists before run after, d ++ held st ++ concat chunks = before ++ run ++ after /\ unbroken run /\ n < Z.of_nat (length run)
  end.
Proof.
  induction chunks as [|chunk chunks IH]; intros st d out Hs Hcut Hr Hh; cbn [push_all concat].
  { split_and!; try assumption. exists d. rewrite !app_nil_r. by split_and!. }
  pose proof (push_spec n st d out chunk Hs Hcut Hr Hh) as Hp. destruct (push st chunk) as [[st1 new1]|e]; cbn [result_bind].
  - destruct Hp as (Hs1 & Hh1 & d1 & Hcut1 & Hr1 & E1). specialize (IH st1 d1 _ Hs1 Hcut1 Hr1 Hh1).
    destruct (push_all st1 chunks) as [[st2 new2]|e]; cbn [result_bind].
    + destruct IH as (Hs2 & Hh2 & d2 & Hcut2 & Hr2 & E2). split_and!; try assumption. exists d2.
      rewrite app_assoc. split_and!; try assumption. rewrite E2, app_assoc, E1, <- !app_assoc. reflexivity.
    + destruct IH as (A & w & B & E2 & Hw). exists A, w, B. split; [|exact Hw]. rewrite <- E2, (app_assoc d1), E1, <- !app_assoc. reflexivity.
  - destruct Hp as [Hu Hn]. exists d, (held st ++ chunk), (concat chunks). by rewrite <- app_assoc.
Qed.
End Run.

Lemma stream_run fs n chunks : Forall wf_forms fs ->
  match push_all (with_max_hold (new_stream fs) n) chunks with
  | Ok (st, out) =>
      let '(st', last) := finish st in
      concat (out ++ last) = (redact_body fs (concat chunks)).1 /\ found st' = (redact_body fs (concat chunks)).2 /\ forms st' = fs
      /\ held st' = [] /\ unbroken fs (held st)
      /\ exists released, concat chunks = released ++ held st /\ concat out = (redact_body fs released).1
  | Err _ => exists before run after, concat chunks = before ++ run ++ after /\ unbroken fs run /\ n < Z.of_nat (length run)
  end.
Proof.
  intros Hwf. set (st0 := with_max_hold (new_stream fs) n).
  assert (Hr0 : relays fs [] st0 []) by (split; rewrite body_pass_empty by exact Hwf; reflexivity).
  pose proof (push_all_spec fs Hwf n chunks st0 [] [] ltac:(by split) ltac:(by left) Hr0 ltac:(constructor)) as Hp.
  destruct (push_all st0 chunks) as [[st out]|[]]; [|exact Hp]. destruct Hp as (Hs & Hh & d & Hcut & Hr & E). unfold finish.
  destruct (segment_spec fs Hwf n (set_held st []) d out (held st) (sound_set_held _ _ _ _ Hs) Hcut (relays_set_held _ _ _ _ _ Hr))
    as (st' & last & -> & Hs' & Eh & [Ho Hf]).
  cbn [app held st0 new_stream with_max_hold] in E. rewrite E in Ho, Hf. rewrite !redact_body_pass by exact Hwf. split_and!; try assumption; try done.
  - apply (sound_forms _ _ _ Hs').
  - exists d. rewrite redact_body_pass by exact Hwf. split; [done|]. apply Hr.
Qed.

(** C11: Relaying a body chunk by chunk redacts exactly what redacting the whole
    body does: however it is chunked, the pieces relayed concatenate to the
    buffered redaction and the same rules are reported; at every point what is
    held back holds no separator and what was relayed is the redaction of the
    rest; and the exchange is aborted only when the body has a run of bytes
    without a separator longer than the bound. *)
Theorem stream_is_buffered fs n chunks : Forall wf_forms fs ->
  match push_all (with_max_hold (new_stream fs) n) chunks with
  | Ok (st, out) =>
      let '(st', last) := finish st in
      concat (out ++ last) = (redact_body fs (concat chunks)).1
      /\ found st' = (redact_body fs (concat chunks)).2 /\ held st' = []
      /\ Forall (fun b => alphabet fs b = true) (held st)
      /\ exists released, concat chunks = released ++ held st /\ concat out = (redact_body fs released).1
  | Err UnboundedRun => exists before run after, concat chunks = before ++ run ++ after
      /\ Forall (fun b => alphabet fs b = true) run /\ n < Z.of_nat (length run)
  end.
Proof.
  intros Hwf. pose proof (stream_run fs n chunks Hwf) as Hr. destruct (push_all _ _) as [[st out]|[]]; [|exact Hr].
  destruct (finish st) as [st' last]. tauto.
Qed.
End Theorems.

(** ** A concrete stream *)

Definition sample_forms `{Crates} `{F64Text} : list SecretForms :=
  [new_forms (lit "hunter-2.password") (lit "{{TOKEN}}") (lit "TOKEN"); new_forms (lit "a b") (lit "<X>") (lit "X")].

Lemma sample_forms_wf `{Crates} `{F64Text} : Forall wf_forms sample_forms.
Proof.
  repeat (apply Forall_cons; split); [..|constructor]; eexists _, _, _; (split; [reflexivity|]); (split; [discriminate|]);
    vm_compute lit; repeat constructor; lia.
Qed.

(** The second value ends in the third chunk; nothing of it is relayed before. *)
Lemma stream_is_buffered_witness :
  let C := model_crates in let F := sample_f64 in
  let chunks := [lit "one~a+"; lit "b~two hunter-2."; lit "password"] in
  match push_all (with_max_hold (new_stream sample_forms) 40) chunks with
  | Ok (st, out) => concat out = lit "one~%3CX%3E~" /\ concat (out ++ (finish st).2) = (redact_body sample_forms (concat chunks)).1
                    /\ (redact_body sample_forms (concat chunks)).1 = lit "one~%3CX%3E~two {{TOKEN}}"
  | Err _ => False
  end.
Proof.
  intros C F chunks. pose proof (@stream_is_buffered C model_crates_laws F sample_forms 40 chunks sample_forms_wf) as Hs.
  revert Hs. subst chunks. destruct (push_all _ _) as [[st out]|] eqn:E; [|].
  - vm_compute in E. injection E as <- <-. intros (Hs & _). split; [by vm_compute|]. split; [exact Hs|]. by vm_compute.
  - vm_compute in E. discriminate.
Defined.
