(* ===== verification/Base64Rewrite.v ===== *)
(** Base64 blobs: the strict decoder reads back every encoding, in either
    alphabet, and a blob whose payload holds a secret is rewritten to the blob of
    the redacted payload (the base64 half of [agentcage-egress/src/inject.rs]). *)
From S2P Require Import Prelude Utf8 Json Forms FormsSplit StreamRedact.
From Stdlib Require Import ZifyBool.

Lemma replicate_rev_eq {A} (a : A) n : rev (repeat a n) = repeat a n.
Proof.
  induction n as [|n IH]; [reflexivity|]. cbn [repeat rev]. rewrite IH. clear. induction n as [|n IH]; [reflexivity|]. cbn [repeat app]. by rewrite IH.
Qed.

Lemma repeat_lookup {A} (a : A) n i : (i < n)%nat -> repeat a n !! i = Some a.
Proof. revert i. induction n as [|n IH]; intros [|i] Hi; try lia; [reflexivity|]. apply IH. lia. Qed.
Lemma Forall_repeat {A} (P : A -> Prop) a n : P a -> Forall P (repeat a n).
Proof. intros Ha. induction n; constructor; assumption. Qed.

Section Base64.
Context `{C : Crates} {CL : CratesLaws C} `{F64Text}.

Definition octets (d : bytes) : Prop := Forall (fun b => 0 <= b < 256) d.

(** ** The decoder *)

Lemma b64_value_char n : 0 <= n < 64 -> b64_value (b64_char n) = Some n.
Proof. intros Hn. unfold b64_value, b64_char, in_range. repeat case_goal; try lia; f_equal; lia. Qed.

Lemma lor_sextet acc v : 0 <= acc -> 0 <= v < 64 -> Z.lor (Z.shiftl acc 6) v = acc * 64 + v.
Proof.
  intros _ Hv. by rewrite (lor_shiftl_add acc v 6) by lia.
Qed.

(** One sextet that completes a byte, and one that does not. *)
Lemma b64_loop_byte n rest acc bits out : 0 <= n < 64 -> 0 <= acc -> 2 <= bits -> 
  b64_loop (b64_char n :: rest) acc bits out =
  b64_loop rest ((acc * 64 + n) mod 2 ^ (bits - 2)) (bits - 2) (out ++ [(acc * 64 + n) / 2 ^ (bits - 2) mod 256]).
Proof.
  intros Hn Ha Hb. cbn [b64_loop]. rewrite b64_value_char by exact Hn. cbn [mbind option_bind]. rewrite lor_sextet by assumption.
  destruct (Z.leb_spec 8 (bits + 6)); [|lia]. replace (bits + 6 - 8) with (bits - 2) by lia.
  rewrite Z.shiftr_div_pow2 by lia. rewrite Z.sub_1_r, <- Z.ones_equiv, Z.land_ones by lia. reflexivity.
Qed.
Lemma b64_loop_first n rest acc out : 0 <= n < 64 -> 0 <= acc ->
  b64_loop (b64_char n :: rest) acc 0 out = b64_loop rest (acc * 64 + n) 6 out.
Proof. intros Hn Ha. cbn [b64_loop]. rewrite b64_value_char by exact Hn. cbn [mbind option_bind]. by rewrite lor_sextet. Qed.

(** An encoding is its sextets followed by its padding. *)
Definition encodes (x body : bytes) (pads : nat) : Prop :=
  rfc4648 x = body ++ repeat 61 pads /\ Forall (fun c => b64_std_char c = true) body
  /\ (length body mod 4 = 0 /\ pads = 0 \/ length body mod 4 = 2 /\ pads = 2 \/ length body mod 4 = 3 /\ pads = 1)%nat
  /\ (pads = 0 <-> length x mod 3 = 0)%nat
  /\ forall out, b64_loop body 0 0 out = Some (out ++ x).

Lemma rfc4648_encodes x : octets x -> exists body pads, encodes x body pads.
Proof.
  enough (Hs : forall n x, (length x <= n)%nat -> octets x -> exists body pads, encodes x body pads) by (by apply (Hs (length x))).
  clear x. intros n. induction n as [|n IH]; intros x Hn Hx.
  { destruct x; [|simpl in Hn; lia]. exists [], 0%nat. split_and!; try done; [by left|]. intros out. cbn. by rewrite app_nil_r. }
  destruct x as [|a [|b [|c r]]].
  - exists [], 0%nat. split_and!; try done; [by left|]. intros out. cbn. by rewrite app_nil_r.
  - apply Forall_cons in Hx as [Ha _]. cbn beta in *.
    exists [b64_char (a / 4); b64_char (a mod 4 * 16)], 2%nat. split_and!; try done.
    + repeat constructor; apply b64_char_std; Z.to_euclidean_division_equations; lia.
    + right. left. done.
    + intros out. rewrite b64_loop_first by (try lia; Z.to_euclidean_division_equations; lia).
      rewrite b64_loop_byte by (try lia; Z.to_euclidean_division_equations; lia). cbn [b64_loop]. do 3 f_equal.
      change (2 ^ (6 - 2)) with 16. Z.to_euclidean_division_equations; lia.
  - apply Forall_cons in Hx as [Ha Hx]. apply Forall_cons in Hx as [Hb _]. cbn beta in *.
    exists [b64_char (a / 4); b64_char (a mod 4 * 16 + b / 16); b64_char (b mod 16 * 4)], 1%nat. split_and!; try done.
    + repeat constructor; apply b64_char_std; Z.to_euclidean_division_equations; lia.
    + right. right. done.
    + intros out. rewrite b64_loop_first by (try lia; Z.to_euclidean_division_equations; lia).
      rewrite !b64_loop_byte by (try lia; Z.to_euclidean_division_equations; lia). cbn [b64_loop].
      change (2 ^ (6 - 2)) with 16. change (2 ^ (6 - 2 - 2)) with 4. rewrite <- app_assoc. do 2 f_equal. cbn [app].
      f_equal; [|f_equal]; Z.to_euclidean_division_equations; lia.
  - apply Forall_cons in Hx as [Ha Hx]. apply Forall_cons in Hx as [Hb Hx]. apply Forall_cons in Hx as [Hc Hx]. cbn beta in *.
    destruct (IH r ltac:(simpl in Hn; lia) Hx) as (body & pads & Er & Hch & Hm & Hp & Hl).
    exists ([b64_char (a / 4); b64_char (a mod 4 * 16 + b / 16); b64_char (b mod 16 * 4 + c / 64); b64_char (c mod 64)] ++ body), pads.
    split_and!.
    + cbn [rfc4648]. by rewrite Er, <- app_assoc.
    + apply Forall_app. split; [|exact Hch]. repeat constructor; apply b64_char_std; Z.to_euclidean_division_equations; lia.
    + cbn [app length]. replace (S (S (S (S (length body))))) with (length body + 1 * 4)%nat by lia. by rewrite Nat.Div0.mod_add.
    + cbn [length]. replace (S (S (S (length r)))) with (length r + 1 * 3)%nat by lia. by rewrite Nat.Div0.mod_add.
    + intros out. cbn [app]. rewrite b64_loop_first by (try lia; Z.to_euclidean_division_equations; lia).
      rewrite !b64_loop_byte by (try lia; Z.to_euclidean_division_equations; lia).
      change (2 ^ (6 - 2)) with 16. change (2 ^ (6 - 2 - 2)) with 4. change (6 - 2 - 2 - 2) with 0. change (2 ^ 0) with 1.
      rewrite Z.mod_1_r, Hl, <- !app_assoc. do 2 f_equal. cbn [app].
      f_equal; [|f_equal; [|f_equal]]; Z.to_euclidean_division_equations; lia.
Qed.

Lemma pads_of (body : bytes) pads : (length body mod 4 = 0 /\ pads = 0 \/ length body mod 4 = 2 /\ pads = 2 \/ length body mod 4 = 3 /\ pads = 1)%nat ->
  pads = ((4 - length body mod 4) mod 4)%nat /\ (pads <= 2)%nat /\ Nat.eqb (length body mod 4) 1 = false.
Proof. by intros [[-> ->]|[[-> ->]|[-> ->]]]; cbn; split_and!; try lia. Qed.

Lemma std_not_pad c : b64_std_char c = true -> Z.eqb 61 c = false.
Proof. destruct (Z.eqb_spec 61 c) as [<-|]; [|done]. by vm_compute. Qed.

Lemma decode_body x body pads : encodes x body pads -> b64_decode_strict (body ++ repeat 61 pads) = Some x.
Proof.
  intros (_ & Hch & Hm & _ & Hl). unfold b64_decode_strict.
  assert (Es : span (Z.eqb 61) (rev (body ++ repeat 61 pads)) = (repeat 61 pads, rev body)).
  { rewrite rev_app_distr. replace (rev (repeat 61 pads)) with (repeat 61 pads : bytes).
    2:{ clear. symmetry. apply replicate_rev_eq. }
    apply span_run; [by apply Forall_repeat|].
    apply Forall_rev in Hch. destruct (rev body) as [|c r]; [done|]. apply Forall_cons in Hch as [Hc _]. by apply std_not_pad. }
  rewrite Es. cbn [fst]. cbv zeta. rewrite length_app, !repeat_length, Nat.add_sub, take_app_length.
  assert (En : match (length body mod 4)%nat with 0%nat => Some 0%nat | 1%nat => None | 2%nat => Some 2%nat | _ => Some 1%nat end = Some pads).
  { by destruct Hm as [[-> ->]|[[-> ->]|[-> ->]]]. }
  rewrite En. cbn [mbind option_bind]. rewrite Nat.eqb_refl. cbn [negb]. by rewrite Hl.
Qed.

(** ** The rewriting of a blob *)

(** How a payload is spelled in one of the alphabets, padded or not. *)
Definition spelled (x : bytes) (urlsafe padded : bool) : bytes :=
  let enc := b64_encode_std x in
  let enc := if urlsafe then std_to_url enc else enc in
  if padded then enc else trim_end_matches 61 enc.
(** The characters of an alphabet. *)
Abbreviation char_of u := (if (u : bool) then b64_url_char else b64_std_char).
Definition in_alphabet (u : bool) (body : bytes) : bytes := if u then std_to_url body else body.

Lemma trim_pads l pads : Forall (fun c => Z.eqb 61 c = false) l -> trim_end_matches 61 (l ++ repeat 61 pads) = l.
Proof.
  intros Hl. induction Hl as [|c l Hc _ IH]; cbn [app].
  - induction pads as [|pads IH]; [reflexivity|]. unfold trim_end_matches, drop_while_end in *. cbn [repeat fold_right]. by rewrite IH.
  - rewrite trim_end_cons by (intros ->; discriminate Hc). by rewrite IH.
Qed.
Lemma alphabet_chars u body : Forall (fun c => b64_std_char c = true) body ->
  Forall (fun c => char_of u c = true) (in_alphabet u body) /\ Forall (fun c => Z.eqb 61 c = false) (in_alphabet u body).
Proof.
  intros Hb. assert (Hu : forall c, b64_std_char c = true -> let u := if c =? 43 then 45 else if c =? 47 then 95 else c in b64_url_char u = true /\ Z.eqb 61 u = false).
  { unfold b64_std_char, b64_url_char, is_ascii_alphanumeric, is_ascii_alphabetic, is_ascii_lowercase, is_ascii_uppercase, is_ascii_digit, in_range.
    intros c Hc. cbv zeta. repeat case_goal; split; lia. }
  destruct u; cbn [in_alphabet]; [unfold std_to_url; rewrite !Forall_map|]; (split; (eapply Forall_impl; [exact Hb|])); intros c Hc; cbv beta.
  - apply Hu, Hc.
  - apply Hu, Hc.
  - exact Hc.
  - by apply std_not_pad.
Qed.
Lemma url_to_std_to_url body : Forall (fun c => b64_std_char c = true) body -> url_to_std (std_to_url body) = body.
Proof.
  intros Hb. unfold url_to_std, std_to_url. rewrite map_map. rewrite <- (map_id body) at 2. apply map_ext_in. intros c Hc%list_elem_of_In.
  rewrite Forall_forall in Hb. specialize (Hb c Hc). revert Hb. cbv beta.
  unfold b64_std_char, is_ascii_alphanumeric, is_ascii_alphabetic, is_ascii_lowercase, is_ascii_uppercase, is_ascii_digit, in_range.
  intros Hb. repeat case_goal; lia.
Qed.

Lemma spelled_body x u pd : octets x -> exists body pads, encodes x body pads /\
  spelled x u pd = in_alphabet u body ++ repeat 61 (if pd then pads else 0).
Proof.
  intros Hx. destruct (rfc4648_encodes x Hx) as (body & pads & He). exists body, pads. split; [exact He|].
  destruct He as (E & Hch & _). pose proof (alphabet_chars u body Hch) as [_ Hp].
  assert (Eu : (if u then std_to_url (b64_encode_std x) else b64_encode_std x) = in_alphabet u body ++ repeat 61 pads).
  { unfold b64_encode_std. rewrite standard_encode_law, E by exact Hx. destruct u; [|reflexivity]. unfold in_alphabet, std_to_url. rewrite map_app. f_equal.
    clear. induction pads as [|n IH]; [reflexivity|]. cbn [repeat map]. by rewrite IH. }
  unfold spelled. cbv zeta. rewrite Eu. destruct pd; [reflexivity|]. cbn [repeat]. by rewrite trim_pads, app_nil_r.
Qed.

Lemma replace_body x body pads u pd raw ph : encodes x body pads -> contains x raw = true ->
  replace_in_base64 (in_alphabet u body) raw ph u pd = Some (spelled (replace_all x raw ph) u pd).
Proof.
  intros He Hc. pose proof He as (E & Hch & Hm & _ & _). destruct (pads_of body pads Hm) as (Ep & _ & H1).
  assert (El : length (in_alphabet u body) = length body) by (destruct u; [apply length_map|reflexivity]).
  assert (Eu : (if u then url_to_std (in_alphabet u body) else in_alphabet u body) = body) by (destruct u; [by apply url_to_std_to_url|reflexivity]).
  unfold replace_in_base64. cbn [replace_in_base64_from]. change (drop 0 (in_alphabet u body)) with (in_alphabet u body). rewrite El, H1.
  cbv zeta. rewrite Eu, <- Ep, (decode_body x) by exact He. rewrite Hc. cbn [negb take app]. by rewrite app_nil_r.
Qed.

(** A core ends before the padding. *)
Lemma core_before_pads (core b : bytes) k i r : core <> [] -> 61 ∉ core -> drop i (b ++ repeat 61 k) = core ++ r -> (i + length core <= length b)%nat.
Proof.
  intros Hne Hin Er. destruct (Nat.le_gt_cases (i + length core) (length b)) as [|Hgt]; [assumption|]. exfalso. apply Hin.
  assert (Hpos : (0 < length core)%nat) by (destruct core; [done|cbn [length]; lia]).
  pose proof (f_equal length Er) as El. rewrite length_drop, !length_app, repeat_length in El.
  apply (list_elem_of_lookup_2 _ (length core - 1)). rewrite <- (lookup_app_l core r) by lia.
  rewrite <- Er, lookup_drop, lookup_app_r by lia. apply repeat_lookup. lia.
Qed.

Section Blob.
Variables (core raw ph : bytes).
Hypothesis Hne : core <> [].

Lemma char_rev u l : Forall (fun c => char_of u c = true) l -> span (char_of u) (rev l) = (rev l, []).
Proof. intros Hl%Forall_rev. rewrite <- (app_nil_r (rev l)) at 1. by apply span_run. Qed.

Lemma blob_bounds_all u body k i : Forall (fun c => char_of u c = true) body -> (k <= 2)%nat -> (i + length core <= length body)%nat ->
  blob_bounds (char_of u) (body ++ repeat 61 k) core i = (0%nat, length body, (length body + k)%nat).
Proof.
  intros Hb Hk Hi. unfold blob_bounds. rewrite take_app_le, drop_app_le by lia. rewrite char_rev by (by apply Forall_take). cbn [fst].
  rewrite length_rev, length_take, Nat.min_l, Nat.sub_diag by lia.
  rewrite span_run; [|by apply Forall_drop|]. 2:{ destruct k; [done|]. cbn [repeat]. destruct u; reflexivity. }
  cbn [fst]. rewrite length_drop. replace (i + length core + (length body - (i + length core)))%nat with (length body) by lia.
  rewrite drop_app_length, <- (app_nil_r (repeat 61 k)), span_run; [|clear; induction k; constructor; [reflexivity|assumption]|done].
  cbn [fst]. rewrite repeat_length, Nat.min_r by exact Hk. reflexivity.
Qed.

(** The attempt in the blob's own alphabet. *)
Lemma rewrite_at_own u x pd i : octets x -> contains x raw = true -> Forall (fun c => char_of u c = true) core ->
  next_core core (spelled x u pd) 0 = Some i ->
  rewrite_at u (spelled x u pd) core raw ph i =
  let new := spelled (replace_all x raw ph) u (pd && negb (Nat.eqb (length x mod 3) 0) || negb u && Nat.eqb (length x mod 3) 0) in Some (new, length new).
Proof.
  intros Hx Hc Hcs Hi. destruct (spelled_body x u pd Hx) as (body & pads & He & Eb). pose proof He as (E & Hch & Hm & H3 & _).
  destruct (pads_of body pads Hm) as (Ep & H2 & _). destruct (alphabet_chars u body Hch) as [Hu _].
  assert (El : length (in_alphabet u body) = length body) by (destruct u; [apply length_map|reflexivity]).
  rewrite Eb in *. set (b := in_alphabet u body) in *. set (k := if pd then pads else 0%nat) in *.
  assert (Hk : (k <= 2)%nat) by (subst k; destruct pd; lia).
  assert (Hb : (i + length core <= length b)%nat).
  { unfold next_core in Hi. cbn [Nat.leb] in Hi. change (drop 0 ?l) with l in Hi. rewrite memmem_find_law in Hi.
    pose proof (find_sub_spec core (b ++ repeat 61 k)) as Hs. rewrite Hi in Hs. destruct Hs as ((r & Er) & _).
    apply (core_before_pads core b k i r); [exact Hne| |exact Er]. intros Hin. rewrite Forall_forall in Hcs. specialize (Hcs 61 Hin). cbv beta in Hcs. by destruct u. }
  unfold rewrite_at. rewrite blob_bounds_all by assumption. rewrite Nat.sub_0_r.
  change (drop 0 (b ++ repeat 61 k)) with (b ++ repeat 61 k). rewrite take_app_length.
  assert (Er : forall pd', replace_in_base64 b raw ph u pd' = Some (spelled (replace_all x raw ph) u pd')) by (intros; by apply (replace_body x body pads)).
  rewrite Er. cbn [mbind option_bind take app].
  rewrite drop_ge by (rewrite length_app, repeat_length; lia). rewrite app_nil_r, El.
  set (z := Nat.eqb (length x mod 3) 0).
  assert (Hz : Nat.eqb (length body mod 4) 0 = z /\ (pads = 0%nat <-> z = true)).
  { subst z. rewrite Nat.eqb_eq. split; [|by rewrite H3]. apply eq_true_iff_eq. rewrite !Nat.eqb_eq, <- H3. lia. }
  destruct Hz as [-> Hz]. assert (Ek : Nat.ltb (length body) (length body + k) = pd && negb z).
  { apply eq_true_iff_eq. rewrite Nat.ltb_lt, andb_true_iff, negb_true_iff. subst k. destruct pd, z; intuition (try congruence; try lia). }
  rewrite Ek. reflexivity.
Qed.

(** Nothing is left to rewrite after a blob that was rewritten whole. *)
Lemma rewrite_from_end d : rewrite_from core raw ph d (length d) = (d, 0%nat).
Proof.
  rewrite rewrite_from_turn by assumption. unfold next_core. rewrite Nat.leb_refl, drop_all, memmem_find_law. cbn [find_sub].
  by rewrite starts_with_short.
Qed.
Lemma next_core_found d : contains d core = true -> exists i, next_core core d 0 = Some i.
Proof. unfold contains. rewrite bool_decide_eq_true. unfold next_core. cbn [Nat.leb]. by intros [i Hi]; exists i. Qed.

(** A blob of a payload that holds the secret is found, in either alphabet. *)
Lemma spelled_found u x pd : octets x -> contains x raw = true -> Forall (fun c => char_of u c = true) core ->
  contains (spelled x u pd) core = true -> (blob_pass core raw ph (spelled x u pd)).2 = true.
Proof.
  intros Hx Hc Hcs (i & Hi)%next_core_found. unfold blob_pass. rewrite rewrite_base64_from, rewrite_from_turn, Hi by assumption.
  pose proof (rewrite_at_own u x pd i Hx Hc Hcs Hi) as Hown. cbv zeta in Hown. unfold turn. change (0 + i)%nat with i.
  destruct (rewrite_at false (spelled x u pd) core raw ph i) as [[d p]|] eqn:E1; [cbn [fst snd]; apply Nat.ltb_lt; lia|].
  destruct u; [|congruence]. rewrite Hown. cbn [fst snd]. apply Nat.ltb_lt. lia.
Qed.
End Blob.

(** ** The cores of a secret *)

(** The [k]th group of six bits. *)
Definition sextet (y : bytes) (k : nat) : Z :=
  let at_ i := nth (3 * (k / 4) + i) y 0 in
  match (k mod 4)%nat with
  | 0%nat => at_ 0%nat / 4
  | 1%nat => at_ 0%nat mod 4 * 16 + at_ 1%nat / 16
  | 2%nat => at_ 1%nat mod 16 * 4 + at_ 2%nat / 64
  | _ => at_ 2%nat mod 64
  end.

Lemma group_index k : (S (S (S (S k))) / 4 = S (k / 4) /\ S (S (S (S k))) mod 4 = k mod 4)%nat.
Proof.
  replace (S (S (S (S k)))) with (k + 1 * 4)%nat by lia. rewrite Nat.div_add by lia. rewrite Nat.Div0.mod_add. lia.
Qed.
Lemma rfc4648_lookup y k : (6 * (k + 1) <= 8 * length y)%nat -> rfc4648 y !! k = Some (b64_char (sextet y k)).
Proof.
  enough (Hs : forall n y k, (length y <= n)%nat -> (6 * (k + 1) <= 8 * length y)%nat -> rfc4648 y !! k = Some (b64_char (sextet y k)))
    by (by apply (Hs (length y))).
  clear y k. intros n. induction n as [|n IH]; intros y k Hn Hk; [lia|].
  destruct y as [|a [|b [|c r]]]; cbn [length] in *; [lia| | |].
  - destruct k; [reflexivity|lia].
  - destruct k as [|[|k]]; [reflexivity..|lia].
  - destruct k as [|[|[|[|k]]]]; try reflexivity. cbn [rfc4648 app]. cbn [lookup list_lookup]. fold (rfc4648 r !! k).
    rewrite IH by lia. do 2 f_equal. unfold sextet. destruct (group_index k) as [-> ->].
    replace (3 * S (k / 4))%nat with (S (S (S (3 * (k / 4))))) by lia. reflexivity.
Qed.
Lemma rfc4648_app p y : (length p mod 3 = 0)%nat -> rfc4648 (p ++ y) = rfc4648 p ++ rfc4648 y.
Proof.
  enough (Hs : forall n p, (length p <= n)%nat -> (length p mod 3 = 0)%nat -> rfc4648 (p ++ y) = rfc4648 p ++ rfc4648 y)
    by (by apply (Hs (length p))).
  clear p. intros n. induction n as [|n IH]; intros p Hn Hp.
  - destruct p; [reflexivity|simpl in Hn; lia].
  - destruct p as [|a [|b [|c r]]]; cbn [length] in *; try discriminate; [reflexivity|]. cbn [rfc4648 app].
    rewrite IH; [reflexivity|lia|]. replace (S (S (S (length r)))) with (length r + 1 * 3)%nat in Hp by lia. by rewrite Nat.Div0.mod_add in Hp.
Qed.

(** A sextet between the first and the last whole one of the secret is made of
    the secret's bytes only. *)
Lemma sextet_inside p q raw s k : length p = length q -> (length p < 3)%nat -> ((8 * length p + 5) / 6 <= k)%nat ->
  (6 * (k + 1) <= 8 * (length p + length raw))%nat -> sextet (p ++ raw ++ s) k = sextet (q ++ raw) k.
Proof.
  intros Epq Hp Hlo Hhi.
  assert (Hn : forall i, (length p <= i)%nat -> (i < length p + length raw)%nat -> nth i (p ++ raw ++ s) 0 = nth i (q ++ raw) 0).
  { intros i H1 H2. rewrite (app_nth2 p), (app_nth2 q), (app_nth1 raw s), Epq by lia. reflexivity. }
  assert (H8 : (8 * length p <= 6 * k)%nat).
  { pose proof (Nat.div_mod (8 * length p + 5) 6 ltac:(lia)). pose proof (Nat.mod_upper_bound (8 * length p + 5) 6 ltac:(lia)). lia. }
  unfold sextet. pose proof (Nat.div_mod k 4 ltac:(lia)) as Hd. pose proof (Nat.mod_upper_bound k 4 ltac:(lia)) as Hm.
  destruct (k mod 4)%nat as [|[|[|[|m]]]]; [..|lia]; rewrite !Hn by lia; reflexivity.
Qed.

(** The core at an alignment is in every encoding that aligns the secret so. *)
Lemma core_in_encoding p raw s : octets (p ++ raw ++ s) -> 
  contains (b64_encode_std (p ++ raw ++ s)) (core_at raw (length p mod 3)) = true.
Proof.
  intros Hx. set (sh := (length p mod 3)%nat). assert (Hsh : (sh < 3)%nat) by (apply Nat.mod_upper_bound; lia).
  assert (Ep : exists p1 p2, p = p1 ++ p2 /\ (length p1 mod 3 = 0)%nat /\ length p2 = sh).
  { exists (take (3 * (length p / 3)) p), (drop (3 * (length p / 3)) p). pose proof (Nat.div_mod (length p) 3 ltac:(lia)) as Hd. fold sh in Hd.
    rewrite take_drop, length_take, length_drop. split_and!; [done| |lia]. rewrite Nat.min_l by lia. by rewrite Nat.mul_comm, Nat.Div0.mod_mul. }
  destruct Ep as (p1 & p2 & -> & H1 & H2). apply contains_iff.
  unfold b64_encode_std at 1. rewrite standard_encode_law by exact Hx. rewrite <- app_assoc, rfc4648_app by exact H1.
  assert (Hr : octets raw).
  { apply Forall_app in Hx as [_ Hx]. by apply Forall_app in Hx as [Hx _]. }
  unfold core_at, b64_encode_std. rewrite standard_encode_law by (apply Forall_app; split; [by apply Forall_repeat|exact Hr]).
  set (lo := ((8 * sh + 5) / 6)%nat). set (hi := (8 * (sh + length raw) / 6)%nat). set (y := p2 ++ raw ++ s). set (z := repeat 0 sh ++ raw).
  assert (Hhi : (6 * hi <= 8 * (sh + length raw))%nat).
  { subst hi. pose proof (Nat.div_mod (8 * (sh + length raw)) 6 ltac:(lia)). lia. }
  clearbody hi. clearbody sh.
  assert (Eq : take (hi - lo) (drop lo (rfc4648 z)) = take (hi - lo) (drop lo (rfc4648 y))).
  { apply list_eq. intros i. destruct (Nat.lt_ge_cases i (hi - lo)) as [Hi|Hi].
    - rewrite !lookup_take_lt, !lookup_drop by lia. rewrite !rfc4648_lookup by (subst y z; rewrite ?length_app, ?repeat_length, ?H2; lia).
      do 2 f_equal. subst y z. symmetry. apply sextet_inside; rewrite ?repeat_length, ?H2; lia.
    - rewrite !lookup_take_ge by lia. reflexivity. }
  rewrite Eq. exists (rfc4648 p1 ++ take lo (rfc4648 y)), (drop (hi - lo) (drop lo (rfc4648 y))).
  rewrite <- app_assoc. by rewrite (take_drop (hi - lo)), take_drop.
Qed.

Lemma sextet_range y k : octets y -> 0 <= sextet y k < 64.
Proof.
  intros Hy. assert (Hn : forall i, 0 <= nth i y 0 < 256).
  { intros i. destruct (Nat.lt_ge_cases i (length y)) as [Hi|Hi]; [|rewrite nth_overflow by exact Hi; lia].
    apply (proj1 (Forall_forall _ _) Hy), list_elem_of_In, nth_In, Hi. }
  unfold sextet. destruct (k mod 4)%nat as [|[|[|m]]].
  - pose proof (Hn (3 * (k / 4) + 0)%nat). Z.to_euclidean_division_equations. lia.
  - pose proof (Hn (3 * (k / 4) + 0)%nat). pose proof (Hn (3 * (k / 4) + 1)%nat). Z.to_euclidean_division_equations. lia.
  - pose proof (Hn (3 * (k / 4) + 1)%nat). pose proof (Hn (3 * (k / 4) + 2)%nat). Z.to_euclidean_division_equations. lia.
  - apply Z.mod_pos_bound. lia.
Qed.
(** A core holds no padding. *)
Lemma core_chars raw sh : octets raw -> Forall (fun c => b64_std_char c = true) (core_at raw sh).
Proof.
  intros Hr. unfold core_at, b64_encode_std. set (z := repeat 0 sh ++ raw).
  assert (Hz : octets z) by (apply Forall_app; split; [by apply Forall_repeat|exact Hr]).
  rewrite standard_encode_law by exact Hz. apply Forall_lookup. intros i c.
  destruct (Nat.lt_ge_cases i (8 * (sh + length raw) / 6 - (8 * sh + 5) / 6)) as [Hi|Hi]; [|by rewrite lookup_take_ge by exact Hi].
  rewrite lookup_take_lt, lookup_drop by exact Hi. rewrite rfc4648_lookup.
  - intros [= <-]. by apply b64_char_std, sextet_range.
  - subst z. rewrite length_app, repeat_length. pose proof (Nat.div_mod (8 * (sh + length raw)) 6 ltac:(lia)). lia.
Qed.
Lemma std_to_url_app a b : std_to_url (a ++ b) = std_to_url a ++ std_to_url b.
Proof. unfold std_to_url. apply map_app. Qed.
Lemma core_in_spelling p raw s u pd : octets (p ++ raw ++ s) -> core_at raw (length p mod 3) <> [] ->
  contains (spelled (p ++ raw ++ s) u pd) (in_alphabet u (core_at raw (length p mod 3))) = true.
Proof.
  intros Hx Hne. pose proof (core_in_encoding p raw s Hx) as (a & b & E)%contains_iff. set (core := core_at raw _) in *.
  assert (Hcs : Forall (fun c => b64_std_char c = true) core).
  { apply core_chars. apply Forall_app in Hx as [_ Hx]. by apply Forall_app in Hx as [Hx _]. }
  destruct (spelled_body (p ++ raw ++ s) u pd Hx) as (body & pads & (Ee & _) & ->). unfold b64_encode_std in E. rewrite standard_encode_law, Ee in E by exact Hx.
  assert (Hb : (length a + length core <= length body)%nat).
  { apply (core_before_pads core body pads (length a) b Hne); [|by rewrite E, drop_app_length].
    intros Hin. pose proof (proj1 (Forall_forall _ _) Hcs 61 Hin) as H61. vm_compute in H61. discriminate. }
  assert (Eb : body = a ++ core ++ drop (length a + length core) body).
  { rewrite <- (take_drop (length a + length core) body) at 1. rewrite app_assoc. f_equal.
    rewrite <- (take_app_le body (repeat 61 pads)) by exact Hb. rewrite E, app_assoc, <- length_app. apply take_app_length. }
  apply contains_iff. rewrite Eb. clear Eb. destruct u; cbn [in_alphabet].
  - rewrite !std_to_url_app. exists (std_to_url a), (std_to_url (drop (length a + length core) body) ++ repeat 61 (if pd then pads else 0%nat)). rewrite <- !app_assoc. reflexivity.
  - exists a, (drop (length a + length core) body ++ repeat 61 (if pd then pads else 0%nat)). rewrite <- !app_assoc. reflexivity.
Qed.

Lemma base64_cores_elem raw sh u : (sh < 3)%nat -> in_alphabet u (core_at raw sh) ∈ base64_cores raw.
Proof.
  intros Hsh. assert (Hkeep : forall c cores d, c ∈ cores -> c ∈ add_core cores d).
  { intros c cores d Hc. unfold add_core. case_bool_decide; [exact Hc|]. apply elem_of_app. by left. }
  assert (Hadd : forall cores d, d ∈ add_core cores d).
  { intros cores d. unfold add_core. case_bool_decide; [assumption|]. apply elem_of_app. right. by left. }
  unfold base64_cores. cbn [fold_left]. destruct sh as [|[|[|]]]; [..|lia]; destruct u; cbn [in_alphabet]; repeat (apply Hadd || apply Hkeep).
Qed.

(** A pass among others finds what it would find alone. *)
Lemma blob_passes_found f cs c d : Forall (fun c => c <> []) cs -> c ∈ cs -> (blob_pass c (raw f) (ph_raw f) d).2 = true ->
  (blob_passes f cs d).2 = true.
Proof.
  intros Hcs Hin Hf. induction Hcs as [|c' cs Hne _ IH]; [by apply not_elem_of_nil in Hin|]. cbn [blob_passes fold_right]. unfold then_pass. cbn [snd].
  destruct (blob_pass c' (raw f) (ph_raw f) d).2 eqn:E; [reflexivity|]. cbn [orb].
  rewrite (blob_quiet c' (raw f) (ph_raw f) Hne d E). apply elem_of_cons in Hin as [->|Hin]; [congruence|by apply IH].
Qed.

(** C20: No base64 hides a secret of at least [B64_MIN_BYTES] (eight) bytes: whatever
    the payload around it, its alignment, the alphabet and the padding, a blob whose
    payload holds the value is found when it stands between two bytes no spelling of
    the value can contain.  A shorter secret has no base64 form and is not looked for
    there. *)
Theorem base64_secret_found v ph nm p s u pd before s1 s2 after :
  let f := new_forms v ph nm in
  Forall scalar v -> (B64_MIN_BYTES <= length (as_bytes v))%nat -> octets p -> octets s ->
  alphabet [f] s1 = false -> alphabet [f] s2 = false ->
  exists out, redact f (before ++ s1 :: spelled (p ++ as_bytes v ++ s) u pd ++ s2 :: after) = Some out.
Proof.
  intros f Hv Hl Hp Hs H1 H2. assert (Hr : octets (as_bytes v)).
  { unfold octets, as_bytes. rewrite Forall_flat_map. eapply Forall_impl; [exact Hv|]. intros c Hc. by apply utf8_char_bytes. }
  assert (Hf : wf_forms f).
  { exists v, ph, nm. split_and!; [done| |done]. intros ->. cbn in Hl. unfold B64_MIN_BYTES in Hl. lia. }
  assert (Hx : octets (p ++ as_bytes v ++ s)) by (by repeat (apply Forall_app; split)).
  assert (Hfs : Forall wf_forms [f]) by (by repeat constructor).
  destruct (separator_splits [f] s1 f Hfs ltac:(by left) H1) as [_ Hsp1]. destruct (separator_splits [f] s2 f Hfs ltac:(by left) H2) as [_ Hsp2].
  rewrite redact_is_pass by exact Hf. rewrite Hsp1. cbn [fst snd]. rewrite Hsp2. cbn [fst snd].
  set (blob := spelled _ u pd). assert (Hb : (redact_pass f blob).2 = true); [|rewrite Hb, orb_true_r; by eexists].
  destruct (wf_pattern f Hf) as (v' & Ep & Hsol & _). unfold redact_pass, then_pass. cbn [snd].
  destruct (pattern_pass _ _ blob).2 eqn:Eq; [reflexivity|]. cbn [orb].
  rewrite (pattern_quiet (default [] (pattern f)) (placeholder_for f)) by (exact Eq || (rewrite Ep; exact Hsol)).
  set (sh := (length p mod 3)%nat). assert (Hsh : (sh < 3)%nat) by (apply Nat.mod_upper_bound; lia).
  assert (Ec : b64_cores f = base64_cores (as_bytes v)).
  { subst f. unfold new_forms. case_bool_decide; cbn [b64_cores]; by destruct (Nat.leb_spec B64_MIN_BYTES (length (as_bytes v))); [|lia]. }
  assert (Hcs : Forall (fun c => c <> []) (b64_cores f)) by (eapply Forall_impl; [by apply wf_cores|]; by intros c [? _]).
  assert (Hmem : forall u, in_alphabet u (core_at (as_bytes v) sh) ∈ b64_cores f) by (intros; rewrite Ec; by apply base64_cores_elem).
  assert (Hne : forall u, in_alphabet u (core_at (as_bytes v) sh) <> []) by (intros u'; apply (proj1 (Forall_forall _ _) Hcs), (Hmem u')).
  apply (blob_passes_found f _ (in_alphabet u (core_at (as_bytes v) sh))); [exact Hcs|apply Hmem|].
  assert (Er : raw f = as_bytes v) by (subst f; unfold new_forms; by case_bool_decide). rewrite Er.
  apply spelled_found; [apply Hne|exact Hx|apply contains_iff; by exists p, s|apply alphabet_chars, core_chars, Hr|].
  apply core_in_spelling; [exact Hx|]. apply (Hne false).
Qed.

(** A base64 blob of a payload holding a secret becomes, exactly, the blob of the
    payload with the placeholder in its place: padded as the blob was, decoded and
    encoded again at no loss. *)
Theorem blob_rewritten core raw ph x pd : octets x -> contains x raw = true -> core <> [] ->
  Forall (fun c => b64_std_char c = true) core -> contains (spelled x false pd) core = true ->
  b64_decode_strict (b64_encode_std x) = Some x
  /\ rewrite_base64 (spelled x false pd) core raw ph =
     (spelled (replace_all x raw ph) false (pd || Nat.eqb (length x mod 3) 0), 1%nat).
Proof.
  intros Hx Hc Hne Hcs Hin. split.
  - destruct (rfc4648_encodes x Hx) as (body & pads & He). pose proof He as (E & _). unfold b64_encode_std.
    rewrite standard_encode_law, E by exact Hx. by apply decode_body.
  - apply next_core_found in Hin as [i Hi]. rewrite rewrite_base64_from, rewrite_from_turn, Hi by assumption.
    unfold turn. change (0 + i)%nat with i. rewrite (rewrite_at_own core raw ph Hne false x pd i Hx Hc Hcs Hi). cbv zeta. cbn [negb andb].
    rewrite rewrite_from_end by assumption. cbn [fst snd]. do 2 f_equal. by destruct pd, (Nat.eqb _ _).
Qed.
End Base64.

(** ** A concrete blob *)

Definition sample_secret : str := lit "hunter-2.password".

Lemma base64_secret_found_witness :
  let C := model_crates in let F := sample_f64 in
  exists out, redact (new_forms sample_secret (lit "{{T}}") (lit "T"))
    (lit "Basic " ++ 32 :: spelled (lit "us:" ++ as_bytes sample_secret ++ lit "!") true false ++ 10 :: lit "end") = Some out.
Proof.
  intros C F. apply (@base64_secret_found C model_crates_laws F).
  - unfold sample_secret. vm_compute lit. repeat constructor; lia.
  - apply Nat.leb_le. vm_compute. reflexivity.
  - vm_compute lit. repeat constructor; lia.
  - vm_compute lit. repeat constructor; lia.
  - by vm_compute.
  - by vm_compute.
Defined.

Lemma blob_rewritten_witness :
  let C := model_crates in
  rewrite_base64 (lit "dXM6aHVudGVyLTIucGFzc3dvcmQh") (core_at (as_bytes sample_secret) 0) (as_bytes sample_secret) (lit "{{T}}")
  = (lit "dXM6e3tUfX0h", 1%nat).
Proof.
  intros C. set (x := lit "us:" ++ as_bytes sample_secret ++ lit "!").
  assert (Hx : octets x) by (subst x; unfold octets, sample_secret; vm_compute lit; vm_compute as_bytes; repeat constructor; lia).
  assert (Hc : Forall (fun c => b64_std_char c = true) (core_at (as_bytes sample_secret) 0)) by (vm_compute; repeat constructor).
  pose proof (@blob_rewritten C model_crates_laws (core_at (as_bytes sample_secret) 0) (as_bytes sample_secret) (lit "{{T}}") x true
    Hx ltac:(by vm_compute) ltac:(by vm_compute) Hc ltac:(by vm_compute)) as [_ E].
  assert (Es : spelled x false true = lit "dXM6aHVudGVyLTIucGFzc3dvcmQh") by (by vm_compute).
  rewrite Es in E. etransitivity; [exact E|]. by vm_compute.
Defined.
