(* ===== verification/Message.v ===== *)
(** HTTP messages: the model of [agentcage-egress/src/message.rs].  Headers are an
    ordered list of raw pairs with the semantics of a multidict. *)
From S2P Require Import Prelude Utf8.
From Stdlib Require Import ZifyBool.

(** * Definitions *)

Abbreviation Headers := (list (bytes * bytes)).

(** [k.eq_ignore_ascii_case(name.as_bytes())]. *)
Definition named (name : str) (e : bytes * bytes) : bool := eq_ignore_ascii_case e.1 (as_bytes name).
Definition get_all (h : Headers) (name : str) : list str := map (fun e => from_utf8_lossy e.2) (List.filter (named name) h).
Definition header_get (h : Headers) (name : str) : option str :=
  let all := get_all h name in if bool_decide (all = []) then None else Some (sep_concat (lit ", ") all).
Definition header_contains (h : Headers) (name : str) : bool := existsb (named name) h.
(** The retained pairs, and the values left over. *)
Fixpoint set_all_loop (h : Headers) (name : str) (values : list bytes) : Headers * list bytes :=
  match h with
  | [] => ([], values)
  | e :: h =>
      if named name e then
        match values with
        | new :: values => let '(out, values) := set_all_loop h name values in ((e.1, new) :: out, values)
        | [] => set_all_loop h name []
        end
      else let '(out, values) := set_all_loop h name values in (e :: out, values)
  end.
Definition set_all (h : Headers) (name : str) (values : list bytes) : Headers :=
  let '(out, values) := set_all_loop h name values in out ++ map (fun new => (as_bytes name, new)) values.
Definition header_set (h : Headers) (name : str) (value : bytes) : Headers := set_all h name [value].
Definition header_add (h : Headers) (name value : bytes) : Headers := h ++ [(name, value)].
Definition header_remove (h : Headers) (name : str) : Headers := List.filter (fun e => negb (named name e)) h.
Definition to_strings (h : Headers) : list (str * str) := map (fun e => (from_utf8_lossy e.1, from_utf8_lossy e.2)) h.

Record Request : Type := mkRequest {
  method : str; scheme : str; host : str; port : Z; path : str; http_version : str; headers : Headers; body : bytes
}.
Definition is_default_port (scheme : str) (port : Z) : bool :=
  (bool_decide (scheme = lit "http") && (port =? 80)) || (bool_decide (scheme = lit "https") && (port =? 443)).
(** An address literal with a colon is bracketed. *)
Definition bracketed (host : str) : str := if bool_decide (58 ∈ host) then [91] ++ host ++ [93] else host.
Definition url (r : Request) : str :=
  if is_default_port (scheme r) (port r) then scheme r ++ lit "://" ++ bracketed (host r) ++ path r
  else scheme r ++ lit "://" ++ bracketed (host r) ++ [58] ++ show_unsigned (port r) ++ path r.
Definition host_header (r : Request) : option str := header_get (headers r) (lit "host").

Record Response : Type := mkResponse {
  status : Z; reason : str; resp_version : str; resp_headers : Headers; resp_body : bytes
}.

(** * Theorems *)

Lemma eq_ignore_refl a : eq_ignore_ascii_case a a = true.
Proof. unfold eq_ignore_ascii_case. by apply bool_decide_eq_true. Qed.
Lemma eq_ignore_sym a b : eq_ignore_ascii_case a b = eq_ignore_ascii_case b a.
Proof. unfold eq_ignore_ascii_case. apply bool_decide_ext. split; congruence. Qed.
Lemma eq_ignore_trans a b c : eq_ignore_ascii_case a b = true -> eq_ignore_ascii_case a c = eq_ignore_ascii_case b c.
Proof. unfold eq_ignore_ascii_case. intros E%bool_decide_eq_true. by rewrite E. Qed.

Definition same_name (n m : str) : bool := eq_ignore_ascii_case (as_bytes n) (as_bytes m).
Lemma named_same n m e : named n e = true -> named m e = same_name n m.
Proof. unfold named, same_name. intros E. by apply eq_ignore_trans. Qed.

Lemma filter_named_none h n : header_contains h n = false -> List.filter (named n) h = [].
Proof. unfold header_contains. induction h as [|e h IH]; cbn; [done|]. intros [-> ?]%orb_false_iff. by apply IH. Qed.

(** What [set_all] leaves of another name, and of the name itself. *)
Lemma set_all_loop_other h n m vs : same_name n m = false -> List.filter (named m) (set_all_loop h n vs).1 = List.filter (named m) h.
Proof.
  intros Hnm. revert vs. induction h as [|e h IH]; intros vs; [reflexivity|]. cbn [set_all_loop]. destruct (named n e) eqn:En.
  - assert (Em : named m e = false) by (by rewrite (named_same n m)). destruct vs as [|v vs].
    + rewrite IH. cbn [List.filter]. by rewrite Em.
    + specialize (IH vs). destruct (set_all_loop h n vs) as [out l]. cbn [fst] in *. cbn [List.filter].
      change (named m (e.1, v)) with (named m e). by rewrite Em.
  - specialize (IH vs). destruct (set_all_loop h n vs) as [out l]. cbn [fst] in *. cbn [List.filter]. by rewrite IH.
Qed.
Lemma set_all_loop_self h n vs : let '(out, l) := set_all_loop h n vs in
  map snd (List.filter (named n) out) ++ l = vs.
Proof.
  revert vs. induction h as [|e h IH]; intros vs; [reflexivity|]. cbn [set_all_loop]. destruct (named n e) eqn:En.
  - destruct vs as [|v vs]; [apply IH|]. specialize (IH vs). destruct (set_all_loop h n vs) as [out l]. cbn [List.filter].
    change (named n (e.1, v)) with (named n e). rewrite En. cbn. by rewrite IH.
  - specialize (IH vs). destruct (set_all_loop h n vs) as [out l]. cbn [List.filter]. by rewrite En.
Qed.
Lemma named_added n m v : named m (as_bytes n, v) = same_name n m.
Proof. reflexivity. Qed.
Lemma filter_tail n m (vs : list bytes) : List.filter (named m) (map (fun new => (as_bytes n, new)) vs) =
  if same_name n m then map (fun new => (as_bytes n, new)) vs else [].
Proof. induction vs as [|v vs IH]; cbn [map List.filter]; [by destruct (same_name n m)|]. rewrite named_added, IH. by destruct (same_name n m). Qed.
Lemma remove_tail n (vs : list bytes) : header_remove (map (fun new => (as_bytes n, new)) vs) n = [].
Proof.
  unfold header_remove. induction vs as [|v vs IH]; cbn [map List.filter]; [reflexivity|]. rewrite named_added.
  unfold same_name. rewrite eq_ignore_refl. exact IH.
Qed.
Lemma set_all_loop_remove h n vs : header_remove (set_all_loop h n vs).1 n = header_remove h n.
Proof.
  unfold header_remove. revert vs. induction h as [|e h IH]; intros vs; [reflexivity|]. cbn [set_all_loop List.filter]. destruct (named n e) eqn:En.
  - destruct vs as [|v vs]; [apply IH|]. specialize (IH vs). destruct (set_all_loop h n vs) as [out l]. cbn [fst List.filter] in *.
    change (named n (e.1, v)) with (named n e). by rewrite En.
  - specialize (IH vs). destruct (set_all_loop h n vs) as [out l]. cbn [fst List.filter] in *. rewrite En. cbn [negb]. by rewrite IH.
Qed.
Lemma set_all_loop_names h n vs : (length (List.filter (named n) h) <= length vs)%nat -> map fst (set_all_loop h n vs).1 = map fst h.
Proof.
  revert vs. induction h as [|e h IH]; intros vs Hl; [reflexivity|]. cbn [set_all_loop List.filter] in *. destruct (named n e) eqn:En.
  - destruct vs as [|v vs]; [cbn in Hl; lia|]. specialize (IH vs ltac:(cbn in Hl; lia)). destruct (set_all_loop h n vs). cbn in *. by rewrite IH.
  - specialize (IH vs Hl). destruct (set_all_loop h n vs). cbn in *. by rewrite IH.
Qed.
Lemma filter_removed h n : List.filter (named n) (header_remove h n) = [].
Proof. unfold header_remove. induction h as [|e h IH]; [reflexivity|]. cbn [List.filter]. destruct (named n e) eqn:En; [exact IH|]. cbn [negb List.filter]. by rewrite En. Qed.
Lemma set_all_other h n m vs : same_name n m = false -> List.filter (named m) (set_all h n vs) = List.filter (named m) h.
Proof.
  intros Hm. unfold set_all. pose proof (set_all_loop_other h n m vs Hm) as Ho. destruct (set_all_loop h n vs) as [out l]. cbn [fst] in Ho.
  by rewrite List.filter_app, Ho, filter_tail, Hm, app_nil_r.
Qed.

Lemma set_all_self h n vs : map snd (List.filter (named n) (set_all h n vs)) = vs.
Proof.
  unfold set_all. pose proof (set_all_loop_self h n vs) as Hs. destruct (set_all_loop h n vs) as [out l].
  rewrite List.filter_app, map_app, filter_tail. unfold same_name. rewrite eq_ignore_refl, map_map. cbn [snd]. by rewrite map_id.
Qed.

(** Replacing the values of a name replaces exactly them, in order, and touches
    no other name: what is read back is what was written, the names keep their
    spelling and position, and removing undoes. *)
Theorem set_all_spec h n vs :
  map snd (List.filter (named n) (set_all h n vs)) = vs
  /\ (forall m, same_name n m = false -> List.filter (named m) (set_all h n vs) = List.filter (named m) h
        /\ header_get (set_all h n vs) m = header_get h m)
  /\ header_remove (set_all h n vs) n = header_remove h n
  /\ (length (List.filter (named n) h) <= length vs -> map fst h = take (length h) (map fst (set_all h n vs)))%nat
  /\ header_get (header_remove h n) n = None.
Proof.
  split_and!.
  - apply set_all_self.
  - intros m Hm. pose proof (set_all_other h n m vs Hm) as Ho. split; [exact Ho|]. unfold header_get, get_all. by rewrite Ho.
  - unfold set_all. pose proof (set_all_loop_remove h n vs) as Hr. destruct (set_all_loop h n vs) as [out l]. cbn [fst] in Hr.
    rewrite <- Hr. unfold header_remove at 1. rewrite List.filter_app. fold (header_remove out n). fold (header_remove (map (fun new => (as_bytes n, new)) l) n).
    by rewrite remove_tail, app_nil_r.
  - intros Hl. unfold set_all. pose proof (set_all_loop_names h n vs Hl) as Hk. destruct (set_all_loop h n vs) as [out l]. cbn [fst] in Hk.
    rewrite map_app, Hk. rewrite <- (length_map fst h). by rewrite take_app_length.
  - unfold header_get, get_all. rewrite filter_removed. by case_bool_decide.
Qed.
