(* ===== verification/AuditLog.v ===== *)
(** Audit records and their sinks: the model of [agentcage-egress/src/audit]
    (records.rs, ring.rs, writer.rs and the sinks of mod.rs).  A sink is the
    [AuditSink] interface; the writer, the watcher's ring and the in-memory sink
    implement or serve it. *)
From S2P Require Import Prelude Utf8 Json Value DateTime Inspect Message.
From Stdlib Require Import ZifyBool.

(** * Definitions *)

Definition RING_MAX : Z := 5000.
Definition AUDIT_CAP_BYTES : Z := 16 * 1024 * 1024.

(** ** Records *)

Inductive Decision : Type := Allowed | Flagged | Blocked.
#[export] Instance Decision_eq_dec : EqDecision Decision.
Proof. solve_decision. Defined.
(** The derived order. *)
Definition decision_rank (d : Decision) : Z := match d with Allowed => 0 | Flagged => 1 | Blocked => 2 end.
Definition decision_max (a b : Decision) : Decision := if decision_rank a <=? decision_rank b then b else a.
Definition decision_as_str (d : Decision) : str :=
  lit (match d with Allowed => "allowed" | Flagged => "flagged" | Blocked => "blocked" end).

Inductive Direction : Type := Outbound | Inbound.
#[export] Instance Direction_eq_dec : EqDecision Direction.
Proof. solve_decision. Defined.
Definition direction_as_str (d : Direction) : str := lit (match d with Outbound => "outbound" | Inbound => "inbound" end).

Definition log_allowed (cfg : Config) : bool :=
  match mget (cfg_section cfg (lit "logging")) (lit "allowed_requests") with
  | Some value => truthy value
  | None => match cfg_get cfg (lit "log_allowed") with Some v => truthy v | None => false end
  end.

Definition inspectors_json (results : list Inspect.Verdict) : Json :=
  JArray (map (fun r => object [
    ("name", JStr (Inspect.inspector r)); ("action", JStr (Inspect.action_as_str (Inspect.action r)));
    ("reason", JStr (Inspect.reason r)); ("severity", JStr (Inspect.severity_as_str (Inspect.severity r)))]%string) results).

Record HttpDecision : Type := mkDecision {
  d_ts : DateTime; d_direction : Direction; d_method : str; d_host : str; d_port : Z; d_path : str; d_url : str;
  d_decision : Decision; d_reason : str; d_source : str; secrets_injected : list str; secrets_redacted : list str;
  d_inspectors : list Inspect.Verdict
}.
Definition new_decision (ts : DateTime) (req : Request) (direction : Direction) (decision : Decision) (reason : str) : HttpDecision :=
  mkDecision ts direction (method req) (host req) (port req) (path req) (url req) decision reason [] [] [] [].
Definition with_inspectors (d : HttpDecision) (l : list Inspect.Verdict) : HttpDecision :=
  mkDecision (d_ts d) (d_direction d) (d_method d) (d_host d) (d_port d) (d_path d) (d_url d) (d_decision d) (d_reason d)
    (d_source d) (secrets_injected d) (secrets_redacted d) l.
Definition with_source (d : HttpDecision) (s : str) : HttpDecision :=
  mkDecision (d_ts d) (d_direction d) (d_method d) (d_host d) (d_port d) (d_path d) (d_url d) (d_decision d) (d_reason d)
    s (secrets_injected d) (secrets_redacted d) (d_inspectors d).
Definition with_injected (d : HttpDecision) (l : list str) : HttpDecision :=
  mkDecision (d_ts d) (d_direction d) (d_method d) (d_host d) (d_port d) (d_path d) (d_url d) (d_decision d) (d_reason d)
    (d_source d) l (secrets_redacted d) (d_inspectors d).
Definition with_redacted (d : HttpDecision) (l : list str) : HttpDecision :=
  mkDecision (d_ts d) (d_direction d) (d_method d) (d_host d) (d_port d) (d_path d) (d_url d) (d_decision d) (d_reason d)
    (d_source d) (secrets_injected d) l (d_inspectors d).

(** [if !x.is_empty() { entry.set(key, v) }]. *)
Definition set_unless (empty : bool) (entry : Json) (key : string) (v : Json) : Json :=
  if empty then entry else json_set entry (lit key) v.
Definition names_json (v : list str) : Json := JArray (map JStr v).
Definition to_json (d : HttpDecision) : Json :=
  let entry := object [
    ("ts", JStr (isoformat (d_ts d))); ("direction", JStr (direction_as_str (d_direction d))); ("method", JStr (d_method d));
    ("host", JStr (d_host d)); ("port", JInt (d_port d)); ("path", JStr (d_path d)); ("url", JStr (d_url d));
    ("decision", JStr (decision_as_str (d_decision d))); ("reason", JStr (d_reason d))]%string in
  let entry := set_unless (bool_decide (d_source d = [])) entry "source" (JStr (d_source d)) in
  let entry := set_unless (bool_decide (secrets_injected d = [])) entry "secrets_injected" (names_json (secrets_injected d)) in
  let entry := set_unless (bool_decide (secrets_redacted d = [])) entry "secrets_redacted" (names_json (secrets_redacted d)) in
  match d_inspectors d with [] => entry | l => json_set entry (lit "inspectors") (inspectors_json l) end.

(** Where records go. *)
Class AuditSink (S : Type) := { emit : Json -> S -> S; emit_ring_only : Json -> S -> S }.

Definition ring_only (d : HttpDecision) (log_allowed : bool) : bool :=
  bool_decide (d_decision d = Allowed) && negb log_allowed && bool_decide (secrets_injected d = []) && bool_decide (secrets_redacted d = []).
Definition decision_emit {S} `{AuditSink S} (d : HttpDecision) (log_allowed : bool) (sink : S) : S :=
  if ring_only d log_allowed then emit_ring_only (to_json d) sink else emit (to_json d) sink.

Definition tcp_bypass_target (sni : option str) (peer original_dst : option (str * Z)) : str :=
  match (let? s := sni in if bool_decide (s = []) then None else Some s) with
  | Some sni => sni
  | None =>
      match List.find (fun p => negb (bool_decide (p.1 = []))) (omap id [peer; original_dst]) with
      | Some (h, p) => h ++ [58] ++ show_unsigned p
      | None => lit "<unknown>"
      end
  end.
Definition tcp_bypass_blocked (ts : DateTime) (target : str) : Json :=
  object [
    ("ts", JStr (isoformat ts)); ("kind", JStr (lit "tcp_bypass_blocked")); ("direction", JStr (lit "outbound"));
    ("decision", JStr (lit "blocked"));
    ("reason", JStr (lit "non-http TCP bypass: cage opened a raw TCP/TLS flow to " ++ target
       ++ lit " that does not speak HTTP; the L7 allowlist, inspectors, and secret-injection policy do not apply to raw byte streams"));
    ("host", JStr target)]%string.
Definition private_peer_reason (host peer_ip : str) : str :=
  lit "granted domain " ++ host ++ lit " resolves to non-global address " ++ peer_ip
  ++ lit "; refusing the upstream connection. A grant is a NAME, and DNS can point that name at an internal address after the fact (rebinding) or by design (localtest.me). Operator-configured baseline domains are unaffected.".
Definition private_peer_blocked (ts : DateTime) (host peer_ip phase : str) : Json :=
  object [
    ("ts", JStr (isoformat ts)); ("kind", JStr (lit "private_peer_blocked")); ("direction", JStr (lit "outbound"));
    ("decision", JStr (lit "blocked")); ("reason", JStr (private_peer_reason host peer_ip)); ("host", JStr host);
    ("peer_ip", JStr peer_ip); ("phase", JStr phase)]%string.
Definition relay_failure (kind relay error : str) : Json :=
  object [("kind", JStr kind); ("relay", JStr relay); ("error", JStr error)]%string.
Definition upstream_error (ts : DateTime) (req : Request) (direction : Direction) (reason : str) : Json :=
  object [
    ("ts", JStr (isoformat ts)); ("kind", JStr (lit "upstream_error")); ("direction", JStr (direction_as_str direction));
    ("method", JStr (method req)); ("host", JStr (host req)); ("port", JInt (port req)); ("path", JStr (path req));
    ("url", JStr (url req)); ("decision", JStr (lit "error")); ("reason", JStr reason)]%string.
Definition internal_error (ts : DateTime) (req : Request) (direction : Direction) (reason : str) : Json :=
  json_set (upstream_error ts req direction reason) (lit "kind") (JStr (lit "internal_error")).
Definition config_reload_failed (ts : DateTime) (path error : str) : Json :=
  object [
    ("ts", JStr (isoformat ts)); ("kind", JStr (lit "config_reload_failed")); ("path", JStr path);
    ("reason", JStr (lit "config reload failed, keeping the last good config: " ++ error))]%string.

(** ** Sinks *)

Record MemorySink : Type := mkMemory { entries : list Json; memory_ring : list Json }.
#[export] Instance memory_sink : AuditSink MemorySink := {|
  emit := fun e s => mkMemory (entries s ++ [e]) (memory_ring s);
  emit_ring_only := fun e s => mkMemory (entries s) (memory_ring s ++ [e])
|}.

(** The watcher's ring, oldest record first. *)
Record WatcherRing : Type := mkRing { ring_entries : list Json; capacity : Z }.
Definition new_ring : WatcherRing := mkRing [] RING_MAX.
Definition ring_len (r : WatcherRing) : Z := Z.of_nat (length (ring_entries r)).
(** [while entries.len() >= capacity { pop_front }]. *)
Fixpoint evict (l : list Json) (capacity : Z) : list Json :=
  match l with
  | [] => []
  | e :: rest => if capacity <=? Z.of_nat (length l) then evict rest capacity else l
  end.
Definition ring_push (r : WatcherRing) (entry : Json) : WatcherRing :=
  if capacity r =? 0 then r else mkRing (evict (ring_entries r) (capacity r) ++ [entry]) (capacity r).
(** A record the watcher wrote itself. *)
Definition own_record (entry : Json) : bool :=
  match (let? k := json_get entry (lit "kind") in json_as_str k) with Some k => starts_with k (lit "watcher_") | None => false end.
(** What is taken, and what is left. *)
Fixpoint drain_loop (l : list Json) (max : nat) : list Json * list Json :=
  match l with
  | [] => ([], [])
  | e :: rest =>
      match max with
      | O => ([], l)
      | S more =>
          if own_record e then drain_loop rest max
          else let '(out, left_) := drain_loop rest more in (e :: out, left_)
      end
  end.
Record Drained : Type := mkDrained { drained : list Json; saturated : bool }.
Definition ring_drain (r : WatcherRing) (max : nat) : WatcherRing * Drained :=
  let saturated := negb (bool_decide (ring_entries r = [])) && (capacity r <=? ring_len r) in
  let '(out, left_) := drain_loop (ring_entries r) max in
  (mkRing left_ (capacity r), mkDrained out saturated).
Definition ring_push_back (r : WatcherRing) (batch : list Json) : WatcherRing :=
  let room := Z.to_nat (saturating_sub (capacity r) (ring_len r)) in
  if Nat.eqb room 0 then r else mkRing (drop (length batch - room) batch ++ ring_entries r) (capacity r).

(** The writer: lines of stderr, the capped file, the ring while the watcher is
    enabled.  The file is its length: its position, in append mode. *)
Record AuditFile : Type := mkFile { file_bytes : bytes; capped : bool }.
Record AuditWriter : Type := mkWriter { stderr : list bytes; file : option AuditFile; ring : option WatcherRing; cap : Z }.
Definition enable_ring (w : AuditWriter) : AuditWriter := mkWriter (stderr w) (file w) (Some (default new_ring (ring w))) (cap w).
Definition disable_ring (w : AuditWriter) : AuditWriter := mkWriter (stderr w) (file w) None (cap w).

Section Writer.
Context `{F64Text}.

(** [redact] is the installed redactor, [clock] the time a record without [ts]
    gets, [takes] what the file system takes of a line ([write_all]'s result is
    not looked at). *)
Definition with_ts (clock : DateTime) (entry : Json) : Json :=
  match json_get entry (lit "ts") with Some _ => entry | None => json_set entry (lit "ts") (JStr (isoformat clock)) end.
Definition audit_line (entry : Json) : bytes := as_bytes (to_string entry) ++ [10].
Definition file_write (takes : bytes -> bytes) (cap : Z) (f : AuditFile) (line : bytes) : AuditFile :=
  let capped := capped f || (cap <? Z.of_nat (length (file_bytes f))) in
  if capped then mkFile (file_bytes f) true else mkFile (file_bytes f ++ takes line) false.
Definition writer_write (redact : Json -> Json) (clock : DateTime) (takes : bytes -> bytes) (entry : Json) (w : AuditWriter) : AuditWriter :=
  let entry := with_ts clock (redact entry) in
  let line := audit_line entry in
  mkWriter (stderr w ++ [line]) (option_map (fun f => file_write takes (cap w) f line) (file w))
    (option_map (fun r => ring_push r entry) (ring w)) (cap w).
Definition writer_ring_only (redact : Json -> Json) (entry : Json) (w : AuditWriter) : AuditWriter :=
  mkWriter (stderr w) (file w) (option_map (fun r => ring_push r (redact entry)) (ring w)) (cap w).
Definition audit_writer (redact : Json -> Json) (clock : DateTime) (takes : bytes -> bytes) : AuditSink AuditWriter := {|
  emit := writer_write redact clock takes;
  emit_ring_only := writer_ring_only redact
|}.
End Writer.

(** * Theorems *)

(** ** The ring *)

Lemma evict_spec l c : 0 < c -> evict l c = drop (length l + 1 - Z.to_nat c) l.
Proof.
  intros Hc. induction l as [|e l IH]; cbn [evict length]; [by rewrite drop_nil|].
  destruct (Z.leb_spec c (Z.of_nat (S (length l)))).
  - rewrite IH. replace (S (length l) + 1 - Z.to_nat c)%nat with (S (length l + 1 - Z.to_nat c)) by lia. done.
  - replace (S (length l) + 1 - Z.to_nat c)%nat with 0%nat by lia. done.
Qed.

(** The last [n] of a list. *)
Definition last_n {A} (n : Z) (l : list A) : list A := drop (length l - Z.to_nat n) l.

Lemma last_n_all {A} n (l : list A) : Z.of_nat (length l) <= n -> last_n n l = l.
Proof. intros Hn. unfold last_n. replace (length l - Z.to_nat n)%nat with 0%nat by lia. apply drop_0. Qed.

Lemma last_n_app {A} n (m l : list A) : 0 <= n -> last_n n (last_n n m ++ l) = last_n n (m ++ l).
Proof.
  intros Hn.
  destruct (decide (length m <= Z.to_nat n)%nat) as [Hm|Hm].
  { rewrite (last_n_all n m) by lia. done. }
  unfold last_n. rewrite !length_app, length_drop.
  destruct (decide (length l <= Z.to_nat n)%nat).
  - rewrite !drop_app_le by (rewrite ?length_drop; lia). rewrite drop_drop. f_equal. f_equal. lia.
  - rewrite !drop_app_ge by (rewrite ?length_drop; lia). rewrite length_drop. f_equal. lia.
Qed.
Lemma last_n_length {A} n (l : list A) : 0 <= n -> Z.of_nat (length (last_n n l)) <= n.
Proof. intros Hn. unfold last_n. rewrite length_drop. lia. Qed.

Lemma ring_push_entries r e : 0 < capacity r -> ring_len r <= capacity r ->
  ring_push r e = mkRing (last_n (capacity r) (ring_entries r ++ [e])) (capacity r).
Proof.
  intros Hc Hl. unfold ring_push, ring_len in *. destruct (Z.eqb_spec (capacity r) 0) as [|_]; [lia|]. f_equal.
  rewrite evict_spec by done. unfold last_n. rewrite length_app. cbn [length]. by rewrite drop_app_le by lia.
Qed.

Lemma ring_pushes l r : 0 < capacity r -> ring_len r <= capacity r ->
  fold_left ring_push l r = mkRing (last_n (capacity r) (ring_entries r ++ l)) (capacity r).
Proof.
  revert r. induction l as [|e l IH]; intros r Hc Hl; cbn [fold_left].
  { rewrite app_nil_r, last_n_all by done. by destruct r. }
  rewrite ring_push_entries by done. rewrite IH; cbn [capacity ring_entries]; [|done|].
  - by rewrite last_n_app, <- app_assoc by lia.
  - apply last_n_length. lia.
Qed.

Lemma drain_loop_spec l max :
  let '(out, left_) := drain_loop l max in
  exists n, left_ = drop n l /\ out = List.filter (fun e => negb (own_record e)) (take n l) /\ (length out <= max)%nat
    /\ (left_ = [] \/ length out = max).
Proof.
  revert max. induction l as [|e l IH]; intros max; cbn [drain_loop].
  { exists O. cbn. repeat split; [lia|by left]. }
  destruct max as [|more]; [exists O; cbn; repeat split; [lia|by right]|].
  destruct (own_record e) eqn:Eo.
  - specialize (IH (S more)). destruct (drain_loop l (S more)) as [out left_]. destruct IH as (n & -> & -> & Hl & Hf).
    exists (S n). cbn [drop take List.filter]. rewrite Eo. by cbn.
  - specialize (IH more). destruct (drain_loop l more) as [out left_]. destruct IH as (n & -> & -> & Hl & Hf).
    exists (S n). cbn [drop take List.filter]. rewrite Eo. cbn [negb length]. repeat split; [lia|]. destruct Hf; [by left|right; lia].
Qed.

Lemma filter_all {A} (f : A -> bool) l : Forall (fun x => f x = true) l -> List.filter f l = l.
Proof. induction 1 as [|x l E _ IH]; [done|]. cbn. by rewrite E, IH. Qed.

(** The watcher's ring keeps exactly the newest records up to its bound, in
    order; a drain takes the oldest, without the watcher's own, and no more than it
    was asked for; and the batch of a failed scan goes back in front of what arrived
    meanwhile, losing its own oldest records and never a live one. *)
Theorem ring_spec r l max : 0 < capacity r -> ring_len r <= capacity r ->
  let live := fold_left ring_push l r in
  let '(after, d) := ring_drain live max in
  ring_entries live = last_n (capacity r) (ring_entries r ++ l)
  /\ (exists n, ring_entries after = drop n (ring_entries live)
        /\ drained d = List.filter (fun e => negb (own_record e)) (take n (ring_entries live)) /\ (length (drained d) <= max)%nat
        /\ (ring_entries after = [] \/ length (drained d) = max))
  /\ (saturated d = true <-> ring_len live = capacity r)
  /\ forall more,
       let back := ring_push_back (fold_left ring_push more after) (drained d) in
       ring_entries back = last_n (capacity r) (drained d ++ last_n (capacity r) (ring_entries after ++ more)).
Proof.
  intros Hc Hl live. pose proof (ring_pushes l r Hc Hl) as E. fold live in E.
  destruct (ring_drain live max) as [after d] eqn:Ed. unfold ring_drain in Ed.
  pose proof (drain_loop_spec (ring_entries live) max) as Hd. destruct (drain_loop _ max) as [out left_].
  injection Ed as <- <-. cbn [ring_entries drained saturated capacity].
  assert (Ec : capacity live = capacity r) by (by rewrite E).
  assert (Hb : ring_len live <= capacity r).
  { rewrite E. apply last_n_length. lia. }
  split; [by rewrite E|]. split; [exact Hd|]. split.
  { rewrite Ec. unfold ring_len in *. destruct (ring_entries live); cbn in *; [split; [done|lia]|].
    rewrite Z.leb_le. lia. }
  intros more. destruct Hd as (n & -> & -> & _ & _).
  rewrite ring_pushes; cbn [capacity ring_entries]; rewrite Ec; [|done|unfold ring_len in *; cbn; rewrite length_drop; lia].
  set (out := List.filter _ _). set (new := last_n (capacity r) _).
  assert (Hn : Z.of_nat (length new) <= capacity r) by (apply last_n_length; lia).
  unfold ring_push_back, ring_len. cbn [ring_entries capacity]. unfold saturating_sub.
  destruct (Z.ltb_spec (capacity r) (Z.of_nat (length new))); [lia|]. unfold last_n. rewrite length_app.
  destruct (Nat.eqb_spec (Z.to_nat (capacity r - Z.of_nat (length new))) 0) as [E0|E0]; cbn [ring_entries].
  - rewrite drop_app_ge by lia. replace (_ - _ - _)%nat with 0%nat by lia. by rewrite drop_0.
  - rewrite drop_app_le by lia. f_equal. f_equal. lia.
Qed.

(** ** The writer *)

Section WriterTheorems.
Context `{F64Text}.
Context (redact : Json -> Json) (clock : DateTime) (takes : bytes -> bytes).

Definition write_records (w : AuditWriter) (entries : list Json) : AuditWriter :=
  fold_left (fun w e => emit (AuditSink := audit_writer redact clock takes) e w) entries w.
Definition line_of (e : Json) : bytes := audit_line (with_ts clock (redact e)).

Lemma file_write_capped cap f line : capped f = true -> file_write takes cap f line = f.
Proof. intros E. unfold file_write. rewrite E. by destruct f; cbn in *; subst. Qed.

Lemma file_writes cap lines f : capped f = false ->
  let f' := fold_left (file_write takes cap) lines f in
  exists k, file_bytes f' = file_bytes f ++ concat (map takes (take k lines)) /\ (k <= length lines)%nat
    /\ ((k < length lines)%nat -> capped f' = true /\ cap < Z.of_nat (length (file_bytes f')))
    /\ (forall j, (j < k)%nat -> Z.of_nat (length (file_bytes f ++ concat (map takes (take j lines)))) <= cap).
Proof.
  revert f. induction lines as [|line lines IH]; intros f Hf; cbn [fold_left].
  { exists O. cbn. rewrite app_nil_r. repeat split; lia. }
  unfold file_write at 2 4 6. rewrite Hf. cbn [orb].
  destruct (Z.ltb_spec cap (Z.of_nat (length (file_bytes f)))) as [Hlt|Hle].
  - exists O. assert (Hs : forall ls, fold_left (file_write takes cap) ls (mkFile (file_bytes f) true) = mkFile (file_bytes f) true).
    { induction ls as [|l ls IHl]; cbn [fold_left]; [done|]. by rewrite file_write_capped. }
    rewrite Hs. cbn. rewrite app_nil_r. repeat split; lia.
  - destruct (IH (mkFile (file_bytes f ++ takes line) false) eq_refl) as (k & E & Hk & Hc & Hj). cbn [file_bytes] in *.
    exists (S k). cbn [take map concat length]. rewrite app_assoc. repeat split; [done|lia| | |].
    + apply Hc. lia.
    + apply Hc. lia.
    + intros [|j] Hlt; cbn [take map concat]; [by rewrite app_nil_r|]. rewrite app_assoc. apply Hj. lia.
Qed.

(** C28: Every record reaches stderr, in order, as one line of its redacted form
    with a timestamp.  The file takes the same lines up to the first one it meets
    past its cap, so it holds at most one line more than the cap, and never takes
    another; the ring gets the redacted records. *)
Theorem writer_spec w entries f :
  file w = Some f -> capped f = false ->
  let w' := write_records w entries in
  stderr w' = stderr w ++ map line_of entries
  /\ (exists f' k, file w' = Some f' /\ file_bytes f' = file_bytes f ++ concat (map takes (take k (map line_of entries)))
        /\ (k <= length entries)%nat
        /\ ((k < length entries)%nat -> capped f' = true /\ cap w < Z.of_nat (length (file_bytes f')))
        /\ (forall j, (j < k)%nat -> Z.of_nat (length (file_bytes f ++ concat (map takes (take j (map line_of entries))))) <= cap w))
  /\ ring w' = option_map (fold_left ring_push (map (fun e => with_ts clock (redact e)) entries)) (ring w).
Proof.
  intros Ef Hf w'.
  assert (Hw : stderr w' = stderr w ++ map line_of entries
     /\ file w' = option_map (fold_left (file_write takes (cap w)) (map line_of entries)) (file w)
     /\ ring w' = option_map (fold_left ring_push (map (fun e => with_ts clock (redact e)) entries)) (ring w)).
  { unfold w', write_records. clear Ef Hf w'. revert w. induction entries as [|e l IH]; intros w; cbn [fold_left map option_map].
    { rewrite app_nil_r. destruct (file w), (ring w); done. }
    destruct (IH (emit (AuditSink := audit_writer redact clock takes) e w)) as (-> & -> & ->). cbn [emit audit_writer]. cbn [stderr file ring cap writer_write].
    rewrite <- app_assoc. split; [done|]. destruct (file w), (ring w); done. }
  destruct Hw as (Hs & Hfile & Hr). split; [exact Hs|]. split; [|exact Hr]. rewrite Hfile, Ef. cbn [option_map].
  destruct (file_writes (cap w) (map line_of entries) f Hf) as (k & Hb & Hk & Hc & Hj). rewrite length_map in *.
  eexists _, k. split; [reflexivity|]. exact (conj Hb (conj Hk (conj Hc Hj))).
Qed.
End WriterTheorems.

Section Instances.
Let record (n : Z) : Json := object [("kind"%string, JStr (lit "relay_x")); ("n"%string, JInt n)].

Lemma ring_spec_witness :
  ring_entries (fold_left ring_push (map record [2; 3; 4]) (mkRing [record 1] 2)) = [record 3; record 4].
Proof.
  pose proof (ring_spec (mkRing [record 1] 2) (map record [2; 3; 4]) 5 ltac:(reflexivity) ltac:(vm_compute; congruence)) as Hs.
  cbv zeta in Hs. destruct (ring_drain (fold_left _ _ _) 5) as [after d]. destruct Hs as [-> _]. reflexivity.
Defined.

Let sample_text : F64Text := {| lower_exp := fun _ => []; parse_f64 := fun _ => None |}.
Let no_line : AuditWriter := mkWriter [] (Some (mkFile [] false)) None 5.
Lemma writer_spec_witness :
  length (stderr (write_records (H := sample_text) id (mkDateTime 0 (Some 0)) id no_line (map record [1; 2]))) = 2%nat.
Proof.
  destruct (writer_spec (H := sample_text) id (mkDateTime 0 (Some 0)) id no_line (map record [1; 2]) (mkFile [] false) eq_refl eq_refl) as [-> _].
  reflexivity.
Defined.
End Instances.
