(* ===== verification/Url.v ===== *)
(** URLs: the model of the URL re-parse of [agentcage-egress/src/inject.rs]
    ([urlsplit], [is_valid_host], [set_url]), with the address parser of the
    standard library it calls. *)
From S2P Require Import Prelude Utf8 Message.
From Stdlib Require Import ZifyBool.

(** * Definitions *)

(** ** [std::net]'s parser *)

(** [Parser::read_number]: the digits read, how many, and the rest. *)
Fixpoint read_digits (radix : Z) (max_digits : nat) (l : bytes) (acc : Z) (count : nat) : option (Z * nat * bytes) :=
  match l with
  | c :: r =>
      match (if is_ascii_digit c then Some (c - 48)
             else if (radix =? 16) && in_range 97 102 c then Some (c - 87)
             else if (radix =? 16) && in_range 65 70 c then Some (c - 55) else None) with
      | Some d => if Nat.ltb max_digits (S count) then None else read_digits radix max_digits r (acc * radix + d) (S count)
      | None => Some (acc, count, l)
      end
  | [] => Some (acc, count, [])
  end.
Definition read_number (radix : Z) (max_digits : nat) (max : Z) (allow_zero_prefix : bool) (l : bytes) : option (Z * bytes) :=
  let? r := read_digits radix max_digits l 0 0 in
  let '(n, count, rest) := r in
  if Nat.eqb count 0 then None
  else if max <? n then None
  else if negb allow_zero_prefix && bool_decide (head l = Some 48) && Nat.ltb 1 count then None
  else Some (n, rest).
(** [strip_prefix] of a character, and the parser's [read_given_char]. *)
Definition strip_char (c : Z) (l : list Z) : option (list Z) :=
  match l with x :: r => if x =? c then Some r else None | [] => None end.
Definition read_given_char : Z -> bytes -> option bytes := strip_char.
(** [read_separator]: the separator comes before every item but the first. *)
Definition read_separator {A} (sep : Z) (index : nat) (inner : bytes -> option (A * bytes)) (l : bytes) : option (A * bytes) :=
  if Nat.ltb 0 index then let? l := read_given_char sep l in inner l else inner l.
Definition read_ipv4_addr (l : bytes) : option (Z * bytes) :=
  let octet i := read_separator 46 i (read_number 10 3 255 false) in
  let? (a, l) := octet 0%nat l in
  let? (b, l) := octet 1%nat l in
  let? (c, l) := octet 2%nat l in
  let? (d, l) := octet 3%nat l in
  Some (((a * 256 + b) * 256 + c) * 256 + d, l).
(** [read_groups]: [todo] groups from index [i]; how many were read, whether the
    last two were an IPv4 address, and the rest. *)
Fixpoint read_groups (todo : nat) (i : nat) (l : bytes) : nat * bool * bytes :=
  match todo with
  | O => (i, false, l)
  | S todo' =>
      match (if Nat.ltb 0 todo' then read_separator 58 i read_ipv4_addr l else None) with
      | Some (_, l) => ((i + 2)%nat, true, l)
      | None =>
          match read_separator 58 i (read_number 16 4 65535 true) l with
          | Some (_, l) => read_groups todo' (S i) l
          | None => (i, false, l)
          end
      end
  end.
Definition read_ipv6_addr (l : bytes) : option bytes :=
  let '(head_size, head_ipv4, l) := read_groups 8 0 l in
  if Nat.eqb head_size 8 then Some l
  else if head_ipv4 then None
  else
    let? l := read_given_char 58 l in
    let? l := read_given_char 58 l in
    let '(_, _, l) := read_groups (8 - (head_size + 1)) 0 l in
    Some l.
(** [host.parse::<IpAddr>().is_ok()]. *)
Definition is_ip_addr (host : str) : bool :=
  let l := as_bytes host in
  match (match read_ipv4_addr l with Some (_, l) => Some l | None => read_ipv6_addr l end) with
  | Some [] => true
  | _ => false
  end.

(** ** [urlsplit] *)

Record UrlParts : Type := mkUrlParts { u_scheme : str; netloc : str; u_path : str; u_query : option str; fragment : option str }.

(** The text up to the first character satisfying [f], and the rest from it. *)
Definition up_to (f : Z -> bool) (s : str) : str * str := span (fun c => negb (f c)) s.
Definition rsplit_once (c : Z) (s : str) : option (str * str) :=
  match split_once c (rev s) with Some (b, a) => Some (rev a, rev b) | None => None end.
Definition host_and_port (p : UrlParts) : str * option str :=
  let hostinfo := match rsplit_once 64 (netloc p) with Some (_, h) => h | None => netloc p end in
  match strip_char 91 hostinfo with
  | Some rest =>
      match split_once 93 rest with
      | Some (host, after) => (host, strip_char 58 after)
      | None => (rest, None)
      end
  | None => match split_once 58 hostinfo with Some (host, port) => (host, Some port) | None => (hostinfo, None) end
  end.
Definition is_url_scheme (scheme : str) : bool :=
  match scheme with c :: _ => is_ascii_alphabetic c | [] => false end
  && forallb (fun c => is_ascii_alphanumeric c || (c =? 43) || (c =? 45) || (c =? 46)) scheme.
Definition urlsplit (url : str) : UrlParts :=
  let cleaned := List.filter (fun c => negb ((c =? 9) || (c =? 13) || (c =? 10))) (drop_while (fun c => c <=? 32) url) in
  let '(scheme, rest) :=
    match split_once 58 cleaned with
    | Some (scheme, after) => if is_url_scheme scheme then (map ascii_lower scheme, after) else ([], cleaned)
    | None => ([], cleaned)
    end in
  let '(netloc, rest) :=
    match (let? r := strip_char 47 rest in strip_char 47 r) with
    | Some after => up_to (fun c => (c =? 47) || (c =? 63) || (c =? 35)) after
    | None => ([], rest)
    end in
  let '(rest, fragment) := match split_once 35 rest with Some (before, f) => (before, Some f) | None => (rest, None) end in
  let '(rest, query) := match split_once 63 rest with Some (before, q) => (before, Some q) | None => (rest, None) end in
  mkUrlParts scheme netloc rest query fragment.

Section Url.
Context `{Unicode} `{StrDebug}.

Definition hostname (p : UrlParts) : option str :=
  let '(host, _) := host_and_port p in if bool_decide (host = []) then None else Some (to_lowercase host).

Definition label_ok (l : str) : bool :=
  (Nat.leb 1 (length l) && Nat.leb (length l) 63) && forallb (fun b => is_ascii_alphanumeric b || (b =? 45) || (b =? 95)) l.
Definition is_valid_host (host : str) : bool :=
  if bool_decide (host = []) || Nat.ltb 255 (length (as_bytes host)) || negb (forallb is_ascii host) then false
  else
    let trimmed := match strip_char 46 (rev host) with Some r => rev r | None => host end in
    forallb label_ok (split_on 46 trimmed) || is_ip_addr host.

(** [;params] of the last path segment. *)
Definition split_params (path : str) : str * str :=
  let '(dir, last_) := match rsplit_once 47 path with Some (a, b) => (a ++ [47], b) | None => ([], path) end in
  match split_once 59 last_ with Some (a, b) => (dir ++ a, b) | None => (path, []) end.
Definition append_part (sep : Z) (path : str) (part : str) : str := if bool_decide (part = []) then path else path ++ [sep] ++ part.
(** [parse_port]: the port of the URL, the scheme's default for none and for 0. *)
Definition parse_port (p : UrlParts) : result str Z :=
  let default := if bool_decide (u_scheme p = lit "https") then 443 else 80 in
  match (host_and_port p).2 with
  | None | Some [] => Ok default
  | Some text =>
      if forallb is_ascii_digit (as_bytes text) then
        match parse_unsigned 65535 text with
        | Some n => Ok (if n =? 0 then default else n)
        | None => Err (lit "port out of range: " ++ text)
        end
      else Err (lit "port could not be cast to an integer: " ++ debug_str text)
  end.
Definition url_path (p : UrlParts) : str :=
  let '(path, params) := split_params (u_path p) in
  let path := append_part 59 path params in
  let path := append_part 63 path (default [] (u_query p)) in
  let path := append_part 35 path (default [] (fragment p)) in
  match strip_char 47 path with Some _ => path | None => 47 :: path end.
Definition set_url (req : Request) (url : str) : result str Request :=
  let parts := urlsplit url in
  match hostname parts with
  | None => Err (lit "no hostname given")
  | Some host =>
      if negb (is_valid_host host) then Err (lit "invalid host " ++ debug_str host)
      else
        let! port := parse_port parts in
        let path := url_path parts in
        if negb (forallb is_ascii path) then Err (lit "non-ASCII path")
        else
          let scheme := u_scheme parts in
          let headers :=
            if header_contains (headers req) (lit "host") then
              let value := if is_default_port scheme port then bracketed host else bracketed host ++ [58] ++ show_unsigned port in
              header_set (headers req) (lit "host") (as_bytes value)
            else headers req in
          Ok (mkRequest (method req) scheme host port path (http_version req) headers (body req))
  end.
End Url.

(** * Theorems *)

(** ** The characters of a host *)

Definition host_char (c : Z) : Prop := is_ascii_alphanumeric c = true \/ c = 45 \/ c = 46 \/ c = 58 \/ c = 95.
(** [rest] follows characters of an address. *)
Definition eats (l rest : bytes) : Prop := exists pre, l = pre ++ rest /\ Forall host_char pre.

Lemma eats_refl l : eats l l.
Proof. by exists []. Qed.
Lemma eats_trans a b c : eats a b -> eats b c -> eats a c.
Proof. intros (p & -> & Hp) (q & -> & Hq). exists (p ++ q). split; [by rewrite app_assoc|by apply Forall_app]. Qed.
Lemma eats_cons c l r : host_char c -> eats l r -> eats (c :: l) r.
Proof. intros Hc (p & -> & Hp). exists (c :: p). by split; [|constructor]. Qed.

Lemma read_digits_eats radix m l acc count n k rest : read_digits radix m l acc count = Some (n, k, rest) -> eats l rest.
Proof.
  revert acc count. induction l as [|c l IH]; intros acc count; cbn [read_digits]; [intros [= _ _ <-]; apply eats_refl|].
  assert (Hd : forall d, (if is_ascii_digit c then Some (c - 48) else if (radix =? 16) && in_range 97 102 c then Some (c - 87)
    else if (radix =? 16) && in_range 65 70 c then Some (c - 55) else None) = Some d -> host_char c).
  { intros d Hd. left. unfold is_ascii_alphanumeric, is_ascii_alphabetic, is_ascii_lowercase, is_ascii_uppercase, is_ascii_digit, in_range in *.
    revert Hd. repeat case_goal; try discriminate; lia. }
  destruct (if is_ascii_digit c then _ else _) as [d|]; [|intros [= _ _ <-]; apply eats_refl].
  destruct (Nat.ltb m (S count)); [discriminate|]. intros Hr. apply eats_cons; [by apply (Hd d)|by apply IH in Hr].
Qed.
Lemma read_number_eats radix m max z l n rest : read_number radix m max z l = Some (n, rest) -> eats l rest.
Proof.
  unfold read_number. destruct (read_digits radix m l 0 0) as [[[v k] r]|] eqn:E; [|discriminate]. cbn [mbind option_bind].
  destruct (Nat.eqb k 0); [discriminate|]. destruct (max <? v); [discriminate|]. destruct (_ && _); [discriminate|]. intros [= _ <-].
  by apply read_digits_eats in E.
Qed.
Lemma strip_char_eats c l r : host_char c -> strip_char c l = Some r -> eats l r.
Proof. intros Hc. destruct l as [|x l]; [discriminate|]. cbn [strip_char]. destruct (Z.eqb_spec x c) as [->|]; [|discriminate]. intros [= <-]. by apply eats_cons, eats_refl. Qed.
Lemma read_separator_eats {A} sep i (f : bytes -> option (A * bytes)) l a r : host_char sep ->
  (forall l a r, f l = Some (a, r) -> eats l r) -> read_separator sep i f l = Some (a, r) -> eats l r.
Proof.
  intros Hs Hf. unfold read_separator. destruct (Nat.ltb 0 i); [|apply Hf]. destruct (read_given_char sep l) as [l'|] eqn:E; [|discriminate].
  cbn [mbind option_bind]. intros Hr%Hf. eapply eats_trans; [|exact Hr]. by apply (strip_char_eats sep).
Qed.
Lemma read_ipv4_eats l a r : read_ipv4_addr l = Some (a, r) -> eats l r.
Proof.
  assert (Ho : forall i l a r, read_separator 46 i (read_number 10 3 255 false) l = Some (a, r) -> eats l r).
  { intros i l' a' r'. apply read_separator_eats; [right; right; by left|intros ? ? ?; apply read_number_eats]. }
  unfold read_ipv4_addr. cbv zeta.
  destruct (read_separator 46 0 _ l) as [[a0 l0]|] eqn:E0; [|discriminate]. cbn [mbind option_bind].
  destruct (read_separator 46 1 _ l0) as [[a1 l1]|] eqn:E1; [|discriminate]. cbn [mbind option_bind].
  destruct (read_separator 46 2 _ l1) as [[a2 l2]|] eqn:E2; [|discriminate]. cbn [mbind option_bind].
  destruct (read_separator 46 3 _ l2) as [[a3 l3]|] eqn:E3; [|discriminate]. cbn [mbind option_bind]. intros [= _ <-].
  apply Ho in E0, E1, E2, E3. by eapply eats_trans, eats_trans, eats_trans.
Qed.
Lemma read_groups_eats todo i l n b r : read_groups todo i l = (n, b, r) -> eats l r.
Proof.
  assert (Hc : host_char 58) by (right; right; right; by left).
  revert i l. induction todo as [|todo IH]; intros i l; cbn [read_groups]; [intros [= _ _ <-]; apply eats_refl|].
  destruct (if Nat.ltb 0 todo then _ else _) as [[a l']|] eqn:E4.
  - intros [= _ _ <-]. destruct (Nat.ltb 0 todo); [|discriminate]. by eapply read_separator_eats in E4; [|exact Hc|apply read_ipv4_eats].
  - destruct (read_separator 58 i (read_number 16 4 65535 true) l) as [[a l']|] eqn:E6; [|intros [= _ _ <-]; apply eats_refl].
    intros Hr%IH. eapply eats_trans; [|exact Hr]. eapply read_separator_eats; [exact Hc| |exact E6]. intros ? ? ?. apply read_number_eats.
Qed.
Lemma is_ip_addr_chars host : is_ip_addr host = true -> Forall host_char (as_bytes host).
Proof.
  unfold is_ip_addr. intros Hi.
  assert (He : eats (as_bytes host) []).
  { destruct (read_ipv4_addr (as_bytes host)) as [[a l]|] eqn:E4.
    - destruct l; [|discriminate]. by apply read_ipv4_eats in E4.
    - clear E4. destruct (read_ipv6_addr (as_bytes host)) as [l|] eqn:E6; [|discriminate]. destruct l; [|discriminate]. clear Hi. revert E6. unfold read_ipv6_addr.
      destruct (read_groups 8 0 (as_bytes host)) as [[n b] l1] eqn:E1. destruct (Nat.eqb n 8); [intros [= ->]; by apply read_groups_eats in E1|].
      destruct b; [discriminate|]. destruct (read_given_char 58 l1) as [l2|] eqn:E2; [|discriminate]. cbn [mbind option_bind].
      destruct (read_given_char 58 l2) as [l3|] eqn:E3; [|discriminate]. cbn [mbind option_bind].
      destruct (read_groups _ 0 l3) as [[n4 b4] l4] eqn:E4. intros [= ->].
      assert (Hc : host_char 58) by (right; right; right; by left).
      eapply eats_trans; [by eapply read_groups_eats|]. eapply eats_trans; [by apply (strip_char_eats 58)|].
      eapply eats_trans; [by apply (strip_char_eats 58)|]. by eapply read_groups_eats. }
  destruct He as (pre & E & Hp). by rewrite E, app_nil_r.
Qed.

Section Theorems.
Context `{Unicode} `{StrDebug}.

Lemma label_ok_chars l : label_ok l = true -> Forall host_char l /\ l <> [].
Proof.
  unfold label_ok. intros [[H1%Nat.leb_le _]%andb_true_iff Hf%forallb_Forall]%andb_true_iff. split; [|by destruct l; cbn in H1; [lia|]].
  eapply Forall_impl; [exact Hf|]. intros c Hc. cbv beta in *. unfold host_char.
  destruct (is_ascii_alphanumeric c); [by left|]. apply orb_true_iff in Hc as [Hc%Z.eqb_eq|Hc%Z.eqb_eq]; [right; by left|right; right; right; by right].
Qed.
Lemma strip_char_some c l r : strip_char c l = Some r -> l = c :: r.
Proof. destruct l as [|x l]; [discriminate|]. cbn [strip_char]. destruct (Z.eqb_spec x c) as [->|]; [|discriminate]. by intros [= ->]. Qed.
Lemma strip_char_none c l : head l <> Some c -> strip_char c l = None.
Proof. destruct l as [|x l]; [done|]. cbn [strip_char head]. destruct (Z.eqb_spec x c) as [->|]; [done|reflexivity]. Qed.

Lemma is_valid_host_chars host : is_valid_host host = true -> Forall host_char host /\ host <> [] /\ (length host <= 255)%nat.
Proof.
  unfold is_valid_host. destruct (_ || _ || _) eqn:Eg; [discriminate|]. apply orb_false_iff in Eg as [[Hne Hlen]%orb_false_iff Ha].
  apply bool_decide_eq_false in Hne. apply Nat.ltb_ge in Hlen. apply negb_false_iff, forallb_Forall in Ha.
  assert (Hasc : Forall (fun c => c < 128) host).
  { eapply Forall_impl; [exact Ha|]. intros c Hc. unfold is_ascii, in_range in Hc. lia. }
  rewrite as_bytes_ascii in Hlen by exact Hasc. intros Hv. split_and!; [|exact Hne|exact Hlen].
  apply orb_true_iff in Hv as [Hl|Hi]; [|apply is_ip_addr_chars in Hi; by rewrite as_bytes_ascii in Hi].
  assert (Ht : forall t, forallb label_ok (split_on 46 t) = true -> Forall host_char t).
  { intros t Ht%forallb_Forall. rewrite Forall_forall in Ht. apply Forall_forall. intros c Hc. rewrite <- (join_split 46 t) in Hc.
    apply elem_of_join in Hc as [->|(p & Hp & Hc)]; [right; right; by left|]. apply Ht, label_ok_chars in Hp as [Hp _].
    rewrite Forall_forall in Hp. by apply Hp. }
  destruct (strip_char 46 (rev host)) as [r|] eqn:Es; [|by apply Ht].
  apply strip_char_some in Es. apply (f_equal (@rev Z)) in Es. rewrite rev_involutive in Es. cbn [rev] in Es. rewrite Es.
  apply Forall_app. split; [by apply Ht|]. constructor; [right; right; by left|constructor].
Qed.

(** ** The pieces of a URL *)

Definition inline (c : Z) : Prop := c <> 9 /\ c <> 10 /\ c <> 13.
Abbreviation inline_opt o := (Forall inline (default [] (o : option str))).

Lemma split_once_forall P c s a b : Forall P s -> split_once c s = Some (a, b) -> Forall P a /\ Forall P b.
Proof.
  unfold split_once. intros Hs. destruct (span _ s) as [x y] eqn:E. apply span_app in E. destruct y as [|z y]; [discriminate|]. intros [= <- <-].
  rewrite E in Hs. apply Forall_app in Hs as [? Hs]. apply Forall_cons in Hs. tauto.
Qed.
Lemma rsplit_once_forall P c s a b : Forall P s -> rsplit_once c s = Some (a, b) -> Forall P a /\ Forall P b.
Proof.
  unfold rsplit_once. intros Hs%Forall_rev. destruct (split_once c (rev s)) as [[x y]|] eqn:E; [|discriminate]. intros [= <- <-].
  apply (split_once_forall P) in E as [? ?]; [|exact Hs]. split; by apply Forall_rev.
Qed.
Lemma urlsplit_inline url : Forall inline (u_path (urlsplit url)) /\ inline_opt (u_query (urlsplit url)) /\ inline_opt (fragment (urlsplit url)).
Proof.
  unfold urlsplit. set (cleaned := List.filter _ _).
  assert (Hc : Forall inline cleaned).
  { apply Forall_forall. intros c Hc. apply list_elem_of_In, List.filter_In in Hc as [_ Hc]. unfold inline. lia. }
  clearbody cleaned. destruct (match split_once 58 cleaned with Some _ => _ | None => _ end) as [scheme rest] eqn:E1.
  assert (H1 : Forall inline rest).
  { destruct (split_once 58 cleaned) as [[s a]|] eqn:Es; [|by injection E1 as _ <-].
    apply (split_once_forall inline) in Es as [_ Ha]; [|exact Hc]. destruct (is_url_scheme s); by injection E1 as _ <-. }
  destruct (match (let? r := strip_char 47 rest in strip_char 47 r) with Some _ => _ | None => _ end) as [nl rest2] eqn:E2.
  assert (H2 : Forall inline rest2).
  { destruct (strip_char 47 rest) as [r|] eqn:Es; cbn [mbind option_bind] in E2; [|by injection E2 as _ <-].
    apply strip_char_some in Es. subst rest. apply Forall_cons in H1 as [? H1].
    destruct (strip_char 47 r) as [r'|] eqn:Es; [|injection E2 as _ <-; by constructor].
    apply strip_char_some in Es. subst r. apply Forall_cons in H1 as [_ H1]. unfold up_to in E2. apply span_app in E2. rewrite E2 in H1. by apply Forall_app in H1 as [_ H1]. }
  destruct (match split_once 35 rest2 with Some _ => _ | None => _ end) as [rest3 fr] eqn:E3.
  assert (H3 : Forall inline rest3 /\ inline_opt fr).
  { destruct (split_once 35 rest2) as [[a b]|] eqn:Es; injection E3 as <- <-; [by apply (split_once_forall inline) in Es|by split]. }
  destruct (match split_once 63 rest3 with Some _ => _ | None => _ end) as [rest4 q] eqn:E4.
  assert (H4 : Forall inline rest4 /\ inline_opt q).
  { destruct (split_once 63 rest3) as [[a b]|] eqn:Es; injection E4 as <- <-; [apply (split_once_forall inline) in Es; tauto|]. split; [tauto|by constructor]. }
  cbn. tauto.
Qed.
Lemma append_part_inline sep path part : inline sep -> Forall inline path -> Forall inline part -> Forall inline (append_part sep path part).
Proof. intros Hs Hp Hq. unfold append_part. case_bool_decide; [exact Hp|]. apply Forall_app. split; [exact Hp|]. by constructor. Qed.
Lemma url_path_inline p : Forall inline (u_path p) -> inline_opt (u_query p) -> inline_opt (fragment p) ->
  Forall inline (url_path p) /\ head (url_path p) = Some 47.
Proof.
  intros Hp Hq Hf. unfold url_path. destruct (split_params (u_path p)) as [path params] eqn:E.
  assert (Hpp : Forall inline path /\ Forall inline params).
  { unfold split_params in E. destruct (match rsplit_once 47 (u_path p) with Some _ => _ | None => _ end) as [dir l] eqn:Er.
    assert (Hd : Forall inline dir /\ Forall inline l).
    { destruct (rsplit_once 47 (u_path p)) as [[a b]|] eqn:Es; injection Er as <- <-; [|by split].
      apply (rsplit_once_forall inline) in Es as [? ?]; [|exact Hp]. split; [|assumption]. apply Forall_app. by repeat constructor. }
    destruct (split_once 59 l) as [[a b]|] eqn:Es; injection E as <- <-; [|by split].
    apply (split_once_forall inline) in Es as [? ?]; [|tauto]. split; [|assumption]. apply Forall_app. tauto. }
  set (full := append_part 35 _ _). assert (Hfull : Forall inline full) by (subst full; repeat apply append_part_inline; unfold inline; try lia; tauto).
  destruct (strip_char 47 full) as [r|] eqn:Es; [apply strip_char_some in Es; by rewrite Es in *|].
  split; [|reflexivity]. constructor; [unfold inline; lia|exact Hfull].
Qed.
Lemma digits_value_max max acc l n : acc <= max -> digits_value max acc l = Some n -> n <= max.
Proof.
  revert acc. induction l as [|c l IH]; intros acc Ha; cbn [digits_value]; [by intros [= <-]|].
  destruct (digit_value c) as [d|]; [|discriminate]. cbn [mbind option_bind]. destruct (Z.ltb_spec max (acc * 10 + d)); [discriminate|].
  apply IH. lia.
Qed.
Lemma parse_port_range p n : parse_port p = Ok n -> 1 <= n <= 65535.
Proof.
  unfold parse_port. set (d := if bool_decide (u_scheme p = lit "https") then 443 else 80).
  assert (Hd : 1 <= d <= 65535) by (subst d; case_bool_decide; lia). clearbody d.
  destruct (host_and_port p).2 as [[|c t]|]; [intros [= <-]; lia| |intros [= <-]; lia].
  destruct (forallb is_ascii_digit _); [|discriminate]. destruct (parse_unsigned 65535 (c :: t)) as [m|] eqn:E; [|discriminate].
  intros [= <-]. pose proof (parse_unsigned_nonneg _ _ _ E) as H1.
  assert (H2 : m <= 65535).
  { unfold parse_unsigned in E. destruct t as [|c2 t]; [|destruct (c =? 43)]; (eapply digits_value_max; [|exact E]); lia. }
  destruct (Z.eqb_spec m 0); lia.
Qed.

(** Whatever URL a rewrite produces, the request ends up with a host that is a
    DNS name or an address, a port a connection can be made to, a path that
    starts with a slash and breaks no line, and a [Host] header that names
    exactly that host and port; nothing else of the request changes. *)
Theorem set_url_safe req u req' : set_url req u = Ok req' ->
  is_valid_host (host req') = true /\ Forall host_char (host req') /\ (0 < length (host req') <= 255)%nat
  /\ 1 <= port req' <= 65535
  /\ head (path req') = Some 47 /\ Forall (fun c => is_ascii c = true /\ inline c) (path req')
  /\ method req' = method req /\ http_version req' = http_version req /\ body req' = body req
  /\ (forall m, same_name (lit "host") m = false -> List.filter (named m) (headers req') = List.filter (named m) (headers req))
  /\ map snd (List.filter (named (lit "host")) (headers req')) =
     (if header_contains (headers req) (lit "host") then
        [as_bytes (if is_default_port (scheme req') (port req') then bracketed (host req')
                   else bracketed (host req') ++ [58] ++ show_unsigned (port req'))] else []).
Proof.
  unfold set_url. destruct (hostname (urlsplit u)) as [h|]; [|discriminate]. destruct (is_valid_host h) eqn:Eh; [|discriminate]. cbn [negb].
  destruct (parse_port (urlsplit u)) as [n|] eqn:Ep; [|discriminate]. cbn [result_bind].
  destruct (forallb is_ascii (url_path (urlsplit u))) eqn:Ea; [|discriminate]. cbn [negb]. intros [= <-]. cbn [host port path method http_version body headers scheme].
  destruct (is_valid_host_chars h Eh) as (Hc & Hne & Hl). destruct (urlsplit_inline u) as (H1 & H2 & H3).
  destruct (url_path_inline _ H1 H2 H3) as [Hi Hh]. apply forallb_Forall in Ea.
  apply parse_port_range in Ep as [Ep1 Ep2]. split_and!; try assumption; try reflexivity.
  - destruct h; [done|cbn; lia].
  - apply Forall_and. by split.
  - intros m Hm. destruct (header_contains (headers req) (lit "host")); [by apply set_all_other|done].
  - destruct (header_contains (headers req) (lit "host")) eqn:Ec; [|by rewrite filter_named_none].
    apply set_all_self.
Qed.

(** ** Reading a URL back *)

Definition part (sep : Z) (o : option str) : str := match o with None => [] | Some x => sep :: x end.
(** A request target with no empty parameters, query or fragment. *)
Definition target (path : str) : Prop := exists dir last_ params q f,
  path = (dir ++ 47 :: last_ ++ part 59 params) ++ part 63 q ++ part 35 f
  /\ head path = Some 47 /\ Forall (fun c => is_ascii c = true /\ inline c) path
  /\ (63 ∉ dir) /\ (35 ∉ dir) /\ Forall (fun c => c <> 47 /\ c <> 59 /\ c <> 63 /\ c <> 35) last_
  /\ Forall (fun c => c <> 47 /\ c <> 63 /\ c <> 35) (default [] params) /\ (35 ∉ default [] q)
  /\ params <> Some [] /\ q <> Some [] /\ f <> Some [].
(** A request whose URL says all of it. *)
Record plain (r : Request) : Prop := {
  plain_scheme : is_url_scheme (scheme r) = true; plain_lower : map ascii_lower (scheme r) = scheme r;
  plain_host : is_valid_host (host r) = true; plain_host_lower : to_lowercase (host r) = host r;
  plain_port : 1 <= port r <= 65535; plain_path : target (path r)
}.
Definition authority (r : Request) : str :=
  bracketed (host r) ++ (if is_default_port (scheme r) (port r) then [] else 58 :: show_unsigned (port r)).
Definition with_host_header (r : Request) : Headers :=
  if header_contains (headers r) (lit "host") then header_set (headers r) (lit "host") (as_bytes (authority r)) else headers r.

Lemma url_authority r : url r = scheme r ++ 58 :: 47 :: 47 :: authority r ++ path r.
Proof. unfold url, authority. destruct (is_default_port _ _); by rewrite ?app_nil_r, <- ?app_assoc. Qed.

Lemma split_part sep a o : sep ∉ a ->
  match split_once sep (a ++ part sep o) with Some (b, x) => (b, Some x) | None => (a ++ part sep o, None) end = (a, o).
Proof. intros Ha. destruct o as [x|]; cbn [part]; [by rewrite split_once_app|]. by rewrite app_nil_r, split_once_none. Qed.
Lemma rsplit_once_app c a b : c ∉ b -> rsplit_once c (a ++ c :: b) = Some (a, b).
Proof.
  intros Hb. unfold rsplit_once. rewrite rev_app_distr. cbn [rev]. rewrite <- app_assoc. cbn [app].
  rewrite split_once_app; [by rewrite !rev_involutive|]. intros Hc%list_elem_of_In%in_rev. by apply list_elem_of_In in Hc.
Qed.
Lemma append_part_some sep a o : o <> Some [] -> append_part sep a (default [] o) = a ++ part sep o.
Proof. intros Ho. unfold append_part. destruct o as [[|x l]|]; cbn [part default from_option id]; [done|by rewrite bool_decide_eq_false_2|by rewrite bool_decide_eq_true_2, app_nil_r]. Qed.

Lemma target_read path : target path -> forall scheme netloc,
  let '(rest, fragment) := match split_once 35 path with Some (before, f) => (before, Some f) | None => (path, None) end in
  let '(rest, query) := match split_once 63 rest with Some (before, q) => (before, Some q) | None => (rest, None) end in
  url_path (mkUrlParts scheme netloc rest query fragment) = path.
Proof.
  intros (dir & l & params & q & f & E & Hh & _ & Hd1 & Hd2 & Hl & Hp & Hq & Np & Nq & Nf) scheme netloc.
  assert (Hno : forall c, (c = 63 \/ c = 35) -> c ∉ dir ++ 47 :: l ++ part 59 params).
  { intros c Hc. rewrite not_elem_of_app, not_elem_of_cons, not_elem_of_app. rewrite Forall_forall in Hl, Hp. split_and!.
    - by destruct Hc as [->| ->].
    - lia.
    - intros Hin%Hl. lia.
    - destruct params as [x|]; cbn [part]; [|apply not_elem_of_nil]. apply not_elem_of_cons. split; [lia|]. intros Hin. specialize (Hp c Hin). cbv beta in Hp. lia. }
  set (p := dir ++ 47 :: l ++ part 59 params) in *.
  assert (E35 : match split_once 35 path with Some (b, x) => (b, Some x) | None => (path, None) end = (p ++ part 63 q, f)).
  { rewrite E, app_assoc. apply split_part, not_elem_of_app. split; [apply Hno; by right|]. destruct q as [x|]; cbn [part]; [|apply not_elem_of_nil].
    apply not_elem_of_cons. split; [lia|exact Hq]. }
  rewrite E35. rewrite split_part by (apply Hno; by left). unfold url_path. cbn [u_path u_query fragment].
  assert (Es : split_params p = (dir ++ 47 :: l, default [] params)).
  { unfold p, split_params. rewrite rsplit_once_app.
    - rewrite Forall_forall in Hl. pose proof (split_part 59 l params ltac:(by intros Hin%Hl; lia)) as Hsp.
      destruct (split_once 59 (l ++ part 59 params)) as [[a b]|]; injection Hsp as E1 <-.
      + cbn [default from_option]. rewrite E1, <- app_assoc. reflexivity.
      + by rewrite E1.
    - apply not_elem_of_app. rewrite Forall_forall in Hl, Hp. split; [by intros Hin%Hl; lia|]. destruct params as [x|]; cbn [part]; [|apply not_elem_of_nil].
      apply not_elem_of_cons. split; [lia|]. intros Hin. specialize (Hp 47 Hin). cbv beta in Hp. lia. }
  rewrite Es. rewrite !append_part_some by assumption.
  replace ((dir ++ 47 :: l) ++ part 59 params) with p by (unfold p; by rewrite <- app_assoc).
  rewrite <- app_assoc, <- E. destruct path as [|c p']; [discriminate|]. injection Hh as ->. reflexivity.
Qed.

Lemma host_char_not c : host_char c -> inline c /\ c <> 47 /\ c <> 63 /\ c <> 35 /\ c <> 64 /\ c <> 91 /\ c <> 93.
Proof.
  unfold host_char, inline, is_ascii_alphanumeric, is_ascii_alphabetic, is_ascii_lowercase, is_ascii_uppercase, is_ascii_digit, in_range. lia.
Qed.
Lemma show_port n : 1 <= n <= 65535 -> Forall (fun c => is_ascii_digit c = true) (show_unsigned n) /\ show_unsigned n <> [] /\ parse_unsigned 65535 (show_unsigned n) = Some n.
Proof.
  intros Hn.
  destruct (show_unsigned_spec n ltac:(lia)) as (Hd & Hv & Hne & _). split_and!; [exact Hd|exact Hne|].
  rewrite parse_unsigned_digits by (try assumption; lia). by rewrite Hv.
Qed.

Lemma split_authority r nl : plain r -> netloc nl = authority r ->
  host_and_port nl = (host r, if is_default_port (scheme r) (port r) then None else Some (show_unsigned (port r))).
Proof.
  intros Hr En. destruct (is_valid_host_chars _ (plain_host r Hr)) as (Hc & Hne & _). destruct (show_port _ (plain_port r Hr)) as (Hd & Hn & _).
  assert (Hp : forall c, c <> 58 -> (is_ascii_digit c = false) -> c ∉ (if is_default_port (scheme r) (port r) then [] else 58 :: show_unsigned (port r))).
  { intros c H58 Hcd. destruct (is_default_port _ _); [apply not_elem_of_nil|]. apply not_elem_of_cons. split; [exact H58|]. rewrite Forall_forall in Hd. intros Hin%Hd. congruence. }
  assert (Hh : forall c, (c = 64 \/ c = 91 \/ c = 93) -> c ∉ host r).
  { intros c Hcc Hin. rewrite Forall_forall in Hc. apply Hc, host_char_not in Hin. lia. }
  unfold host_and_port. rewrite En. unfold authority, bracketed.
  set (tail := if is_default_port _ _ then [] else _) in *.
  assert (Ht : strip_char 58 tail = if is_default_port (scheme r) (port r) then None else Some (show_unsigned (port r))) by (subst tail; by destruct (is_default_port _ _)).
  assert (Hat : forall a, 64 ∉ a -> rsplit_once 64 a = None).
  { intros a Ha. unfold rsplit_once. rewrite split_once_none; [done|]. intros Hin%list_elem_of_In%in_rev. by apply list_elem_of_In in Hin. }
  assert (H64 : 64 ∉ tail) by (by apply Hp). assert (H64h : 64 ∉ host r) by (apply Hh; by left).
  case_bool_decide as Eb.
  - rewrite Hat. 2:{ rewrite !not_elem_of_app, !not_elem_of_cons. split_and!; try lia; try apply not_elem_of_nil; assumption. }
    rewrite <- !app_assoc. cbn [app strip_char]. rewrite Z.eqb_refl. rewrite split_once_app by (apply Hh; right; by right). by rewrite Ht.
  - rewrite Hat by (apply not_elem_of_app; by split). rewrite strip_char_none.
    2:{ destruct (host r) as [|c h] eqn:E; [done|]. cbn. intros [= ->]. apply (Hh 91); [right; by left|]. by left. }
    subst tail. destruct (is_default_port _ _); [rewrite app_nil_r; by rewrite split_once_none|]. by rewrite split_once_app.
Qed.

Lemma authority_chars r : plain r -> Forall (fun c => inline c /\ c <> 47 /\ c <> 63 /\ c <> 35) (authority r).
Proof.
  intros Hr. destruct (is_valid_host_chars _ (plain_host r Hr)) as (Hc & _). destruct (show_port _ (plain_port r Hr)) as (Hd & _).
  unfold authority, bracketed. assert (Hhost : Forall (fun c => inline c /\ c <> 47 /\ c <> 63 /\ c <> 35) (host r)).
  { eapply Forall_impl; [exact Hc|]. intros c Hcc%host_char_not. tauto. }
  apply Forall_app. split; [case_bool_decide; [|exact Hhost]; repeat (apply Forall_app; split); try exact Hhost; repeat constructor; unfold inline; lia|].
  destruct (is_default_port _ _); [constructor|]. constructor; [unfold inline; lia|]. eapply Forall_impl; [exact Hd|].
  intros c Hcd. unfold is_ascii_digit, in_range, inline in *. lia.
Qed.
Lemma urlsplit_url r : plain r -> urlsplit (url r) =
  let '(rest, fr) := match split_once 35 (path r) with Some (b, x) => (b, Some x) | None => (path r, None) end in
  let '(rest, qu) := match split_once 63 rest with Some (b, x) => (b, Some x) | None => (rest, None) end in
  mkUrlParts (scheme r) (authority r) rest qu fr.
Proof.
  intros Hr. pose proof (plain_path r Hr) as (dir & l & params & q & f & _ & Hhead & Hasc & _). pose proof (authority_chars r Hr) as Hauth.
  pose proof (plain_scheme r Hr) as Hsch. unfold is_url_scheme in Hsch. apply andb_true_iff in Hsch as [Hs1 Hs2%forallb_Forall].
  assert (Hsc : Forall (fun c => inline c /\ 32 < c /\ c <> 58) (scheme r)).
  { eapply Forall_impl; [exact Hs2|]. unfold inline, is_ascii_alphanumeric, is_ascii_alphabetic, is_ascii_lowercase, is_ascii_uppercase, is_ascii_digit, in_range. intros c Hcc. lia. }
  unfold urlsplit. rewrite url_authority.
  assert (Ed : drop_while (fun c => c <=? 32) (scheme r ++ 58 :: 47 :: 47 :: authority r ++ path r) = scheme r ++ 58 :: 47 :: 47 :: authority r ++ path r).
  { destruct (scheme r) as [|c s]; [done|]. apply Forall_cons in Hsc as [(_ & H32 & _) _]. cbn [app drop_while]. destruct (Z.leb_spec c 32); [lia|done]. }
  rewrite Ed. clear Ed. rewrite (List.forallb_filter_id (fun c => negb _)).
  2:{ apply forallb_forall. intros c Hin%list_elem_of_In. assert (Hi : inline c); [|unfold inline in Hi; lia].
      apply elem_of_app in Hin as [Hin|Hin]; [rewrite Forall_forall in Hsc; by apply Hsc|].
      apply elem_of_cons in Hin as [->|Hin]; [unfold inline; lia|]. apply elem_of_cons in Hin as [->|Hin]; [unfold inline; lia|].
      apply elem_of_cons in Hin as [->|Hin]; [unfold inline; lia|]. rewrite Forall_forall in Hauth, Hasc.
      apply elem_of_app in Hin as [Hin|Hin]; [by apply Hauth|by apply Hasc]. }
  rewrite split_once_app by (rewrite Forall_forall in Hsc; intros Hin%Hsc; lia). rewrite (plain_scheme r Hr), (plain_lower r Hr).
  cbn [strip_char mbind option_bind]. rewrite Z.eqb_refl. cbn [mbind option_bind]. cbn [strip_char]. rewrite Z.eqb_refl. unfold up_to. rewrite span_run.
  - reflexivity.
  - eapply Forall_impl; [exact Hauth|]. intros c Hcc. cbv beta in *. lia.
  - destruct (path r) as [|c p]; [done|]. injection Hhead as ->. reflexivity.
Qed.

(** A request is told from its URL: setting the URL a request reports gives the
    same scheme, host, port and path back (bracketed addresses and default ports
    included), with the [Host] header, when there is one, made to agree. *)
Theorem set_url_roundtrip r : plain r ->
  set_url r (url r) = Ok (mkRequest (method r) (scheme r) (host r) (port r) (path r) (http_version r) (with_host_header r) (body r)).
Proof.
  intros Hr. pose proof (plain_path r Hr) as Hpath. pose proof Hpath as (dir & l & params & q & f & _ & Hhead & Hasc & _).
  destruct (is_valid_host_chars _ (plain_host r Hr)) as (Hc & Hne & _). destruct (show_port _ (plain_port r Hr)) as (Hd & Hn & Hpp).
  pose proof (urlsplit_url r Hr) as Hu. pose proof (target_read (path r) Hpath (scheme r) (authority r)) as Ht.
  destruct (match split_once 35 (path r) with Some _ => _ | None => _ end) as [rest fr].
  destruct (match split_once 63 rest with Some _ => _ | None => _ end) as [rest2 qu].
  unfold set_url. rewrite Hu. set (p := mkUrlParts _ _ _ _ _) in *.
  pose proof (split_authority r p Hr eq_refl) as Hap. unfold hostname. rewrite Hap. rewrite bool_decide_eq_false_2 by exact Hne.
  rewrite (plain_host_lower r Hr), (plain_host r Hr). cbn [negb].
  assert (Epp : parse_port p = Ok (port r)).
  { unfold parse_port. rewrite Hap. cbn [snd u_scheme p]. unfold is_default_port. pose proof (plain_port r Hr) as Hrange.
    destruct (_ || _) eqn:Edef.
    - f_equal. apply orb_true_iff in Edef as [[E1%bool_decide_eq_true E2%Z.eqb_eq]%andb_true_iff|[E1%bool_decide_eq_true E2%Z.eqb_eq]%andb_true_iff]; rewrite E1, E2; reflexivity.
    - destruct (show_unsigned (port r)) as [|c t] eqn:Es; [done|]. rewrite as_bytes_ascii.
      2:{ eapply Forall_impl; [exact Hd|]. intros c' Hc'. unfold is_ascii_digit, in_range in Hc'. lia. }
      rewrite (proj2 (forallb_Forall _ _)) by exact Hd. rewrite Hpp. destruct (Z.eqb_spec (port r) 0); [lia|reflexivity]. }
  rewrite Epp. cbn [result_bind]. rewrite Ht. rewrite (proj2 (forallb_Forall _ _)) by (eapply Forall_impl; [exact Hasc|]; by intros c [? _]).
  cbn [negb u_scheme p]. f_equal. f_equal. unfold with_host_header, authority. destruct (header_contains _ _); [|done].
  f_equal. f_equal. destruct (is_default_port _ _); by rewrite ?app_nil_r.
Qed.
End Theorems.

(** ** A concrete request *)

Definition sample_debug : StrDebug := {| debug_str := fun s => [34] ++ s ++ [34] |}.
Definition sample_target : Request :=
  mkRequest (lit "GET") (lit "https") (lit "::ffff:10.0.0.1") 8443 (lit "/a;b/c;p?q=1#f") (lit "HTTP/1.1") [(lit "hOST", lit "x")] [].

Lemma set_url_roundtrip_witness :
  let U := ascii_unicode in let D := sample_debug in
  url sample_target = lit "https://[::ffff:10.0.0.1]:8443/a;b/c;p?q=1#f"
  /\ set_url sample_target (url sample_target) =
     Ok (mkRequest (lit "GET") (lit "https") (lit "::ffff:10.0.0.1") 8443 (lit "/a;b/c;p?q=1#f") (lit "HTTP/1.1")
           [(lit "hOST", lit "[::ffff:10.0.0.1]:8443")] []).
Proof.
  intros U D. split; [by vm_compute|]. apply (@set_url_roundtrip U D sample_target). split; try (by vm_compute).
  exists (lit "/a;b"), (lit "c"), (Some (lit "p")), (Some (lit "q=1")), (Some (lit "f")).
  split_and!; try (by vm_compute); try (apply (bool_decide_unpack _); by vm_compute).
  all: vm_compute; repeat constructor; unfold inline; lia.
Defined.

Lemma set_url_safe_witness :
  let U := ascii_unicode in let D := sample_debug in
  exists r, set_url sample_target (lit " HTTPS://user:pw@API.test.org:0/\a?x#") = Ok r
    /\ host r = lit "api.test.org" /\ port r = 443 /\ path r = lit "/\a?x" /\ is_valid_host (host r) = true.
Proof.
  intros U D. eexists. split; [by vm_compute|]. split_and!; [by vm_compute..|].
  refine (proj1 (@set_url_safe U D sample_target (lit " HTTPS://user:pw@API.test.org:0/\a?x#") _ _)). by vm_compute.
Defined.
