(* ===== verification/BodyCodec.v ===== *)
(** Content-Encoding removal: the model of the decoding half of
    [agentcage-egress/src/text.rs].  The decompressors themselves are an
    interface; what is written around them (headers, trailers, checksums, frame
    loop, truncation rules) is modelled. *)
From S2P Require Import Prelude Utf8 Message.
From Stdlib Require Import ZifyBool.

(** * Definitions *)

Inductive DecodeError : Type := Unsupported (encoding : str) | Corrupt (encoding detail : str).

(** One frame of [ruzstd]: the frame or the error, the checksum it carries, the
    one computed, and the input left. *)
Record Frame : Type := mkFrame { f_result : result str bytes; f_want : option Z; f_got : option Z; f_rest : bytes }.
(** How one call to [BrotliDecompressStream] ends. *)
Inductive BrotliResult : Type := ResultSuccess | NeedsMoreInput | NeedsMoreOutput | ResultFailure.
(** [flate2]'s raw [Decompress] and the brotli decoder as state machines (a call
    takes input and room for output and gives the next state, the output, how much
    of the input was consumed and how it ended; [Decompress] says whether the final
    block did), [crc32fast], one zstd frame, and the capacity the allocator gives a
    vector that asks for one. *)
Class Codecs := {
  Inflater : Type;
  new_inflater : Inflater;
  inflate_step : Inflater -> bytes -> Z -> result str (Inflater * bytes * nat * bool);
  BrotliDecoder : Type;
  new_brotli : BrotliDecoder;
  brotli_step : BrotliDecoder -> bytes -> Z -> BrotliDecoder * bytes * nat * BrotliResult;
  crc32 : bytes -> Z;
  zstd_frame : bytes -> Frame;
  capacity : nat -> nat
}.

(** ** Adler-32 *)

(** One byte, and one chunk, on 32-bit accumulators. *)
Definition adler_step (ab : Z * Z) (x : Z) : Z * Z :=
  let a := (ab.1 + x) mod 2 ^ 32 in (a, (ab.2 + a) mod 2 ^ 32).
Definition adler_chunk (ab : Z * Z) (chunk : bytes) : Z * Z :=
  let ab := fold_left adler_step chunk ab in (ab.1 mod 65521, ab.2 mod 65521).
Fixpoint chunks (fuel : nat) (n : nat) (data : bytes) : list bytes :=
  match fuel, data with
  | S fuel, _ :: _ => take n data :: chunks fuel n (drop n data)
  | _, _ => []
  end.
Definition adler32 (data : bytes) : Z :=
  let '(a, b) := fold_left adler_chunk (chunks (length data) (Z.to_nat 5552) data) (1, 0) in
  Z.lor (Z.shiftl b 16) a.

Section Codec.
Context `{Codecs} `{Unicode}.

Definition be32 (l : bytes) : Z := match l with a :: b :: c :: d :: _ => ((a * 256 + b) * 256 + c) * 256 + d | _ => 0 end.
Definition le16 (l : bytes) : Z := match l with a :: b :: _ => b * 256 + a | _ => 0 end.
Definition le32 (l : bytes) : Z := match l with a :: b :: c :: d :: _ => ((d * 256 + c) * 256 + b) * 256 + a | _ => 0 end.

(** ** DEFLATE *)

(** The loop: the decompressor, how much of the input it consumed, the output and
    the room it has; [None] when the fuel ran out.  The end is where the final block
    ended, [None] when the input ran out first. *)
Fixpoint inflate_loop (fuel : nat) (input : bytes) (d : Inflater) (consumed : nat) (out : bytes) (cap : nat)
  : option (result str (bytes * option nat)) :=
  match fuel with
  | O => None
  | S fuel =>
      let cap := if Nat.eqb (length out) cap then capacity (length out + Nat.max (length out) 1024) else cap in
      match inflate_step d (drop consumed input) (Z.of_nat cap - Z.of_nat (length out)) with
      | Err e => Some (Err e)
      | Ok (d, buf, n, ended) =>
          let out := out ++ buf in
          if ended then Some (Ok (out, Some (consumed + n)%nat))
          else if Nat.eqb n 0 && bool_decide (buf = []) && Nat.ltb (length out) cap then Some (Ok (out, None))
          else inflate_loop fuel input d (consumed + n) out cap
      end
  end.
(** A byte of DEFLATE gives at most 1032 bytes, so the loop makes at most this many
    rounds. *)
Definition inflate_rounds (n : nat) : nat := S (1033 * n).
Definition inflate_raw (input : bytes) : result str (bytes * option nat) :=
  default (Err []) (inflate_loop (inflate_rounds (length input)) input new_inflater 0 [] (capacity (Nat.max (4 * length input) 64))).

(** ** zlib and gzip *)

Definition inflate_zlib (input : bytes) (lenient : bool) : result str bytes :=
  let truncated (out : bytes) : result str bytes := if lenient then Ok out else Err (lit "incomplete or truncated stream") in
  match input with
  | cmf :: flg :: body =>
      if negb ((cmf * 256 + flg) mod 31 =? 0) then Err (lit "incorrect header check")
      else if negb (Z.land cmf 15 =? 8) then Err (lit "unknown compression method")
      else if 15 <? Z.shiftr cmf 4 + 8 then Err (lit "invalid window size")
      else if negb (Z.land flg 32 =? 0) then Err (lit "stream needs a preset dictionary")
      else
        let! (out, end_) := inflate_raw body in
        match end_ with
        | None => truncated out
        | Some end_ =>
            let trailer := drop end_ body in
            if Nat.ltb (length trailer) 4 then truncated out
            else if negb (adler32 out =? be32 trailer) then Err (lit "incorrect data check")
            else Ok out
        end
  | _ => truncated []
  end.

(** [None] when the input ends inside the header.  [gzip_names] skips a
    zero-terminated field for each flag set. *)
Definition gzip_name (input : bytes) (flags flag : Z) (pos : nat) : option nat :=
  if Z.land flags flag =? 0 then Some pos
  else match find_sub [0] (drop pos input) with Some nul => Some (pos + nul + 1)%nat | None => None end.
Definition gzip_header_len (input : bytes) : result str (option nat) :=
  if Nat.ltb (length input) 3 then Ok None
  else if negb (nth 2 input 0 =? 8) then Err (lit "unknown compression method")
  else
    match input !! 3%nat with
    | None => Ok None
    | Some flags =>
        if negb (Z.land flags 224 =? 0) then Err (lit "unknown header flags set")
        else if Nat.ltb (length input) 10 then Ok None
        else
          match
            (let? pos :=
               if Z.land flags 4 =? 0 then Some 10%nat
               else if Nat.ltb (length input) 12 then None
               else
                 let pos := (12 + Z.to_nat (le16 (drop 10 input)))%nat in
                 if Nat.ltb (length input) pos then None else Some pos in
             let? pos := gzip_name input flags 8 pos in
             gzip_name input flags 16 pos)
          with
          | None => Ok None
          | Some pos =>
              if Z.land flags 2 =? 0 then Ok (Some pos)
              else if Nat.ltb (length input) (pos + 2) then Ok None
              else if negb (le16 (drop pos input) =? crc32 (take pos input) mod 65536) then Err (lit "header crc mismatch")
              else Ok (Some (pos + 2)%nat)
          end
    end.
Definition decode_gzip (input : bytes) : result str bytes :=
  if Nat.ltb (length input) 2 then Ok []
  else if negb (bool_decide (take 2 input = [31; 139])) then inflate_zlib input true
  else
    let! body := gzip_header_len input in
    match body with
    | None => Ok []
    | Some body =>
        let! (out, end_) := inflate_raw (drop body input) in
        match end_ with
        | None => Ok out
        | Some end_ =>
            let trailer := drop (body + end_) input in
            if Nat.leb 4 (length trailer) && negb (crc32 out =? le32 trailer) then Err (lit "incorrect data check")
            else if Nat.leb 8 (length trailer) && negb (le32 (drop 4 trailer) =? Z.of_nat (length out) mod 2 ^ 32) then
              Err (lit "incorrect length check")
            else Ok out
        end
    end.
Definition decode_deflate (input : bytes) : result str bytes :=
  if bool_decide (input = []) then Ok []
  else
    match inflate_zlib input false with
    | Ok out => Ok out
    | Err _ =>
        let! (out, end_) := inflate_raw input in
        match end_ with Some _ => Ok out | None => Err (lit "incomplete or truncated stream") end
    end.
Definition BROTLI_BUFFER : Z := 64 * 1024.
(** The loop over the calls; [None] when the fuel ran out. *)
Fixpoint brotli_loop (fuel : nat) (input : bytes) (s : BrotliDecoder) (in_off : nat) (out : bytes) : option (result str bytes) :=
  match fuel with
  | O => None
  | S fuel =>
      let rest := drop in_off input in
      let '(s, buf, n, res) := brotli_step s rest BROTLI_BUFFER in
      let out := out ++ buf in
      match res with
      | NeedsMoreOutput => brotli_loop fuel input s (in_off + n) out
      | ResultSuccess => Some (if Nat.eqb n (length rest) then Ok out else Err (lit "trailing data after the stream"))
      | NeedsMoreInput => Some (Err (lit "truncated stream"))
      | ResultFailure => Some (Err (lit "corrupt stream"))
      end
  end.
(** A bit of brotli gives at most 2^24 bytes, and each round but the last fills the
    buffer. *)
Definition brotli_rounds (n : nat) : nat := S (2048 * n).
Definition decode_brotli (input : bytes) : result str bytes :=
  if bool_decide (input = []) then Ok [] else default (Err []) (brotli_loop (brotli_rounds (length input)) input new_brotli 0 []).

(** The loop over the frames; [None] when the fuel ran out. *)
Fixpoint zstd_loop (fuel : nat) (rest out : bytes) : option (result str bytes) :=
  match fuel with
  | O => None
  | S fuel =>
      if bool_decide (rest = []) then Some (Ok out)
      else if Nat.ltb (length rest) 4 then Some (Err (lit "trailing bytes after the last frame"))
      else if Z.land (le32 rest) 4294967280 =? 407710288 then
        if Nat.ltb (length rest) 8 then Some (Ok out)
        else
          let len := Z.to_nat (le32 (drop 4 rest)) in
          if Nat.ltb (length rest) (8 + len) then Some (Ok out) else zstd_loop fuel (drop (8 + len) rest) out
      else
        let f := zstd_frame rest in
        match f_result f with
        | Err e => Some (if bool_decide (f_rest f = []) then Ok out else Err e)
        | Ok frame =>
            match f_want f, f_got f with
            | Some want, Some got =>
                if negb (want =? got) then Some (Err (lit "checksum mismatch")) else zstd_loop fuel (f_rest f) (out ++ frame)
            | _, _ => zstd_loop fuel (f_rest f) (out ++ frame)
            end
        end
  end.
Definition decode_zstd (input : bytes) : result str bytes := default (Err []) (zstd_loop (S (length input)) input []).

(** ** The header *)

(** A borrowed body is [None]. *)
Definition decode_content (raw : bytes) (encoding : str) : result DecodeError (option bytes) :=
  let encoding := to_lowercase encoding in
  let owned (r : result str bytes) : result DecodeError (option bytes) :=
    match r with Ok out => Ok (Some out) | Err detail => Err (Corrupt encoding detail) end in
  if bool_decide (encoding = lit "none") || bool_decide (encoding = lit "identity") then Ok None
  else if bool_decide (encoding = lit "gzip") then owned (decode_gzip raw)
  else if bool_decide (encoding = lit "deflate") || bool_decide (encoding = lit "deflateraw") then owned (decode_deflate raw)
  else if bool_decide (encoding = lit "br") then owned (decode_brotli raw)
  else if bool_decide (encoding = lit "zstd") then owned (decode_zstd raw)
  else Err (Unsupported encoding).
Definition decoded_body (headers : Headers) (raw : bytes) : result DecodeError (option bytes) :=
  match header_get headers (lit "content-encoding") with
  | Some ce => if bool_decide (ce = []) then Ok None else decode_content raw ce
  | None => Ok None
  end.
Definition decoded_body_lenient (headers : Headers) (raw : bytes) : bytes :=
  match decoded_body headers raw with Ok (Some out) => out | _ => raw end.
End Codec.

(** * Theorems *)

(** ** Adler-32 *)

(** RFC 1950: both sums reduced at every byte. *)
Definition adler_ref (ab : Z * Z) (x : Z) : Z * Z := ((ab.1 + x) mod 65521, (ab.2 + ab.1 + x) mod 65521).
Definition adler_exact (ab : Z * Z) (x : Z) : Z * Z := (ab.1 + x, ab.2 + (ab.1 + x)).
Abbreviation reduced ab := (ab.1 mod 65521, ab.2 mod 65521).
Abbreviation octet b := (0 <= b < 256).

Lemma exact_reduced l ab : reduced (fold_left adler_exact l ab) = fold_left adler_ref l (reduced ab).
Proof.
  revert ab. induction l as [|x l IH]; intros [a b]; [reflexivity|]. cbn [fold_left]. rewrite IH. f_equal. unfold adler_exact, adler_ref. cbn [fst snd].
  rewrite (Zplus_mod_idemp_l a x). f_equal. rewrite Z.add_assoc, (Z.add_mod (b + a)), (Z.add_mod b a) by lia. by rewrite <- Z.add_mod by lia.
Qed.
(** A chunk of 5552 bytes does not overflow 32 bits, and one more byte could. *)
Lemma chunk_exact l a b : Forall (fun x => octet x) l -> 0 <= a < 65521 -> 0 <= b < 65521 -> Z.of_nat (length l) <= 5552 ->
  fold_left adler_step l (a, b) = fold_left adler_exact l (a, b).
Proof.
  intros Hl Ha Hb Hlen.
  enough (Hgen : forall k l a b, Forall (fun x => octet x) l -> 0 <= k -> k + Z.of_nat (length l) <= 5552 -> 0 <= a <= 65520 + 255 * k ->
    0 <= 2 * b <= 2 * 65520 * (k + 1) + 255 * (k * (k + 1)) -> fold_left adler_step l (a, b) = fold_left adler_exact l (a, b)).
  { apply (Hgen 0); try assumption; lia. }
  clear. intros k l. revert k. induction l as [|x l IH]; intros k a b Hl Hk Hlen Ha Hb; [reflexivity|].
  apply Forall_cons in Hl as [Hx Hl]. cbn [length fold_left] in *. rewrite Nat2Z.inj_succ in Hlen.
  assert (E : adler_step (a, b) x = adler_exact (a, b) x).
  { unfold adler_step, adler_exact. cbn [fst snd]. rewrite (Z.mod_small (a + x)) by (change (2 ^ 32) with 4294967296; lia).
    f_equal. apply Z.mod_small. change (2 ^ 32) with 4294967296. nia. }
  rewrite E. change (adler_exact (a, b) x) with (a + x, b + (a + x)). apply (IH (k + 1)); try assumption; try lia.
Qed.
Lemma chunks_spec fuel data : (length data <= fuel)%nat -> concat (chunks fuel (Z.to_nat 5552) data) = data /\ Forall (fun c => Z.of_nat (length c) <= 5552) (chunks fuel (Z.to_nat 5552) data).
Proof.
  revert data. induction fuel as [|fuel IH]; intros data Hl; [destruct data; [by split|cbn in Hl; lia]|].
  destruct data as [|x data]; [by split|]. cbn [chunks concat]. destruct (IH (drop (Z.to_nat 5552) (x :: data))) as [H1 H2].
  { rewrite length_drop. cbn [length] in *. lia. }
  split; [rewrite H1; apply take_drop|]. constructor; [rewrite length_take; lia|exact H2].
Qed.

Abbreviation reduced_pair ab := (0 <= ab.1 < 65521 /\ 0 <= ab.2 < 65521).
(** Chunks reduce to the checksum of RFC 1950. *)
Lemma chunks_reduced cs : forall ab, Forall (fun c => Z.of_nat (length c) <= 5552) cs -> Forall (fun c => Forall (fun x => octet x) c) cs -> reduced_pair ab ->
  fold_left adler_chunk cs ab = fold_left adler_ref (concat cs) ab /\ reduced_pair (fold_left adler_chunk cs ab).
Proof.
  induction cs as [|c cs IH]; intros [a b] Hl Ho [Ha Hb]; [done|]. apply Forall_cons in Hl as [Hl1 Hl]. apply Forall_cons in Ho as [Ho1 Ho].
  cbn [fold_left concat fst snd] in *. rewrite fold_left_app.
  assert (E : adler_chunk (a, b) c = fold_left adler_ref c (a, b)).
  { unfold adler_chunk. rewrite chunk_exact by assumption. rewrite exact_reduced. cbn [fst snd]. by rewrite !Z.mod_small by lia. }
  rewrite <- E. apply IH; [exact Hl|exact Ho|]. unfold adler_chunk. cbn [fst snd]. split; apply Z.mod_pos_bound; lia.
Qed.
Lemma chunks_octets data : Forall (fun x => octet x) data -> Forall (fun c => Forall (fun x => octet x) c) (chunks (length data) (Z.to_nat 5552) data).
Proof.
  intros Hd. apply Forall_forall. intros c Hin. rewrite <- (proj1 (chunks_spec (length data) data (le_n _))) in Hd. rewrite Forall_concat in Hd. rewrite Forall_forall in Hd.
  by apply Hd.
Qed.

(** The checksum of a zlib stream, computed with one reduction every 5552 bytes,
    never overflows its 32-bit accumulators and is Adler-32. *)
Theorem adler32_exact data : Forall (fun x => octet x) data ->
  (let '(a, b) := fold_left adler_ref data (1, 0) in adler32 data = b * 65536 + a)
  /\ Forall (fun c => forall a b, 0 <= a < 65521 -> 0 <= b < 65521 -> fold_left adler_step c (a, b) = fold_left adler_exact c (a, b))
       (chunks (length data) (Z.to_nat 5552) data).
Proof.
  intros Hd. destruct (chunks_spec (length data) data (le_n _)) as [Hc Hl]. pose proof (chunks_octets data Hd) as Ho. split.
  - destruct (chunks_reduced _ (1, 0) Hl Ho ltac:(cbn; lia)) as [E H1]. rewrite Hc in E. rewrite <- E. unfold adler32.
    destruct (fold_left adler_chunk _ (1, 0)) as [a b]. cbn [fst snd] in H1. rewrite (lor_shiftl_add b a 16) by lia. reflexivity.
  - apply Forall_forall. intros c Hin a b Ha Hb. rewrite Forall_forall in Hl, Ho. apply chunk_exact; [by apply Ho|exact Ha|exact Hb|by apply Hl].
Qed.

Section Gzip.
Context `{Codecs} `{Unicode}.

(** ** Gzip members *)

Definition le_bytes16 (n : Z) : bytes := [n mod 256; n / 256 mod 256].
Definition le_bytes32 (n : Z) : bytes := [n mod 256; n / 256 mod 256; n / 65536 mod 256; n / 16777216 mod 256].
(** The optional fields of a member header (RFC 1952). *)
Record Fields : Type := mkFields { extra : option bytes; file_name : option bytes; comment : option bytes; header_crc : bool }.
Definition fields_ok (f : Fields) : Prop :=
  Z.of_nat (length (default [] (extra f))) < 65536 /\ (0 ∉ default [] (file_name f)) /\ (0 ∉ default [] (comment f)).
Definition flag_of {A} (bit : Z) (o : option A) : Z := match o with Some _ => bit | None => 0 end.
Definition flags_of (f : Fields) : Z :=
  flag_of 4 (extra f) + flag_of 8 (file_name f) + flag_of 16 (comment f) + (if header_crc f then 2 else 0).
Definition zero_terminated (o : option bytes) : bytes := match o with Some l => l ++ [0] | None => [] end.
Definition base_header (f : Fields) (six : bytes) : bytes :=
  [31; 139; 8; flags_of f] ++ six ++ match extra f with Some l => le_bytes16 (Z.of_nat (length l)) ++ l | None => [] end
  ++ zero_terminated (file_name f) ++ zero_terminated (comment f).
Definition member_header (f : Fields) (six : bytes) : bytes :=
  base_header f six ++ if header_crc f then le_bytes16 (crc32 (base_header f six) mod 65536) else [].

Lemma le16_bytes n r : 0 <= n < 65536 -> le16 (le_bytes16 n ++ r) = n.
Proof. intros Hn. cbn. Z.to_euclidean_division_equations. lia. Qed.
Lemma le32_bytes n r : 0 <= n < 2 ^ 32 -> le32 (le_bytes32 n ++ r) = n.
Proof. change (2 ^ 32) with 4294967296. intros Hn. cbn. Z.to_euclidean_division_equations. lia. Qed.
Lemma flags_bits f : Z.land (flags_of f) 224 = 0 /\ (Z.land (flags_of f) 4 =? 0) = bool_decide (extra f = None)
  /\ (Z.land (flags_of f) 8 =? 0) = bool_decide (file_name f = None) /\ (Z.land (flags_of f) 16 =? 0) = bool_decide (comment f = None)
  /\ (Z.land (flags_of f) 2 =? 0) = negb (header_crc f).
Proof. unfold flags_of, flag_of. by destruct (extra f), (file_name f), (comment f), (header_crc f). Qed.

Lemma find_zero l r : 0 ∉ l -> find_sub [0] (l ++ 0 :: r) = Some (length l).
Proof.
  induction l as [|x l IH]; intros Hl; [reflexivity|]. cbn [app find_sub starts_with length]. apply not_elem_of_cons in Hl as [Hx Hl].
  destruct (Z.eqb_spec x 0); [congruence|]. cbn [andb]. by rewrite IH.
Qed.
Lemma gzip_name_skips p o r flags flag pos : (Z.land flags flag =? 0) = bool_decide (o = None) -> 0 ∉ default [] o -> pos = length p ->
  gzip_name (p ++ zero_terminated o ++ r) flags flag pos = Some (length (p ++ zero_terminated o)).
Proof.
  intros Hf Ho ->. unfold gzip_name. rewrite Hf. destruct o as [l|]; cbn [zero_terminated].
  - rewrite bool_decide_eq_false_2 by done. rewrite drop_app_length, <- app_assoc. cbn [app]. rewrite find_zero by exact Ho.
    rewrite !length_app. cbn [length]. f_equal. lia.
  - rewrite bool_decide_eq_true_2 by done. by rewrite app_nil_r.
Qed.
Lemma gzip_header_read f six rest : fields_ok f -> length six = 6%nat ->
  gzip_header_len (member_header f six ++ rest) = Ok (Some (length (member_header f six))).
Proof.
  intros (He & Hn & Hc) H6. destruct (flags_bits f) as (F224 & F4 & F8 & F16 & F2).
  set (ext := match extra f with Some l => le_bytes16 (Z.of_nat (length l)) ++ l | None => [] end).
  set (tail := if header_crc f then le_bytes16 (crc32 (base_header f six) mod 65536) else []).
  set (input := member_header f six ++ rest).
  assert (Ei : input = [31; 139; 8; flags_of f] ++ six ++ ext ++ zero_terminated (file_name f) ++ zero_terminated (comment f) ++ tail ++ rest).
  { unfold input, member_header, base_header. by rewrite <- !app_assoc. }
  assert (Hlen : (10 + length ext + length tail <= length input)%nat).
  { rewrite Ei, !length_app, H6. cbn [length]. lia. }
  set (p := [31; 139; 8; flags_of f] ++ six ++ ext).
  assert (Hpos : (if Z.land (flags_of f) 4 =? 0 then Some 10%nat
               else if Nat.ltb (length input) 12 then None
               else if Nat.ltb (length input) (12 + Z.to_nat (le16 (drop 10 input))) then None
               else Some (12 + Z.to_nat (le16 (drop 10 input)))%nat) = Some (length p)).
  { unfold p. rewrite !length_app, H6. cbn [length]. rewrite F4. unfold ext in *. clearbody input. destruct (extra f) as [l|].
    - rewrite bool_decide_eq_false_2 by done. rewrite length_app in *. cbn [length default from_option le_bytes16 id] in *.
      destruct (Nat.ltb_spec (length input) 12); [lia|].
      assert (Ed : drop 10 input = le_bytes16 (Z.of_nat (length l)) ++ l ++ zero_terminated (file_name f) ++ zero_terminated (comment f) ++ tail ++ rest).
      { rewrite Ei, (app_assoc [31; 139; 8; flags_of f] six), (drop_app_length' ([31; 139; 8; flags_of f] ++ six)) by (rewrite length_app, H6; done). by rewrite <- !app_assoc. }
      rewrite Ed, le16_bytes by lia. cbv zeta. rewrite Nat2Z.id. destruct (Nat.ltb_spec (length input) (12 + length l)); [lia|]. reflexivity.
    - by rewrite bool_decide_eq_true_2. }
  unfold gzip_header_len. fold input. destruct (Nat.ltb_spec (length input) 3); [lia|].
  assert (E2 : nth 2 input 0 = 8) by (by rewrite Ei). rewrite E2. change (negb (8 =? 8)) with false. cbv iota.
  assert (E3 : input !! 3%nat = Some (flags_of f)) by (by rewrite Ei). rewrite E3, F224. change (negb (0 =? 0)) with false. cbv iota.
  destruct (Nat.ltb_spec (length input) 10); [lia|]. rewrite Hpos. cbn [mbind option_bind].
  set (nm := zero_terminated (file_name f)) in *. set (cm := zero_terminated (comment f)) in *.
  assert (En : gzip_name input (flags_of f) 8 (length p) = Some (length (p ++ nm))).
  { replace input with (p ++ nm ++ (cm ++ tail ++ rest)) by (rewrite Ei; unfold p; by rewrite <- !app_assoc). by apply gzip_name_skips. }
  assert (Ec : gzip_name input (flags_of f) 16 (length (p ++ nm)) = Some (length ((p ++ nm) ++ cm))).
  { replace input with ((p ++ nm) ++ cm ++ (tail ++ rest)) by (rewrite Ei; unfold p; by rewrite <- !app_assoc). by apply gzip_name_skips. }
  rewrite En. cbn [mbind option_bind]. rewrite Ec.
  assert (Eb : base_header f six = (p ++ nm) ++ cm) by (unfold base_header, p, ext, nm, cm; by rewrite <- !app_assoc). rewrite F2. set (q := (p ++ nm) ++ cm) in *. clearbody q.
  assert (Em : member_header f six = q ++ tail) by (unfold member_header; fold tail; by rewrite Eb).
  rewrite Em. unfold tail in *. destruct (header_crc f); cbn [negb]; [|by rewrite app_nil_r].
  assert (El : length input = (length q + 2 + length rest)%nat).
  { unfold input. rewrite Em, !length_app. cbn [length le_bytes16]. lia. }
  destruct (Nat.ltb_spec (length input) (length q + 2)); [lia|].
  unfold input at 1 2. rewrite Em, <- app_assoc, drop_app_length, take_app_length, Eb.
  rewrite le16_bytes by (apply Z.mod_pos_bound; lia). rewrite Z.eqb_refl. cbn [negb]. rewrite (length_app _ (le_bytes16 _)). reflexivity.
Qed.

(** A gzip member, whatever optional fields its header carries, decodes to what
    its deflate stream holds: refused exactly when a trailer that is there does
    not match the data, and tolerated when the trailer or the stream is cut short. *)
Theorem decode_gzip_member f six stream c n junk out : fields_ok f -> length six = 6%nat -> 0 <= c < 2 ^ 32 -> 0 <= n < 2 ^ 32 ->
  let trailer := le_bytes32 c ++ le_bytes32 n ++ junk in
  (inflate_raw (stream ++ trailer) = Ok (out, Some (length stream)) ->
   decode_gzip (member_header f six ++ stream ++ trailer) =
     if negb (crc32 out =? c) then Err (lit "incorrect data check")
     else if negb (n =? Z.of_nat (length out) mod 2 ^ 32) then Err (lit "incorrect length check") else Ok out)
  /\ (forall cut, (length cut < 4)%nat -> inflate_raw (stream ++ cut) = Ok (out, Some (length stream)) ->
        decode_gzip (member_header f six ++ stream ++ cut) = Ok out)
  /\ (inflate_raw stream = Ok (out, None) -> decode_gzip (member_header f six ++ stream) = Ok out)
  /\ (forall e, inflate_raw stream = Err e -> decode_gzip (member_header f six ++ stream) = Err e).
Proof.
  intros Hf H6 Hc Hn trailer.
  assert (Hgo : forall rest, decode_gzip (member_header f six ++ rest) =
    let! (out, end_) := inflate_raw rest in
    match end_ with
    | None => Ok out
    | Some end_ =>
        let trailer := drop end_ rest in
        if Nat.leb 4 (length trailer) && negb (crc32 out =? le32 trailer) then Err (lit "incorrect data check")
        else if Nat.leb 8 (length trailer) && negb (le32 (drop 4 trailer) =? Z.of_nat (length out) mod 2 ^ 32) then Err (lit "incorrect length check")
        else Ok out
    end).
  { intros rest. unfold decode_gzip. rewrite gzip_header_read by assumption. cbn [result_bind].
    assert (E2 : take 2 (member_header f six ++ rest) = [31; 139]) by reflexivity. rewrite E2, bool_decide_eq_true_2 by done.
    destruct (Nat.ltb_spec (length (member_header f six ++ rest)) 2) as [Hl|_]; [cbn in Hl; lia|]. cbn [negb]. rewrite drop_app_length.
    destruct (inflate_raw rest) as [[o [e|]]|]; cbn [result_bind]; try reflexivity. by rewrite drop_app_add. }
  split_and!.
  - intros Hi. rewrite Hgo, Hi. cbn [result_bind]. rewrite drop_app_length. unfold trailer at 1 2 3 4. rewrite le32_bytes by exact Hc.
    change (drop 4 (le_bytes32 c ++ le_bytes32 n ++ junk)) with (le_bytes32 n ++ junk). rewrite le32_bytes by exact Hn. reflexivity.
  - intros cut Hcut Hi. rewrite Hgo, Hi. cbn [result_bind]. rewrite drop_app_length.
    destruct (Nat.leb_spec 4 (length cut)); [lia|]. destruct (Nat.leb_spec 8 (length cut)); [lia|]. reflexivity.
  - intros Hi. by rewrite Hgo, Hi.
  - intros e Hi. by rewrite Hgo, Hi.
Qed.
End Gzip.

(** A frame that decodes consumes input. *)
Class CodecsLaws (C : Codecs) : Prop := {
  zstd_progress rest frame : f_result (zstd_frame rest) = Ok frame -> (length (f_rest (zstd_frame rest)) < length rest)%nat
}.

Section Decoding.
Context `{C : Codecs} {CL : CodecsLaws C} `{Unicode}.

Lemma zstd_loop_total fuel rest out : (length rest < fuel)%nat -> exists r, zstd_loop fuel rest out = Some r.
Proof.
  revert rest out. induction fuel as [|fuel IH]; intros rest out Hf; [lia|]. cbn [zstd_loop]. case_bool_decide; [by eexists|].
  destruct (Nat.ltb_spec (length rest) 4); [by eexists|]. destruct (_ =? _).
  - destruct (Nat.ltb_spec (length rest) 8); [by eexists|]. cbv zeta. destruct (Nat.ltb_spec (length rest) (8 + Z.to_nat (le32 (drop 4 rest)))); [by eexists|].
    apply IH. rewrite length_drop. lia.
  - destruct (f_result (zstd_frame rest)) as [frame|] eqn:E; [|by eexists]. apply zstd_progress in E.
    destruct (f_want (zstd_frame rest)), (f_got (zstd_frame rest)); try (apply IH; lia). destruct (negb _); [by eexists|]. apply IH. lia.
Qed.

Lemma lower_keeps c l : is_ascii_uppercase c = false -> Forall (fun x => is_ascii x = true) l -> c ∈ l -> c ∈ to_lowercase l.
Proof.
  intros Hc Hl Hin. unfold to_lowercase. rewrite (proj2 (forallb_Forall _ _) Hl). apply list_elem_of_fmap. exists c.
  split; [|exact Hin]. unfold ascii_lower. by rewrite Hc.
Qed.
Lemma sep_concat_ascii sep l : Forall (fun x => is_ascii x = true) sep -> Forall (Forall (fun x => is_ascii x = true)) l ->
  Forall (fun x => is_ascii x = true) (sep_concat sep l).
Proof.
  intros Hs Hl. induction Hl as [|a [|b l] Ha Hl IH]; [constructor|exact Ha|]. change (sep_concat sep (a :: b :: l)) with (a ++ sep ++ sep_concat sep (b :: l)).
  by repeat (apply Forall_app; split).
Qed.

Definition encodings : list str := map lit ["gzip"; "deflate"; "deflateraw"; "br"; "zstd"]%string.
Lemma decode_content_cases raw ce : match decode_content raw ce with
  | Ok None => to_lowercase ce = lit "none" \/ to_lowercase ce = lit "identity"
  | Ok (Some _) | Err (Corrupt _ _) => to_lowercase ce ∈ encodings
  | Err (Unsupported e) => e = to_lowercase ce /\ (e ∉ lit "none" :: lit "identity" :: encodings)
  end.
Proof.
  unfold decode_content, encodings. cbn [map]. set (e := to_lowercase ce). clearbody e.
  destruct (bool_decide (e = lit "none") || bool_decide (e = lit "identity")) eqn:E1.
  { apply orb_true_iff in E1 as [E%bool_decide_eq_true|E%bool_decide_eq_true]; auto. }
  apply orb_false_iff in E1 as [N1%bool_decide_eq_false N2%bool_decide_eq_false].
  case_bool_decide; [destruct (decode_gzip raw); subst; by left|].
  destruct (bool_decide (e = lit "deflate") || bool_decide (e = lit "deflateraw")) eqn:E2.
  { assert (Hin : e ∈ [lit "gzip"; lit "deflate"; lit "deflateraw"; lit "br"; lit "zstd"]); [|by destruct (decode_deflate raw)].
    apply orb_true_iff in E2 as [E%bool_decide_eq_true|E%bool_decide_eq_true]; subst; [right; by left|right; right; by left]. }
  apply orb_false_iff in E2 as [N4%bool_decide_eq_false N5%bool_decide_eq_false].
  case_bool_decide; [destruct (decode_brotli raw); subst; right; right; right; by left|].
  case_bool_decide; [destruct (decode_zstd raw); subst; right; right; right; right; by left|].
  split; [done|]. rewrite !not_elem_of_cons. split_and!; try assumption. apply not_elem_of_nil.
Qed.

(** C36: A body is handed on as it came only without a Content-Encoding (or a no-op
    one), is decoded only under one of the supported names, and everything else,
    two stacked encodings included, is refused; the zstd loop always ends. *)
Theorem decoding_fails_closed h raw :
  match decoded_body h raw with
  | Ok None => header_get h (lit "content-encoding") = None \/ header_get h (lit "content-encoding") = Some []
      \/ exists ce, header_get h (lit "content-encoding") = Some ce /\ (to_lowercase ce = lit "none" \/ to_lowercase ce = lit "identity")
  | Ok (Some _) | Err (Corrupt _ _) => exists ce, header_get h (lit "content-encoding") = Some ce /\ to_lowercase ce ∈ encodings
  | Err (Unsupported e) => exists ce, header_get h (lit "content-encoding") = Some ce /\ e = to_lowercase ce
      /\ (e ∉ lit "none" :: lit "identity" :: encodings)
  end
  /\ (forall a b l, get_all h (lit "content-encoding") = a :: b :: l -> Forall (Forall (fun c => is_ascii c = true)) (a :: b :: l) ->
        exists e, decoded_body h raw = Err (Unsupported e))
  /\ exists r, zstd_loop (S (length raw)) raw [] = Some r /\ decode_zstd raw = r.
Proof.
  split_and!.
  - unfold decoded_body. destruct (header_get h (lit "content-encoding")) as [ce|] eqn:E; [|by left]. case_bool_decide as En; [subst; right; by left|].
    pose proof (decode_content_cases raw ce) as Hc. destruct (decode_content raw ce) as [[out|]|[e|e d]]; [by exists ce|right; right; by exists ce|by exists ce|by exists ce].
  - intros a b l Ea Hl. unfold decoded_body, header_get. rewrite Ea. rewrite bool_decide_eq_false_2 by done.
    set (ce := sep_concat (lit ", ") (a :: b :: l)). assert (Hce : 44 ∈ ce).
    { subst ce. change (sep_concat (lit ", ") (a :: b :: l)) with (a ++ lit ", " ++ sep_concat (lit ", ") (b :: l)). apply elem_of_app. right. by left. }
    rewrite bool_decide_eq_false_2 by (intros E; rewrite E in Hce; by apply not_elem_of_nil in Hce).
    assert (Hin : 44 ∈ to_lowercase ce) by (apply lower_keeps; [done|by apply sep_concat_ascii; [vm_compute lit; repeat constructor|]|exact Hce]).
    assert (Hno : forall e, 44 ∈ e -> (e ∈ encodings \/ e = lit "none" \/ e = lit "identity") -> False).
    { intros e He [Hn|[->| ->]]; revert He; [|apply (bool_decide_unpack _); by vm_compute..].
      unfold encodings in Hn. cbn [map] in Hn. rewrite !elem_of_cons in Hn.
      destruct Hn as [->|[->|[->|[->|[->|Hn]]]]]; [apply (bool_decide_unpack _); by vm_compute..|by apply not_elem_of_nil in Hn]. }
    pose proof (decode_content_cases raw ce) as Hc. destruct (decode_content raw ce) as [[out|]|[e|e d]]; [| |by exists e|]; destruct (Hno _ Hin); tauto.
  - destruct (zstd_loop_total (S (length raw)) raw [] ltac:(lia)) as [r Hr]. exists r. split; [exact Hr|]. unfold decode_zstd. by rewrite Hr.
Qed.
End Decoding.

(** ** What a refusal says *)

Definition complaints : list str := map lit
  ["incomplete or truncated stream"; "incorrect header check"; "unknown compression method"; "invalid window size";
   "stream needs a preset dictionary"; "unknown header flags set"; "header crc mismatch"; "incorrect data check"; "incorrect length check";
   "trailing data after the stream"; "truncated stream"; "corrupt stream"; "trailing bytes after the last frame"; "checksum mismatch"]%string.

Section Complaints.
Context `{Codecs} `{Unicode}.

(** The detail of an error: a fixed text, or the message of a decompressor for some
    input (and nothing where the fuel of a loop runs out). *)
Definition complaint (detail : str) : Prop :=
  detail ∈ [] :: complaints \/ (exists d input room, inflate_step d input room = Err detail) \/ exists input, f_result (zstd_frame input) = Err detail.
Definition complains {A} (r : result str A) : Prop := match r with Ok _ => True | Err detail => complaint detail end.

Lemma complains_text {A} (n : nat) : is_Some (([] :: complaints) !! n) -> complains (A := A) (Err (default [] (([] :: complaints) !! n))).
Proof. intros [x E]. left. rewrite E. by eapply list_elem_of_lookup_2. Qed.
Lemma complains_bind {A B} (r : result str A) (k : A -> result str B) : complains r -> (forall a, complains (k a)) -> complains (result_bind r k).
Proof. destruct r; cbn [result_bind]; auto. Qed.
Lemma complains_default {A} (o : option (result str A)) : (forall r, o = Some r -> complains r) -> complains (default (Err []) o).
Proof. destruct o; [by intros Ho; apply Ho|]. intros _. by apply (complains_text 0). Qed.
(** Finds a fixed text among the complaints. *)
Ltac by_text := first [done | left; apply (bool_decide_unpack _); by vm_compute].
(** Every branch of a decoder ends in a result or in a fixed text. *)
Ltac branches := repeat match goal with |- complains (if ?b then _ else _) => destruct b | |- complains (match ?x with _ => _ end) => destruct x end; try by_text.

Lemma inflate_complains input : complains (inflate_raw input).
Proof.
  apply complains_default. intros r. generalize (inflate_rounds (length input)), new_inflater, 0%nat, (@nil Z), (capacity (Nat.max (4 * length input) 64)).
  intros fuel. induction fuel as [|fuel IH]; intros d used out cap; cbn [inflate_loop]; [done|]. cbv zeta. set (cap' := if Nat.eqb _ _ then _ else _).
  destruct (inflate_step _ _ _) as [[[[d' buf] n] ended]|detail] eqn:E; [|intros [= <-]; right; left; by eexists _, _, _].
  destruct ended; [by intros [= <-]|]. destruct (_ && _ && _); [by intros [= <-]|]. apply IH.
Qed.
Lemma zlib_complains input lenient : complains (inflate_zlib input lenient).
Proof.
  unfold inflate_zlib. cbv zeta. branches. all: apply complains_bind; [apply inflate_complains|]; intros [out [end_|]]; branches.
Qed.
Lemma gzip_header_complains input : complains (gzip_header_len input).
Proof. unfold gzip_header_len. branches. Qed.
Lemma gzip_complains input : complains (decode_gzip input).
Proof.
  unfold decode_gzip. branches; [apply zlib_complains|]. apply complains_bind; [apply gzip_header_complains|]. intros [body|]; [|done].
  apply complains_bind; [apply inflate_complains|]. intros [out [end_|]]; branches.
Qed.
Lemma deflate_complains input : complains (decode_deflate input).
Proof.
  unfold decode_deflate. branches. apply complains_bind; [apply inflate_complains|]. intros [out [end_|]]; branches.
Qed.
Lemma brotli_complains input : complains (decode_brotli input).
Proof.
  unfold decode_brotli. branches. apply complains_default. intros r. generalize (brotli_rounds (length input)), new_brotli, 0%nat, (@nil Z).
  intros fuel. induction fuel as [|fuel IH]; intros s off out; cbn [brotli_loop]; [done|]. cbv zeta.
  destruct (brotli_step _ _ _) as [[[s' buf] n] [ | | |]]; [|by intros [= <-]; by_text|apply IH|by intros [= <-]; by_text]. intros [= <-]. branches.
Qed.
Lemma zstd_complains input : complains (decode_zstd input).
Proof.
  apply complains_default. intros r.
  enough (Hl : forall fuel rest out, zstd_loop fuel rest out = Some r -> complains r) by apply Hl. intros fuel.
  induction fuel as [|fuel IH]; intros rest out; cbn [zstd_loop]; [done|].
  cbv zeta. case_bool_decide; [by intros [= <-]|]. destruct (Nat.ltb _ 4); [intros [= <-]; by_text|]. destruct (_ =? _).
  { destruct (Nat.ltb _ 8); [by intros [= <-]|]. destruct (Nat.ltb _ _); [by intros [= <-]|apply IH]. }
  destruct (f_result (zstd_frame rest)) as [frame|detail] eqn:E; [|intros [= <-]; case_bool_decide; [done|]; right; right; by exists rest].
  destruct (f_want (zstd_frame rest)), (f_got (zstd_frame rest)); try apply IH. destruct (negb _); [intros [= <-]; by_text|apply IH].
Qed.

(** A body that cannot be decoded is refused with the encoding it names, in lower
    case, and a complaint: nothing of the body is quoted. *)
Lemma refusal_text h raw d : decoded_body h raw = Err d -> exists ce, header_get h (lit "content-encoding") = Some ce
  /\ (d = Unsupported (to_lowercase ce) \/ exists detail, d = Corrupt (to_lowercase ce) detail /\ to_lowercase ce ∈ encodings /\ complaint detail).
Proof.
  unfold decoded_body. destruct (header_get h (lit "content-encoding")) as [ce|]; [|done]. case_bool_decide; [done|]. intros E. exists ce. split; [done|].
  pose proof (decode_content_cases raw ce) as Hc. rewrite E in Hc. unfold decode_content in E. cbv zeta in E.
  assert (Ho : forall r : result str bytes, complains r -> match r with Ok out => Ok (Some out) | Err detail => Err (Corrupt (to_lowercase ce) detail) end = Err d ->
    exists detail, d = Corrupt (to_lowercase ce) detail /\ to_lowercase ce ∈ encodings /\ complaint detail).
  { intros [out|detail] Hr Hd; [done|]. injection Hd as <-. by exists detail. }
  destruct (_ || _); [done|]. case_bool_decide; [right; apply (Ho _ (gzip_complains raw) E)|]. destruct (_ || _); [right; apply (Ho _ (deflate_complains raw) E)|].
  case_bool_decide; [right; apply (Ho _ (brotli_complains raw) E)|]. case_bool_decide; [right; apply (Ho _ (zstd_complains raw) E)|]. left. by injection E as <-.
Qed.
End Complaints.

(** ** Concrete bodies *)

(** A stored block - a length byte, that many bytes and one to end it - as a state
    machine: how many of its bytes are left, [None] before the length. *)
Definition stored_go (left_ : nat) (r : bytes) (used : nat) (room : Z) : option nat * bytes * nat * bool :=
  if (Z.of_nat left_ <=? room) && Nat.ltb left_ (length r) then (Some O, take left_ r, (used + left_ + 1)%nat, true)
  else
    let m := Nat.min (Nat.min left_ (length r)) (Z.to_nat room) in
    (Some (left_ - m)%nat, take m r, (used + m)%nat, false).
Definition stored_step (d : option nat) (input : bytes) (room : Z) : option nat * bytes * nat * bool :=
  match d, input with
  | None, [] => (None, [], O, false)
  | None, n :: r => stored_go (Z.to_nat n) r 1 room
  | Some k, r => stored_go k r 0 room
  end.
Definition stored_result (room : Z) (r : option nat * bytes * nat * bool) : option nat * bytes * nat * BrotliResult :=
  let '(d, o, n, ended) := r in
  (d, o, n, if ended then ResultSuccess else if Z.of_nat (length o) =? room then NeedsMoreOutput else NeedsMoreInput).
(** Both decompressors read stored blocks; a checksum that counts, and frames of one
    byte. *)
Definition sample_codecs : Codecs := {|
  Inflater := option nat; new_inflater := None; inflate_step d input room := Ok (stored_step d input room);
  BrotliDecoder := option nat; new_brotli := None; brotli_step d input room := stored_result room (stored_step d input room);
  crc32 l := Z.of_nat (length l);
  capacity n := n;
  zstd_frame l := match l with x :: r => mkFrame (Ok [x]) (Some 0) (Some 0) r | [] => mkFrame (Err (lit "empty")) None None [] end
|}.
Lemma sample_codecs_laws : CodecsLaws sample_codecs.
Proof. split. intros [|x r] frame; [discriminate|]. intros _. cbn. lia. Qed.

Lemma adler32_exact_witness : adler32 (lit "Wikipedia") = 300286872.
Proof.
  transitivity (let '(a, b) := fold_left adler_ref (lit "Wikipedia") (1, 0) in b * 65536 + a); [|by vm_compute].
  refine (proj1 (adler32_exact (lit "Wikipedia") _)). vm_compute lit. repeat constructor; lia.
Defined.

Lemma decode_gzip_member_witness :
  let C := sample_codecs in
  decode_gzip (member_header (mkFields (Some [7; 7]) (Some (lit "a.txt")) None true) (lit "mtime3") ++ [2; 65; 66; 0] ++ le_bytes32 2 ++ le_bytes32 3)
  = Err (lit "incorrect length check").
Proof.
  intros C.
  destruct (@decode_gzip_member C (mkFields (Some [7; 7]) (Some (lit "a.txt")) None true) (lit "mtime3") [2; 65; 66; 0] 2 3 [] (lit "AB")) as [E _];
    [|reflexivity|lia|lia|].
  - split; [cbn; lia|]. split; apply (bool_decide_unpack _); by vm_compute.
  - rewrite app_nil_r in E. rewrite E by (by vm_compute). by vm_compute.
Defined.

Lemma decoding_fails_closed_witness :
  let C := sample_codecs in let U := ascii_unicode in
  exists e, decoded_body [(lit "Content-Encoding", lit "gzip"); (lit "content-encoding", lit "BR")] [] = Err (Unsupported e).
Proof.
  intros C U.
  destruct (@decoding_fails_closed C sample_codecs_laws U [(lit "Content-Encoding", lit "gzip"); (lit "content-encoding", lit "BR")] []) as (_ & Hs & _).
  apply (Hs (lit "gzip") (lit "BR") []); [by vm_compute|]. vm_compute lit. repeat constructor.
Defined.
