(* ===== verification/Rules.v ===== *)
(** Injection rules and their configuration: the model of [Rule], [build_rule]
    and [Injector::configure_with] of [agentcage-egress/src/inject.rs]. *)
From S2P Require Import Prelude Utf8 Json Value Forms.
From Stdlib Require Import ZifyBool.

(** * Definitions *)

(** The live transforms: what the injector asks of a [dyn Transform], of the
    transform factory, of the secret files and of the YAML numbers.  [World] is
    what the transforms know at the moment of a call. *)
Class Transforms := {
  World : Type;
  TransformRef : Type;
  transform_eq :: EqDecision TransformRef;
  get_value : World -> TransformRef -> World * result str str;
  active_values : World -> TransformRef -> option (list str);
  build_transform : World -> str -> str -> Value -> World * result str TransformRef;
  read_secret : World -> str -> str;
  number_display : Number -> str
}.

Definition AUTH_HEADER_KEYWORDS : list str := [lit "auth"; lit "key"; lit "token"].

(** Suffix match on dot boundaries. *)
Fixpoint dotted_suffixes (parts : list str) : list str :=
  match parts with [] => [] | p :: r => join_with 46 (p :: r) :: dotted_suffixes r end.
Definition domain_matches `{Unicode} (host : str) (domains : list str) : bool :=
  existsb (fun suffix => bool_decide (suffix ∈ domains)) (dotted_suffixes (split_on 46 (to_lowercase host))).

(** [(env, transform, canonical config, secret)], and [(value, placeholder, name)]. *)
Abbreviation TransformKey := (str * str * str * str)%type.
Abbreviation Target := (str * str * str)%type.

Section Rules.
Context `{Unicode} `{StrDebug} `{Transforms}.

Record Rule : Type := mkRule {
  name : str; placeholder : str; real_value : str; inject_to : list str; transform : str;
  transform_impl : option TransformRef; inject_body : bool; inject_headers : list str; recent : list str
}.
Definition new_rule (name placeholder real_value : str) (inject_to : list str) : Rule :=
  mkRule name placeholder real_value inject_to [] None false [] [].
Definition with_inject_body (r : Rule) (on : bool) : Rule :=
  mkRule (name r) (placeholder r) (real_value r) (inject_to r) (transform r) (transform_impl r) on (inject_headers r) (recent r).
Definition with_inject_headers (r : Rule) (headers : list str) : Rule :=
  mkRule (name r) (placeholder r) (real_value r) (inject_to r) (transform r) (transform_impl r) (inject_body r) headers (recent r).
Definition with_transform (r : Rule) (name_ : str) (t : TransformRef) : Rule :=
  mkRule (name r) (placeholder r) (real_value r) (inject_to r) name_ (Some t) (inject_body r) (inject_headers r) (recent r).
Definition set_recent (r : Rule) (l : list str) : Rule :=
  mkRule (name r) (placeholder r) (real_value r) (inject_to r) (transform r) (transform_impl r) (inject_body r) (inject_headers r) l.

(** [str::contains] of a string. *)
Definition str_contains (hay needle : str) : bool := bool_decide (is_Some (find_sub needle hay)).
Definition is_auth_header (r : Rule) (name : str) : bool :=
  let n := to_lowercase name in
  existsb (str_contains n) AUTH_HEADER_KEYWORDS || existsb (fun extra => bool_decide (n = to_lowercase extra)) (inject_headers r).

(** The last two derived values are remembered for a transform that does not
    list its own. *)
Definition derive_value (w : World) (r : Rule) (t : TransformRef) : World * Rule * result str str :=
  let '(w, value) := get_value w t in
  match value with
  | Err e => (w, r, Err e)
  | Ok value =>
      let r :=
        match active_values w t with
        | None => if bool_decide (head (recent r) = Some value) then r else set_recent r (value :: option_list (head (recent r)))
        | Some _ => r
        end in
      (w, r, Ok value)
  end.
Definition minted_values (w : World) (r : Rule) : list str :=
  match transform_impl r with
  | None => []
  | Some t =>
      List.filter (fun v => negb (bool_decide (v = [])) && negb (bool_decide (v = real_value r)))
        (default (recent r) (active_values w t))
  end.
Definition the_value (w : World) (r : Rule) : World * Rule * option str :=
  match transform_impl r with
  | Some t => let '(w, r, v) := derive_value w r t in (w, r, match v with Ok v => Some v | Err _ => None end)
  | None => (w, r, Some (real_value r))
  end.

(** ** Configuration *)

Definition rule_string (value : Value) : option str :=
  match value with
  | VString s => Some s
  | VNumber n => Some (number_display n)
  | VBool b => Some (if b then lit "True" else lit "False")
  | _ => None
  end.
Fixpoint insert_text (s : str) (l : list str) : list str :=
  match l with [] => [s] | t :: r => if str_leb s t then s :: l else t :: insert_text s r end.
Definition sort_texts (l : list str) : list str := foldr insert_text [] l.
Fixpoint canonical (value : Value) : str :=
  match value with
  | VNull => lit "null"
  | VBool b => if b then lit "true" else lit "false"
  | VNumber n => number_display n
  | VString s => debug_str s
  | VSequence items => [91] ++ sep_concat [44] (map canonical items) ++ [93]
  | VMapping m => [123] ++ sep_concat [44] (sort_texts (map (fun kv => canonical kv.1 ++ [58] ++ canonical kv.2) m)) ++ [125]
  | VTagged _ v => canonical v
  end.

Abbreviation TransformMap := (list (TransformKey * TransformRef)).
Definition tm_get (m : TransformMap) (k : TransformKey) : option TransformRef :=
  (fun e => e.2) <$> find (fun e : TransformKey * TransformRef => bool_decide (e.1 = k)) m.
Definition tm_remove (m : TransformMap) (k : TransformKey) : TransformMap :=
  List.filter (fun e => negb (bool_decide (e.1 = k))) m.
Definition tm_insert (m : TransformMap) (k : TransformKey) (t : TransformRef) : TransformMap := (k, t) :: tm_remove m k.

(** The two maps, kept and new, are threaded through. *)
Definition build_rule (w : World) (entry : Mapping) (old new : TransformMap) : World * TransformMap * TransformMap * option Rule :=
  let env_name := default [] (as_str (mget entry (lit "env"))) in
  let placeholder := default [] (as_str (mget entry (lit "placeholder"))) in
  if bool_decide (placeholder = []) then (w, old, new, None)
  else
    let inject_to := map to_lowercase (str_list (mget entry (lit "inject_to"))) in
    let real_value := read_secret w env_name in
    if bool_decide (real_value = []) then (w, old, new, None)
    else
      let inject_body := match mget entry (lit "inject_body") with Some v => truthy v | None => false end in
      let inject_headers :=
        match mget entry (lit "inject_headers") with
        | Some (VSequence items) => map (trim_matches (fun c => is_whitespace c || in_range 28 31 c)) (omap rule_string items)
        | _ => []
        end in
      let transform := default [] (as_str (mget entry (lit "transform"))) in
      let rule impl := mkRule env_name placeholder real_value inject_to transform impl inject_body inject_headers [] in
      if bool_decide (transform = []) then (w, old, new, Some (rule None))
      else
        let tcfg := match mget entry (lit "transform_config") with Some v => if truthy v then v else VMapping [] | None => VMapping [] end in
        let key := (env_name, transform, canonical tcfg, real_value) in
        match tm_get new key with
        | Some instance => (w, old, tm_insert new key instance, Some (rule (Some instance)))
        | None =>
            match tm_get old key with
            | Some instance => (w, tm_remove old key, tm_insert new key instance, Some (rule (Some instance)))
            | None =>
                let '(w, built) := build_transform w transform real_value tcfg in
                match built with
                | Ok instance => (w, old, tm_insert new key instance, Some (rule (Some instance)))
                | Err _ => (w, old, new, None)
                end
            end
        end.
Fixpoint build_rules (w : World) (entries : list Value) (old new : TransformMap) : World * TransformMap * list Rule :=
  match entries with
  | [] => (w, new, [])
  | VMapping entry :: entries =>
      let '(w, old, new, rule) := build_rule w entry old new in
      let '(w, new, rules) := build_rules w entries old new in
      (w, new, option_list rule ++ rules)
  | _ :: entries => build_rules w entries old new
  end.

Record Injector : Type := mkInjector { rules : list Rule; redact_to : list str; transforms : TransformMap; retired : list Rule }.
Definition new_injector : Injector := mkInjector [] [] [] [].
Definition with_rules (rules : list Rule) (redact_to : list str) : Injector := mkInjector rules (map to_lowercase redact_to) [] [].
Definition set_retired (i : Injector) (l : list Rule) : Injector := mkInjector (rules i) (redact_to i) (transforms i) l.
Definition set_rules (i : Injector) (l : list Rule) : Injector := mkInjector l (redact_to i) (transforms i) (retired i).

(** [live_retired] forgets the retired rules with no valid token left. *)
Definition has_tokens (w : World) (r : Rule) : bool := negb (bool_decide (minted_values w r = [])).
Definition live_retired (w : World) (i : Injector) : Injector * list Rule :=
  let l := List.filter (has_tokens w) (retired i) in (set_retired i l, l).
Definition minted (w : World) (i : Injector) : Injector * list (Rule * str) :=
  let '(i, retired) := live_retired w i in
  (i, flat_map (fun r => map (fun v => (r, v)) (minted_values w r)) (rules i ++ retired)).

(** ** What is redacted *)

Definition push_target (targets : list Target) (value : str) (r : Rule) : list Target :=
  if negb (bool_decide (value = [])) && negb (existsb (fun t : Target => bool_decide (t.1.1 = value)) targets)
  then targets ++ [(value, placeholder r, name r)] else targets.
(** [sort_by_key(Reverse(chars().count()))], which is stable. *)
Fixpoint insert_target (t : Target) (l : list Target) : list Target :=
  match l with
  | [] => [t]
  | u :: r => if Nat.ltb (length u.1.1) (length t.1.1) then t :: l else u :: insert_target t r
  end.
Definition sort_targets (l : list Target) : list Target := fold_left (fun acc t => insert_target t acc) l [].
Definition redaction_targets (w : World) (i : Injector) : Injector * list Target :=
  let targets := fold_left (fun ts r => push_target ts (real_value r) r) (rules i) [] in
  let '(i, tokens) := minted w i in
  (i, sort_targets (fold_left (fun ts rv => push_target ts rv.2 rv.1) tokens targets)).

(** [configure_with]: the new state. *)
Definition live_transforms (rules : list Rule) : list TransformRef := omap transform_impl rules.
Definition is_retired (w : World) (live : list TransformRef) (r : Rule) : bool :=
  match transform_impl r with Some t => negb (bool_decide (t ∈ live)) && has_tokens w r | None => false end.
Definition configure_with (w : World) (i : Injector) (section : option Value) : World * Injector :=
  let '(entries, redact_to) :=
    match section with
    | Some (VMapping m) =>
        (match mget m (lit "rules") with Some (VSequence s) => s | _ => [] end, map to_lowercase (str_list (mget m (lit "redact_to"))))
    | Some (VSequence s) => (s, [])
    | _ => ([], [])
    end in
  let previous := rules i ++ retired i in
  let '(w, new, built) := build_rules w entries (transforms i) [] in
  let retired := List.filter (is_retired w (live_transforms built)) previous in
  let i := mkInjector built redact_to new retired in
  (w, (redaction_targets w i).1).
End Rules.
