(* ===== verification/RulesSpec.v ===== *)
(** What the rule set promises: host matching, the rules a section yields, and
    which values redaction covers across reloads. *)
From S2P Require Import Prelude Utf8 Json Value Forms Rules.
From Stdlib Require Import ZifyBool Sorting.Sorted.

(** ** Host matching *)

Lemma dotted_suffixes_elem x ps : x ∈ dotted_suffixes ps <-> exists a b, ps = a ++ b /\ b <> [] /\ x = join_with 46 b.
Proof.
  induction ps as [|p ps IH]; cbn [dotted_suffixes].
  - split; [intros Hx; by apply not_elem_of_nil in Hx|]. intros (a & b & E & Hb & _). symmetry in E. by apply app_eq_nil in E as [_ ->].
  - rewrite elem_of_cons, IH. split.
    + intros [->|(a & b & -> & Hb & ->)]; [by exists [], (p :: ps)|by exists (p :: a), b].
    + intros (a & b & E & Hb & ->). destruct a as [|q a]; [left; by rewrite E|]. injection E as <- ->. right. by exists a, b.
Qed.
Lemma join_with_app sep a b : a <> [] -> b <> [] -> join_with sep (a ++ b) = join_with sep a ++ sep :: join_with sep b.
Proof.
  intros Ha Hb. induction a as [|p [|q a] IH]; [done|by destruct b|].
  change ((p :: q :: a) ++ b) with (p :: (q :: a) ++ b). change (join_with sep (p :: q :: a)) with (p ++ sep :: join_with sep (q :: a)).
  change (join_with sep (p :: (q :: a) ++ b)) with (p ++ sep :: join_with sep ((q :: a) ++ b)). rewrite IH by done. by rewrite <- app_assoc.
Qed.
Lemma split_on_app sep a b : split_on sep (a ++ sep :: b) = split_on sep a ++ split_on sep b.
Proof.
  induction a as [|c a IH]; cbn [app split_on]; [by rewrite Z.eqb_refl|]. rewrite IH. destruct (c =? sep); [reflexivity|].
  destruct (split_on sep a) as [|p ps] eqn:E; [destruct (split_on_nonempty sep a E)|reflexivity].
Qed.

Section Spec.
Context `{Unicode} `{StrDebug} `{Transforms}.

(** A host is covered by a listed domain or by a domain it is a subdomain of,
    whatever its case, and by nothing else. *)
Theorem domain_matches_spec host domains : domain_matches host domains = true <->
  exists d, d ∈ domains /\ (to_lowercase host = d \/ exists sub, to_lowercase host = sub ++ 46 :: d).
Proof.
  unfold domain_matches. rewrite existsb_elem. set (h := to_lowercase host). clearbody h. split.
  - intros (d & Hd & Hin%bool_decide_eq_true). exists d. split; [exact Hin|]. apply dotted_suffixes_elem in Hd as (a & b & E & Hb & ->).
    destruct a as [|p a]; [left; cbn [app] in E; rewrite <- E; by rewrite join_split|]. right. exists (join_with 46 (p :: a)).
    rewrite <- join_with_app by done. by rewrite <- E, join_split.
  - intros (d & Hin & Hd). exists d. split; [|by apply bool_decide_eq_true]. apply dotted_suffixes_elem. destruct Hd as [->|(sub & ->)].
    + exists [], (split_on 46 d). split; [done|]. split; [apply split_on_nonempty|by rewrite join_split].
    + exists (split_on 46 sub), (split_on 46 d). split; [apply split_on_app|]. split; [apply split_on_nonempty|by rewrite join_split].
Qed.

(** ** The targets of redaction *)

Abbreviation value_of := (fun t : Target => t.1.1).
Lemma push_target_values ts v r x : x ∈ map value_of (push_target ts v r) <-> x ∈ map value_of ts \/ x = v /\ v <> [].
Proof.
  unfold push_target. destruct (negb (bool_decide (v = []))) eqn:Ev; cbn [andb].
  - apply negb_true_iff, bool_decide_eq_false in Ev. destruct (existsb _ ts) eqn:Ex; cbn [negb].
    + split; [tauto|]. intros [?|[-> _]]; [done|]. apply existsb_elem in Ex as (t & Ht & E%bool_decide_eq_true). subst v.
      apply list_elem_of_In, in_map_iff. exists t. split; [done|]. by apply list_elem_of_In.
    + rewrite map_app, elem_of_app. cbn. rewrite list_elem_of_singleton. tauto.
  - apply negb_false_iff, bool_decide_eq_true in Ev. subst. tauto.
Qed.
Lemma push_target_nodup ts v r : NoDup (map value_of ts) -> NoDup (map value_of (push_target ts v r)).
Proof.
  intros Hn. unfold push_target. destruct (negb (bool_decide (v = []))); [|exact Hn]. destruct (existsb _ ts) eqn:Ex; [exact Hn|]. cbn [andb negb].
  rewrite map_app. apply NoDup_app. split; [exact Hn|]. split; [|apply NoDup_singleton]. intros x Hx ->%list_elem_of_singleton.
  apply list_elem_of_In, in_map_iff in Hx as (t & E & Ht). apply existsb_false_Forall in Ex. rewrite Forall_forall in Ex.
  apply list_elem_of_In in Ht. specialize (Ex t Ht). cbv beta in Ex. apply bool_decide_eq_false in Ex. by apply Ex.
Qed.
Lemma push_fold {A} (val : A -> str) (rule : A -> Rule) l ts : 
  (forall x, x ∈ map value_of (fold_left (fun ts a => push_target ts (val a) (rule a)) l ts) <-> x ∈ map value_of ts \/ exists a, a ∈ l /\ x = val a /\ x <> [])
  /\ (NoDup (map value_of ts) -> NoDup (map value_of (fold_left (fun ts a => push_target ts (val a) (rule a)) l ts))).
Proof.
  revert ts. induction l as [|a l IH]; intros ts; cbn [fold_left].
  - split; [|done]. intros x. split; [tauto|]. intros [?|(a & Ha & _)]; [done|by apply not_elem_of_nil in Ha].
  - destruct (IH (push_target ts (val a) (rule a))) as [Hq1 Hq2]. split; [|intros Hn; by apply Hq2, push_target_nodup]. intros x.
    rewrite Hq1, push_target_values. split.
    + intros [[?|[-> Hne]]|(b & Hb & E)]; [by left|right; exists a; split; [by left|done]|right; exists b; split; [by right|done]].
    + intros [?|(b & [->|Hb]%elem_of_cons & E & Hne)]; [by left; left|left; right; subst; done|right; by exists b].
Qed.
Lemma insert_target_perm t l : insert_target t l ≡ₚ t :: l.
Proof. induction l as [|u l IH]; [done|]. cbn [insert_target]. destruct (Nat.ltb _ _); [done|]. rewrite IH. constructor. Qed.
Definition longer (a b : Target) : Prop := (length (value_of b) <= length (value_of a))%nat.
Lemma insert_target_sorted t l : StronglySorted longer l -> StronglySorted longer (insert_target t l).
Proof.
  induction 1 as [|u l Hs IH Hf]; cbn [insert_target]; [by repeat constructor|].
  destruct (Nat.ltb_spec (length (value_of u)) (length (value_of t))) as [Hlt|Hge].
  - constructor; [by constructor|]. constructor; [unfold longer; cbv beta; lia|]. eapply Forall_impl; [exact Hf|]. unfold longer. cbv beta. intros. lia.
  - constructor; [exact IH|]. rewrite insert_target_perm. by constructor.
Qed.
Lemma sort_targets_spec l : sort_targets l ≡ₚ l /\ StronglySorted longer (sort_targets l).
Proof.
  unfold sort_targets. enough (Hg : forall acc, StronglySorted longer acc -> fold_left (fun acc t => insert_target t acc) l acc ≡ₚ l ++ acc
    /\ StronglySorted longer (fold_left (fun acc t => insert_target t acc) l acc)).
  { destruct (Hg [] ltac:(constructor)) as [Hq1 Hq2]. by rewrite app_nil_r in Hq1. }
  induction l as [|t l IH]; intros acc Ha; cbn [fold_left]; [by split|]. destruct (IH (insert_target t acc)) as [Hq1 Hq2]; [by apply insert_target_sorted|].
  split; [|exact Hq2]. rewrite Hq1, insert_target_perm. cbn [app]. by rewrite Permutation_middle.
Qed.
Lemma minted_elem w i r v : (r, v) ∈ (minted w i).2 <-> (r ∈ rules i \/ r ∈ retired i) /\ v ∈ minted_values w r.
Proof.
  unfold minted, live_retired. cbn [fst snd]. rewrite list_elem_of_In, in_flat_map. setoid_rewrite in_map_iff. split.
  - intros (r' & Hr & v' & [= <- <-] & Hv). apply list_elem_of_In in Hv. split; [|exact Hv]. apply in_app_iff in Hr as [Hr|Hr]; [left; by apply list_elem_of_In|].
    apply List.filter_In in Hr as [Hr _]. right. by apply list_elem_of_In.
  - intros [Hr Hv]. exists r. split; [|exists v; split; [done|by apply list_elem_of_In]]. apply in_app_iff. destruct Hr as [Hr|Hr]; [left; by apply list_elem_of_In|].
    right. apply List.filter_In. split; [by apply list_elem_of_In|]. unfold has_tokens. apply negb_true_iff, bool_decide_eq_false. intros E. rewrite E in Hv.
    by apply not_elem_of_nil in Hv.
Qed.
Lemma minted_nonempty w r v : v ∈ minted_values w r -> v <> [].
Proof.
  unfold minted_values. destruct (transform_impl r); [|intros Hv; by apply not_elem_of_nil in Hv]. intros Hv%list_elem_of_In%List.filter_In.
  destruct Hv as [_ [Hv _]%andb_true_iff]. by apply negb_true_iff, bool_decide_eq_false in Hv.
Qed.

Definition secret_now (w : World) (i : Injector) (v : str) : Prop :=
  v <> [] /\ ((exists r, r ∈ rules i /\ v = real_value r) \/ exists r, (r ∈ rules i \/ r ∈ retired i) /\ v ∈ minted_values w r).
Lemma targets_values w i x : x ∈ map value_of (redaction_targets w i).2 <-> secret_now w i x.
Proof.
  unfold redaction_targets. destruct (minted w i) as [i' tokens] eqn:Em. cbn [snd].
  rewrite (Permutation_map value_of (proj1 (sort_targets_spec _))).
  rewrite (proj1 (push_fold snd fst tokens _)). rewrite (proj1 (push_fold real_value (fun r => r) (rules i) [])). cbn [map]. unfold secret_now.
  pose proof (minted_elem w i) as Hm. rewrite Em in Hm. cbn [snd] in Hm. split.
  - intros [[Hx|(r & Hr & E & Hne)]|([r v] & Ha & E & Hne)]; [by apply not_elem_of_nil in Hx|split; [done|left; by exists r]|].
    cbn [snd] in E. subst. split; [done|]. right. exists r. by apply Hm.
  - intros [Hne [(r & Hr & E)|(r & Hr & Hv)]]; [left; right; by exists r|]. right. exists (r, x). split; [by apply Hm|done].
Qed.

(** What redaction looks for is exactly the non-empty real values and the live
    tokens, each once, the longest first, each with the placeholder and the name
    of a rule it belongs to; computing it only forgets retired rules whose tokens
    have all expired. *)
Theorem redaction_targets_spec w i :
  let '(i', ts) := redaction_targets w i in
  (forall v, v ∈ map value_of ts <-> secret_now w i v) /\ NoDup (map value_of ts)
  /\ StronglySorted (fun a b => (length (value_of b) <= length (value_of a))%nat) ts
  /\ Forall (fun t => exists r, (r ∈ rules i \/ r ∈ retired i) /\ t.1.2 = placeholder r /\ t.2 = name r
       /\ (value_of t = real_value r \/ value_of t ∈ minted_values w r)) ts
  /\ rules i' = rules i /\ redact_to i' = redact_to i /\ transforms i' = transforms i
  /\ (forall r, r ∈ retired i' <-> r ∈ retired i /\ minted_values w r <> []).
Proof.
  pose proof (targets_values w i) as Hv. destruct (redaction_targets w i) as [i' ts] eqn:E. cbn [snd] in Hv. split; [exact Hv|].
  unfold redaction_targets in E. destruct (minted w i) as [j tokens] eqn:Em. injection E as -> <-.
  destruct (sort_targets_spec (fold_left (fun ts rv => push_target ts rv.2 rv.1) tokens (fold_left (fun ts r => push_target ts (real_value r) r) (rules i) []))) as [Hp Hs].
  split_and!.
  - rewrite (Permutation_map value_of Hp). apply (push_fold snd fst), (push_fold real_value (fun r => r)). constructor.
  - exact Hs.
  - rewrite Hp. pose proof (minted_elem w i) as Hm. rewrite Em in Hm. cbn [snd] in Hm.
    assert (Hfold : forall A (val : A -> str) (rule : A -> Rule) l ts0 (P : Target -> Prop), Forall P ts0 ->
      (forall a, a ∈ l -> P (val a, placeholder (rule a), name (rule a))) -> Forall P (fold_left (fun ts a => push_target ts (val a) (rule a)) l ts0)).
    { intros A val rule l. induction l as [|a l IH]; intros ts0 P Hq0 Ha; [exact Hq0|]. cbn [fold_left]. apply IH.
      - unfold push_target. destruct (_ && _); [|exact Hq0]. apply Forall_app. split; [exact Hq0|]. constructor; [apply Ha; by left|constructor].
      - intros b Hb. apply Ha. by right. }
    apply (Hfold _ snd fst).
    + apply (Hfold _ real_value (fun r => r)); [constructor|]. intros r Hr. exists r. cbn. tauto.
    + intros [r v] Hrv. apply Hm in Hrv as [Hr Hv']. exists r. cbn. tauto.
  - unfold minted, live_retired in Em. by injection Em as <- _.
  - unfold minted, live_retired in Em. by injection Em as <- _.
  - unfold minted, live_retired in Em. by injection Em as <- _.
  - unfold minted, live_retired in Em. injection Em as <- _. intros r. cbn [retired set_retired]. rewrite !list_elem_of_In, List.filter_In. unfold has_tokens.
    by rewrite negb_true_iff, bool_decide_eq_false.
Qed.

(** ** Loading a section *)

Abbreviation TransformMap := (list (TransformKey * TransformRef)).
Lemma tm_get_insert (m : TransformMap) k t : tm_get (tm_insert m k t) k = Some t.
Proof. unfold tm_get, tm_insert. cbn [find fst]. by rewrite bool_decide_eq_true_2. Qed.

Definition entry_config (entry : Mapping) : Value :=
  match mget entry (lit "transform_config") with Some v => if truthy v then v else VMapping [] | None => VMapping [] end.
(** A rule is loaded only with a placeholder and a secret that has a value right
    now; its domains are lower-cased; and its transform is the one an identical
    rule already had, this reload or the one before, a new one otherwise. *)
Theorem build_rule_spec w entry (old new : TransformMap) :
  let '(w', old', new', rule) := build_rule w entry old new in
  match rule with
  | None => w' = w /\ old' = old /\ new' = new
      \/ exists e, build_transform w (default [] (as_str (mget entry (lit "transform")))) (read_secret w (default [] (as_str (mget entry (lit "env"))))) (entry_config entry) = (w', Err e)
  | Some r =>
      placeholder r <> [] /\ real_value r = read_secret w (name r) /\ real_value r <> []
      /\ inject_to r = map to_lowercase (str_list (mget entry (lit "inject_to"))) /\ recent r = []
      /\ let key := (name r, transform r, canonical (entry_config entry), real_value r) in
         match transform_impl r with
         | None => transform r = [] /\ w' = w /\ old' = old /\ new' = new
         | Some t => transform r <> [] /\ tm_get new' key = Some t
             /\ (forall u, tm_get new key = Some u -> t = u /\ w' = w)
             /\ (forall u, tm_get new key = None -> tm_get old key = Some u -> t = u /\ w' = w)
         end
  end.
Proof.
  unfold build_rule. fold (entry_config entry).
  set (env := default [] (as_str (mget entry (lit "env")))). set (ph := default [] (as_str (mget entry (lit "placeholder")))).
  set (tr := default [] (as_str (mget entry (lit "transform")))). cbv zeta.
  destruct (bool_decide (ph = [])) eqn:Ep; [by left|]. destruct (bool_decide (read_secret w env = [])) eqn:Es; [by left|].
  apply bool_decide_eq_false in Ep, Es. destruct (bool_decide (tr = [])) eqn:Et.
  { apply bool_decide_eq_true in Et. cbn. by split_and!. }
  apply bool_decide_eq_false in Et. set (key := (env, tr, canonical (entry_config entry), read_secret w env)).
  destruct (tm_get new key) as [t|] eqn:En; [|destruct (tm_get old key) as [t|] eqn:Eo].
  - cbn [name transform real_value transform_impl placeholder inject_to recent]. fold key. rewrite En. split_and!; try done; [by rewrite tm_get_insert|by intros u [= ->]].
  - cbn [name transform real_value transform_impl placeholder inject_to recent]. fold key. rewrite En, Eo. split_and!; try done; [by rewrite tm_get_insert|by intros u _ [= ->]].
  - destruct (build_transform w tr (read_secret w env) (entry_config entry)) as [w' [t|e]] eqn:Eb; [|right; by exists e].
    cbn [name transform real_value transform_impl placeholder inject_to recent]. fold key. rewrite En, Eo. split_and!; try done. by rewrite tm_get_insert.
Qed.

Lemma configure_shape w i s : let '(w', i') := configure_with w i s in
  exists built, rules i' = built /\ (forall r, r ∈ retired i' <-> (r ∈ rules i \/ r ∈ retired i) /\ is_retired w' (live_transforms built) r = true).
Proof.
  unfold configure_with. destruct (match s with Some _ => _ | None => _ end) as [entries redact_to_].
  destruct (build_rules w entries (transforms i) []) as [[w' new] built]. exists built.
  unfold redaction_targets, minted, live_retired. cbn [fst rules retired set_retired]. split; [done|]. intros r.
  rewrite !list_elem_of_In, !List.filter_In, in_app_iff. split; [tauto|]. intros [Hr Hi]. split_and!; try tauto.
  unfold is_retired in Hi. destruct (transform_impl r); [|discriminate]. by apply andb_true_iff in Hi as [_ Hi].
Qed.

(** C19: A reload keeps redacting the tokens that may still be valid after it: one that
    a transform of the running rules, or of a rule retired before, minted is still a
    redaction target whether its rule was kept, changed or dropped, except where the
    transform lives on in a reloaded rule and does not list its own tokens
    ([active_values] is [None]), because the reloaded rule starts without the last two
    values the injector remembered for it.  The one transform the registry knows lists
    its tokens. *)
Theorem reload_keeps_tokens w i s r t v : (r ∈ rules i \/ r ∈ retired i) -> transform_impl r = Some t ->
  let '(w', i') := configure_with w i s in
  v ∈ minted_values w' r ->
  v ∈ map value_of (redaction_targets w' i').2
  \/ t ∈ live_transforms (rules i') /\ active_values w' t = None.
Proof.
  intros Hr Ht. pose proof (configure_shape w i s) as Hshape. destruct (configure_with w i s) as [w' i']. destruct Hshape as (built & Eb & Hret).
  intros Hv. destruct (decide (t ∈ live_transforms (rules i') /\ active_values w' t = None)) as [|Hcase]; [by right|left].
  apply targets_values. split; [by eapply minted_nonempty|]. rewrite Eb in *.
  destruct (decide (t ∈ live_transforms built)) as [Hin|Hnot].
  - destruct (active_values w' t) as [vs|] eqn:Hvs; [|by destruct Hcase]. apply list_elem_of_omap in Hin as (r' & Hr' & Ht').
    destruct (decide (v = real_value r')) as [->|Hne]; [left; by exists r'|]. right. exists r'. split; [by left|].
    unfold minted_values in *. rewrite Ht in Hv. rewrite Ht'. rewrite Hvs in *. cbn [default from_option id] in *.
    apply list_elem_of_In, List.filter_In in Hv as [Hv Hb]. apply list_elem_of_In, List.filter_In. split; [exact Hv|].
    apply andb_true_iff in Hb as [-> _]. cbn [andb]. by apply negb_true_iff, bool_decide_eq_false.
  - right. exists r. split; [|exact Hv]. right. apply Hret. split; [exact Hr|]. unfold is_retired. rewrite Ht.
    rewrite bool_decide_eq_false_2 by exact Hnot. cbn [negb andb]. unfold has_tokens. apply negb_true_iff, bool_decide_eq_false. intros E. rewrite E in Hv.
    by apply not_elem_of_nil in Hv.
Qed.
End Spec.

(** ** A concrete reload *)

(** Two transforms: the first lists one token, the second none. *)
Definition sample_transforms : Transforms := {|
  World := unit; TransformRef := nat; transform_eq := _;
  get_value w t := (w, Ok (lit "token" ++ show_unsigned (Z.of_nat t)));
  active_values w t := match t with O => Some [lit "minted-token"] | _ => None end;
  build_transform w name secret cfg := (w, Ok 1%nat);
  read_secret w env := lit "s3cr3t";
  number_display n := match n with NInt i => show_signed i | NFloat _ => [] end
|}.
Definition sample_minting `{Transforms} (t : TransformRef) : Rule :=
  mkRule (lit "GCP") (lit "{{GCP}}") (lit "key") [lit "api.test"] (lit "google-jwt-bearer") (Some t) false [] [].

Definition sample_world : @World sample_transforms := tt.
Definition sample_ref : @TransformRef sample_transforms := 0%nat.

Lemma reload_keeps_tokens_witness :
  let U := ascii_unicode in let D := {| debug_str := fun s => s |} in let T := sample_transforms in
  lit "minted-token" ∈ map (fun t : Target => t.1.1)
    (redaction_targets sample_world (configure_with sample_world (with_rules [sample_minting sample_ref] []) None).2).2.
Proof.
  intros U D T. subst T. pose proof (@reload_keeps_tokens U D sample_transforms sample_world (with_rules [sample_minting sample_ref] []) None
    (sample_minting sample_ref) sample_ref (lit "minted-token") (or_introl (list_elem_of_here _ _)) eq_refl) as Hk.
  revert Hk. destruct (configure_with sample_world _ None) as [w' i'] eqn:E. intros Hk. destruct w'.
  destruct Hk as [Hk|[_ Hn]]; [vm_compute minted_values; by left|exact Hk|discriminate Hn].
Defined.
