(* ===== verification/Injector.v ===== *)
(** The injector: the model of the second half of
    [agentcage-egress/src/inject.rs], the policy check, injection and redaction of
    requests, responses, records and WebSocket messages. *)
From S2P Require Import Prelude Utf8 Json Value Inspect Forms StreamRedact Message Url BodyCodec Rules.
From Stdlib Require Import ZifyBool.

(** * Definitions *)

Definition INSPECTOR_NAME : str := lit "secret-injector".
Inductive InjectError : Type := BodyError (e : DecodeError) | UrlError (e : str).

(** ** Headers and bodies *)

Fixpoint fold_item (out : Headers) (k v : bytes) : Headers :=
  match out with
  | [] => [(k, v)]
  | (name, folded) :: r => if eq_ignore_ascii_case name k then (name, folded ++ lit ", " ++ v) :: r else (name, folded) :: fold_item r k v
  end.
Definition header_items (h : Headers) : Headers := fold_left (fun out e => fold_item out e.1 e.2) h [].

(** [retain_mut]: the first occurrence takes the value, the others go. *)
Fixpoint set_header_loop (h : Headers) (name : bytes) (value : option bytes) : Headers * option bytes :=
  match h with
  | [] => ([], value)
  | (k, v) :: h =>
      if negb (eq_ignore_ascii_case k name) then let '(h, value) := set_header_loop h name value in ((k, v) :: h, value)
      else match value with
           | Some new => let '(h, value) := set_header_loop h name None in ((k, new) :: h, value)
           | None => set_header_loop h name None
           end
  end.
Definition set_header (h : Headers) (name value : bytes) : Headers :=
  let '(h, unused) := set_header_loop h name (Some value) in
  match unused with Some new => h ++ [(name, new)] | None => h end.

Definition store_body (h : Headers) (new : bytes) : Headers * bytes :=
  let h := header_remove h (lit "content-encoding") in
  let h := if header_contains h (lit "transfer-encoding") then h
           else header_set h (lit "content-length") (show_unsigned (Z.of_nat (length new))) in
  (h, new).

Record LazyBody : Type := mkLazy { decoded : option bytes; identity : bool; modified : bool }.
Definition lazy_default : LazyBody := mkLazy None false false.
Definition predecoded (d : option bytes) : LazyBody := mkLazy d (bool_decide (d = None)) false.
Definition lazy_set (b : LazyBody) (new : bytes) : LazyBody := mkLazy (Some new) (identity b) true.
(** The headers, the body, and the decoded body when it was not rewritten. *)
Definition finish_keep (b : LazyBody) (h : Headers) (body : bytes) : Headers * bytes * option bytes :=
  if modified b then (store_body h (default [] (decoded b)), None) else (h, body, decoded b).

Definition with_headers (r : Request) (h : Headers) : Request :=
  mkRequest (method r) (scheme r) (host r) (port r) (path r) (http_version r) h (body r).
Definition with_stored (r : Request) (hb : Headers * bytes) : Request :=
  mkRequest (method r) (scheme r) (host r) (port r) (path r) (http_version r) hb.1 hb.2.

Section Injector.
Context `{Crates} `{F64Text} `{Unicode} `{StrDebug} `{Codecs} `{Transforms}.

Definition lazy_get (b : LazyBody) (h : Headers) (raw : bytes) : result DecodeError (LazyBody * bytes) :=
  match decoded b with
  | Some d => Ok (b, d)
  | None =>
      if identity b then Ok (b, raw)
      else
        let! d := decoded_body h raw in
        match d with
        | None => Ok (mkLazy None true (modified b), raw)
        | Some v => Ok (mkLazy (Some v) (identity b) (modified b), v)
        end
  end.

Definition rewrite_basic_auth (value find replace : bytes) : option bytes :=
  let? (scheme, rest) := split_once 32 value in
  if negb (eq_ignore_ascii_case scheme (lit "basic")) then None
  else
    let? rest := from_utf8 rest in
    let? decoded := b64_decode_strict (as_bytes (trim_matches (fun c => is_whitespace c || in_range 28 31 c) rest)) in
    let? _ := from_utf8 decoded in
    if negb (contains decoded find) then None
    else Some (scheme ++ [32] ++ b64_encode_std (replace_all decoded find replace)).

(** [str::replace]; [fuel] is the length of the text. *)
Fixpoint str_replace_loop (fuel : nat) (hay needle with_ : str) : str :=
  match fuel with
  | O => hay
  | S fuel =>
      match find_sub needle hay with
      | Some i => take i hay ++ with_ ++ str_replace_loop fuel (drop (i + length needle) hay) needle with_
      | None => hay
      end
  end.
Definition str_replace (hay needle with_ : str) : str := str_replace_loop (length hay) hay needle with_.

(** ** The policy check *)

Definition forms_of (t : Target) : SecretForms := new_forms t.1.1 t.1.2 t.2.
Definition forms_for (value : str) (r : Rule) : SecretForms := new_forms value (placeholder r) (name r).

Definition find_value (req : Request) (b : LazyBody) (f : SecretForms) : result DecodeError (LazyBody * bool) :=
  if occurs f (as_bytes (url req)) then Ok (b, true)
  else if existsb (fun kv => occurs f kv.2 || bool_decide (is_Some (rewrite_basic_auth kv.2 (raw f) (raw f)))) (header_items (headers req))
  then Ok (b, true)
  else
    let! (b, content) := lazy_get b (headers req) (body req) in
    Ok (b, negb (bool_decide (content = [])) && occurs f content).
Definition find_placeholder (req : Request) (b : LazyBody) (r : Rule) : result DecodeError (LazyBody * bool) :=
  let ph := as_bytes (placeholder r) in
  if contains (as_bytes (url req)) ph then Ok (b, true)
  else if existsb (fun kv => contains kv.2 ph || bool_decide (is_Some (rewrite_basic_auth kv.2 ph ph))) (header_items (headers req))
  then Ok (b, true)
  else
    let! (b, content) := lazy_get b (headers req) (body req) in
    Ok (b, negb (bool_decide (content = [])) && contains content ph).

Definition literal_block (r : Rule) (host what : str) : Verdict :=
  new_verdict INSPECTOR_NAME Block
    (lit "literal secret value " ++ name r ++ lit " found in outbound " ++ what ++ lit " to " ++ host) Critical_.
Definition minted_block (r : Rule) (host what : str) : Verdict :=
  new_verdict INSPECTOR_NAME Block
    (lit "literal secret value " ++ name r ++ lit " (a token its " ++ transform r ++ lit " transform minted) found in outbound " ++ what ++ lit " to " ++ host) Critical_.
Definition placeholder_flag (r : Rule) (host : str) : Verdict :=
  new_verdict INSPECTOR_NAME Flag (lit "placeholder " ++ name r ++ lit " sent to unauthorized domain " ++ host) Error_.

Definition has_anything (i : Injector) : bool := negb (bool_decide (rules i = [])) || negb (bool_decide (retired i = [])).
Definition covers (r : Rule) (host : str) : bool := negb (bool_decide (inject_to r = [])) && domain_matches host (inject_to r).
Definition redacts_to (i : Injector) (host : str) : bool := negb (bool_decide (redact_to i = [])) && domain_matches host (redact_to i).

(** The shape of the three loops: the first item found where it is not allowed. *)
Fixpoint first_verdict {A} (find : LazyBody -> A -> result DecodeError (LazyBody * bool)) (allowed : A -> bool) (verdict : A -> Verdict)
  (l : list A) (b : LazyBody) : result DecodeError (LazyBody * option Verdict) :=
  match l with
  | [] => Ok (b, None)
  | a :: l =>
      let! (b, found) := find b a in
      if found && negb (allowed a) then Ok (b, Some (verdict a)) else first_verdict find allowed verdict l b
  end.
Definition check_real (find : LazyBody -> SecretForms -> result DecodeError (LazyBody * bool)) (rs : list Rule) (b : LazyBody) (host what : str) :=
  first_verdict (fun b r => find b (forms_for (real_value r) r)) (fun r => bool_decide (transform_impl r = None) && covers r host)
    (fun r => literal_block r host what) rs b.
Definition check_minted (find : LazyBody -> SecretForms -> result DecodeError (LazyBody * bool)) (ts : list (Rule * str)) (b : LazyBody) (host what : str) :=
  first_verdict (fun b rt => find b (forms_for rt.2 rt.1)) (fun rt => covers rt.1 host) (fun rt => minted_block rt.1 host what) ts b.
Definition check_placeholders (find : LazyBody -> Rule -> result DecodeError (LazyBody * bool)) (rs : list Rule) (b : LazyBody) (host : str) :=
  first_verdict find (fun r => covers r host) (fun r => placeholder_flag r host) rs b.
(** The state (a check forgets expired retired rules when it reaches the minted
    tokens) and the verdict. *)
Definition check_policy (w : World) (i : Injector) (find : LazyBody -> SecretForms -> result DecodeError (LazyBody * bool))
  (find_ph : LazyBody -> Rule -> result DecodeError (LazyBody * bool)) (host what : str) : Injector * result DecodeError (option Verdict) :=
  if negb (has_anything i) then (i, Ok None)
  else
    let host := to_lowercase host in
    if redacts_to i host then (i, Ok None)
    else
      match check_real find (rules i) lazy_default host what with
      | Err e => (i, Err e)
      | Ok (_, Some v) => (i, Ok (Some v))
      | Ok (b, None) =>
          let '(i, tokens) := minted w i in
          (i, let! (b, v) := check_minted find tokens b host what in
              match v with
              | Some v => Ok (Some v)
              | None => let! (_, v) := check_placeholders find_ph (rules i) b host in Ok v
              end)
      end.
Definition check_injection_policy (w : World) (i : Injector) (req : Request) : Injector * result DecodeError (option Verdict) :=
  check_policy w i (find_value req) (find_placeholder req) (host req) (lit "request").
(** A WebSocket message has no headers and is never encoded. *)
Definition check_ws_injection_policy (w : World) (i : Injector) (content : bytes) (host : str) : Injector * option Verdict :=
  let '(i, v) := check_policy w i (fun b f => Ok (b, occurs f content)) (fun b r => Ok (b, contains content (as_bytes (placeholder r)))) host (lit "WebSocket frame") in
  (i, match v with Ok v => v | Err _ => None end).

(** ** Injection *)

(** The header loops run over the folded items of before the loop. *)
Fixpoint rewrite_items (f : bytes -> bytes -> option bytes) (items h : Headers) : Headers * bool :=
  match items with
  | [] => (h, false)
  | (k, v) :: items =>
      match f k v with
      | Some new => ((rewrite_items f items (set_header h k new)).1, true)
      | None => rewrite_items f items h
      end
  end.
Definition replace_header (ph value v : bytes) : option bytes := if contains v ph then Some (replace_all v ph value) else None.
Definition strict_header (r : Rule) (ph value : bytes) (k v : bytes) : option bytes :=
  if negb (is_auth_header r (from_utf8_lossy k)) then None
  else match replace_header ph value v with Some new => Some new | None => rewrite_basic_auth v ph value end.

Definition inject_loose (r : Rule) (value : str) (req : Request) (b : LazyBody) : Request * LazyBody * result InjectError bool :=
  let u := url req in
  match (if str_contains u (placeholder r) then
           match set_url req (str_replace u (placeholder r) value) with Ok req => Ok (req, true) | Err e => Err (UrlError e) end
         else Ok (req, false)) with
  | Err e => (req, b, Err e)
  | Ok (req, in_url) =>
      let '(ph, value) := (as_bytes (placeholder r), as_bytes value) in
      let '(h, in_headers) := rewrite_items (fun _ => replace_header ph value) (header_items (headers req)) (headers req) in
      let req := with_headers req h in
      match lazy_get b (headers req) (body req) with
      | Err e => (req, b, Err (BodyError e))
      | Ok (b, content) =>
          if negb (bool_decide (content = [])) && contains content ph
          then (req, lazy_set b (replace_all content ph value), Ok true)
          else (req, b, Ok (in_url || in_headers))
      end
  end.
Definition inject_strict (r : Rule) (value : str) (req : Request) (b : LazyBody) : Request * LazyBody * result InjectError bool :=
  let '(h, injected) := rewrite_items (strict_header r (as_bytes (placeholder r)) (as_bytes value)) (header_items (headers req)) (headers req) in
  (with_headers req h, b, Ok injected).

(** One rule: whether it acted. *)
Definition inject_one (w : World) (r : Rule) (host : str) (req : Request) (b : LazyBody)
  : World * Rule * (Request * LazyBody * result InjectError bool) :=
  match find_placeholder req b r with
  | Err e => (w, r, (req, b, Err (BodyError e)))
  | Ok (b, found) =>
      if negb found || negb (covers r host) then (w, r, (req, b, Ok false))
      else
        let '(w, r, value) := the_value w r in
        match value with
        | None => (w, r, (req, b, Ok false))
        | Some value => (w, r, if inject_body r then inject_loose r value req b else inject_strict r value req b)
        end
  end.
Fixpoint inject_rules (w : World) (rs : list Rule) (host : str) (req : Request) (b : LazyBody) (names : list str)
  : World * list Rule * (Request * LazyBody * result InjectError (list str)) :=
  match rs with
  | [] => (w, [], (req, b, Ok names))
  | r :: rs =>
      let '(w, r', (req, b, injected)) := inject_one w r host req b in
      match injected with
      | Err e => (w, r' :: rs, (req, b, Err e))
      | Ok injected =>
          let '(w, rs, out) := inject_rules w rs host req b (if injected then names ++ [name r] else names) in
          (w, r' :: rs, out)
      end
  end.

(** ** Redaction *)

Definition add_name (names : list str) (n : str) : list str := if bool_decide (n ∈ names) then names else names ++ [n].
Definition redaction_forms (w : World) (i : Injector) : Injector * list SecretForms :=
  let '(i, targets) := redaction_targets w i in (i, map forms_of targets).

Definition redact_header (f : SecretForms) (k v : bytes) : option bytes :=
  match redact f v with Some new => Some new | None => rewrite_basic_auth v (raw f) (ph_raw f) end.
Definition redact_headers (h : Headers) (f : SecretForms) : Headers * bool := rewrite_items (redact_header f) (header_items h) h.
(** One form over a body that may not be empty. *)
Definition redact_lazy (f : SecretForms) (b : LazyBody) (h : Headers) (raw : bytes) : result DecodeError (LazyBody * bool) :=
  let! (b, content) := lazy_get b h raw in
  match (if bool_decide (content = []) then None else redact f content) with
  | Some new => Ok (lazy_set b new, true)
  | None => Ok (b, false)
  end.

Fixpoint redact_request_values (forms : list SecretForms) (req : Request) (b : LazyBody) (names : list str)
  : Request * LazyBody * result InjectError (list str) :=
  match forms with
  | [] => (req, b, Ok names)
  | f :: forms =>
      match (match redact_text f (url req) with
             | Some u => match set_url req u with Ok req => Ok (req, true) | Err e => Err (UrlError e) end
             | None => Ok (req, false)
             end) with
      | Err e => (req, b, Err e)
      | Ok (req, in_url) =>
          let '(h, in_headers) := redact_headers (headers req) f in
          let req := with_headers req h in
          match redact_lazy f b (headers req) (body req) with
          | Err e => (req, b, Err (BodyError e))
          | Ok (b, in_body) =>
              redact_request_values forms req b (if in_url || in_headers || in_body then add_name names (Forms.name f) else names)
          end
      end
  end.
Definition redact_request (w : World) (i : Injector) (req : Request) : Injector * Request * result InjectError (list str) :=
  let '(i, forms) := redaction_forms w i in
  let '(req, b, result) := redact_request_values forms req lazy_default [] in
  (i, with_stored req (finish_keep b (headers req) (body req)).1, result).
Definition inject_request (w : World) (i : Injector) (req : Request) : World * Injector * Request * result InjectError (list str) :=
  if negb (has_anything i) then (w, i, req, Ok [])
  else
    let host_ := to_lowercase (host req) in
    if redacts_to i host_ then let '(i, req, result) := redact_request w i req in (w, i, req, result)
    else
      let '(w, rs, (req, b, result)) := inject_rules w (rules i) host_ req lazy_default [] in
      (w, set_rules i rs, with_stored req (finish_keep b (headers req) (body req)).1, result).

Fixpoint redact_response_values (forms : list SecretForms) (h : Headers) (raw : bytes) (b : LazyBody) (names : list str)
  : Headers * LazyBody * result DecodeError (list str) :=
  match forms with
  | [] => (h, b, Ok names)
  | f :: forms =>
      let '(h, in_headers) := redact_headers h f in
      match redact_lazy f b h raw with
      | Err e => (h, b, Err e)
      | Ok (b, in_body) => redact_response_values forms h raw b (if in_headers || in_body then add_name names (Forms.name f) else names)
      end
  end.
Definition redact_response_body (w : World) (i : Injector) (resp : Response) (b : LazyBody)
  : Injector * Response * (result DecodeError (list str) * option bytes) :=
  let '(i, forms) := redaction_forms w i in
  let '(h, b, result) := redact_response_values forms (resp_headers resp) (resp_body resp) b [] in
  let '(h, body, kept) := finish_keep b h (resp_body resp) in
  (i, mkResponse (status resp) (reason resp) (resp_version resp) h body, (result, kept)).
Definition redact_response (w : World) (i : Injector) (resp : Response) : Injector * Response * result DecodeError (list str) :=
  let '(i, resp, (result, _)) := redact_response_body w i resp lazy_default in (i, resp, result).
Definition redact_response_decoded (w : World) (i : Injector) (resp : Response) (d : option bytes)
  : Injector * Response * (result DecodeError (list str) * option bytes) := redact_response_body w i resp (predecoded d).
Definition stream_redactor (w : World) (i : Injector) : Injector * option StreamRedactor :=
  let '(i, forms) := redaction_forms w i in (i, match forms with [] => None | _ => Some (new_stream forms) end).
Fixpoint redact_headers_with (h : Headers) (forms : list SecretForms) : Headers * list bool :=
  match forms with
  | [] => (h, [])
  | f :: forms => let '(h, found) := redact_headers h f in let '(h, l) := redact_headers_with h forms in (h, found :: l)
  end.

Fixpoint redact_text_loop (forms : list SecretForms) (text : str) (names : list str) : str * list str :=
  match forms with
  | [] => (text, names)
  | f :: forms =>
      match redact_text f text with
      | Some new => redact_text_loop forms new (add_name names (Forms.name f))
      | None => redact_text_loop forms text names
      end
  end.
Definition injector_redact_text (w : World) (i : Injector) (text : str) : Injector * (str * list str) :=
  if negb (has_anything i) then (i, (text, []))
  else let '(i, forms) := redaction_forms w i in (i, redact_text_loop forms text []).
Definition redact_str (w : World) (i : Injector) (text : str) : Injector * str :=
  let '(i, r) := injector_redact_text w i text in (i, r.1).

Fixpoint walk (targets : list SecretForms) (value : Json) : Json :=
  match value with
  | JStr s => JStr (fold_left (fun s f => default s (redact_text f s)) targets s)
  | JArray items => JArray (map (walk targets) items)
  | JObject pairs => JObject (map (fun kv => (kv.1, walk targets kv.2)) pairs)
  | other => other
  end.
Definition redact_json (w : World) (i : Injector) (record : Json) : Injector * Json :=
  if negb (has_anything i) then (i, record)
  else
    let '(i, targets) := redaction_forms w i in
    (i, if bool_decide (targets = []) then record else walk targets record).

(** ** WebSocket messages *)

Fixpoint redact_ws_loop (forms : list SecretForms) (content : bytes) (names : list str) : bytes * list str :=
  match forms with
  | [] => (content, names)
  | f :: forms =>
      match redact f content with
      | Some new => redact_ws_loop forms new (add_name names (Forms.name f))
      | None => redact_ws_loop forms content names
      end
  end.
Definition redact_ws_content (w : World) (i : Injector) (content : bytes) : Injector * (bytes * list str) :=
  let '(i, forms) := redaction_forms w i in (i, redact_ws_loop forms content []).
Fixpoint inject_ws_loop (w : World) (rs : list Rule) (host : str) (content : bytes) (names : list str) : World * list Rule * (bytes * list str) :=
  match rs with
  | [] => (w, [], (content, names))
  | r :: rs =>
      let ph := as_bytes (placeholder r) in
      if negb (inject_body r) || negb (contains content ph) || negb (covers r host) then
        let '(w, rs, out) := inject_ws_loop w rs host content names in (w, r :: rs, out)
      else
        let '(w, r', value) := the_value w r in
        let '(content, names) := match value with
                                 | Some value => (replace_all content ph (as_bytes value), names ++ [name r])
                                 | None => (content, names)
                                 end in
        let '(w, rs, out) := inject_ws_loop w rs host content names in (w, r' :: rs, out)
  end.
Definition inject_ws_content (w : World) (i : Injector) (content : bytes) (host : str) : World * Injector * (bytes * list str) :=
  if negb (has_anything i) then (w, i, (content, []))
  else
    let host := to_lowercase host in
    if redacts_to i host then let '(i, out) := redact_ws_content w i content in (w, i, out)
    else let '(w, rs, out) := inject_ws_loop w (rules i) host content [] in (w, set_rules i rs, out).
End Injector.
