(* ===== verification/InjectorSpec.v ===== *)
(** What the injector promises: secrets reach only the hosts their rule names and,
    strictly, only credential headers; the policy check decides exactly that; and
    a streamed response is redacted exactly as a buffered one. *)
From S2P Require Import Prelude Utf8 Json Value Inspect Forms FormsSplit StreamRedact Base64Rewrite Message Url BodyCodec Rules RulesSpec Injector.
From Stdlib Require Import ZifyBool.

(** ** Headers *)

Definition of_name (n : bytes) (e : bytes * bytes) : bool := eq_ignore_ascii_case e.1 n.

Lemma set_header_loop_other h n v m : eq_ignore_ascii_case n m = false ->
  List.filter (of_name m) (set_header_loop h n v).1 = List.filter (of_name m) h.
Proof.
  intros Hnm. revert v. induction h as [|[k x] h IH]; intros v; [reflexivity|]. cbn [set_header_loop].
  destruct (eq_ignore_ascii_case k n) eqn:Ek; cbn [negb].
  - assert (Em : of_name m (k, x) = false) by (unfold of_name; cbn [fst]; by rewrite (eq_ignore_trans k n)).
    destruct v as [new|].
    + specialize (IH None). destruct (set_header_loop h n None) as [h' l]. cbn [fst] in *. cbn [List.filter]. change (of_name m (k, new)) with (of_name m (k, x)).
      by rewrite Em.
    + rewrite IH. cbn [List.filter]. by rewrite Em.
  - specialize (IH v). destruct (set_header_loop h n v) as [h' l]. cbn [fst] in *. cbn [List.filter]. by rewrite IH.
Qed.
Lemma set_header_other h n v m : eq_ignore_ascii_case n m = false -> List.filter (of_name m) (set_header h n v) = List.filter (of_name m) h.
Proof.
  intros Hnm. unfold set_header. pose proof (set_header_loop_other h n (Some v) m Hnm) as Ho. destruct (set_header_loop h n (Some v)) as [h' l]. cbn [fst] in Ho.
  destruct l as [new|]; [|exact Ho]. rewrite List.filter_app, Ho. cbn [List.filter]. unfold of_name at 2. cbn [fst]. rewrite Hnm. apply app_nil_r.
Qed.
Lemma rewrite_items_other f items h m : (forall k v new, (k, v) ∈ items -> eq_ignore_ascii_case k m = true -> f k v = Some new -> False) ->
  List.filter (of_name m) (rewrite_items f items h).1 = List.filter (of_name m) h.
Proof.
  revert h. induction items as [|[k v] items IH]; intros h Hf; [reflexivity|]. cbn [rewrite_items]. destruct (f k v) as [new|] eqn:E.
  - cbn [fst]. rewrite IH by (intros k' v' new' Hin; apply (Hf k' v' new'); by right). apply set_header_other. apply not_true_iff_false. intros Ek.
    by apply (Hf k v new (list_elem_of_here _ _) Ek E).
  - apply IH. intros k' v' new' Hin. apply (Hf k' v' new'). by right.
Qed.
Lemma rewrite_items_none f items h : (forall k v, (k, v) ∈ items -> f k v = None) -> rewrite_items f items h = (h, false).
Proof.
  intros Hf. induction items as [|[k v] items IH]; [reflexivity|]. cbn [rewrite_items]. rewrite Hf by (by left). apply IH. intros k' v' Hin. apply Hf. by right.
Qed.

Section Spec.
Context `{Cr : Crates} {CL : CratesLaws Cr} `{F : F64Text} `{U : Unicode} `{D : StrDebug} `{Co : Codecs} `{T : Transforms}.

(** ** Reading a body *)

Definition content_of (h : Headers) (raw : bytes) : result DecodeError bytes :=
  match decoded_body h raw with Ok (Some v) => Ok v | Ok None => Ok raw | Err e => Err e end.
(** What a lazily read body knows is true of the message. *)
Definition reads (b : LazyBody) (h : Headers) (raw : bytes) : Prop :=
  modified b = false /\ match decoded b with Some d => decoded_body h raw = Ok (Some d) | None => identity b = true -> decoded_body h raw = Ok None end.

Lemma reads_default h raw : reads lazy_default h raw.
Proof. by split. Qed.
Lemma lazy_get_reads b h raw : reads b h raw ->
  match lazy_get b h raw with
  | Ok (b', c) => content_of h raw = Ok c /\ reads b' h raw
  | Err e => content_of h raw = Err e
  end.
Proof.
  intros [Hm Hd]. unfold lazy_get, content_of. destruct (decoded b) as [d|] eqn:Ed; [rewrite Hd; split; [done|]; split; [exact Hm|rewrite Ed; exact Hd]|].
  destruct (identity b) eqn:Ei; [rewrite Hd by done; split; [done|]; split; [done|]; rewrite Ed; intros _; by apply Hd|].
  destruct (decoded_body h raw) as [[v|]|e] eqn:Eb; cbn [result_bind]; [split; [done|by split]|split; [done|split; [exact Hm|by intros _]]|done].
Qed.

(** A request carries a value when its URL, a header (also inside a Basic
    credential) or its decoded body holds it. *)
Definition header_holds (find : bytes -> bool) (r : bytes) (req : Request) : Prop :=
  exists kv, kv ∈ header_items (headers req) /\ (find kv.2 = true \/ is_Some (rewrite_basic_auth kv.2 r r)).
Definition body_holds (find : bytes -> bool) (req : Request) : Prop :=
  exists c, content_of (headers req) (body req) = Ok c /\ c <> [] /\ find c = true.
Definition carries (req : Request) (f : SecretForms) : Prop :=
  occurs f (as_bytes (url req)) = true \/ header_holds (occurs f) (raw f) req \/ body_holds (occurs f) req.
Definition carries_placeholder (req : Request) (r : Rule) : Prop :=
  let ph := as_bytes (placeholder r) in
  contains (as_bytes (url req)) ph = true \/ header_holds (fun v => contains v ph) ph req \/ body_holds (fun v => contains v ph) req.

(** A reader of the request that decides [P], and keeps the body as it is. *)
Definition decides (req : Request) {A} (find : LazyBody -> A -> result DecodeError (LazyBody * bool)) (P : A -> Prop) : Prop :=
  forall b a, reads b (headers req) (body req) ->
    match find b a with
    | Ok (b', found) => reads b' (headers req) (body req) /\ (found = true <-> P a)
    | Err e => content_of (headers req) (body req) = Err e
    end.

Lemma decides_search {A} req (in_url : A -> bool) (in_header : A -> bytes -> bool) (r : A -> bytes) (in_body : A -> bytes -> bool) :
  decides req (fun b a =>
    if in_url a then Ok (b, true)
    else if existsb (fun kv => in_header a kv.2 || bool_decide (is_Some (rewrite_basic_auth kv.2 (r a) (r a)))) (header_items (headers req)) then Ok (b, true)
    else let! (b, content) := lazy_get b (headers req) (body req) in Ok (b, negb (bool_decide (content = [])) && in_body a content))
  (fun a => in_url a = true \/ header_holds (in_header a) (r a) req \/ body_holds (in_body a) req).
Proof.
  intros b a Hb. destruct (in_url a); [split; [exact Hb|tauto]|].
  assert (Hh : existsb (fun kv => in_header a kv.2 || bool_decide (is_Some (rewrite_basic_auth kv.2 (r a) (r a)))) (header_items (headers req)) = true
    <-> header_holds (in_header a) (r a) req).
  { rewrite existsb_elem. unfold header_holds. split; intros (kv & Hkv & Hf); exists kv; (split; [exact Hkv|]).
    - apply orb_true_iff in Hf as [?|?%bool_decide_eq_true]; tauto.
    - apply orb_true_iff. destruct Hf as [?|?]; [by left|right; by apply bool_decide_eq_true]. }
  destruct (existsb _ _); [split; [exact Hb|]; tauto|].
  pose proof (lazy_get_reads b _ _ Hb) as Hg. destruct (lazy_get b (headers req) (body req)) as [[b' c]|e]; cbn [result_bind]; [|exact Hg].
  destruct Hg as [Hc Hb']. split; [exact Hb'|]. unfold body_holds. rewrite andb_true_iff, negb_true_iff, bool_decide_eq_false. split.
  - intros [Hne Hf]. right. right. by exists c.
  - intros [?|[Hx|(c' & Hc' & Hne & Hf)]]; [done|by apply Hh in Hx|]. rewrite Hc in Hc'. by injection Hc' as <-.
Qed.
Lemma find_value_decides req : decides req (find_value req) (carries req).
Proof. exact (decides_search req (fun f => occurs f (as_bytes (url req))) occurs raw occurs). Qed.
Lemma find_placeholder_decides req : decides req (find_placeholder req) (carries_placeholder req).
Proof.
  exact (decides_search req (fun r => contains (as_bytes (url req)) (as_bytes (placeholder r))) (fun r v => contains v (as_bytes (placeholder r)))
    (fun r => as_bytes (placeholder r)) (fun r v => contains v (as_bytes (placeholder r)))).
Qed.

(** ** The policy check *)

Lemma first_verdict_spec {A} req (find : LazyBody -> A -> result DecodeError (LazyBody * bool)) P allowed verdict l b :
  decides req find P -> reads b (headers req) (body req) ->
  match first_verdict find allowed verdict l b with
  | Err e => content_of (headers req) (body req) = Err e
  | Ok (b', None) => reads b' (headers req) (body req) /\ forall a, a ∈ l -> P a -> allowed a = true
  | Ok (_, Some v) => exists a, a ∈ l /\ P a /\ allowed a = false /\ v = verdict a
  end.
Proof.
  intros Hd. revert b. induction l as [|a l IH]; intros b Hb; cbn [first_verdict].
  { split; [exact Hb|]. intros a Ha. by apply not_elem_of_nil in Ha. }
  specialize (Hd b a Hb) as Ha. destruct (find b a) as [[b' found]|e]; cbn [result_bind]; [|exact Ha]. destruct Ha as [Hb' Hf].
  destruct (found && negb (allowed a)) eqn:E.
  - apply andb_true_iff in E as [-> E%negb_true_iff]. exists a. split; [by left|]. split; [by apply Hf|done].
  - specialize (IH b' Hb'). destruct (first_verdict find allowed verdict l b') as [[b2 [v|]]|e]; [| |exact IH].
    + destruct IH as (a' & Ha' & IH). exists a'. split; [by right|exact IH].
    + destruct IH as [Hb2 IH]. split; [exact Hb2|]. intros a' [->|Ha']%elem_of_cons HP; [|by apply IH]. apply Hf in HP. subst found. by apply negb_false_iff in E.
Qed.

(** A secret on its way to a host its rule does not allow (a rule with a
    transform allows its own credential nowhere), and a placeholder sent where it
    will not be replaced. *)
Definition leaks (w : World) (i : Injector) (req : Request) : Prop :=
  let host := to_lowercase (host req) in
  (exists r, r ∈ rules i /\ carries req (forms_for (real_value r) r) /\ bool_decide (transform_impl r = None) && covers r host = false)
  \/ (exists r t, (r ∈ rules i \/ r ∈ retired i) /\ t ∈ minted_values w r /\ carries req (forms_for t r) /\ covers r host = false).
Definition misplaced (i : Injector) (req : Request) : Prop :=
  exists r, r ∈ rules i /\ carries_placeholder req r /\ covers r (to_lowercase (host req)) = false.


Lemma policy_check_spec_lemma w i req : redacts_to i (to_lowercase (host req)) = false ->
  match (check_injection_policy w i req).2 with
  | Err e => content_of (headers req) (body req) = Err e
  | Ok None => ~ leaks w i req /\ ~ misplaced i req
  | Ok (Some v) => (is_block v = true <-> leaks w i req) /\ (is_block v = false -> misplaced i req)
  end.
Proof.
  intros Hr. unfold check_injection_policy, check_policy. destruct (has_anything i) eqn:Eh; cbn [negb].
  2:{ unfold has_anything in Eh. apply orb_false_iff in Eh as [E1%negb_false_iff%bool_decide_eq_true E2%negb_false_iff%bool_decide_eq_true].
      cbn [snd]. unfold leaks, misplaced. rewrite E1, E2. split.
      - intros [(r & Hin & _)|(r & t & [Hin|Hin] & _)]; by apply not_elem_of_nil in Hin.
      - intros (r & Hin & _); by apply not_elem_of_nil in Hin. }
  rewrite Hr. set (h := to_lowercase (host req)). unfold check_real.
  pose proof (first_verdict_spec req (fun b r => find_value req b (forms_for (real_value r) r)) (fun r => carries req (forms_for (real_value r) r))
    (fun r => bool_decide (transform_impl r = None) && covers r h) (fun r => literal_block r h (lit "request")) (rules i) lazy_default
    ltac:(intros b r; apply find_value_decides) (reads_default _ _)) as H1.
  destruct (first_verdict _ _ _ (rules i) lazy_default) as [[b1 [v|]]|e]; [| |exact H1].
  { destruct H1 as (r & Hin & Hc & Ha & ->). cbn [snd]. split; [|done]. split; [|done]. intros _. left. by exists r. }
  destruct H1 as [Hb1 H1]. destruct (minted w i) as [i' tokens] eqn:Em. cbn [snd]. unfold check_minted.
  pose proof (first_verdict_spec req (fun b (rt : Rule * str) => find_value req b (forms_for rt.2 rt.1)) (fun rt => carries req (forms_for rt.2 rt.1))
    (fun rt => covers rt.1 h) (fun rt => minted_block rt.1 h (lit "request")) tokens b1 ltac:(intros b rt; apply find_value_decides) Hb1) as H2.
  pose proof (minted_elem w i) as Hm. rewrite Em in Hm. cbn [snd] in Hm.
  destruct (first_verdict _ _ _ tokens b1) as [[b2 [v|]]|e]; cbn [result_bind]; [| |exact H2].
  { destruct H2 as ([r t] & Hin & Hc & Ha & ->). apply Hm in Hin as [Hin Ht]. split; [|done]. split; [|done]. intros _. right. by exists r, t. }
  destruct H2 as [Hb2 H2]. assert (Hno : ~ leaks w i req).
  { intros [(r & Hin & Hc & Ha)|(r & t & Hin & Ht & Hc & Ha)].
    - specialize (H1 r Hin Hc). cbv beta in H1. fold h in Ha. congruence.
    - specialize (H2 (r, t) ltac:(by apply Hm) Hc). cbv beta in H2. cbn [fst] in H2. fold h in Ha. congruence. }
  unfold check_placeholders. pose proof (first_verdict_spec req (find_placeholder req) (carries_placeholder req) (fun r => covers r h)
    (fun r => placeholder_flag r h) (rules i) b2 (find_placeholder_decides req) Hb2) as H3.
  assert (Er : rules i' = rules i) by (unfold minted, live_retired in Em; by injection Em as <- _). rewrite Er.
  destruct (first_verdict _ _ _ (rules i) b2) as [[b3 [v|]]|e]; cbn [result_bind]; [| |exact H3].
  - destruct H3 as (r & Hin & Hc & Ha & ->). split; [split; [done|intros Hl; by destruct (Hno Hl)]|]. intros _. by exists r.
  - destruct H3 as [_ H3]. split; [exact Hno|]. intros (r & Hin & Hc & Ha). specialize (H3 r Hin Hc). cbv beta in H3. fold h in Ha. congruence.
Qed.

Lemma check_redacts w i req : redacts_to i (to_lowercase (host req)) = true -> (check_injection_policy w i req).2 = Ok None.
Proof. intros Hr. unfold check_injection_policy, check_policy. destruct (negb _); [done|]. by rewrite Hr. Qed.

(** C9: To a host that is not a redaction host ([injection.redact_to]), the check blocks
    exactly the requests that carry a secret where its rule does not allow it, flags
    exactly the others that carry a misplaced placeholder, and fails only when the body
    it has to read cannot be decoded.  To a redaction host it gives no verdict and
    cannot fail: what is sent there is redacted instead. *)
Theorem policy_check_spec w i req :
  let host_ := to_lowercase (host req) in
  match (check_injection_policy w i req).2 with
  | Err e => redacts_to i host_ = false /\ content_of (headers req) (body req) = Err e
  | Ok None => redacts_to i host_ = true \/ ~ leaks w i req /\ ~ misplaced i req
  | Ok (Some v) => redacts_to i host_ = false /\ (is_block v = true <-> leaks w i req) /\ (is_block v = false -> misplaced i req)
  end.
Proof.
  cbv zeta. destruct (redacts_to i (to_lowercase (host req))) eqn:Hr; [rewrite check_redacts by exact Hr; by left|].
  pose proof (policy_check_spec_lemma w i req Hr) as Hs. destruct (check_injection_policy w i req).2 as [[v|]|e]; [by split|by right|by split].
Qed.

(** ** Injection *)

Lemma finish_unmodified b h raw : modified b = false -> (finish_keep b h raw).1 = (h, raw).
Proof. intros Hm. unfold finish_keep. by rewrite Hm. Qed.
Lemma with_stored_same r : with_stored r (headers r, body r) = r.
Proof. by destruct r. Qed.
Lemma set_rules_same i : set_rules i (rules i) = i.
Proof. by destruct i. Qed.

(** A rule whose domains do not cover the host does nothing, and its transform is
    not even asked. *)
Lemma inject_one_uncovered w r host req b : covers r host = false -> reads b (headers req) (body req) ->
  exists b' out, inject_one w r host req b = (w, r, (req, b', out)) /\ reads b' (headers req) (body req)
    /\ (out = Ok false \/ exists e, out = Err (BodyError e) /\ content_of (headers req) (body req) = Err e).
Proof.
  intros Hc Hb. unfold inject_one. pose proof (find_placeholder_decides req b r Hb) as Hf. destruct (find_placeholder req b r) as [[b' found]|e].
  - rewrite Hc, orb_true_r. exists b', (Ok false). split; [done|]. split; [apply Hf|by left].
  - exists b, (Err (BodyError e)). split; [done|]. split; [exact Hb|]. right. by exists e.
Qed.
Lemma inject_rules_uncovered w rs host req b names : (forall r, r ∈ rs -> covers r host = false) -> reads b (headers req) (body req) ->
  exists b' out, inject_rules w rs host req b names = (w, rs, (req, b', out)) /\ reads b' (headers req) (body req)
    /\ (out = Ok names \/ exists e, out = Err (BodyError e) /\ content_of (headers req) (body req) = Err e).
Proof.
  revert b. induction rs as [|r rs IH]; intros b Hc Hb; cbn [inject_rules]; [exists b, (Ok names); split; [done|]; split; [exact Hb|by left]|].
  destruct (inject_one_uncovered w r host req b (Hc r ltac:(by left)) Hb) as (b' & out & -> & Hb' & Hout).
  destruct Hout as [->|(e & -> & He)].
  - destruct (IH b' ltac:(intros x Hx; apply Hc; by right) Hb') as (b2 & out & -> & Hb2 & Ho). exists b2, out. by split_and!.
  - exists b', (Err (BodyError e)). split; [done|]. split; [exact Hb'|]. right. by exists e.
Qed.

(** What the check did not block. *)
Definition unblocked (v : option Verdict) : Prop := match v with Some v => is_block v = false | None => True end.
Lemma unblocked_no_leak w i req v : redacts_to i (to_lowercase (host req)) = false ->
  (check_injection_policy w i req).2 = Ok v -> unblocked v -> ~ leaks w i req.
Proof.
  intros Hred Hv Hblock. pose proof (policy_check_spec_lemma w i req Hred) as Hspec. rewrite Hv in Hspec.
  destruct v as [v|]; [|tauto]. intros Hl. apply Hspec in Hl. cbn in Hblock. congruence.
Qed.
Lemma inject_uncovered w i req : (forall r, r ∈ rules i -> covers r (to_lowercase (host req)) = false) ->
  redacts_to i (to_lowercase (host req)) = false ->
  let '(w', i', req', _) := inject_request w i req in w' = w /\ i' = i /\ req' = req.
Proof.
  intros Hno Hred. unfold inject_request. destruct (has_anything i); cbn [negb]; [|by split_and!]. rewrite Hred.
  destruct (inject_rules_uncovered w (rules i) _ req lazy_default [] Hno (reads_default _ _)) as (b & out & -> & [Hm _] & _).
  rewrite finish_unmodified by exact Hm. rewrite with_stored_same, set_rules_same. by split_and!.
Qed.
Lemma no_leak_no_carry w i req : ~ leaks w i req ->
  (forall r, r ∈ rules i -> covers r (to_lowercase (host req)) = false -> ~ carries req (forms_for (real_value r) r))
  /\ (forall r t, (r ∈ rules i \/ r ∈ retired i) -> t ∈ minted_values w r -> covers r (to_lowercase (host req)) = false -> ~ carries req (forms_for t r)).
Proof.
  intros Hleak. split.
  - intros r Hr Hcov Hc. apply Hleak. left. exists r. split; [exact Hr|]. split; [exact Hc|]. by rewrite Hcov, andb_false_r.
  - intros r t Hr Ht Hcov Hc. apply Hleak. right. by exists r, t.
Qed.

(** To a redaction host nothing is injected: what goes out is the request redacted. *)
Lemma inject_redacts w i req : redacts_to i (to_lowercase (host req)) = true ->
  inject_request w i req = let '(i', req', res) := redact_request w i req in (w, i', req', res).
Proof.
  intros Hr. unfold inject_request. destruct (has_anything i) eqn:Eh; cbn [negb]; [by rewrite Hr|].
  unfold has_anything in Eh. apply orb_false_iff in Eh as [E1%negb_false_iff%bool_decide_eq_true E2%negb_false_iff%bool_decide_eq_true].
  unfold redact_request, redaction_forms, redaction_targets, minted, live_retired. rewrite E1, E2. cbn.
  destruct i as [rs ret tr rt]. cbn in *. subst. by destruct req.
Qed.

(** C8: A secret never leaves for a host its rule does not name.  To a host that is not
    a redaction host, a request the check did not block carries the real value of no
    rule that does not cover the host, nor a live token of one, in any form; and when no
    rule covers the host, it goes out exactly as it came and no token is minted for it.
    To a redaction host ([injection.redact_to]), whatever the rules, no token is minted
    and nothing is injected: what goes out is the request with every secret's forms put
    back to placeholders ([redact_request]). *)
Theorem no_secret_leaves w i req v : let host_ := to_lowercase (host req) in
  (check_injection_policy w i req).2 = Ok v -> match v with Some v => is_block v = false | None => True end ->
  let '(w', i', req', res) := inject_request w i req in
  if redacts_to i host_ then w' = w /\ (i', req', res) = redact_request w i req
  else
    (forall r, r ∈ rules i -> covers r host_ = false -> ~ carries req (forms_for (real_value r) r))
    /\ (forall r t, (r ∈ rules i \/ r ∈ retired i) -> t ∈ minted_values w r -> covers r host_ = false -> ~ carries req (forms_for t r))
    /\ ((forall r, r ∈ rules i -> covers r host_ = false) -> w' = w /\ i' = i /\ req' = req).
Proof.
  intros h Hv Hblock. destruct (redacts_to i h) eqn:Hred.
  { rewrite (inject_redacts w i req Hred). by destruct (redact_request w i req) as [[i' req'] res]. }
  pose proof (unblocked_no_leak w i req v Hred Hv Hblock) as Hleak. pose proof (no_leak_no_carry w i req Hleak) as [Hc1 Hc2].
  pose proof (inject_uncovered w i req) as Hsame. destruct (inject_request w i req) as [[[w' i'] req'] res]. split_and!; [exact Hc1|exact Hc2|].
  intros Hno. by apply Hsame.
Qed.

(** ** WebSocket messages *)

(** A search that cannot fail. *)
Lemma first_verdict_total {A} (P : A -> bool) allowed verdict l b :
  first_verdict (fun b a => Ok (b, P a)) allowed verdict l b = Ok (b, option_map verdict (List.find (fun a => P a && negb (allowed a)) l)).
Proof. induction l as [|a l IH]; cbn [first_verdict List.find result_bind]; [done|]. by destruct (P a && negb (allowed a)). Qed.
Lemma check_ws_same w i content host : let i' := (check_ws_injection_policy w i content host).1 in rules i' = rules i /\ redact_to i' = redact_to i.
Proof.
  unfold check_ws_injection_policy, check_policy. destruct (negb _); [done|]. destruct (redacts_to _ _); [done|]. unfold check_real. rewrite first_verdict_total.
  destruct (option_map _ _); [done|]. unfold minted, live_retired. done.
Qed.
Lemma ws_unblocked w i content host v r : redacts_to i (to_lowercase host) = false -> (check_ws_injection_policy w i content host).2 = v -> unblocked v ->
  r ∈ rules i -> covers r (to_lowercase host) = false -> occurs (forms_for (real_value r) r) content = false.
Proof.
  intros Hred <- Hu Hr Hc. destruct (occurs _ content) eqn:Eo; [|done]. exfalso. unfold check_ws_injection_policy, check_policy in Hu.
  assert (Eh : has_anything i = true).
  { unfold has_anything. rewrite (bool_decide_eq_false_2 (rules i = [])); [done|]. intros E. rewrite E in Hr. by apply not_elem_of_nil in Hr. }
  rewrite Eh, Hred in Hu. cbn [negb] in Hu. unfold check_real in Hu. rewrite first_verdict_total in Hu.
  destruct (List.find _ (rules i)) as [r0|] eqn:Ef; [discriminate Hu|].
  pose proof (List.find_none _ _ Ef r ltac:(by apply list_elem_of_In)) as Hn. cbv beta in Hn. by rewrite Eo, Hc, andb_false_r in Hn.
Qed.
Lemma ws_unblocked_tokens w i content host v r t : redacts_to i (to_lowercase host) = false -> (check_ws_injection_policy w i content host).2 = v -> unblocked v ->
  r ∈ rules i \/ r ∈ retired i -> t ∈ minted_values w r -> covers r (to_lowercase host) = false -> occurs (forms_for t r) content = false.
Proof.
  intros Hred <- Hu Hr Ht Hc. destruct (occurs _ content) eqn:Eo; [|done]. exfalso. unfold check_ws_injection_policy, check_policy in Hu.
  assert (Eh : has_anything i = true).
  { unfold has_anything. apply orb_true_iff. destruct Hr as [Hr|Hr]; [left|right]; apply negb_true_iff, bool_decide_eq_false; intros E; rewrite E in Hr; by apply not_elem_of_nil in Hr. }
  rewrite Eh, Hred in Hu. cbn [negb] in Hu. unfold check_real in Hu. rewrite first_verdict_total in Hu.
  destruct (List.find _ (rules i)) as [r0|]; [discriminate Hu|]. cbn [option_map] in Hu. pose proof (minted_elem w i r t) as Hm.
  destruct (minted w i) as [i' tokens]. unfold check_minted in Hu. rewrite first_verdict_total in Hu. cbn [snd result_bind] in *.
  destruct (List.find _ tokens) as [rt|] eqn:Ef; [discriminate Hu|].
  pose proof (List.find_none _ _ Ef (r, t) ltac:(apply list_elem_of_In, Hm; done)) as Hn. cbn [fst snd] in Hn. by rewrite Eo, Hc in Hn.
Qed.
Lemma inject_ws_redacts w i content host : redacts_to i (to_lowercase host) = true ->
  (inject_ws_content w i content host).2.1 = (redact_ws_content w i content).2.1.
Proof.
  intros Hr. unfold inject_ws_content. destruct (has_anything i) eqn:Eh; cbn [negb]; [rewrite Hr; by destruct (redact_ws_content w i content)|].
  unfold has_anything in Eh. apply orb_false_iff in Eh as [E1%negb_false_iff%bool_decide_eq_true E2%negb_false_iff%bool_decide_eq_true].
  unfold redact_ws_content, redaction_forms, redaction_targets, minted, live_retired. rewrite E1, E2. destruct i. cbn in *. by subst.
Qed.
Lemma inject_ws_uncovered w i content host : (forall r, r ∈ rules i -> covers r (to_lowercase host) = false) -> redacts_to i (to_lowercase host) = false ->
  (inject_ws_content w i content host).2.1 = content.
Proof.
  intros Hc Hr. unfold inject_ws_content. destruct (negb _); [done|]. rewrite Hr.
  assert (Hl : forall rs names, (forall r, r ∈ rs -> covers r (to_lowercase host) = false) -> (inject_ws_loop w rs (to_lowercase host) content names).2.1 = content).
  { clear. intros rs. induction rs as [|r rs IH]; intros names Hc; cbn [inject_ws_loop]; [done|]. rewrite (Hc r ltac:(by left)). cbn [negb]. rewrite orb_true_r.
    specialize (IH names ltac:(intros x Hx; apply Hc; by right)). by destruct (inject_ws_loop _ _ _ _ _) as [[w' rs'] out]. }
  specialize (Hl (rules i) [] Hc). by destruct (inject_ws_loop _ _ _ _ _) as [[w' rs'] out].
Qed.

(** ** Strict injection *)

Lemma the_value_keeps w r : let '(_, r', _) := the_value w r in
  name r' = name r /\ placeholder r' = placeholder r /\ real_value r' = real_value r /\ inject_to r' = inject_to r /\ inject_body r' = inject_body r
  /\ inject_headers r' = inject_headers r /\ transform_impl r' = transform_impl r.
Proof.
  unfold the_value, derive_value. destruct (transform_impl r) as [t|] eqn:E; [|by split_and!]. destruct (get_value w t) as [w' [v|e]]; [|by split_and!].
  destruct (active_values w' t); [by split_and!|]. by case_bool_decide; split_and!.
Qed.
Lemma find_placeholder_unmodified req b r b' found : modified b = false -> find_placeholder req b r = Ok (b', found) -> modified b' = false.
Proof.
  intros Hm. unfold find_placeholder. destruct (contains _ _); [by intros [= <- _]|]. destruct (existsb _ _); [by intros [= <- _]|].
  unfold lazy_get. destruct (decoded b); [by intros [= <- _]|]. destruct (identity b); [by intros [= <- _]|].
  destruct (decoded_body _ _) as [[v|]|]; cbn [result_bind]; [by intros [= <- _]..|discriminate].
Qed.
Definition only_headers (req req' : Request) : Prop :=
  method req' = method req /\ scheme req' = scheme req /\ host req' = host req /\ port req' = port req /\ path req' = path req
  /\ http_version req' = http_version req /\ body req' = body req.
(** No rule that covers the host may write a header of this name. *)
Definition not_credential (rs : list Rule) (host : str) (m : bytes) : Prop :=
  forall r k, r ∈ rs -> covers r host = true -> eq_ignore_ascii_case k m = true -> is_auth_header r (from_utf8_lossy k) = false.

Lemma inject_one_strict w r host req b m : inject_body r = false -> modified b = false -> not_credential [r] host m ->
  let '(_, r', (req', b', _)) := inject_one w r host req b in
  only_headers req req' /\ modified b' = false /\ List.filter (of_name m) (headers req') = List.filter (of_name m) (headers req).
Proof.
  intros Hs Hm Hn. unfold inject_one. destruct (find_placeholder req b r) as [[b' found]|e] eqn:Ef; [|by split_and!].
  apply find_placeholder_unmodified in Ef; [|exact Hm]. destruct (negb found || negb (covers r host)) eqn:Eg; [by split_and!|].
  apply orb_false_iff in Eg as [_ Hc%negb_false_iff]. pose proof (the_value_keeps w r) as Hk. destruct (the_value w r) as [[w' r'] [v|]]; [|by split_and!].
  destruct Hk as (_ & _ & _ & _ & Eb & Eh & _). rewrite Eb, Hs. unfold inject_strict.
  destruct (rewrite_items _ _ _) as [h injected] eqn:Er. split; [by split_and!|]. split; [exact Ef|]. cbn [headers with_headers].
  replace h with (rewrite_items (strict_header r' (as_bytes (placeholder r')) (as_bytes v)) (header_items (headers req)) (headers req)).1 by (by rewrite Er).
  apply rewrite_items_other. intros k x new _ Hkm Hsh. unfold strict_header in Hsh.
  assert (Ea : is_auth_header r' (from_utf8_lossy k) = false).
  { unfold is_auth_header. rewrite Eh. apply (Hn r k); [by left|exact Hc|exact Hkm]. }
  by rewrite Ea in Hsh.
Qed.
Lemma inject_rules_strict w rs host req b names m : (forall r, r ∈ rs -> inject_body r = false) -> modified b = false -> not_credential rs host m ->
  let '(_, _, (req', b', _)) := inject_rules w rs host req b names in
  only_headers req req' /\ modified b' = false /\ List.filter (of_name m) (headers req') = List.filter (of_name m) (headers req).
Proof.
  revert w req b names. induction rs as [|r rs IH]; intros w req b names Hs Hm Hn; cbn [inject_rules]; [by split_and!|].
  pose proof (inject_one_strict w r host req b m (Hs r ltac:(by left)) Hm) as H1.
  assert (Hn1 : not_credential [r] host m) by (intros r' k ->%list_elem_of_singleton; apply Hn; by left).
  specialize (H1 Hn1). destruct (inject_one w r host req b) as [[w' r'] [[req' b'] out]]. destruct H1 as (Ho & Hm' & Hh).
  destruct out as [injected|e]; [|by split_and!].
  specialize (IH w' req' b' (if injected then names ++ [name r] else names) ltac:(intros x Hx; apply Hs; by right) Hm' ltac:(intros x k Hx; apply Hn; by right)).
  destruct (inject_rules w' rs host req' b' _) as [[w2 rs'] [[req2 b2] out]]. destruct IH as (Ho2 & Hm2 & Hh2).
  split_and!; [|exact Hm2|by rewrite Hh2].
  unfold only_headers in *. destruct Ho as (-> & -> & -> & -> & -> & -> & ->) in Ho2 |- *. exact Ho2.
Qed.

(** With strict rules, injection writes nothing but the credential headers of the
    rules that cover the host: the method, the URL, every other header and the
    body go out byte for byte as they came, even when injection fails. *)
Theorem strict_injection w i req m : (forall r, r ∈ rules i -> inject_body r = false) -> redacts_to i (to_lowercase (host req)) = false ->
  not_credential (rules i) (to_lowercase (host req)) m ->
  let '(_, _, req', _) := inject_request w i req in
  only_headers req req' /\ url req' = url req /\ List.filter (of_name m) (headers req') = List.filter (of_name m) (headers req).
Proof.
  intros Hs Hr Hn. unfold inject_request. destruct (has_anything i); cbn [negb]; [|by split_and!]. rewrite Hr.
  pose proof (inject_rules_strict w (rules i) (to_lowercase (host req)) req lazy_default [] m Hs eq_refl Hn) as Hg.
  destruct (inject_rules _ _ _ _ _ _) as [[w' rs'] [[req' b'] out]]. destruct Hg as (Ho & Hm & Hh). rewrite finish_unmodified by exact Hm.
  rewrite with_stored_same. split; [exact Ho|]. split; [|exact Hh]. destruct Ho as (_ & E1 & E2 & E3 & E4 & _). unfold url. by rewrite E1, E2, E3, E4.
Qed.

(** ** Basic credentials *)

Lemma b64_text_plain x : octets x -> let t := b64_encode_std x in
  Forall (fun c => 0 <= c < 128) t /\ Forall (fun c => is_whitespace c || in_range 28 31 c = false) t.
Proof.
  intros Hx. unfold b64_encode_std. cbv zeta. rewrite standard_encode_law by exact Hx.
  assert (Hc : Forall (fun c => 43 <= c < 123) (rfc4648 x)).
  { eapply Forall_impl; [by apply rfc4648_chars|]. intros c Hc. cbv beta in Hc.
    unfold b64_std_char, is_ascii_alphanumeric, is_ascii_alphabetic, is_ascii_lowercase, is_ascii_uppercase, is_ascii_digit, in_range in Hc. lia. }
  split; (eapply Forall_impl; [exact Hc|]); intros c Hcc; cbv beta in *; [lia|]. unfold is_whitespace, in_range. lia.
Qed.
Lemma decode_encoded x : octets x -> b64_decode_strict (b64_encode_std x) = Some x.
Proof.
  intros Hx. destruct (rfc4648_encodes x Hx) as (body & pads & He). pose proof He as (E & _). unfold b64_encode_std.
  rewrite standard_encode_law, E by exact Hx. by apply decode_body.
Qed.
Lemma as_bytes_octets s : Forall scalar s -> octets (as_bytes s).
Proof. intros Hs. unfold octets, as_bytes. rewrite Forall_flat_map. eapply Forall_impl; [exact Hs|]. intros c Hc. by apply utf8_char_bytes. Qed.

(** Inside [Authorization: Basic] the credential is decoded, rewritten and encoded
    again, whatever the case of the scheme; a credential that does not hold the
    text sought, and any other scheme, are left alone. *)
Theorem basic_auth_rewritten sch cred find replace : Forall scalar cred -> 32 ∉ sch ->
  rewrite_basic_auth (sch ++ 32 :: b64_encode_std (as_bytes cred)) find replace =
  if eq_ignore_ascii_case sch (lit "basic") && contains (as_bytes cred) find
  then Some (sch ++ 32 :: b64_encode_std (replace_all (as_bytes cred) find replace)) else None.
Proof.
  intros Hs Hsp. unfold rewrite_basic_auth. rewrite split_once_app by exact Hsp. cbn [mbind option_bind].
  destruct (eq_ignore_ascii_case sch (lit "basic")); [|done]. cbn [negb andb].
  pose proof (as_bytes_octets cred Hs) as Ho. destruct (b64_text_plain (as_bytes cred) Ho) as [Ha Hw]. set (t := b64_encode_std (as_bytes cred)) in *.
  assert (Et : as_bytes t = t) by (apply as_bytes_ascii; eapply Forall_impl; [exact Ha|]; intros; cbv beta in *; lia).
  assert (Eu : from_utf8 t = Some t).
  { rewrite <- Et at 1. apply from_utf8_as_bytes. eapply Forall_impl; [exact Ha|]. intros c Hc. cbv beta in Hc. left. lia. }
  rewrite Eu. cbn [mbind option_bind]. unfold trim_matches. rewrite drop_while_none, drop_while_end_none, Et by exact Hw.
  unfold t. rewrite decode_encoded by exact Ho. cbn [mbind option_bind]. rewrite from_utf8_as_bytes by exact Hs. cbn [mbind option_bind].
  by destruct (contains (as_bytes cred) find).
Qed.

(** ** Streamed and buffered responses *)

Definition readable (b : LazyBody) : Prop := decoded b <> None \/ identity b = true.
Lemma lazy_get_readable b h raw : readable b -> lazy_get b h raw = Ok (b, default raw (decoded b)).
Proof. intros [Hd|Hi]; unfold lazy_get; destruct (decoded b) eqn:E; try done. by rewrite Hi. Qed.

(** The two ways of collecting the names. *)
Lemma names_loop_split fs bf hf ns : names_loop fs bf hf ns = match fs, bf with
  | f :: fs, b :: bf => names_loop fs bf (tail hf) (if b || default false (head hf) then add_name ns (Forms.name f) else ns)
  | _, _ => ns
  end.
Proof.
  destruct fs as [|f fs], bf as [|b bf]; try done. cbn [names_loop]. destruct hf as [|h hf]; cbn [tail head default from_option]; unfold add_name;
    [destruct b|destruct b, h]; cbn [orb andb]; try done; by destruct (bool_decide _).
Qed.
Lemma redact_response_values_spec fs h raw b ns : readable b -> (modified b = true -> decoded b <> None) ->
  let '(h', hf) := redact_headers_with h fs in
  let '(content, bf) := redact_body fs (default raw (decoded b)) in
  let '(h2, b2, names_) := redact_response_values fs h raw b ns in
  h2 = h' /\ names_ = Ok (names_loop fs bf hf ns) /\ readable b2 /\ default raw (decoded b2) = content
  /\ modified b2 = modified b || existsb id bf /\ (existsb id bf = false -> b2 = b) /\ (modified b2 = true -> decoded b2 <> None).
Proof.
  revert h b ns. induction fs as [|f fs IH]; intros h b ns Hb Hd; [cbn; by rewrite orb_false_r|].
  cbn [redact_headers_with redact_body redact_response_values]. destruct (redact_headers h f) as [h1 found].
  unfold redact_lazy. rewrite lazy_get_readable by exact Hb. cbn [result_bind].
  destruct (if bool_decide (default raw (decoded b) = []) then None else redact f (default raw (decoded b))) as [new|].
  - specialize (IH h1 (lazy_set b new) (if found || true then add_name ns (Forms.name f) else ns) ltac:(by left) ltac:(done)). cbn [decoded lazy_set default from_option id] in IH.
    destruct (redact_headers_with h1 fs) as [h' hf]. destruct (redact_body fs new) as [content bf].
    destruct (redact_response_values fs h1 raw (lazy_set b new) _) as [[h2 b2] names_]. destruct IH as (-> & -> & Hr & Hc & Hm & Hsame & Hdec).
    split_and!; try done.
    + rewrite (names_loop_split (f :: fs)). cbn [tail head default from_option id]. by rewrite orb_true_r.
    + rewrite Hm. cbn. by rewrite orb_true_r.
  - specialize (IH h1 b (if found || false then add_name ns (Forms.name f) else ns) Hb Hd).
    destruct (redact_headers_with h1 fs) as [h' hf]. destruct (redact_body fs (default raw (decoded b))) as [content bf].
    destruct (redact_response_values fs h1 raw b _) as [[h2 b2] names_]. destruct IH as (-> & -> & Hr & Hc & Hm & Hsame & Hdec).
    split_and!; try done. rewrite (names_loop_split (f :: fs)). cbn [tail head default from_option id]. by rewrite orb_false_r.
Qed.

Lemma redaction_forms_wf w i : (forall v, secret_now w i v -> Forall scalar v) -> Forall wf_forms (redaction_forms w i).2.
Proof.
  intros Hs. unfold redaction_forms. pose proof (targets_values w i) as Hv. destruct (redaction_targets w i) as [i' ts]. cbn [snd] in *.
  apply Forall_map, Forall_forall. intros t Ht. assert (Hn : secret_now w i t.1.1).
  { apply Hv, list_elem_of_In, in_map_iff. exists t. split; [done|]. by apply list_elem_of_In. }
  exists t.1.1, t.1.2, t.2. split; [reflexivity|]. split; [apply Hn|by apply Hs].
Qed.

(** C21: Streaming a response and buffering it are the same redaction: over the same
    rules, the headers, the decoded body and the names reported agree, however the
    body is chunked; and the buffered body is stored without an encoding, with its
    length, exactly when something was found in it. *)
Theorem streamed_response w i resp d n chunks : (forall v, secret_now w i v -> Forall scalar v) ->
  concat chunks = default (resp_body resp) d ->
  let forms := (redaction_forms w i).2 in
  let '(h, header_found) := redact_headers_with (resp_headers resp) forms in
  let '(_, resp', (result, kept)) := redact_response_decoded w i resp d in
  match push_all (with_max_hold (new_stream forms) n) chunks with
  | Err _ => True
  | Ok (st, out) =>
      let '(st', last) := finish st in
      result = Ok (names st' header_found)
      /\ concat (out ++ last) = default (resp_body resp') kept
      /\ (if existsb id (found st') then kept = None /\ (resp_headers resp', resp_body resp') = store_body h (concat (out ++ last))
          else kept = d /\ resp_headers resp' = h /\ resp_body resp' = resp_body resp)
  end.
Proof.
  intros Hs Hchunks forms. pose proof (redaction_forms_wf w i Hs) as Hwf. fold forms in Hwf.
  pose proof (redact_response_values_spec forms (resp_headers resp) (resp_body resp) (predecoded d) []) as Hspec.
  assert (Hread : readable (predecoded d)) by (destruct d; [by left|by right]). specialize (Hspec Hread ltac:(done)).
  unfold redact_response_decoded, redact_response_body. fold forms in Hspec. destruct (redaction_forms w i) as [i' fs] eqn:Ef. subst forms. cbn [snd] in *.
  destruct (redact_headers_with (resp_headers resp) fs) as [h hf].
  cbn [decoded predecoded] in Hspec. rewrite <- Hchunks in Hspec.
  destruct (redact_body fs (concat chunks)) as [content bf] eqn:Eb.
  destruct (redact_response_values fs (resp_headers resp) (resp_body resp) (predecoded d) []) as [[h2 b2] names_].
  destruct Hspec as (-> & -> & Hr2 & Hc & Hm & Hsame & Hdec). cbn [modified predecoded orb] in Hm.
  unfold finish_keep. rewrite Hm.
  pose proof (stream_run fs n chunks Hwf) as Hrun. rewrite Eb in Hrun. cbn [fst snd] in Hrun.
  destruct (push_all (with_max_hold (new_stream fs) n) chunks) as [[st out]|]; [|by destruct (existsb id bf); [destruct (store_body h _)|]].
  destruct (finish st) as [st' last]. destruct Hrun as (Eout & Efound & Eforms & _). rewrite Efound.
  assert (En : names st' hf = names_loop fs bf hf []) by (unfold names; by rewrite Eforms, Efound).
  destruct (existsb id bf) eqn:Ex.
  - assert (Ed : default [] (decoded b2) = content) by (specialize (Hdec Hm); destruct (decoded b2); [exact Hc|done]). rewrite Ed.
    destruct (store_body h content) as [h3 body3] eqn:Est. cbn [resp_headers resp_body]. unfold store_body in Est. injection Est as <- <-.
    split; [by rewrite En|]. split; [by rewrite Eout|]. by rewrite Eout.
  - rewrite (Hsame eq_refl) in *. cbn [decoded predecoded resp_headers resp_body]. split; [by rewrite En|]. split; [|by split_and!].
    rewrite Eout, <- Hc. cbn [decoded predecoded]. done.
Qed.
End Spec.

(** ** Concrete requests *)

Section Samples.
#[local] Existing Instance model_crates.
#[local] Existing Instance sample_f64.
#[local] Existing Instance ascii_unicode.
#[local] Existing Instance sample_debug.
#[local] Existing Instance sample_codecs.
#[local] Existing Instance sample_transforms.

Definition sample_rule : Rule := new_rule (lit "TOKEN") (lit "{{TOKEN}}") sample_secret [lit "api.test"].
Definition sample_injector : Injector := with_rules [sample_rule] [].
Definition sample_req (host_ value : str) : Request :=
  mkRequest (lit "GET") (lit "https") host_ 443 (lit "/") (lit "HTTP/1.1") [(lit "X-Api-Key", value); (lit "Accept", lit "{{TOKEN}}")] (lit "x").

Lemma policy_check_spec_witness : leaks sample_world sample_injector (sample_req (lit "evil.test") (lit "k=hunter%2D2.password")).
Proof.
  pose proof (policy_check_spec sample_world sample_injector (sample_req (lit "evil.test") (lit "k=hunter%2D2.password"))) as Hs.
  cbv zeta in Hs. revert Hs. destruct (check_injection_policy _ _ _).2 as [[v|]|e] eqn:E; vm_compute in E; [|discriminate..].
  injection E as <-. intros (_ & Hb & _). by apply Hb.
Defined.

Lemma no_secret_leaves_witness :
  (inject_request sample_world sample_injector (sample_req (lit "evil.test") (lit "{{TOKEN}}"))).1.2 = sample_req (lit "evil.test") (lit "{{TOKEN}}").
Proof.
  assert (Hr : forall r, r ∈ rules sample_injector -> covers r (to_lowercase (lit "evil.test")) = false).
  { intros r ->%list_elem_of_singleton. by vm_compute. }
  set (v := Some (placeholder_flag sample_rule (lit "evil.test"))).
  assert (Hv : (check_injection_policy sample_world sample_injector (sample_req (lit "evil.test") (lit "{{TOKEN}}"))).2 = Ok v) by (by vm_compute).
  pose proof (no_secret_leaves sample_world sample_injector (sample_req (lit "evil.test") (lit "{{TOKEN}}")) v Hv eq_refl) as Hl. cbv zeta in Hl.
  destruct (inject_request _ _ _) as [[[w' i'] req'] out]. cbn [fst snd].
  assert (Ered : redacts_to sample_injector (to_lowercase (host (sample_req (lit "evil.test") (lit "{{TOKEN}}")))) = false) by (by vm_compute).
  rewrite Ered in Hl. by apply Hl.
Defined.

Lemma strict_injection_witness :
  let '(_, _, req', _) := inject_request sample_world sample_injector (sample_req (lit "v1.API.test") (lit "{{TOKEN}}")) in
  headers req' = [(lit "X-Api-Key", sample_secret); (lit "Accept", lit "{{TOKEN}}")] /\ body req' = lit "x"
  /\ List.filter (of_name (lit "accept")) (headers req') = [(lit "Accept", lit "{{TOKEN}}")].
Proof.
  assert (Hs : forall r, r ∈ rules sample_injector -> inject_body r = false) by (by intros r ->%list_elem_of_singleton).
  assert (Hn : not_credential (rules sample_injector) (to_lowercase (host (sample_req (lit "v1.API.test") (lit "{{TOKEN}}")))) (lit "accept")).
  { intros r k ->%list_elem_of_singleton _ Hk. unfold eq_ignore_ascii_case in Hk. apply bool_decide_eq_true in Hk.
    assert (Ha : Forall (fun c => 0 <= c < 128) k).
    { apply Forall_forall. intros c Hc. assert (Hin : ascii_lower c ∈ map ascii_lower (lit "accept")) by (rewrite <- Hk; by apply list_elem_of_fmap_2).
      assert (Hl : forallb (in_range 97 121) (map ascii_lower (lit "accept")) = true) by (by vm_compute).
      apply forallb_Forall in Hl. rewrite Forall_forall in Hl. specialize (Hl _ Hin). cbv beta in Hl.
      unfold ascii_lower, is_ascii_uppercase, in_range in Hl. revert Hl. case_match; lia. }
    rewrite from_utf8_lossy_ascii by exact Ha. unfold is_auth_header, to_lowercase.
    rewrite (proj2 (forallb_Forall _ _)) by (eapply Forall_impl; [exact Ha|]; intros c Hc; unfold is_ascii, in_range; cbv beta in Hc; lia).
    rewrite Hk. by vm_compute. }
  pose proof (strict_injection sample_world sample_injector (sample_req (lit "v1.API.test") (lit "{{TOKEN}}")) (lit "accept")
    Hs ltac:(by vm_compute) Hn) as Hi.
  assert (E : headers (inject_request sample_world sample_injector (sample_req (lit "v1.API.test") (lit "{{TOKEN}}"))).1.2
              = [(lit "X-Api-Key", sample_secret); (lit "Accept", lit "{{TOKEN}}")]) by (by vm_compute).
  destruct (inject_request _ _ _) as [[[w' i'] req'] out]. destruct Hi as ((_ & _ & _ & _ & _ & _ & Hb) & _ & Hh).
  split; [exact E|by rewrite Hb, Hh].
Defined.

Lemma basic_auth_rewritten_witness :
  rewrite_basic_auth (lit "bAsIc dXNlcjp7e1R9fQ==") (lit "{{T}}") (lit "pw") = Some (lit "bAsIc dXNlcjpwdw==").
Proof.
  pose proof (basic_auth_rewritten (CL := model_crates_laws) (lit "bAsIc") (lit "user:{{T}}") (lit "{{T}}") (lit "pw")
    ltac:(vm_compute lit; repeat constructor; lia) ltac:(by apply (bool_decide_unpack _); vm_compute)) as E.
  etransitivity; [|etransitivity; [exact E|]]; by vm_compute.
Defined.

Lemma streamed_response_witness :
  let resp := mkResponse 200 [] (lit "HTTP/1.1") [(lit "X-Echo", sample_secret)] (lit "a=hunter-2.password&b") in
  exists st out last, push_all (with_max_hold (new_stream (redaction_forms sample_world sample_injector).2) 99) [lit "a=hunter-2.p"; lit "assword&b"] = Ok (st, out)
    /\ (finish st).2 = last /\ concat (out ++ last) = lit "a={{TOKEN}}&b"
    /\ concat (out ++ last) = resp_body (redact_response_decoded sample_world sample_injector resp None).1.2.
Proof.
  intros resp. assert (Hs : forall v, secret_now sample_world sample_injector v -> Forall scalar v).
  { intros v [_ [(r & ->%list_elem_of_singleton & ->)|(r & [->%list_elem_of_singleton|Hin] & Hv)]].
    - unfold sample_rule, new_rule, sample_secret. cbn [real_value]. vm_compute lit. repeat constructor; lia.
    - by apply not_elem_of_nil in Hv.
    - by apply not_elem_of_nil in Hin. }
  pose proof (streamed_response (CL := model_crates_laws) sample_world sample_injector resp None 99 [lit "a=hunter-2.p"; lit "assword&b"] Hs ltac:(by vm_compute)) as Hr.
  assert (Eb : resp_body (redact_response_decoded sample_world sample_injector resp None).1.2 = lit "a={{TOKEN}}&b") by (by vm_compute).
  assert (Ek : (redact_response_decoded sample_world sample_injector resp None).2.2 = None) by (by vm_compute).
  assert (Ep : match push_all (with_max_hold (new_stream (redaction_forms sample_world sample_injector).2) 99) [lit "a=hunter-2.p"; lit "assword&b"]
               with Ok _ => True | Err _ => False end) by (by vm_compute).
  cbv zeta in Hr. destruct (redact_headers_with _ _) as [h hf]. destruct (redact_response_decoded _ _ _ _) as [[i' resp'] [res kept]].
  destruct (push_all _ _) as [[st out]|e]; [|done].
  exists st, out, (finish st).2. split; [done|]. split; [done|]. destruct (finish st) as [st' last] eqn:Ef. cbn [snd fst]. destruct Hr as (_ & Hout & _).
  cbn [fst snd] in *. subst kept. by rewrite Hout.
Defined.
End Samples.
