(* ===== verification/H1.v ===== *)
(** The HTTP/1 codec: the model of [agentcage-egress/src/proxy/h1.rs] and of the
    read buffer of [proxy/io.rs].  Heads are delimited, framing headers are
    validated, bodies are read whole or a piece at a time, and messages are framed
    again on the way out.  What a socket returns is a list of arrivals, so the
    theorems quantify over every way the network may cut the bytes up. *)
From S2P Require Import Prelude Utf8 Message Budget.
From Stdlib Require Import ZifyBool.

(** * Definitions *)

Definition MAX_HEAD : Z := 256 * 1024.

Inductive ReadError : Type :=
| Eof
| Io (e : str)
| Malformed (why : str)
| HeadTooLarge
| BodyTooLarge
| BudgetExhausted.

Record RequestHead : Type := mkRequestHead { rq_method : str; rq_target : str; rq_version : str; rq_headers : Headers }.
Record ResponseHead : Type := mkResponseHead { rs_version : str; rs_status : Z; rs_reason : str; rs_headers : Headers }.

Inductive Framing : Type := Length (n : Z) | Chunked | UntilEof.
#[global] Instance Framing_eq_dec : EqDecision Framing.
Proof. solve_decision. Defined.

(** ** The connection *)

(** What one read of the socket returns; after the last one, reads return 0. *)
Inductive Arrival : Type := Data (l : bytes) | Failed (e : str).
Record Buffered : Type := mkBuffered { buf : bytes; io : list Arrival }.

(** A computation on a connection; an error leaves the connection where it was met. *)
Definition conn (A : Type) : Type := Buffered -> Buffered * result ReadError A.
Definition cret {A} (a : A) : conn A := fun c => (c, Ok a).
Definition cerr {A} (e : ReadError) : conn A := fun c => (c, Err e).
Definition cbind {A B} (m : conn A) (k : A -> conn B) : conn B := fun c =>
  match m c with (c, Ok a) => k a c | (c, Err e) => (c, Err e) end.
Notation "'let>' x := m 'in' k" := (cbind m (fun x => k))
  (at level 10, x pattern, m at level 200, k at level 200) : rust_scope.

(** [fill]: the number of bytes read, 0 at the end of the stream. *)
Definition fill : conn nat := fun c =>
  match io c with
  | [] => (c, Ok 0%nat)
  | Data l :: rest => (mkBuffered (buf c ++ l) rest, Ok (length l))
  | Failed e :: rest => (mkBuffered (buf c) rest, Err (Io e))
  end.
(** [BytesMut::split_to]. *)
Definition split_to (n : nat) (c : Buffered) : bytes * Buffered := (take n (buf c), mkBuffered (drop n (buf c)) (io c)).

(** ** Heads *)

(** The index past the blank line that ends a head. *)
Fixpoint head_end (l : bytes) : option nat :=
  match l with
  | [] => None
  | b :: r =>
      if b =? 10 then
        if starts_with r [10] then Some 2%nat
        else if starts_with r [13; 10] then Some 3%nat
        else S <$> head_end r
      else S <$> head_end r
  end.
Fixpoint skip_blank (l : bytes) : bytes :=
  match l with
  | [] => []
  | b :: r =>
      if b =? 10 then skip_blank r
      else if b =? 13 then match r with c :: r' => if c =? 10 then skip_blank r' else l | [] => l end
      else l
  end.
(** The loop of [read_head], once per read. *)
Fixpoint read_head_loop (l : bytes) (arrivals : list Arrival) : Buffered * result ReadError bytes :=
  let l := skip_blank l in
  match head_end l with
  | Some n => (mkBuffered (drop n l) arrivals, Ok (take n l))
  | None =>
      if MAX_HEAD <? Z.of_nat (length l) then (mkBuffered l arrivals, Err HeadTooLarge)
      else
        let closed := if bool_decide (l = []) then Eof else Malformed (lit "connection closed before the header section was complete") in
        match arrivals with
        | [] | Data [] :: _ => (mkBuffered l (tail arrivals), Err closed)
        | Failed e :: arrivals => (mkBuffered l arrivals, Err (Io e))
        | Data more :: arrivals => read_head_loop (l ++ more) arrivals
        end
  end.
Definition read_head : conn bytes := fun c => read_head_loop (buf c) (io c).

Definition version (minor : option Z) : str :=
  match minor with Some 0 => lit "HTTP/1.0" | _ => lit "HTTP/1.1" end.

(** What [httparse] returns for a complete head: the request line or the status
    line, the minor version and the headers. *)
Record Parsed : Type := mkParsed { p_method : option str; p_path : option str; p_version : option Z;
  p_code : option Z; p_reason : option str; p_headers : Headers }.
Inductive ParseStatus : Type := Complete (p : Parsed) | Partial | Invalid (e : str).
(** [httparse], for requests and (with folded values and spaces before the colon
    allowed) for responses. *)
Class HttpParse := { httparse_request : bytes -> ParseStatus; httparse_response : bytes -> ParseStatus }.

Section Heads.
Context `{HttpParse}.

Definition parse_request_head (head : bytes) : result str RequestHead :=
  match httparse_request head with
  | Complete p => Ok (mkRequestHead (default [] (p_method p)) (default [] (p_path p)) (version (p_version p)) (p_headers p))
  | Partial => Err (lit "incomplete request head")
  | Invalid e => Err (lit "Bad HTTP request: " ++ e)
  end.
Definition parse_response_head (head : bytes) : result str ResponseHead :=
  match httparse_response head with
  | Complete p => Ok (mkResponseHead (version (p_version p)) (default 0 (p_code p)) (default [] (p_reason p)) (p_headers p))
  | Partial => Err (lit "incomplete response head")
  | Invalid e => Err (lit "Cannot parse HTTP response: " ++ e)
  end.
End Heads.

(** ** Framing headers *)

Definition values (h : Headers) (name : str) : list bytes := map snd (List.filter (named name) h).

(** [{:?}] of a byte slice. *)
Definition debug_bytes (l : bytes) : str := [91] ++ sep_concat (lit ", ") (map show_unsigned l) ++ [93].

Definition CODINGS : list str :=
  map lit ["chunked"; "compress,chunked"; "deflate,chunked"; "gzip,chunked"; "compress"; "deflate"; "gzip"; "identity"]%string.
Definition ends_with (s p : str) : bool := starts_with (rev s) (rev p).

Section Framing.
Context `{StrDebug}.

Definition parse_transfer_encoding (value : bytes) : result str str :=
  match from_utf8 value with
  | Some text =>
      if negb (forallb is_ascii text) then Err (lit "invalid transfer-encoding header: " ++ debug_bytes value)
      else
        let normalised := join_with 44 (map (trim_matches (fun c => (c =? 32) || (c =? 9))) (split_on 44 (map ascii_lower text))) in
        if bool_decide (normalised ∈ CODINGS) then Ok normalised
        else Err (lit "unknown transfer-encoding header: " ++ debug_str (from_utf8_lossy value))
  | None => Err (lit "invalid transfer-encoding header: " ++ debug_bytes value)
  end.
Definition parse_content_length (value : bytes) : result str Z :=
  let valid := negb (bool_decide (value = [])) && forallb is_ascii_digit value
               && (bool_decide (value = [48]) || negb (nth 0 value 0 =? 48)) in
  if negb valid then Err (lit "invalid content-length header: " ++ debug_str (from_utf8_lossy value))
  else
    match (let? v := from_utf8 value in parse_unsigned u64_max v) with
    | Some n => Ok n
    | None => Err (lit "invalid content-length header")
    end.

(** [status] is [None] for a request. *)
Definition validate_framing (h : Headers) (version : str) (status : option Z) : result str unit :=
  let te := values h (lit "transfer-encoding") in
  let cl := values h (lit "content-length") in
  match te, cl with
  | _ :: _, _ :: _ => Err (lit "message with both transfer-encoding and content-length headers")
  | first :: more, [] =>
      if negb (bool_decide (more = [])) then Err (lit "multiple transfer-encoding headers")
      else
        let shown := debug_str (from_utf8_lossy first) in
        if negb (bool_decide (version = lit "HTTP/1.1")) then
          Err (lit "unexpected HTTP transfer-encoding " ++ shown ++ lit " for " ++ version)
        else
          match (let? code := status in if in_range 100 199 code || (code =? 204) then Some code else None) with
          | Some code => Err (lit "unexpected HTTP transfer-encoding " ++ shown ++ lit " for response with status code " ++ show_unsigned code)
          | None =>
              let! parsed := parse_transfer_encoding first in
              if bool_decide (status = None) && negb (ends_with parsed (lit "chunked")) then
                Err (lit "unexpected HTTP transfer-encoding " ++ debug_str parsed ++ lit " for request")
              else Ok tt
          end
  | [], first :: more =>
      if negb (bool_decide (more = [])) then Err (lit "multiple content-length headers")
      else let! _ := parse_content_length first in Ok tt
  | [], [] => Ok tt
  end.

Definition is_chunked (h : Headers) : bool :=
  match values h (lit "transfer-encoding") with
  | [] => false
  | v :: _ => bool_decide (is_Some (find_sub (lit "chunked") (map ascii_lower (from_utf8_lossy v))))
  end.
Definition length_framing (h : Headers) (none : Framing) : result str Framing :=
  match values h (lit "content-length") with
  | cl :: _ => let! n := parse_content_length cl in Ok (Length n)
  | [] => Ok none
  end.
Definition request_framing (h : Headers) : result str Framing :=
  match values h (lit "transfer-encoding") with
  | te :: _ =>
      let! parsed := parse_transfer_encoding te in
      if ends_with parsed (lit "chunked") then Ok Chunked else length_framing h (Length 0)
  | [] => length_framing h (Length 0)
  end.
Definition response_has_body (method : str) (status : Z) : bool :=
  negb (eq_ignore_ascii_case (as_bytes method) (lit "HEAD") || in_range 100 199 status || (status =? 204) || (status =? 304)
        || (in_range 200 299 status && eq_ignore_ascii_case (as_bytes method) (lit "CONNECT"))).
Definition response_framing (method : str) (status : Z) (h : Headers) : result str Framing :=
  if negb (response_has_body method status) then Ok (Length 0)
  else
    match values h (lit "transfer-encoding") with
    | te :: _ => let! parsed := parse_transfer_encoding te in Ok (if ends_with parsed (lit "chunked") then Chunked else UntilEof)
    | [] => length_framing h UntilEof
    end.

(** Whether a response's transfer coding allows streaming. *)
Definition plain_transfer_coding (h : Headers) : bool :=
  match values h (lit "transfer-encoding") with
  | [] => true
  | te :: _ => match parse_transfer_encoding te with Ok t => bool_decide (t = lit "chunked") | Err _ => false end
  end.
End Framing.

(** Whether the message asks for the connection to close after it. *)
Definition connection_close `{Unicode} (version : str) (h : Headers) : bool :=
  let tokens := flat_map (fun v => map (fun t => map ascii_lower (trim t)) (split_on 44 v)) (get_all h (lit "connection")) in
  if existsb (fun t => bool_decide (t = lit "close")) tokens then true
  else if existsb (fun t => bool_decide (t = lit "keep-alive")) tokens then false
  else negb (bool_decide (version = lit "HTTP/1.1") || bool_decide (version = lit "HTTP/2.0")).

(** ** The budget *)

(** What a body reader uses of a [Reservation]: growing to a total, and making
    room in a vector of a length and a capacity (the new capacity). *)
Class BodyReservation (R : Type) := {
  res_held : R -> Z;
  res_grow_to : R -> Z -> R * bool;
  res_make_room : R -> Z -> Z -> Z -> R * Z * bool;
  (** The allocator's answer to [try_reserve_exact]. *)
  res_alloc : R -> Z -> bool
}.

(** A [Reservation] of the shared budget: what it holds, the allocator, and what the
    other tasks do to the budget around each of its operations. *)
Record Others : Type := mkOthers { meanwhile : BodyBudget -> BodyBudget; wakes : list (BodyBudget -> BodyBudget); at_deadline : BodyBudget -> BodyBudget }.
Record Held : Type := mkHeld { shared : BodyBudget; mine : Z; allocator : Z -> bool; others : list Others }.
Definition next_others (h : Held) : Others := hd (mkOthers id [] id) (others h).
Definition held_grow_to (h : Held) (n : Z) : Held * bool :=
  let o := next_others h in
  let '(b, m, ok) := grow_to (wakes o) (at_deadline o) (meanwhile o (shared h)) (mine h) n in
  (mkHeld b m (allocator h) (tail (others h)), ok).
Definition held_make_room (h : Held) (n cap extra : Z) : Held * Z * bool :=
  let o := next_others h in
  let '(b, m, cap, ok) := make_room (allocator h) (wakes o) (at_deadline o) (meanwhile o (shared h)) (mine h) n cap extra in
  (mkHeld b m (allocator h) (tail (others h)), cap, ok).
#[global] Instance budget_reservation : BodyReservation Held := {|
  res_held := mine; res_grow_to := held_grow_to; res_make_room := held_make_room; res_alloc := allocator
|}.

(** ** Bodies *)

Definition READ_STEP : nat := Z.to_nat (64 * 1024).
Definition CLOSED : str := lit "connection closed inside a chunked body".
Definition INCOMPLETE : str := lit "connection closed before the body was complete".

(** The loop of [read_exact_into]: [want] bytes more, straight from the socket; a
    read returns at most what is wanted. *)
Fixpoint read_exact_loop (truncated : str) (body : bytes) (want : nat) (arrivals : list Arrival)
  : list Arrival * result ReadError bytes :=
  match want with
  | O => (arrivals, Ok body)
  | _ =>
      match arrivals with
      | [] | Data [] :: _ => (tail arrivals, Err (Malformed truncated))
      | Failed e :: arrivals => (arrivals, Err (Io e))
      | Data l :: arrivals =>
          if Nat.leb (length l) want then read_exact_loop truncated (body ++ l) (want - length l) arrivals
          else (Data (drop want l) :: arrivals, Ok (body ++ take want l))
      end
  end.
Definition read_exact_into (body : bytes) (n : nat) (truncated : str) : conn bytes := fun c =>
  let from_buf := Nat.min n (length (buf c)) in
  let '(head, c) := split_to from_buf c in
  let '(arrivals, r) := read_exact_loop truncated (body ++ head) (n - from_buf) (io c) in
  (mkBuffered (buf c) arrivals, r).

(** The line without its end. *)
Definition strip_cr (line : bytes) : bytes :=
  match rev line with 13 :: r => rev r | _ => line end.
Fixpoint read_line_loop (l : bytes) (arrivals : list Arrival) : Buffered * result ReadError bytes :=
  match find_sub [10] l with
  | Some pos => (mkBuffered (drop (S pos) l) arrivals, Ok (strip_cr (take pos l)))
  | None =>
      if MAX_HEAD <? Z.of_nat (length l) then (mkBuffered l arrivals, Err (Malformed (lit "chunk line too long")))
      else
        match arrivals with
        | [] | Data [] :: _ => (mkBuffered l (tail arrivals), Err (Malformed CLOSED))
        | Failed e :: arrivals => (mkBuffered l arrivals, Err (Io e))
        | Data more :: arrivals => read_line_loop (l ++ more) arrivals
        end
  end.
Definition read_line : conn bytes := fun c => read_line_loop (buf c) (io c).

(** [while conn.buf.len() < n { fill }]. *)
Fixpoint fill_to_loop (n : nat) (l : bytes) (arrivals : list Arrival) : Buffered * result ReadError unit :=
  if Nat.leb n (length l) then (mkBuffered l arrivals, Ok tt)
  else
    match arrivals with
    | [] | Data [] :: _ => (mkBuffered l (tail arrivals), Err (Malformed CLOSED))
    | Failed e :: arrivals => (mkBuffered l arrivals, Err (Io e))
    | Data more :: arrivals => fill_to_loop n (l ++ more) arrivals
    end.
Definition fill_to (n : nat) : conn unit := fun c => fill_to_loop n (buf c) (io c).
Definition take_buf (n : nat) : conn bytes := fun c => let '(l, c) := split_to n c in (c, Ok l).
Definition expect_crlf : conn unit :=
  let> _ := fill_to 2 in
  let> crlf := take_buf 2 in
  if bool_decide (crlf = [13; 10]) then cret tt else cerr (Malformed (lit "missing CRLF after chunk")).

(** The bytes still to come; every loop below reads at least one of them, or
    meets the end, in each round. *)
Definition arrival_size (a : Arrival) : nat := match a with Data l => S (length l) | Failed _ => 1 end.
Definition io_size (c : Buffered) : nat := length (buf c) + list_sum (map arrival_size (io c)).

(** Trailers are read and dropped. *)
Fixpoint skip_trailers (fuel : nat) : conn unit :=
  match fuel with
  | O => cerr (Malformed [])
  | S fuel => let> line := read_line in if bool_decide (line = []) then cret tt else skip_trailers fuel
  end.

Section Bodies.
Context `{StrDebug}.

(** The size of a chunk, from its line. *)
Definition chunk_size (line : bytes) : result ReadError Z :=
  let size_text := nth 0 (split_on 59 line) [] in
  match from_utf8 size_text with
  | None => Err (Malformed (lit "invalid chunk size"))
  | Some text =>
      match parse_hex usize_max (trim text) with
      | None => Err (Malformed (lit "invalid chunk size: " ++ debug_str (trim text)))
      | Some n => Ok n
      end
  end.
Definition read_chunk_size : conn Z :=
  let> line := read_line in fun c => (c, chunk_size line).

Section Reserved.
Context `{R : Type} `{BodyReservation R}.

(** A vector: its contents and its capacity. *)
Abbreviation Vec := (bytes * Z)%type.
Definition len (l : bytes) : Z := Z.of_nat (length l).
(** A reader that also holds a reservation. *)
Abbreviation reading A := (Buffered * R * result ReadError A)%type.
Definition reserve (r : R) (body : Vec) (extra : Z) : R * result ReadError Z :=
  match res_make_room r (len body.1) body.2 extra with
  | (r, cap, true) => (r, Ok cap)
  | (r, _, false) => (r, Err BudgetExhausted)
  end.

(** The loop over the chunks; [fuel] bounds its rounds. *)
Fixpoint read_chunked_loop (fuel : nat) (max : Z) (c : Buffered) (r : R) (body : Vec) : reading bytes :=
  match fuel with
  | O => (c, r, Err (Malformed []))
  | S fuel =>
      match read_chunk_size c with
      | (c, Err e) => (c, r, Err e)
      | (c, Ok size) =>
          if size =? 0 then
            let '(c, done) := skip_trailers (S (io_size c)) c in (c, r, let! _ := done in Ok body.1)
          else if max <? saturating_add usize_max (len body.1) size then (c, r, Err BodyTooLarge)
          else
            match reserve r body size with
            | (r, Err e) => (c, r, Err e)
            | (r, Ok cap) =>
                match (let> body := read_exact_into body.1 (Z.to_nat size) CLOSED in let> _ := expect_crlf in cret body) c with
                | (c, Err e) => (c, r, Err e)
                | (c, Ok body) => read_chunked_loop fuel max c r (body, cap)
                end
            end
      end
  end.
Definition read_chunked (max : Z) (c : Buffered) (r : R) : reading bytes := read_chunked_loop (S (io_size c)) max c r ([], 0).

(** The loop of a body that ends with the stream, one read of [READ_STEP] a round. *)
Definition read_step : conn bytes := fun c =>
  match io c with
  | [] => (c, Ok [])
  | Data l :: rest =>
      if Nat.leb (length l) READ_STEP then (mkBuffered (buf c) rest, Ok l)
      else (mkBuffered (buf c) (Data (drop READ_STEP l) :: rest), Ok (take READ_STEP l))
  | Failed e :: rest => (mkBuffered (buf c) rest, Err (Io e))
  end.
Fixpoint read_to_end (fuel : nat) (max : Z) (c : Buffered) (r : R) (body : Vec) : reading bytes :=
  match fuel with
  | O => (c, r, Err (Malformed []))
  | S fuel =>
      match reserve r body (Z.of_nat READ_STEP) with
      | (r, Err e) => (c, r, Err e)
      | (r, Ok cap) =>
          match read_step c with
          | (c, Err e) => (c, r, Err e)
          | (c, Ok []) => (c, r, Ok body.1)
          | (c, Ok l) =>
              let body := body.1 ++ l in
              if max <? len body then (c, r, Err BodyTooLarge) else read_to_end fuel max c r (body, cap)
          end
      end
  end.
Definition read_body (c : Buffered) (framing : Framing) (max : Z) (r : R) : reading bytes :=
  match framing with
  | Length n =>
      if max <? n then (c, r, Err BodyTooLarge)
      else
        match res_grow_to r n with
        | (r, false) => (c, r, Err BudgetExhausted)
        | (r, true) =>
            if n <=? len (buf c) then let '(body, c) := split_to (Z.to_nat n) c in (c, r, Ok body)
            else if negb (res_alloc r n) then (c, r, Err BudgetExhausted)
            else let '(c, body) := read_exact_into [] (Z.to_nat n) INCOMPLETE c in (c, r, body)
        end
  | UntilEof =>
      let '(head, c) := split_to (length (buf c)) c in
      if max <? len head then (c, r, Err BodyTooLarge)
      else
        match reserve r ([], 0) (len head) with
        | (r, Err e) => (c, r, Err e)
        | (r, Ok cap) => read_to_end (S (io_size c)) max c r (head, cap)
        end
  | Chunked => read_chunked max c r
  end.
End Reserved.

(** ** Streaming reads *)

Inductive Chunk : Type := Size | InData (n : Z) | DataEnd.
Record BodyReader : Type := mkReader { framing : Framing; remaining : Z; chunk : Chunk; reader_done : bool }.
Definition new_reader (f : Framing) : BodyReader :=
  mkReader f (match f with Length n => n | _ => 0 end) Size (bool_decide (f = Length 0)).
Definition is_done (b : BodyReader) : bool := reader_done b.
Definition at_chunk (b : BodyReader) (s : Chunk) : BodyReader := mkReader (framing b) (remaining b) s (reader_done b).
Definition finished (b : BodyReader) : BodyReader := mkReader (framing b) (remaining b) (chunk b) true.

(** [BodyReader::fill]. *)
Definition reader_fill (truncated : option str) : conn bool :=
  let> n := fill in
  match n, truncated with
  | O, Some why => cerr (Malformed why)
  | O, None => cret false
  | _, _ => cret true
  end.
(** [if conn.buf.is_empty() { fill }]. *)
Definition fill_if_empty (truncated : option str) : conn bool := fun c =>
  if bool_decide (buf c = []) then reader_fill truncated c else (c, Ok true).
(** Up to [want] of what is buffered: the piece, and what is left. *)
Definition take_piece (want : Z) : conn (bytes * Z) := fun c =>
  let n := Z.to_nat (Z.min want (Z.of_nat (length (buf c)))) in
  let '(piece, c) := split_to n c in (c, Ok (piece, want - Z.of_nat n)).

(** The loop of [next_chunked]: after a chunk's data come at most its end, the next
    size and a piece, so three rounds are enough. *)
Fixpoint next_chunked_loop (fuel : nat) (b : BodyReader) : conn (BodyReader * option bytes) :=
  match fuel with
  | O => cerr (Malformed [])
  | S fuel =>
      match chunk b with
      | Size =>
          let> size := read_chunk_size in
          if size =? 0 then fun c => (let> _ := skip_trailers (S (io_size c)) in cret (finished b, None)) c
          else next_chunked_loop fuel (at_chunk b (InData size))
      | InData n =>
          let> _ := fill_if_empty (Some CLOSED) in
          let> (piece, rest) := take_piece n in
          cret (at_chunk b (if rest =? 0 then DataEnd else InData rest), Some piece)
      | DataEnd =>
          let> _ := expect_crlf in
          next_chunked_loop fuel (at_chunk b Size)
      end
  end.
Definition next_chunked (b : BodyReader) : conn (BodyReader * option bytes) := next_chunked_loop 3 b.
(** The next piece of the body, [None] once it is complete. *)
Definition next (b : BodyReader) : conn (BodyReader * option bytes) :=
  if reader_done b then cret (b, None)
  else
    match framing b with
    | Length _ =>
        let> _ := fill_if_empty (Some INCOMPLETE) in
        let> (piece, rest) := take_piece (remaining b) in
        cret (mkReader (framing b) rest (chunk b) (rest =? 0), Some piece)
    | UntilEof =>
        let> more := fill_if_empty None in
        if negb more then cret (finished b, None)
        else fun c => let '(piece, c) := split_to (length (buf c)) c in (c, Ok (b, Some piece))
    | Chunked => next_chunked b
    end.
End Bodies.

(** ** Messages out *)

Definition CRLF : bytes := [13; 10].
Definition LAST_CHUNK : bytes := lit "0" ++ CRLF ++ CRLF.
Definition put_headers (h : Headers) : bytes := flat_map (fun e => e.1 ++ lit ": " ++ e.2 ++ CRLF) h ++ CRLF.
(** The code is always three digits. *)
Definition status_line (version : str) (status : Z) (reason : str) : bytes :=
  as_bytes (version ++ [32] ++ pad 3 status ++ [32] ++ reason) ++ CRLF.

(** The headers fixed for a body of [n] bytes, and whether it goes out chunked. *)
Definition fix_framing (h : Headers) (n : Z) (needs_length : bool) : Headers * bool :=
  if is_chunked h then (h, true)
  else if header_contains h (lit "transfer-encoding") then (h, false)
  else if header_contains h (lit "content-length") then (header_set h (lit "content-length") (show_unsigned n), false)
  else if needs_length then (header_add h (lit "content-length") (show_unsigned n), false)
  else (h, false).
(** What goes before and after a body. *)
Definition body_frame (n : Z) (chunked : bool) : bytes * bytes :=
  if negb chunked then ([], [])
  else if n =? 0 then ([], LAST_CHUNK)
  else (show_hex n ++ CRLF, CRLF ++ LAST_CHUNK).
Definition put_body (body : bytes) (chunked : bool) : bytes :=
  if chunked then (if bool_decide (body = []) then [] else show_hex (len body) ++ CRLF ++ body ++ CRLF) ++ LAST_CHUNK
  else body.
(** The writes of a message, in order: a small body goes out with its head. *)
Definition write_message (head body : bytes) (chunked : bool) : list bytes :=
  let '(before, after) := body_frame (len body) chunked in
  let head := head ++ before in
  if len body <=? 64 * 1024 then [head ++ body ++ after] else [head; body; after].

Definition is_http1 (version : str) : bool := starts_with version (lit "HTTP/1").
Definition one_cookie (h : Headers) : Headers :=
  let cookies := get_all h (lit "cookie") in
  if Nat.ltb 1 (length cookies) then header_set h (lit "cookie") (as_bytes (sep_concat (lit "; ") cookies)) else h.
Definition request_headers (req : Request) : Headers * bool :=
  let h := if is_http1 (http_version req) then headers req else one_cookie (headers req) in
  fix_framing h (len (body req)) (negb (bool_decide (body req = []))).
Definition request_line (req : Request) : bytes :=
  let version := if is_http1 (http_version req) then http_version req else lit "HTTP/1.1" in
  let path := if bool_decide (path req = []) then lit "/" else path req in
  as_bytes (method req ++ [32] ++ path ++ [32] ++ version) ++ CRLF.
Definition request_head (req : Request) : bytes * bool :=
  let '(h, chunked) := request_headers req in (request_line req ++ put_headers h, chunked).
Definition encode_request (req : Request) : bytes :=
  let '(out, chunked) := request_head req in out ++ put_body (body req) chunked.
Definition write_request (req : Request) : list bytes :=
  let '(head, chunked) := request_head req in write_message head (body req) chunked.

(** [reason_phrase] of [proxy/mod.rs]. *)
Definition REASONS : list (Z * string) := [
  (100, "Continue"); (101, "Switching Protocols"); (102, "Processing"); (103, "Early Hints"); (200, "OK");
  (201, "Created"); (202, "Accepted"); (203, "Non-Authoritative Information"); (204, "No Content");
  (205, "Reset Content"); (206, "Partial Content"); (207, "Multi-Status"); (208, "Already Reported"); (226, "IM Used");
  (300, "Multiple Choices"); (301, "Moved Permanently"); (302, "Found"); (303, "See Other"); (304, "Not Modified");
  (305, "Use Proxy"); (307, "Temporary Redirect"); (308, "Permanent Redirect"); (400, "Bad Request");
  (401, "Unauthorized"); (402, "Payment Required"); (403, "Forbidden"); (404, "Not Found");
  (405, "Method Not Allowed"); (406, "Not Acceptable"); (407, "Proxy Authentication Required");
  (408, "Request Time-out"); (409, "Conflict"); (410, "Gone"); (411, "Length Required"); (412, "Precondition Failed");
  (413, "Payload Too Large"); (414, "Request-URI Too Long"); (415, "Unsupported Media Type");
  (416, "Requested Range not satisfiable"); (417, "Expectation Failed"); (418, "I'm a teapot");
  (421, "Misdirected Request"); (422, "Unprocessable Content"); (423, "Locked"); (424, "Failed Dependency");
  (425, "Too Early"); (426, "Upgrade Required"); (428, "Precondition Required"); (429, "Too Many Requests");
  (431, "Request Header Fields Too Large"); (451, "Unavailable For Legal Reasons"); (444, "No Response");
  (499, "Client Closed Request"); (500, "Internal Server Error"); (501, "Not Implemented"); (502, "Bad Gateway");
  (503, "Service Unavailable"); (504, "Gateway Time-out"); (505, "HTTP Version not supported");
  (506, "Variant Also Negotiates"); (507, "Insufficient Storage Space"); (508, "Loop Detected"); (510, "Not Extended");
  (511, "Network Authentication Required")]%string.
Definition reason_phrase (status : Z) : str :=
  match List.find (fun e => e.1 =? status) REASONS with Some (_, text) => lit text | None => [] end.

Definition response_line (resp : Response) : bytes :=
  if is_http1 (resp_version resp) then status_line (resp_version resp) (status resp) (reason resp)
  else status_line (lit "HTTP/1.1") (status resp) (reason_phrase (status resp)).
(** The head, whether the body goes out chunked, and whether there is one. *)
Definition response_headers (resp : Response) (method : str) : Headers * bool :=
  if response_has_body method (status resp) then fix_framing (resp_headers resp) (len (resp_body resp)) true
  else (resp_headers resp, false).
Definition response_head (resp : Response) (method : str) : bytes * bool * bool :=
  let '(h, chunked) := response_headers resp method in
  (response_line resp ++ put_headers h, chunked, response_has_body method (status resp)).
Definition encode_response (resp : Response) (method : str) : bytes :=
  let '(out, chunked, has_body) := response_head resp method in
  if has_body then out ++ put_body (resp_body resp) chunked else out.
Definition write_response (resp : Response) (method : str) : list bytes :=
  let '(head, chunked, has_body) := response_head resp method in
  write_message head (if has_body then resp_body resp else []) (chunked && has_body).
Definition encode_head_only (resp : Response) : bytes :=
  status_line (lit "HTTP/1.1") (status resp) (reason resp) ++ put_headers (resp_headers resp).

(** Streamed bodies towards a client. *)
Inductive StreamFraming : Type := SLength | SChunked | SClose.
Definition stream_headers (h : Headers) (f : StreamFraming) : Headers :=
  match f with
  | SLength => header_remove h (lit "transfer-encoding")
  | SChunked =>
      let h := header_remove h (lit "content-length") in
      if is_chunked h then h else header_add (header_remove h (lit "transfer-encoding")) (lit "transfer-encoding") (lit "chunked")
  | SClose => header_remove (header_remove h (lit "content-length")) (lit "transfer-encoding")
  end.
Definition encode_stream_head (resp : Response) (f : StreamFraming) : bytes :=
  response_line resp ++ put_headers (stream_headers (resp_headers resp) f).
(** The writes of one piece: a small chunk is one write. *)
Definition write_piece (piece : bytes) (f : StreamFraming) : list bytes :=
  if bool_decide (piece = []) then []
  else
    match f with
    | SChunked =>
        let size := show_hex (len piece) ++ CRLF in
        if len piece <=? 16 * 1024 then [size ++ piece ++ CRLF] else [size; piece; CRLF]
    | _ => [piece]
    end.
(** What ends a streamed body: the writes, and whether the connection is shut down. *)
Definition write_end (f : StreamFraming) : list bytes * bool :=
  match f with SChunked => ([LAST_CHUNK], false) | SLength => ([], false) | SClose => ([], true) end.
