(* ===== verification/H1Spec.v ===== *)
(** The HTTP/1 codec is unambiguous and exact: what [H1] accepts has one framing,
    what it reads does not depend on how the network cuts the bytes up, and what it
    writes is read back as the same message. *)
From S2P Require Import Prelude Utf8 Message Budget H1.
From Stdlib Require Import ZifyBool.

(** * Streams *)

(** The bytes a list of arrivals brings, when no read fails. *)
Definition pieces (arrivals : list Arrival) : bytes := flat_map (fun a => match a with Data l => l | Failed _ => [] end) arrivals.
Definition flowing (arrivals : list Arrival) : Prop := Forall (fun a => match a with Data l => l <> [] | Failed _ => False end) arrivals.
Definition stream (c : Buffered) : bytes := buf c ++ pieces (io c).

Lemma pieces_cons l arr : pieces (Data l :: arr) = l ++ pieces arr.
Proof. done. Qed.

(** What a reader can only do, and what it does on a stream however it is cut. *)
Definition only {A} (m : conn A) (P : bytes -> A -> bytes -> Prop) : Prop := forall c c' a,
  flowing (io c) -> m c = (c', Ok a) -> flowing (io c') /\ P (stream c) a (stream c').
Definition delivers {A} (m : conn A) (s : bytes) (a : A) (s' : bytes) : Prop := forall c,
  flowing (io c) -> stream c = s -> exists c', m c = (c', Ok a) /\ flowing (io c') /\ stream c' = s'.

Lemma only_bind {A B} (m : conn A) (k : A -> conn B) P Q : only m P -> (forall a, only (k a) (Q a)) ->
  only (cbind m k) (fun s b s2 => exists a s1, P s a s1 /\ Q a s1 b s2).
Proof.
  intros Hm Hk c c' b Hf H. unfold cbind in H. destruct (m c) as [c1 [a|e]] eqn:E; [|discriminate].
  destruct (Hm _ _ _ Hf E) as [Hf1 HP]. destruct (Hk a _ _ _ Hf1 H) as [Hf2 HQ]. eauto.
Qed.
Lemma only_ret {A} (a : A) : only (cret a) (fun s b s' => b = a /\ s' = s).
Proof. intros c c' b Hf [= <- <-]. auto. Qed.
Lemma only_err {A} e (P : bytes -> A -> bytes -> Prop) : only (cerr e) P.
Proof. intros c c' b Hf [=]. Qed.
Lemma only_weaken {A} (m : conn A) (P Q : bytes -> A -> bytes -> Prop) : only m P -> (forall s a s', P s a s' -> Q s a s') -> only m Q.
Proof. intros Hm HPQ c c' a Hf H. destruct (Hm _ _ _ Hf H). eauto. Qed.
Lemma delivers_bind {A B} (m : conn A) (k : A -> conn B) s a s1 b s2 :
  delivers m s a s1 -> delivers (k a) s1 b s2 -> delivers (cbind m k) s b s2.
Proof.
  intros Hm Hk c Hf Hs. destruct (Hm c Hf Hs) as (c1 & E & Hf1 & Hs1). destruct (Hk c1 Hf1 Hs1) as (c2 & E2 & H2).
  exists c2. split; [|exact H2]. unfold cbind. by rewrite E.
Qed.
Lemma delivers_ret {A} (a : A) s : delivers (cret a) s a s.
Proof. intros c Hf Hs. by exists c. Qed.

Lemma io_size_stream c : (length (stream c) <= io_size c)%nat.
Proof.
  unfold stream, io_size. rewrite length_app. enough (length (pieces (io c)) <= list_sum (map arrival_size (io c)))%nat by lia.
  induction (io c) as [|[l|e] r IH]; [done|..]; cbn [pieces flat_map map]; fold (pieces r); rewrite ?length_app; unfold list_sum in *; cbn [fold_right arrival_size length app]; rewrite ?length_app; lia.
Qed.

(** ** Lines *)

Lemma find_lf_app a b : 10 ∉ a -> find_sub [10] (a ++ 10 :: b) = Some (length a).
Proof.
  intros Ha. induction a as [|x a IH]; [reflexivity|]. apply not_elem_of_cons in Ha as [Hx Ha]. cbn [app find_sub starts_with].
  rewrite (proj2 (Z.eqb_neq x 10)) by congruence. cbn [andb]. by rewrite IH.
Qed.
Lemma find_lf_none l : find_sub [10] l = None <-> 10 ∉ l.
Proof.
  induction l as [|x l IH]; [split; [intros _; apply not_elem_of_nil|done]|]. cbn [find_sub starts_with]. rewrite not_elem_of_cons.
  destruct (Z.eqb_spec x 10) as [->|Hx]; cbn [andb]; [split; [done|tauto]|].
  destruct (find_sub [10] l); split; try done; try tauto; intros; [|]; naive_solver.
Qed.
Lemma find_lf_some l n : find_sub [10] l = Some n -> exists a b, l = a ++ 10 :: b /\ (10 ∉ a) /\ length a = n.
Proof.
  revert n. induction l as [|x l IH]; intros n H; [discriminate|]. cbn [find_sub starts_with] in H.
  destruct (Z.eqb_spec x 10) as [->|Hx]; cbn [andb] in H.
  - injection H as <-. exists [], l. split; [done|]. split; [apply not_elem_of_nil|done].
  - destruct (find_sub [10] l) as [k|]; [|discriminate]. injection H as <-. destruct (IH k eq_refl) as (a & b & -> & Ha & <-).
    exists (x :: a), b. split; [done|]. split; [apply not_elem_of_cons; split; [congruence|done]|done].
Qed.

Lemma read_line_only : only read_line (fun s l s' => exists line, s = line ++ 10 :: s' /\ (10 ∉ line) /\ l = strip_cr line).
Proof.
  intros c c' l. unfold read_line, stream. revert l. generalize (buf c). generalize (io c). clear c. intros arr. induction arr as [|[more|e] arr IH]; intros b l Hf H;
    cbn [read_line_loop tail] in H; destruct (find_sub [10] b) as [pos|] eqn:E;
    try (injection H as <- <-; cbn [buf io]; split; [exact Hf|]; apply find_lf_some in E as (x & y & -> & Hx & <-);
         exists x; rewrite take_app_length, <- app_assoc; split; [|done]; do 2 f_equal; cbn [app];
         change (S (length x)) with (1 + length x)%nat; rewrite Nat.add_comm, <- drop_drop, drop_app_length; done);
    destruct (MAX_HEAD <? _); try discriminate.
  - destruct more as [|x more]; [discriminate|]. apply Forall_cons in Hf as [_ Hf]. destruct (IH _ _ Hf H) as [Hf' (line & E2 & H2)].
    split; [exact Hf'|]. exists line. split; [|exact H2]. rewrite <- E2. cbn [pieces flat_map]. by rewrite <- !app_assoc.
Qed.
Lemma read_line_delivers line rest : 10 ∉ line -> Z.of_nat (length line) <= MAX_HEAD -> delivers read_line (line ++ 10 :: rest) (strip_cr line) rest.
Proof.
  intros Hl Hm c. unfold read_line, stream. generalize (buf c). generalize (io c). clear c. intros arr. induction arr as [|[more|e] arr IH]; intros b Hf Hs.
  - cbn [pieces flat_map] in Hs. rewrite app_nil_r in Hs. subst b. cbn [read_line_loop]. rewrite find_lf_app by done.
    eexists. split; [rewrite take_app_length; reflexivity|]. cbn [buf io]. split; [done|]. cbn [pieces flat_map].
    change (S (length line)) with (1 + length line)%nat. by rewrite Nat.add_comm, <- drop_drop, drop_app_length, app_nil_r.
  - cbn [read_line_loop]. destruct (find_sub [10] b) as [pos|] eqn:E.
    + apply find_lf_some in E as (x & y & -> & Hx & <-). rewrite <- app_assoc in Hs. cbn [app] in Hs.
      assert (x = line /\ y ++ pieces (Data more :: arr) = rest) as [-> Hr].
      { apply (f_equal (split_once 10)) in Hs. rewrite !split_once_app in Hs by done. by injection Hs. }
      eexists. split; [rewrite take_app_length; reflexivity|]. cbn [buf io]. split; [done|].
      change (S (length line)) with (1 + length line)%nat. by rewrite Nat.add_comm, <- drop_drop, drop_app_length.
    + rewrite (proj2 (Z.ltb_ge _ _)).
      2: { enough (length b <= length line)%nat by lia. apply find_lf_none in E. apply Nat.nlt_ge. intros Hlt.
           apply E. apply (f_equal (take (length b))) in Hs. rewrite take_app_length in Hs. rewrite Hs.
           rewrite take_app_ge by lia. apply elem_of_app. right. destruct (length b - length line)%nat eqn:Ek; [lia|]. by left. }
      apply Forall_cons in Hf as [Hne Hf]. destruct more as [|x more]; [done|]. apply IH; [done|]. rewrite <- app_assoc. exact Hs.
  - apply Forall_cons in Hf as [[] _].
Qed.

(** ** Exact reads *)

Lemma read_exact_only body n why : only (read_exact_into body n why)
  (fun s r s' => exists data, s = data ++ s' /\ length data = n /\ r = body ++ data).
Proof.
  intros c c' r Hf. unfold read_exact_into, split_to, stream. cbn [io buf]. set (b := buf c). generalize (io c) Hf. clear Hf.
  set (k := Nat.min n (length b)).
  assert (Hk : forall arr w acc out, flowing arr -> read_exact_loop why acc w arr = (out, Ok r) ->
     flowing out /\ exists data, pieces arr = data ++ pieces out /\ length data = w /\ r = acc ++ data).
  { induction arr as [|[more|e] arr IH]; intros [|w] acc out Hf H; cbn [read_exact_loop] in H; try discriminate;
      try (injection H as <- <-; split; [exact Hf|]; exists []; split; [done|]; split; [done|symmetry; apply app_nil_r]).
    destruct more as [|x more]; [discriminate|]. apply Forall_cons in Hf as [_ Hf]. destruct (Nat.leb_spec (length (x :: more)) (S w)).
    - destruct (IH _ _ _ Hf H) as [Hf' (data & E & Hl & ->)]. split; [exact Hf'|]. exists ((x :: more) ++ data).
      rewrite pieces_cons, E, <- !app_assoc. split; [done|]. split; [rewrite length_app; lia|done].
    - injection H as <- <-. split; [constructor; [|done]|].
      + intros E. apply (f_equal length) in E. rewrite length_drop in E. cbn in E, H0. lia.
      + exists (take (S w) (x :: more)). split; [|split; [rewrite length_take; lia|done]].
        change (x :: more ++ pieces arr = x :: take w more ++ drop w more ++ pieces arr). by rewrite app_assoc, take_drop. }
  intros arr Hf H. destruct (read_exact_loop _ _ _ _) as [out [r0|e]] eqn:E; injection H as <- H; [subst r0|discriminate].
  destruct (Hk _ _ _ _ Hf E) as [Hf' (data & Ep & Hl & ->)]. split; [exact Hf'|]. cbn [buf io].
  exists (take k b ++ data). rewrite <- (app_assoc body). split; [|split; [|done]].
  - rewrite Ep. destruct (Nat.le_gt_cases n (length b)) as [Hn|Hn].
    + replace data with (@nil Z) by (symmetry; apply nil_length_inv; lia). rewrite app_nil_r, (app_assoc (take k b)), take_drop. done.
    + replace k with (length b) by lia. rewrite firstn_all, drop_all. by rewrite app_assoc.
  - rewrite length_app, length_take. lia.
Qed.
Lemma read_exact_delivers body data rest why : delivers (read_exact_into body (length data) why) (data ++ rest) (body ++ data) rest.
Proof.
  intros c Hf Hs. unfold read_exact_into, split_to, stream in *. cbn [io buf]. set (b := buf c) in *. set (n := length data). set (k := Nat.min n (length b)).
  assert (Hk : forall arr w acc, flowing arr -> (w <= length (pieces arr))%nat ->
     exists out, read_exact_loop why acc w arr = (out, Ok (acc ++ take w (pieces arr))) /\ flowing out /\ pieces out = drop w (pieces arr)).
  { induction arr as [|[more|e] arr IH]; intros [|w] acc Hfa Hw; cbn [read_exact_loop]; try (eexists; split; [by rewrite take_0, app_nil_r|by split; [exact Hfa|]]);
      [cbn in Hw; lia| |by apply Forall_cons in Hfa as [[] _]].
    apply Forall_cons in Hfa as [Hne Hfa]. destruct more as [|x more]; [done|]. rewrite !pieces_cons in *. rewrite length_app in Hw.
    destruct (Nat.leb_spec (length (x :: more)) (S w)).
    - destruct (IH (S w - length (x :: more))%nat (acc ++ x :: more) Hfa ltac:(lia)) as (out & E & Hfo & Hp). exists out. rewrite E. split; [|split; [done|]].
      + rewrite take_app_ge by lia. by rewrite <- app_assoc.
      + by rewrite drop_app_ge by lia.
    - exists (Data (drop (S w) (x :: more)) :: arr). rewrite take_app_le, drop_app_le by lia. split; [done|]. split; [constructor; [|done]|done].
      intros E. apply (f_equal length) in E. rewrite length_drop in E. cbn in E, H. lia. }
  assert (Hlen : (n <= length b + length (pieces (io c)))%nat) by (rewrite <- length_app, Hs, length_app; lia).
  destruct (Hk (io c) (n - k)%nat (body ++ take k b) Hf ltac:(lia)) as (out & E & Hfo & Hp). rewrite E. exists (mkBuffered (drop k b) out). split; [|split; [exact Hfo|]]; cbn [buf io].
  - rewrite <- app_assoc. do 4 f_equal. assert (Hd : take n (b ++ pieces (io c)) = data) by (rewrite Hs; apply take_app_length). rewrite <- Hd.
    destruct (Nat.le_gt_cases n (length b)).
    + replace (n - k)%nat with O by lia. replace k with n by lia. rewrite app_nil_r. by rewrite take_app_le by lia.
    + replace k with (length b) by lia. rewrite firstn_all. by rewrite take_app_ge by lia.
  - rewrite Hp. assert (Hr : drop n (b ++ pieces (io c)) = rest) by (rewrite Hs; apply drop_app_length). rewrite <- Hr.
    destruct (Nat.le_gt_cases n (length b)).
    + replace (n - k)%nat with O by lia. replace k with n by lia. by rewrite drop_app_le by lia.
    + replace k with (length b) by lia. rewrite drop_all. by rewrite drop_app_ge by lia.
Qed.

(** A lookahead of [n] bytes that is then taken. *)
Lemma fill_to_only n c c' : flowing (io c) -> fill_to n c = (c', Ok tt) -> flowing (io c') /\ stream c' = stream c /\ (n <= length (buf c'))%nat.
Proof.
  unfold fill_to, stream. generalize (buf c). generalize (io c). clear c. intros arr. induction arr as [|[more|e] arr IH]; intros b Hf H;
    cbn [fill_to_loop tail] in H; destruct (Nat.leb_spec n (length b)); try discriminate; try (by injection H as <-).
  destruct more as [|x more]; [discriminate|]. apply Forall_cons in Hf as [_ Hf]. destruct (IH _ Hf H) as (Hf' & E & Hn). split; [done|].
  by rewrite E, pieces_cons, app_assoc.
Qed.
Lemma fill_to_delivers n c : flowing (io c) -> (n <= length (stream c))%nat ->
  exists c', fill_to n c = (c', Ok tt) /\ flowing (io c') /\ stream c' = stream c /\ (n <= length (buf c'))%nat.
Proof.
  unfold fill_to, stream. generalize (buf c). generalize (io c). clear c. intros arr. induction arr as [|[more|e] arr IH]; intros b Hf H;
    cbn [fill_to_loop]; destruct (Nat.leb_spec n (length b)); try (by eexists); [rewrite length_app in H; cbn in H; lia| |by apply Forall_cons in Hf as [[] _]].
  apply Forall_cons in Hf as [Hne Hf]. destruct more as [|x more]; [done|].
  destruct (IH (b ++ x :: more) Hf) as (c' & E & Hf' & Es & Hn); [rewrite pieces_cons, app_assoc in H; exact H|].
  exists c'. by rewrite E, Es, pieces_cons, app_assoc.
Qed.
Lemma take_buf_stream n c : (n <= length (buf c))%nat -> take_buf n c = (mkBuffered (drop n (buf c)) (io c), Ok (take n (stream c)))
  /\ stream (mkBuffered (drop n (buf c)) (io c)) = drop n (stream c).
Proof. intros Hn. unfold take_buf, split_to, stream. cbn [buf io]. by rewrite take_app_le, drop_app_le by done. Qed.
Lemma expect_crlf_only : only expect_crlf (fun s _ s' => s = CRLF ++ s').
Proof.
  intros c c' [] Hf H. unfold expect_crlf, cbind at 1 in H. destruct (fill_to 2 c) as [c1 [[]|e]] eqn:E; [|discriminate].
  apply fill_to_only in E as (Hf1 & Es & Hn); [|done]. unfold cbind in H. destruct (take_buf_stream 2 c1 Hn) as [Et Es1]. rewrite Et in H.
  case_bool_decide as Ec; [|discriminate]. injection H as <-. split; [exact Hf1|]. rewrite Es1, <- Es. rewrite <- (take_drop 2 (stream c1)) at 1. by rewrite Ec.
Qed.
Lemma expect_crlf_delivers rest : delivers expect_crlf (CRLF ++ rest) tt rest.
Proof.
  intros c Hf Hs. destruct (fill_to_delivers 2 c Hf) as (c1 & E & Hf1 & Es & Hn); [rewrite Hs; cbn; lia|].
  destruct (take_buf_stream 2 c1 Hn) as [Et Es1]. unfold expect_crlf, cbind. rewrite E, Et, Es, Hs. cbn [take app CRLF].
  rewrite bool_decide_eq_true_2 by done. eexists. split; [reflexivity|]. split; [exact Hf1|]. by rewrite Es1, Es, Hs.
Qed.

(** ** Chunked bodies *)

Section Framing.
Context `{StrDebug}.

Section Chunked.
(** The lines allowed. *)
Context (short : bytes -> Prop).

Inductive trailers : bytes -> bytes -> Prop :=
| trailers_end line rest : 10 ∉ line -> short line -> strip_cr line = [] -> trailers (line ++ 10 :: rest) rest
| trailers_more line s rest : 10 ∉ line -> short line -> strip_cr line <> [] -> trailers s rest -> trailers (line ++ 10 :: s) rest.
(** The chunked coding: the stream, the body, and what follows it. *)
Inductive chunked : bytes -> bytes -> bytes -> Prop :=
| chunked_end line s rest : 10 ∉ line -> short line -> chunk_size (strip_cr line) = Ok 0 -> trailers s rest -> chunked (line ++ 10 :: s) [] rest
| chunked_more line data s body rest : 10 ∉ line -> short line -> chunk_size (strip_cr line) = Ok (len data) -> data <> [] ->
    chunked s body rest -> chunked (line ++ 10 :: data ++ CRLF ++ s) (data ++ body) rest.

(** What a framing says a stream is: a body, and what follows it. *)
Definition framed (f : Framing) (s body rest : bytes) : Prop :=
  match f with
  | Length n => s = body ++ rest /\ len body = n
  | UntilEof => s = body /\ rest = []
  | Chunked => chunked s body rest
  end.
End Chunked.

Definition any (line : bytes) : Prop := True.
Definition readable (line : bytes) : Prop := Z.of_nat (length line) <= MAX_HEAD.

Lemma line_inj (a b s t : bytes) : 10 ∉ a -> 10 ∉ b -> a ++ 10 :: s = b ++ 10 :: t -> a = b /\ s = t.
Proof. intros Ha Hb E. apply (f_equal (split_once 10)) in E. rewrite !split_once_app in E by done. by injection E. Qed.

Lemma trailers_det P Q s r1 r2 : trailers P s r1 -> trailers Q s r2 -> r1 = r2.
Proof.
  intros Ht. revert r2. induction Ht as [line rest Hl _ Hs|line s rest Hl _ Hs _ IH]; intros r2 H2; inversion H2 as [x ? Hx _ Hsx E|x ? ? Hx _ Hsx Ht2 E];
    subst; apply line_inj in E as [-> <-]; try done; [by apply IH].
Qed.
Lemma chunked_det P Q s b1 r1 b2 r2 : chunked P s b1 r1 -> chunked Q s b2 r2 -> b1 = b2 /\ r1 = r2.
Proof.
  intros Hc. revert b2 r2. induction Hc as [line s rest Hl _ Hs Ht|line data s body rest Hl _ Hs Hd _ IH]; intros b2 r2 H2;
    inversion H2 as [x ? ? Hx _ Hsx Ht2 E|x d2 ? ? ? Hx _ Hsx Hd2 Hc2 E]; subst; apply line_inj in E as [-> E]; try done.
  - subst. split; [done|]. by eapply trailers_det.
  - rewrite Hs in Hsx. injection Hsx as Hsx. destruct d2; [done|]. unfold len in Hsx. cbn in Hsx. lia.
  - rewrite Hs in Hsx. injection Hsx as Hsx. destruct data; [done|]. unfold len in Hsx. cbn in Hsx. lia.
  - rewrite Hs in Hsx. injection Hsx as Hsx. apply app_inj_1 in E as [-> E]; [|unfold len in Hsx; lia].
    injection E as ->. destruct (IH _ _ Hc2) as [-> ->]. done.
Qed.
Lemma framed_det P Q f s b1 r1 b2 r2 : framed P f s b1 r1 -> framed Q f s b2 r2 -> b1 = b2 /\ r1 = r2.
Proof.
  destruct f as [n| |]; cbn [framed]; [intros [-> E1] [E E2]|apply chunked_det|intros [-> ->] [-> ->]; done].
  apply app_inj_1 in E as [-> ->]; [done|unfold len in *; lia].
Qed.

Lemma hex_digits_nonneg max acc l n : hex_digits_value max acc l = Some n -> 0 <= acc -> 0 <= n.
Proof.
  revert acc. induction l as [|c l IH]; cbn [hex_digits_value]; intros acc E Ha; [by injection E as <-|].
  unfold to_digit16, is_ascii_digit, in_range in E. repeat case_match; try discriminate; simplify_eq; bool_prop; apply IH in E; lia.
Qed.
Lemma chunk_size_nonneg line n : chunk_size line = Ok n -> 0 <= n.
Proof.
  unfold chunk_size. destruct (from_utf8 _); [|discriminate]. destruct (parse_hex _ _) as [k|] eqn:E; [|discriminate]. intros [= <-].
  unfold parse_hex in E. repeat case_match; try discriminate; eapply hex_digits_nonneg; try exact E; lia.
Qed.
Lemma read_chunk_size_only : only read_chunk_size
  (fun s n s' => exists line, s = line ++ 10 :: s' /\ (10 ∉ line) /\ chunk_size (strip_cr line) = Ok n).
Proof.
  intros c c' n Hf E. unfold read_chunk_size, cbind in E. destruct (read_line c) as [c1 [l|e]] eqn:El; [|discriminate].
  destruct (read_line_only _ _ _ Hf El) as [Hf1 (line & Es & Hl & ->)]. injection E as <- E. eauto.
Qed.
Lemma read_chunk_size_delivers line n rest : 10 ∉ line -> readable line -> chunk_size (strip_cr line) = Ok n ->
  delivers read_chunk_size (line ++ 10 :: rest) n rest.
Proof.
  intros Hl Hr E c Hf Hs. destruct (read_line_delivers line rest Hl Hr c Hf Hs) as (c1 & El & H1). exists c1.
  unfold read_chunk_size, cbind. by rewrite El, E.
Qed.

Lemma skip_trailers_only fuel : only (skip_trailers fuel) (fun s _ s' => trailers any s s').
Proof.
  induction fuel as [|fuel IH]; [apply only_err|]. cbn [skip_trailers].
  eapply only_weaken; [apply (only_bind _ _ _ (fun line s _ s' => (line = [] /\ s' = s) \/ (line <> [] /\ trailers any s s')) read_line_only)|].
  - intros line. case_bool_decide as E.
    + eapply only_weaken; [apply only_ret|]. intros s a s' [_ ->]. by left.
    + eapply only_weaken; [exact IH|]. intros s a s' Ht. by right.
  - intros s a s' (l & s1 & (line & -> & Hl & ->) & [[E ->]|[E Ht]]); [by apply trailers_end|by apply trailers_more].
Qed.
Lemma skip_trailers_delivers fuel s rest : trailers readable s rest -> (length s < fuel)%nat -> delivers (skip_trailers fuel) s tt rest.
Proof.
  intros Ht. revert fuel. induction Ht as [line rest Hl Hr E|line s rest Hl Hr E _ IH]; intros [|fuel] Hlen; try lia; cbn [skip_trailers];
    (eapply delivers_bind; [by apply read_line_delivers|]).
  - rewrite bool_decide_eq_true_2 by done. apply delivers_ret.
  - rewrite bool_decide_eq_false_2 by done. apply IH. rewrite length_app in Hlen. cbn in Hlen. lia.
Qed.

(** ** Whole bodies *)

(** What the budget promises a body reader. *)
Class BodyReservationLaws (R : Type) `{BodyReservation R} : Prop := {
  grow_covers (r r' : R) n : res_grow_to r n = (r', true) -> n <= res_held r';
  room_covers (r r' : R) n cap extra cap' : 0 <= n <= cap -> cap <= res_held r -> 0 <= extra -> n + extra <= usize_max ->
    res_make_room r n cap extra = (r', cap', true) -> n + extra <= cap' <= res_held r'
}.

Section Reserved.
Context `{HR : BodyReservation R} {HL : BodyReservationLaws R}.

(** A vector whose capacity is reserved. *)
Definition covered (r : R) (v : bytes * Z) : Prop := len v.1 <= v.2 <= res_held r.

Lemma reserve_covers (r r' : R) v extra cap : covered r v -> 0 <= extra -> len v.1 + extra <= usize_max ->
  reserve r v extra = (r', Ok cap) -> len v.1 + extra <= cap <= res_held r'.
Proof.
  unfold reserve. intros [Hn Hc] He Hu E. destruct (res_make_room _ _ _ _) as [[r1 cap1] []] eqn:Em; [|discriminate].
  injection E as -> ->. assert (0 <= len v.1) by (unfold len; lia). apply room_covers in Em; done.
Qed.

Lemma read_chunked_sound fuel max c (r : R) v c' r' out : flowing (io c) -> covered r v -> len v.1 <= max < usize_max ->
  read_chunked_loop fuel max c r v = (c', r', Ok out) ->
  flowing (io c') /\ len out <= max /\ len out <= res_held r' /\ exists b, chunked any (stream c) b (stream c') /\ out = v.1 ++ b.
Proof.
  revert c r v. induction fuel as [|fuel IH]; intros c r v Hf Hv Hm E; [discriminate|]. cbn [read_chunked_loop] in E.
  destruct (read_chunk_size c) as [c1 [size|e]] eqn:Es; [|discriminate].
  destruct (read_chunk_size_only _ _ _ Hf Es) as [Hf1 (line & Es1 & Hl & Hsz)]. destruct (Z.eqb_spec size 0) as [->|Hz].
  - destruct (skip_trailers _ c1) as [c2 [[]|e]] eqn:Et; [|discriminate]. injection E as <- <- <-.
    destruct (skip_trailers_only _ _ _ _ Hf1 Et) as [Hf2 Ht]. destruct Hv as [Hv1 Hv2]. split; [done|]. split; [lia|]. split; [lia|].
    exists []. rewrite app_nil_r, Es1. split; [by eapply chunked_end|done].
  - destruct (Z.ltb_spec max (saturating_add usize_max (len v.1) size)) as [|Hs]; [discriminate|].
    pose proof (chunk_size_nonneg _ _ Hsz). unfold saturating_add in Hs. destruct (Z.ltb_spec usize_max (len v.1 + size)); [lia|].
    destruct (reserve r v size) as [r1 [cap|e]] eqn:Er; [|discriminate]. apply reserve_covers in Er; [|done|lia|lia].
    destruct ((let> b := _ in _) c1) as [c2 [b|e]] eqn:Eb; [|discriminate].
    destruct (only_bind _ _ _ _ (read_exact_only v.1 (Z.to_nat size) CLOSED)
      (fun a => only_bind _ _ _ _ expect_crlf_only (fun _ => only_ret a)) _ _ _ Hf1 Eb) as [Hf2 (b' & s1 & (data & Ed & Hd & ->) & [] & s2 & -> & -> & <-)].
    assert (Hld : len (v.1 ++ data) = len v.1 + size) by (unfold len; rewrite length_app; lia).
    destruct (IH c2 r1 (v.1 ++ data, cap) Hf2 ltac:(split; cbn [fst snd]; lia) ltac:(cbn [fst]; lia) E) as (Hf3 & Ho & Hh & b & Hc & ->). cbn [fst] in *.
    repeat split; try done. exists (data ++ b). rewrite app_assoc. split; [|done]. rewrite Es1, Ed. apply chunked_more; try done.
    + rewrite Hsz. f_equal. unfold len. lia.
    + intros ->. cbn in Hd. lia.
Qed.

Lemma READ_STEP_val : Z.of_nat READ_STEP = 65536.
Proof. unfold READ_STEP. lia. Qed.
#[local] Opaque READ_STEP.

(** One read of a body that ends with the stream: something, or the end. *)
Lemma read_step_flow c : flowing (io c) -> exists c' l, read_step c = (c', Ok l) /\ flowing (io c') /\ buf c' = buf c
  /\ pieces (io c) = l ++ pieces (io c') /\ (l = [] -> io c = [] /\ io c' = []).
Proof.
  intros Hf. unfold read_step. destruct (io c) as [|[l|e] arr] eqn:Ei; [exists c, []; rewrite Ei; by split_and!| |by apply Forall_cons in Hf as [[] _]].
  apply Forall_cons in Hf as [Hne Hf]. destruct (Nat.leb_spec (length l) READ_STEP).
  - eexists _, l. split; [done|]. cbn [io buf]. by rewrite pieces_cons.
  - eexists _, (take READ_STEP l). split; [done|]. cbn [io buf]. rewrite !pieces_cons, app_assoc, take_drop. split; [constructor; [|done]|].
    + intros E. apply (f_equal length) in E. rewrite length_drop in E. change (length []) with O in E. lia.
    + split; [done|]. split; [done|]. intros E. apply (f_equal length) in E. rewrite length_take in E. change (length []) with O in E. pose proof READ_STEP_val. lia.
Qed.
Lemma read_step_bound c c' l : read_step c = (c', Ok l) -> len l <= Z.of_nat READ_STEP.
Proof.
  unfold read_step, len. destruct (io c) as [|[m|e] arr]; [intros [= <- <-]; cbn; lia| |discriminate].
  destruct (Nat.leb_spec (length m) READ_STEP); intros E; injection E as _ <-; [lia|rewrite length_take; lia].
Qed.
Lemma read_step_size c c' x l : read_step c = (c', Ok (x :: l)) -> (list_sum (map arrival_size (io c')) < list_sum (map arrival_size (io c)))%nat.
Proof.
  unfold read_step. destruct (io c) as [|[m|e] arr]; [done| |discriminate]. unfold list_sum. cbn [map fold_right arrival_size].
  destruct (Nat.leb_spec (length m) READ_STEP); intros E; injection E as <- E; cbn [io map fold_right arrival_size]; [lia|].
  rewrite length_drop. apply (f_equal length) in E. rewrite length_take in E. change (length (x :: l)) with (S (length l)) in E. lia.
Qed.
Lemma len_app a b : len (a ++ b) = len a + len b.
Proof. unfold len. rewrite length_app. lia. Qed.
Lemma read_to_end_sound fuel max c (r : R) v c' r' out : flowing (io c) -> buf c = [] -> covered r v -> len v.1 <= max -> max + 65536 <= usize_max ->
  read_to_end fuel max c r v = (c', r', Ok out) ->
  flowing (io c') /\ stream c' = [] /\ out = v.1 ++ stream c /\ len out <= max /\ len out <= res_held r'.
Proof.
  revert c r v. induction fuel as [|fuel IH]; intros c r v Hf Hb Hv Hm Hu E; [discriminate|]. cbn [read_to_end] in E. rewrite READ_STEP_val in E.
  destruct (reserve r v _) as [r1 [cap|e]] eqn:Er; [|discriminate]. apply reserve_covers in Er; [|done|lia|lia].
  destruct (read_step_flow c Hf) as (c1 & l & Es & Hf1 & Hb1 & Ep & Hl). rewrite Es in E. unfold stream. rewrite Hb, Ep. destruct l as [|x l].
  - injection E as <- <- <-. destruct (Hl eq_refl) as [_ Hi]. rewrite Hb1, Hb, Hi. cbn [app pieces flat_map]. rewrite app_nil_r.
    destruct Hv. repeat split; try done; [by rewrite Hi in Hf1|lia].
  - destruct (Z.ltb_spec max (len (v.1 ++ x :: l))) as [|Hmax]; [discriminate|].
    destruct (IH c1 r1 (v.1 ++ x :: l, cap) Hf1 ltac:(congruence)) as (Hf2 & Hs2 & -> & Hlm & Hlh); try done.
    + assert (len (x :: l) <= 65536) by (rewrite <- READ_STEP_val; by apply (read_step_bound c c1)).
      split; cbn [fst snd]; [|lia]. rewrite len_app. lia.
    + repeat split; try done. cbn [fst]. unfold stream. rewrite Hb1, Hb. cbn [app]. by rewrite <- app_assoc.
Qed.

Lemma covered_nil (r : R) : 0 <= res_held r -> covered r ([], 0).
Proof. intros Hr. unfold covered, len. cbn. lia. Qed.

Lemma split_to_stream n c : (n <= length (buf c))%nat ->
  stream (split_to n c).2 = drop n (stream c) /\ (split_to n c).1 = take n (stream c) /\ io (split_to n c).2 = io c.
Proof. intros Hn. unfold split_to, stream. cbn [fst snd buf io]. by rewrite take_app_le, drop_app_le by done. Qed.

Lemma read_body_sound c f max (r : R) c' r' out : flowing (io c) -> 0 <= res_held r -> 0 <= max -> max + 65536 <= usize_max ->
  (forall n, f = Length n -> 0 <= n) -> read_body c f max r = (c', r', Ok out) ->
  flowing (io c') /\ len out <= max /\ len out <= res_held r' /\ framed any f (stream c) out (stream c').
Proof.
  intros Hf Hr Hm Hu Hn E. destruct f as [n| |]; cbn [read_body framed] in *.
  - specialize (Hn n eq_refl). destruct (Z.ltb_spec max n); [discriminate|]. destruct (res_grow_to r n) as [r1 []] eqn:Eg; [|discriminate].
    apply grow_covers in Eg. destruct (Z.leb_spec n (len (buf c))) as [Hb|Hb].
    + destruct (split_to_stream (Z.to_nat n) c ltac:(unfold len in Hb; lia)) as (E1 & E2 & E3). destruct (split_to _ c) as [b c1]. cbn [fst snd] in *.
      injection E as -> -> <-. rewrite E3, E1, E2. assert (len (take (Z.to_nat n) (stream c)) = n).
      { unfold len, stream in *. rewrite length_take, length_app. lia. }
      split; [done|]. split; [lia|]. split; [lia|]. by rewrite take_drop.
    + destruct (negb (res_alloc r1 n)); [discriminate|]. destruct (read_exact_into _ _ _ c) as [c1 [b|e]] eqn:Ee; [|discriminate].
      injection E as -> -> <-. apply (read_exact_only [] _ _ _ _ _ Hf) in Ee as [Hf1 (data & -> & Hd & ->)]. cbn [app].
      assert (len data = n) by (unfold len; lia). repeat split; try done; lia.
  - unfold read_chunked in E. apply read_chunked_sound in E as (Hf1 & Hl & Hh & b & Hc & ->); [done|done|by apply covered_nil|cbn [fst]; change (len []) with 0; lia].
  - destruct (split_to_stream (length (buf c)) c ltac:(lia)) as (E1 & E2 & E3). unfold split_to in E. rewrite firstn_all, drop_all in E.
    destruct (Z.ltb_spec max (len (buf c))) as [|Hb]; [discriminate|]. destruct (reserve r _ _) as [r1 [cap|e]] eqn:Er; [|discriminate].
    assert (0 <= len (buf c)) by (unfold len; lia). apply reserve_covers in Er; [|by apply covered_nil|done|cbn [fst]; change (len []) with 0; lia].
    cbn [fst] in Er. change (len []) with 0 in Er.
    apply read_to_end_sound in E as (Hf2 & Hs2 & -> & Hlm & Hlh); [|done..|split; cbn [fst snd]; lia|done|done]. done.
Qed.

(** A reservation that grants every growth up to a bound. *)
Definition granting (bound : Z) (G : R -> Prop) : Prop := forall r, G r ->
  (forall n, 0 <= n <= bound -> exists r', res_grow_to r n = (r', true) /\ G r')
  /\ (forall n, 0 <= n <= bound -> res_alloc r n = true)
  /\ (forall n cap extra, 0 <= n -> 0 <= extra -> n + extra <= bound -> exists r' cap', res_make_room r n cap extra = (r', cap', true) /\ G r').

Section Granted.
Context (bound : Z) (G : R -> Prop) (HG : granting bound G) (Hbound : bound <= usize_max).

Lemma reserve_granted r (v : bytes * Z) extra : G r -> 0 <= extra -> len v.1 + extra <= bound -> exists r' cap, reserve r v extra = (r', Ok cap) /\ G r'.
Proof.
  intros Hr He Hb. destruct (HG r Hr) as (_ & _ & Hroom). destruct (Hroom (len v.1) v.2 extra) as (r' & cap & E & H'); [unfold len; lia|done|done|].
  exists r', cap. unfold reserve. by rewrite E.
Qed.
Lemma read_chunked_complete s body rest : chunked readable s body rest -> forall fuel max c (r : R) v,
  (length s < fuel)%nat -> flowing (io c) -> stream c = s -> G r -> len v.1 + len body <= max <= bound ->
  exists c' r', read_chunked_loop fuel max c r v = (c', r', Ok (v.1 ++ body)) /\ flowing (io c') /\ stream c' = rest.
Proof.
  induction 1 as [line s rest Hl Hr Hsz Ht|line data s body rest Hl Hr Hsz Hd _ IH]; intros [|fuel] max c r v Hlen Hf Hs HGr Hm; try lia;
    cbn [read_chunked_loop]; destruct (read_chunk_size_delivers line _ _ Hl Hr Hsz c Hf Hs) as (c1 & E1 & Hf1 & Hs1); rewrite E1.
  - destruct (skip_trailers_delivers (S (io_size c1)) s rest Ht) with (c := c1) as (c2 & E2 & Hf2 & Hs2); [|done|done|].
    { pose proof (io_size_stream c1). rewrite Hs1 in *. lia. }
    cbn [Z.eqb]. rewrite E2, app_nil_r. by exists c2, r.
  - rewrite len_app in Hm. assert (0 <= len body /\ 0 < len data /\ 0 <= len v.1) as (? & ? & ?) by (unfold len; destruct data; [done|cbn; lia]).
    rewrite (proj2 (Z.eqb_neq _ _)) by lia. unfold saturating_add. rewrite (proj2 (Z.ltb_ge usize_max _)) by lia. rewrite (proj2 (Z.ltb_ge max _)) by lia.
    destruct (reserve_granted r v (len data)) as (r1 & cap & E2 & HG1); [done|lia|lia|]. rewrite E2.
    assert (Hnd : Z.to_nat (len data) = length data) by (unfold len; lia).
    destruct (delivers_bind _ (fun body => let> _ := expect_crlf in cret body) _ _ _ _ _ (read_exact_delivers v.1 data (CRLF ++ s) CLOSED)
      (delivers_bind _ (fun _ => cret (v.1 ++ data)) _ _ _ _ _ (expect_crlf_delivers s) (delivers_ret _ _)) c1 Hf1 Hs1) as (c2 & E3 & Hf2 & Hs2).
    rewrite Hnd, E3. destruct (IH fuel max c2 r1 (v.1 ++ data, cap)) as (c3 & r3 & E4 & H4); try done.
    + rewrite !length_app in Hlen. cbn in Hlen. rewrite !length_app in Hlen. cbn in Hlen. lia.
    + cbn [fst]. rewrite len_app. lia.
    + exists c3, r3. rewrite E4. cbn [fst]. by rewrite <- app_assoc.
Qed.
Lemma read_to_end_complete max : forall fuel c (r : R) v, (list_sum (map arrival_size (io c)) < fuel)%nat -> flowing (io c) -> buf c = [] -> G r ->
  len v.1 + len (stream c) <= max -> max + 65536 <= bound ->
  exists c' r', read_to_end fuel max c r v = (c', r', Ok (v.1 ++ stream c)) /\ flowing (io c') /\ stream c' = [].
Proof.
  induction fuel as [|fuel IH]; intros c r v Hlen Hf Hb HGr Hm Hmb; [lia|]. cbn [read_to_end]. rewrite READ_STEP_val.
  assert (0 <= len v.1 /\ 0 <= len (stream c)) as [? ?] by (unfold len; lia).
  destruct (reserve_granted r v 65536) as (r1 & cap & E2 & HG1); [done|lia|lia|]. rewrite E2.
  destruct (read_step_flow c Hf) as (c1 & l & Es & Hf1 & Hb1 & Ep & Hl). rewrite Es. rewrite Hb in Hb1. unfold stream in *. rewrite Hb in Hm |- *. cbn [app] in *. rewrite Ep in *.
  destruct l as [|x l].
  - destruct (Hl eq_refl) as [_ Hi]. exists c1, r1. rewrite Hb1, Hi. cbn [pieces flat_map app]. rewrite app_nil_r. split; [done|]. split; [constructor|done].
  - rewrite !len_app in *. assert (0 <= len (pieces (io c1))) by (unfold len; lia). rewrite (proj2 (Z.ltb_ge _ _)) by lia.
    destruct (IH c1 r1 (v.1 ++ x :: l, cap)) as (c2 & r2 & E & Hrest); try done.
    + apply read_step_size in Es. lia.
    + cbn [fst]. rewrite Hb1. cbn [app]. rewrite len_app. lia.
    + exists c2, r2. rewrite E, Hb1. cbn [fst app]. by rewrite <- app_assoc.
Qed.

Lemma read_body_complete c f max r body rest : flowing (io c) -> G r -> framed readable f (stream c) body rest ->
  len body <= max -> max + 65536 <= bound ->
  exists c' r', read_body c f max r = (c', r', Ok body) /\ flowing (io c') /\ stream c' = rest.
Proof.
  intros Hf HGr Hfr Hm Hmb. assert (0 <= len body) by (unfold len; lia). destruct f as [n| |]; cbn [framed read_body] in *.
  - destruct Hfr as [Es <-]. rewrite (proj2 (Z.ltb_ge _ _)) by lia. destruct (HG r HGr) as (Hgrow & _). destruct (Hgrow (len body)) as (r1 & E & HG1); [lia|].
    rewrite E. assert (Hn : Z.to_nat (len body) = length body) by (unfold len; lia). rewrite Hn. destruct (Z.leb_spec (len body) (len (buf c))) as [Hb|Hb].
    + destruct (split_to_stream (length body) c ltac:(unfold len in Hb; lia)) as (E1 & E2 & E3). destruct (split_to _ c) as [b c1]. cbn [fst snd] in *.
      exists c1, r1. rewrite E1, E2, E3, Es, take_app_length, drop_app_length. done.
    + destruct (HG r1 HG1) as (_ & Halloc & _). rewrite Halloc by lia. cbn [negb].
      destruct (read_exact_delivers [] body rest INCOMPLETE c Hf Es) as (c1 & E1 & H1'). rewrite E1. by exists c1, r1.
  - destruct (read_chunked_complete _ _ _ Hfr (S (io_size c)) max c r ([], 0)) as (c1 & r1 & E & H1'); try done.
    + pose proof (io_size_stream c). lia.
    + cbn [fst]. change (len []) with 0. lia.
    + exists c1, r1. split; [exact E|done].
  - destruct Hfr as [Es ->]. unfold split_to. rewrite firstn_all, drop_all. assert (Hl : len body = len (buf c) + len (pieces (io c))) by (rewrite <- Es; apply len_app).
    assert (0 <= len (buf c) /\ 0 <= len (pieces (io c))) as [? ?] by (unfold len; lia).
    rewrite (proj2 (Z.ltb_ge _ _)) by lia. destruct (reserve_granted r ([], 0) (len (buf c))) as (r1 & cap & E & HG1); [done|lia|cbn [fst]; change (len []) with 0; lia|].
    rewrite E. destruct (read_to_end_complete max (S (io_size (mkBuffered [] (io c)))) (mkBuffered [] (io c)) r1 (buf c, cap)) as (c2 & r2 & E2 & Hf2 & Hs2); try done.
    + unfold io_size. cbn [io]. lia.
    + unfold stream. cbn [fst buf io app]. lia.
    + exists c2, r2. rewrite E2. cbn [fst]. change (stream (mkBuffered [] (io c))) with (pieces (io c)). fold (stream c). by rewrite Es.
Qed.
End Granted.
End Reserved.

(** ** Bodies a piece at a time *)

(** What a reader is still to deliver of a stream. *)
Definition pending (short : bytes -> Prop) (b : BodyReader) (s body rest : bytes) : Prop :=
  if reader_done b then body = [] /\ s = rest
  else
    match framing b with
    | Length _ => s = body ++ rest /\ len body = remaining b
    | UntilEof => s = body /\ rest = []
    | Chunked =>
        match chunk b with
        | Size => chunked short s body rest
        | InData n => exists data s' body', s = data ++ CRLF ++ s' /\ body = data ++ body' /\ len data = n /\ chunked short s' body' rest
        | DataEnd => exists s', s = CRLF ++ s' /\ chunked short s' body rest
        end
    end.
Lemma pending_new short f s body rest : pending short (new_reader f) s body rest <-> framed short f s body rest.
Proof.
  unfold pending, new_reader. cbn [reader_done framing chunk remaining]. destruct f as [n| |]; cbn [framed]; try (rewrite bool_decide_eq_false_2 by done; done).
  case_bool_decide as E; [|done]. injection E as ->. split.
  - intros [-> ->]. split; done.
  - intros [-> Hl]. destruct body; [done|unfold len in Hl; cbn in Hl; lia].
Qed.

Lemma fill_if_empty_only why c c' more : flowing (io c) -> fill_if_empty (Some why) c = (c', Ok more) ->
  flowing (io c') /\ stream c' = stream c /\ buf c' <> [] /\ more = true.
Proof.
  intros Hf. unfold fill_if_empty. case_bool_decide as E; [|intros [= <- <-]; done]. unfold reader_fill, cbind, fill, stream.
  destruct (io c) as [|[l|e] arr] eqn:Ei; try done. apply Forall_cons in Hf as [Hne Hf]. destruct l as [|x l]; [done|]. intros [= <- <-].
  cbn [io buf]. rewrite E, pieces_cons. done.
Qed.
Lemma fill_if_empty_delivers why c : flowing (io c) -> stream c <> [] ->
  exists c', fill_if_empty why c = (c', Ok true) /\ flowing (io c') /\ stream c' = stream c /\ buf c' <> [].
Proof.
  intros Hf Hs. unfold fill_if_empty. case_bool_decide as E; [|by exists c]. unfold reader_fill, cbind, fill, stream in *. rewrite E in *.
  destruct (io c) as [|[l|e] arr] eqn:Ei; [done| |by apply Forall_cons in Hf as [[] _]]. apply Forall_cons in Hf as [Hne Hf]. destruct l as [|x l]; [done|].
  destruct why; (eexists; split; [reflexivity|]); cbn [io buf]; by rewrite pieces_cons.
Qed.
Lemma fill_eof_only c c' more : flowing (io c) -> fill_if_empty None c = (c', Ok more) ->
  (more = true /\ flowing (io c') /\ stream c' = stream c /\ buf c' <> []) \/ (more = false /\ flowing (io c') /\ stream c = [] /\ stream c' = []).
Proof.
  intros Hf. unfold fill_if_empty. case_bool_decide as E; [|intros [= <- <-]; by left]. unfold reader_fill, cbind, fill, stream. rewrite E.
  destruct (io c) as [|[l|e] arr] eqn:Ei; [intros [= <- <-]; right; by rewrite E, Ei| |done].
  apply Forall_cons in Hf as [Hne Hf]. destruct l as [|x l]; [done|]. intros [= <- <-]. left. cbn [io buf]. by rewrite pieces_cons.
Qed.
Lemma take_piece_stream want c : exists k, take_piece want c = (mkBuffered (drop k (buf c)) (io c), Ok (take k (stream c), want - Z.of_nat k))
  /\ (k <= length (buf c))%nat /\ stream (mkBuffered (drop k (buf c)) (io c)) = drop k (stream c)
  /\ (0 <= want -> Z.of_nat k <= want) /\ (0 < want -> buf c <> [] -> (0 < k)%nat).
Proof.
  set (k := Z.to_nat (Z.min want (Z.of_nat (length (buf c))))). assert (k <= length (buf c))%nat by lia. exists k.
  unfold take_piece, split_to, stream. cbn [buf io]. fold k. rewrite take_app_le, drop_app_le by done. repeat split; try done; [lia|].
  intros Hw Hb. destruct (buf c); [done|cbn in *; lia].
Qed.

(** One call: what it delivers is a part of what was pending. *)
Definition delivered (short : bytes -> Prop) (b : BodyReader) (s : bytes) (b' : BodyReader) (piece : option bytes) (s' : bytes) : Prop :=
  match piece with
  | Some p => p <> [] /\ forall body rest, pending short b' s' body rest -> pending short b s (p ++ body) rest
  | None => reader_done b' = true /\ pending short b s [] s'
  end.

(** A reader that is not done has something to read. *)
Definition reader_ok (b : BodyReader) : Prop :=
  reader_done b = true \/ match framing b with Length _ => 0 < remaining b | UntilEof => True
                          | Chunked => match chunk b with InData n => 0 < n | _ => True end end.
Lemma new_reader_ok f : (forall n, f = Length n -> 0 <= n) -> reader_ok (new_reader f).
Proof.
  intros Hn. unfold reader_ok, new_reader. cbn [reader_done framing chunk remaining]. destruct f as [n| |]; [|by right..].
  specialize (Hn n eq_refl). case_bool_decide as E; [by left|]. right. enough (n <> 0) by lia. congruence.
Qed.

Lemma delivered_weaken P b s b1 s1 b' p s' : (forall body rest, pending P b1 s1 body rest -> pending P b s body rest) ->
  delivered P b1 s1 b' p s' -> delivered P b s b' p s'.
Proof. intros Hw. destruct p as [p|]; cbn [delivered]; [intros [Hp Hd]; split; [done|]; auto|intros [Hd Hp]; auto]. Qed.
Lemma pending_size P b line s n body rest : reader_done b = false -> framing b = Chunked -> chunk b = Size -> 10 ∉ line -> P line ->
  chunk_size (strip_cr line) = Ok n -> 0 < n -> pending P (at_chunk b (InData n)) s body rest -> pending P b (line ++ 10 :: s) body rest.
Proof.
  intros Hd Hfr Hc Hl HP Hsz Hn. unfold pending, at_chunk. cbn [reader_done framing chunk]. rewrite Hd, Hfr, Hc.
  intros (data & s' & body' & -> & -> & Hlen & Hch). apply chunked_more; try done; [by rewrite Hsz, Hlen|]. intros ->. unfold len in Hlen. cbn in Hlen. lia.
Qed.
Lemma pending_data_end P b s body rest : reader_done b = false -> framing b = Chunked -> chunk b = DataEnd ->
  pending P (at_chunk b Size) s body rest -> pending P b (CRLF ++ s) body rest.
Proof. intros Hd Hfr Hc. unfold pending, at_chunk. cbn [reader_done framing chunk]. rewrite Hd, Hfr, Hc. eauto. Qed.

Lemma next_chunked_sound fuel : forall b c c' b' p, flowing (io c) -> reader_done b = false -> framing b = Chunked -> reader_ok b ->
  next_chunked_loop fuel b c = (c', Ok (b', p)) -> flowing (io c') /\ reader_ok b' /\ framing b' = Chunked /\ delivered any b (stream c) b' p (stream c').
Proof.
  induction fuel as [|fuel IH]; intros b c c' b' p Hf Hd Hfr Hok E; [discriminate|]. cbn [next_chunked_loop] in E. destruct (chunk b) as [|n|] eqn:Hc.
  - unfold cbind at 1 in E. destruct (read_chunk_size c) as [c1 [n|e]] eqn:Es; [|discriminate].
    destruct (read_chunk_size_only _ _ _ Hf Es) as [Hf1 (line & Es1 & Hl & Hsz)]. rewrite Es1. destruct (Z.eqb_spec n 0) as [->|Hn].
    + destruct (only_bind _ _ _ _ (skip_trailers_only (S (io_size c1))) (fun _ => only_ret (finished b, None)) _ _ _ Hf1 E) as [Hf2 ([] & s1 & Ht & [= -> ->] & ->)].
      split; [done|]. split; [by left|]. split; [done|]. split; [done|]. unfold pending. rewrite Hd, Hfr, Hc. by apply chunked_end.
    + pose proof (chunk_size_nonneg _ _ Hsz). destruct (IH (at_chunk b (InData n)) _ _ _ _ Hf1 Hd Hfr ltac:(right; cbn; rewrite Hfr; lia) E) as (Hf2 & Hok' & Hfr' & Hdel).
      split; [done|]. split; [done|]. split; [done|]. revert Hdel. apply delivered_weaken. intros body rest. apply (pending_size any b line (stream c1) n); try done. lia.
  - assert (0 < n) by (destruct Hok as [Hok|Hok]; [congruence|by rewrite Hfr, Hc in Hok]).
    unfold cbind at 1 in E. destruct (fill_if_empty _ c) as [c1 [more|e]] eqn:Ef; [|discriminate].
    destruct (fill_if_empty_only _ _ _ _ Hf Ef) as (Hf1 & Es1 & Hb1 & _). unfold cbind in E.
    destruct (take_piece_stream n c1) as (k & Et & Hk & Es2 & Hkn & Hk0). rewrite Et in E. injection E as <- <- <-. rewrite <- Es1, Es2.
    specialize (Hkn ltac:(lia)). specialize (Hk0 ltac:(lia) Hb1).
    assert (Hlk : length (take k (stream c1)) = k) by (unfold stream; rewrite length_take, length_app; lia).
    split; [done|]. split; [destruct (Z.eqb_spec (n - Z.of_nat k) 0); right; cbn; rewrite Hfr; [done|lia]|]. split; [done|]. split.
    + intros Et0. rewrite Et0 in Hlk. cbn in Hlk. lia.
    + intros body rest. unfold pending, at_chunk. cbn [reader_done framing chunk]. rewrite Hd, Hfr, Hc. destruct (Z.eqb_spec (n - Z.of_nat k) 0) as [E0|E0].
      * intros (s' & Es' & Hch). exists (take k (stream c1)), s', body. rewrite <- Es', take_drop. unfold len. rewrite Hlk. repeat split; try done; lia.
      * intros (data & s' & body' & Es' & -> & Hlen & Hch). exists (take k (stream c1) ++ data), s', body'. rewrite <- !app_assoc, <- Es', take_drop, len_app.
        unfold len at 1. rewrite Hlk. repeat split; try done; lia.
  - unfold cbind at 1 in E. destruct (expect_crlf c) as [c1 [[]|e]] eqn:Ec; [|discriminate].
    destruct (expect_crlf_only _ _ _ Hf Ec) as [Hf1 ->]. destruct (IH (at_chunk b Size) _ _ _ _ Hf1 Hd Hfr ltac:(right; cbn; by rewrite Hfr) E) as (Hf2 & Hok' & Hfr' & Hdel).
    split; [done|]. split; [done|]. split; [done|]. revert Hdel. apply delivered_weaken. intros body rest. by apply pending_data_end.
Qed.

Lemma take_nonempty (s : bytes) k : (0 < k)%nat -> s <> [] -> take k s <> [].
Proof. destruct k, s; done || lia. Qed.

Lemma next_sound b c c' b' p : flowing (io c) -> reader_done b = false -> reader_ok b -> next b c = (c', Ok (b', p)) ->
  flowing (io c') /\ reader_ok b' /\ delivered any b (stream c) b' p (stream c').
Proof.
  intros Hf Hd Hok E. unfold next in E. rewrite Hd in E. destruct (framing b) as [m| |] eqn:Hfr.
  - assert (0 < remaining b) by (destruct Hok as [Hok|Hok]; [congruence|by rewrite Hfr in Hok]).
    unfold cbind at 1 in E. destruct (fill_if_empty _ c) as [c1 [more|e]] eqn:Ef; [|discriminate].
    destruct (fill_if_empty_only _ _ _ _ Hf Ef) as (Hf1 & Es1 & Hb1 & _). unfold cbind in E.
    destruct (take_piece_stream (remaining b) c1) as (k & Et & Hk & Es2 & Hkn & Hk0). rewrite Et in E. injection E as <- <- <-. rewrite <- Es1, Es2.
    specialize (Hkn ltac:(lia)). specialize (Hk0 ltac:(lia) Hb1).
    split; [done|]. split; [destruct (Z.eqb_spec (remaining b - Z.of_nat k) 0); [by left|right; cbn; lia]|].
    split; [apply take_nonempty; [done|]; unfold stream; by destruct (buf c1)|].
    assert (Hlk : len (take k (stream c1)) = Z.of_nat k) by (unfold len, stream; rewrite length_take, length_app; lia).
    intros body rest. unfold pending. cbn [reader_done framing remaining]. rewrite Hd, Hfr, len_app, Hlk. destruct (Z.eqb_spec (remaining b - Z.of_nat k) 0).
    + intros [-> <-]. rewrite app_nil_r, take_drop. split; [done|]. change (len []) with 0. lia.
    + intros [Es3 Hl]. rewrite <- app_assoc, <- Es3, take_drop. split; [done|]. lia.
  - unfold next_chunked in E. destruct (next_chunked_sound _ _ _ _ _ _ Hf Hd Hfr Hok E) as (H1' & H2' & _ & H3'). done.
  - unfold cbind in E. destruct (fill_if_empty None c) as [c1 [more|e]] eqn:Ef; [|discriminate].
    destruct (fill_eof_only _ _ _ Hf Ef) as [(-> & Hf1 & Es & Hb)|(-> & Hf1 & Es & Es1)]; cbn [negb] in E; injection E as <- <- <-.
    + split; [exact Hf1|]. split; [done|]. rewrite firstn_all, drop_all. split; [done|].
      intros body rest. unfold pending. rewrite Hd, Hfr, <- Es. by intros [<- ->].
    + split; [exact Hf1|]. split; [by left|]. split; [done|]. unfold pending. by rewrite Hd, Hfr, Es, Es1.
Qed.

(** Everything a reader delivers. *)
Fixpoint drain (fuel : nat) (b : BodyReader) : conn (list bytes) :=
  match fuel with
  | O => cerr (Malformed [])
  | S fuel =>
      let> (b, p) := next b in
      match p with None => cret [] | Some x => let> l := drain fuel b in cret (x :: l) end
  end.
Lemma drain_sound fuel : forall b c c' l, flowing (io c) -> reader_ok b -> drain fuel b c = (c', Ok l) ->
  flowing (io c') /\ pending any b (stream c) (concat l) (stream c') /\ Forall (fun p => p <> []) l.
Proof.
  induction fuel as [|fuel IH]; intros b c c' l Hf Hok E; [discriminate|]. cbn [drain] in E. unfold cbind at 1 in E.
  destruct (reader_done b) eqn:Hd.
  { unfold next in E. rewrite Hd in E. injection E as <- <-. split; [done|]. split; [|constructor]. unfold pending. by rewrite Hd. }
  destruct (next b c) as [c1 [[b1 p]|e]] eqn:En; [|discriminate]. destruct (next_sound _ _ _ _ _ Hf Hd Hok En) as (Hf1 & Hok1 & Hdel).
  destruct p as [p|]; cbn [delivered] in Hdel.
  - destruct Hdel as [Hp Hdel]. unfold cbind in E. destruct (drain fuel b1 c1) as [c2 [l1|e]] eqn:Ed; [|discriminate]. injection E as <- <-.
    destruct (IH _ _ _ _ Hf1 Hok1 Ed) as (Hf2 & Hpend & Hl). split; [done|]. split; [by apply Hdel|by constructor].
  - injection E as <- <-. destruct Hdel as [_ Hpend]. split; [done|]. split; [exact Hpend|constructor].
Qed.

(** The answer of one call, when the stream holds what is pending. *)
Definition answers (rest : bytes) (body : bytes) (r : Buffered * result ReadError (BodyReader * option bytes)) : Prop :=
  exists c' b' p, r = (c', Ok (b', p)) /\ flowing (io c') /\
    match p with
    | None => body = [] /\ stream c' = rest
    | Some x => x <> [] /\ exists body', body = x ++ body' /\ pending readable b' (stream c') body' rest
    end.
Lemma take_answers c1 want b' body rest : flowing (io c1) -> buf c1 <> [] -> 0 < want -> take (Z.to_nat want) (stream c1) = take (Z.to_nat want) body ->
  (forall k, (0 < k)%nat -> (k <= length (buf c1))%nat -> Z.of_nat k <= want -> pending readable (b' (want - Z.of_nat k)) (drop k (stream c1)) (drop k body) rest) ->
  answers rest body ((let> (piece, rest) := take_piece want in cret (b' rest, Some piece)) c1).
Proof.
  intros Hf Hb Hw Hbody Hp. destruct (take_piece_stream want c1) as (k & Et & Hk & Es & Hkn & Hk0). specialize (Hkn ltac:(lia)). specialize (Hk0 ltac:(lia) Hb).
  unfold cbind. rewrite Et. assert (Ht : take k (stream c1) = take k body) by (apply (f_equal (take k)) in Hbody; rewrite !take_take in Hbody; by replace (k `min` Z.to_nat want)%nat with k in Hbody by lia).
  exists (mkBuffered (drop k (buf c1)) (io c1)), (b' (want - Z.of_nat k)), (Some (take k (stream c1))). split; [done|]. split; [exact Hf|].
  split; [apply take_nonempty; [done|]; unfold stream; by destruct (buf c1)|]. exists (drop k body). rewrite Ht, take_drop. split; [done|]. rewrite Es. by apply Hp.
Qed.
Lemma cbind_ok {A B} (m : conn A) (k : A -> conn B) c c1 a : m c = (c1, Ok a) -> cbind m k c = k a c1.
Proof. unfold cbind. by intros ->. Qed.
Lemma pending_drop P b s body rest k n : reader_done b = false -> framing b = Chunked -> chunk b = InData n -> (0 < k)%nat -> Z.of_nat k <= n ->
  pending P b s body rest ->
  pending P (at_chunk b (if n - Z.of_nat k =? 0 then DataEnd else InData (n - Z.of_nat k))) (drop k s) (drop k body) rest.
Proof.
  intros Hd Hfr Hc Hk Hn. unfold pending, at_chunk. cbn [reader_done framing chunk]. rewrite Hd, Hfr, Hc. intros (data & s' & body' & -> & -> & Hlen & Hch).
  assert (length data = Z.to_nat n) by (unfold len in Hlen; lia). destruct (Z.eqb_spec (n - Z.of_nat k) 0).
  - exists s'. rewrite (drop_app_ge data body'), (drop_app_ge data) by lia. replace (k - length data)%nat with O by lia. by rewrite !drop_0.
  - exists (drop k data), s', body'. rewrite !drop_app_le by lia. repeat split; try done. unfold len. rewrite length_drop. lia.
Qed.
Lemma in_data_answers fuel b c n body rest : flowing (io c) -> reader_done b = false -> framing b = Chunked -> chunk b = InData n -> 0 < n ->
  pending readable b (stream c) body rest -> answers rest body (next_chunked_loop (S fuel) b c).
Proof.
  intros Hf Hd Hfr Hc Hn Hp. cbn [next_chunked_loop]. rewrite Hc. pose proof Hp as Hp'. unfold pending in Hp'. rewrite Hd, Hfr, Hc in Hp'.
  destruct Hp' as (data & s' & body' & Es & Eb & Hlen & _).
  destruct (fill_if_empty_delivers (Some CLOSED) c Hf) as (c1 & E & Hf1 & Es1 & Hb1); [rewrite Es; destruct data; [unfold len in Hlen; cbn in Hlen; lia|done]|].
  rewrite (cbind_ok _ _ _ _ _ E). apply (take_answers c1 n (fun rest => at_chunk b (if rest =? 0 then DataEnd else InData rest))); try done.
  - rewrite Es1, Es, Eb. assert (Hlen' : Z.to_nat n = length data) by (unfold len in Hlen; lia). by rewrite Hlen', !take_app_length.
  - intros k Hk _ Hkn. rewrite Es1. by apply (pending_drop readable b _ _ _ k n).
Qed.
Lemma size_answers fuel b c body rest : flowing (io c) -> reader_done b = false -> framing b = Chunked -> chunk b = Size ->
  pending readable b (stream c) body rest -> answers rest body (next_chunked_loop (S (S fuel)) b c).
Proof.
  intros Hf Hd Hfr Hc Hp. remember (S fuel) as f1. cbn [next_chunked_loop]. rewrite Hc. unfold pending in Hp. rewrite Hd, Hfr, Hc in Hp.
  remember (stream c) as s eqn:Es. destruct Hp as [line s rest Hl Hr Hsz Ht|line data s body rest Hl Hr Hsz Hne Hch].
  - destruct (read_chunk_size_delivers line 0 s Hl Hr Hsz c Hf (eq_sym Es)) as (c1 & E1 & Hf1 & Es1). rewrite (cbind_ok _ _ _ _ _ E1). cbn [Z.eqb].
    pose proof (io_size_stream c1). rewrite Es1 in *. destruct (skip_trailers_delivers (S (io_size c1)) s rest Ht ltac:(lia) c1 Hf1 Es1) as (c2 & E2 & Hf2 & Es2).
    rewrite (cbind_ok _ _ _ _ _ E2). by exists c2, (finished b), None.
  - destruct (read_chunk_size_delivers line _ (data ++ CRLF ++ s) Hl Hr Hsz c Hf (eq_sym Es)) as (c1 & E1 & Hf1 & Es1). rewrite (cbind_ok _ _ _ _ _ E1).
    assert (0 < len data) by (unfold len; destruct data; [done|cbn; lia]). rewrite (proj2 (Z.eqb_neq _ _)) by lia. subst f1.
    apply (in_data_answers fuel _ c1 (len data)); try done. unfold pending, at_chunk. cbn [reader_done framing chunk]. rewrite Hd, Hfr, Es1.
    by exists data, s, body.
Qed.
Lemma next_answers b c body rest : flowing (io c) -> reader_done b = false -> reader_ok b -> pending readable b (stream c) body rest ->
  answers rest body (next b c).
Proof.
  intros Hf Hd Hok Hp. unfold next. rewrite Hd. destruct (framing b) as [m| |] eqn:Hfr.
  - assert (Hr : 0 < remaining b) by (destruct Hok as [Hok|Hok]; [congruence|by rewrite Hfr in Hok]).
    pose proof Hp as Hp'. unfold pending in Hp'. rewrite Hd, Hfr in Hp'. destruct Hp' as [Es Hl].
    destruct (fill_if_empty_delivers (Some INCOMPLETE) c Hf) as (c1 & E & Hf1 & Es1 & Hb1); [rewrite Es; destruct body; [unfold len in Hl; cbn in Hl; lia|done]|].
    rewrite (cbind_ok _ _ _ _ _ E). apply (take_answers c1 (remaining b) (fun rest => mkReader (Length m) rest (chunk b) (rest =? 0))); try done.
    + rewrite Es1, Es. unfold len in Hl. rewrite <- Hl, Nat2Z.id, take_app_length. by rewrite firstn_all.
    + intros k Hk Hkb Hkn. rewrite Es1, Es. unfold len in Hl. rewrite drop_app_le by lia. unfold pending. cbn [reader_done framing remaining].
      destruct (Z.eqb_spec (remaining b - Z.of_nat k) 0); [rewrite drop_ge by lia; done|]. split; [done|]. unfold len. rewrite length_drop. lia.
  - unfold next_chunked. destruct (chunk b) as [|n|] eqn:Hc.
    + by apply size_answers.
    + apply (in_data_answers 2 b c n); try done. destruct Hok as [Hok|Hok]; [congruence|by rewrite Hfr, Hc in Hok].
    + cbn [next_chunked_loop]. rewrite Hc. pose proof Hp as Hp'. unfold pending in Hp'. rewrite Hd, Hfr, Hc in Hp'. destruct Hp' as (s' & Es & Hch).
      destruct (expect_crlf_delivers s' c Hf Es) as (c1 & E1 & Hf1 & Es1). rewrite (cbind_ok _ _ _ _ _ E1). apply (size_answers 0); try done.
      unfold pending, at_chunk. cbn [reader_done framing chunk]. by rewrite Hd, Hfr, Es1.
  - pose proof Hp as Hp'. unfold pending in Hp'. rewrite Hd, Hfr in Hp'. destruct Hp' as [Es ->]. destruct body as [|x body].
    + unfold stream in Es. apply app_nil in Es as [Eb Ep].
      assert (Ei : io c = []) by (destruct (io c) as [|[l|e] arr]; [done|by apply Forall_cons in Hf as [Hne _]; destruct l|by apply Forall_cons in Hf as [[] _]]).
      assert (E : fill_if_empty None c = (c, Ok false)).
      { unfold fill_if_empty, reader_fill, cbind, fill. by rewrite bool_decide_eq_true_2, Ei by done. }
      rewrite (cbind_ok _ _ _ _ _ E). exists c, (finished b), None. split; [done|]. split; [done|]. unfold stream. by rewrite Eb, Ei.
    + destruct (fill_if_empty_delivers None c Hf) as (c1 & E & Hf1 & Es1 & Hb1); [by rewrite Es|]. rewrite (cbind_ok _ _ _ _ _ E). cbn [negb].
      unfold split_to. rewrite firstn_all, drop_all. exists (mkBuffered [] (io c1)), b, (Some (buf c1)). split; [done|]. split; [done|]. split; [done|].
      exists (pieces (io c1)). split; [by rewrite <- Es, <- Es1|]. unfold pending. by rewrite Hd, Hfr.
Qed.

Lemma drain_complete : forall fuel b c body rest, flowing (io c) -> reader_ok b -> pending readable b (stream c) body rest -> (length body < fuel)%nat ->
  exists c' l, drain fuel b c = (c', Ok l) /\ flowing (io c') /\ concat l = body /\ stream c' = rest.
Proof.
  induction fuel as [|fuel IH]; intros b c body rest Hf Hok Hp Hlen; [lia|]. cbn [drain]. destruct (reader_done b) eqn:Hd.
  { unfold pending in Hp. rewrite Hd in Hp. destruct Hp as [-> <-]. exists c, []. unfold next, cbind. by rewrite Hd. }
  destruct (next_answers b c body rest Hf Hd Hok Hp) as (c1 & b1 & p & E & Hf1 & H1'). rewrite (cbind_ok _ _ _ _ _ E).
  destruct (next_sound _ _ _ _ _ Hf Hd Hok E) as (_ & Hok1 & _). destruct p as [x|].
  - destruct H1' as [Hx (body' & -> & Hp1)]. destruct (IH b1 c1 body' rest Hf1 Hok1 Hp1) as (c2 & l & E2 & Hf2 & Hl & Hs).
    { rewrite length_app in Hlen. destruct x; [done|cbn in Hlen; lia]. }
    rewrite (cbind_ok _ _ _ _ _ E2). exists c2, (x :: l). cbn [concat]. by rewrite Hl.
  - destruct H1' as [-> <-]. by exists c1, [].
Qed.

(** C25: A body is what its framing says and nothing else, however the network cuts
    the stream up: read whole or a piece at a time, over two different cuts of the
    same bytes, it is the same body and leaves the same bytes for the next message;
    a whole body respects its cap and is covered by its reservation; and both ways
    of reading succeed on every stream that holds a framed body. *)
Theorem body_read_exactly `{HR : BodyReservation R} {HL : BodyReservationLaws R} f max (r : R) c1 c2 :
  flowing (io c1) -> flowing (io c2) -> stream c1 = stream c2 -> (forall n, f = Length n -> 0 <= n) ->
  0 <= res_held r -> 0 <= max -> max + 65536 <= usize_max ->
  (forall c1' r' body, read_body c1 f max r = (c1', r', Ok body) ->
     len body <= max /\ len body <= res_held r' /\ framed any f (stream c1) body (stream c1')
     /\ forall fuel c2' ps, drain fuel (new_reader f) c2 = (c2', Ok ps) -> concat ps = body /\ stream c2' = stream c1')
  /\ (forall G bound body rest, framed readable f (stream c1) body rest -> len body <= max -> max + 65536 <= bound <= usize_max ->
        granting bound G -> G r ->
        (exists c1' r', read_body c1 f max r = (c1', r', Ok body) /\ stream c1' = rest)
        /\ exists c2' ps, drain (S (length body)) (new_reader f) c2 = (c2', Ok ps) /\ concat ps = body /\ stream c2' = rest).
Proof.
  intros Hf1 Hf2 Es Hn Hr Hm Hu. split.
  - intros c1' r' body E. destruct (read_body_sound _ _ _ _ _ _ _ Hf1 Hr Hm Hu Hn E) as (_ & Hl & Hh & Hfr). split_and!; try done.
    intros fuel c2' ps Ed. destruct (drain_sound _ _ _ _ _ Hf2 (new_reader_ok f Hn) Ed) as (_ & Hp & _). apply pending_new in Hp. rewrite <- Es in Hp.
    exact (framed_det _ _ _ _ _ _ _ _ Hp Hfr).
  - intros G bound body rest Hfr Hl [Hb1 Hb2] HG HGr. split.
    + destruct (read_body_complete bound G HG Hb2 c1 f max r body rest Hf1 HGr Hfr Hl Hb1) as (c' & r' & E & _ & Hs). eauto.
    + destruct (drain_complete (S (length body)) (new_reader f) c2 body rest Hf2 (new_reader_ok f Hn)) as (c' & ps & E & _ & Hs); [by apply pending_new; rewrite <- Es|lia|eauto].
Qed.
End Framing.

(** ** The budget behind a body *)

#[global] Instance budget_reservation_laws : BodyReservationLaws Held.
Proof.
  split; cbn [res_held res_grow_to res_make_room budget_reservation].
  - intros r r' n. unfold held_grow_to. destruct (grow_to _ _ _ _ _) as [[b m] ok] eqn:E. intros [= <- ->]. cbn [mine].
    apply grow_to_result in E. subst m. lia.
  - intros r r' n cap extra cap' Hn Hc He Hu. unfold held_make_room. destruct (make_room _ _ _ _ _ _ _ _) as [[[b m] cap1] ok] eqn:E. intros [= <- -> ->]. cbn [mine].
    apply make_room_covered in E as (Hb & Hok & _); [|lia..]. specialize (Hok eq_refl). lia.
Qed.
(** A reservation alone on a budget large enough. *)
Definition alone (lim : Z) (h : Held) : Prop :=
  others h = [] /\ (forall n, allocator h n = true) /\ used (shared h) = mine h /\ limit (shared h) = lim /\ 0 <= mine h <= lim.
Lemma alone_grow lim h total : lim <= usize_max -> alone lim h -> 0 <= total <= lim ->
  exists b, grow_to [] id (shared h) (mine h) total = (b, Z.max (mine h) total, true) /\ used b = Z.max (mine h) total /\ limit b = lim.
Proof.
  intros Hu (_ & _ & Hus & Hlim & Hm) Ht. unfold grow_to, try_grow_to. cbv zeta. destruct (Z.leb_spec total (mine h)).
  - exists (shared h). rewrite Z.max_l by lia. done.
  - rewrite Z.max_r by lia. destruct (Z.leb_spec total FREE_BYTES).
    + eexists. split; [done|]. cbn [used limit]. split; [|done]. rewrite wrap_usize_small by lia. lia.
    + assert (E : next_used (limit (shared h)) (used (shared h)) (total - mine h) = Some total) by (apply next_used_spec; lia).
      rewrite E. by eexists.
Qed.
Lemma alone_granting bound lim : 2 * bound + 65536 <= lim <= usize_max -> granting bound (alone lim).
Proof.
  intros Hb h Hh. pose proof Hh as (Ho & Ha & _). cbn [res_grow_to res_make_room res_alloc budget_reservation]. split_and!.
  - intros n Hn. unfold held_grow_to, next_others. rewrite Ho. cbn [hd wakes at_deadline meanwhile]. change (id (shared h)) with (shared h).
    destruct (alone_grow lim h n) as (b & E & Hus & Hlim); [lia|done|lia|]. rewrite E. eexists. split; [done|].
    destruct Hh as (_ & _ & _ & _ & Hm). unfold alone. cbn [others allocator shared mine]. split_and!; try done; lia.
  - intros n _. apply Ha.
  - intros n cap extra Hn He Hs. unfold held_make_room, next_others, make_room. rewrite Ho. cbn [hd wakes at_deadline meanwhile]. change (id (shared h)) with (shared h).
    destruct (extra <=? cap - n) eqn:Ec; [do 2 eexists; split; [done|]; destruct Hh as (_ & _ & ? & ? & ?); done|].
    pose proof (grown_capacity_bounds n extra Hn He ltac:(lia)) as [Hg1 Hg2]. assert (n / 4 <= n) by (apply Z.div_le_upper_bound; lia).
    destruct (alone_grow lim h (grown_capacity n extra)) as (b & E & Hus & Hlim); [lia|done|lia|]. rewrite E. unfold grow_vec. rewrite Ec, Ha.
    do 2 eexists. split; [done|]. destruct Hh as (_ & _ & _ & _ & Hm). unfold alone. cbn [others allocator shared mine]. split_and!; try done; lia.
Qed.

(** ** A concrete body *)

Section Sample.
#[local] Instance plain_debug : StrDebug := {| debug_str := fun s => [34] ++ s ++ [34] |}.
Definition sample_wire : bytes := lit "5" ++ CRLF ++ lit "hello" ++ CRLF ++ lit "0" ++ CRLF ++ CRLF ++ lit "GET /".
Lemma sample_wire_chunked : chunked readable sample_wire (lit "hello") (lit "GET /").
Proof.
  replace (lit "hello") with (lit "hello" ++ []) by (by rewrite app_nil_r).
  apply (chunked_more readable (lit "5" ++ [13]) (lit "hello") (lit "0" ++ CRLF ++ CRLF ++ lit "GET /")); [apply (bool_decide_unpack _); by vm_compute|by vm_compute|by vm_compute|done|].
  apply (chunked_end readable (lit "0" ++ [13]) (CRLF ++ lit "GET /")); [apply (bool_decide_unpack _); by vm_compute|by vm_compute|by vm_compute|].
  apply (trailers_end readable [13]); try (by vm_compute). apply (bool_decide_unpack _); by vm_compute.
Qed.

Lemma body_read_exactly_witness :
  let c1 := mkBuffered (take 4 sample_wire) [Data (drop 4 sample_wire)] in
  let c2 := mkBuffered [] (map (fun b => Data [b]) sample_wire) in
  let r := mkHeld (mkBudget 0 200000) 0 (fun _ => true) [] in
  (exists c1' r', read_body c1 Chunked 100 r = (c1', r', Ok (lit "hello")) /\ stream c1' = lit "GET /")
  /\ exists c2' ps, drain 6 (new_reader Chunked) c2 = (c2', Ok ps) /\ concat ps = lit "hello" /\ stream c2' = lit "GET /".
Proof.
  intros c1 c2 r.
  destruct (body_read_exactly Chunked 100 r c1 c2) as [_ Hc].
  - by vm_compute; repeat constructor.
  - by vm_compute; repeat constructor.
  - by vm_compute.
  - done.
  - done.
  - done.
  - done.
  - apply (Hc (alone 200000) 66000 (lit "hello") (lit "GET /")); [exact sample_wire_chunked|by vm_compute|by vm_compute| |].
    + apply alone_granting. unfold usize_max, u64_max. lia.
    + unfold alone. cbn. split_and!; try done; lia.
Defined.
End Sample.
