(* ===== verification/H1Messages.v ===== *)
(** The HTTP/1 codec frames messages in one way: the framing headers it accepts from
    a peer are unambiguous, and a message it writes is read back, by the same rules,
    as the same head and the same body, with nothing of it left over. *)
From S2P Require Import Prelude Utf8 Message Budget H1 H1Spec.
From Stdlib Require Import ZifyBool.

(** * Decimal lengths *)

Lemma dec_value_bound l : Forall (fun c => is_ascii_digit c = true) l -> 0 <= dec_value 0 l < 10 ^ Z.of_nat (length l).
Proof.
  induction l as [|c l IH] using rev_ind; intros Hl; [vm_compute; split; congruence|]. apply Forall_app in Hl as [Hl Hc].
  apply Forall_cons in Hc as [Hc _]. apply in_range_spec in Hc. rewrite dec_value_app, length_app, Nat.add_1_r, Nat2Z.inj_succ, Z.pow_succ_r by lia.
  change (dec_value (dec_value 0 l) [c]) with (dec_value 0 l * 10 + (c - 48)). specialize (IH Hl). lia.
Qed.
Lemma dec_value_inj a b : Forall (fun c => is_ascii_digit c = true) a -> Forall (fun c => is_ascii_digit c = true) b ->
  length a = length b -> dec_value 0 a = dec_value 0 b -> a = b.
Proof.
  revert b. induction a as [|x a IH] using rev_ind; intros b Ha Hb Hl E; [by destruct b|].
  destruct b as [|y b _] using rev_ind; [rewrite length_app in Hl; cbn in Hl; lia|]. rewrite !length_app, !Nat.add_1_r in Hl.
  apply Forall_app in Ha as [Ha Hx], Hb as [Hb Hy]. apply Forall_cons in Hx as [Hx _], Hy as [Hy _]. apply in_range_spec in Hx, Hy. rewrite !dec_value_app in E.
  change (dec_value 0 a * 10 + (x - 48) = dec_value 0 b * 10 + (y - 48)) in E. rewrite (IH b Ha Hb ltac:(lia) ltac:(lia)). f_equal. f_equal. lia.
Qed.
(** The shape of an accepted length is the shape of a written one. *)
Definition plain_decimal (l : bytes) : Prop := l <> [] /\ Forall (fun c => is_ascii_digit c = true) l /\ (l = [48] \/ nth 0 l 0 <> 48).
Lemma plain_decimal_low l : plain_decimal l -> (2 <= length l)%nat -> 10 ^ Z.of_nat (length l - 1) <= dec_value 0 l.
Proof.
  intros (Hn & Hd & Hz) Hl. destruct l as [|c l]; [done|]. destruct Hz as [[= -> ->]|Hz]; [cbn in Hl; lia|]. cbn [nth] in Hz.
  apply Forall_cons in Hd as [Hc Hd]. apply in_range_spec in Hc. change (c :: l) with ([c] ++ l) at 2. rewrite dec_value_app, dec_value_linear.
  pose proof (dec_value_bound l Hd). change (dec_value 0 [c]) with (0 * 10 + (c - 48)). cbn [length]. replace (S (length l) - 1)%nat with (length l) by lia.
  pose proof (Z.pow_pos_nonneg 10 (Z.of_nat (length l)) ltac:(lia) ltac:(lia)). nia.
Qed.
Lemma show_unsigned_plain n : 0 <= n -> plain_decimal (show_unsigned n).
Proof.
  intros Hn. destruct (show_unsigned_spec n Hn) as (Hd & Hv & Hne & Hl). split; [done|]. split; [done|].
  destruct (show_unsigned n) as [|c l] eqn:E; [done|]. destruct (Z.eq_dec c 48) as [->|Hc]; [|by right]. destruct l as [|d l]; [by left|].
  exfalso. apply Forall_cons in Hd as [_ Hd]. pose proof (dec_value_bound _ Hd). specialize (Hl (length (d :: l)) ltac:(cbn; lia)).
  change (dec_value 0 (48 :: d :: l)) with (dec_value (0 * 10 + (48 - 48)) (d :: l)) in Hv. cbn [Z.mul Z.add Z.sub] in Hv.
  change (0 * 10 + (48 - 48)) with 0 in Hv. specialize (Hl ltac:(lia)). cbn in Hl. lia.
Qed.
Lemma plain_decimal_show l : plain_decimal l -> l = show_unsigned (dec_value 0 l).
Proof.
  intros Hp. pose proof Hp as (Hn & Hd & _). pose proof (dec_value_bound l Hd) as Hb. destruct (show_unsigned_spec (dec_value 0 l) ltac:(lia)) as (Hd2 & Hv & Hne & Hl).
  pose proof (show_unsigned_plain (dec_value 0 l) ltac:(lia)) as Hp2. apply dec_value_inj; try done. apply Nat.le_antisymm; [|apply Hl; [destruct l; [done|cbn; lia]|lia]].
  destruct (Nat.le_gt_cases (length l) 1); [destruct (show_unsigned _); [done|cbn; lia]|].
  pose proof (plain_decimal_low l Hp ltac:(lia)) as Hlow. pose proof (dec_value_bound _ Hd2) as Hb2. rewrite Hv in Hb2.
  enough (~ (length (show_unsigned (dec_value 0 l)) <= length l - 1)%nat) by lia. intros Hle.
  pose proof (Z.pow_le_mono_r 10 (Z.of_nat (length (show_unsigned (dec_value 0 l)))) (Z.of_nat (length l - 1)) ltac:(lia) ltac:(lia)). lia.
Qed.

Lemma digits_value_inv max acc l n : Forall (fun c => is_ascii_digit c = true) l -> digits_value max acc l = Some n ->
  n = dec_value acc l /\ (l <> [] -> n <= max).
Proof.
  revert acc. induction l as [|c l IH]; intros acc Hl E; cbn [digits_value] in E; [by injection E as <-|]. apply Forall_cons in Hl as [Hc Hl].
  unfold digit_value in E. rewrite Hc in E. destruct (Z.ltb_spec max (acc * 10 + (c - 48))); [discriminate|].
  destruct (IH _ Hl E) as [-> Hm]. split; [done|]. intros _. destruct l; [unfold dec_value; simpl; lia|by apply Hm].
Qed.
Lemma parse_unsigned_inv max l n : Forall (fun c => is_ascii_digit c = true) l -> parse_unsigned max l = Some n -> n = dec_value 0 l /\ n <= max.
Proof.
  intros Hl E. assert (Hne : l <> []) by (by intros ->). enough (digits_value max 0 l = Some n) as E2 by (destruct (digits_value_inv _ _ _ _ Hl E2); auto).
  destruct l as [|c [|d l]]; [done|exact E|]. cbn [parse_unsigned] in E. apply Forall_cons in Hl as [Hc _]. apply in_range_spec in Hc.
  by rewrite (proj2 (Z.eqb_neq c 43)) in E by lia.
Qed.

(** * Framing headers *)

Section Framing.
Context `{StrDebug}.

Lemma parse_content_length_spec v n : parse_content_length v = Ok n <-> 0 <= n <= u64_max /\ v = show_unsigned n.
Proof.
  unfold parse_content_length. split.
  - destruct (negb _) eqn:Ev; [discriminate|]. apply negb_false_iff in Ev. apply andb_prop in Ev as [Ev Hz]. apply andb_prop in Ev as [Hne Hd].
    apply negb_true_iff, bool_decide_eq_false in Hne. apply forallb_Forall in Hd.
    assert (Hp : plain_decimal v).
    { split; [done|]. split; [done|]. apply orb_true_iff in Hz as [Hz%bool_decide_eq_true|Hz%negb_true_iff%Z.eqb_neq]; auto. }
    destruct (from_utf8 v) as [t|] eqn:Et; [|discriminate]. assert (t = v) as ->.
    { assert (Ha : as_bytes v = v) by (apply as_bytes_ascii; eapply Forall_impl; [exact Hd|]; intros c Hc; apply in_range_spec in Hc; cbv beta; lia).
      rewrite <- Ha, from_utf8_as_bytes in Et; [by injection Et|]. eapply Forall_impl; [exact Hd|]. intros c Hc. apply in_range_spec in Hc. left. lia. }
    destruct (parse_unsigned u64_max v) as [k|] eqn:Ek; [|discriminate]. intros [= ->].
    destruct (parse_unsigned_inv _ _ _ Hd Ek) as [-> Hm]. pose proof (dec_value_bound v Hd). split; [lia|]. by apply plain_decimal_show.
  - intros [Hn ->]. destruct (show_unsigned_spec n ltac:(lia)) as (Hd & Hv & Hne & _). destruct (show_unsigned_plain n ltac:(lia)) as (_ & _ & Hz).
    rewrite bool_decide_eq_false_2 by done. rewrite (proj2 (forallb_Forall _ _) Hd).
    assert (bool_decide (show_unsigned n = [48]) || negb (nth 0 (show_unsigned n) 0 =? 48) = true) as ->.
    { apply orb_true_iff. destruct Hz as [Hz|Hz]; [left; by apply bool_decide_eq_true_2|right; by apply negb_true_iff, Z.eqb_neq]. }
    cbn [negb andb]. assert (Hu : from_utf8 (show_unsigned n) = Some (show_unsigned n)).
    { rewrite <- (as_bytes_ascii (show_unsigned n)) at 1.
      - apply from_utf8_as_bytes. eapply Forall_impl; [exact Hd|]. intros c Hc. apply in_range_spec in Hc. left. lia.
      - eapply Forall_impl; [exact Hd|]. intros c Hc. apply in_range_spec in Hc. cbv beta. lia. }
    rewrite Hu, parse_unsigned_digits, Hv by (try done; lia). done.
Qed.

(** ** Transfer codings *)

(** The coding of a header value, when [chunked] comes last, when it does not. *)
Definition CHUNKED_CODINGS : list str := map lit ["chunked"; "compress,chunked"; "deflate,chunked"; "gzip,chunked"]%string.
Definition chunked_last (te : bytes) : Prop := exists t, parse_transfer_encoding te = Ok t /\ t ∈ CHUNKED_CODINGS.
Lemma codings_split t : t ∈ CODINGS -> ends_with t (lit "chunked") = true <-> t ∈ CHUNKED_CODINGS.
Proof.
  intros Ht. unfold CODINGS in Ht. cbn [map] in Ht. rewrite !elem_of_cons in Ht.
  destruct Ht as [->|[->|[->|[->|[->|[->|[->|[->|Ht]]]]]]]]; [..|by apply not_elem_of_nil in Ht];
    (split; [intros E|intros E]; [apply (bool_decide_unpack _); by vm_compute + by vm_compute in E|by vm_compute + (exfalso; revert E; apply (bool_decide_unpack _); by vm_compute)]).
Qed.
Lemma parse_te_coding v t : parse_transfer_encoding v = Ok t -> t ∈ CODINGS.
Proof.
  unfold parse_transfer_encoding. destruct (from_utf8 v); [|discriminate]. destruct (negb _); [discriminate|].
  case_bool_decide; [|discriminate]. by intros [= <-].
Qed.
End Framing.

(** [w] occurs in [l]. *)
Definition infix (w l : list Z) : Prop := exists a b, l = a ++ w ++ b.
Lemma infix_find w l : is_Some (find_sub w l) <-> infix w l.
Proof.
  induction l as [|c l IH]; cbn [find_sub].
  - destruct w as [|x w]; cbn [starts_with]; split; intros Hs; [by exists [], []|done|by destruct Hs|].
    destruct Hs as (a & b & E). symmetry in E. apply app_nil in E as [_ E]. done.
  - destruct (starts_with (c :: l) w) eqn:Es.
    + apply starts_with_prefix in Es as [r ->]. split; [by exists [], r|by eexists].
    + assert (Hi : infix w (c :: l) <-> infix w l).
      { split; intros (a & b & E); [|exists (c :: a), b; by rewrite E]. destruct a as [|x a]; [|injection E as -> ->; by exists a, b].
        exfalso. assert (starts_with (c :: l) w = true) by (apply starts_with_prefix; by exists b). congruence. }
      rewrite Hi, <- IH. destruct (find_sub w l); split; intros [k Hk]; try done; by eexists.
Qed.
Lemma prefix_sep (w y a b : list Z) s : w ++ y = a ++ s :: b -> s ∉ w -> exists z, a = w ++ z.
Proof.
  revert a. induction w as [|c w IH]; intros a E Hs; [by exists a|]. apply not_elem_of_cons in Hs as [Hc Hs]. destruct a as [|x a]; injection E as -> E; [done|].
  destruct (IH a E Hs) as [z ->]. by exists z.
Qed.
Lemma infix_sep w a s b : w <> [] -> s ∉ w -> infix w (a ++ s :: b) -> infix w a \/ infix w b.
Proof.
  intros Hw Hs (x & y & E). revert x E. induction a as [|c a IH]; intros [|d x] E; cbn [app] in E.
  - destruct w as [|c w]; [done|]. injection E as -> _. exfalso. apply Hs. by left.
  - injection E as -> ->. right. by exists x, y.
  - left. destruct (prefix_sep w y (c :: a) b s (eq_sym E) Hs) as [z ->]. by exists [], z.
  - injection E as -> E. destruct (IH x E) as [(u & v & ->)|Hb]; [left; by exists (d :: u), v|by right].
Qed.
Lemma infix_weaken w a l b : infix w l -> infix w (a ++ l ++ b).
Proof. intros (x & y & ->). exists (a ++ x), (y ++ b). by rewrite <- !app_assoc. Qed.
Lemma infix_join w s ps : w <> [] -> s ∉ w -> infix w (join_with s ps) <-> exists p, p ∈ ps /\ infix w p.
Proof.
  intros Hw Hs. assert (Hn : ~ infix w []) by (intros (x & y & E); symmetry in E; apply app_nil in E as [_ E]; by apply app_nil in E as [E _]).
  induction ps as [|p [|q ps] IH].
  - split; [done|]. intros (p & Hp & _). by apply not_elem_of_nil in Hp.
  - cbn [join_with]. split; [exists p; split; [by left|done]|]. by intros (x & ->%list_elem_of_singleton & Hi).
  - change (join_with s (p :: q :: ps)) with (p ++ s :: join_with s (q :: ps)). split.
    + intros [Hp|Hr]%infix_sep; [exists p; split; [by left|done]| |done|done]. apply IH in Hr as (x & Hx & Hi). exists x. split; [by right|done].
    + intros (x & [->|Hx]%elem_of_cons & Hi); [exact (infix_weaken w [] p _ Hi)|].
      assert (Hj : infix w (join_with s (q :: ps))) by (apply IH; eauto). change (p ++ s :: join_with s (q :: ps)) with (p ++ [s] ++ join_with s (q :: ps)).
      rewrite app_assoc, <- (app_nil_r (join_with s (q :: ps))). by apply infix_weaken.
Qed.
Lemma drop_while_split f l : exists z, l = z ++ drop_while f l /\ Forall (fun c => f c = true) z.
Proof.
  induction l as [|c l (z & E & Hz)]; [by exists []|]. cbn [drop_while]. destruct (f c) eqn:Ec; [|by exists []].
  exists (c :: z). cbn [app]. rewrite <- E. split; [done|by constructor].
Qed.
Lemma drop_while_end_split f l : exists z, l = drop_while_end f l ++ z /\ Forall (fun c => f c = true) z.
Proof.
  induction l as [|c l (z & E & Hz)]; [by exists []|]. unfold drop_while_end in *. cbn [fold_right]. destruct (fold_right _ _ l) as [|x r].
  - destruct (f c) eqn:Ec; [exists (c :: l); split; [done|]; constructor; [done|]; cbn [app] in E; by subst z|]. exists z. cbn [app] in *. by subst z.
  - exists z. cbn [app] in *. split; [by rewrite E|done].
Qed.
Lemma infix_trim w f p : w <> [] -> Forall (fun c => f c = false) w -> infix w (trim_matches f p) <-> infix w p.
Proof.
  intros Hw Hf. unfold trim_matches. destruct (drop_while_split f p) as (z & E & Hz). destruct (drop_while_end_split f (drop_while f p)) as (y & E2 & Hy).
  set (t := drop_while_end f (drop_while f p)) in *.
  assert (Hsep : forall c, f c = true -> c ∉ w) by (intros c Hc Hin; rewrite Forall_forall in Hf; specialize (Hf c Hin); congruence).
  assert (Hnone : forall l, Forall (fun c => f c = true) l -> ~ infix w l).
  { intros l Hl (a & b & ->). apply Forall_app in Hl as [_ Hl]. apply Forall_app in Hl as [Hl _]. destruct w as [|c w]; [done|].
    apply Forall_cons in Hl as [Hc _]. apply (Hsep c Hc). by left. }
  assert (Hright : forall l y, Forall (fun c => f c = true) y -> infix w (l ++ y) -> infix w l).
  { intros l y0 Hy0 Hi. destruct y0 as [|c y0]; [by rewrite app_nil_r in Hi|]. apply Forall_cons in Hy0 as [Hc Hy0].
    apply infix_sep in Hi as [Hi|Hi]; [done|by apply Hnone in Hi|done|by apply Hsep]. }
  assert (Hleft : forall z l, Forall (fun c => f c = true) z -> infix w (z ++ l) -> infix w l).
  { intros z0 l Hz0 Hi. induction Hz0 as [|c z0 Hc Hz0 IH]; [done|]. apply (infix_sep w [] c) in Hi as [Hi|Hi]; [by apply (Hnone []) in Hi|by apply IH|done|by apply Hsep]. }
  split.
  - intros Hi. rewrite E, E2. by apply infix_weaken.
  - intros Hi. rewrite E in Hi. apply Hleft in Hi; [|done]. rewrite E2 in Hi. by apply Hright in Hi.
Qed.

(** ** Chunked or not *)

Section Chunked.
Context `{StrDebug}.

Lemma from_utf8_is_lossy v t : from_utf8 v = Some t -> from_utf8_lossy v = t.
Proof.
  intros E. apply all_some_Forall in E. unfold from_utf8_lossy. rewrite E. clear E. induction t as [|c t IH]; [done|]. cbn. by rewrite IH.
Qed.
Lemma chunked_anywhere v t : parse_transfer_encoding v = Ok t ->
  bool_decide (is_Some (find_sub (lit "chunked") (map ascii_lower (from_utf8_lossy v)))) = ends_with t (lit "chunked").
Proof.
  intros Hp. pose proof (parse_te_coding _ _ Hp) as Ht. unfold parse_transfer_encoding in Hp. destruct (from_utf8 v) as [text|] eqn:Ev; [|discriminate].
  rewrite (from_utf8_is_lossy _ _ Ev). destruct (negb _); [discriminate|]. case_bool_decide; [|discriminate]. injection Hp as <-.
  set (low := map ascii_lower text) in *. set (t := join_with 44 _) in *. set (w := lit "chunked").
  assert (Hi : infix w low <-> infix w t).
  { unfold t. rewrite <- (join_split 44 low) at 1. rewrite !infix_join by (try done; apply (bool_decide_unpack _); by vm_compute). split.
    - intros (p & Hp & Hw). eexists. split; [by apply list_elem_of_fmap_2|]. apply infix_trim; [done|vm_compute w; repeat constructor|done].
    - intros (p & (q & -> & Hq)%list_elem_of_fmap & Hw). exists q. split; [done|]. apply infix_trim in Hw; [done|done|vm_compute w; repeat constructor]. }
  rewrite <- infix_find in Hi. rewrite <- (infix_find w t) in Hi. apply (bool_decide_ext _ _) in Hi. etransitivity; [exact Hi|]. clear Hi. clearbody t.
  unfold CODINGS in Ht. cbn [map] in Ht. rewrite !elem_of_cons in Ht.
  destruct Ht as [->|[->|[->|[->|[->|[->|[->|[->|Ht]]]]]]]]; [by vm_compute..|by apply not_elem_of_nil in Ht].
Qed.

(** The framing headers of a message: [te] and [cl] are all the values of the two
    headers. *)
Lemma is_chunked_value h te t : values h (lit "transfer-encoding") = [te] -> parse_transfer_encoding te = Ok t ->
  is_chunked h = ends_with t (lit "chunked").
Proof. intros E Ht. unfold is_chunked. rewrite E. by apply chunked_anywhere. Qed.
Lemma is_chunked_none h : values h (lit "transfer-encoding") = [] -> is_chunked h = false.
Proof. intros E. unfold is_chunked. by rewrite E. Qed.

(** What validation accepts, for a request ([None]) and for a response. *)
Definition accepted (te cl : list bytes) (version : str) (status : option Z) : Prop :=
  (te = [] /\ (cl = [] \/ exists n, 0 <= n <= u64_max /\ cl = [show_unsigned n]))
  \/ (cl = [] /\ version = lit "HTTP/1.1" /\ (forall code, status = Some code -> in_range 100 199 code || (code =? 204) = false)
      /\ exists v t, te = [v] /\ parse_transfer_encoding v = Ok t /\ (status = None -> ends_with t (lit "chunked") = true)).
Lemma validate_accepted h version status :
  validate_framing h version status = Ok tt <-> accepted (values h (lit "transfer-encoding")) (values h (lit "content-length")) version status.
Proof.
  unfold validate_framing, accepted. destruct (values h (lit "transfer-encoding")) as [|te tes], (values h (lit "content-length")) as [|cl cls].
  - split; [auto|done].
  - split.
    + case_bool_decide as Ec; [|discriminate]. subst cls. cbn [negb]. destruct (parse_content_length cl) as [n|e] eqn:E; [|discriminate].
      apply parse_content_length_spec in E as [Hn ->]. intros _. left. eauto.
    + intros [[_ [?|(n & Hn & E)]]|[? _]]; try discriminate. injection E as -> ->. cbn [negb bool_decide]. rewrite bool_decide_eq_true_2 by done. cbn [negb].
      assert (E : parse_content_length (show_unsigned n) = Ok n) by (by apply parse_content_length_spec). by rewrite E.
  - split.
    + case_bool_decide as Ec; [|discriminate]. subst tes. cbn [negb]. case_bool_decide as Ev; [|discriminate]. cbn [negb].
      destruct status as [code|]; [destruct (_ || _) eqn:Es; [discriminate|]|]; (destruct (parse_transfer_encoding te) as [t|e] eqn:Et; [|discriminate]);
        cbn [result_bind]; intros Hr; right.
      * split; [done|]. split; [done|]. split; [by intros ? [= <-]|]. exists te, t. split; [done|]. by split.
      * split; [done|]. split; [done|]. split; [done|]. exists te, t. split; [done|]. split; [done|]. intros _. rewrite bool_decide_eq_true_2 in Hr by done.
        destruct (ends_with _ _); [done|discriminate].
    + intros [[? _]|(_ & -> & Hs & v & t & E & Et & He)]; [discriminate|]. injection E as -> ->. rewrite !bool_decide_eq_true_2 by done. cbn [negb].
      destruct status as [code|]; [rewrite (Hs code eq_refl)|]; rewrite Et; cbn [result_bind]; [by rewrite bool_decide_eq_false_2|].
      rewrite bool_decide_eq_true_2, He by done. done.
  - split; [discriminate|]. intros [[? _]|[? _]]; discriminate.
Qed.
End Chunked.

(** ** One framing *)

Section Unambiguous.
Context `{StrDebug}.

Lemma request_framing_accepted h te cl version : te = values h (lit "transfer-encoding") -> cl = values h (lit "content-length") ->
  accepted te cl version None ->
  exists f, request_framing h = Ok f /\ ((f = Chunked /\ length te = 1%nat /\ cl = []) \/ exists n, f = Length n /\ te = [] /\ 0 <= n <= u64_max
    /\ (cl = [show_unsigned n] \/ (cl = [] /\ n = 0))).
Proof.
  intros Ete Ecl. unfold request_framing, length_framing. rewrite <- Ete, <- Ecl. intros [[-> [->|(n & Hn & ->)]]|(-> & _ & _ & v & t & -> & Et & He)].
  - exists (Length 0). split; [done|]. right. exists 0. unfold u64_max. split_and!; auto; lia.
  - assert (E : parse_content_length (show_unsigned n) = Ok n) by (by apply parse_content_length_spec). rewrite E. exists (Length n). split; [done|]. right. eauto 10.
  - rewrite Et. cbn [result_bind]. rewrite (He eq_refl). exists Chunked. split; [done|]. left. done.
Qed.
Lemma response_framing_accepted h te cl version method status : te = values h (lit "transfer-encoding") -> cl = values h (lit "content-length") ->
  accepted te cl version (Some status) -> response_has_body method status = true ->
  exists f, response_framing method status h = Ok f /\ ((f = (if is_chunked h then Chunked else UntilEof) /\ length te = 1%nat /\ cl = [])
    \/ (f = UntilEof /\ te = [] /\ cl = []) \/ exists n, f = Length n /\ te = [] /\ 0 <= n <= u64_max /\ cl = [show_unsigned n]).
Proof.
  intros Ete Ecl Ha Hb. unfold response_framing, length_framing. rewrite Hb. cbn [negb].
  destruct Ha as [[Ht [Hc|(n & Hn & Hc)]]|(Hc & _ & _ & v & t & Ht & Et & _)]; rewrite <- Ete, <- Ecl, Ht, Hc.
  - exists UntilEof. split; [done|]. right. left. done.
  - assert (E : parse_content_length (show_unsigned n) = Ok n) by (by apply parse_content_length_spec). rewrite E. exists (Length n). split; [done|]. right. right. eauto.
  - rewrite Et. cbn [result_bind]. eexists. split; [done|]. left. split; [|done]. rewrite Ht in Ete. by rewrite (is_chunked_value h v t).
Qed.

(** C23: A message that passes the smuggling checks has exactly one framing: they
    accept no message with both headers, with two of either, with a length that is
    not the plain decimal of a 64-bit number, with a transfer coding outside
    HTTP/1.1 or on a bodiless response, or a request whose coding does not end in
    chunked; and what they accept is read as what its one framing header says. *)
Theorem framing_unambiguous h version method status :
  let te := values h (lit "transfer-encoding") in let cl := values h (lit "content-length") in
  (forall st, validate_framing h version st = Ok tt <-> accepted te cl version st)
  /\ (validate_framing h version None = Ok tt -> exists f, request_framing h = Ok f
        /\ ((f = Chunked /\ length te = 1%nat /\ cl = [])
            \/ exists n, f = Length n /\ te = [] /\ 0 <= n <= u64_max /\ (cl = [show_unsigned n] \/ (cl = [] /\ n = 0))))
  /\ (validate_framing h version (Some status) = Ok tt -> exists f, response_framing method status h = Ok f
        /\ (response_has_body method status = false -> f = Length 0)
        /\ (response_has_body method status = true ->
              (f = (if is_chunked h then Chunked else UntilEof) /\ length te = 1%nat /\ cl = [])
              \/ (f = UntilEof /\ te = [] /\ cl = []) \/ exists n, f = Length n /\ te = [] /\ 0 <= n <= u64_max /\ cl = [show_unsigned n])).
Proof.
  intros te cl. split; [intros st; apply validate_accepted|]. split.
  - intros Hv. apply validate_accepted in Hv. by apply (request_framing_accepted h te cl version).
  - intros Hv. apply validate_accepted in Hv. destruct (response_has_body method status) eqn:Hb.
    + destruct (response_framing_accepted h te cl version method status eq_refl eq_refl Hv Hb) as (f & E & Hf). exists f. split; [done|]. by split.
    + exists (Length 0). unfold response_framing. rewrite Hb. by split.
Qed.
End Unambiguous.

(** * Heads *)

Lemma starts_with_more l r p : starts_with l p = true -> starts_with (l ++ r) p = true.
Proof. rewrite !starts_with_prefix. intros [x ->]. exists (x ++ r). by rewrite <- app_assoc. Qed.
Lemma starts_with_length l p : starts_with l p = true -> (length p <= length l)%nat.
Proof. intros [x ->]%starts_with_prefix. rewrite length_app. lia. Qed.
Lemma head_end_app l r n : head_end l = Some n -> (n <= length l)%nat /\ head_end (l ++ r) = Some n.
Proof.
  revert n. induction l as [|b l IH]; intros n E; [discriminate|]. cbn [head_end app length] in *.
  assert (Hrec : forall k, S <$> head_end l = Some k -> (k <= S (length l))%nat /\ S <$> head_end (l ++ r) = Some k).
  { intros k Ek. destruct (head_end l) as [j|]; [|discriminate]. injection Ek as <-. destruct (IH j eq_refl) as (? & ->). split; [lia|done]. }
  destruct (b =? 10); [|by apply Hrec]. destruct (starts_with l [10]) eqn:E1.
  - injection E as <-. rewrite (starts_with_more _ r _ E1). apply starts_with_length in E1. cbn in E1. split; [lia|done].
  - destruct (starts_with l [13; 10]) eqn:E2; [injection E as <-; apply starts_with_prefix in E2 as [x ->]; cbn; split; [lia|done]|].
    destruct (starts_with (l ++ r) [10]) eqn:E3; [destruct l as [|c l]; [discriminate|]; cbn [app starts_with] in E1, E3; congruence|].
    destruct (starts_with (l ++ r) [13; 10]) eqn:E4; [|by apply Hrec]. destruct l as [|c [|d l]]; [discriminate| |cbn [app starts_with] in E2, E4; congruence].
    cbn [head_end] in E. destruct (c =? 10); cbn in E; discriminate.
Qed.

(** A line that is written, and what follows it. *)
Lemma head_end_line x y : 10 ∉ x -> head_end (x ++ CRLF ++ y) =
  (if starts_with y [10] then Some (length x + 3)%nat else if starts_with y [13; 10] then Some (length x + 4)%nat
   else (fun n => (length x + 2 + n)%nat) <$> head_end y).
Proof.
  intros Hx. induction x as [|b x IH].
  - cbn [app CRLF head_end length]. cbn [Z.eqb Pos.eqb]. destruct (starts_with y [10]); [done|]. destruct (starts_with y [13; 10]); [done|]. by destruct (head_end y).
  - apply not_elem_of_cons in Hx as [Hb Hx]. cbn [app head_end length]. rewrite (proj2 (Z.eqb_neq b 10)) by congruence. rewrite (IH Hx).
    destruct (starts_with y [10]); [done|]. destruct (starts_with y [13; 10]); [done|]. by destruct (head_end y).
Qed.
Definition clean (h : Headers) : Prop := Forall (fun e => (10 ∉ e.1) /\ (10 ∉ e.2)) h.
Definition header_line (e : bytes * bytes) : bytes := e.1 ++ lit ": " ++ e.2.
Lemma header_line_clean e : (10 ∉ e.1) /\ (10 ∉ e.2) -> 10 ∉ header_line e.
Proof.
  intros [H1 H2]. unfold header_line. intros [Hi|[Hi|Hi]%elem_of_app]%elem_of_app; [done| |done]. revert Hi. apply (bool_decide_unpack _). by vm_compute.
Qed.
Lemma not_blank_line x y : (2 <= length x)%nat -> 10 ∉ x -> starts_with (x ++ y) [10] = false /\ starts_with (x ++ y) [13; 10] = false.
Proof.
  intros Hl Hx. destruct x as [|a [|b x]]; [cbn in Hl; lia..|]. apply not_elem_of_cons in Hx as [Ha Hx]. apply not_elem_of_cons in Hx as [Hb _].
  cbn [app starts_with]. rewrite (proj2 (Z.eqb_neq a 10)), (proj2 (Z.eqb_neq b 10)) by congruence. by rewrite andb_false_r.
Qed.
Lemma head_end_message line h rest : 10 ∉ line -> clean h ->
  head_end (line ++ CRLF ++ put_headers h ++ rest) = Some (length (line ++ CRLF ++ put_headers h)).
Proof.
  intros Hl Hc. revert line Hl. induction Hc as [|e h He Hc IH]; intros line Hl.
  - unfold put_headers. cbn [flat_map app]. rewrite head_end_line by done. cbn [CRLF app starts_with]. cbn. rewrite length_app. cbn. f_equal. 
  - assert (E : put_headers (e :: h) = header_line e ++ CRLF ++ put_headers h).
    { unfold put_headers, header_line. cbn [flat_map]. by rewrite <- !app_assoc. }
    rewrite E, head_end_line by done. rewrite <- !app_assoc. pose proof (header_line_clean e He) as Hh.
    destruct (not_blank_line (header_line e) (CRLF ++ put_headers h ++ rest)) as [-> ->]; [unfold header_line; rewrite !length_app; vm_compute (length (lit ": ")); lia|done|].
    rewrite (IH _ Hh). cbn [fmap option_fmap option_map]. f_equal. rewrite !length_app. cbn [CRLF length]. lia.
Qed.

(** A head is read as it was written: the lines of [line] and [h], and no more. *)
Definition not_blank (l : bytes) : Prop := starts_with l [10] = false /\ starts_with l [13; 10] = false /\ (2 <= length l)%nat.
Lemma skip_not_blank l r p q : not_blank l -> l ++ r = p ++ q -> skip_blank p = p.
Proof.
  intros (H1 & H2 & Hl) E. destruct l as [|a [|b l]]; [cbn in Hl; lia..|]. cbn [app starts_with] in *. destruct p as [|x p]; [done|]. injection E as -> E.
  cbn [skip_blank]. destruct (x =? 10); [discriminate|]. destruct (x =? 13); [|done]. destruct p as [|y p]; [done|]. injection E as -> _.
  cbn in H2. rewrite andb_true_r in H2. by rewrite H2.
Qed.
Lemma read_head_delivers head rest : head_end head = Some (length head) -> not_blank head -> Z.of_nat (length head) <= MAX_HEAD ->
  delivers read_head (head ++ rest) head rest.
Proof.
  intros He Hb Hm c. unfold read_head, stream. generalize (buf c). generalize (io c). clear c.
  assert (Hall : forall b p, b ++ p = head ++ rest -> skip_blank b = b /\ match head_end b with
     | Some n => take n b = head /\ drop n b ++ p = rest | None => (length b < length head)%nat end).
  { intros b p E. split; [by apply (skip_not_blank head rest b p)|]. destruct (head_end b) as [n|] eqn:En.
    - destruct (head_end_app b p n En) as [Hn E1]. destruct (head_end_app head rest _ He) as [_ E2]. rewrite E, E2 in E1. injection E1 as <-.
      assert (Ht : take (length head) (b ++ p) = head) by (rewrite E; apply take_app_length). rewrite take_app_le in Ht by done. split; [done|].
      assert (Hd : drop (length head) (b ++ p) = rest) by (rewrite E; apply drop_app_length). by rewrite drop_app_le in Hd.
    - apply Nat.nle_gt. intros Hle. assert (Hx : b = head ++ drop (length head) b).
      { assert (Ht : take (length head) (b ++ p) = head) by (rewrite E; apply take_app_length). rewrite take_app_le in Ht by done. rewrite <- Ht at 1. by rewrite take_drop. }
      destruct (head_end_app head (drop (length head) b) _ He) as [_ E2]. rewrite <- Hx in E2. congruence. }
  intros arr. induction arr as [|[more|e] arr IH]; intros b Hf Hs; [| |by apply Forall_cons in Hf as [[] _]];
    destruct (Hall _ _ Hs) as [Hsk Hh]; cbn [read_head_loop]; rewrite Hsk; destruct (head_end b) as [n|] eqn:En.
  - destruct Hh as [-> Hd]. eexists. split; [done|]. by split.
  - exfalso. cbn [pieces flat_map] in Hs. rewrite app_nil_r in Hs. subst b. rewrite length_app in Hh. lia.
  - destruct Hh as [-> Hd]. eexists. split; [done|]. by split.
  - rewrite (proj2 (Z.ltb_ge _ _)) by lia. apply Forall_cons in Hf as [Hne Hf]. destruct more as [|x more]; [done|]. apply IH; [done|].
    rewrite <- app_assoc. exact Hs.
Qed.
Lemma message_head_delivers line h rest : (2 <= length line)%nat -> 10 ∉ line -> clean h -> Z.of_nat (length (line ++ CRLF ++ put_headers h)) <= MAX_HEAD ->
  delivers read_head ((line ++ CRLF ++ put_headers h) ++ rest) (line ++ CRLF ++ put_headers h) rest.
Proof.
  intros Hl Hn Hc Hm. apply read_head_delivers; [|split; [|split]|done].
  - rewrite <- (app_nil_r (put_headers h)) at 1. by apply head_end_message.
  - by apply not_blank_line.
  - by apply not_blank_line.
  - rewrite length_app. lia.
Qed.

(** ** The headers that frame a body *)

Lemma values_set_self h n v : values (header_set h n v) n = [v].
Proof. apply (set_all_self h n [v]). Qed.
Lemma values_set_other h n m v : same_name n m = false -> values (header_set h n v) m = values h m.
Proof. intros Hn. unfold values, header_set. by rewrite set_all_other. Qed.
Lemma values_add h n m v : values (header_add h n v) m = values h m ++ (if eq_ignore_ascii_case n (as_bytes m) then [v] else []).
Proof. unfold values, header_add. rewrite List.filter_app, map_app. cbn [List.filter]. unfold named at 2. cbn [fst]. by destruct (eq_ignore_ascii_case _ _). Qed.
Abbreviation TE := (lit "transfer-encoding").
Abbreviation CL := (lit "content-length").
Lemma add_cl h v : values (header_add h CL v) CL = values h CL ++ [v] /\ values (header_add h CL v) TE = values h TE.
Proof. rewrite !values_add. split; [done|apply app_nil_r]. Qed.
Lemma set_cl h v : values (header_set h CL v) CL = [v] /\ values (header_set h CL v) TE = values h TE.
Proof. split; [apply values_set_self|by apply values_set_other]. Qed.
Lemma values_remove_self h n : values (header_remove h n) n = [].
Proof. unfold values. by rewrite filter_removed. Qed.
Lemma values_remove_other h n m : same_name n m = false -> values (header_remove h n) m = values h m.
Proof.
  intros Hn. unfold values, header_remove. f_equal. induction h as [|e h IH]; [done|]. cbn [List.filter]. destruct (named n e) eqn:En; cbn [negb List.filter]; rewrite IH; [|done].
  by rewrite (named_same n m e En), Hn.
Qed.
Lemma contains_values h n : header_contains h n = negb (bool_decide (values h n = [])).
Proof.
  unfold header_contains, values. induction h as [|e h IH]; [done|]. cbn [existsb List.filter]. destruct (named n e); cbn [orb map]; [by rewrite bool_decide_eq_false_2|exact IH].
Qed.

(** * Bodies out *)

Section Out.
Context `{StrDebug}.

Lemma hex_char c : 48 <= c <= 57 \/ 97 <= c <= 102 -> is_whitespace c = false /\ c <> 59 /\ c <> 10 /\ c <> 13.
Proof.
  intros Hc. split; [|lia]. unfold is_whitespace, in_range.
  repeat (apply orb_false_iff; split); try (apply Z.eqb_neq; lia); apply andb_false_iff; rewrite !Z.leb_gt; lia.
Qed.
Lemma strip_cr_app line : strip_cr (line ++ [13]) = line.
Proof. unfold strip_cr. rewrite rev_app_distr. cbn. by rewrite rev_involutive. Qed.
Lemma chunk_size_show n : 0 <= n <= u64_max -> chunk_size (show_hex n) = Ok n.
Proof.
  intros Hn. destruct (show_hex_spec u64_max n Hn) as (Hp & Hne & Hf). unfold chunk_size. rewrite split_on_alone.
  2: { intros Hin. rewrite Forall_forall in Hf. apply Hf in Hin. lia. }
  cbn [nth]. assert (Hu : from_utf8 (show_hex n) = Some (show_hex n)).
  { rewrite <- (as_bytes_ascii (show_hex n)) at 1; [apply from_utf8_as_bytes|]; (eapply Forall_impl; [exact Hf|]); intros c Hc; cbv beta in *; [left|]; lia. }
  unfold trim. rewrite Hu, trim_matches_none by (eapply Forall_impl; [exact Hf|]; intros c Hc; by apply hex_char). unfold usize_max. by rewrite Hp.
Qed.
Lemma show_hex_digits_bound fuel n acc : (length (show_hex_digits fuel n acc) <= fuel + length acc)%nat.
Proof. revert n acc. induction fuel as [|fuel IH]; intros n acc; cbn [show_hex_digits]; [lia|]. destruct (n <? 16); [cbn; lia|]. etransitivity; [apply IH|]. cbn. lia. Qed.
Lemma show_hex_short n : 0 <= n <= u64_max -> Z.of_nat (length (show_hex n)) <= 65.
Proof.
  intros Hn. pose proof (show_hex_digits_bound (S (Z.to_nat (Z.log2 n))) n []) as Hb. fold (show_hex n) in Hb. cbn [length] in Hb.
  pose proof (Z.log2_le_mono n u64_max ltac:(lia)). change (Z.log2 u64_max) with 63 in *. pose proof (Z.log2_nonneg n). lia.
Qed.
(** The line of a chunk's size. *)
Lemma size_line n : 0 <= n <= u64_max -> (10 ∉ show_hex n ++ [13]) /\ readable (show_hex n ++ [13]) /\ chunk_size (strip_cr (show_hex n ++ [13])) = Ok n.
Proof.
  intros Hn. destruct (show_hex_spec u64_max n Hn) as (_ & _ & Hf). split; [|split].
  - intros [Hi|Hi%list_elem_of_singleton]%elem_of_app; [rewrite Forall_forall in Hf; apply Hf in Hi; lia|done].
  - unfold readable. rewrite length_app. pose proof (show_hex_short n Hn). unfold MAX_HEAD. cbn [length]. lia.
  - rewrite strip_cr_app. by apply chunk_size_show.
Qed.
Lemma last_chunk rest : chunked readable (LAST_CHUNK ++ rest) [] rest.
Proof.
  change (LAST_CHUNK ++ rest) with ((show_hex 0 ++ [13]) ++ 10 :: [13] ++ 10 :: rest). destruct (size_line 0) as (H1 & H2 & H3); [unfold u64_max; lia|].
  apply chunked_end; try done. apply trailers_end; [apply (bool_decide_unpack _); by vm_compute|by vm_compute|done].
Qed.
Lemma one_chunk data s body rest : data <> [] -> len data <= u64_max -> chunked readable s body rest ->
  chunked readable (show_hex (len data) ++ CRLF ++ data ++ CRLF ++ s) (data ++ body) rest.
Proof.
  intros Hd Hl Hc. assert (0 <= len data) by (unfold len; lia). destruct (size_line (len data)) as (H1 & H2 & H3); [lia|].
  change (show_hex (len data) ++ CRLF ++ data ++ CRLF ++ s) with (show_hex (len data) ++ [13] ++ 10 :: data ++ CRLF ++ s).
  rewrite app_assoc. by apply chunked_more.
Qed.
Lemma put_body_chunked body rest : len body <= u64_max -> chunked readable (put_body body true ++ rest) body rest.
Proof.
  intros Hl. unfold put_body. case_bool_decide as E; [subst; apply last_chunk|]. rewrite <- !app_assoc. rewrite <- (app_nil_r body) at 3.
  apply one_chunk; [done|done|apply last_chunk].
Qed.
Lemma write_message_encodes head body ch : concat (write_message head body ch) = head ++ put_body body ch.
Proof.
  unfold write_message, body_frame, put_body. destruct ch; cbn [negb].
  - assert (Hb : (len body =? 0) = bool_decide (body = [])).
    { unfold len. destruct body; [done|]. rewrite bool_decide_eq_false_2 by done. apply Z.eqb_neq. cbn. lia. }
    rewrite Hb. case_bool_decide as E; [subst body; cbn [len]; destruct (_ <=? _); cbn [concat]; by rewrite !app_nil_r|].
    destruct (_ <=? _); cbn [concat]; by rewrite !app_nil_r, <- ?app_assoc.
  - destruct (_ <=? _); cbn [concat]; by rewrite !app_nil_r.
Qed.

(** The headers after a body's length was written into them. *)
Lemma is_chunked_te h h' : values h' TE = values h TE -> is_chunked h' = is_chunked h.
Proof. unfold is_chunked. by intros ->. Qed.
Lemma fix_framing_accepted h n needs version status : accepted (values h TE) (values h CL) version status -> 0 <= n <= u64_max ->
  let '(h', ch) := fix_framing h n needs in
  ch = is_chunked h' /\ values h' TE = values h TE /\ accepted (values h' TE) (values h' CL) version status
  /\ (values h TE = [] -> values h' CL = [show_unsigned n] \/ (needs = false /\ values h' CL = [])).
Proof.
  intros Ha Hn. unfold fix_framing. rewrite !contains_values.
  destruct (decide (values h TE = [])) as [Et|Et].
  - rewrite (is_chunked_none h Et), Et, bool_decide_eq_true_2 by done. cbn [negb].
    assert (Hset : accepted [] [show_unsigned n] version status) by (left; split; [done|]; right; eauto).
    case_bool_decide as Ec; cbn [negb]; [destruct needs|].
    + destruct (add_cl h (show_unsigned n)) as [E1 E2]. rewrite E1, E2, Et, Ec. rewrite (is_chunked_none (header_add _ _ _)) by congruence. cbn [app]. auto 10.
    + rewrite is_chunked_none, Et, Ec by done. rewrite Et, Ec in Ha. auto 10.
    + destruct (set_cl h (show_unsigned n)) as [E1 E2]. rewrite E1, E2, Et. rewrite (is_chunked_none (header_set _ _ _)) by congruence. auto 10.
  - rewrite bool_decide_eq_false_2 by done. cbn [negb]. by destruct (is_chunked h) eqn:Ec; rewrite Ec.
Qed.

(** What a body looks like on the wire under the headers that frame it. *)
Lemma request_body_framed h body version rest : len body <= u64_max ->
  accepted (values h TE) (values h CL) version None -> (values h TE = [] -> values h CL = [show_unsigned (len body)] \/ (body = [] /\ values h CL = [])) ->
  exists f, request_framing h = Ok f /\ framed readable f (put_body body (is_chunked h) ++ rest) body rest.
Proof.
  intros Hl Ha Hcl. unfold request_framing, length_framing. assert (0 <= len body) by (unfold len; lia).
  destruct Ha as [[Et Hc]|(Ec & _ & _ & v & t & Et & Ep & He)].
  - rewrite (is_chunked_none h Et), Et. cbn [put_body]. specialize (Hcl Et).
    assert (E : parse_content_length (show_unsigned (len body)) = Ok (len body)) by (apply parse_content_length_spec; split; [lia|done]).
    destruct Hcl as [->|[-> ->]]; [rewrite E|]; cbn [result_bind]; (eexists; split; [reflexivity|]); done.
  - rewrite (is_chunked_value h v t Et Ep), Et, Ep. cbn [result_bind]. rewrite (He eq_refl). exists Chunked. split; [done|]. by apply put_body_chunked.
Qed.
Lemma response_body_framed h body version method status rest : len body <= u64_max -> response_has_body method status = true ->
  accepted (values h TE) (values h CL) version (Some status) -> (values h TE = [] -> values h CL = [show_unsigned (len body)]) ->
  exists f, response_framing method status h = Ok f /\ (f = UntilEof -> values h TE <> [] /\ is_chunked h = false)
    /\ (f <> UntilEof \/ rest = [] -> framed readable f (put_body body (is_chunked h) ++ rest) body rest).
Proof.
  intros Hl Hb Ha Hcl. unfold response_framing, length_framing. rewrite Hb. cbn [negb]. assert (0 <= len body) by (unfold len; lia).
  destruct Ha as [[Et Hc]|(Ec & _ & _ & v & t & Et & Ep & _)].
  - rewrite (is_chunked_none h Et), Et, (Hcl Et). cbn [put_body].
    assert (E : parse_content_length (show_unsigned (len body)) = Ok (len body)) by (apply parse_content_length_spec; split; [lia|done]).
    rewrite E. exists (Length (len body)). split; [done|]. split; [done|]. done.
  - rewrite (is_chunked_value h v t Et Ep), Et, Ep. cbn [result_bind]. destruct (ends_with t _); (eexists; split; [reflexivity|]); (split; [done|]).
    + intros _. by apply put_body_chunked.
    + intros [?| ->]; [done|]. cbn [put_body framed]. by rewrite app_nil_r.
Qed.

(** ** Whole messages *)

Definition wire_version (version : str) : str := if is_http1 version then version else lit "HTTP/1.1".
Lemma line_length (a b c : str) : Nat.le 2 (length (as_bytes (a ++ [32] ++ b ++ [32] ++ c))).
Proof.
  unfold as_bytes. rewrite !flat_map_app, !length_app. change (length (flat_map utf8_char [32])) with 1%nat. lia.
Qed.

Lemma status_line_shape version status reason : exists line, status_line version status reason = line ++ CRLF /\ (2 <= length line)%nat.
Proof. eexists. split; [done|apply line_length]. Qed.
Lemma response_line_shape resp : exists line, response_line resp = line ++ CRLF /\ (2 <= length line)%nat.
Proof. unfold response_line. destruct (is_http1 _); apply status_line_shape. Qed.

(** C24: A request that passed the smuggling checks and was changed on the way (its
    body rewritten, its headers edited) is read back, by the same rules and however
    the network cuts it, as the head that was written, with headers that pass the
    checks again, and as exactly its body: the next request on the connection starts
    where it ends.  This needs a request line and headers without a line feed and a
    head within [MAX_HEAD]: the writer checks neither, so an edit must not bring one
    in (a secret of several lines put into a header does). *)
Theorem request_delivered req c rest :
  let h := (request_headers req).1 in
  let head := request_line req ++ put_headers h in
  validate_framing (if is_http1 (http_version req) then headers req else one_cookie (headers req)) (wire_version (http_version req)) None = Ok tt ->
  (10 ∉ as_bytes (method req ++ [32] ++ (if bool_decide (path req = []) then lit "/" else path req) ++ [32] ++ wire_version (http_version req))) -> clean h ->
  Z.of_nat (length head) <= MAX_HEAD -> len (body req) <= u64_max ->
  flowing (io c) -> stream c = concat (write_request req) ++ rest ->
  exists c', read_head c = (c', Ok head) /\ flowing (io c') /\ validate_framing h (wire_version (http_version req)) None = Ok tt
    /\ (exists f, request_framing h = Ok f /\ framed readable f (stream c') (body req) rest)
    /\ concat (write_request req) = encode_request req.
Proof.
  intros h head Hv Hline Hc Hm Hl Hf Hs. apply validate_accepted in Hv. assert (0 <= len (body req)) by (unfold len; lia).
  unfold write_request, encode_request, request_head in *. subst h head. unfold request_headers in *.
  set (h0 := if is_http1 (http_version req) then headers req else one_cookie (headers req)) in *.
  pose proof (fix_framing_accepted h0 (len (body req)) (negb (bool_decide (body req = []))) _ None Hv ltac:(lia)) as Hfix.
  destruct (fix_framing h0 _ _) as [h ch]. cbn [fst] in *. destruct Hfix as (-> & Ete & Ha & Hcl). rewrite write_message_encodes in *.
  unfold request_line in *. rewrite <- !app_assoc in *. fold (wire_version (http_version req)) in *.
  set (line := as_bytes _) in *. rewrite (app_assoc CRLF), (app_assoc line) in Hs.
  destruct (message_head_delivers line h (put_body (body req) (is_chunked h) ++ rest) ltac:(apply line_length) Hline Hc Hm c Hf Hs) as (c' & E & Hf' & Es).
  exists c'. split; [exact E|]. split; [exact Hf'|]. split; [by apply validate_accepted|]. split; [|done]. rewrite Es.
  apply (request_body_framed h (body req) (wire_version (http_version req))); [done|done|]. intros Et.
  rewrite Ete in Et. destruct (Hcl Et) as [E1|[E1 E2]]; [by left|right]. by apply negb_false_iff, bool_decide_eq_true in E1.
Qed.

(** The same of a response to a request of a given method: its head is read as it
    was written, its headers pass the checks again, and its body is read as it was
    sent, nothing for a response that has none; only a body under a coding that is
    not chunked runs to the end of the connection. *)
Theorem response_delivered resp method c rest :
  let h := (response_headers resp method).1 in
  let head := response_line resp ++ put_headers h in
  validate_framing (resp_headers resp) (wire_version (resp_version resp)) (Some (status resp)) = Ok tt ->
  (forall l, response_line resp = l ++ CRLF -> 10 ∉ l) -> clean h -> Z.of_nat (length head) <= MAX_HEAD -> len (resp_body resp) <= u64_max ->
  flowing (io c) -> stream c = concat (write_response resp method) ++ rest ->
  exists c', read_head c = (c', Ok head) /\ flowing (io c') /\ validate_framing h (wire_version (resp_version resp)) (Some (status resp)) = Ok tt
    /\ (exists f, response_framing method (status resp) h = Ok f
          /\ (f = UntilEof -> values h TE <> [] /\ is_chunked h = false)
          /\ (f <> UntilEof \/ rest = [] -> framed readable f (stream c') (if response_has_body method (status resp) then resp_body resp else []) rest))
    /\ concat (write_response resp method) = encode_response resp method.
Proof.
  intros h head Hv Hline Hc Hm Hl Hf Hs. apply validate_accepted in Hv. assert (0 <= len (resp_body resp)) by (unfold len; lia).
  unfold write_response, encode_response, response_head in *. subst h head. unfold response_headers in *.
  destruct (response_line_shape resp) as (line & Eline & Hlen). specialize (Hline line Eline). rewrite Eline in *. rewrite <- !app_assoc in *.
  destruct (response_has_body method (status resp)) eqn:Hb.
  - pose proof (fix_framing_accepted (resp_headers resp) (len (resp_body resp)) true _ _ Hv ltac:(lia)) as Hfix.
    destruct (fix_framing _ _ _) as [h ch]. cbn [fst] in *. destruct Hfix as (-> & Ete & Ha & Hcl). rewrite andb_true_r, write_message_encodes, <- !app_assoc in *.
    rewrite (app_assoc CRLF), (app_assoc line) in Hs.
    destruct (message_head_delivers line h (put_body (resp_body resp) (is_chunked h) ++ rest) Hlen Hline Hc Hm c Hf Hs) as (c' & E & Hf' & Es).
    exists c'. split; [exact E|]. split; [exact Hf'|]. split; [by apply validate_accepted|]. split; [|done]. rewrite Es.
    apply (response_body_framed h (resp_body resp) (wire_version (resp_version resp))); [done|done|done|]. intros Et. rewrite Ete in Et.
    destruct (Hcl Et) as [E1|[E1 _]]; done.
  - cbn [fst andb] in *. rewrite write_message_encodes in *. cbn [put_body] in *. rewrite !app_nil_r, <- !app_assoc in *. rewrite (app_assoc CRLF), (app_assoc line) in Hs.
    destruct (message_head_delivers line (resp_headers resp) rest Hlen Hline Hc Hm c Hf Hs) as (c' & E & Hf' & Es).
    exists c'. split; [exact E|]. split; [exact Hf'|]. split; [by apply validate_accepted|]. split; [|done]. rewrite Es.
    unfold response_framing. rewrite Hb. exists (Length 0). by split_and!.
Qed.

(** ** Streamed bodies *)

Definition written_pieces (pieces : list bytes) (f : StreamFraming) : bytes := concat (flat_map (fun p => write_piece p f) pieces).
Lemma written_cons p ps f : written_pieces (p :: ps) f = concat (write_piece p f) ++ written_pieces ps f.
Proof. unfold written_pieces. cbn [flat_map]. apply concat_app. Qed.
Lemma written_plain ps f : f <> SChunked -> written_pieces ps f = concat ps.
Proof.
  intros Hf. induction ps as [|p ps IH]; [done|]. rewrite written_cons, IH. unfold write_piece. case_bool_decide as E; [by subst|].
  destruct f; [|done|]; cbn [concat]; by rewrite app_nil_r.
Qed.
Lemma written_chunked ps rest : Forall (fun p => len p <= u64_max) ps -> chunked readable (written_pieces ps SChunked ++ LAST_CHUNK ++ rest) (concat ps) rest.
Proof.
  induction 1 as [|p ps Hp Hps IH]; [apply last_chunk|]. rewrite written_cons. unfold write_piece. case_bool_decide as E; [by subst|].
  assert (Hw : concat (if len p <=? 16 * 1024 then [(show_hex (len p) ++ CRLF) ++ p ++ CRLF] else [show_hex (len p) ++ CRLF; p; CRLF]) = show_hex (len p) ++ CRLF ++ p ++ CRLF).
  { destruct (_ <=? _); cbn [concat]; by rewrite ?app_nil_r, <- !app_assoc. }
  rewrite Hw, <- !app_assoc. cbn [concat]. by apply one_chunk.
Qed.
Lemma stream_headers_framed h f version method status body : accepted (values h TE) (values h CL) version (Some status) ->
  response_has_body method status = true -> (f = SChunked -> version = lit "HTTP/1.1") -> (f = SLength -> values h CL = [show_unsigned (len body)]) -> len body <= u64_max ->
  let h' := stream_headers h f in
  accepted (values h' TE) (values h' CL) version (Some status)
  /\ response_framing method status h' = Ok (match f with SLength => Length (len body) | SChunked => Chunked | SClose => UntilEof end).
Proof.
  intros Ha Hb Hv Hcl Hl h'. assert (0 <= len body) by (unfold len; lia). unfold response_framing, length_framing. rewrite Hb. cbn [negb]. subst h'. destruct f; cbn [stream_headers].
  - rewrite values_remove_self, values_remove_other, Hcl by done.
    assert (E : parse_content_length (show_unsigned (len body)) = Ok (len body)) by (apply parse_content_length_spec; split; [lia|done]). rewrite E.
    split; [|done]. left. split; [done|]. right. exists (len body). split; [lia|done].
  - destruct (is_chunked (header_remove h CL)) eqn:Ec.
    + rewrite values_remove_self, values_remove_other by done. rewrite (is_chunked_te h (header_remove h CL)) in Ec by (by rewrite values_remove_other).
      destruct Ha as [[Et _]|(_ & Hver & Hst & v & t & Et & Ep & He)]; [by rewrite (is_chunked_none h Et) in Ec|]. rewrite Et, Ep. cbn [result_bind].
      rewrite (is_chunked_value h v t Et Ep) in Ec. rewrite Ec. split; [|done]. right. split_and!; try done. exists v, t. done.
    + rewrite !values_add, !values_remove_self. rewrite (values_remove_other _ TE CL), values_remove_self by done.
      change (eq_ignore_ascii_case TE (as_bytes TE)) with true. change (eq_ignore_ascii_case TE (as_bytes CL)) with false. cbn [app].
      assert (Ep : parse_transfer_encoding (lit "chunked") = Ok (lit "chunked")) by (by vm_compute). rewrite Ep. cbn [result_bind].
      change (ends_with (lit "chunked") (lit "chunked")) with true. split; [|done]. right. split; [done|]. split; [by apply Hv|]. split.
      * intros code [= <-]. unfold response_has_body in Hb. destruct (in_range 100 199 status), (status =? 204); rewrite ?orb_true_r in Hb; done.
      * exists (lit "chunked"), (lit "chunked"). done.
  - rewrite values_remove_self, (values_remove_other _ TE CL), values_remove_self by done. split; [|done]. left. split; [done|]. by left.
Qed.

(** A response streamed to a client, whatever pieces its body comes in, is read
    back as the head that was sent and as the concatenation of the pieces: under its
    declared length, as chunks, or up to the end of the connection. *)
Theorem streamed_delivered resp method f pieces c rest :
  let h := stream_headers (resp_headers resp) f in
  let head := response_line resp ++ put_headers h in
  validate_framing (resp_headers resp) (wire_version (resp_version resp)) (Some (status resp)) = Ok tt ->
  response_has_body method (status resp) = true -> (f = SChunked -> wire_version (resp_version resp) = lit "HTTP/1.1") ->
  (f = SLength -> values (resp_headers resp) CL = [show_unsigned (len (concat pieces))]) -> (f = SClose -> rest = []) ->
  (forall l, response_line resp = l ++ CRLF -> 10 ∉ l) -> clean h -> Z.of_nat (length head) <= MAX_HEAD ->
  len (concat pieces) <= u64_max -> Forall (fun p => len p <= u64_max) pieces ->
  flowing (io c) -> stream c = encode_stream_head resp f ++ written_pieces pieces f ++ concat (write_end f).1 ++ rest ->
  exists c', read_head c = (c', Ok head) /\ flowing (io c') /\ validate_framing h (wire_version (resp_version resp)) (Some (status resp)) = Ok tt
    /\ exists fr, response_framing method (status resp) h = Ok fr /\ framed readable fr (stream c') (concat pieces) rest.
Proof.
  intros h head Hv Hb Hver Hcl Hrest Hline Hc Hm Hl Hp Hf Hs. apply validate_accepted in Hv.
  destruct (stream_headers_framed _ f _ method _ (concat pieces) Hv Hb Hver Hcl Hl) as [Ha Hfr]. fold h in Ha, Hfr.
  unfold encode_stream_head in Hs. fold h head in Hs. destruct (response_line_shape resp) as (line & Eline & Hlen). specialize (Hline line Eline).
  assert (Eh : head = line ++ CRLF ++ put_headers h) by (unfold head; by rewrite Eline, <- app_assoc). rewrite Eh in *.
  destruct (message_head_delivers line h _ Hlen Hline Hc Hm c Hf Hs) as (c' & E & Hf' & Es). exists c'. split; [exact E|]. split; [exact Hf'|].
  split; [by apply validate_accepted|]. eexists. split; [exact Hfr|]. rewrite Es. destruct f; cbn [framed write_end fst concat app].
  - by rewrite written_plain.
  - rewrite app_nil_r. by apply written_chunked.
  - rewrite (Hrest eq_refl), app_nil_r. by rewrite written_plain.
Qed.
End Out.

(** ** Concrete messages *)

Section Samples.
#[local] Instance sample_debug : StrDebug := {| debug_str := fun s => [34] ++ s ++ [34] |}.
(** A request whose placeholder was replaced after its length was declared, and the
    response to it, gzip-coded until the connection closes. *)
Definition sample_request : Request :=
  mkRequest (lit "POST") (lit "https") (lit "api.test") 443 (lit "/v1") (lit "HTTP/1.1")
    [(lit "Host", lit "api.test"); (lit "content-LENGTH", lit "9")] (lit "token=hunter-2").
Definition sample_response : Response := mkResponse 200 (lit "OK") (lit "HTTP/1.1") [(lit "Transfer-Encoding", lit "gzip")] (lit "xyz").
(** One byte at a time. *)
Definition drip (l : bytes) : Buffered := mkBuffered [] (map (fun b => Data [b]) l).
Lemma drip_flowing l : flowing (io (drip l)).
Proof. unfold drip, flowing. cbn [io]. induction l; constructor; done. Qed.
Lemma drip_stream l : stream (drip l) = l.
Proof. unfold drip, stream. cbn [buf io app]. induction l as [|b l IH]; [done|]. cbn [map]. by rewrite pieces_cons, IH. Qed.

Lemma request_delivered_witness :
  exists c', read_head (drip (concat (write_request sample_request) ++ lit "GET /"))
      = (c', Ok (lit "POST /v1 HTTP/1.1" ++ CRLF ++ lit "Host: api.test" ++ CRLF ++ lit "content-LENGTH: 14" ++ CRLF ++ CRLF))
    /\ framed readable (Length 14) (stream c') (lit "token=hunter-2") (lit "GET /").
Proof.
  destruct (request_delivered sample_request (drip (concat (write_request sample_request) ++ lit "GET /")) (lit "GET /"))
    as (c' & E & _ & _ & (f & Ef & Hf) & _).
  - by vm_compute.
  - apply (bool_decide_unpack _). by vm_compute.
  - unfold clean. apply (bool_decide_unpack _). by vm_compute.
  - by vm_compute.
  - by vm_compute.
  - apply drip_flowing.
  - apply drip_stream.
  - exists c'. split; [rewrite E; by vm_compute|]. assert (Ef' : request_framing (request_headers sample_request).1 = Ok (Length 14)) by (by vm_compute).
    rewrite Ef' in Ef. injection Ef as <-. exact Hf.
Defined.

Lemma response_delivered_witness :
  exists c', read_head (drip (concat (write_response sample_response (lit "GET"))))
      = (c', Ok (lit "HTTP/1.1 200 OK" ++ CRLF ++ lit "Transfer-Encoding: gzip" ++ CRLF ++ CRLF))
    /\ framed readable UntilEof (stream c') (lit "xyz") [].
Proof.
  destruct (response_delivered sample_response (lit "GET") (drip (concat (write_response sample_response (lit "GET")))) [])
    as (c' & E & _ & _ & (f & Ef & _ & Hf) & _).
  - by vm_compute.
  - intros l El. assert (l = lit "HTTP/1.1 200 OK") as ->.
    { assert (Eb : lit "HTTP/1.1 200 OK" ++ CRLF = l ++ CRLF) by (rewrite <- El; by vm_compute). by apply app_inv_tail in Eb. }
    apply (bool_decide_unpack _). by vm_compute.
  - unfold clean. apply (bool_decide_unpack _). by vm_compute.
  - by vm_compute.
  - by vm_compute.
  - apply drip_flowing.
  - rewrite drip_stream. by rewrite app_nil_r.
  - exists c'. split; [rewrite E; by vm_compute|].
    assert (Ef' : response_framing (lit "GET") 200 (response_headers sample_response (lit "GET")).1 = Ok UntilEof) by (by vm_compute).
    cbn [status sample_response] in Ef. rewrite Ef' in Ef. injection Ef as <-. apply Hf. by right.
Defined.

Lemma streamed_delivered_witness :
  let resp := mkResponse 200 (lit "OK") (lit "HTTP/1.1") [(lit "Content-Length", lit "5")] [] in
  let wire := encode_stream_head resp SChunked ++ written_pieces [lit "he"; []; lit "llo"] SChunked ++ concat (write_end SChunked).1 ++ lit "HTTP" in
  exists c', read_head (drip wire) = (c', Ok (lit "HTTP/1.1 200 OK" ++ CRLF ++ lit "transfer-encoding: chunked" ++ CRLF ++ CRLF))
    /\ framed readable Chunked (stream c') (lit "hello") (lit "HTTP").
Proof.
  intros resp wire.
  destruct (streamed_delivered resp (lit "GET") SChunked [lit "he"; []; lit "llo"] (drip wire) (lit "HTTP")) as (c' & E & _ & _ & fr & Ef & Hf).
  - by vm_compute.
  - by vm_compute.
  - by intros _; vm_compute.
  - done.
  - done.
  - intros l El. assert (l = lit "HTTP/1.1 200 OK") as ->.
    { assert (Eb : lit "HTTP/1.1 200 OK" ++ CRLF = l ++ CRLF) by (rewrite <- El; by vm_compute). by apply app_inv_tail in Eb. }
    apply (bool_decide_unpack _). by vm_compute.
  - unfold clean. apply (bool_decide_unpack _). by vm_compute.
  - by vm_compute.
  - by vm_compute.
  - repeat constructor; by vm_compute.
  - apply drip_flowing.
  - apply drip_stream.
  - exists c'. split; [rewrite E; by vm_compute|].
    assert (Ef' : response_framing (lit "GET") 200 (stream_headers (resp_headers resp) SChunked) = Ok Chunked) by (by vm_compute).
    cbn [status resp] in Ef. rewrite Ef' in Ef. injection Ef as <-. exact Hf.
Defined.
End Samples.
