(* ===== verification/Capture.v ===== *)
(** Capture of flows: the model of [agentcage-egress/src/capture.rs] - the
    settings and filters, the snapshots and entry lines, the file and its rotation,
    and the staged entries of the flows in flight. *)
From S2P Require Import Prelude Utf8 Json Value DateTime Inspect Message AuditLog.
From S2P Require ConfigValues Forms.
From Stdlib Require Import ZifyBool.

(** * Definitions *)

Definition DEFAULT_MAX_BODY_SIZE : Z := 10485760.
Definition DEFAULT_MAX_FILE_SIZE : Z := 134217728.
Definition WS_MAX_MESSAGES : Z := 4096.
Definition WS_DEFAULT_TOTAL : Z := 10485760.

(** ** Settings *)

Inductive MinAction : Type := MinAll | MinFlag | MinBlock.
Definition min_action_from_value (value : option Value) : MinAction :=
  match as_str value with
  | Some s =>
      if bool_decide (s = lit "flag") || bool_decide (s = lit "flagged") then MinFlag
      else if bool_decide (s = lit "block") || bool_decide (s = lit "blocked") then MinBlock
      else MinAll
  | None => MinAll
  end.
Definition min_level (m : MinAction) : Z := match m with MinAll => 0 | MinFlag => 1 | MinBlock => 2 end.
Definition decision_level (decision : str) : Z :=
  if bool_decide (decision = lit "flagged") then 1 else if bool_decide (decision = lit "blocked") then 2 else 0.

Inductive CaptureError : Type := InvalidSetting (key : str) | CaptureIo (e : str).
Record CaptureSettings : Type := mkSettings {
  max_body_size : Z; min_action : MinAction; cap_domains : list str; exclude_domains : list str; max_file_size : Z
}.
Definition default_settings : CaptureSettings := mkSettings DEFAULT_MAX_BODY_SIZE MinAll [] [] DEFAULT_MAX_FILE_SIZE.
Definition int_setting (section : Mapping) (key : string) (default : Z) : result CaptureError Z :=
  match mget section (lit key) with
  | None => Ok default
  | Some v => match ConfigValues.as_i64 (Some v) with Some i => Ok i | None => Err (InvalidSetting (lit key)) end
  end.
Definition from_section (section : Mapping) : result CaptureError CaptureSettings :=
  let! body := int_setting section "max_body_size" DEFAULT_MAX_BODY_SIZE in
  let! file := int_setting section "max_file_size" DEFAULT_MAX_FILE_SIZE in
  Ok (mkSettings body (min_action_from_value (mget section (lit "min_action"))) (str_list (mget section (lit "domains")))
        (str_list (mget section (lit "exclude_domains"))) (Z.max file 0)).

Definition domain_matches (pattern host : str) : bool :=
  bool_decide (host = pattern)
  || match ConfigValues.strip_suffix host pattern with Some rest => bool_decide (last rest = Some 46) | None => false end.
Definition captures_host (s : CaptureSettings) (host : str) : bool :=
  if negb (bool_decide (cap_domains s = [])) && negb (existsb (fun d => domain_matches d host) (cap_domains s)) then false
  else negb (existsb (fun d => domain_matches d host) (exclude_domains s)).
Definition should_capture (s : CaptureSettings) (decision host : str) : bool :=
  (min_level (min_action s) <=? decision_level decision) && captures_host s host.

(** ** Snapshots *)

Definition slice_prefix (content : bytes) (n : Z) : bytes :=
  if 0 <=? n then take (Z.to_nat n) content else take (length content - Z.to_nat (Z.abs n)) content.
Definition len_i64 (n : nat) : Z := Z.min i64_max (Z.of_nat n).
Definition headers_json (h : Headers) : Json := JArray (map (fun e => JArray [JStr e.1; JStr e.2]) (to_strings h)).

(** The text, its encoding, whether it was cut, and the size before. *)
Record Encoded : Type := mkEncoded { e_text : str; e_encoding : option str; e_truncated : bool; e_original : nat }.
Definition encode_kept `{Forms.Crates} (kept : bytes) (truncated : bool) (original : nat) : Encoded :=
  match from_utf8 kept with
  | Some text => mkEncoded text None truncated original
  | None => mkEncoded (Forms.b64_encode_std kept) (Some (lit "base64")) truncated original
  end.
Definition encode_body `{Forms.Crates} (s : CaptureSettings) (content : bytes) : Encoded :=
  let original := length content in
  let max := max_body_size s in
  if negb (max =? 0) && (max <? len_i64 original) then encode_kept (slice_prefix content max) true original
  else encode_kept content false original.
Definition fields (e : Encoded) : list (string * Json) * list (string * Json) :=
  ([("body", JStr (e_text e)); ("bodyEncoding", match e_encoding e with Some s => JStr s | None => JNull end);
    ("bodySize", JInt (len_i64 (e_original e)))]%string,
   if e_truncated e then [("bodyTruncated", JBool true); ("bodyOriginalSize", JInt (len_i64 (e_original e)))]%string else []).
Definition body_fields `{Forms.Crates} (s : CaptureSettings) (content : bytes) := fields (encode_body s content).
Definition streamed_prefix (s : CaptureSettings) : option nat :=
  if 0 <? max_body_size s then Some (Z.to_nat (max_body_size s)) else None.

Definition request_snapshot `{Forms.Crates} (s : CaptureSettings) (req : Request) (content : bytes) : Json :=
  let '(body, tail) := body_fields s content in
  object ([("method", JStr (method req)); ("url", JStr (url req)); ("httpVersion", JStr (http_version req));
           ("headers", headers_json (headers req))]%string ++ body ++ tail).
Definition response_json (resp : Response) (f : list (string * Json) * list (string * Json)) : Json :=
  object ([("status", JInt (status resp)); ("statusText", JStr (reason resp)); ("httpVersion", JStr (resp_version resp));
           ("headers", headers_json (resp_headers resp))]%string ++ f.1
          ++ [("mimeType", JStr (default [] (header_get (resp_headers resp) (lit "content-type"))))]%string ++ f.2).
Definition snapshot_response `{Forms.Crates} (s : CaptureSettings) (r : option (Response * bytes)) : Json :=
  match r with None => JObject [] | Some (resp, content) => response_json resp (body_fields s content) end.
Definition snapshot_streamed_response `{Forms.Crates} (s : CaptureSettings) (resp : Response) (kept : bytes) (total : nat) : Json :=
  let truncated := match streamed_prefix s with Some max => Nat.ltb max total | None => false end in
  let kept := match streamed_prefix s with Some max => take max kept | None => kept end in
  response_json resp (fields (encode_kept kept truncated total)).

(** ** Entries *)

(** A borrowed entry: two references to one snapshot are one value here. *)
Record EntryRef : Type := mkEntryRef {
  r_flow_id : str; r_direction : Direction; r_decision : Decision; r_host : str; r_method : str; r_path : str;
  r_inspectors : Json; r_inbound : Json * Json; r_outbound : Json * Json; r_ws_messages : list Json; r_ws_omitted : nat
}.
Record CaptureEntry : Type := mkEntry {
  flow_id : str; direction : Direction; decision : Decision; e_host : str; e_method : str; e_path : str; e_inspectors : Json;
  inbound_req : Json; inbound_resp : Json; outbound_req : Json; outbound_resp : Json;
  ws_messages : list Json; ws_messages_omitted : nat
}.
Definition as_ref (e : CaptureEntry) : EntryRef :=
  mkEntryRef (flow_id e) (direction e) (decision e) (e_host e) (e_method e) (e_path e) (e_inspectors e)
    (inbound_req e, inbound_resp e) (outbound_req e, outbound_resp e) (ws_messages e) (ws_messages_omitted e).

Section Entry.
Context `{F64Text}.
Definition head_fields (ts : DateTime) (e : EntryRef) : list (string * Json) :=
  [("ts", JStr (isoformat ts)); ("flow_id", JStr (r_flow_id e)); ("direction", JStr (direction_as_str (r_direction e)));
   ("decision", JStr (decision_as_str (r_decision e))); ("host", JStr (r_host e)); ("method", JStr (r_method e));
   ("path", JStr (r_path e)); ("inspectors", r_inspectors e)]%string.
Definition tail_fields (e : EntryRef) : list (string * Json) :=
  match r_ws_messages e with [] => [] | l => [("ws_messages"%string, JArray l)] end
  ++ (if Nat.eqb (r_ws_omitted e) 0 then [] else [("ws_messages_omitted"%string, JInt (len_i64 (r_ws_omitted e)))]).
(** The slices of one entry's write, in order. *)
Definition entry_pieces (ts : DateTime) (e : EntryRef) : list bytes :=
  let head := as_bytes (to_compact_string (object (head_fields ts e))) in
  let tail := match tail_fields e with
              | [] => lit "}" ++ [10]
              | l => [44] ++ drop 1 (as_bytes (to_compact_string (object l))) ++ [10]
              end in
  [take (length head - 1) head; lit "," ++ [34] ++ lit "inbound" ++ [34] ++ lit ":{" ++ [34] ++ lit "request" ++ [34] ++ lit ":";
   as_bytes (to_compact_string (r_inbound e).1); lit "," ++ [34] ++ lit "response" ++ [34] ++ lit ":";
   as_bytes (to_compact_string (r_inbound e).2);
   lit "}," ++ [34] ++ lit "outbound" ++ [34] ++ lit ":{" ++ [34] ++ lit "request" ++ [34] ++ lit ":";
   as_bytes (to_compact_string (r_outbound e).1); lit "," ++ [34] ++ lit "response" ++ [34] ++ lit ":";
   as_bytes (to_compact_string (r_outbound e).2); lit "}"; tail].
End Entry.

(** ** The writer *)

(** The files under the capture path, and how the calls of one write end. *)
Record Disk : Type := mkDisk { live_file : bytes; rotated_file : option bytes }.
Record FileIo : Type := mkIo { can_open : bool; write_ok : bool; short_write : bytes -> bytes; rename_ok : bool; reopen_ok : bool }.

Record WsBuffer : Type := mkBuffer { messages : list Json; data_bytes : Z; omitted : nat }.
Definition empty_buffer : WsBuffer := mkBuffer [] 0 0.
Record CaptureWriter : Type := mkCaptureWriter {
  settings : CaptureSettings; is_open : bool; size : Z; ws_buffers : gmap str WsBuffer; ws_total : Z
}.
(** [CaptureWriter::open], of a file that opened. *)
Definition open_writer (s : CaptureSettings) (d : Disk) : CaptureWriter :=
  mkCaptureWriter s true (Z.of_nat (length (live_file d))) ∅ (if max_body_size s =? 0 then WS_DEFAULT_TOTAL else max_body_size s).
Definition set_buffers (w : CaptureWriter) (b : gmap str WsBuffer) : CaptureWriter :=
  mkCaptureWriter (settings w) (is_open w) (size w) b (ws_total w).

Definition maybe_rotate (io : FileIo) (w : CaptureWriter) (d : Disk) : CaptureWriter * Disk :=
  let max := max_file_size (settings w) in
  if (max =? 0) || (size w <? max) then (w, d)
  else
    (mkCaptureWriter (settings w) (reopen_ok io) 0 (ws_buffers w) (ws_total w),
     if rename_ok io then mkDisk [] (Some (live_file d)) else d).
(** The last component: whether the write succeeded. *)
Definition write_ref `{F64Text} (io : FileIo) (ts : DateTime) (e : EntryRef) (w : CaptureWriter) (d : Disk)
  : CaptureWriter * Disk * bool :=
  let line := concat (entry_pieces ts e) in
  if negb (is_open w) && negb (can_open io) then (w, d, false)
  else
    let taken := if write_ok io then line else short_write io line in
    let d := mkDisk (live_file d ++ taken) (rotated_file d) in
    let w := mkCaptureWriter (settings w) true (size w) (ws_buffers w) (ws_total w) in
    if negb (write_ok io) then (w, d, false)
    else
      let w := mkCaptureWriter (settings w) true (size w + Z.of_nat (length line)) (ws_buffers w) (ws_total w) in
      (maybe_rotate io w d, true).
Definition write_entry `{F64Text} (io : FileIo) (ts : DateTime) (e : CaptureEntry) (w : CaptureWriter) (d : Disk) :=
  write_ref io ts (as_ref e) w d.

(** One WebSocket message as it is kept. *)
Definition ws_message `{Forms.Crates} (from_client is_text : bool) (content kept : bytes) (ts : str) (d : Decision) : Json :=
  let msg := object [("type", JStr (lit (if from_client then "send" else "receive"))); ("ts", JStr ts);
                     ("opcode", JInt (if is_text then 1 else 2))]%string in
  let msg :=
    if is_text then json_set msg (lit "data") (JStr (from_utf8_lossy kept))
    else match from_utf8 kept with
         | Some text => json_set msg (lit "data") (JStr text)
         | None => json_set (json_set msg (lit "data") (JStr (Forms.b64_encode_std kept))) (lit "dataEncoding") (JStr (lit "base64"))
         end in
  let msg :=
    if Nat.ltb (length kept) (length content)
    then json_set (json_set msg (lit "dataTruncated") (JBool true)) (lit "dataOriginalSize") (JInt (len_i64 (length content)))
    else msg in
  if bool_decide (d = Allowed) then msg else json_set msg (lit "decision") (JStr (decision_as_str d)).
Definition buffer_frame `{Forms.Crates} (max_body total : Z) (from_client is_text : bool) (content : bytes) (ts : str) (d : Decision) (buf : WsBuffer) : WsBuffer :=
  let room := total - data_bytes buf in
  if (WS_MAX_MESSAGES <=? Z.of_nat (length (messages buf))) || (room <=? 0)
  then mkBuffer (messages buf) (data_bytes buf) (S (omitted buf))
  else
    let kept := slice_prefix content (if max_body =? 0 then room else Z.min max_body room) in
    mkBuffer (messages buf ++ [ws_message from_client is_text content kept ts d]) (data_bytes buf + len_i64 (length kept)) (omitted buf).
Definition writer_ws_frame `{Forms.Crates} (flow : str) (from_client is_text : bool) (content : bytes) (ts : str) (d : Decision) (w : CaptureWriter)
  : CaptureWriter :=
  let buf := default empty_buffer (ws_buffers w !! flow) in
  set_buffers w (<[flow := buffer_frame (max_body_size (settings w)) (ws_total w) from_client is_text content ts d buf]> (ws_buffers w)).
Definition pop_ws_buffer (flow : str) (w : CaptureWriter) : CaptureWriter * (list Json * nat) :=
  (set_buffers w (delete flow (ws_buffers w)),
   match ws_buffers w !! flow with Some b => (messages b, omitted b) | None => ([], O) end).
Definition adopt_ws_buffers (w other : CaptureWriter) : CaptureWriter := set_buffers w (ws_buffers other ∪ ws_buffers w).

(** ** The pipeline's handle *)

Record FlowInfo : Type := mkInfo {
  f_id : str; f_direction : Direction; f_decision : Decision; f_host : str; f_method : str; f_path : str
}.
Record Pending : Type := mkPending { info : FlowInfo; inspectors : Json; request : Json; response : Json; is_websocket : bool }.
Definition set_decision (i : FlowInfo) (d : Decision) : FlowInfo :=
  mkInfo (f_id i) (f_direction i) d (f_host i) (f_method i) (f_path i).
Definition set_response (p : Pending) (r : Json) : Pending := mkPending (info p) (inspectors p) (request p) r (is_websocket p).
Definition entry (p : Pending) (messages : list Json) (omitted : nat) : EntryRef :=
  mkEntryRef (f_id (info p)) (f_direction (info p)) (f_decision (info p)) (f_host (info p)) (f_method (info p)) (f_path (info p))
    (inspectors p) (request p, response p) (request p, response p) messages omitted.

Inductive Reconfigured : Type := Unchanged | Disabled | Enabled.
(** The state behind the lock, with the files. *)
Record State : Type := mkCapture { writer : option CaptureWriter; section : option Mapping; pending : gmap str Pending; disk : Disk }.
Definition new_capture (d : Disk) : State := mkCapture None None ∅ d.
Definition set_pending (s : State) (p : gmap str Pending) : State := mkCapture (writer s) (section s) p (disk s).
Definition set_writer (s : State) (w : option CaptureWriter) : State := mkCapture w (section s) (pending s) (disk s).

(** The equality of [serde_norway]'s mappings. *)
Class MappingEq := { mapping_eqb : Mapping -> Mapping -> bool }.

Section Capture.
Context `{F64Text} `{Forms.Crates} `{MappingEq}.

Definition state_write (io : FileIo) (ts : DateTime) (e : EntryRef) (s : State) : State :=
  match writer s with
  | Some w => let '(w, d, _) := write_ref io ts e w (disk s) in mkCapture (Some w) (section s) (pending s) d
  | None => s
  end.

(** [has_path] is whether there is a capture path, [opened] whether the file
    opens. *)
Definition capture_section (cfg : Config) : Mapping := match cfg_get cfg (lit "capture") with Some (VMapping m) => m | _ => [] end.
Definition reconfigure (has_path : bool) (opened : result str unit) (cfg : Config) (s : State) : State * result CaptureError Reconfigured :=
  let section_ := capture_section cfg in
  if match section s with Some old => mapping_eqb old section_ | None => false end then (s, Ok Unchanged)
  else
    let enabled := match mget section_ (lit "enable_har") with Some v => truthy v | None => false end in
    if negb (has_path && enabled) then (mkCapture None (Some section_) ∅ (disk s), Ok Disabled)
    else
      match (let! settings := from_section section_ in
             match opened with Ok _ => Ok (open_writer settings (disk s)) | Err e => Err (CaptureIo e) end) with
      | Err e => (s, Err e)
      | Ok new =>
          let new := match writer s with Some old => adopt_ws_buffers new old | None => new end in
          (mkCapture (Some new) (Some section_) (pending s) (disk s), Ok Enabled)
      end.

Definition is_enabled (s : State) : bool := bool_decide (is_Some (writer s)).
Definition pending_len (s : State) : nat := base.size (pending s).
Definition capture_should (s : State) (d : Decision) (host : str) : bool :=
  match writer s with Some w => should_capture (settings w) (decision_as_str d) host | None => false end.
Definition snapshot_request (s : State) (req : Request) (content : bytes) : option Json :=
  option_map (fun w => request_snapshot (settings w) req content) (writer s).

Definition record_blocked_request (io : FileIo) (ts : DateTime) (flow : FlowInfo) (inspectors : Json) (req : Request * bytes)
    (response : option (Response * bytes)) (s : State) : State :=
  match writer s with
  | None => s
  | Some w =>
      if negb (should_capture (settings w) (decision_as_str Blocked) (f_host flow)) then s
      else
        let both := (request_snapshot (settings w) req.1 req.2, snapshot_response (settings w) response) in
        state_write io ts (mkEntryRef (f_id flow) (f_direction flow) Blocked (f_host flow) (f_method flow) (f_path flow) inspectors both both [] 0) s
  end.
Definition stage (flow : FlowInfo) (inspectors request : Json) (s : State) : State :=
  match writer s with
  | None => s
  | Some _ => set_pending s (<[f_id flow := mkPending flow inspectors request (JObject []) false]> (pending s))
  end.
Definition discard (flow : str) (s : State) : State := set_pending s (delete flow (pending s)).
Definition refresh_request (flow : str) (redacted : Request) (content : bytes) (s : State) : State :=
  match writer s, pending s !! flow with
  | Some w, Some p =>
      let i := mkInfo (f_id (info p)) (f_direction (info p)) (f_decision (info p)) (host redacted) (f_method (info p)) (path redacted) in
      set_pending s (<[flow := mkPending i (inspectors p) (request_snapshot (settings w) redacted content) (response p) (is_websocket p)]> (pending s))
  | _, _ => s
  end.
Definition finish_blocked_response (io : FileIo) (ts : DateTime) (flow : str) (more : Json) (response : Response * bytes) (s : State) : State :=
  match pending s !! flow with
  | None => s
  | Some p =>
      let s := set_pending s (delete flow (pending s)) in
      match writer s with
      | None => s
      | Some w =>
          let mine := match inspectors p, more with JArray mine, JArray more => JArray (mine ++ more) | mine, _ => mine end in
          let p := mkPending (set_decision (info p) Blocked) mine (request p) (snapshot_response (settings w) (Some response)) (is_websocket p) in
          state_write io ts (entry p [] 0) s
      end
  end.
Definition finish_response (io : FileIo) (ts : DateTime) (flow : str) (resp : Response * bytes) (websocket_upgrade : bool) (s : State) : State :=
  match pending s !! flow with
  | None => s
  | Some p =>
      let s := set_pending s (delete flow (pending s)) in
      match writer s with
      | None => s
      | Some w =>
          let snapshot := snapshot_response (settings w) (Some resp) in
          if websocket_upgrade then
            if captures_host (settings w) (f_host (info p))
            then set_pending s (<[flow := mkPending (info p) (inspectors p) (request p) snapshot true]> (pending s))
            else s
          else if should_capture (settings w) (decision_as_str (f_decision (info p))) (f_host (info p))
          then state_write io ts (entry (set_response p snapshot) [] 0) s
          else s
      end
  end.
Definition streamed_body_limit (flow : str) (s : State) : option (option nat) :=
  let? w := writer s in
  if bool_decide (is_Some (pending s !! flow)) then Some (streamed_prefix (settings w)) else None.
Definition finish_streamed_response (io : FileIo) (ts : DateTime) (flow : str) (resp : Response) (kept : bytes) (total : nat) (s : State) : State :=
  match pending s !! flow with
  | None => s
  | Some p =>
      let s := set_pending s (delete flow (pending s)) in
      match writer s with
      | None => s
      | Some w =>
          if should_capture (settings w) (decision_as_str (f_decision (info p))) (f_host (info p))
          then state_write io ts (entry (set_response p (snapshot_streamed_response (settings w) resp kept total)) [] 0) s
          else s
      end
  end.
Definition add_ws_frame (flow : str) (from_client is_text : bool) (recorded : bytes) (ts : str) (d : Decision) (s : State) : State :=
  match writer s, pending s !! flow with
  | Some w, Some p =>
      if negb (is_websocket p) then s
      else
        let p := mkPending (set_decision (info p) (decision_max (f_decision (info p)) d)) (inspectors p) (request p) (response p) (is_websocket p) in
        mkCapture (Some (writer_ws_frame flow from_client is_text recorded ts d w)) (section s) (<[flow := p]> (pending s)) (disk s)
  | _, _ => s
  end.
Definition release_locked (flow : str) (s : State) : State :=
  mkCapture (option_map (fun w => (pop_ws_buffer flow w).1) (writer s)) (section s) (delete flow (pending s)) (disk s).
Definition finish_websocket (io : FileIo) (ts : DateTime) (flow : str) (s : State) : State :=
  let s :=
    match writer s, pending s !! flow with
    | Some w, Some p =>
        if is_websocket p then
          let '(w, (messages, omitted)) := pop_ws_buffer flow w in
          let s := set_writer s (Some w) in
          if should_capture (settings w) (decision_as_str (f_decision (info p))) (f_host (info p))
          then state_write io ts (entry p messages omitted) s
          else s
        else s
    | _, _ => s
    end in
  release_locked flow s.
Definition release (io : FileIo) (ts : DateTime) (flow : str) (s : State) : State := finish_websocket io ts flow s.
End Capture.

(** [capture_inspectors]. *)
Definition capture_inspectors (redact : Json -> Json) (results : list Inspect.Verdict) : Json := redact (inspectors_json results).
