(* ===== verification/CaptureSpec.v ===== *)
(** What capture does: the line of an entry, the life of a flow's staged entry, and
    the bounds on what is held and written. *)
From S2P Require Import Prelude Utf8 Json Value DateTime Inspect Message AuditLog Capture.
From S2P Require ConfigValues Forms.
From Stdlib Require Import SpecFloat ZifyBool.

(** * The line of an entry *)

Section Lines.
Context `{F64Text}.

Definition pairs_text (l : list (str * Json)) : list str :=
  map (fun kv => write_string true kv.1 ++ [58] ++ to_compact_string kv.2) l.

Lemma compact_depth v n : write_value compact_dump n v = to_compact_string v.
Proof.
  revert n. enough (forall n m, write_value compact_dump n v = write_value compact_dump m v) as E by (intros n; apply E).
  induction v as [|b|i|d|f|s|items IH|pairs IH] using Json_nested_ind; intros n m; try reflexivity.
  - cbn [write_value]. destruct items as [|x items]; [reflexivity|]. f_equal. f_equal.
    f_equal. apply map_ext_Forall. rewrite Forall_forall in *. intros y Hy. by rewrite (IH y Hy (n + 1)%nat (m + 1)%nat).
  - cbn [write_value]. destruct pairs as [|x pairs]; [reflexivity|]. f_equal. f_equal. cbn [sort_keys compact_dump].
    f_equal. rewrite !map_map. apply map_ext_Forall. rewrite Forall_forall in *. intros y Hy. cbn [fst snd]. by rewrite (IH y Hy (n + 1)%nat (m + 1)%nat).
Qed.

Lemma compact_object l : to_compact_string (JObject l) = [123] ++ sep_concat [44] (pairs_text l) ++ [125].
Proof.
  unfold to_compact_string at 1, dumps. destruct l as [|x l]; [reflexivity|].
  cbn [write_value sort_keys compact_dump]. rewrite map_map. f_equal. f_equal. f_equal. apply map_ext. intros kv. cbn.
  by rewrite compact_depth.
Qed.

Lemma sep_concat_app sep a b : a <> [] -> b <> [] -> sep_concat sep (a ++ b) = sep_concat sep a ++ sep ++ sep_concat sep b.
Proof.
  intros Ha Hb. induction a as [|x a IH]; [done|]. destruct a as [|y a].
  { destruct b as [|z b]; [done|]. reflexivity. }
  cbn [app]. rewrite !sep_concat_cons. specialize (IH ltac:(done)). cbn [app] in IH. rewrite IH. by rewrite <- !app_assoc.
Qed.


Lemma take_but_last {A} (l : list A) x : take (length (l ++ [x]) - 1) (l ++ [x]) = l.
Proof. rewrite length_app. cbn [length]. rewrite Nat.add_sub. apply take_app_length. Qed.

(** The whole object of an entry, which is never built. *)
Definition entry_json (ts : DateTime) (e : EntryRef) : Json :=
  object (head_fields ts e
          ++ [("inbound", object [("request", (r_inbound e).1); ("response", (r_inbound e).2)]);
              ("outbound", object [("request", (r_outbound e).1); ("response", (r_outbound e).2)])]%string
          ++ tail_fields e).

(** The slices, as text. *)
Definition key_text (k : string) : str := [34] ++ lit k ++ [34] ++ [58].
Definition view_text (v : Json * Json) : str :=
  [123] ++ key_text "request" ++ to_compact_string v.1 ++ [44] ++ key_text "response" ++ to_compact_string v.2 ++ [125].
Definition tail_text (e : EntryRef) : str :=
  match tail_fields e with [] => [] | l => [44] ++ sep_concat [44] (pairs_text (map (fun e => (lit e.1, e.2)) l)) end.
Definition line_text (ts : DateTime) (e : EntryRef) : str :=
  [123] ++ sep_concat [44] (pairs_text (map (fun e => (lit e.1, e.2)) (head_fields ts e)))
  ++ [44] ++ key_text "inbound" ++ view_text (r_inbound e)
  ++ [44] ++ key_text "outbound" ++ view_text (r_outbound e) ++ tail_text e ++ [125].

Lemma view_object v : to_compact_string (object [("request"%string, v.1); ("response"%string, v.2)]) = view_text v.
Proof.
  unfold object. rewrite compact_object. unfold pairs_text, view_text. cbn [map fst snd sep_concat].
  assert (forall k, write_string true (lit k) = [34] ++ flat_map (write_char true) (lit k) ++ [34]) as Ek by reflexivity.
  rewrite !Ek. assert (flat_map (write_char true) (lit "request") = lit "request") as -> by reflexivity.
  assert (flat_map (write_char true) (lit "response") = lit "response") as -> by reflexivity.
  unfold key_text. by rewrite <- !app_assoc.
Qed.

Lemma entry_text ts e : to_compact_string (entry_json ts e) = line_text ts e.
Proof.
  unfold entry_json, object at 1. rewrite compact_object, !map_app. unfold pairs_text. rewrite !map_app.
  fold (pairs_text (map (fun e => (lit e.1, e.2)) (head_fields ts e))).
  rewrite sep_concat_app by done. unfold line_text. rewrite <- !app_assoc. f_equal. f_equal. f_equal.
  set (mid := map _ (map _ [_; _])).
  assert (Em : sep_concat [44] mid = key_text "inbound" ++ view_text (r_inbound e) ++ [44] ++ key_text "outbound" ++ view_text (r_outbound e)).
  { subst mid. cbn [map fst snd sep_concat]. rewrite !view_object.
    assert (write_string true (lit "inbound") = [34] ++ lit "inbound" ++ [34]) as -> by reflexivity.
    assert (write_string true (lit "outbound") = [34] ++ lit "outbound" ++ [34]) as -> by reflexivity.
    unfold key_text. by rewrite <- !app_assoc. }
  unfold tail_text. destruct (tail_fields e) as [|t0 tf]; cbn [map].
  - rewrite app_nil_r, Em. cbn [app]. by rewrite <- !app_assoc.
  - rewrite sep_concat_app by done. rewrite Em. unfold pairs_text. cbn [map]. by rewrite <- !app_assoc.
Qed.

Lemma pieces_text ts e : concat (entry_pieces ts e) = as_bytes (line_text ts e) ++ [10].
Proof.
  unfold entry_pieces, line_text, view_text. cbv zeta. unfold object at 1 2. rewrite compact_object.
  rewrite (app_assoc [123]), (as_bytes_app _ [125]). change (as_bytes [125]) with [125]. rewrite take_but_last.
  assert (as_bytes (key_text "inbound") = key_text "inbound") as Ei by reflexivity.
  assert (as_bytes (key_text "outbound") = key_text "outbound") as Eo by reflexivity.
  assert (as_bytes (key_text "request") = key_text "request") as Eq by reflexivity.
  assert (as_bytes (key_text "response") = key_text "response") as Er by reflexivity.
  cbn [concat]. rewrite !as_bytes_app, Ei, Eo, Eq, Er. unfold key_text, tail_text.
  change (as_bytes [123]) with [123]. change (as_bytes [44]) with [44]. change (as_bytes [125]) with [125].
  change (lit ",") with [44]. change (lit ":") with [58]. change (lit ":{") with ([58] ++ [123]). change (lit "},") with ([125] ++ [44]).
  change (lit "}") with [125].
  destruct (tail_fields e) as [|t0 tf].
  - rewrite app_nil_r. change (as_bytes []) with (@nil Z). rewrite ?app_nil_r.
    repeat progress (rewrite <- ?app_assoc; cbn [app]). reflexivity.
  - unfold object. rewrite compact_object, !as_bytes_app. change (as_bytes [123]) with [123]. change (as_bytes [125]) with [125].
    change (as_bytes [44]) with [44]. cbn [app drop]. rewrite ?drop_0, ?app_nil_r.
    repeat progress (rewrite <- ?app_assoc; cbn [app]). reflexivity.
Qed.

(** The slices written for an entry are the compact dump of its whole object,
    head, both views, WebSocket frames and all, and one line feed. *)
Theorem entry_line ts e : concat (entry_pieces ts e) = as_bytes (to_compact_string (entry_json ts e)) ++ [10].
Proof. rewrite entry_text. apply pieces_text. Qed.
End Lines.

(** * The life of a staged entry *)

Section Life.
Context `{F : F64Text} `{Cr : Forms.Crates} `{Eq : MappingEq}.

Definition total_of (s : CaptureSettings) : Z := if max_body_size s =? 0 then WS_DEFAULT_TOTAL else max_body_size s.
(** No WebSocket is open on the flow: it has had no 101. *)
Definition not_open (f : str) (s : State) : Prop := forall p, pending s !! f = Some p -> is_websocket p = false.

(** The calls of the pipeline: flow ids are fresh, and a flow has one response.
    [B] bounds the frame data a configuration allows a socket. *)
Inductive capture_step (B : Z) (s : State) : State -> Prop :=
| Reconfigures has_path opened cfg :
    (forall st, from_section (capture_section cfg) = Ok st -> total_of st <= B) ->
    capture_step B s (reconfigure has_path opened cfg s).1
| Records io ts flow l req resp : capture_step B s (record_blocked_request io ts flow l req resp s)
| Stages flow l req : pending s !! f_id flow = None -> capture_step B s (stage flow l req s)
| Discards f : not_open f s -> capture_step B s (discard f s)
| Refreshes f req content : capture_step B s (refresh_request f req content s)
| Blocks io ts f more resp : not_open f s -> capture_step B s (finish_blocked_response io ts f more resp s)
| Finishes io ts f resp upgrade : not_open f s -> capture_step B s (finish_response io ts f resp upgrade s)
| Streams io ts f resp kept total : not_open f s -> capture_step B s (finish_streamed_response io ts f resp kept total s)
| Frames f from_client is_text recorded ts d : capture_step B s (add_ws_frame f from_client is_text recorded ts d s)
| Releases io ts f : capture_step B s (release io ts f s).

Definition buffer_ok (B : Z) (b : WsBuffer) : Prop :=
  Z.of_nat (length (messages b)) <= WS_MAX_MESSAGES /\ 0 <= data_bytes b <= Z.max 0 B.
Definition buffers_ok (B : Z) (bufs : gmap str WsBuffer) (open : gmap str Pending) : Prop :=
  forall f b, bufs !! f = Some b -> buffer_ok B b /\ exists p, open !! f = Some p /\ is_websocket p = true.
Record capture_ok (B : Z) (s : State) : Prop := {
  ok_off : writer s = None -> pending s = ∅;
  ok_total : forall w, writer s = Some w -> ws_total w = total_of (settings w) /\ ws_total w <= B;
  ok_held : forall w, writer s = Some w -> buffers_ok B (ws_buffers w) (pending s)
}.

Lemma buffer_frame_ok B max_body c t content ts d b : (if max_body =? 0 then WS_DEFAULT_TOTAL else max_body) <= B ->
  buffer_ok B b -> buffer_ok B (buffer_frame max_body (if max_body =? 0 then WS_DEFAULT_TOTAL else max_body) c t content ts d b).
Proof.
  intros HB [Hm Hd]. unfold buffer_frame.
  destruct (Z.leb_spec WS_MAX_MESSAGES (Z.of_nat (length (messages b)))); cbn [orb]; [done|].
  set (room := _ - data_bytes b). destruct (Z.leb_spec room 0); [done|].
  set (limit := if max_body =? 0 then _ else _).
  assert (Hl : 0 <= limit <= room) by (subst limit room; destruct (Z.eqb_spec max_body 0); lia).
  assert (Z.of_nat (length (slice_prefix content limit)) <= limit).
  { unfold slice_prefix. destruct (Z.leb_spec 0 limit); [|lia]. rewrite length_take. lia. }
  unfold buffer_ok. cbn [messages data_bytes]. rewrite length_app. cbn [length]. unfold len_i64, i64_max.
  subst room. lia.
Qed.

(** A write changes neither what the writer is nor what it holds. *)
Lemma write_ref_keeps io ts e w d : let '(w', _, _) := write_ref io ts e w d in
  settings w' = settings w /\ ws_buffers w' = ws_buffers w /\ ws_total w' = ws_total w.
Proof.
  unfold write_ref, maybe_rotate. destruct (_ && _); [done|]. destruct (write_ok io); cbn [negb]; [|done].
  destruct (_ || _); done.
Qed.
Lemma state_write_writer io ts e s : match writer s with
  | None => state_write io ts e s = s
  | Some w => exists w', writer (state_write io ts e s) = Some w' /\ settings w' = settings w /\ ws_buffers w' = ws_buffers w
                /\ ws_total w' = ws_total w
  end /\ pending (state_write io ts e s) = pending s.
Proof.
  unfold state_write. destruct (writer s) as [w|] eqn:Ew; [|done].
  pose proof (write_ref_keeps io ts e w (disk s)) as Hk. destruct (write_ref _ _ _ _ _) as [[w' d'] ok]. cbn. split; [|done]. by exists w'.
Qed.

Lemma state_write_ok B io ts e s : capture_ok B s -> capture_ok B (state_write io ts e s).
Proof.
  intros [Ho Ht Hh]. destruct (state_write_writer io ts e s) as [Hw Hp]. split; rewrite ?Hp.
  - destruct (writer s); [destruct Hw as (w' & -> & _); done|]. intros _. by apply Ho.
  - intros w' E. destruct (writer s) as [w|] eqn:Ew.
    + destruct Hw as (w2 & E2 & Hs & _ & Hl). rewrite E in E2. injection E2 as <-. rewrite Hs, Hl. by apply Ht.
    + rewrite Hw, Ew in E. done.
  - intros w' E. destruct (writer s) as [w|] eqn:Ew.
    + destruct Hw as (w2 & E2 & _ & Hb & _). rewrite E in E2. injection E2 as <-. rewrite Hb. by apply Hh.
    + rewrite Hw, Ew in E. done.
Qed.

(** What the flows in flight become when one of them changes. *)
Lemma set_pending_ok B s pend : capture_ok B s -> (writer s = None -> pend = ∅) ->
  (forall f p, pending s !! f = Some p -> is_websocket p = true -> exists p', pend !! f = Some p' /\ is_websocket p' = true) ->
  capture_ok B (set_pending s pend).
Proof.
  intros [Ho Ht Hh] Hoff Hkeep. split; cbn; [done|exact Ht|]. intros w Ew f b Eb.
  destruct (Hh w Ew f b Eb) as [Hb (p & Ep & Hp)]. split; [done|]. by apply (Hkeep f p).
Qed.
Lemma delete_ok B s f : capture_ok B s -> not_open f s -> capture_ok B (set_pending s (delete f (pending s))).
Proof.
  intros Hok Hn. apply set_pending_ok; [done| |].
  - intros E. rewrite (ok_off B s Hok E). apply delete_empty.
  - intros g p Ep Hp. exists p. split; [|done]. rewrite lookup_delete_ne; [done|]. intros <-. rewrite (Hn p Ep) in Hp. done.
Qed.

Lemma capture_step_ok B s s' : capture_ok B s -> capture_step B s s' -> capture_ok B s'.
Proof.
  intros Hok Hstep. destruct Hstep as [hp op cfg HB|io ts flow l req resp|flow l req Hf|f Hn|f req content|io ts f more resp Hn
    |io ts f resp up Hn|io ts f resp kept total Hn|f c t rec ts d|io ts f].
  - unfold reconfigure. destruct (match section s with Some _ => _ | None => _ end); [done|].
    destruct (negb _); cbn [fst]; [by split|].
    destruct (from_section (capture_section cfg)) as [st|e] eqn:Es; cbn [result_bind]; [|done].
    destruct op; [|done]. cbn [fst]. specialize (HB st eq_refl). destruct (writer s) as [old|] eqn:Ew.
    + split; cbn; [done| |]; intros w [= <-]; cbn; [done|]. intros f b Eb. rewrite (right_id_L ∅ (∪) (ws_buffers old)) in Eb. by apply (ok_held B s Hok old Ew).
    + split; cbn; [done| |]; intros w [= <-]; cbn; [done|]. by intros f b Eb.
  - unfold record_blocked_request. destruct (writer s) as [w|]; [|done]. destruct (negb _); [done|]. by apply state_write_ok.
  - unfold stage. destruct (writer s) eqn:Ew; [|done]. apply set_pending_ok; [done|congruence|].
    intros g p Ep Hp. exists p. split; [|done]. rewrite lookup_insert_ne; congruence.
  - by apply delete_ok.
  - unfold refresh_request. destruct (writer s) eqn:Ew; [|done]. destruct (pending s !! f) as [p|] eqn:Ep; [|done].
    apply set_pending_ok; [done|congruence|]. intros g q Eq' Hq. destruct (decide (f = g)) as [->|Hne].
    + rewrite lookup_insert_eq. eexists. split; [reflexivity|]. cbn. congruence.
    + exists q. by rewrite lookup_insert_ne.
  - unfold finish_blocked_response. destruct (pending s !! f) as [p|]; [|done]. pose proof (delete_ok B s f Hok Hn) as Hd.
    cbn [writer set_pending]. destruct (writer s); [|done]. by apply state_write_ok.
  - unfold finish_response. destruct (pending s !! f) as [p|] eqn:Ep; [|done]. pose proof (delete_ok B s f Hok Hn) as Hd.
    cbn [writer set_pending]. destruct (writer s) eqn:Ew; [|done]. destruct up.
    + destruct (captures_host _ _); [|done]. apply set_pending_ok; [done|cbn; congruence|]. intros g q Eq' Hq. cbn in Eq'.
      destruct (decide (f = g)) as [->|Hne]; [by rewrite lookup_delete_eq in Eq'|].
      exists q. cbn. by rewrite lookup_insert_ne.
    + destruct (should_capture _ _ _); [|done]. by apply state_write_ok.
  - unfold finish_streamed_response. destruct (pending s !! f) as [p|]; [|done]. pose proof (delete_ok B s f Hok Hn) as Hd.
    cbn [writer set_pending]. destruct (writer s); [|done]. destruct (should_capture _ _ _); [|done]. by apply state_write_ok.
  - unfold add_ws_frame. destruct (writer s) as [w|] eqn:Ew; [|done]. destruct (pending s !! f) as [p|] eqn:Ep; [|done].
    destruct (is_websocket p) eqn:Hp; cbn [negb]; [|done]. destruct (ok_total B s Hok w Ew) as [Et Hb].
    split; cbn; [done| |]; intros w' [= <-]; cbn; [done|]. intros g b Eb.
    destruct (decide (f = g)) as [<-|Hne].
    + rewrite lookup_insert_eq in Eb. injection Eb as <-. rewrite lookup_insert_eq. split; [|by eexists].
      unfold total_of in *. rewrite Et in *. apply buffer_frame_ok; [done|].
      destruct (ws_buffers w !! f) as [b0|] eqn:E0; [by apply (ok_held B s Hok w Ew f)|]. cbn. unfold buffer_ok. cbn. unfold WS_MAX_MESSAGES. lia.
    + rewrite lookup_insert_ne in Eb by done. rewrite lookup_insert_ne by done. by apply (ok_held B s Hok w Ew).
  - unfold release, finish_websocket.
    assert (Hrel : forall s0, (forall w, writer s0 = Some w -> ws_total w = total_of (settings w) /\ ws_total w <= B) ->
      (writer s0 = None -> pending s0 = ∅) ->
      (forall w, writer s0 = Some w -> buffers_ok B (delete f (ws_buffers w)) (pending s0)) -> capture_ok B (release_locked f s0)).
    { intros s0 Ht Ho Hh. unfold release_locked. split; cbn.
      - destruct (writer s0); cbn; [done|]. intros _. rewrite Ho by done. apply delete_empty.
      - intros w. destruct (writer s0) as [w0|] eqn:Ew0; cbn; [|done]. intros [= <-]. by apply (Ht w0).
      - intros w. destruct (writer s0) as [w0|] eqn:Ew0; cbn; [|done]. intros [= <-]. cbn. intros g b Eb.
        destruct (Hh w0 eq_refl g b Eb) as [Hb (p & Ep & Hp)]. split; [done|]. exists p. split; [|done].
        rewrite lookup_delete_ne; [done|]. intros <-. by rewrite lookup_delete_eq in Eb. }
    assert (Hheld : forall w, writer s = Some w -> buffers_ok B (delete f (ws_buffers w)) (pending s)).
    { intros w Ew g b [_ Eb]%lookup_delete_Some. by apply (ok_held B s Hok w Ew). }
    assert (Hbase : capture_ok B (release_locked f s)) by (apply Hrel; [apply Hok|apply Hok|exact Hheld]).
    destruct (writer s) as [w|] eqn:Ew; [|done]. destruct (pending s !! f) as [p|] eqn:Ep; [|done].
    destruct (is_websocket p); [|done]. cbn [pop_ws_buffer settings set_buffers].
    set (s0 := set_writer s (Some (set_buffers w (delete f (ws_buffers w))))).
    assert (H0 : capture_ok B s0).
    { split; cbn; [done| |]; intros w' [= <-]; cbn; [by apply Hok|by apply Hheld]. }
    assert (H1 : forall s1, capture_ok B s1 -> capture_ok B (release_locked f s1)).
    { intros s1 Hs1. apply Hrel; [apply Hs1|apply Hs1|]. intros w1 Ew1 g b [_ Eb]%lookup_delete_Some. by apply (ok_held B s1 Hs1 w1 Ew1). }
    destruct (match ws_buffers w !! f with Some _ => _ | None => _ end) as [messages omitted].
    destruct (should_capture _ _ _); apply H1; [by apply state_write_ok|done].
Qed.

Lemma release_forgets io ts f s : let s' := release io ts f s in
  pending s' !! f = None /\ forall w, writer s' = Some w -> ws_buffers w !! f = None.
Proof.
  unfold release, finish_websocket, release_locked. cbn. split; [by rewrite lookup_delete_eq|].
  set (s0 := match writer s with Some _ => _ | None => _ end). intros w. destruct (writer s0) as [w0|]; cbn; [|done].
  intros [= <-]. cbn. by rewrite lookup_delete_eq.
Qed.

(** C26: Whatever the flows, the reloads and the order of the calls: frames are only
    held for a WebSocket whose entry is still open, at most 4096 of them and never
    more bytes than the configurations allow; nothing is held while capture is off;
    and once a flow is released nothing of it is left, neither entry nor frames. *)
Theorem capture_bounded B d s : rtc (capture_step B) (new_capture d) s ->
  (forall w f b, writer s = Some w -> ws_buffers w !! f = Some b ->
     (exists p, pending s !! f = Some p /\ is_websocket p = true)
     /\ Z.of_nat (length (messages b)) <= WS_MAX_MESSAGES /\ 0 <= data_bytes b <= Z.max 0 B)
  /\ (writer s = None -> pending s = ∅)
  /\ forall io ts f, let s' := release io ts f s in
       pending s' !! f = None /\ forall w, writer s' = Some w -> ws_buffers w !! f = None.
Proof.
  intros Hr. assert (Hok : capture_ok B s).
  { refine (rtc_ind_r (fun s => capture_ok B s) (new_capture d) _ _ s Hr); [by split|].
    intros s1 s2 _ Hstep H1. by apply (capture_step_ok B s1). }
  split; [|split; [apply Hok|intros io ts f; apply release_forgets]].
  intros w f b Ew Eb. destruct (ok_held B s Hok w Ew f b Eb) as [Hb Hp]. by split.
Qed.

(** * A WebSocket, from its 101 to its end *)

(** A frame: from the client, text, its recorded content, its time, its decision. *)
Abbreviation Frame := (bool * bool * bytes * str * Decision)%type.
Definition add_frames (f : str) (l : list Frame) (s : State) : State :=
  fold_left (fun s '(c, t, content, ts, d) => add_ws_frame f c t content ts d s) l s.
Definition buffer_frames (st : CaptureSettings) (l : list Frame) (b : WsBuffer) : WsBuffer :=
  fold_left (fun b '(c, t, content, ts, d) => buffer_frame (max_body_size st) (total_of st) c t content ts d b) l b.
Definition worst (d : Decision) (l : list Frame) : Decision := fold_left (fun d (x : Frame) => decision_max d x.2) l d.

Lemma worst_rank d l : decision_rank (worst d l) = fold_left (fun n (x : Frame) => Z.max n (decision_rank x.2)) l (decision_rank d).
Proof.
  revert d. induction l as [|x l IH]; intros d; [done|]. cbn [worst fold_left] in *. fold (worst (decision_max d x.2) l). rewrite IH. f_equal.
  unfold decision_max. destruct (Z.leb_spec (decision_rank d) (decision_rank x.2)); lia.
Qed.
Lemma buffer_frames_count st l b : Z.of_nat (length (messages (buffer_frames st l b)) + omitted (buffer_frames st l b))
  = Z.of_nat (length (messages b) + omitted b + length l).
Proof.
  revert b. induction l as [|[[[[c t] content] ts] d] l IH]; intros b; cbn [buffer_frames fold_left length]; [lia|].
  fold (buffer_frames st l (buffer_frame (max_body_size st) (total_of st) c t content ts d b)). rewrite IH.
  unfold buffer_frame. destruct (_ || _); cbn [messages omitted]; rewrite ?length_app; cbn [length]; lia.
Qed.

(** The state with a WebSocket open on [f], holding [b]. *)
Definition opened (s : State) (w : CaptureWriter) (f : str) (p : Pending) (b : option WsBuffer) : State :=
  mkCapture (Some (set_buffers w (match b with Some b => <[f := b]> (ws_buffers w) | None => ws_buffers w end)))
    (section s) (<[f := p]> (pending s)) (disk s).
Definition at_decision (p : Pending) (d : Decision) : Pending :=
  mkPending (set_decision (info p) d) (inspectors p) (request p) (response p) (is_websocket p).

Lemma add_frames_opened s w f p b l : is_websocket p = true -> ws_total w = total_of (settings w) -> ws_buffers w !! f = None -> l <> [] ->
  add_frames f l (opened s w f p b)
  = opened s w f (at_decision p (worst (f_decision (info p)) l)) (Some (buffer_frames (settings w) l (default empty_buffer b))).
Proof.
  intros Hp Ht Hn. revert p b Hp. induction l as [|[[[[c t] content] ts] d] l IH]; intros p b Hp Hl; [done|].
  change (add_frames f ((c, t, content, ts, d) :: l) (opened s w f p b)) with (add_frames f l (add_ws_frame f c t content ts d (opened s w f p b))).
  assert (E : add_ws_frame f c t content ts d (opened s w f p b)
    = opened s w f (at_decision p (decision_max (f_decision (info p)) d))
        (Some (buffer_frame (max_body_size (settings w)) (total_of (settings w)) c t content ts d (default empty_buffer b)))).
  { unfold add_ws_frame, opened. cbn [writer pending]. rewrite lookup_insert_eq, Hp. cbn [negb]. unfold writer_ws_frame. cbn [settings ws_buffers set_buffers ws_total].
    rewrite Ht. destruct b as [b|]; rewrite ?lookup_insert_eq, ?Hn, ?insert_insert_eq; unfold at_decision, set_buffers; cbn; by rewrite ?Hp. }
  rewrite E. destruct l as [|y l].
  { unfold buffer_frames, worst, at_decision. cbn. done. }
  rewrite IH by done. f_equal.
Qed.

(** C27: A WebSocket's entry: staged with its request, kept open by the 101, written
    once when the socket ends, whatever ends it - with both HTTP halves, every frame
    kept or counted, and the worst decision of the request and the frames, to which
    the filters are applied - and then forgotten, the rest of the state untouched. *)
Theorem websocket_entry io0 ts0 io ts f p w s resp l :
  writer s = Some w -> ws_total w = total_of (settings w) -> ws_buffers w !! f = None ->
  pending s !! f = Some p -> f_id (info p) = f -> captures_host (settings w) (f_host (info p)) = true ->
  let d := worst (f_decision (info p)) l in
  let b := buffer_frames (settings w) l empty_buffer in
  let p' := mkPending (set_decision (info p) d) (inspectors p) (request p) (snapshot_response (settings w) (Some resp)) true in
  let line := write_ref io ts (entry p' (messages b) (omitted b)) w (disk s) in
  (length (messages b) + omitted b)%nat = length l
  /\ release io ts f (add_frames f l (finish_response io0 ts0 f resp true s))
     = if min_level (min_action (settings w)) <=? decision_level (decision_as_str d)
       then mkCapture (Some line.1.1) (section s) (delete f (pending s)) line.1.2
       else mkCapture (Some w) (section s) (delete f (pending s)) (disk s).
Proof.
  intros Ew Ht Hn Ep Hid Hh d b p' line. split.
  { pose proof (buffer_frames_count (settings w) l empty_buffer) as Hc. cbn in Hc. subst b. lia. }
  set (p0 := mkPending (info p) (inspectors p) (request p) (snapshot_response (settings w) (Some resp)) true).
  assert (E0 : finish_response io0 ts0 f resp true s = opened s w f p0 None).
  { unfold finish_response, opened. rewrite Ep. cbn. rewrite Ew, Hh. unfold set_pending. cbn. rewrite Ew, insert_delete_eq. by destruct w. }
  rewrite E0.
  assert (E1 : exists b0, add_frames f l (opened s w f p0 None) = opened s w f p' b0 /\ default empty_buffer b0 = b).
  { destruct l as [|x l].
    - exists None. split; [|done]. subst p' d. cbn. unfold opened, set_decision. destruct p as [i0 ? ? ? ?]; destruct i0; done.
    - eexists. split; [by apply add_frames_opened|]. done. }
  destruct E1 as (b0 & -> & Eb). unfold release, finish_websocket, opened. cbn [writer pending]. rewrite lookup_insert_eq. cbn [is_websocket p'].
  assert (Epop : pop_ws_buffer f (set_buffers w match b0 with Some b1 => <[f:=b1]> (ws_buffers w) | None => ws_buffers w end) = (w, (messages b, omitted b))).
  { unfold pop_ws_buffer, set_buffers. cbn. destruct b0 as [b1|]; cbn in Eb.
    - rewrite lookup_insert_eq, delete_insert_id, Eb by done. by destruct w.
    - rewrite Hn, delete_id by done. destruct w. by rewrite <- Eb. }
  rewrite Epop. unfold should_capture. cbn [info p' f_decision f_host set_decision]. rewrite Hh, andb_true_r.
  destruct (_ <=? _); unfold state_write, set_writer; cbn [writer disk section pending].
  - fold line. pose proof (write_ref_keeps io ts (entry p' (messages b) (omitted b)) w (disk s)) as Hk. fold line in Hk.
    destruct line as [[w' d'] ok]. destruct Hk as (_ & Hk & _). unfold release_locked. cbn.
    rewrite Hk, delete_id, delete_insert_eq by done. rewrite <- Hk. by destruct w'.
  - unfold release_locked. cbn. rewrite delete_id, delete_insert_eq by done. by destruct w.
Qed.
End Life.

(** * Instances *)

Section CaptureInstances.
Let F : F64Text := sample_f64.
Let Cr : Forms.Crates := Forms.model_crates.
Let Eq : MappingEq := {| mapping_eqb := fun _ _ => false |}.
#[local] Existing Instances F Cr Eq.
Let io : FileIo := mkIo true true id true true.
Let ts : DateTime := mkDateTime 0 (Some 0).
Let cfg : Config := mkConfig (VMapping [(VString (lit "capture"), VMapping [(VString (lit "enable_har"), VBool true)])]).
Let flow : FlowInfo := mkInfo (lit "f1") Outbound Allowed (lit "a.com") (lit "GET") (lit "/").
Let upgrade : Response := mkResponse 101 [] (lit "HTTP/1.1") [] [].
Let s1 : State := (reconfigure true (Ok tt) cfg (new_capture (mkDisk [] None))).1.
Let s2 : State := stage flow (JArray []) (JObject []) s1.
Let w2 : CaptureWriter := open_writer default_settings (mkDisk [] None).

Lemma websocket_entry_witness :
  (release io ts (lit "f1") (add_frames (lit "f1") [(true, true, lit "hi", lit "t", Flagged)] (finish_response io ts (lit "f1") (upgrade, []) true s2))).(pending)
  = ∅.
Proof.
  destruct (websocket_entry io ts io ts (lit "f1") (mkPending flow (JArray []) (JObject []) (JObject []) false) w2 s2 (upgrade, [])
    [(true, true, lit "hi", lit "t", Flagged)] eq_refl eq_refl eq_refl eq_refl eq_refl eq_refl) as [_ ->].
  vm_compute. reflexivity.
Defined.

Lemma capture_bounded_witness : writer s2 <> None.
Proof.
  assert (Hr : rtc (capture_step WS_DEFAULT_TOTAL) (new_capture (mkDisk [] None)) s2).
  { apply rtc_l with s1; [|apply rtc_once].
    - apply Reconfigures. assert (from_section (capture_section cfg) = Ok default_settings) as -> by (vm_compute; reflexivity).
      intros st [= <-]. vm_compute. congruence.
    - apply Stages. reflexivity. }
  pose proof (capture_bounded WS_DEFAULT_TOTAL (mkDisk [] None) s2 Hr) as [_ [Hoff _]].
  intros E. specialize (Hoff E). assert (Hen : is_enabled s2 = true) by (vm_compute; reflexivity).
  unfold is_enabled in Hen. by rewrite E in Hen.
Defined.
End CaptureInstances.
