(* ===== verification/Limits.v ===== *)
(** Memory limits: the [egress:] section of [agentcage-core/src/config/egress.rs]
    and its application to the running transport in
    [agentcage-egress/src/limits.rs]. *)
From S2P Require Import Prelude Value.
From S2P Require ConfigValues Budget.
From Stdlib Require Import ZifyBool.

(** * Definitions *)

Definition MIB : Z := 1024 * 1024.
Definition GIB : Z := 1024 * MIB.
Definition DEFAULT_MAX_BODY_BYTES : Z := 256 * MIB.
Definition DEFAULT_BODY_BUDGET_BYTES : Z := GIB.
Definition MIN_BYTES : Z := MIB.
Definition MAX_BODY_BUDGET_BYTES : Z := 64 * GIB.
Definition BASE_ADDRESS_SPACE : Z := 2 * GIB.
Definition ADDRESS_SPACE_HEADROOM : Z := GIB.
Definition KEYS : list str := map lit ["max_body_bytes"; "body_budget_bytes"]%string.

Record EgressConfig : Type := mkEgress { max_body_bytes : Z; body_budget_bytes : Z }.
Definition default_egress : EgressConfig := mkEgress DEFAULT_MAX_BODY_BYTES DEFAULT_BODY_BUDGET_BYTES.

(** The text of a number is [serde_norway]'s. *)
Class NumberText := { number_to_string : Number -> str }.

Section Limits.
Context `{StrDebug} `{NumberText}.

Definition kind (value : Value) : str :=
  lit (match value with
       | VNull => "null" | VBool _ => "bool" | VNumber _ => "number" | VString _ => "string" | VSequence _ => "list"
       | VMapping _ => "mapping" | VTagged _ _ => "tagged value"
       end).
Definition shown (value : Value) : str :=
  match value with
  | VBool b => if b then lit "true" else lit "false"
  | VNumber n => number_to_string n
  | VString s => debug_str s
  | other => kind other
  end.
Definition describe_key (key : Value) : str := match key with VString s => debug_str s | other => shown other end.

(** The first key that is not one of the two. *)
Fixpoint unknown_key (m : Mapping) : option Value :=
  match m with
  | [] => None
  | (key, _) :: r => if existsb (fun k => bool_decide (k = default [] (as_str (Some key)))) KEYS then unknown_key r else Some key
  end.
Definition read_bytes (m : Mapping) (key : str) (default max : Z) : result str Z :=
  match mget m key with
  | None => Ok default
  | Some value =>
      match (match value with VNumber n => ConfigValues.number_as_u64 n | _ => None end) with
      | None => Err (lit "egress." ++ key ++ lit " must be a whole number of bytes (got " ++ shown value ++ lit ")")
      | Some n =>
          if negb ((MIN_BYTES <=? n) && (n <=? max)) then
            Err (lit "egress." ++ key ++ lit " must be between " ++ show_unsigned MIN_BYTES ++ lit " (1 MiB) and "
                 ++ show_unsigned max ++ lit " bytes (got " ++ show_unsigned n ++ lit ")")
          else Ok n
      end
  end.
Definition from_mapping (m : Mapping) : result str EgressConfig :=
  match unknown_key m with
  | Some key => Err (lit "egress: unknown key " ++ describe_key key ++ lit " (known: " ++ sep_concat (lit ", ") KEYS ++ lit ")")
  | None =>
      let! max_body := read_bytes m (lit "max_body_bytes") DEFAULT_MAX_BODY_BYTES MAX_BODY_BUDGET_BYTES in
      let! budget := read_bytes m (lit "body_budget_bytes") DEFAULT_BODY_BUDGET_BYTES MAX_BODY_BUDGET_BYTES in
      if budget <? max_body then
        Err (lit "egress.body_budget_bytes (" ++ show_unsigned budget ++ lit ") must be at least egress.max_body_bytes ("
             ++ show_unsigned max_body ++ lit "): one body as large as the cap would never fit in the budget")
      else Ok (mkEgress max_body budget)
  end.
Definition from_yaml (value : option Value) : result str EgressConfig :=
  match value with
  | None | Some VNull => Ok default_egress
  | Some (VMapping m) => from_mapping m
  | Some other => Err (lit "egress must be a mapping (got " ++ kind other ++ lit ")")
  end.
End Limits.

Definition address_space_bytes (c : EgressConfig) : Z :=
  Z.max BASE_ADDRESS_SPACE (saturating_add u64_max (body_budget_bytes c) ADDRESS_SPACE_HEADROOM).

(** ** The running transport *)

Record Overrides : Type := mkOverrides { o_max_body : option Z; o_body_budget : option Z }.
(** The cap new requests meet, the budget they share, what the environment pins,
    and the address-space limit of the process. *)
Record TransportLink : Type := mkLink { max_body : Z; budget : Budget.BodyBudget; overrides : Overrides; address_space : option Z }.
Definition to_usize (n : Z) : Z := Z.min n usize_max.
(** The budget a config gets, and whether it was cut. *)
Definition budget_for (l : TransportLink) (wanted : Z) : Z * bool :=
  match option_map (fun limit => saturating_sub limit ADDRESS_SPACE_HEADROOM) (address_space l) with
  | Some room => if room <? wanted then (room, true) else (wanted, false)
  | None => (wanted, false)
  end.
Definition clamp_note (l : TransportLink) (wanted room : Z) : str :=
  lit "egress.body_budget_bytes " ++ show_unsigned wanted ++ lit " does not fit the egress's address-space limit of "
  ++ show_unsigned (default 0 (address_space l)) ++ lit " bytes (set when it started); using " ++ show_unsigned room
  ++ lit " until the egress restarts".
Definition apply_limits (l : TransportLink) (limits : EgressConfig) : TransportLink * list str :=
  let max_body := match o_max_body (overrides l) with None => to_usize (max_body_bytes limits) | Some _ => max_body l end in
  match o_body_budget (overrides l) with
  | Some _ => (mkLink max_body (budget l) (overrides l) (address_space l), [])
  | None =>
      let wanted := body_budget_bytes limits in
      let '(granted, cut) := budget_for l wanted in
      (mkLink max_body (Budget.set_limit (budget l) (to_usize granted)).1 (overrides l) (address_space l),
       if cut then [clamp_note l wanted granted] else [])
  end.
(** [loaded]: what the file at the path gives, [None] without one. *)
Definition address_space_for `{StrDebug} `{NumberText} (loaded : option (result str Config)) (body_budget : option Z) : result str Z :=
  let! limits := match loaded with
                 | Some r => let! cfg := r in from_yaml (cfg_get cfg (lit "egress"))
                 | None => Ok default_egress
                 end in
  Ok (address_space_bytes (match body_budget with Some b => mkEgress (max_body_bytes limits) b | None => limits end)).

(** * Theorems *)

Definition limits_ok (c : EgressConfig) : Prop :=
  MIN_BYTES <= max_body_bytes c /\ max_body_bytes c <= body_budget_bytes c /\ body_budget_bytes c <= MAX_BODY_BUDGET_BYTES.

Section Theorems.
Context `{StrDebug} `{NumberText}.

Lemma read_bytes_range m key default max n : MIN_BYTES <= default <= max -> read_bytes m key default max = Ok n -> MIN_BYTES <= n <= max.
Proof.
  intros Hd. unfold read_bytes. destruct (mget m key) as [v|]; [|by intros [= <-]].
  destruct (match v with VNumber n => _ | _ => None end) as [k|]; [|done].
  destruct (negb _) eqn:E; [done|]. intros [= <-]. apply negb_false_iff, andb_true_iff in E. lia.
Qed.

Lemma from_yaml_ok v c : from_yaml v = Ok c -> limits_ok c.
Proof.
  assert (Hdef : limits_ok default_egress) by (repeat split; vm_compute; congruence).
  destruct v as [[| | | | |m|]|]; cbn [from_yaml]; try discriminate; try (by intros [= <-]).
  unfold from_mapping. destruct (unknown_key m); [done|].
  destruct (read_bytes m (lit "max_body_bytes") _ _) as [a|e] eqn:Ea; cbn [result_bind]; [|done].
  destruct (read_bytes m (lit "body_budget_bytes") _ _) as [b|e] eqn:Eb; cbn [result_bind]; [|done].
  apply read_bytes_range in Ea; [|split; vm_compute; congruence]. apply read_bytes_range in Eb; [|split; vm_compute; congruence].
  destruct (Z.ltb_spec b a); [done|]. intros [= <-]. unfold limits_ok. cbn. lia.
Qed.

(** C29: An accepted [egress:] section is in range and has room for its largest
    body; applying it leaves what the environment pins, what is held and the
    reservations alone, and never grants a budget that does not fit the process's
    address space beside its headroom - the whole budget, without a note, exactly
    when it fits, as it does in a process started for that config. *)
Theorem limits_sound v c l : from_yaml v = Ok c -> 0 <= default 0 (address_space l) <= u64_max ->
  let '(l', notes) := apply_limits l c in
  limits_ok c
  /\ max_body l' = (match o_max_body (overrides l) with Some _ => max_body l | None => max_body_bytes c end)
  /\ overrides l' = overrides l /\ address_space l' = address_space l /\ Budget.used (budget l') = Budget.used (budget l)
  /\ match o_body_budget (overrides l) with
     | Some _ => budget l' = budget l /\ notes = []
     | None =>
         Budget.limit (budget l') <= body_budget_bytes c
         /\ (notes = [] <-> Budget.limit (budget l') = body_budget_bytes c)
         /\ match address_space l with
            | None => notes = []
            | Some a => (Budget.limit (budget l') = 0 \/ Budget.limit (budget l') + ADDRESS_SPACE_HEADROOM <= a)
                        /\ (address_space_bytes c <= a -> notes = [])
            end
     end.
Proof.
  intros Hc Ha. pose proof (from_yaml_ok v c Hc) as Hok. clear Hc. destruct Hok as (H1 & H2 & H3).
  assert (Hm : MIN_BYTES = 1048576) by reflexivity. assert (HM : MAX_BODY_BUDGET_BYTES = 68719476736) by reflexivity.
  assert (Hh : ADDRESS_SPACE_HEADROOM = 1073741824) by reflexivity.
  assert (Hb : BASE_ADDRESS_SPACE = 2147483648) by reflexivity.
  assert (Hu : usize_max = 18446744073709551615) by reflexivity. assert (Hu' : u64_max = 18446744073709551615) by reflexivity.
  unfold apply_limits. assert (Em : to_usize (max_body_bytes c) = max_body_bytes c) by (unfold to_usize; lia). rewrite Em.
  destruct (o_body_budget (overrides l)); [by repeat split|].
  unfold budget_for. destruct (address_space l) as [a|]; cbn [option_map from_option id] in *.
  - unfold saturating_sub. set (room := if a <? ADDRESS_SPACE_HEADROOM then 0 else a - ADDRESS_SPACE_HEADROOM).
    assert (Hr : (room = 0 \/ room + ADDRESS_SPACE_HEADROOM <= a) /\ 0 <= room <= u64_max
                 /\ (address_space_bytes c <= a -> body_budget_bytes c <= room)).
    { subst room. unfold address_space_bytes, saturating_add. destruct (Z.ltb_spec a ADDRESS_SPACE_HEADROOM);
        destruct (Z.ltb_spec u64_max (body_budget_bytes c + ADDRESS_SPACE_HEADROOM)); lia. }
    clearbody room. destruct Hr as (Hr1 & Hr2 & Hr3).
    destruct (Z.ltb_spec room (body_budget_bytes c)); cbn [max_body budget overrides address_space Budget.set_limit fst Budget.limit Budget.used];
      unfold to_usize.
    + rewrite Z.min_l by lia. split_and!; try done; try lia. split; [done|lia].
    + rewrite Z.min_l by lia. split_and!; try done; lia.
  - cbn [max_body budget overrides address_space Budget.set_limit fst Budget.limit Budget.used]. unfold to_usize. rewrite Z.min_l by lia. split_and!; try done; lia.
Qed.
End Theorems.

Section LimitsInstances.
#[local] Instance sample_debug : StrDebug := {| debug_str := fun s => s |}.
#[local] Instance sample_numbers : NumberText := {| number_to_string := fun _ => [] |}.
Let section_ : option Value := Some (VMapping [(VString (lit "body_budget_bytes"), VNumber (NInt 4294967296))]).
Let link : TransportLink := mkLink 0 (Budget.mkBudget 0 0) (mkOverrides None None) (Some 2147483648).
Lemma limits_sound_witness : Budget.limit (budget (apply_limits link (mkEgress 268435456 4294967296)).1) <= 4294967296.
Proof.
  pose proof (limits_sound section_ (mkEgress 268435456 4294967296) link eq_refl ltac:(vm_compute; split; congruence)) as Hs.
  destruct (apply_limits link _) as [l' notes] eqn:E. cbv beta iota in Hs. apply Hs.
Defined.
End LimitsInstances.
