(* ===== verification/Transport.v ===== *)
(** What the transport and the pipeline tell each other: the types and the pure
    functions of [agentcage-egress/src/proxy/mod.rs]. *)
From S2P Require Import Prelude Utf8 Domain Message.
From S2P Require Url H1 FormsSplit.
From Stdlib Require Import ZifyBool.

(** * Definitions *)

Inductive ListenerKind : Type := Regular | Transparent | Reverse.
Inductive Direction : Type := Outbound | Inbound.
Record ServerAddr : Type := mkServer { a_host : str; a_port : Z }.
Definition display (a : ServerAddr) : str := a_host a ++ [58] ++ show_unsigned (a_port a).

Record ConnInfo : Type := mkConn {
  id : Z; listener : ListenerKind; client_addr : IpAddr * Z; local_addr : IpAddr * Z; server_addr : option ServerAddr;
  via_connect : bool; sni : option str; tls : bool; alpn : option bytes
}.
Definition direction (c : ConnInfo) : Direction := match listener c with Reverse => Inbound | _ => Outbound end.
Definition non_empty (s : option str) : option str := let? t := s in if bool_decide (t = []) then None else Some t.
Definition bypass_target (c : ConnInfo) : str :=
  match non_empty (sni c) with
  | Some sni => sni
  | None =>
      match server_addr c with
      | Some addr => if bool_decide (a_host addr = []) then lit "<unknown>" else display addr
      | None => lit "<unknown>"
      end
  end.

Inductive RequestAction (F : Type) : Type := Forward (f : F) | Respond (r : Response).
Arguments Forward {F} f.
Arguments Respond {F} r.

Record WsMessage : Type := mkWs { from_client : bool; is_text : bool; content : bytes }.
Inductive WsVerdict : Type := WsForward | WsDrop.
Inductive FlowEnd : Type := Completed | WebSocketClosed | Aborted (reason : str).
Inductive Refusal : Type := ForwardPort (host : str) (port : Z) | RequestBodyTooLarge (limit : Z) | BodyBudgetExhausted (limit : Z).
Inductive UpstreamError : Type :=
| Refused (reason : str)
| Resolve (host error : str)
| Connect (target error : str)
| Tls (error : str)
| Protocol (error : str)
| ResponseBodyTooLarge (limit : Z)
| BudgetExhausted (limit : Z).
Definition error_text (e : UpstreamError) : str :=
  match e with
  | Refused reason => lit "connection refused by policy: " ++ reason
  | Resolve host error => lit "cannot resolve " ++ host ++ lit ": " ++ error
  | Connect target error => lit "cannot connect to " ++ target ++ lit ": " ++ error
  | Tls error => lit "upstream TLS handshake failed: " ++ error
  | Protocol error => lit "upstream protocol error: " ++ error
  | ResponseBodyTooLarge limit => lit "response body exceeds the " ++ show_unsigned limit ++ lit "-byte limit"
  | BudgetExhausted limit =>
      lit "the egress is already buffering its " ++ show_unsigned limit ++ lit "-byte budget of bodies; retry later"
  end.
Definition error_status (e : UpstreamError) : Z := match e with BudgetExhausted _ => 503 | _ => 502 end.

Inductive ConnectPurpose : Type := Http | Passthrough.
Record ConnectTarget : Type := mkTarget { t_host : str; t_port : Z; t_sni : option str; purpose : ConnectPurpose }.
Inductive ConnectDecision : Type := Allow (addresses : list IpAddr) | Refuse (reason : str).
Inductive StreamOutcome : Type := StreamCompleted | UpstreamFailed (reason : str) | StreamRefused (reason : str) | ClientGone.

(** ** Responses and authorities *)

Definition make_response (status : Z) (hs : list (str * str)) (body : bytes) : Response :=
  let list_ := fold_left (fun h e => header_add h (as_bytes e.1) (as_bytes e.2)) hs [] in
  mkResponse status (H1.reason_phrase status) (lit "HTTP/1.1")
    (header_add list_ (lit "content-length") (show_unsigned (Z.of_nat (length body)))) body.

Definition parse_u16 (s : str) : option Z := parse_unsigned 65535 s.
Definition parse_authority (authority : str) : str * option Z :=
  match Url.strip_char 91 authority with
  | Some rest =>
      match split_once 93 rest with
      | Some (host, tail) =>
          if bool_decide (tail = []) then (host, None)
          else match (let? p := Url.strip_char 58 tail in parse_u16 p) with
               | Some port => (host, Some port)
               | None => (authority, None)
               end
      | None => (authority, None)
      end
  | None =>
      match Url.rsplit_once 58 authority with
      | Some (host, port) =>
          if negb (bool_decide (58 ∈ host)) && negb (bool_decide (host = [])) then
            match parse_u16 port with Some port => (host, Some port) | None => (authority, None) end
          else (authority, None)
      | None => (authority, None)
      end
  end.
Definition host_port (scheme host : str) (port : Z) : str :=
  let host := bracketed host in
  if is_default_port scheme port then host else host ++ [58] ++ show_unsigned port.

Definition with_host (r : Request) (h : str) : Request :=
  mkRequest (method r) (scheme r) h (port r) (path r) (http_version r) (headers r) (body r).
Definition with_headers (r : Request) (h : Headers) : Request :=
  mkRequest (method r) (scheme r) (host r) (port r) (path r) (http_version r) h (body r).
Definition with_body (r : Request) (b : bytes) : Request :=
  mkRequest (method r) (scheme r) (host r) (port r) (path r) (http_version r) (headers r) b.
(** The request, and whether its host changed. *)
Definition retarget_to_host (req : Request) : Request * bool :=
  match host_header req with
  | None => (req, false)
  | Some header =>
      let '(name, _) := parse_authority header in
      if bool_decide (name = host req) then (req, false)
      else
        let req := with_host req name in
        (if header_contains (headers req) (lit "host")
         then with_headers req (header_set (headers req) (lit "Host") (as_bytes (host_port (scheme req) (host req) (port req))))
         else req, true)
  end.

(** ** Passthrough *)

Record PassthroughMatcher : Type := mkMatcher { domains : list str }.
Definition no_passthrough : PassthroughMatcher := mkMatcher [].
Definition new_matcher (domains : list str) : PassthroughMatcher := mkMatcher (map (map ascii_lower) domains).
Definition matcher_is_empty (m : PassthroughMatcher) : bool := bool_decide (domains m = []).
(** The candidate without its port. *)
Definition strip_port (candidate : str) : str :=
  match Url.rsplit_once 58 candidate with
  | Some (host, port) => if negb (bool_decide (port = [])) && forallb is_ascii_digit (as_bytes port) then host else candidate
  | None => candidate
  end.
Definition under (host d : str) : bool :=
  let '(hb, db) := (as_bytes host, as_bytes d) in
  bool_decide (host = d)
  || (Nat.ltb (length db + 1) (length hb) && starts_with (rev hb) (rev db) && (nth (length hb - length db - 1) hb 0 =? 46)).
Definition matches (m : PassthroughMatcher) (candidate : str) : bool :=
  let host := strip_port (map ascii_lower candidate) in existsb (under host) (domains m).

(** ** Addresses as text *)

(** The 16-bit groups, and [Display] of [std::net::Ipv6Addr]: the first longest
    run of zero groups, of two at least, is left out. *)
Definition segments (a : Z) : list Z := map (fun i => Z.land (Z.shiftr a (112 - 16 * i)) 65535) [0; 1; 2; 3; 4; 5; 6; 7].
Fixpoint longest_zeroes (l : list Z) (i : nat) (current longest : nat * nat) : nat * nat :=
  match l with
  | [] => longest
  | s :: l =>
      if s =? 0 then
        let current := (if Nat.eqb current.2 0 then i else current.1, S current.2) in
        longest_zeroes l (S i) current (if Nat.ltb longest.2 current.2 then current else longest)
      else longest_zeroes l (S i) (0%nat, 0%nat) longest
  end.
Definition show_groups (l : list Z) : str := sep_concat [58] (map show_hex l).
Definition show_ipv6 (a : Z) : str :=
  match to_ipv4_mapped a with
  | Some v4 => lit "::ffff:" ++ show_ipv4 v4
  | None =>
      let groups := segments a in
      let '(start, n) := longest_zeroes groups 0 (0%nat, 0%nat) (0%nat, 0%nat) in
      if Nat.ltb 1 n then show_groups (take start groups) ++ lit "::" ++ show_groups (drop (start + n) groups)
      else show_groups groups
  end.
Definition show_ip (ip : IpAddr) : str := match ip with V4 a => show_ipv4 a | V6 a => show_ipv6 a end.

(** * Theorems *)

(** ** Text and bytes *)

Lemma as_bytes_inj a b : Forall scalar a -> Forall scalar b -> as_bytes a = as_bytes b -> a = b.
Proof. intros Ha Hb E. apply (f_equal from_utf8) in E. rewrite !from_utf8_as_bytes in E by done. by injection E. Qed.

(** An ASCII byte of a text is one of its characters. *)
Lemma as_bytes_split h xs b ys : b < 128 -> as_bytes h = xs ++ b :: ys ->
  exists p q, h = p ++ b :: q /\ as_bytes p = xs /\ as_bytes q = ys.
Proof.
  intros Hb. revert xs. induction h as [|c h IH]; intros xs E; [by destruct xs|].
  change (as_bytes (c :: h)) with (utf8_char c ++ as_bytes h) in E.
  destruct (Z.lt_ge_cases c 128) as [Hc|Hc].
  - rewrite utf8_char_ascii in E by done. destruct xs as [|x xs]; cbn [app] in E.
    + injection E as -> E. exists [], h. done.
    + injection E as -> E. destruct (IH xs E) as (p & q & -> & <- & <-). exists (x :: p), q. split; [done|]. split; [|done].
      change (as_bytes (x :: p)) with (utf8_char x ++ as_bytes p). by rewrite utf8_char_ascii.
  - pose proof (FormsSplit.utf8_char_high_bytes c Hc) as Hh.
    assert (exists xs', xs = utf8_char c ++ xs' /\ as_bytes h = xs' ++ b :: ys) as (xs' & -> & E').
    { revert xs E. induction Hh as [|x l Hx Hl IHl]; intros xs E; cbn [app] in *; [by exists xs|].
      destruct xs as [|y xs]; cbn [app] in E; injection E as -> E; [lia|].
      destruct (IHl xs E) as (xs' & -> & E'). by exists xs'. }
    destruct (IH xs' E') as (p & q & -> & <- & <-). exists (c :: p), q. done.
Qed.

Lemma as_bytes_length a : (length a <= length (as_bytes a))%nat.
Proof.
  induction a as [|c a IH]; [done|]. change (as_bytes (c :: a)) with (utf8_char c ++ as_bytes a). rewrite length_app. cbn [length].
  enough (0 < length (utf8_char c))%nat by lia. unfold utf8_char. repeat case_goal; cbn; lia.
Qed.
Lemma as_bytes_nonempty a : a <> [] -> as_bytes a <> [].
Proof. intros Ha E. pose proof (as_bytes_length a). rewrite E in *. destruct a; [done|cbn in *; lia]. Qed.

(** ** Passthrough *)

Lemma under_spec host d : Forall scalar host -> Forall scalar d ->
  under host d = true <-> host = d \/ exists p, p <> [] /\ host = p ++ [46] ++ d.
Proof.
  intros Hh Hd. unfold under. rewrite orb_true_iff, !andb_true_iff, bool_decide_eq_true, Nat.ltb_lt, Z.eqb_eq, starts_with_prefix.
  apply or_iff_compat_l. split.
  - intros [[Hlen (r & Er)] Hdot]. apply (f_equal (@rev Z)) in Er. rewrite rev_app_distr, !rev_involutive in Er.
    rewrite Er, length_app in Hlen. destruct (rev r) as [|x xs _] eqn:Ex using rev_ind; [cbn in *; lia|].
    rewrite Er, !length_app in Hdot. cbn [length] in Hdot. rewrite length_app in Hlen. cbn [length] in Hlen.
    replace (length xs + 1 + length (as_bytes d) - length (as_bytes d) - 1)%nat with (length xs) in Hdot by lia.
    rewrite <- app_assoc, app_nth2, Nat.sub_diag in Hdot by lia. cbn in Hdot. subst x.
    rewrite <- app_assoc in Er. destruct (as_bytes_split host xs 46 (as_bytes d) ltac:(lia) Er) as (p & q & -> & Hp & Hq).
    apply Forall_app in Hh as [_ [_ Hq']%Forall_cons]. apply as_bytes_inj in Hq as ->; [|done..].
    exists p. split; [|done]. intros ->. cbn in Hp. subst xs. cbn in Hlen. lia.
  - intros (p & Hp & ->). rewrite as_bytes_app. change (as_bytes ([46] ++ d)) with (46 :: as_bytes d).
    pose proof (as_bytes_length p). destruct p as [|c p]; [done|]. rewrite !length_app. cbn [length] in *. split_and!; [lia| |].
    + exists (rev (as_bytes (c :: p) ++ [46])). rewrite <- rev_app_distr. by rewrite <- app_assoc.
    + rewrite app_nth2 by lia. replace (_ - _ - _ - _)%nat with 0%nat by lia. done.
Qed.

Lemma split_once_some c s a b : split_once c s = Some (a, b) -> s = a ++ c :: b /\ (c ∉ a).
Proof.
  unfold split_once. revert a. induction s as [|x s IH]; intros a; cbn [span]; [done|].
  destruct (Z.eqb_spec x c) as [->|Hx]; cbn [negb].
  - intros [= <- <-]. split; [done|by apply not_elem_of_nil].
  - destruct (span _ s) as [a' [|y r]]; [done|]. intros [= <- <-]. destruct (IH a' eq_refl) as [-> Ha].
    split; [done|]. rewrite not_elem_of_cons. done.
Qed.
Lemma rsplit_once_some c s a b : Url.rsplit_once c s = Some (a, b) -> s = a ++ c :: b /\ (c ∉ b).
Proof.
  unfold Url.rsplit_once. destruct (split_once c (rev s)) as [[x y]|] eqn:E; [|done]. intros [= <- <-].
  apply split_once_some in E as [Er Hx]. apply (f_equal (@rev Z)) in Er. rewrite rev_involutive, rev_app_distr in Er.
  cbn [rev] in Er. rewrite <- app_assoc in Er. split; [exact Er|]. by rewrite list_elem_of_In, <- in_rev, <- list_elem_of_In.
Qed.

Definition all_digits (s : str) : Prop := s <> [] /\ Forall (fun c => is_ascii_digit c = true) s.
Lemma digits_bytes s : forallb is_ascii_digit (as_bytes s) = true <-> Forall (fun c => is_ascii_digit c = true) s.
Proof.
  rewrite forallb_forall, Forall_forall. setoid_rewrite <- list_elem_of_In. split.
  - intros Hb. assert (He : as_bytes s = s).
    { apply as_bytes_ascii_inv, Forall_forall. intros b Hin. specialize (Hb b Hin). unfold is_ascii_digit, in_range in Hb. lia. }
    by rewrite He in Hb.
  - intros Hd. rewrite as_bytes_ascii; [done|]. apply Forall_forall. intros c Hc. specialize (Hd c Hc).
    unfold is_ascii_digit, in_range in Hd. lia.
Qed.

(** The host of a candidate and what follows it. *)
Definition port_tail (tail : str) : Prop := tail = [] \/ exists digits, tail = 58 :: digits /\ all_digits digits.
Lemma strip_port_spec c : exists tail, c = strip_port c ++ tail /\ port_tail tail.
Proof.
  unfold strip_port, port_tail. destruct (Url.rsplit_once 58 c) as [[h port]|] eqn:E; [|exists []; rewrite app_nil_r; auto].
  apply rsplit_once_some in E as [Ec _]. destruct (negb (bool_decide (port = [])) && _) eqn:Ed; [|exists []; rewrite app_nil_r; auto].
  apply andb_true_iff in Ed as [Hne Hd]. exists (58 :: port). split; [done|]. right. exists port. split; [done|].
  split; [|by apply digits_bytes]. intros ->. done.
Qed.
(** A name, or a name under one, is what is left of it with its port. *)
Lemma strip_port_unique p d tail : 58 ∉ d -> port_tail tail -> (p = [] \/ exists q, p = q ++ [46]) -> strip_port ((p ++ d) ++ tail) = p ++ d.
Proof.
  intros Hd [->|(digits & -> & Hne & Hg)] Hp; unfold strip_port.
  - rewrite app_nil_r. destruct (Url.rsplit_once 58 (p ++ d)) as [[a b]|] eqn:E; [|done].
    apply rsplit_once_some in E as [E Hb]. destruct Hp as [->|(q & ->)]; [exfalso; apply Hd; cbn in E; rewrite E; set_solver|].
    destruct (negb (bool_decide (b = [])) && forallb is_ascii_digit (as_bytes b)) eqn:Eb; [|done]. exfalso.
    apply andb_true_iff in Eb as [_ Eb%digits_bytes]. rewrite <- app_assoc in E. cbn [app] in E.
    assert (Hin : 46 ∈ b).
    { clear - E Hd Hb. revert a E. induction q as [|x q IH]; intros a E; cbn [app] in E.
      - destruct a as [|y a]; cbn [app] in E; injection E as E1 E2; [done|]. exfalso. apply Hd. rewrite E2. set_solver.
      - destruct a as [|y a]; cbn [app] in E; injection E as E1 E2; [rewrite <- E2; set_solver|]. by apply (IH a). }
    rewrite Forall_forall in Eb. by specialize (Eb 46 Hin).
  - assert (Hn : 58 ∉ digits) by (intros Hin; rewrite Forall_forall in Hg; by specialize (Hg 58 Hin)).
    rewrite Url.rsplit_once_app by done. rewrite bool_decide_eq_false_2 by done. cbn [negb andb].
    by rewrite (proj2 (digits_bytes digits) Hg).
Qed.

Lemma lower_scalar s : Forall scalar s -> Forall scalar (map ascii_lower s).
Proof.
  intros Hs. apply Forall_map. eapply Forall_impl; [exact Hs|]. intros c. unfold scalar, ascii_lower, is_ascii_uppercase, in_range. cbv beta.
  destruct (_ && _) eqn:E; [|done]. intros. lia.
Qed.
Lemma lower_no_colon s : 58 ∉ s -> 58 ∉ map ascii_lower s.
Proof.
  intros Hs Hin. apply list_elem_of_fmap in Hin as (c & Ec & Hc). unfold ascii_lower, is_ascii_uppercase, in_range in Ec.
  destruct (_ && _) eqn:E in Ec; [lia|]. by subst c.
Qed.

(** The name test: up to ASCII case and an optional port, a configured domain or a
    name under one, on a label boundary. *)
Definition passes (ds : list str) (c : str) : Prop :=
  exists d host tail, d ∈ ds /\ map ascii_lower c = host ++ tail /\ port_tail tail
    /\ (host = map ascii_lower d \/ exists p, p <> [] /\ host = p ++ [46] ++ map ascii_lower d).
Lemma passes_matches ds c : Forall scalar c -> Forall (fun d => Forall scalar d /\ (58 ∉ d)) ds ->
  matches (new_matcher ds) c = true <-> passes ds c.
Proof.
  intros Hc Hds. pose proof (lower_scalar c Hc) as Hl. rewrite Forall_forall in Hds.
  unfold matches. cbn [domains new_matcher]. rewrite existsb_exists. setoid_rewrite <- list_elem_of_In. split.
  - intros (dl & Hin & Hu). apply list_elem_of_fmap in Hin as (d & -> & Hd). destruct (strip_port_spec (map ascii_lower c)) as (tail & E & Ht).
    exists d, (strip_port (map ascii_lower c)), tail. split_and!; [done..|]. apply under_spec; [|by apply lower_scalar, Hds|done].
    rewrite E in Hl. by apply Forall_app in Hl as [Hl _].
  - intros (d & host & tail & Hd & E & Ht & Hh). exists (map ascii_lower d). split; [by apply list_elem_of_fmap_2|].
    destruct (Hds d Hd) as [Hs Hn]. apply lower_no_colon in Hn.
    assert (strip_port (map ascii_lower c) = host) as ->.
    { rewrite E. destruct Hh as [->|(p & _ & ->)]; [by apply (strip_port_unique []); [..|left]|].
      rewrite (app_assoc p). apply strip_port_unique; eauto. }
    apply under_spec; [|by apply lower_scalar|done]. rewrite E in Hl. by apply Forall_app in Hl as [Hl _].
Qed.

(** ** Re-targeting *)

(** A host an authority can spell: the parser gives it back. *)
Definition clean (name : str) : Prop := name <> [] /\ (91 ∉ name) /\ (93 ∉ name) /\ Forall scalar name.

Lemma show_u16 n : 0 <= n <= 65535 -> parse_u16 (show_unsigned n) = Some n.
Proof.
  intros Hn. destruct (decide (n = 0)) as [->|]; [reflexivity|]. apply Url.show_port. lia.
Qed.
Lemma show_no n c : 0 <= n -> is_ascii_digit c = false -> c ∉ show_unsigned n.
Proof.
  intros Hn Hc Hin. destruct (show_unsigned_spec n Hn) as [Hd _]. rewrite Forall_forall in Hd. specialize (Hd c Hin). congruence.
Qed.

Lemma parse_host_port sch name n : clean name -> 0 <= n <= 65535 ->
  parse_authority (host_port sch name n) = (name, if is_default_port sch n then None else Some n).
Proof.
  intros (Hne & Ho & Hcl & _) Hn. unfold host_port, bracketed, parse_authority. case_bool_decide as Hcolon.
  - destruct (is_default_port sch n); cbn [app Url.strip_char Z.eqb Pos.eqb].
    + rewrite split_once_app by done. rewrite bool_decide_eq_true_2; done.
    + rewrite <- app_assoc. cbn [app]. rewrite split_once_app by done. rewrite bool_decide_eq_false_2 by done.
      cbn [Url.strip_char Z.eqb Pos.eqb]. by rewrite show_u16.
  - destruct name as [|c name]; [done|]. assert (Hc : c <> 91) by set_solver.
    assert (Hmatch : forall l, Url.strip_char 91 (c :: l) = None) by (intros l; apply Url.strip_char_none; cbn; congruence).
    destruct (is_default_port sch n).
    + rewrite Hmatch. destruct (Url.rsplit_once 58 (c :: name)) as [[a b]|] eqn:E; [|done].
      apply rsplit_once_some in E as [E _]. exfalso. apply Hcolon. rewrite E. set_solver.
    + cbn [app]. rewrite Hmatch. change (c :: name ++ 58 :: show_unsigned n) with ((c :: name) ++ 58 :: show_unsigned n).
      rewrite Url.rsplit_once_app by (apply show_no; [lia|done]). rewrite bool_decide_eq_false_2, bool_decide_eq_false_2 by done.
      cbn [negb andb]. by rewrite show_u16.
Qed.

Lemma host_port_scalar sch name n : Forall scalar name -> 0 <= n -> Forall scalar (host_port sch name n).
Proof.
  intros Hs Hn. assert (Hb : Forall scalar (bracketed name)).
  { unfold bracketed. case_bool_decide; [|done]. repeat (apply Forall_app; split); try done; repeat constructor; unfold scalar; lia. }
  unfold host_port. destruct (is_default_port sch n); [done|]. apply Forall_app. split; [done|]. constructor; [unfold scalar; lia|].
  eapply Forall_impl; [apply (show_unsigned_spec n Hn)|]. intros c. unfold is_ascii_digit, in_range, scalar. lia.
Qed.

Lemma header_get_set h n m v : same_name n m = true -> Forall scalar v -> header_get (header_set h n (as_bytes v)) m = Some v.
Proof.
  intros Hs Hv. unfold header_get, get_all.
  assert (E : map (fun e : bytes * bytes => from_utf8_lossy e.2) (List.filter (named m) (header_set h n (as_bytes v))) = [v]).
  { rewrite <- (map_map snd from_utf8_lossy). rewrite (filter_ext (named m) (named n)).
    - unfold header_set. rewrite set_all_self. cbn. by rewrite from_utf8_lossy_as_bytes.
    - intros e. unfold named, same_name in *. rewrite (eq_ignore_sym e.1 (as_bytes m)), (eq_ignore_sym e.1 (as_bytes n)).
      symmetry. by apply eq_ignore_trans. }
  by rewrite E.
Qed.

(** Re-targeting moves an outbound request to the name its Host header gives
    and to nothing else: the port, the path, the body and every other header stay;
    afterwards the Host header, if there is one, spells the host the request goes
    to, so a second re-targeting changes nothing. *)
Theorem retarget_spec req : let '(req', changed) := retarget_to_host req in
  (changed = false -> req' = req)
  /\ host req' = (match host_header req with Some h => (parse_authority h).1 | None => host req end)
  /\ (method req', scheme req', port req', path req', http_version req', body req')
     = (method req, scheme req, port req, path req, http_version req, body req)
  /\ (forall n, same_name (lit "host") n = false -> List.filter (named n) (headers req') = List.filter (named n) (headers req))
  /\ forall h, host_header req = Some h -> clean (parse_authority h).1 -> 0 <= port req <= 65535 ->
       (exists h', host_header req' = Some h' /\ (parse_authority h').1 = host req') /\ retarget_to_host req' = (req', false).
Proof.
  unfold retarget_to_host at 1. destruct (host_header req) as [h|] eqn:Eh; [|by split_and!].
  destruct (parse_authority h) as [name p] eqn:Ep. cbn [fst].
  assert (Hstay : forall r h', host_header r = Some h' -> (parse_authority h').1 = host r -> retarget_to_host r = (r, false)).
  { intros r h' E1 E2. unfold retarget_to_host. rewrite E1. destruct (parse_authority h') as [m q]. cbn in E2. by rewrite bool_decide_eq_true_2. }
  case_bool_decide as Hn.
  { split_and!; [done..|]. intros h1 [= <-] _ _. assert (Hh : exists h', host_header req = Some h' /\ (parse_authority h').1 = host req).
    { exists h. rewrite Ep. by split. }
    split; [done|]. apply (Hstay req h Eh). by rewrite Ep. }
  assert (Hc : header_contains (headers (with_host req name)) (lit "host") = true).
  { change (headers (with_host req name)) with (headers req). unfold host_header, header_get, get_all in Eh.
    unfold header_contains. apply existsb_exists. destruct (List.filter (named (lit "host")) (headers req)) as [|e l] eqn:Ef; [done|]. exists e.
    apply (filter_In (named (lit "host"))). rewrite Ef. by left. }
  rewrite Hc. split_and!; [done..| |].
  - intros n Hs. cbn [headers with_headers with_host]. apply set_all_other. unfold same_name in *.
    rewrite (eq_ignore_trans (as_bytes (lit "Host")) (as_bytes (lit "host")) (as_bytes n)); [exact Hs|reflexivity].
  - intros h1 [= <-] Hcl Hp. rewrite Ep in Hcl. cbn [fst] in Hcl.
    match goal with |- context [retarget_to_host ?r] => set (req' := r) end.
    assert (E : host_header req' = Some (host_port (scheme req) name (port req))).
    { subst req'. unfold host_header. cbn [headers with_headers]. apply header_get_set; [reflexivity|]. apply host_port_scalar; [apply Hcl|apply Hp]. }
    assert (Eh' : (parse_authority (host_port (scheme req) name (port req))).1 = host req') by (by rewrite parse_host_port).
    split; [by eexists|]. by apply (Hstay _ _ E).
Qed.

Section TransportInstances.
Let req : Request := mkRequest (lit "GET") (lit "https") (lit "10.0.0.1") 443 (lit "/") (lit "HTTP/1.1")
  [(lit "HOST", lit "api.test:8443")] [].
Lemma retarget_spec_witness : host (retarget_to_host req).1 = lit "api.test" /\ headers (retarget_to_host req).1 = [(lit "HOST", lit "api.test")].
Proof.
  pose proof (retarget_spec req) as Hs. destruct (retarget_to_host req) as [req' changed] eqn:E.
  destruct Hs as (_ & Hh & _). cbn [fst]. split; [rewrite Hh; reflexivity|]. vm_compute in E. by injection E as <- _.
Defined.
End TransportInstances.
