(* ===== verification/Intercept.v ===== *)
(** Whether a connection is inspected: the model of [peek], [intercept],
    [passthrough_decision] and [splice] of [agentcage-egress/src/proxy/conn.rs], with
    [resolve] and [connect_vetted] of [agentcage-egress/src/proxy/upstream.rs].  The
    transparent listener reads a connection until it knows the protocol, and then
    either splices it to the destination byte for byte or hands it to the inspecting
    side.  The resolver, the handler and the network are parameters; each question put
    to them is numbered, so that answers may change from one to the next. *)
From S2P Require Import Prelude Utf8 Domain Transport.
From S2P Require Url Detect H1.
From Stdlib Require Import ZifyBool.

(** * Definitions *)

(** ** Address literals *)

(** [read_groups] of the standard library, with the groups read. *)
Fixpoint read_groups (todo : nat) (i : nat) (l : bytes) : list Z * bool * bytes :=
  match todo with
  | O => ([], false, l)
  | S todo' =>
      match (if Nat.ltb 0 todo' then Url.read_separator 58 i Url.read_ipv4_addr l else None) with
      | Some (a, l) => ([Z.shiftr a 16; Z.land a 65535], true, l)
      | None =>
          match Url.read_separator 58 i (Url.read_number 16 4 65535 true) l with
          | Some (g, l) => let '(gs, v4, l) := read_groups todo' (S i) l in (g :: gs, v4, l)
          | None => ([], false, l)
          end
      end
  end.
Definition join_groups (gs : list Z) : Z := fold_left (fun a g => Z.lor (Z.shiftl a 16) g) gs 0.
Definition read_ipv6_addr (l : bytes) : option (Z * bytes) :=
  let '(head, head_ipv4, l) := read_groups 8 0 l in
  if Nat.eqb (length head) 8 then Some (join_groups head, l)
  else if head_ipv4 then None
  else
    let? l := Url.read_given_char 58 l in
    let? l := Url.read_given_char 58 l in
    let '(tail, _, l) := read_groups (8 - (length head + 1)) 0 l in
    Some (join_groups (head ++ replicate (8 - length head - length tail) 0 ++ tail), l).
(** [parse::<IpAddr>]. *)
Definition parse_ip (s : str) : option IpAddr :=
  let l := as_bytes s in
  match (match Url.read_ipv4_addr l with
         | Some (a, l) => Some (V4 a, l)
         | None => let? (a, l) := read_ipv6_addr l in Some (V6 a, l)
         end) with
  | Some (ip, []) => Some ip
  | _ => None
  end.

(** ** Detection *)

Inductive Peeked : Type := PeekedTls (hello : Detect.ClientHello) | PeekedHttp (host_header : option str) | PeekedOther.

(** One turn of [peek]'s loop on the bytes so far: its answer, if it has one. *)
Definition classify (data : bytes) (eof : bool) : option Peeked :=
  if Detect.starts_like_tls data then
    match Detect.parse_client_hello data with
    | Some (Ok (Some hello)) => Some (PeekedTls hello)
    | Some (Err _) => Some (PeekedTls Detect.default_hello)
    | _ => if eof then Some (PeekedTls Detect.default_hello) else None
    end
  else if Nat.leb 3 (length data) || eof then
    match Detect.classify_plain data eof with
    | Detect.Other => Some PeekedOther
    | Detect.Http =>
        match Detect.host_header data with
        | Ok h => Some (PeekedHttp h)
        | Err _ => if eof || (H1.MAX_HEAD <? Z.of_nat (length data)) then Some (PeekedHttp None) else None
        end
    | Detect.NeedMore => None
    end
  else None.
(** The turn after the end of the stream is the last one. *)
Definition peek_at_end (data : bytes) : option Peeked :=
  match classify data true with
  | Some p => Some p
  | None => if bool_decide (data = []) then None else Some PeekedOther
  end.
Fixpoint peek_loop (data : bytes) (arrivals : list H1.Arrival) : H1.Buffered * option Peeked :=
  match classify data false with
  | Some p => (H1.mkBuffered data arrivals, Some p)
  | None =>
      match arrivals with
      | [] | H1.Data [] :: _ => (H1.mkBuffered data (tail arrivals), peek_at_end data)
      | H1.Data d :: rest => peek_loop (data ++ d) rest
      | H1.Failed _ :: rest => (H1.mkBuffered data rest, None)
      end
  end.
Definition peek (client : H1.Buffered) : H1.Buffered * option Peeked := peek_loop (H1.buf client) (H1.io client).

(** ** Connecting *)

(** [FlowHandler], as far as the decision asks it, the calls of [is_passthrough] in
    order; the resolver, its questions in order; and what comes of dialling. *)
Record FlowHandler : Type := mkHandler {
  is_passthrough : nat -> str -> bool; server_connect : ConnectTarget -> list IpAddr -> ConnectDecision
}.
Record Network : Type := mkNetwork {
  lookup_host : nat -> str -> Z -> result str (list IpAddr); dial : IpAddr -> Z -> result str unit
}.

Section Intercept.
Context (handler : FlowHandler) (net : Network).

Definition distinct (answers : list IpAddr) : list IpAddr :=
  fold_left (fun out ip => if bool_decide (ip ∈ out) then out else out ++ [ip]) answers [].
(** [upstream::resolve], asked as the [k]-th question. *)
Definition resolve (k : nat) (host : str) (port : Z) : result str (list IpAddr) :=
  let bare := trim_end_matches 93 (drop_while (Z.eqb 91) host) in
  match parse_ip bare with
  | Some ip => Ok [ip]
  | None =>
      let! answers := lookup_host net k bare port in
      match distinct answers with [] => Err (lit "no addresses") | out => Ok out end
  end.

(** The first address that accepts; [dial] answers [connection timed out] for one that
    does not in time. *)
Fixpoint connect_first (port : Z) (allowed : list IpAddr) (last : str) : result str IpAddr :=
  match allowed with
  | [] => Err last
  | ip :: rest => match dial net ip port with Ok _ => Ok ip | Err e => connect_first port rest e end
  end.
Definition connect_vetted (k : nat) (target : ConnectTarget) (resolved : option (list IpAddr)) : result UpstreamError IpAddr :=
  let! resolved :=
    match resolved with
    | Some addrs => Ok addrs
    | None => match resolve k (t_host target) (t_port target) with
              | Ok addrs => Ok addrs
              | Err e => Err (Resolve (t_host target) e)
              end
    end in
  match server_connect handler target resolved with
  | Refuse reason => Err (Refused reason)
  | Allow allowed =>
      match connect_first (t_port target) allowed (lit "no address allowed") with
      | Ok ip => Ok ip
      | Err e => Err (Connect (host_port [] (t_host target) (t_port target)) e)
      end
  end.

(** ** The decision *)

Definition ends_in_port (header : str) : bool :=
  match Url.rsplit_once 58 header with
  | Some (_, p) => negb (bool_decide (p = [])) && forallb is_ascii_digit (as_bytes p)
  | None => false
  end.
Definition with_port (name : str) (port : Z) : str := name ++ [58] ++ show_unsigned port.
(** The names the client gave that are passthrough names. *)
Definition passthrough_names (info : ConnInfo) (server : ServerAddr) (host_header : option str) : list str :=
  match host_header with
  | Some header =>
      let candidate := if ends_in_port header then header else with_port header (a_port server) in
      if is_passthrough handler 1 candidate then [(parse_authority header).1] else []
  | None => []
  end
  ++ match sni info with
     | Some sni => if is_passthrough handler 2 (with_port sni (a_port server)) then [sni] else []
     | None => []
     end.
Definition common (dest addrs : list IpAddr) : list IpAddr := List.filter (fun ip => bool_decide (ip ∈ addrs)) dest.
Definition refused_line (name : str) (server : ServerAddr) : str :=
  lit "passthrough refused for " ++ name ++ lit ": destination " ++ display server
  ++ lit " is not one of its addresses; intercepting".
(** The loop over the names, from question [k] on: the addresses, and the lines logged. *)
Fixpoint vet_names (k : nat) (server : ServerAddr) (dest : list IpAddr) (names : list str) : option (list IpAddr) * list str :=
  match names with
  | [] => (None, [])
  | name :: rest =>
      match resolve k name (a_port server) with
      | Err _ => vet_names (S k) server dest rest
      | Ok addrs =>
          match common dest addrs with
          | [] => let '(r, lines) := vet_names (S k) server dest rest in (r, refused_line name server :: lines)
          | shared => (Some shared, [])
          end
      end
  end.
Definition passthrough_decision (info : ConnInfo) (server : ServerAddr) (host_header : option str)
  : option (option (list IpAddr)) * list str :=
  if is_passthrough handler 0 (display server) then (Some None, [])
  else
    match passthrough_names info server host_header with
    | [] => (None, [])
    | names =>
        match resolve 0 (a_host server) (a_port server) with
        | Err _ => (None, [])
        | Ok dest => let '(r, lines) := vet_names 1 server dest names in (option_map Some r, lines)
        end
    end.

(** ** Where a connection ends up *)

Inductive Disposition : Type :=
| ClientGone | NoDestination
| Spliced (target : ConnectTarget) (peer : IpAddr)   (** bytes both ways, unseen *)
| NotSpliced (e : UpstreamError)                      (** the dial failed; the connection is dropped *)
| Bypassed                                            (** [tcp_bypass]: recorded and dropped *)
| ServedHttp
| TlsTerminated (hello : Detect.ClientHello).

Definition with_sni (info : ConnInfo) (p : Peeked) : ConnInfo :=
  match p with
  | PeekedTls hello =>
      mkConn (id info) (listener info) (client_addr info) (local_addr info) (server_addr info) (via_connect info)
             (non_empty (Detect.sni hello)) (tls info) (alpn info)
  | _ => info
  end.
Definition header_of (p : Peeked) : option str := match p with PeekedHttp h => h | _ => None end.
Definition inspect (p : Peeked) : Disposition :=
  match p with PeekedOther => Bypassed | PeekedHttp _ => ServedHttp | PeekedTls hello => TlsTerminated hello end.
Definition splice_target (info : ConnInfo) (server : ServerAddr) : ConnectTarget :=
  mkTarget (a_host server) (a_port server) (sni info) Passthrough.
Definition splice (info : ConnInfo) (server : ServerAddr) (resolved : option (list IpAddr)) : Disposition :=
  match connect_vetted 0 (splice_target info server) resolved with
  | Ok ip => Spliced (splice_target info server) ip
  | Err e => NotSpliced e
  end.
(** [intercept]: where the connection ends up, and the lines logged. *)
Definition intercept (info : ConnInfo) (client : H1.Buffered) : Disposition * list str :=
  match (peek client).2 with
  | None => (ClientGone, [])
  | Some peeked =>
      match server_addr info with
      | None => (NoDestination, [lit "no destination address; closing"])
      | Some server =>
          let info := with_sni info peeked in
          let '(decision, lines) := passthrough_decision info server (header_of peeked) in
          match decision with
          | Some resolved => (splice info server resolved, lines)
          | None => (inspect peeked, lines)
          end
      end
  end.
End Intercept.

(** * Theorems *)

(** ** Names with and without a port *)

Lemma digit_chars c : is_ascii_digit c = true -> c <> 46 /\ c <> 58 /\ c <> 93.
Proof. unfold is_ascii_digit, in_range. intros Hc. split_and!; intros ->; discriminate Hc. Qed.
Lemma digits_only max acc l n : digits_value max acc l = Some n -> Forall (fun c => is_ascii_digit c = true) l.
Proof.
  revert acc. induction l as [|c l IH]; intros acc; [constructor|]. cbn [digits_value]. unfold digit_value at 1.
  destruct (is_ascii_digit c) eqn:E; [|done]. cbn [option_bind]. destruct (_ <? _); [done|]. intros H. constructor; eauto.
Qed.
(** What a port may be spelt with. *)
Lemma port_chars p n c : parse_u16 p = Some n -> c ∈ p -> c <> 46 /\ c <> 58 /\ c <> 93.
Proof.
  unfold parse_u16, parse_unsigned. destruct p as [|x [|y p]]; [done| |].
  - intros Hd%digits_only Hc; rewrite Forall_forall in Hd; by apply digit_chars, Hd.
  - destruct (Z.eqb_spec x 43) as [->|]; intros Hd%digits_only Hc; rewrite Forall_forall in Hd.
    + apply elem_of_cons in Hc as [->|Hc]; [done|]. by apply digit_chars, Hd.
    + by apply digit_chars, Hd.
Qed.
Lemma lower_elem c s : is_ascii_lowercase c = false -> c ∈ map ascii_lower s -> c ∈ s.
Proof.
  intros Hc Hin. apply list_elem_of_fmap in Hin as (x & -> & Hx). unfold ascii_lower in *.
  destruct (is_ascii_uppercase x) eqn:E; [|done]. exfalso. unfold is_ascii_uppercase, is_ascii_lowercase, in_range in *. lia.
Qed.
Lemma lower_digits s : Forall (fun c => is_ascii_digit c = true) s -> map ascii_lower s = s.
Proof.
  intros Hs. rewrite <- (map_id s) at 2. apply map_ext_Forall. eapply Forall_impl; [exact Hs|]. intros c. unfold is_ascii_digit, ascii_lower, is_ascii_uppercase, in_range.
  intros. destruct ((65 <=? c) && (c <=? 90)) eqn:E; [lia|done].
Qed.

(** [x] is a domain of [ds], or a name under one. *)
Definition plain_domain (d : str) : Prop := Forall scalar d /\ (58 ∉ d) /\ (93 ∉ d).
Section Names.
Context (ds : list str) (Hds : Forall plain_domain ds).
Definition beneath (x : str) (d : str) : Prop := x = map ascii_lower d \/ exists p, p <> [] /\ x = p ++ [46] ++ map ascii_lower d.

Lemma ds_matches : Forall (fun d => Forall scalar d /\ (58 ∉ d)) ds.
Proof using Hds. eapply Forall_impl; [exact Hds|]. intros d (? & ? & ?). done. Qed.
Lemma passes_beneath c : passes ds c <-> exists d, d ∈ ds /\ beneath (strip_port (map ascii_lower c)) d.
Proof using Hds.
  rewrite Forall_forall in Hds. split.
  - intros (d & h & tail & Hd & E & Ht & Hb). exists d. split; [exact Hd|]. destruct (Hds d Hd) as (_ & Hc & _). apply lower_no_colon in Hc.
    rewrite E. destruct Hb as [->|(p & Hp & ->)].
    + left. apply (strip_port_unique []); auto.
    + right. exists p. split; [done|]. rewrite (app_assoc p). rewrite strip_port_unique; eauto. 
  - intros (d & Hd & Hb). destruct (strip_port_spec (map ascii_lower c)) as (tail & E & Ht). exists d, (strip_port (map ascii_lower c)), tail. auto.
Qed.
Lemma beneath_no_port x d : d ∈ ds -> beneath x d -> strip_port x = x.
Proof using Hds.
  rewrite Forall_forall in Hds. intros Hd Hb. destruct (Hds d Hd) as (_ & Hc & _). apply lower_no_colon in Hc. rewrite <- (app_nil_r x) at 1.
  destruct Hb as [->|(p & Hp & ->)]; [apply (strip_port_unique []); [done|by left..]|].
  rewrite (app_assoc p). apply strip_port_unique; [done|by left|right; by exists p].
Qed.
Lemma beneath_passes x d : d ∈ ds -> beneath (map ascii_lower x) d -> passes ds x.
Proof using Hds. intros Hd Hb. apply passes_beneath. exists d. by rewrite (beneath_no_port _ d). Qed.
(** A name beneath a domain ends in no port and in no bracket. *)
Lemma beneath_last x d c : d ∈ ds -> beneath (x ++ [c]) d -> c <> 93.
Proof using Hds.
  rewrite Forall_forall in Hds. intros Hd Hb ->. destruct (Hds d Hd) as (_ & _ & Hn). apply Hn. apply lower_elem; [done|].
  assert (Hl : last (x ++ [93]) = Some 93) by apply last_snoc.
  destruct Hb as [E|(p & _ & E)]; rewrite E in Hl.
  - rewrite <- E. apply elem_of_app. right. by left.
  - rewrite last_app in Hl. destruct (map ascii_lower d) as [|y l] eqn:Ed using rev_ind; [done|]. 
    rewrite app_assoc, last_snoc in Hl. injection Hl as ->. apply elem_of_app. right. by left.
Qed.
Lemma beneath_tail u v d : d ∈ ds -> 46 ∉ v -> beneath (u ++ 58 :: v) d -> False.
Proof using Hds.
  rewrite Forall_forall in Hds. intros Hd Hv Hb. destruct (Hds d Hd) as (_ & Hc & _). apply lower_no_colon in Hc.
  destruct Hb as [E|(p & _ & E)]; [apply Hc; rewrite <- E; apply elem_of_app; right; by left|].
  revert p E. induction u as [|x u IH]; intros p E; cbn [app] in E.
  - destruct p as [|y p]; cbn [app] in E; [done|]. injection E as _ E. apply Hv. rewrite E. apply elem_of_app. right. by left.
  - destruct p as [|y p]; cbn [app] in E; injection E as _ E; [|by apply (IH p)].
    apply Hc. rewrite <- E. apply elem_of_app. right. by left.
Qed.

Lemma strip_digits x p : all_digits p -> strip_port (x ++ 58 :: p) = x.
Proof.
  intros [Hne Hp]. unfold strip_port. rewrite Url.rsplit_once_app.
  - rewrite bool_decide_eq_false_2 by done. cbn [negb andb]. by rewrite (proj2 (digits_bytes p) Hp).
  - intros Hin. rewrite Forall_forall in Hp. by destruct (digit_chars 58 (Hp 58 Hin)) as (_ & ? & _).
Qed.
Lemma lower_with_port name port : 0 <= port -> strip_port (map ascii_lower (with_port name port)) = map ascii_lower name.
Proof.
  intros Hp. destruct (show_unsigned_spec port Hp) as (Hd & _ & Hne & _). unfold with_port. rewrite !map_app.
  rewrite (lower_digits (show_unsigned port)) by exact Hd. by apply strip_digits.
Qed.
Lemma ends_in_port_spec h : if ends_in_port h then exists a p, h = a ++ 58 :: p /\ all_digits p else strip_port h = h.
Proof.
  unfold ends_in_port, strip_port. destruct (Url.rsplit_once 58 h) as [[a p]|] eqn:E; [|done]. apply rsplit_once_some in E as [-> _].
  destruct (negb (bool_decide (p = [])) && _) eqn:Ed; [|done]. apply andb_true_iff in Ed as [Hn Hd%digits_bytes].
  exists a, p. split; [done|]. split; [by intros ->|done].
Qed.

(** What [parse_authority] makes of a text. *)
Lemma parse_authority_cases h : let n := (parse_authority h).1 in
  n = h \/ (exists p o, h = n ++ 58 :: p /\ parse_u16 p = Some o)
  \/ h = (91 :: n) ++ [93] \/ exists p o, h = ((91 :: n) ++ [93]) ++ 58 :: p /\ parse_u16 p = Some o.
Proof.
  cbv zeta. unfold parse_authority. destruct (Url.strip_char 91 h) as [rest|] eqn:E1.
  - apply Url.strip_char_some in E1 as ->. destruct (split_once 93 rest) as [[a tail]|] eqn:E2; [|by left].
    apply split_once_some in E2 as [-> _]. case_bool_decide as Et; [subst tail; right; right; by left|].
    destruct (Url.strip_char 58 tail) as [p|] eqn:E3; cbn [option_bind]; [|by left]. apply Url.strip_char_some in E3 as ->.
    destruct (parse_u16 p) as [o|] eqn:E4; [|by left]. right; right; right. exists p, o. cbn [fst]. split; [|exact E4]. cbn. by rewrite <- app_assoc.
  - destruct (Url.rsplit_once 58 h) as [[a p]|] eqn:E2; [|by left]. apply rsplit_once_some in E2 as [-> _].
    destruct (_ && _); [|by left]. destruct (parse_u16 p) as [o|] eqn:E4; [|by left]. right; left. by exists p, o.
Qed.

(** The name read from a [Host] header that passes, passes. *)
Lemma header_name h port : 0 <= port -> passes ds (if ends_in_port h then h else with_port h port) -> passes ds (parse_authority h).1.
Proof using Hds.
  intros Hp Hm. pose proof (ends_in_port_spec h) as He. destruct (parse_authority_cases h) as [E|Hc]; cbv zeta in *.
  { rewrite E. destruct (ends_in_port h); [exact Hm|]. apply passes_beneath in Hm as (d & Hd & Hb). rewrite lower_with_port in Hb by exact Hp. by apply (beneath_passes _ d). }
  set (n := (parse_authority h).1) in *. apply passes_beneath in Hm as (d & Hd & Hb).
  assert (Hport : forall p o, parse_u16 p = Some o -> 46 ∉ map ascii_lower p).
  { intros p o Ho Hin. apply lower_elem in Hin; [|done]. by destruct (port_chars p o 46 Ho Hin) as [? _]. }
  destruct (ends_in_port h).
  - destruct He as (a & p & E & Hdig). rewrite E in Hb. rewrite map_app in Hb. cbn [map] in Hb. change (ascii_lower 58) with 58 in Hb.
    rewrite (lower_digits p) in Hb by apply Hdig. rewrite strip_digits in Hb by exact Hdig.
    assert (Hsplit : forall x q, x ++ 58 :: q = a ++ 58 :: p -> 58 ∉ q -> x = a).
    { intros x q Eq Hq. apply (f_equal (Url.rsplit_once 58)) in Eq. rewrite !Url.rsplit_once_app in Eq; [by injection Eq|..|exact Hq].
      intros Hin. destruct Hdig as [_ Hdig]. rewrite Forall_forall in Hdig. by destruct (digit_chars 58 (Hdig 58 Hin)) as (_ & ? & _). }
    destruct Hc as [(q & o & E' & Ho)|[E'|(q & o & E' & Ho)]]; rewrite E in E'; symmetry in E'.
    + apply Hsplit in E'; [|intros Hin; by destruct (port_chars q o 58 Ho Hin) as (_ & ? & _)]. subst a. by apply (beneath_passes _ d).
    + exfalso. destruct p as [|x p _] using rev_ind; [by destruct Hdig|]. change (a ++ 58 :: p ++ [x]) with (a ++ (58 :: p) ++ [x]) in E'.
      rewrite app_assoc in E'. apply app_inj_tail in E' as [_ <-]. destruct Hdig as [_ Hdig]. apply Forall_app in Hdig as [_ Hdig]. by inversion Hdig.
    + exfalso. apply Hsplit in E'; [|intros Hin; by destruct (port_chars q o 58 Ho Hin) as (_ & ? & _)]. subst a.
      rewrite map_app in Hb. by apply beneath_last in Hb.
  - rewrite lower_with_port in Hb by exact Hp. exfalso. destruct Hc as [(q & o & E' & Ho)|[E'|(q & o & E' & Ho)]]; rewrite E', map_app in Hb.
    + apply (beneath_tail _ _ d Hd (Hport q o Ho) Hb).
    + by apply beneath_last in Hb.
    + apply (beneath_tail _ _ d Hd (Hport q o Ho) Hb).
Qed.
Lemma sni_name n port : 0 <= port -> passes ds (with_port n port) -> passes ds n.
Proof using Hds.
  intros Hp (d & Hd & Hb)%passes_beneath. rewrite lower_with_port in Hb by exact Hp. by apply (beneath_passes _ d).
Qed.
End Names.

(** ** The decision *)

(** A name the client gave: its [Host] header's, or its SNI. *)
Definition claimed (info : ConnInfo) (p : Peeked) (n : str) : Prop :=
  (exists h, header_of p = Some h /\ n = (parse_authority h).1) \/ sni (with_sni info p) = Some n.
(** The texts are texts and the port is a port. *)
Definition typed (info : ConnInfo) (p : Peeked) (server : ServerAddr) : Prop :=
  0 <= a_port server <= 65535 /\ Forall scalar (a_host server)
  /\ (forall h, header_of p = Some h -> Forall scalar h) /\ (forall s, sni (with_sni info p) = Some s -> Forall scalar s).

Section Decision.
Context (handler : FlowHandler) (net : Network) (cfg : nat -> list str).
(** The passthrough domains configured when the handler is asked for the [i]-th time. *)
Context (Hask : forall i c, is_passthrough handler i c = matches (new_matcher (cfg i)) c).
Context (Hcfg : forall i, Forall plain_domain (cfg i)).

(** [ips], not none, are those addresses of the destination that [n] has too. *)
Definition shares (server : ServerAddr) (n : str) (ips : list IpAddr) : Prop :=
  exists k dest addrs, resolve net 0 (a_host server) (a_port server) = Ok dest
    /\ resolve net k n (a_port server) = Ok addrs /\ (forall ip, ip ∈ ips <-> ip ∈ dest /\ ip ∈ addrs) /\ ips <> [].
Definition apart (server : ServerAddr) (k : nat) (n : str) : Prop :=
  forall dest addrs, resolve net 0 (a_host server) (a_port server) = Ok dest ->
    resolve net k n (a_port server) = Ok addrs -> forall ip, ip ∈ dest -> ip ∉ addrs.
Lemma common_elem dest addrs ip : ip ∈ common dest addrs <-> ip ∈ dest /\ ip ∈ addrs.
Proof. unfold common. by rewrite list_elem_of_In, filter_In, <- list_elem_of_In, bool_decide_eq_true. Qed.
Lemma common_none dest addrs : common dest addrs = [] -> forall ip, ip ∈ dest -> ip ∉ addrs.
Proof. intros Hc ip Hd Ha. assert (Hin : ip ∈ common dest addrs) by (by apply common_elem). rewrite Hc in Hin. by apply elem_of_nil in Hin. Qed.

Lemma asks i c : Forall scalar c -> is_passthrough handler i c = true <-> passes (cfg i) c.
Proof using Hask Hcfg. intros Hc. rewrite Hask. apply passes_matches; [exact Hc|by apply ds_matches]. Qed.
Lemma digits_scalar n : 0 <= n -> Forall scalar (show_unsigned n).
Proof.
  intros Hn. destruct (show_unsigned_spec n Hn) as [Hd _]. eapply Forall_impl; [exact Hd|]. intros c. unfold is_ascii_digit, in_range, scalar. lia.
Qed.
Lemma with_port_scalar s n : 0 <= n -> Forall scalar s -> Forall scalar (with_port s n).
Proof. intros Hn Hs. unfold with_port. apply Forall_app. split; [exact Hs|]. constructor; [unfold scalar; lia|by apply digits_scalar]. Qed.

Lemma vet_names_spec server dest names : forall k,
  match (vet_names net k server dest names).1 with
  | Some ips => exists n j addrs, n ∈ names /\ resolve net j n (a_port server) = Ok addrs /\ ips = common dest addrs /\ ips <> []
  | None => forall j n addrs, names !! j = Some n -> resolve net (k + j) n (a_port server) = Ok addrs -> common dest addrs = []
  end.
Proof.
  induction names as [|name names IH]; intros k; cbn [vet_names]; [intros j n addrs Hj; by rewrite lookup_nil in Hj|].
  specialize (IH (S k)). destruct (resolve net k name (a_port server)) as [addrs|e] eqn:Er; [destruct (common dest addrs) as [|x r] eqn:Ec|].
  1: destruct (vet_names net (S k) server dest names) as [[ips|] lines]; cbn [fst] in *.
  4: destruct (vet_names net (S k) server dest names).1 as [ips|].
  1,4: destruct IH as (n & j & addrs' & Hn & ?); exists n, j, addrs'; by split; [right|].
  1,3: intros [|j] n addrs' Hj; [rewrite Nat.add_0_r; injection Hj as ->; rewrite Er; congruence|rewrite Nat.add_succ_r; exact (IH j n addrs' Hj)].
  exists name, k, addrs. cbn [fst]. rewrite Ec. by split_and!; [left|..].
Qed.

Lemma connect_first_spec port allowed : forall last,
  match connect_first net port allowed last with Ok ip => ip ∈ allowed /\ dial net ip port = Ok tt | Err _ => True end.
Proof.
  induction allowed as [|ip rest IH]; intros last; cbn [connect_first]; [done|]. destruct (dial net ip port) as [[]|e] eqn:Ed; [by split; [left|]|].
  specialize (IH e). destruct (connect_first _ _ _ _); [|done]. by destruct IH; split; [right|].
Qed.
(** A dial goes to an address the handler allowed. *)
Lemma splice_spec info server resolved : match splice handler net info server resolved with
  | Spliced target ip => target = splice_target info server /\ exists asked allowed,
      server_connect handler target asked = Allow allowed /\ ip ∈ allowed /\ dial net ip (a_port server) = Ok tt
      /\ match resolved with Some ips => asked = ips | None => resolve net 0 (a_host server) (a_port server) = Ok asked end
  | NotSpliced _ => True
  | _ => False
  end.
Proof.
  unfold splice, connect_vetted. set (target := splice_target info server).
  assert (Hgo : forall asked, match resolved with Some ips => asked = ips | None => resolve net 0 (a_host server) (a_port server) = Ok asked end ->
    match match server_connect handler target asked with
          | Allow allowed => match connect_first net (t_port target) allowed (lit "no address allowed") with
                             | Ok ip => Ok ip
                             | Err e => Err (Connect (host_port [] (t_host target) (t_port target)) e) end
          | Refuse reason => Err (Refused reason) end with
    | Ok ip => exists asked allowed, server_connect handler target asked = Allow allowed /\ ip ∈ allowed /\ dial net ip (a_port server) = Ok tt
        /\ match resolved with Some ips => asked = ips | None => resolve net 0 (a_host server) (a_port server) = Ok asked end
    | Err _ => True end).
  { intros asked Ha. destruct (server_connect handler target asked) as [allowed|] eqn:Es; [|done].
    pose proof (connect_first_spec (t_port target) allowed (lit "no address allowed")) as Hc. destruct (connect_first _ _ _ _) as [ip|]; [|done].
    destruct Hc as [Hin Hd]. by exists asked, allowed. }
  destruct resolved as [ips|]; cbn [result_bind].
  - specialize (Hgo ips eq_refl). destruct (match server_connect _ _ _ with Allow _ => _ | Refuse _ => _ end); [by split|done].
  - change (t_host target) with (a_host server) in *. change (t_port target) with (a_port server) in *.
    destruct (resolve net 0 (a_host server) (a_port server)) as [asked|]; cbn [result_bind]; [|done].
    specialize (Hgo asked eq_refl). destruct (match server_connect _ _ _ with Allow _ => _ | Refuse _ => _ end); [by split|done].
Qed.

(** The names that earn a splice are names the client gave that pass; every other one
    that passes is looked at too. *)
Lemma names_spec info p server : typed info p server -> let info' := with_sni info p in
  (forall n, n ∈ passthrough_names handler info' server (header_of p) -> claimed info p n /\ exists i, passes (cfg i) n)
  /\ (forall h, header_of p = Some h -> passes (cfg 1) (if ends_in_port h then h else with_port h (a_port server)) ->
       passthrough_names handler info' server (header_of p) !! 0%nat = Some (parse_authority h).1)
  /\ (forall s, sni info' = Some s -> passes (cfg 2) (with_port s (a_port server)) ->
       s ∈ passthrough_names handler info' server (header_of p)).
Proof using Hask Hcfg.
  intros (Hp & _ & Hh & Hs). cbv zeta. unfold passthrough_names, claimed.
  assert (Hhs : forall h, header_of p = Some h -> Forall scalar (if ends_in_port h then h else with_port h (a_port server))).
  { intros h Eh. destruct (ends_in_port h); [by apply Hh|]. apply with_port_scalar; [lia|by apply Hh]. }
  split_and!.
  - intros n [Hn|Hn]%elem_of_app.
    + destruct (header_of p) as [h|]; [|by apply elem_of_nil in Hn]. destruct (is_passthrough _ _ _) eqn:E; [|by apply elem_of_nil in Hn].
      apply list_elem_of_singleton in Hn as ->. split; [left; by exists h|]. exists 1%nat. apply asks in E; [|by apply Hhs].
      apply (header_name _ (Hcfg 1) h (a_port server)); [lia|exact E].
    + destruct (sni (with_sni info p)) as [s|]; [|by apply elem_of_nil in Hn]. destruct (is_passthrough _ _ _) eqn:E; [|by apply elem_of_nil in Hn].
      apply list_elem_of_singleton in Hn as ->. split; [by right|]. exists 2%nat. apply asks in E; [|apply with_port_scalar; [lia|by apply Hs]].
      apply (sni_name _ (Hcfg 2) s (a_port server)); [lia|exact E].
  - intros h Eh Hm. rewrite Eh in *. apply asks in Hm; [|by apply Hhs]. by rewrite Hm.
  - intros s Es Hm. rewrite Es in *. apply asks in Hm; [|apply with_port_scalar; [lia|by apply Hs]]. rewrite Hm. apply elem_of_app. right. by left.
Qed.

(** [passthrough_decision], case by case. *)
Lemma decision_spec info p server : typed info p server -> let info' := with_sni info p in
  match (passthrough_decision handler net info' server (header_of p)).1 with
  | Some None => passes (cfg 0) (display server)
  | Some (Some ips) => exists n i, claimed info p n /\ passes (cfg i) n /\ shares server n ips
  | None => ~ passes (cfg 0) (display server)
      /\ (forall h, header_of p = Some h -> passes (cfg 1) (if ends_in_port h then h else with_port h (a_port server)) ->
           apart server 1 (parse_authority h).1)
      /\ (forall s, sni info' = Some s -> passes (cfg 2) (with_port s (a_port server)) -> exists k, apart server k s)
  end.
Proof using Hask Hcfg.
  intros Ht. destruct (names_spec info p server Ht) as (Hin & Hhead & Hsni). destruct Ht as (Hp & Hhost & _). cbv zeta in *.
  assert (Hdest : is_passthrough handler 0 (display server) = true <-> passes (cfg 0) (display server)).
  { apply asks. unfold display. apply Forall_app. split; [exact Hhost|]. constructor; [unfold scalar; lia|apply digits_scalar; lia]. }
  unfold passthrough_decision. destruct (is_passthrough handler 0 (display server)); [by apply Hdest|].
  set (names := passthrough_names _ _ _ _) in *. assert (Hnone : ~ passes (cfg 0) (display server)) by (by intros ?%Hdest).
  assert (Hapart : (forall j n, names !! j = Some n -> apart server (1 + j) n) -> ~ passes (cfg 0) (display server)
      /\ (forall h, header_of p = Some h -> passes (cfg 1) (if ends_in_port h then h else with_port h (a_port server)) ->
           apart server 1 (parse_authority h).1)
      /\ (forall s, sni (with_sni info p) = Some s -> passes (cfg 2) (with_port s (a_port server)) -> exists k, apart server k s)).
  { intros Ha. split_and!; [exact Hnone|..].
    - intros h Eh Hm. exact (Ha 0%nat _ (Hhead h Eh Hm)).
    - intros s Es Hm. destruct (proj1 (list_elem_of_lookup _ _) (Hsni s Es Hm)) as [j Hj]. exists (1 + j)%nat. by apply Ha. }
  destruct names as [|n0 ns] eqn:En; [apply Hapart; intros j n Hj; by rewrite lookup_nil in Hj|]. rewrite <- En in *.
  destruct (resolve net 0 (a_host server) (a_port server)) as [dest|e] eqn:Er.
  - pose proof (vet_names_spec server dest names 1) as Hv. destruct (vet_names net 1 server dest names) as [[ips|] lines]; cbn [fst option_map] in *.
    + destruct Hv as (n & k & addrs & Hn & Ha & Hc & Hne). destruct (Hin n Hn) as (Hcl & i & Hi). exists n, i. split_and!; try assumption. exists k, dest, addrs. split_and!; try done. intros ip. rewrite Hc. apply common_elem.
    + apply Hapart. intros j n Hj dest' addrs Hd Ha. rewrite Er in Hd. injection Hd as <-. by apply common_none, (Hv j n addrs).
  - apply Hapart. intros j n Hj dest' addrs Hd. congruence.
Qed.

(** C30: A connection that reaches the transparent listener is spliced, unseen, only
    when its own destination passes the configured passthrough list, or when a name the
    client gave (its [Host] header or its SNI) passes it and the destination is one of
    that name's addresses: what is dialled then is one of the addresses the handler
    allowed out of those the destination and the name share.  Otherwise the connection
    goes to the inspecting side its protocol calls for, and then the destination does
    not pass, nor does a name the client gave and whose addresses the destination
    shares.  A name passes when, up to ASCII case and an optional port, it is a
    configured domain or a name under one, on a label boundary.  Every answer of the
    resolver and the configured list may change between one question and the next. *)
Theorem bypass_spec info client server p :
  server_addr info = Some server -> (peek client).2 = Some p -> typed info p server ->
  match (intercept handler net info client).1 with
  | Spliced target ip =>
      target = splice_target (with_sni info p) server
      /\ exists asked allowed, server_connect handler target asked = Allow allowed
         /\ ip ∈ allowed /\ dial net ip (a_port server) = Ok tt
         /\ (passes (cfg 0) (display server) /\ resolve net 0 (a_host server) (a_port server) = Ok asked
             \/ exists n i, claimed info p n /\ passes (cfg i) n /\ shares server n asked)
  | NotSpliced _ => passes (cfg 0) (display server) \/ exists n i ips, claimed info p n /\ passes (cfg i) n /\ shares server n ips
  | d => d = inspect p /\ ~ passes (cfg 0) (display server)
      /\ (forall h, header_of p = Some h -> passes (cfg 1) (if ends_in_port h then h else with_port h (a_port server)) ->
           apart server 1 (parse_authority h).1)
      /\ (forall s, sni (with_sni info p) = Some s -> passes (cfg 2) (with_port s (a_port server)) -> exists k, apart server k s)
  end.
Proof using Hask Hcfg.
  intros Es Ep Ht. unfold intercept. rewrite Ep, Es. pose proof (decision_spec info p server Ht) as Hd. cbv zeta in *.
  destruct (passthrough_decision _ _ _ _ _) as [[[ips|]|] lines]; cbn [fst] in *.
  - pose proof (splice_spec (with_sni info p) server (Some ips)) as Hs. destruct (splice _ _ _ _ _); try done.
    + destruct Hs as (-> & asked & allowed & ? & ? & ? & ->). split; [done|]. exists ips, allowed. split_and!; auto.
    + right. destruct Hd as (n & i & Hd). exists n, i, ips. exact Hd.
  - pose proof (splice_spec (with_sni info p) server None) as Hs. destruct (splice _ _ _ _ _); try done.
    + destruct Hs as (-> & asked & allowed & ? & ? & ? & ?). split; [done|]. exists asked, allowed. split_and!; auto.
    + by left.
  - by destruct p.
Qed.
End Decision.

(** A client that names a pinned host in its [Host] header on a connection to another
    address, and one on a connection to an address of that host. *)
Section InterceptInstances.
Let cfg (_ : nat) : list str := [lit "Pinned.example"].
Let handler : FlowHandler := mkHandler (fun i c => matches (new_matcher (cfg i)) c) (fun _ => Allow).
Let net : Network := mkNetwork (fun _ host _ => if bool_decide (host = lit "a.pinned.example") then Ok [V4 7; V4 8] else Err (lit "unknown")) (fun _ _ => Ok tt).
Let info (dest : string) : ConnInfo := mkConn 1 Transparent (V4 1, 40000) (V4 2, 80) (Some (mkServer (lit dest) 80)) false None false None.
Let client : H1.Buffered := H1.mkBuffered [] [H1.Data (lit "GET / HTTP/1.1" ++ [13; 10]); H1.Data (lit "Host: a.pinned.example" ++ [13; 10; 13; 10])].
Lemma bypass_spec_witness :
  (intercept handler net (info "0.0.0.7") client).1 = Spliced (mkTarget (lit "0.0.0.7") 80 None Passthrough) (V4 7)
  /\ (intercept handler net (info "0.0.0.9") client).1 = ServedHttp
  /\ V4 7 ∈ [V4 7].
Proof.
  assert (Hs : forall s : string, forallb is_ascii (lit s) = true -> Forall scalar (lit s)).
  { intros s Ha. apply Forall_forall. intros c Hc. rewrite forallb_forall in Ha. specialize (Ha c ltac:(by apply list_elem_of_In)).
    unfold is_ascii, in_range, scalar in *. lia. }
  assert (E : (intercept handler net (info "0.0.0.7") client).1 = Spliced (mkTarget (lit "0.0.0.7") 80 None Passthrough) (V4 7)) by (by vm_compute).
  split; [exact E|]. split; [by vm_compute|].
  pose proof (bypass_spec handler net cfg) as Hb. specialize (Hb (fun i c => eq_refl)). 
  assert (Hcfg : forall i, Forall plain_domain (cfg i)).
  { intros i. constructor; [|constructor]. split; [by apply (Hs "Pinned.example"%string)|]. split; by apply (bool_decide_unpack _). }
  specialize (Hb Hcfg).
  specialize (Hb (info "0.0.0.7") client (mkServer (lit "0.0.0.7") 80) (PeekedHttp (Some (lit "a.pinned.example"))) eq_refl eq_refl).
  assert (Ht : typed (info "0.0.0.7") (PeekedHttp (Some (lit "a.pinned.example"))) (mkServer (lit "0.0.0.7") 80)).
  { split_and!; cbn; [lia|lia|by apply (Hs "0.0.0.7"%string)|intros h [= <-]; by apply (Hs "a.pinned.example"%string)|done]. }
  specialize (Hb Ht). rewrite E in Hb. destruct Hb as (_ & asked & allowed & Ha & Hin & _ & Hr). cbn in Ha. injection Ha as <-.
  destruct Hr as [[_ Hr]|(n & i & _ & _ & k & dest & addrs & Hd & _ & Hc & _)]; [vm_compute in Hr; by injection Hr as <-|].
  vm_compute in Hd. injection Hd as <-. by apply Hc in Hin as [Hin _].
Defined.
End InterceptInstances.
