(* ===== verification/Engine.v ===== *)
(** The engine: the model of [agentcage-egress/src/engine.rs] - the live
    configuration and its reload, the per-host rate limit and the hosts caught
    resolving to internal addresses, over the components the pipeline calls. *)
From S2P Require Import Prelude Utf8 Json Value Inspect IndexMap DateTime Timestamp Message AuditLog.
From S2P Require ConfigValues DomainInspector Chain Secrets Entropy Settings Policy Forms BodyCodec Rules Injector Capture Budget Limits Transport.
From Stdlib Require Import SpecFloat ZifyBool.

(** * Definitions *)

Definition RATE_MAX_HOSTS : Z := 4096.
Definition POISONED_MAX : Z := 4096.

(** ** Per-host state *)

(** [Duration::as_secs_f64], of a duration in nanoseconds. *)
Definition secs_f64 (nanos : Z) : spec_float :=
  SFadd 53 1024 (ConfigValues.f64_of_int (nanos / 1000000000))
    (SFdiv 53 1024 (ConfigValues.f64_of_int (nanos mod 1000000000)) (ConfigValues.f64_of_int 1000000000)).
(** [host -> (tokens, last refill)], least recently used first; an instant is in
    nanoseconds. *)
Abbreviation Buckets := (list (str * (spec_float * Z))).
(** [while map.len() > max { shift_remove_index(0) }]. *)
Definition keep_newest {A} (max : Z) (l : list A) : list A := drop (length l - Z.to_nat max) l.
(** The host's bucket, moved or put last: what comes before it, and it. *)
Definition bucket_of (b : Buckets) (host : str) (burst : spec_float) (now : Z) : Buckets * (spec_float * Z) :=
  match im_get b host with
  | Some bucket => (im_remove b host, bucket)
  | None => (keep_newest (RATE_MAX_HOSTS - 1) b, (burst, now))
  end.
Definition check (b : Buckets) (host : str) (rate burst : spec_float) (now : Z) : Buckets * bool :=
  match rate with
  | S754_zero _ => (b, true)
  | _ =>
      let '(before, (tokens, last_)) := bucket_of b host burst now in
      let elapsed := secs_f64 (saturating_sub now last_) in
      let tokens := Policy.f64_min burst (SFadd 53 1024 tokens (SFmul 53 1024 elapsed rate)) in
      if ConfigValues.f64_geb tokens (ConfigValues.f64_of_int 1)
      then (before ++ [(host, (SFsub 53 1024 tokens (ConfigValues.f64_of_int 1), now))], true)
      else (before ++ [(host, (tokens, now))], false)
  end.

(** The hosts caught, oldest first. *)
Definition poison_host (set_ : list str) (host : str) : list str :=
  keep_newest POISONED_MAX (List.filter (fun h => negb (bool_decide (h = host))) set_ ++ [host]).

Definition parse_rate `{F64Text} (cfg : Config) : result str (spec_float * spec_float) :=
  let defaults := (ConfigValues.f64_of_int 10, ConfigValues.f64_of_int 50) in
  match cfg_get cfg (lit "rate_limit") with
  | None => Ok defaults
  | Some v =>
      if negb (truthy v) then Ok defaults
      else
        match v with
        | VMapping rl =>
            let! rate := match mget rl (lit "requests_per_second") with
                         | None => Ok (ConfigValues.f64_of_int 10)
                         | v => match ConfigValues.as_f64 v with
                                | Some f => Ok f | None => Err (lit "rate_limit.requests_per_second is not a number")
                                end
                         end in
            let! burst := match mget rl (lit "burst") with
                          | None => Ok 50
                          | v => match ConfigValues.as_i64 v with
                                 | Some i => Ok i | None => Err (lit "rate_limit.burst is not an integer")
                                 end
                          end in
            Ok (rate, ConfigValues.f64_of_int burst)
        | _ => Err (lit "rate_limit must be a mapping")
        end
  end.

(** ** The engine *)

(** What the outside is at the moment of one operation. *)
Record Env : Type := mkEnv {
  clock : DateTime;             (** [DateTime::now_utc] *)
  instant : Z;                  (** [Instant::now] *)
  chain_now : Timestamp;        (** the domain inspector's clock *)
  takes : bytes -> bytes;       (** what the audit file takes of a line *)
  config_path : option str;
  config_mtime : option Z;      (** the file's, as the call reads it *)
  config_load : result str Config;
  policy_env : Policy.PolicyEnv;
  capture_path : bool; capture_opened : result str unit; capture_io : Capture.FileIo
}.

Section Engine.
Context `{Unicode} `{Policy.UnicodeUpper} `{F64Text} `{StrDebug} `{Secrets.RegexEngine} `{Secrets.Env} `{Entropy.Log2}.
Context `{Chain.PluginLoader} `{Forms.Crates} `{BodyCodec.Codecs} `{Rules.Transforms} `{Policy.OverlayFile} `{Capture.MappingEq}.
Context (BASE64_RE : Secrets.Regex).
#[export] Instance yaml_numbers : Limits.NumberText := {| Limits.number_to_string := Rules.number_display |}.

Record Live : Type := mkLive {
  l_cfg : Config; l_chain : Chain.Chain; l_log_allowed : bool; l_rate : spec_float; l_burst : spec_float;
  l_passthrough : Transport.PassthroughMatcher; l_limits : Limits.EgressConfig
}.
Record Prepared : Type := mkPrepared {
  p_cfg : Config; p_chain : Chain.PendingChain; p_rate : spec_float; p_burst : spec_float; p_limits : Limits.EgressConfig
}.
(** The relays' settings a reload hands them, in order. *)
Record RelayJob : Type := mkJob { j_cfg : Config; j_log_allowed : bool; j_inspectors : list Chain.Member }.
(** The domain inspector and the Policy API's files are shared: the API, while
    there is one, works on them. *)
Record Engine : Type := mkEngine {
  live : Live; epoch : Z; applied : option Z; reported : option Z;
  audit : AuditWriter; injector : Rules.Injector; transforms : Rules.World; capture : Capture.State;
  domain : DomainInspector.State; policy : option Policy.PolicyApi; policy_files : Policy.World;
  rate : Buckets; poisoned : list str; transport : option Limits.TransportLink; relay_jobs : list RelayJob
}.

Definition set_live (g : Engine) (l : Live) : Engine :=
  mkEngine l (epoch g + 1) (applied g) (reported g) (audit g) (injector g) (transforms g) (capture g) (domain g) (policy g)
    (policy_files g) (rate g) (poisoned g) (transport g) (relay_jobs g).
Definition set_reload (g : Engine) (applied reported : option Z) : Engine :=
  mkEngine (live g) (epoch g) applied reported (audit g) (injector g) (transforms g) (capture g) (domain g) (policy g)
    (policy_files g) (rate g) (poisoned g) (transport g) (relay_jobs g).
Definition set_audit (g : Engine) (a : AuditWriter) : Engine :=
  mkEngine (live g) (epoch g) (applied g) (reported g) a (injector g) (transforms g) (capture g) (domain g) (policy g)
    (policy_files g) (rate g) (poisoned g) (transport g) (relay_jobs g).
Definition set_injector (g : Engine) (w : Rules.World) (i : Rules.Injector) : Engine :=
  mkEngine (live g) (epoch g) (applied g) (reported g) (audit g) i w (capture g) (domain g) (policy g)
    (policy_files g) (rate g) (poisoned g) (transport g) (relay_jobs g).
Definition set_capture (g : Engine) (c : Capture.State) : Engine :=
  mkEngine (live g) (epoch g) (applied g) (reported g) (audit g) (injector g) (transforms g) c (domain g) (policy g)
    (policy_files g) (rate g) (poisoned g) (transport g) (relay_jobs g).
Definition set_domain (g : Engine) (d : DomainInspector.State) : Engine :=
  mkEngine (live g) (epoch g) (applied g) (reported g) (audit g) (injector g) (transforms g) (capture g) d (policy g)
    (policy_files g) (rate g) (poisoned g) (transport g) (relay_jobs g).
(** The API after an operation, its domain inspector and files with it. *)
Definition set_policy (g : Engine) (a : option Policy.PolicyApi) : Engine :=
  mkEngine (live g) (epoch g) (applied g) (reported g) (audit g) (injector g) (transforms g) (capture g)
    (match a with Some a => Policy.dom a | None => domain g end) a
    (match a with Some a => Policy.world a | None => policy_files g end) (rate g) (poisoned g) (transport g) (relay_jobs g).
Definition set_hosts (g : Engine) (r : Buckets) (p : list str) : Engine :=
  mkEngine (live g) (epoch g) (applied g) (reported g) (audit g) (injector g) (transforms g) (capture g) (domain g) (policy g)
    (policy_files g) r p (transport g) (relay_jobs g).
Definition set_transport (g : Engine) (t : option Limits.TransportLink) : Engine :=
  mkEngine (live g) (epoch g) (applied g) (reported g) (audit g) (injector g) (transforms g) (capture g) (domain g) (policy g)
    (policy_files g) (rate g) (poisoned g) t (relay_jobs g).
Definition add_job (g : Engine) (j : RelayJob) : Engine :=
  mkEngine (live g) (epoch g) (applied g) (reported g) (audit g) (injector g) (transforms g) (capture g) (domain g) (policy g)
    (policy_files g) (rate g) (poisoned g) (transport g) (relay_jobs g ++ [j]).
(** The API as it sees the shared inspector and files now. *)
Definition policy_api (g : Engine) : option Policy.PolicyApi :=
  option_map (fun a => Policy.set_world (Policy.set_dom a (domain g)) (policy_files g)) (policy g).

(** The injector is the audit writer's redactor. *)
Definition engine_sink (e : Env) : AuditSink Engine := {|
  emit := fun entry g =>
    let '(i, redacted) := Injector.redact_json (transforms g) (injector g) entry in
    set_audit (set_injector g (transforms g) i) (writer_write (fun _ => redacted) (clock e) (takes e) entry (audit g));
  emit_ring_only := fun entry g =>
    let '(i, redacted) := Injector.redact_json (transforms g) (injector g) entry in
    set_audit (set_injector g (transforms g) i) (writer_ring_only (fun _ => redacted) entry (audit g))
|}.

(** [None] is a panic of the chain's builder. *)
Definition prepare (cfg : Config) : option (result str Prepared) :=
  match Limits.from_yaml (cfg_get cfg (lit "egress")) with
  | Err e => Some (Err e)
  | Ok limits =>
      let? built := Chain.build_chain BASE64_RE cfg in
      Some (let! chain := built in
            let! rb := parse_rate cfg in
            Ok (mkPrepared cfg chain rb.1 rb.2 limits))
  end.

Definition apply_limits (limits : Limits.EgressConfig) (g : Engine) : Engine :=
  set_transport g (option_map (fun link => (Limits.apply_limits link limits).1) (transport g)).
Definition attach_transport (link : Limits.TransportLink) (g : Engine) : Engine :=
  match transport g with
  | Some _ => g
  | None => apply_limits (l_limits (live g)) (set_transport g (Some link))
  end.
Definition apply_policy (e : Env) (cfg : Config) (g : Engine) : Engine :=
  if negb (Settings.decider_enabled cfg) then set_policy g None
  else
    match policy_api g with
    | Some api =>
        match Policy.reconfigure (policy_env e) cfg (Rules.read_secret (transforms g)) None api with
        | Ok api => set_policy g (Some api)
        | Err _ => set_policy g None
        end
    | None =>
        match Policy.new_api (policy_env e) cfg (Rules.read_secret (transforms g)) (domain g) (policy_files g) with
        | Ok api => set_policy g (Some api)
        | Err _ => g
        end
    end.
(** The watcher, which reads what this leaves, is outside the model. *)
Definition apply (e : Env) (p : Prepared) (g : Engine) : Engine :=
  let '(d, chain) := Chain.commit (p_chain p) (domain g) in
  let g := set_domain g d in
  let '(w, i) := Rules.configure_with (transforms g) (injector g) (cfg_get (p_cfg p) (lit "secret_injection")) in
  let g := set_injector g w i in
  let log := log_allowed (p_cfg p) in
  let passthrough := Transport.new_matcher (str_list (mget (cfg_section (p_cfg p) (lit "domains")) (lit "passthrough"))) in
  let g := add_job g (mkJob (p_cfg p) log (Chain.relay_inspectors chain)) in
  let g := set_capture g (Capture.reconfigure (capture_path e) (capture_opened e) (p_cfg p) (capture g)).1 in
  let g := apply_limits (p_limits p) (apply_policy e (p_cfg p) g) in
  set_live g (mkLive (p_cfg p) chain log (p_rate p) (p_burst p) passthrough (p_limits p)).

(** ** Reload *)

Definition config_changed (e : Env) (g : Engine) : bool :=
  bool_decide (is_Some (config_path e)) && bool_decide (is_Some (config_mtime e)) && negb (bool_decide (config_mtime e = applied g)).
Definition report (e : Env) (path : str) (stamp : Z) (error : str) (g : Engine) : Engine :=
  if bool_decide (reported g = Some stamp) then g
  else emit (AuditSink := engine_sink e) (config_reload_failed (clock e) path error) (set_reload g (applied g) (Some stamp)).
(** [free]: no other reload holds the lock. *)
Definition reload_if_changed (e : Env) (free : bool) (g : Engine) : option Engine :=
  match config_path e, config_mtime e with
  | Some path, Some stamp =>
      if negb free || bool_decide (applied g = Some stamp) then Some g
      else
        match config_load e with
        | Err error => Some (report e path stamp error g)
        | Ok cfg =>
            let g := set_reload g (Some stamp) (reported g) in
            let? prepared := prepare cfg in
            Some match prepared with
                 | Ok p => apply e p g
                 | Err error => report e path stamp error g
                 end
        end
  | _, _ => Some g
  end.

Definition refuse (reason : str) : option Live :=
  option_map (fun chain => mkLive (mkConfig VNull) chain false (ConfigValues.f64_of_int 10) (ConfigValues.f64_of_int 50)
                             Transport.no_passthrough Limits.default_egress) (Chain.refuse_all reason).
(** [g0] holds the sinks, the files and the transforms the process starts with. *)
Definition boot (e : Env) (w : Rules.World) (a : AuditWriter) (c : Capture.State) (files : Policy.World) : option Engine :=
  let? l := refuse (lit "no config loaded yet") in
  let g := mkEngine l 0 None None a Rules.new_injector w c DomainInspector.new_state None files [] [] None [] in
  match config_path e with
  | None => let? prepared := prepare (mkConfig VNull) in match prepared with Ok p => Some (apply e p g) | Err _ => None end
  | Some path =>
      let? prepared := match config_load e with Ok cfg => prepare cfg | Err error => Some (Err error) end in
      match prepared with
      | Ok p => Some (apply e p (set_reload g (config_mtime e) None))
      | Err error =>
          let? l := refuse error in
          Some (emit (AuditSink := engine_sink e) (config_reload_failed (clock e) path error)
                  (set_reload (set_live g l) None (config_mtime e)))
      end
  end.

(** ** The gates *)

Definition rate_allows (e : Env) (host : str) (l : Live) (g : Engine) : Engine * bool :=
  let '(b, ok) := check (rate g) host (l_rate l) (l_burst l) (instant e) in (set_hosts g b (poisoned g), ok).
Definition is_poisoned (g : Engine) (host : str) : bool := bool_decide (host ∈ poisoned g).
Definition poison (host : str) (g : Engine) : Engine := set_hosts g (rate g) (poison_host (poisoned g) host).
(** The sweeper's tick, its records emitted. *)
Definition sweep (e : Env) (g : Engine) : Engine :=
  match policy_api g with
  | None => g
  | Some api =>
      let '(api, records) := Policy.sweeper_tick (policy_env e) api in
      fold_left (fun g r => emit (AuditSink := engine_sink e) r g) records (set_policy g (Some api))
  end.
End Engine.
