(* ===== verification/Text.v ===== *)
(** The text inspectors read a body as: the model of the charset half of
    [agentcage-egress/src/text.rs] ([get_text]). *)
From S2P Require Import Prelude Utf8 Message.
From S2P Require BodyCodec.
From S2P Require Import ConfigValues.
From Stdlib Require Import ZifyBool.

(** * Definitions *)

(** [regex::bytes]: the first capture group of the leftmost match, when there is
    a match and the group took part in it. *)
Class BytesRegex := { capture1 : str -> bytes -> option bytes }.
(** The tables of [encoding_rs] used. *)
Inductive Encoding : Type :=
  | WINDOWS_1250 | WINDOWS_1251 | WINDOWS_1252 | WINDOWS_1253 | WINDOWS_1254 | WINDOWS_1255 | WINDOWS_1256
  | WINDOWS_1257 | WINDOWS_1258 | ISO_8859_2 | ISO_8859_3 | ISO_8859_4 | ISO_8859_5 | ISO_8859_6 | ISO_8859_7
  | ISO_8859_8 | ISO_8859_10 | ISO_8859_13 | ISO_8859_14 | ISO_8859_15 | ISO_8859_16 | KOI8_R | KOI8_U
  | GB18030.
(** [decode_without_bom_handling_and_without_replacement]. *)
Class EncodingRs := { decode_strict : Encoding -> bytes -> option str }.

(** ** The charset of a body *)

Definition contains (s sub : str) : bool := bool_decide (is_Some (find_sub sub s)).
(** A repeated name keeps its place and takes the last value. *)
Fixpoint set_param (out : list (str * str)) (k v : str) : list (str * str) :=
  match out with
  | [] => [(k, v)]
  | slot :: out => if bool_decide (slot.1 = k) then (slot.1, v) :: out else slot :: set_param out k v
  end.
Definition add_clause (out : list (str * str)) (clause : str) : list (str * str) :=
  match split_once 61 clause with
  | Some (k, v) => set_param out (trim_matches is_strip_space k) (trim_matches is_strip_space v)
  | None => out
  end.
Definition ascii_only (l : bytes) : str := List.filter (fun b => b <? 128) l.
Definition HTML_META : str := lit "(?i-u)<meta[^>]+charset=['" ++ [34] ++ lit "]?([^'" ++ [34] ++ lit ">]+)".
Definition XML_DECL : str := lit "(?i-u)<\?xml[^?>]+encoding=['" ++ [34] ++ lit "]([^'" ++ [34] ++ lit "?>]+)".
Definition CSS_CHARSET : str := lit "(?i-u)\A@charset " ++ [34] ++ lit "([^" ++ [34] ++ lit "]+)" ++ [34] ++ lit ";".

(** ** The codecs *)

Definition SUPPORTED_CODECS : list str := map lit
  ["ascii"; "cp1250"; "cp1251"; "cp1252"; "cp1253"; "cp1254"; "cp1255"; "cp1256"; "cp1257"; "cp1258"; "gb18030";
   "iso8859-1"; "iso8859-10"; "iso8859-13"; "iso8859-14"; "iso8859-15"; "iso8859-16"; "iso8859-2"; "iso8859-3";
   "iso8859-4"; "iso8859-5"; "iso8859-6"; "iso8859-7"; "iso8859-8"; "iso8859-9"; "koi8-r"; "koi8-u"; "utf-16";
   "utf-16-be"; "utf-16-le"; "utf-32"; "utf-32-be"; "utf-32-le"; "utf-8"; "utf-8-sig"]%string.
Definition MODULES : list (str * str) := map (fun e => (lit e.1, lit e.2))
  [("ascii", "ascii"); ("cp1250", "cp1250"); ("cp1251", "cp1251"); ("cp1252", "cp1252"); ("cp1253", "cp1253");
   ("cp1254", "cp1254"); ("cp1255", "cp1255"); ("cp1256", "cp1256"); ("cp1257", "cp1257"); ("cp1258", "cp1258");
   ("gb18030", "gb18030"); ("iso8859_10", "iso8859-10"); ("iso8859_13", "iso8859-13"); ("iso8859_14", "iso8859-14");
   ("iso8859_15", "iso8859-15"); ("iso8859_16", "iso8859-16"); ("iso8859_2", "iso8859-2"); ("iso8859_3", "iso8859-3");
   ("iso8859_4", "iso8859-4"); ("iso8859_5", "iso8859-5"); ("iso8859_6", "iso8859-6"); ("iso8859_7", "iso8859-7");
   ("iso8859_8", "iso8859-8"); ("iso8859_9", "iso8859-9"); ("koi8_r", "koi8-r"); ("koi8_u", "koi8-u");
   ("latin_1", "iso8859-1"); ("utf_16", "utf-16"); ("utf_16_be", "utf-16-be"); ("utf_16_le", "utf-16-le");
   ("utf_32", "utf-32"); ("utf_32_be", "utf-32-be"); ("utf_32_le", "utf-32-le"); ("utf_8", "utf-8");
   ("utf_8_sig", "utf-8-sig")]%string.
Definition ALIASES : list (str * str) := map (fun e => (lit e.1, lit e.2))
  [("1250", "cp1250"); ("1251", "cp1251"); ("1252", "cp1252"); ("1253", "cp1253"); ("1254", "cp1254");
   ("1255", "cp1255"); ("1256", "cp1256"); ("1257", "cp1257"); ("1258", "cp1258"); ("646", "ascii");
   ("8859", "latin_1"); ("ansi_x3.4_1968", "ascii"); ("ansi_x3.4_1986", "ascii"); ("ansi_x3_4_1968", "ascii");
   ("arabic", "iso8859_6"); ("asmo_708", "iso8859_6"); ("cp367", "ascii"); ("cp65001", "utf_8"); ("cp819", "latin_1");
   ("csascii", "ascii"); ("csisolatin1", "latin_1"); ("csisolatin2", "iso8859_2"); ("csisolatin3", "iso8859_3");
   ("csisolatin4", "iso8859_4"); ("csisolatin5", "iso8859_9"); ("csisolatin6", "iso8859_10");
   ("csisolatinarabic", "iso8859_6"); ("csisolatincyrillic", "iso8859_5"); ("csisolatingreek", "iso8859_7");
   ("csisolatinhebrew", "iso8859_8"); ("cskoi8r", "koi8_r"); ("cyrillic", "iso8859_5"); ("ecma_114", "iso8859_6");
   ("ecma_118", "iso8859_7"); ("elot_928", "iso8859_7"); ("gb18030_2000", "gb18030"); ("greek", "iso8859_7");
   ("greek8", "iso8859_7"); ("hebrew", "iso8859_8"); ("ibm367", "ascii"); ("ibm819", "latin_1");
   ("iso646_us", "ascii"); ("iso8859", "latin_1"); ("iso8859_1", "latin_1"); ("iso_646.irv_1991", "ascii");
   ("iso_8859_1", "latin_1"); ("iso_8859_10", "iso8859_10"); ("iso_8859_10_1992", "iso8859_10");
   ("iso_8859_13", "iso8859_13"); ("iso_8859_14", "iso8859_14"); ("iso_8859_14_1998", "iso8859_14");
   ("iso_8859_15", "iso8859_15"); ("iso_8859_16", "iso8859_16"); ("iso_8859_16_2001", "iso8859_16");
   ("iso_8859_1_1987", "latin_1"); ("iso_8859_2", "iso8859_2"); ("iso_8859_2_1987", "iso8859_2");
   ("iso_8859_3", "iso8859_3"); ("iso_8859_3_1988", "iso8859_3"); ("iso_8859_4", "iso8859_4");
   ("iso_8859_4_1988", "iso8859_4"); ("iso_8859_5", "iso8859_5"); ("iso_8859_5_1988", "iso8859_5");
   ("iso_8859_6", "iso8859_6"); ("iso_8859_6_1987", "iso8859_6"); ("iso_8859_7", "iso8859_7");
   ("iso_8859_7_1987", "iso8859_7"); ("iso_8859_8", "iso8859_8"); ("iso_8859_8_1988", "iso8859_8");
   ("iso_8859_9", "iso8859_9"); ("iso_8859_9_1989", "iso8859_9"); ("iso_celtic", "iso8859_14");
   ("iso_ir_100", "latin_1"); ("iso_ir_101", "iso8859_2"); ("iso_ir_109", "iso8859_3"); ("iso_ir_110", "iso8859_4");
   ("iso_ir_126", "iso8859_7"); ("iso_ir_127", "iso8859_6"); ("iso_ir_138", "iso8859_8"); ("iso_ir_144", "iso8859_5");
   ("iso_ir_148", "iso8859_9"); ("iso_ir_157", "iso8859_10"); ("iso_ir_199", "iso8859_14");
   ("iso_ir_226", "iso8859_16"); ("iso_ir_6", "ascii"); ("l1", "latin_1"); ("l10", "iso8859_16"); ("l2", "iso8859_2");
   ("l3", "iso8859_3"); ("l4", "iso8859_4"); ("l5", "iso8859_9"); ("l6", "iso8859_10"); ("l7", "iso8859_13");
   ("l8", "iso8859_14"); ("l9", "iso8859_15"); ("latin", "latin_1"); ("latin1", "latin_1"); ("latin10", "iso8859_16");
   ("latin2", "iso8859_2"); ("latin3", "iso8859_3"); ("latin4", "iso8859_4"); ("latin5", "iso8859_9");
   ("latin6", "iso8859_10"); ("latin7", "iso8859_13"); ("latin8", "iso8859_14"); ("latin9", "iso8859_15");
   ("u16", "utf_16"); ("u32", "utf_32"); ("u8", "utf_8"); ("unicodebigunmarked", "utf_16_be");
   ("unicodelittleunmarked", "utf_16_le"); ("us", "ascii"); ("us_ascii", "ascii"); ("utf", "utf_8");
   ("utf16", "utf_16"); ("utf32", "utf_32"); ("utf8", "utf_8"); ("utf8_ucs2", "utf_8"); ("utf8_ucs4", "utf_8");
   ("utf_16be", "utf_16_be"); ("utf_16le", "utf_16_le"); ("utf_32be", "utf_32_be"); ("utf_32le", "utf_32_le");
   ("windows_1250", "cp1250"); ("windows_1251", "cp1251"); ("windows_1252", "cp1252"); ("windows_1253", "cp1253");
   ("windows_1254", "cp1254"); ("windows_1255", "cp1255"); ("windows_1256", "cp1256"); ("windows_1257", "cp1257");
   ("windows_1258", "cp1258")]%string.
Definition BYTE_CODECS : list str := map lit
  ["none"; "identity"; "gzip"; "deflate"; "deflateraw"; "br"; "zstd"]%string.
Definition table_get (t : list (str * str)) (name : str) : option str :=
  option_map snd (find (fun e => bool_decide (e.1 = name)) t).

(** The label with every run of other characters folded to one underscore. *)
Definition norm_step (acc : str * bool) (b : Z) : str * bool :=
  let '(norm, punct) := acc in
  if is_ascii_alphanumeric b || (b =? 46) then
    ((if punct && negb (bool_decide (norm = [])) then norm ++ [95] else norm) ++ [ascii_lower b], false)
  else (norm, true).
Definition norm_label (lower : str) : str := (fold_left norm_step (as_bytes lower) ([], false)).1.

(** [char::decode_utf16], any lone surrogate an error. *)
Fixpoint utf16_chars (units : list Z) : option str :=
  match units with
  | [] => Some []
  | u :: units =>
      if negb (in_range 55296 57343 u) then option_map (cons u) (utf16_chars units)
      else if 56320 <=? u then None
      else
        match units with
        | u2 :: units =>
            if in_range 56320 57343 u2 then
              option_map (cons (65536 + Z.lor (Z.shiftl (Z.land u 1023) 10) (Z.land u2 1023))) (utf16_chars units)
            else None
        | [] => None
        end
  end.
Fixpoint units16 (big : bool) (l : bytes) : list Z :=
  match l with a :: b :: l => (if big then a * 256 + b else b * 256 + a) :: units16 big l | _ => [] end.
Definition decode_utf16 (content : bytes) (big : bool) : option str :=
  if negb (Nat.eqb (length content mod 2) 0) then None else utf16_chars (units16 big content).
(** [char::from_u32]. *)
Definition from_u32 (c : Z) : option Z := if (c <? 1114112) && negb (in_range 55296 57343 c) then Some c else None.
Fixpoint units32 (big : bool) (l : bytes) : list Z :=
  match l with
  | a :: b :: c :: d :: l => (if big then BodyCodec.be32 [a; b; c; d] else BodyCodec.le32 [a; b; c; d]) :: units32 big l
  | _ => []
  end.
Definition decode_utf32 (content : bytes) (big : bool) : option str :=
  if negb (Nat.eqb (length content mod 4) 0) then None else all_some (map from_u32 (units32 big content)).

(** [slice::strip_prefix]. *)
Definition strip_bytes (p l : bytes) : option bytes := if starts_with l p then Some (drop (length p) l) else None.
(** The body after a byte-order mark, and whether it is big-endian. *)
Definition utf16_body (content : bytes) : bytes * bool :=
  match strip_bytes [255; 254] content, strip_bytes [254; 255] content with
  | Some rest, _ => (rest, false) | None, Some rest => (rest, true) | None, None => (content, false)
  end.
Definition utf32_body (content : bytes) : bytes * bool :=
  match strip_bytes [255; 254; 0; 0] content, strip_bytes [0; 0; 254; 255] content with
  | Some rest, _ => (rest, false) | None, Some rest => (rest, true) | None, None => (content, false)
  end.

(** The byte length of the ill-formed prefix at the front of [l]: what
    [str::utf8_chunks] calls the invalid part of a chunk. *)
Definition invalid_len (l : bytes) : nat :=
  match l with
  | b :: c :: rest =>
      if in_range 224 239 b then (if second_ok3 b c then 2 else 1)%nat
      else if in_range 240 244 b then
        (if second_ok4 b c then match rest with d :: _ => if is_cont d then 3 else 2 | [] => 2 end else 1)%nat
      else 1%nat
  | _ => 1%nat
  end.
Fixpoint replace_each (items : list (option Z)) (l : bytes) : str :=
  match items with
  | [] => []
  | Some c :: items => c :: replace_each items (drop (length (utf8_char c)) l)
  | None :: items => repeat 65533 (invalid_len l) ++ replace_each items (drop (invalid_len l) l)
  end.
Definition utf8_replacing_each_byte (content : bytes) : str := replace_each (utf8_decode content) content.

Definition TABLES : list (str * (Encoding * bool)) := map (fun e => (lit e.1, e.2))
  [("cp1250", (WINDOWS_1250, true)); ("cp1251", (WINDOWS_1251, true)); ("cp1252", (WINDOWS_1252, true));
   ("cp1253", (WINDOWS_1253, true)); ("cp1254", (WINDOWS_1254, true)); ("cp1255", (WINDOWS_1255, true));
   ("cp1256", (WINDOWS_1256, true)); ("cp1257", (WINDOWS_1257, true)); ("cp1258", (WINDOWS_1258, true));
   ("iso8859-2", (ISO_8859_2, false)); ("iso8859-3", (ISO_8859_3, false)); ("iso8859-4", (ISO_8859_4, false));
   ("iso8859-5", (ISO_8859_5, false)); ("iso8859-6", (ISO_8859_6, false)); ("iso8859-7", (ISO_8859_7, false));
   ("iso8859-8", (ISO_8859_8, false)); ("iso8859-9", (WINDOWS_1254, false)); ("iso8859-10", (ISO_8859_10, false));
   ("iso8859-13", (ISO_8859_13, false)); ("iso8859-14", (ISO_8859_14, false)); ("iso8859-15", (ISO_8859_15, false));
   ("iso8859-16", (ISO_8859_16, false)); ("koi8-r", (KOI8_R, false)); ("koi8-u", (KOI8_U, false))]%string.
Definition GB18030_2005 : list (bytes * Z) :=
  [([163; 160], 58853); ([166; 217], 59277); ([166; 218], 59278); ([166; 219], 59279); ([166; 220], 59280);
   ([166; 221], 59281); ([166; 222], 59282); ([166; 223], 59283); ([166; 236], 59284); ([166; 237], 59285);
   ([166; 243], 59286); ([168; 188], 59335); ([254; 89], 59422); ([254; 97], 59430); ([254; 102], 59435);
   ([254; 103], 59436); ([254; 109], 59442); ([254; 126], 59459); ([254; 144], 59476); ([254; 160], 59492);
   ([129; 53; 244; 55], 7743)].

Section Text.
Context `{Unicode} `{BytesRegex} `{EncodingRs}.

Definition parse_content_type (value : str) : option (str * str * list (str * str)) :=
  let '(main, params) := match split_once 59 value with Some (m, p) => (m, Some p) | None => (value, None) end in
  let? (kind, sub) := split_once 47 main in
  let out := fold_left add_clause (match params with Some p => split_on 59 p | None => [] end) [] in
  Some (to_lowercase kind, to_lowercase sub, out).

Definition unset (e : option str) : bool := match e with Some e => bool_decide (e = []) | None => true end.
Definition from_pattern (re : str) (content : bytes) : str :=
  match capture1 re content with Some m => ascii_only m | None => lit "utf8" end.
Definition infer_charset (content_type : str) (content : bytes) : str :=
  let enc :=
    if starts_with content [0; 0; 254; 255] then Some (lit "utf-32be")
    else if starts_with content [255; 254; 0; 0] then Some (lit "utf-32le")
    else if starts_with content [254; 255] then Some (lit "utf-16be")
    else if starts_with content [255; 254] then Some (lit "utf-16le")
    else if starts_with content [239; 187; 191] then Some (lit "utf-8-sig")
    else
      let? parsed := parse_content_type content_type in
      option_map snd (find (fun e => bool_decide (e.1 = lit "charset")) parsed.2) in
  let enc := if unset enc && contains content_type (lit "json") then Some (lit "utf8") else enc in
  let enc := if unset enc && contains content_type (lit "html") then Some (from_pattern HTML_META content) else enc in
  let enc := if unset enc && contains content_type (lit "xml") then Some (from_pattern XML_DECL content) else enc in
  let enc := if unset enc && (contains content_type (lit "javascript") || contains content_type (lit "ecmascript"))
             then Some (lit "utf8") else enc in
  let enc := if unset enc && contains content_type (lit "text/css") then Some (from_pattern CSS_CHARSET content) else enc in
  let enc := match enc with Some e => if bool_decide (e = []) then lit "latin-1" else e | None => lit "latin-1" end in
  let lower := to_lowercase enc in
  if bool_decide (lower = lit "gb2312") || bool_decide (lower = lit "gbk") then lit "gb18030" else enc.

Definition resolve_codec (label : str) : option str :=
  if bool_decide (0 ∈ label) then None
  else
    let norm := norm_label (to_lowercase label) in
    let aliased := match table_get ALIASES norm with
                   | Some m => Some m
                   | None => table_get ALIASES (map (fun c => if c =? 46 then 95 else c) norm)
                   end in
    let candidates := match aliased with Some m => [m; norm] | None => [norm] end in
    head (omap (table_get MODULES) (List.filter (fun m => negb (bool_decide (m = [])) && negb (bool_decide (46 ∈ m))) candidates)).

(** One byte of a single-byte codec. *)
Definition table_char (codec : str) (encoding : Encoding) (windows : bool) (byte : Z) : option Z :=
  let c := (let? s := decode_strict encoding [byte] in head s) in
  let c1 := in_range 128 159 byte in
  if windows && c1 && bool_decide (c = Some byte) then None
  else if bool_decide (codec = lit "cp1255") && (byte =? 202) then None
  else if bool_decide (codec = lit "iso8859-9") && c1 then Some byte
  else if bool_decide (codec = lit "koi8-u") && (byte =? 174) then Some 9565
  else if bool_decide (codec = lit "koi8-u") && (byte =? 190) then Some 9580
  else c.
Definition single_byte_table (codec : str) : option (Z -> option Z) :=
  let? e := find (fun e => bool_decide (e.1 = codec)) TABLES in Some (table_char codec e.2.1 e.2.2).

Definition gb18030_len (content : bytes) (pos : nat) (b : Z) : nat :=
  if in_range 129 254 b then match content !! S pos with Some x => if in_range 48 57 x then 4 else 2 | None => 2 end%nat else 1%nat.
(** The loop, from [pos], the text of the run before [run_start] in [out]. *)
Fixpoint gb18030_loop (fuel : nat) (content : bytes) (run_start pos : nat) (out : str) : option str :=
  match fuel, content !! pos with
  | S fuel, Some b =>
      if b =? 128 then None
      else
        let len := gb18030_len content pos b in
        let seq := take len (drop pos content) in
        match find (fun e => bool_decide (e.1 = seq)) GB18030_2005 with
        | Some (_, c) =>
            let? text := decode_strict GB18030 (take (pos - run_start) (drop run_start content)) in
            gb18030_loop fuel content (pos + len) (pos + len) (out ++ text ++ [c])
        | None => gb18030_loop fuel content run_start (pos + len) out
        end
  | _, _ => let? text := decode_strict GB18030 (drop run_start content) in Some (out ++ text)
  end.
Definition decode_gb18030 (content : bytes) : option str := gb18030_loop (length content) content 0 0 [].

Definition decode_with_codec (content : bytes) (codec : str) : option str :=
  if bool_decide (codec = lit "utf-8") then from_utf8 content
  else if bool_decide (codec = lit "utf-8-sig") then from_utf8 (default content (strip_bytes [239; 187; 191] content))
  else if bool_decide (codec = lit "ascii") then (if forallb (fun b => b <? 128) content then Some content else None)
  else if bool_decide (codec = lit "iso8859-1") then Some content
  else if bool_decide (codec = lit "utf-16") then let '(body, big) := utf16_body content in decode_utf16 body big
  else if bool_decide (codec = lit "utf-16-le") then decode_utf16 content false
  else if bool_decide (codec = lit "utf-16-be") then decode_utf16 content true
  else if bool_decide (codec = lit "utf-32") then let '(body, big) := utf32_body content in decode_utf32 body big
  else if bool_decide (codec = lit "utf-32-le") then decode_utf32 content false
  else if bool_decide (codec = lit "utf-32-be") then decode_utf32 content true
  else if bool_decide (codec = lit "gb18030") then decode_gb18030 content
  else let? table := single_byte_table codec in all_some (map table content).
Definition decode_charset (content : bytes) (label : str) : option str :=
  if bool_decide (to_lowercase label ∈ BYTE_CODECS) then None
  else let? codec := resolve_codec label in decode_with_codec content codec.
Definition decode_text (content_type : str) (content : bytes) : str :=
  default (utf8_replacing_each_byte content) (decode_charset content (infer_charset content_type content)).
Definition get_text `{BodyCodec.Codecs} (headers : Headers) (raw : bytes) : str :=
  decode_text (default [] (header_get headers (lit "content-type"))) (BodyCodec.decoded_body_lenient headers raw).
End Text.

(** * Theorems *)

(** ** Ill-formed UTF-8 *)

Abbreviation octet b := (0 <= b < 256).

Lemma mod_shift a k m : 0 <= k < m -> (a * m + k) mod m = k.
Proof. intros Hk. rewrite Z.add_comm, Z.mod_add by lia. by apply Z.mod_small. Qed.
Lemma div_shift a k m : 0 <= k < m -> (a * m + k) / m = a.
Proof. intros Hk. rewrite Z.div_add_l, Z.div_small by lia. lia. Qed.
(** A sequence is the encoding of what it decodes to. *)
Lemma utf8_pieces2 b c : in_range 194 223 b = true -> is_cont c = true -> utf8_char ((b - 192) * 64 + (c - 128)) = [b; c].
Proof.
  unfold is_cont, in_range, utf8_char. intros Hb Hc. decide_cmp. rewrite div_shift, mod_shift by lia. repeat f_equal; lia.
Qed.
Lemma utf8_pieces3 b c d : in_range 224 239 b = true -> second_ok3 b c = true -> is_cont d = true ->
  utf8_char (((b - 224) * 64 + (c - 128)) * 64 + (d - 128)) = [b; c; d].
Proof.
  unfold is_cont, in_range. intros Hb Hc Hd.
  assert (Hc' : 128 <= c <= 191 /\ (b = 224 -> 160 <= c)).
  { unfold second_ok3, is_cont, in_range in Hc. destruct (Z.eqb_spec b 224), (Z.eqb_spec b 237); lia. }
  unfold utf8_char. decide_cmp. rewrite div_shift, !mod_shift by lia.
  replace (((b - 224) * 64 + (c - 128)) * 64 + (d - 128)) with ((b - 224) * 4096 + ((c - 128) * 64 + (d - 128))) by lia.
  rewrite div_shift by lia. repeat f_equal; lia.
Qed.
Lemma utf8_pieces4 b c d e : in_range 240 244 b = true -> second_ok4 b c = true -> is_cont d = true -> is_cont e = true ->
  utf8_char ((((b - 240) * 64 + (c - 128)) * 64 + (d - 128)) * 64 + (e - 128)) = [b; c; d; e].
Proof.
  unfold is_cont, in_range. intros Hb Hc Hd He.
  assert (Hc' : 128 <= c <= 191 /\ (b = 240 -> 144 <= c)).
  { unfold second_ok4, is_cont, in_range in Hc. destruct (Z.eqb_spec b 240), (Z.eqb_spec b 244); lia. }
  unfold utf8_char. decide_cmp. rewrite div_shift, !mod_shift by lia.
  replace ((((b - 240) * 64 + (c - 128)) * 64 + (d - 128)) * 64 + (e - 128))
    with (((b - 240) * 64 + (c - 128)) * 4096 + ((d - 128) * 64 + (e - 128))) by lia.
  rewrite div_shift, mod_shift by lia.
  replace (((b - 240) * 64 + (c - 128)) * 4096 + ((d - 128) * 64 + (e - 128)))
    with ((b - 240) * 262144 + ((c - 128) * 4096 + ((d - 128) * 64 + (e - 128)))) by lia.
  rewrite div_shift by lia. repeat f_equal; lia.
Qed.

(** One step of the decoder: a character, or an ill-formed prefix. *)
Lemma utf8_step l : l <> [] -> Forall (fun b => octet b) l ->
  (exists c r, l = utf8_char c ++ r /\ utf8_decode l = Some c :: utf8_decode r)
  \/ (utf8_decode l = None :: utf8_decode (drop (invalid_len l) l) /\ (1 <= invalid_len l <= length l)%nat).
Proof.
  intros Hne Ho. destruct l as [|b r]; [done|]. cbn [utf8_decode].
  destruct (Z.ltb_spec b 128).
  { left. exists b, r. rewrite utf8_char_ascii by done. done. }
  destruct (in_range 194 223 b) eqn:E2.
  { destruct r as [|c r]; [right; cbn; split; [done|lia]|]. destruct (is_cont c) eqn:Ec.
    - left. eexists _, r. split; [|done]. rewrite utf8_pieces2 by done. done.
    - right. unfold invalid_len. assert (in_range 224 239 b = false /\ in_range 240 244 b = false) as [-> ->] by (unfold in_range in *; lia).
      split; [done|cbn; lia]. }
  destruct (in_range 224 239 b) eqn:E3.
  { destruct r as [|c r]; [right; cbn; split; [done|lia]|]. unfold invalid_len. rewrite E3. destruct (second_ok3 b c) eqn:Ec; [|right; split; [done|cbn; lia]].
    destruct r as [|d r]; [right; cbn; split; [done|lia]|]. destruct (is_cont d) eqn:Ed; [|right; split; [done|cbn; lia]].
    left. eexists _, r. split; [|done]. rewrite utf8_pieces3 by done. done. }
  destruct (in_range 240 244 b) eqn:E4.
  { destruct r as [|c r]; [right; cbn; split; [done|lia]|]. unfold invalid_len. rewrite E3, E4. destruct (second_ok4 b c) eqn:Ec; [|right; split; [done|cbn; lia]].
    destruct r as [|d r]; [right; cbn; split; [done|lia]|]. destruct (is_cont d) eqn:Ed; [|right; split; [done|cbn; lia]].
    destruct r as [|e r]; [right; cbn; split; [done|lia]|]. destruct (is_cont e) eqn:Ee; [|right; split; [done|cbn; lia]].
    left. eexists _, r. split; [|done]. rewrite utf8_pieces4 by done. done. }
  right. unfold invalid_len. destruct r as [|c r]; [cbn; split; [done|lia]|]. rewrite E3, E4. split; [done|cbn; lia].
Qed.

(** What each character of the text stands for: its own encoding, or, for U+FFFD,
    one byte that is in no character. *)
Definition stands_for (c : Z) (piece : bytes) : Prop := piece = utf8_char c \/ (c = 65533 /\ exists b, piece = [b]).

Lemma concat_single (l : bytes) : concat (map (fun b => [b]) l) = l.
Proof. induction l as [|b l IH]; [done|]. cbn [map concat app]. by rewrite IH. Qed.
Lemma replace_each_spec l : Forall (fun b => octet b) l -> exists pieces, concat pieces = l /\ Forall2 stands_for (utf8_replacing_each_byte l) pieces.
Proof.
  unfold utf8_replacing_each_byte. induction (Nat.lt_wf_0_projected (@length Z) l) as [l _ IH]. intros Ho.
  destruct (decide (l = [])) as [->|Hne]; [by exists []|]. destruct (utf8_step l Hne Ho) as [(c & r & El & ->)|[-> Hlen]]; cbn [replace_each].
  - subst l. assert (Hl : (0 < length (utf8_char c))%nat) by (unfold utf8_char; repeat case_goal; cbn; lia).
    rewrite drop_app_length. apply Forall_app in Ho as [_ Ho]. destruct (IH r ltac:(rewrite length_app; lia) Ho) as (ps & <- & Hf).
    exists (utf8_char c :: ps). split; [done|]. constructor; [by left|done].
  - set (n := invalid_len l) in *. destruct (IH (drop n l)) as (ps & E & Hf); [rewrite length_drop; lia|by apply Forall_drop|].
    exists (map (fun b => [b]) (take n l) ++ ps). split.
    + by rewrite concat_app, E, concat_single, take_drop.
    + apply Forall2_app; [|done]. assert (Hn : n = length (take n l)) by (rewrite length_take; lia). rewrite Hn at 1. generalize (take n l). clear.
      intros t. induction t as [|b t IHt]; cbn [repeat map length]; constructor; [right; by eauto|exact IHt].
Qed.
Lemma replace_each_well_formed l s : Forall (fun b => octet b) l -> from_utf8 l = Some s -> utf8_replacing_each_byte l = s.
Proof.
  unfold from_utf8, utf8_replacing_each_byte. revert s. induction (Nat.lt_wf_0_projected (@length Z) l) as [l _ IH]. intros s Ho.
  destruct (decide (l = [])) as [->|Hne]; [by intros [= <-]|]. destruct (utf8_step l Hne Ho) as [(c & r & El & ->)|[-> Hlen]]; cbn [replace_each all_some]; [|done].
  subst l. assert (Hl : (0 < length (utf8_char c))%nat) by (unfold utf8_char; repeat case_goal; cbn; lia).
  rewrite drop_app_length. apply Forall_app in Ho as [_ Ho]. destruct (all_some (utf8_decode r)) as [t|] eqn:E; [|done].
  intros [= <-]. f_equal. apply IH; [rewrite length_app; lia|done..].
Qed.

(** ** Round trips *)

(** UTF-16 and UTF-32 as RFC 2781 and the Unicode standard write them. *)
Definition utf16_units (c : Z) : list Z :=
  if c <? 65536 then [c] else [55296 + (c - 65536) / 1024; 56320 + (c - 65536) mod 1024].
Definition unit_bytes (big : bool) (u : Z) : bytes := if big then [u / 256; u mod 256] else [u mod 256; u / 256].
Definition utf16_encode (big : bool) (s : str) : bytes := flat_map (unit_bytes big) (flat_map utf16_units s).
Definition quad_bytes (big : bool) (c : Z) : bytes :=
  let be := [c / 16777216; c / 65536 mod 256; c / 256 mod 256; c mod 256] in if big then be else rev be.
Definition utf32_encode (big : bool) (s : str) : bytes := flat_map (quad_bytes big) s.

Lemma units16_encode big us : units16 big (flat_map (unit_bytes big) us) = us.
Proof.
  induction us as [|u us IH]; [done|]. cbn [flat_map]. pose proof (Z.div_mod u 256). destruct big; cbn [unit_bytes app units16]; rewrite IH; f_equal; lia.
Qed.
Lemma surrogate_pair c : 65536 <= c < 1114112 ->
  let '(hi, lo) := (55296 + (c - 65536) / 1024, 56320 + (c - 65536) mod 1024) in
  55296 <= hi < 56320 /\ 56320 <= lo <= 57343 /\ 65536 + Z.lor (Z.shiftl (Z.land hi 1023) 10) (Z.land lo 1023) = c.
Proof.
  intros Hc. cbn zeta iota. set (q := (c - 65536) / 1024). set (r := (c - 65536) mod 1024).
  pose proof (Z.div_mod (c - 65536) 1024 ltac:(lia)) as E. pose proof (Z.mod_pos_bound (c - 65536) 1024 ltac:(lia)) as Hr. fold q r in E, Hr.
  assert (Hq : 0 <= q < 1024) by lia. split; [lia|]. split; [lia|]. change 1023 with (Z.ones 10). rewrite !Z.land_ones by lia.
  change (2 ^ 10) with 1024. replace (55296 + q) with (54 * 1024 + q) by lia. replace (56320 + r) with (55 * 1024 + r) by lia.
  rewrite !mod_shift by lia. rewrite (lor_shiftl_add q r 10) by (change (2 ^ 10) with 1024; lia). change (2 ^ 10) with 1024. lia.
Qed.
Lemma utf16_chars_encode s : Forall scalar s -> utf16_chars (flat_map utf16_units s) = Some s.
Proof.
  induction 1 as [|c s Hc _ IH]; [done|]. cbn [flat_map]. unfold utf16_units at 1. unfold scalar in Hc. destruct (Z.ltb_spec c 65536).
  - cbn [app utf16_chars]. assert (in_range 55296 57343 c = false) as -> by (unfold in_range; lia). cbn [negb]. by rewrite IH.
  - destruct (surrogate_pair c ltac:(lia)) as (Hhi & Hlo & E). set (hi := 55296 + _) in *. set (lo := 56320 + _) in *. cbn [app utf16_chars].
    assert (in_range 55296 57343 hi = true) as -> by (unfold in_range; lia). assert (in_range 56320 57343 lo = true) as -> by (unfold in_range; lia).
    destruct (Z.leb_spec 56320 hi); [lia|]. cbn [negb]. by rewrite E, IH.
Qed.
Lemma even_length big us : (length (flat_map (unit_bytes big) us) mod 2 = 0)%nat.
Proof.
  induction us as [|u us IH]; [done|]. cbn [flat_map]. rewrite length_app. replace (length (unit_bytes big u)) with 2%nat by (by destruct big).
  by rewrite <- (Nat.Div0.add_mod_idemp_r 2), IH.
Qed.
Lemma decode_utf16_encode big s : Forall scalar s -> decode_utf16 (utf16_encode big s) big = Some s.
Proof. intros Hs. unfold decode_utf16, utf16_encode. rewrite even_length, units16_encode. by apply utf16_chars_encode. Qed.
Lemma units32_encode big s : Forall scalar s -> units32 big (utf32_encode big s) = s.
Proof.
  induction 1 as [|c s Hc _ IH]; [done|]. unfold utf32_encode in *. cbn [flat_map]. unfold scalar in Hc.
  assert (E : ((c / 16777216 * 256 + c / 65536 mod 256) * 256 + c / 256 mod 256) * 256 + c mod 256 = c).
  { rewrite (Z.div_small c 16777216) by lia. assert (c / 65536 < 256) by (apply Z.div_lt_upper_bound; lia).
    assert (0 <= c / 65536) by (apply Z.div_pos; lia). rewrite (Z.mod_small (c / 65536)) by lia.
    pose proof (Z.div_mod c 256). pose proof (Z.div_mod (c / 256) 256). replace (c / 65536) with (c / 256 / 256) by (rewrite Z.div_div by lia; done). lia. }
  destruct big; cbn [quad_bytes rev app units32 BodyCodec.be32 BodyCodec.le32]; rewrite IH, E; done.
Qed.
Lemma decode_utf32_encode big s : Forall scalar s -> decode_utf32 (utf32_encode big s) big = Some s.
Proof.
  intros Hs. unfold decode_utf32. assert (length (utf32_encode big s) mod 4 = 0)%nat as ->.
  { unfold utf32_encode. clear Hs. induction s as [|c s IH]; [done|]. cbn [flat_map]. rewrite length_app. replace (length (quad_bytes big c)) with 4%nat by (by destruct big).
    by rewrite <- (Nat.Div0.add_mod_idemp_r 4), IH. }
  rewrite units32_encode by done. cbn [Nat.eqb negb]. induction Hs as [|c s Hc _ IH]; [done|]. cbn [map all_some].
  unfold from_u32 at 1. unfold scalar in Hc. assert ((c <? 1114112) && negb (in_range 55296 57343 c) = true) as -> by (unfold in_range; lia). by rewrite IH.
Qed.

Section TextTheorems.
Context `{Unicode} `{BytesRegex} `{EncodingRs}.

(** The labels a byte-order mark gives. *)
Lemma mark_label content label codec ct : infer_charset ct content = lit label ->
  to_lowercase (lit label) = lit label -> resolve_codec (lit label) = Some (lit codec) -> lit label ∉ BYTE_CODECS ->
  decode_text ct content = default (utf8_replacing_each_byte content) (decode_with_codec content (lit codec)).
Proof.
  intros Ei El Er Hb. unfold decode_text, decode_charset. rewrite Ei, El, Er. by rewrite bool_decide_eq_false_2.
Qed.
Ltac by_mark label codec :=
  rewrite (mark_label _ label codec); [|reflexivity|reflexivity|reflexivity|by apply (bool_decide_unpack _)].

(** A body that starts with a byte-order mark is read in the mark's encoding,
    whatever its Content-Type says, and reads back exactly the text that was
    encoded (the mark of UTF-16 and UTF-32 itself read as U+FEFF); the one pair of
    bytes that could be either mark is UTF-32 when two zero bytes follow. *)
Theorem marked_text ct s : Forall scalar s ->
  decode_text ct ([239; 187; 191] ++ as_bytes s) = s
  /\ decode_text ct ([254; 255] ++ utf16_encode true s) = 65279 :: s
  /\ (head s <> Some 0 -> decode_text ct ([255; 254] ++ utf16_encode false s) = 65279 :: s)
  /\ decode_text ct ([0; 0; 254; 255] ++ utf32_encode true s) = 65279 :: s
  /\ decode_text ct ([255; 254; 0; 0] ++ utf32_encode false s) = 65279 :: s.
Proof.
  intros Hs. assert (Hm : Forall scalar (65279 :: s)) by (constructor; [unfold scalar; lia|done]). split_and!.
  - by_mark "utf-8-sig"%string "utf-8-sig"%string.
    change (default _ _) with (default (utf8_replacing_each_byte ([239; 187; 191] ++ as_bytes s)) (from_utf8 (as_bytes s))).
    by rewrite from_utf8_as_bytes.
  - by_mark "utf-16be"%string "utf-16-be"%string. change ([254; 255] ++ utf16_encode true s) with (utf16_encode true (65279 :: s)).
    change (decode_with_codec ?c _) with (decode_utf16 c true). by rewrite decode_utf16_encode.
  - intros Hh. assert (Ei : infer_charset ct ([255; 254] ++ utf16_encode false s) = lit "utf-16le").
    { assert (Hz : starts_with ([255; 254] ++ utf16_encode false s) [255; 254; 0; 0] = false).
      { cbn [app starts_with Z.eqb Pos.eqb andb]. destruct s as [|c s]; [done|]. cbn [head] in Hh. apply Forall_cons in Hs as [Hc _].
        unfold utf16_encode. cbn [flat_map]. unfold utf16_units at 1. unfold scalar in Hc. pose proof (Z.div_mod c 256).
        destruct (Z.ltb_spec c 65536); cbn [flat_map app unit_bytes starts_with].
        - destruct (Z.eqb_spec (c mod 256) 0), (Z.eqb_spec (c / 256) 0); try done. exfalso. apply Hh. f_equal. lia.
        - assert (0 <= (c - 65536) / 1024) by (apply Z.div_pos; lia). pose proof (Z.div_le_lower_bound (55296 + (c - 65536) / 1024) 256 216 ltac:(lia) ltac:(lia)).
          destruct (Z.eqb_spec ((55296 + (c - 65536) / 1024) / 256) 0); [lia|]. by rewrite andb_false_r. }
      unfold infer_charset. rewrite Hz. reflexivity. }
    rewrite (mark_label _ "utf-16le" "utf-16-le"); [|exact Ei|reflexivity|reflexivity|by apply (bool_decide_unpack _)].
    change ([255; 254] ++ utf16_encode false s) with (utf16_encode false (65279 :: s)).
    change (decode_with_codec ?c _) with (decode_utf16 c false). by rewrite decode_utf16_encode.
  - by_mark "utf-32be"%string "utf-32-be"%string. change ([0; 0; 254; 255] ++ utf32_encode true s) with (utf32_encode true (65279 :: s)).
    change (decode_with_codec ?c _) with (decode_utf32 c true). by rewrite decode_utf32_encode.
  - by_mark "utf-32le"%string "utf-32-le"%string. change ([255; 254; 0; 0] ++ utf32_encode false s) with (utf32_encode false (65279 :: s)).
    change (decode_with_codec ?c _) with (decode_utf32 c false). by rewrite decode_utf32_encode.
Qed.

(** The text an inspector reads of a body with no mark: in the charset it
    declares when the body is valid in it, else character by character as UTF-8
    with each byte that is in no character one U+FFFD, so no byte is dropped and
    none is hidden; a well-formed UTF-8 body is then read as it is. *)
Theorem fallback_text ct l : Forall (fun b => octet b) l ->
  match decode_charset l (infer_charset ct l) with
  | Some s => decode_text ct l = s
  | None =>
      (exists pieces, concat pieces = l /\ Forall2 stands_for (decode_text ct l) pieces)
      /\ forall s, from_utf8 l = Some s -> decode_text ct l = s
  end.
Proof.
  intros Hl. unfold decode_text. destruct (decode_charset l (infer_charset ct l)) as [s|]; [done|]. cbn [default].
  split; [by apply replace_each_spec|]. intros s. by apply replace_each_well_formed.
Qed.
End TextTheorems.

Section TextInstances.
(** No pattern matches and no table maps. *)
#[local] Existing Instance ascii_unicode.
#[local] Instance no_regex : BytesRegex := {| capture1 := fun _ _ => None |}.
#[local] Instance no_tables : EncodingRs := {| decode_strict := fun _ _ => None |}.
Lemma marked_text_witness : decode_text (lit "text/plain; charset=latin-1") ([255; 254] ++ [104; 0; 61; 216; 0; 222]) = [65279; 104; 128512].
Proof.
  assert (Hs : Forall scalar [104; 128512]) by (repeat constructor; unfold scalar; lia).
  destruct (marked_text (lit "text/plain; charset=latin-1") [104; 128512] Hs) as (_ & _ & H3 & _). apply H3. discriminate.
Defined.
Lemma fallback_text_witness :
  decode_charset [104; 233] (infer_charset (lit "application/json") [104; 233]) = None
  /\ decode_text (lit "application/json") [104; 233] = [104; 65533]
  /\ exists pieces, concat pieces = [104; 233] /\ Forall2 stands_for [104; 65533] pieces.
Proof.
  assert (Hl : Forall (fun b => octet b) [104; 233]) by (repeat constructor; lia).
  pose proof (fallback_text (lit "application/json") [104; 233] Hl) as Hf.
  assert (Hn : decode_charset [104; 233] (infer_charset (lit "application/json") [104; 233]) = None) by (by vm_compute).
  assert (Hd : decode_text (lit "application/json") [104; 233] = [104; 65533]) by (by vm_compute).
  rewrite Hn, Hd in Hf. split; [exact Hn|]. split; [exact Hd|]. exact (proj1 Hf).
Defined.
End TextInstances.
