(* ===== verification/StreamDecode.v ===== *)
(** Content-Encoding removal for a body that arrives in chunks: the model of
    [agentcage-egress/src/text/stream.rs]. *)
From S2P Require Import Prelude Utf8 Message BodyCodec.
From Stdlib Require Import ZifyBool.

(** * Definitions *)

Inductive StreamCodec : Type := Gzip | Deflate | Brotli.
#[global] Instance StreamCodec_eq_dec : EqDecision StreamCodec.
Proof. solve_decision. Defined.
Inductive StreamEncoding : Type := Identity | Codec_ (c : StreamCodec) | Buffered.

(** zlib's Adler-32, kept running. *)
Abbreviation Adler := (Z * Z)%type.
Definition adler_new : Adler := (1, 0).
Definition adler_update (s : Adler) (data : bytes) : Adler := fold_left adler_chunk (chunks (length data) (Z.to_nat 5552) data) s.
Definition adler_value (s : Adler) : Z := Z.lor (Z.shiftl s.2 16) s.1.

Definition zlib_header (cmf flg : Z) : result str unit :=
  if negb ((cmf * 256 + flg) mod 31 =? 0) then Err (lit "incorrect header check")
  else if negb (Z.land cmf 15 =? 8) then Err (lit "unknown compression method")
  else if 15 <? Z.shiftr cmf 4 + 8 then Err (lit "invalid window size")
  else if negb (Z.land flg 32 =? 0) then Err (lit "stream needs a preset dictionary")
  else Ok tt.

(** A CRC-32 hasher is the bytes it was fed. *)
Inductive Check : Type := CheckGzip (hashed : bytes) (size : Z) | CheckZlib (adler : Adler) | CheckRaw.
Definition check_update (c : Check) (produced : bytes) : Check :=
  match c with
  | CheckGzip hashed size => CheckGzip (hashed ++ produced) (size + Z.of_nat (length produced))
  | CheckZlib adler => CheckZlib (adler_update adler produced)
  | CheckRaw => CheckRaw
  end.
Definition is_raw (c : Check) : bool := match c with CheckRaw => true | _ => false end.

Definition name_of (c : StreamCodec) : str := lit (match c with Gzip => "gzip" | Deflate => "deflate" | Brotli => "br" end).
Definition corrupt (c : StreamCodec) (detail : str) : DecodeError := Corrupt (name_of c) detail.
Definition PIECE : Z := 256 * 1024.
Definition HEAD_STEP : nat := Z.to_nat (64 * 1024).

Section Stream.
Context `{Unicode} `{Codecs}.

Definition encoding_of (content_encoding : option str) : StreamEncoding :=
  match content_encoding with
  | None => Identity
  | Some ce =>
      if bool_decide (ce = []) then Identity
      else
        let ce := to_lowercase ce in
        if bool_decide (ce = lit "none") || bool_decide (ce = lit "identity") then Identity
        else if bool_decide (ce = lit "gzip") then Codec_ Gzip
        else if bool_decide (ce = lit "deflate") || bool_decide (ce = lit "deflateraw") then Codec_ Deflate
        else if bool_decide (ce = lit "br") then Codec_ Brotli
        else Buffered
  end.

Inductive State : Type :=
| Head (head : bytes)
| Inflate (d : Inflater) (c : Check)
| Trailer (trailer : bytes) (c : Check)
| BrotliState (s : BrotliDecoder)
| Done.
Record StreamDecoder : Type := mkDecoder { codec : StreamCodec; state : State; seen : bool }.
Definition new_decoder (c : StreamCodec) : StreamDecoder :=
  mkDecoder c (match c with Brotli => BrotliState new_brotli | _ => Head [] end) false.

Definition check_crc (c : StreamCodec) (hashed trailer : bytes) : result DecodeError unit :=
  if crc32 hashed =? le32 trailer then Ok tt else Err (corrupt c (lit "incorrect data check")).
Definition check_needs (c : Check) : nat := match c with CheckGzip _ _ => 8 | _ => 4 end.
Definition trailer (c : StreamCodec) (t : bytes) (check : Check) (input : bytes) : result DecodeError (State * nat) :=
  let need := check_needs check in
  let take_ := Nat.min (need - length t) (length input) in
  let t := t ++ take take_ input in
  if Nat.ltb (length t) need then
    let! _ := match check with
              | CheckGzip hashed _ => if Nat.leb 4 (length t) then check_crc c hashed t else Ok tt
              | _ => Ok tt
              end in
    Ok (Trailer t check, take_)
  else
    let! _ := match check with
              | CheckGzip hashed size =>
                  let! _ := check_crc c hashed t in
                  if le32 (drop 4 t) =? size mod 2 ^ 32 then Ok tt else Err (corrupt c (lit "incorrect length check"))
              | CheckZlib adler => if adler_value adler =? be32 t then Ok tt else Err (corrupt c (lit "incorrect data check"))
              | CheckRaw => Ok tt
              end in
    Ok (Done, take_).
Definition decode_inflate (c : StreamCodec) (d : Inflater) (check : Check) (input : bytes) (limit : Z) : result DecodeError (State * bytes * nat) :=
  match inflate_step d input (Z.min limit PIECE) with
  | Err e => Err (corrupt c e)
  | Ok (d, buf, consumed, ended) =>
      let check := check_update check buf in
      Ok (if ended then (if is_raw check then Done else Trailer [] check) else Inflate d check, buf, consumed)
  end.
Definition decode_brotli_step (c : StreamCodec) (s : BrotliDecoder) (input : bytes) (limit : Z) : result DecodeError (State * bytes * nat) :=
  let '(s, out, consumed, r) := brotli_step s input (Z.min limit PIECE) in
  match r with
  | NeedsMoreOutput | NeedsMoreInput => Ok (BrotliState s, out, consumed)
  | ResultSuccess => if Nat.eqb consumed (length input) then Ok (Done, out, consumed) else Err (corrupt c (lit "trailing data after the stream"))
  | ResultFailure => Err (corrupt c (lit "corrupt stream"))
  end.
(** [step] in every state but the first; an [Err] keeps what was already decoded in
    the caller's buffer, which the caller drops. *)
Definition step_body (c : StreamCodec) (st : State) (input : bytes) (limit : Z) : result DecodeError (State * bytes * nat) :=
  match st with
  | Head head => Ok (Head head, [], 0%nat)
  | Inflate d check => decode_inflate c d check input limit
  | Trailer t check => let! (st, n) := trailer c t check input in Ok (st, [], n)
  | BrotliState s => decode_brotli_step c s input limit
  | Done =>
      if bool_decide (c = Brotli) && negb (bool_decide (input = [])) then Err (corrupt c (lit "trailing data after the stream"))
      else Ok (Done, [], length input)
  end.
(** The first byte of a raw body, which came before the header could be judged.
    [None]: the inflater takes none of it. *)
Fixpoint early_loop (fuel : nat) (c : StreamCodec) (st : State) (rest : bytes) (limit : Z) (out : bytes)
  : option (result DecodeError (State * bytes)) :=
  if bool_decide (rest = []) then Some (Ok (st, out))
  else
    match fuel with
    | O => None
    | S fuel =>
        match step_body c st rest limit with
        | Err e => Some (Err e)
        | Ok (st, o, used) => early_loop fuel c st (drop used rest) limit (out ++ o)
        end
    end.

Definition start (c : StreamCodec) (head : bytes) : result DecodeError (option (State * nat)) :=
  match head with
  | a :: b :: _ =>
      match c with
      | Gzip =>
          if (a =? 31) && (b =? 139) then
            match gzip_header_len head with
            | Err e => Err (corrupt c e)
            | Ok None => Ok None
            | Ok (Some n) => Ok (Some (Inflate new_inflater (CheckGzip [] 0), n))
            end
          else
            match zlib_header a b with
            | Err e => Err (corrupt c e)
            | Ok _ => Ok (Some (Inflate new_inflater (CheckZlib adler_new), 2%nat))
            end
      | Deflate =>
          Ok (Some (match zlib_header a b with
                    | Ok _ => (Inflate new_inflater (CheckZlib adler_new), 2%nat)
                    | Err _ => (Inflate new_inflater CheckRaw, 0%nat)
                    end))
      | Brotli => Ok None (* unreachable *)
      end
  | _ => Ok None
  end.
Definition step (c : StreamCodec) (st : State) (input : bytes) (limit : Z) : option (result DecodeError (State * bytes * nat)) :=
  match st with
  | Head head =>
      let prior := length head in
      let take_ := Nat.min (length input) HEAD_STEP in
      let head := head ++ take take_ input in
      match start c head with
      | Err e => Some (Err e)
      | Ok None => Some (Ok (Head head, [], take_))
      | Ok (Some (st, body_at)) =>
          let? r := if Nat.ltb body_at prior
                    then early_loop prior c st (drop body_at (take prior head)) limit []
                    else Some (Ok (st, [])) in
          Some (let! (st, out) := r in Ok (st, out, (Nat.max body_at prior - prior)%nat))
      end
  | st => Some (step_body c st input limit)
  end.
(** The decoder, the output appended and how much of [input] was consumed.  On an
    error the state stays [Done]. *)
Definition decode (d : StreamDecoder) (input : bytes) (limit : Z) : option (StreamDecoder * result DecodeError (bytes * nat)) :=
  let seen := seen d || negb (bool_decide (input = [])) in
  let? r := step (codec d) (state d) input (Z.max limit 1) in
  Some match r with
       | Ok (st, out, consumed) => (mkDecoder (codec d) st seen, Ok (out, consumed))
       | Err e => (mkDecoder (codec d) Done seen, Err e)
       end.
Definition finish_decoder (d : StreamDecoder) : result DecodeError unit :=
  if negb (seen d) then Ok tt
  else
    let strict := match state d with
                  | Done => false
                  | _ => negb (bool_decide (codec d = Gzip))
                  end in
    if strict then
      Err (corrupt (codec d) (lit (if bool_decide (codec d = Brotli) then "truncated stream" else "incomplete or truncated stream")))
    else Ok tt.
End Stream.
