(* ===== verification/StreamSpec.v ===== *)
(** Decoding a body as it streams: the loops over the decompressors end, and a body
    cut anywhere decodes to what it decodes to whole.  The laws of the two
    decompressors are those of their formats (RFC 1951, RFC 7932). *)
From S2P Require Import Prelude Utf8 Message BodyCodec StreamDecode.
From Stdlib Require Import ZifyBool.

(** * Theorems *)

(** ** The laws *)

(** What a compressed stream says as far as it goes: everything, ending somewhere in
    it; the start of something; or nothing. *)
Inductive Decoded : Type := Complete (out : bytes) (n : nat) | Partial (out : bytes) | Bad.

(** Where a stream ends and where it is broken does not depend on what follows.  A
    call takes what it is given until its room is full; it has given, of what it has
    taken, no more than the format allows. *)
Class StreamLaws (C : Codecs) := {
  deflated : bytes -> Decoded;
  deflated_nil : deflated [] = Partial [];
  deflated_more w more : match deflated w with Partial _ => True | r => deflated (w ++ more) = r end;
  deflated_octets w out n : Forall (fun b => octet b) w -> deflated w = Complete out n -> Forall (fun b => octet b) out;
  inflating : Inflater -> bytes -> bytes -> Prop;
  inflating_new : inflating new_inflater [] [];
  inflating_size d fed out : inflating d fed out -> (length out <= 1032 * length fed)%nat;
  inflate_steps d fed out input room : inflating d fed out -> 1 <= room ->
    match inflate_step d input room with
    | Err _ => deflated (fed ++ input) = Bad
    | Ok (d', o, n, ended) =>
        (n <= length input)%nat /\ Z.of_nat (length o) <= room
        /\ if (ended : bool) then deflated (fed ++ input) = Complete (out ++ o) (length fed + n)
           else inflating d' (fed ++ take n input) (out ++ o)
                /\ (Z.of_nat (length o) < room -> n = length input /\ deflated (fed ++ input) = Partial (out ++ o))
    end;
  inflate_lone b room : 1 <= room ->
    match inflate_step new_inflater [b] room with Ok (_, o, _, ended) => o = [] /\ ended = false | Err _ => True end;
  unbrotli : bytes -> Decoded;
  unbrotli_nil : unbrotli [] = Partial [];
  unbrotli_more w more : match unbrotli w with Partial _ => True | r => unbrotli (w ++ more) = r end;
  brotling : BrotliDecoder -> bytes -> bytes -> Prop;
  brotling_new : brotling new_brotli [] [];
  brotling_size s fed out : brotling s fed out -> Z.of_nat (length out) <= 2 ^ 27 * Z.of_nat (length fed);
  brotli_steps s fed out input room : brotling s fed out -> 1 <= room ->
    let '(s', o, n, r) := brotli_step s input room in
    (n <= length input)%nat /\ Z.of_nat (length o) <= room
    /\ match r with
       | ResultFailure => unbrotli (fed ++ input) = Bad
       | ResultSuccess => unbrotli (fed ++ input) = Complete (out ++ o) (length fed + n)
       | NeedsMoreInput => n = length input /\ unbrotli (fed ++ input) = Partial (out ++ o) /\ brotling s' (fed ++ take n input) (out ++ o)
       | NeedsMoreOutput => Z.of_nat (length o) = room /\ brotling s' (fed ++ take n input) (out ++ o)
       end;
  capacity_enough n : (n <= capacity n)%nat
}.

(** ** The one-shot loops *)

Section Whole.
Context `{C : Codecs} {L : StreamLaws C}.

Lemma inflate_loop_total fuel input : forall d consumed out cap, inflating d (take consumed input) out -> (consumed <= length input)%nat ->
  (length out <= cap)%nat -> (length input - consumed + (1032 * length input - length out) < fuel)%nat ->
  exists r, inflate_loop fuel input d consumed out cap = Some r
    /\ match deflated input with Complete o n => r = Ok (o, Some n) | Partial o => r = Ok (o, None) | Bad => exists e, r = Err e end.
Proof.
  induction fuel as [|fuel IH]; intros d consumed out cap Hd Hc Hl Hf; [lia|]. cbn [inflate_loop].
  set (cap' := if Nat.eqb (length out) cap then _ else cap).
  assert (Hcap : (length out < cap')%nat).
  { unfold cap'. destruct (Nat.eqb_spec (length out) cap); [|lia]. pose proof (capacity_enough (length out + Nat.max (length out) 1024)). lia. }
  clearbody cap'. pose proof (inflate_steps d (take consumed input) out (drop consumed input) (Z.of_nat cap' - Z.of_nat (length out)) Hd ltac:(lia)) as Hs.
  rewrite take_drop in Hs. destruct (inflate_step _ _ _) as [[[[d' o] n] ended]|e]; [|exists (Err e); rewrite Hs; split; [done|by exists e]].
  destruct Hs as (Hn & Ho & Hs). rewrite length_drop in Hn. rewrite length_take_le in Hs by exact Hc. destruct ended; [rewrite Hs; by eexists|].
  rewrite take_take_drop in Hs. destruct Hs as [Hd' Hfull]. pose proof (inflating_size d' _ _ Hd') as Hsz. rewrite length_take_le, length_app in Hsz by lia.
  destruct (Nat.eqb n 0 && bool_decide (o = []) && Nat.ltb (length (out ++ o)) cap') eqn:Estop.
  - apply andb_true_iff in Estop as [[_ ->%bool_decide_eq_true]%andb_true_iff _]. destruct (Hfull ltac:(cbn; lia)) as [_ ->]. by eexists.
  - rewrite length_app in Estop. apply (IH d'); [exact Hd'|lia|rewrite length_app; lia|]. rewrite length_app.
    destruct o as [|x o]; [|cbn [length] in *; lia]. rewrite bool_decide_eq_true_2 in Estop by done. cbn [length] in *. lia.
Qed.
(** The whole body inflates to what the format says, in the rounds it is given. *)
Lemma inflate_raw_spec w : match deflated w with
  | Complete out n => inflate_raw w = Ok (out, Some n)
  | Partial out => inflate_raw w = Ok (out, None)
  | Bad => exists e, inflate_raw w = Err e
  end.
Proof.
  destruct (inflate_loop_total (inflate_rounds (length w)) w new_inflater 0 [] (capacity (Nat.max (4 * length w) 64))) as (r & Er & Hr);
    [apply inflating_new|lia|cbn; lia|unfold inflate_rounds; cbn [length]; lia|].
  unfold inflate_raw. rewrite Er. by destruct (deflated w).
Qed.

Lemma brotli_loop_total fuel input : forall s in_off out, brotling s (take in_off input) out -> (in_off <= length input)%nat ->
  2 ^ 27 * Z.of_nat (length input) - Z.of_nat (length out) < 65536 * Z.of_nat fuel ->
  exists r, brotli_loop fuel input s in_off out = Some r
    /\ match unbrotli input with Complete o n => if Nat.eqb n (length input) then r = Ok o else exists e, r = Err e | _ => exists e, r = Err e end.
Proof.
  assert (EB : BROTLI_BUFFER = 65536) by reflexivity.
  induction fuel as [|fuel IH]; intros s in_off out Hs Hi Hf.
  { pose proof (brotling_size s _ _ Hs) as Hsz. rewrite length_take_le in Hsz by exact Hi. change (2 ^ 27) with 134217728 in *. lia. }
  cbn [brotli_loop]. pose proof (brotli_steps s (take in_off input) out (drop in_off input) BROTLI_BUFFER Hs ltac:(lia)) as Hst.
  rewrite take_drop in Hst. destruct (brotli_step _ _ _) as [[[s' o] n] r]. destruct Hst as (Hn & Ho & Hst). rewrite take_take_drop in Hst. rewrite length_drop in *.
  rewrite length_take_le in Hst by exact Hi. destruct r; cbv zeta.
  - rewrite Hst. eexists. split; [done|].
    destruct (Nat.eqb_spec n (length input - in_off)), (Nat.eqb_spec (in_off + n) (length input)); try lia; [done|by eexists].
  - destruct Hst as (_ & -> & _). eexists. split; [done|by eexists].
  - destruct Hst as [Eo Hs']. apply IH; [exact Hs'|lia|]. rewrite length_app. lia.
  - rewrite Hst. eexists. split; [done|by eexists].
Qed.
Lemma decode_brotli_spec w : w <> [] -> match unbrotli w with
  | Complete out n => if Nat.eqb n (length w) then decode_brotli w = Ok out else exists e, decode_brotli w = Err e
  | _ => exists e, decode_brotli w = Err e
  end.
Proof.
  intros Hw. unfold decode_brotli. rewrite bool_decide_eq_false_2 by exact Hw.
  destruct (brotli_loop_total (brotli_rounds (length w)) w new_brotli 0 []) as (r & -> & Hr); [apply brotling_new|lia| |].
  - unfold brotli_rounds. cbn [length]. change (2 ^ 27) with (65536 * 2048). lia.
  - cbn [default from_option id]. destruct (unbrotli w) as [o n| |]; [|exact Hr..]. destruct (Nat.eqb _ _); [by rewrite Hr|exact Hr].
Qed.
End Whole.

(** ** Headers *)

Lemma find_zero_cut a y z k : find_sub [0] (a ++ y) = Some k -> (k < length a)%nat -> find_sub [0] (a ++ z) = Some k.
Proof.
  revert k. induction a as [|x a IH]; intros k Hf Hk; [cbn in Hk; lia|]. cbn [app find_sub starts_with] in *.
  destruct (x =? 0) eqn:Ex; [by destruct (a ++ z), (a ++ y)|].
  destruct (find_sub [0] (a ++ y)) as [m|] eqn:Em; [|done]. injection Hf as <-. cbn [length] in Hk. by rewrite (IH m eq_refl ltac:(lia)).
Qed.
Lemma nth_app_l {A} (d : A) p y k : (k < length p)%nat -> nth k (p ++ y) d = nth k p d.
Proof. apply app_nth1. Qed.
Lemma le16_app a y : (2 <= length a)%nat -> le16 (a ++ y) = le16 a.
Proof. destruct a as [|b [|c a]]; cbn; lia. Qed.
Lemma le32_app a y : (4 <= length a)%nat -> le32 (a ++ y) = le32 a.
Proof. destruct a as [|b1 [|b2 [|b3 [|b4 a]]]]; cbn; lia. Qed.
Lemma be32_app a y : (4 <= length a)%nat -> be32 (a ++ y) = be32 a.
Proof. destruct a as [|b1 [|b2 [|b3 [|b4 a]]]]; cbn; lia. Qed.

Lemma gzip_name_bound l flags f pos q : (pos <= length l)%nat -> gzip_name l flags f pos = Some q -> (pos <= q <= length l)%nat.
Proof.
  unfold gzip_name. intros Hp. destruct (_ =? 0); [intros [= <-]; lia|]. pose proof (find_sub_spec [0] (drop pos l)) as Hf.
  destruct (find_sub [0] (drop pos l)) as [k|]; [|done]. destruct Hf as ([r Hr] & _ & _). intros [= <-].
  apply (f_equal length) in Hr. rewrite !length_drop in Hr. cbn [app length] in Hr. lia.
Qed.
Lemma gzip_name_cut p y z flags f pos q : gzip_name (p ++ y) flags f pos = Some q -> (q <= length p)%nat -> gzip_name (p ++ z) flags f pos = Some q.
Proof.
  unfold gzip_name. destruct (_ =? 0); [done|]. intros Hq Hp. destruct (find_sub [0] (drop pos (p ++ y))) as [k|] eqn:Ek; [|done]. injection Hq as <-.
  rewrite drop_app_le in Ek |- * by lia. by rewrite (find_zero_cut _ y z k Ek) by (rewrite length_drop; lia).
Qed.

Section Headers.
Context `{C : Codecs}.

(** Where the optional fields end. *)
Definition names_end (input : bytes) (flags : Z) : option nat :=
  let? pos :=
    if Z.land flags 4 =? 0 then Some 10%nat
    else if Nat.ltb (length input) 12 then None
    else
      let pos := (12 + Z.to_nat (le16 (drop 10 input)))%nat in
      if Nat.ltb (length input) pos then None else Some pos in
  let? pos := gzip_name input flags 8 pos in
  gzip_name input flags 16 pos.
Lemma names_end_bound l flags q : (10 <= length l)%nat -> names_end l flags = Some q -> (10 <= q <= length l)%nat.
Proof.
  unfold names_end. intros Hl.
  assert (Hn : forall pos, (10 <= pos <= length l)%nat -> (let? pos := gzip_name l flags 8 pos in gzip_name l flags 16 pos) = Some q -> (10 <= q <= length l)%nat).
  { intros pos Hp. destruct (gzip_name l flags 8 pos) as [p1|] eqn:E1; [|done]. intros E2.
    apply gzip_name_bound in E1; [|lia]. apply gzip_name_bound in E2; lia. }
  destruct (_ =? 0); [apply Hn; lia|]. destruct (Nat.ltb_spec (length l) 12); [done|]. cbv zeta. destruct (Nat.ltb_spec (length l) (12 + Z.to_nat (le16 (drop 10 l)))); [done|].
  apply Hn. lia.
Qed.
Lemma names_end_cut p y z flags q : (10 <= length p)%nat -> names_end (p ++ y) flags = Some q -> (q <= length p)%nat -> names_end (p ++ z) flags = Some q.
Proof.
  unfold names_end. intros Hp Hq Hl.
  assert (Hn : forall pos, (let? pos := gzip_name (p ++ y) flags 8 pos in gzip_name (p ++ y) flags 16 pos) = Some q -> (pos <= length (p ++ y))%nat ->
    (pos <= q)%nat /\ (let? pos := gzip_name (p ++ z) flags 8 pos in gzip_name (p ++ z) flags 16 pos) = Some q).
  { intros pos. destruct (gzip_name (p ++ y) flags 8 pos) as [p1|] eqn:E1; [|done]. intros E2 Hb. pose proof (gzip_name_bound _ _ _ _ _ Hb E1) as B1.
    pose proof (gzip_name_bound _ _ _ _ _ (proj2 B1) E2) as B2. split; [lia|]. rewrite (gzip_name_cut p y z _ _ _ _ E1) by lia. by apply (gzip_name_cut p y z). }
  destruct (_ =? 0); [apply Hn; [exact Hq|rewrite length_app; lia]|]. destruct (Nat.ltb_spec (length (p ++ y)) 12); [done|]. cbv zeta in *.
  destruct (Nat.ltb_spec (length (p ++ y)) (12 + Z.to_nat (le16 (drop 10 (p ++ y))))) as [|Hpos]; [done|]. destruct (Hn _ Hq Hpos) as [Hle Hz].
  rewrite drop_app_le, le16_app in * by (rewrite ?length_drop; lia). rewrite length_app.
  destruct (Nat.ltb_spec (length p + length z) 12); [lia|]. destruct (Nat.ltb_spec (length p + length z) (12 + Z.to_nat (le16 (drop 10 p)))); [lia|]. exact Hz.
Qed.

(** What a whole member header is. *)
Definition whole_header (l : bytes) (n : nat) : Prop :=
  exists flags pos, (10 <= length l)%nat /\ nth 2 l 0 = 8 /\ l !! 3%nat = Some flags /\ Z.land flags 224 = 0 /\ names_end l flags = Some pos
    /\ if Z.land flags 2 =? 0 then n = pos else n = (pos + 2)%nat /\ (n <= length l)%nat /\ le16 (drop pos l) = crc32 (take pos l) mod 65536.
Lemma gzip_header_eq l : gzip_header_len l =
  if Nat.ltb (length l) 3 then Ok None else if negb (nth 2 l 0 =? 8) then Err (lit "unknown compression method")
  else match l !! 3%nat with
       | None => Ok None
       | Some flags =>
           if negb (Z.land flags 224 =? 0) then Err (lit "unknown header flags set") else if Nat.ltb (length l) 10 then Ok None
           else match names_end l flags with
                | None => Ok None
                | Some pos => if Z.land flags 2 =? 0 then Ok (Some pos) else if Nat.ltb (length l) (pos + 2) then Ok None
                              else if negb (le16 (drop pos l) =? crc32 (take pos l) mod 65536) then Err (lit "header crc mismatch") else Ok (Some (pos + 2)%nat)
                end
       end.
Proof. reflexivity. Qed.
Lemma gzip_header_whole l n : gzip_header_len l = Ok (Some n) <-> whole_header l n.
Proof.
  rewrite gzip_header_eq. split.
  - destruct (Nat.ltb_spec (length l) 3); [done|]. destruct (Z.eqb_spec (nth 2 l 0) 8); [|done]. cbn [negb]. destruct (l !! 3%nat) as [flags|] eqn:Ef; [|done].
    destruct (Z.eqb_spec (Z.land flags 224) 0); [|done]. cbn [negb]. destruct (Nat.ltb_spec (length l) 10); [done|]. destruct (names_end l flags) as [pos|] eqn:En; [|done].
    intros Hn. exists flags, pos. split_and!; try done. destruct (_ =? 0); [by injection Hn|]. destruct (Nat.ltb_spec (length l) (pos + 2)); [done|].
    destruct (Z.eqb_spec (le16 (drop pos l)) (crc32 (take pos l) mod 65536)); [|done]. cbn [negb] in Hn. injection Hn as <-. by split_and!.
  - intros (flags & pos & Hl & H2 & -> & Hf & -> & Hn). destruct (Nat.ltb_spec (length l) 3); [lia|]. rewrite H2, Hf. cbn [negb Z.eqb].
    destruct (Nat.ltb_spec (length l) 10); [lia|]. destruct (_ =? 0); [by rewrite Hn|]. destruct Hn as (-> & Hn & ->).
    destruct (Nat.ltb_spec (length l) (pos + 2)); [lia|]. by rewrite Z.eqb_refl.
Qed.
Lemma whole_header_bound l n : whole_header l n -> (10 <= n <= length l)%nat.
Proof. intros (flags & pos & Hl & _ & _ & _ & Hp & Hn). apply names_end_bound in Hp; [|exact Hl]. destruct (_ =? 0); lia. Qed.
(** A header is its own bytes, whatever comes after. *)
Lemma whole_header_cut p y z : whole_header (p ++ y) (length p) -> whole_header (p ++ z) (length p).
Proof.
  intros Hw. pose proof (whole_header_bound _ _ Hw) as Hb. destruct Hw as (flags & pos & Hl & H2 & H3 & Hf & Hp & Hn). exists flags, pos.
  rewrite !nth_app_l in * by lia. rewrite !lookup_app_l in * by lia. rewrite !length_app in *.
  assert (Hpos : (10 <= pos <= length p)%nat).
  { apply names_end_bound in Hp; [|rewrite length_app; lia]. destruct (_ =? 0); lia. }
  split_and!; [lia|done|done|done|by apply (names_end_cut p y); [lia| |lia]|]. destruct (_ =? 0); [done|]. destruct Hn as (E & _ & Hc).
  split_and!; [done|lia|]. rewrite drop_app_le, take_app_le, le16_app in * by (rewrite ?length_drop; lia). exact Hc.
Qed.
Lemma whole_header_prefix l n z : whole_header l n -> whole_header (take n l ++ z) n.
Proof.
  intros Hw. pose proof (whole_header_bound _ _ Hw) as Hb. assert (En : length (take n l) = n) by (rewrite length_take; lia).
  rewrite <- En at 2. apply (whole_header_cut _ (drop n l)). by rewrite take_drop, En.
Qed.
Lemma gzip_header_more l n x : gzip_header_len l = Ok (Some n) -> gzip_header_len (l ++ x) = Ok (Some n).
Proof.
  intros Hw%gzip_header_whole. apply gzip_header_whole. rewrite <- (take_drop n l), <- app_assoc. by apply whole_header_prefix.
Qed.
(** A header that was cut short is longer than what there was of it. *)
Lemma gzip_header_short l x n : gzip_header_len l = Ok None -> gzip_header_len (l ++ x) = Ok (Some n) -> (length l < n)%nat.
Proof.
  intros Hs Hw%gzip_header_whole. destruct (decide (length l < n)%nat) as [|Hn]; [done|].
  enough (Hl : gzip_header_len l = Ok (Some n)) by congruence. apply gzip_header_whole. rewrite <- (take_drop n l).
  apply (whole_header_prefix _ _ (drop n l)) in Hw. by rewrite take_app_le in Hw by lia.
Qed.
Lemma gzip_header_err l e x : gzip_header_len l = Err e -> gzip_header_len (l ++ x) = Err e.
Proof.
  rewrite !gzip_header_eq, length_app. destruct (Nat.ltb_spec (length l) 3); [done|]. destruct (Nat.ltb_spec (length l + length x) 3); [lia|].
  rewrite nth_app_l by lia. destruct (negb _); [done|]. destruct (l !! 3%nat) as [flags|] eqn:Ef; [|done]. rewrite (lookup_app_l_Some _ _ _ _ Ef).
  destruct (negb _); [done|]. destruct (Nat.ltb_spec (length l) 10); [done|]. destruct (Nat.ltb_spec (length l + length x) 10); [lia|].
  destruct (names_end l flags) as [pos|] eqn:En; [|done]. pose proof (names_end_bound l flags pos ltac:(lia) En) as Hb.
  rewrite <- (take_drop pos l) in En. rewrite <- (app_nil_r (take pos l ++ drop pos l)), <- app_assoc in En.
  assert (Ep : names_end (l ++ x) flags = Some pos).
  { rewrite <- (take_drop pos l), <- app_assoc. eapply names_end_cut; [|exact En|]; rewrite length_take; lia. }
  rewrite Ep. destruct (_ =? 0); [done|]. destruct (Nat.ltb_spec (length l) (pos + 2)); [done|]. destruct (Nat.ltb_spec (length l + length x) (pos + 2)); [lia|].
  rewrite drop_app_le, take_app_le, le16_app by (rewrite ?length_drop; lia). done.
Qed.
End Headers.

(** ** The running checksum *)

Lemma adler_update_ref ab data : Forall (fun b => octet b) data -> reduced_pair ab ->
  adler_update ab data = fold_left adler_ref data ab /\ reduced_pair (adler_update ab data).
Proof.
  intros Hd Hab. destruct (chunks_spec (length data) data (le_n _)) as [Hc Hl]. unfold adler_update.
  destruct (chunks_reduced _ ab Hl (chunks_octets data Hd) Hab) as [E H1]. rewrite E in H1 |- *. by rewrite Hc in H1 |- *.
Qed.
Lemma adler_pieces ps : Forall (fun b => octet b) (concat ps) -> adler_value (fold_left adler_update ps adler_new) = adler32 (concat ps).
Proof.
  intros Hp. assert (Hf : forall ps ab, Forall (fun b => octet b) (concat ps) -> reduced_pair ab ->
    fold_left adler_update ps ab = fold_left adler_ref (concat ps) ab).
  { clear. intros ps. induction ps as [|p ps IH]; intros ab Hp Hab; [done|]. cbn [concat fold_left] in *. apply Forall_app in Hp as [Hp1 Hp2].
    destruct (adler_update_ref ab p Hp1 Hab) as [E Hr]. rewrite (IH _ Hp2 Hr), fold_left_app. by rewrite E. }
  assert (H1 : reduced_pair adler_new) by (cbn; lia). rewrite (Hf ps adler_new Hp H1). unfold adler32, adler_value.
  destruct (adler_update_ref adler_new (concat ps) Hp H1) as [<- _]. unfold adler_update, adler_new. by destruct (fold_left adler_chunk _ _).
Qed.

(** ** What a whole body decodes to *)

Section Reference.
Context `{C : Codecs} {L : StreamLaws C}.

Definition lenient (c : StreamCodec) (out : bytes) : option bytes := if bool_decide (c = Gzip) then Some out else None.
(** The bytes after the final block, and the output they vouch for. *)
Definition trailer_ref (c : StreamCodec) (check : Check) (out t : bytes) : option bytes :=
  match check with
  | CheckGzip _ _ =>
      if Nat.leb 4 (length t) && negb (crc32 out =? le32 t) then None
      else if Nat.leb 8 (length t) && negb (le32 (drop 4 t) =? Z.of_nat (length out) mod 2 ^ 32) then None else Some out
  | CheckZlib _ => if Nat.ltb (length t) 4 then lenient c out else if adler32 out =? be32 t then Some out else None
  | CheckRaw => Some out
  end.
Definition body_ref (c : StreamCodec) (check : Check) (body : bytes) : option bytes :=
  match deflated body with
  | Bad => None
  | Partial out => lenient c out
  | Complete out n => trailer_ref c check out (drop n body)
  end.
(** The decoded body, [None] when there is none: one reading of the three codings
    for a body that is whole and one that streams. *)
Definition reference (c : StreamCodec) (w : bytes) : option bytes :=
  if bool_decide (w = []) then Some []
  else
    match c with
    | Brotli => match unbrotli w with Complete out n => if Nat.eqb n (length w) then Some out else None | _ => None end
    | _ =>
        match start c w with
        | Err _ => None
        | Ok None => lenient c []
        | Ok (Some (Inflate _ check, n)) => body_ref c check (drop n w)
        | Ok (Some _) => None
        end
    end.
Definition to_option {E A} (r : result E A) : option A := match r with Ok a => Some a | Err _ => None end.

Lemma inflate_cases w : to_option (inflate_raw w) = match deflated w with Complete out n => Some (out, Some n) | Partial out => Some (out, None) | Bad => None end.
Proof. pose proof (inflate_raw_spec w) as Hs. destruct (deflated w); [by rewrite Hs..|]. by destruct Hs as [e ->]. Qed.
Lemma inflate_zlib_ref c w : c = Gzip \/ c = Deflate -> to_option (inflate_zlib w (bool_decide (c = Gzip))) =
  match w with
  | a :: b :: body => match zlib_header a b with Ok _ => body_ref c (CheckZlib adler_new) body | Err _ => None end
  | _ => lenient c []
  end.
Proof.
  intros Hc. assert (Ht : forall out, to_option (if bool_decide (c = Gzip) then Ok out else Err (lit "incomplete or truncated stream")) = lenient c out).
  { intros out. unfold lenient. by destruct (bool_decide _). }
  unfold inflate_zlib. destruct w as [|a [|b body]]; [apply Ht..|]. unfold zlib_header. destruct (negb _); [done|]. destruct (negb _); [done|].
  destruct (_ <? _); [done|]. destruct (negb _); [done|]. unfold body_ref. pose proof (inflate_raw_spec body) as Hi. destruct (deflated body) as [out n|out|].
  - rewrite Hi. cbn [result_bind trailer_ref]. destruct (Nat.ltb _ 4); [apply Ht|]. by destruct (adler32 out =? _).
  - rewrite Hi. apply Ht.
  - by destruct Hi as [e ->].
Qed.
(** [gzip] and [br] bodies, valid or not, are what the reference says. *)
Lemma gzip_ref w : to_option (decode_gzip w) = reference Gzip w.
Proof.
  unfold decode_gzip, reference. destruct w as [|a [|b w]]; [reflexivity..|]. cbn [length]. destruct (Nat.ltb_spec (S (S (length w))) 2); [lia|].
  rewrite (bool_decide_eq_false_2 (a :: b :: w = [])) by done. unfold start.
  change (take 2 (a :: b :: w)) with [a; b]. case_bool_decide as Em.
  - injection Em as -> ->. change ((31 =? 31) && (139 =? 139)) with true. cbn [negb].
    destruct (gzip_header_len (31 :: 139 :: w)) as [[n|]|e]; [|reflexivity|reflexivity]. cbn [result_bind]. unfold body_ref.
    pose proof (inflate_raw_spec (drop n (31 :: 139 :: w))) as Hi. destruct (deflated _) as [out k|out|].
    + rewrite Hi. cbn [result_bind trailer_ref]. rewrite <- drop_drop. destruct (_ && _); [done|]. by destruct (_ && _).
    + by rewrite Hi.
    + by destruct Hi as [e ->].
  - cbn [negb]. assert ((a =? 31) && (b =? 139) = false) as ->.
    { destruct (Z.eqb_spec a 31) as [->|]; [|done]. destruct (Z.eqb_spec b 139) as [->|]; done. }
    rewrite <- (bool_decide_eq_true_2 (Gzip = Gzip) eq_refl), (inflate_zlib_ref Gzip) by tauto. by destruct (zlib_header a b).
Qed.
Lemma brotli_ref w : to_option (decode_brotli w) = reference Brotli w.
Proof.
  unfold reference. case_bool_decide as Ew; [by rewrite Ew|]. pose proof (decode_brotli_spec w Ew) as Hb.
  destruct (unbrotli w) as [out n|out|]; [|by destruct Hb as [e ->]..]. destruct (Nat.eqb _ _); [by rewrite Hb|by destruct Hb as [e ->]].
Qed.
(** A [deflate] body is one of the two formats, which its first two bytes tell; read
    whole, a body that looks like zlib and is not may still be the other. *)
Definition zlib_like (w : bytes) : bool := match w with a :: b :: _ => match zlib_header a b with Ok _ => true | Err _ => false end | _ => false end.
Lemma lone_incomplete b out n : deflated [b] <> Complete out n.
Proof.
  pose proof (inflate_steps new_inflater [] [] [b] 1 inflating_new ltac:(lia)) as Hs. pose proof (inflate_lone b 1 ltac:(lia)) as Hl. cbn [app] in Hs.
  destruct (inflate_step _ _ _) as [[[[d o] k] ended]|]; [|by rewrite Hs]. destruct Hl as [-> ->]. destruct Hs as (_ & _ & _ & Hs). by destruct (Hs ltac:(cbn; lia)) as [_ ->].
Qed.
Lemma deflate_ref w : match reference Deflate w with
  | Some out => decode_deflate w = Ok out
  | None => zlib_like w = false -> exists e, decode_deflate w = Err e
  end.
Proof.
  unfold reference, decode_deflate. case_bool_decide as Ew; [done|]. pose proof (inflate_zlib_ref Deflate w ltac:(tauto)) as Hz.
  change (bool_decide (Deflate = Gzip)) with false in Hz. destruct w as [|a [|b w]]; [done| |].
  - cbn [start]. unfold lenient. rewrite bool_decide_eq_false_2 by done. intros _. destruct (inflate_zlib [a] false); [done|]. pose proof (inflate_raw_spec [a]) as Hi.
    pose proof (lone_incomplete a) as Hn. destruct (deflated [a]) as [out n|out|]; [by destruct (Hn out n)|rewrite Hi; by eexists|]. destruct Hi as [e1 ->]. by eexists.
  - cbn [start zlib_like]. destruct (zlib_header a b) as [u|e] eqn:Eh.
    + change (drop 2 (a :: b :: w)) with w. rewrite <- Hz. by destruct (inflate_zlib _ false).
    + change (drop 0 (a :: b :: w)) with (a :: b :: w). destruct (inflate_zlib _ false); [done|]. unfold body_ref. pose proof (inflate_raw_spec (a :: b :: w)) as Hi.
      destruct (deflated (a :: b :: w)) as [out n|out|].
      * by rewrite Hi.
      * rewrite Hi. unfold lenient. rewrite bool_decide_eq_false_2 by done. intros _. by eexists.
      * destruct Hi as [e' ->]. intros _. by eexists.
Qed.
(** Read whole: a complete zlib stream whose checksum agrees, else a complete raw
    one; whatever follows either is ignored. *)
Definition zlib_whole (w : bytes) : option bytes :=
  match w with
  | a :: b :: body => match zlib_header a b with Ok _ => body_ref Deflate (CheckZlib adler_new) body | Err _ => None end
  | _ => None
  end.
Definition deflate_whole (w : bytes) : option bytes :=
  if bool_decide (w = []) then Some []
  else match zlib_whole w with
       | Some out => Some out
       | None => match deflated w with Complete out _ => Some out | _ => None end
       end.
Lemma decode_deflate_whole w : to_option (decode_deflate w) = deflate_whole w.
Proof.
  unfold decode_deflate, deflate_whole. case_bool_decide as Ew; [done|].
  assert (Hz : to_option (inflate_zlib w false) = zlib_whole w).
  { rewrite <- (bool_decide_eq_false_2 (Deflate = Gzip)) by done. rewrite inflate_zlib_ref by tauto. by destruct w as [|a [|b w]]. }
  rewrite <- Hz. destruct (inflate_zlib w false); [done|]. cbn [to_option]. pose proof (inflate_raw_spec w) as Hi.
  destruct (deflated w) as [out n|out|]; [by rewrite Hi..|by destruct Hi as [e' ->]].
Qed.
End Reference.

(** C37: Decoding a body always comes to an end, whatever the body: the rounds allowed
    to the loops over the two decompressors are enough for any input, and the result
    is what the formats say.  For [gzip], the member's output when header and trailer
    agree with it, or the output so far of a body cut short.  For [deflate], the output
    of a complete zlib stream whose checksum agrees, else of a complete raw stream,
    ignoring what follows, else nothing; the decoder that streams reads the same out of
    every body that its zlib framing does not belie.  For [br], the output of one complete
    stream with nothing after it, else nothing. *)
Theorem decoding_ends `{C : Codecs} {L : StreamLaws C} w :
  (exists r, inflate_loop (inflate_rounds (length w)) w new_inflater 0 [] (capacity (Nat.max (4 * length w) 64)) = Some r)
  /\ (exists r, brotli_loop (brotli_rounds (length w)) w new_brotli 0 [] = Some r)
  /\ to_option (decode_gzip w) = reference Gzip w
  /\ to_option (decode_brotli w) = reference Brotli w
  /\ to_option (decode_deflate w) = deflate_whole w
  /\ match reference Deflate w with
     | Some out => deflate_whole w = Some out
     | None => zlib_like w = false -> deflate_whole w = None
     end.
Proof.
  split_and!; [| |apply gzip_ref|apply brotli_ref|apply decode_deflate_whole|].
  3: { pose proof (deflate_ref w) as Hd. rewrite <- decode_deflate_whole. destruct (reference Deflate w); [by rewrite Hd|].
    intros Hz. by destruct (Hd Hz) as [e ->]. }
  - destruct (inflate_loop_total (inflate_rounds (length w)) w new_inflater 0 [] (capacity (Nat.max (4 * length w) 64))) as (r & E & _);
      [apply inflating_new|lia|cbn; lia|unfold inflate_rounds; cbn [length]; lia|by exists r].
  - destruct (brotli_loop_total (brotli_rounds (length w)) w new_brotli 0 []) as (r & E & _); [apply brotling_new|lia| |by exists r].
    unfold brotli_rounds. cbn [length]. change (2 ^ 27) with (65536 * 2048). lia.
Qed.

(** ** The decoder *)

Section Decoder.
Context `{C : Codecs} {L : StreamLaws C}.

(** The running checks have seen what was decoded. *)
Definition checked (c : StreamCodec) (out : bytes) (k : Check) : Prop :=
  match k with
  | CheckGzip hashed size => c = Gzip /\ hashed = out /\ size = Z.of_nat (length out)
  | CheckZlib a => exists ps, concat ps = out /\ a = fold_left adler_update ps adler_new
  | CheckRaw => True
  end.
Lemma checked_update c out k o : checked c out k -> checked c (out ++ o) (check_update k o).
Proof.
  destruct k as [hashed size|a|]; cbn; [|intros (ps & <- & ->); exists (ps ++ [o]); split|done].
  - intros (-> & -> & ->). rewrite length_app. split_and!; [done|done|lia].
  - rewrite concat_app. cbn. by rewrite app_nil_r.
  - by rewrite fold_left_app.
Qed.
Lemma body_ref_update c k o body : body_ref c (check_update k o) body = body_ref c k body.
Proof. unfold body_ref. destruct (deflated body); [|done..]. by destruct k. Qed.

(** The first bytes decide once, whatever follows. *)
Lemma start_shape c l s n : start c l = Ok (Some (s, n)) ->
  exists k, s = Inflate new_inflater k /\ checked c [] k /\ (n <= length l)%nat /\ c <> Brotli /\ l <> [].
Proof.
  unfold start. destruct l as [|a [|b l]]; [done..|]. destruct c; [|destruct (zlib_header a b)|done].
  - destruct (_ && _).
    + destruct (gzip_header_len _) as [[m|]|] eqn:Eg; [|done..]. intros [= <- <-]. apply gzip_header_whole, whole_header_bound in Eg.
      eexists. split_and!; done || lia.
    + destruct (zlib_header a b); [|done]. intros [= <- <-]. eexists. split_and!; [done|by exists []|cbn; lia|done..].
  - intros [= <- <-]. eexists. split_and!; [done|by exists []|cbn; lia|done..].
  - intros [= <- <-]. eexists. split_and!; done || (cbn; lia).
Qed.
Lemma start_more c l s n x : start c l = Ok (Some (s, n)) -> start c (l ++ x) = Ok (Some (s, n)).
Proof.
  destruct l as [|a [|b l]]; [done..|]. destruct c; [|done..]. cbn [app start]. destruct (_ && _); [|done].
  destruct (gzip_header_len (a :: b :: l)) as [[m|]|] eqn:Eg; [|done..]. apply (gzip_header_more _ _ x) in Eg. cbn [app] in Eg. by rewrite Eg.
Qed.
Lemma start_err c l e x : start c l = Err e -> start c (l ++ x) = Err e.
Proof.
  destruct l as [|a [|b l]]; [done..|]. destruct c; [|done..]. cbn [app start]. destruct (_ && _); [|done].
  destruct (gzip_header_len (a :: b :: l)) as [[m|]|e'] eqn:Eg; [done..|]. apply (gzip_header_err _ _ x) in Eg. cbn [app] in Eg. by rewrite Eg.
Qed.
(** Only the first byte of a raw body comes before the decision it belongs to. *)
Lemma start_early c h x s n : start c h = Ok None -> start c (h ++ x) = Ok (Some (s, n)) -> (n < length h)%nat -> exists b, h = [b] /\ n = O.
Proof.
  destruct h as [|a [|b h]]; [cbn; lia| |]; cbn [app].
  - destruct x as [|b x]; [done|]. intros _ Hs Hn. exists a. split; [done|]. cbn in Hn. lia.
  - destruct c; [|done..]. cbn [start]. destruct (_ && _); [|by destruct (zlib_header a b)].
    destruct (gzip_header_len (a :: b :: h)) as [[m|]|] eqn:Eg; [done| |done]. intros _.
    destruct (gzip_header_len (a :: b :: h ++ x)) as [[m|]|] eqn:Ex; [|done..]. intros [= <- <-].
    apply (gzip_header_short _ x m) in Eg; [lia|exact Ex].
Qed.
Lemma reference_start c W s n : start c W = Ok (Some (s, n)) -> exists k, s = Inflate new_inflater k /\ reference c W = body_ref c k (drop n W).
Proof.
  intros Hs. destruct (start_shape _ _ _ _ Hs) as (k & -> & _ & _ & Hc & Hw). exists k. split; [done|]. unfold reference.
  rewrite bool_decide_eq_false_2 by exact Hw. destruct c; [by rewrite Hs..|done].
Qed.
Lemma reference_err c W e : start c W = Err e -> reference c W = None.
Proof. intros Hs. unfold reference. rewrite bool_decide_eq_false_2 by (by intros ->). destruct c; [by rewrite Hs..|]. by destruct W as [|? [|? ?]]. Qed.

(** The decoder after it took [w] of the body [W] and gave [out]. *)
Inductive tracks (c : StreamCodec) (W : bytes) : State -> bytes -> bytes -> Prop :=
| TracksHead w : c <> Brotli -> start c w = Ok None -> tracks c W (Head w) w []
| TracksInflate d k fed out n : c <> Brotli -> (n <= length W)%nat -> W <> [] -> reference c W = body_ref c k (drop n W) ->
    checked c out k -> inflating d fed out -> tracks c W (Inflate d k) (take n W ++ fed) out
| TracksTrailer t k out n : c <> Brotli -> (n <= length W)%nat -> W <> [] -> reference c W = trailer_ref c k out (drop n W) ->
    checked c out k -> Forall (fun b => octet b) out -> is_raw k = false -> (length t < check_needs k)%nat ->
    match k with CheckGzip _ _ => (4 <= length t)%nat -> crc32 out = le32 t | _ => True end -> tracks c W (Trailer t k) (take n W ++ t) out
| TracksBrotli s w out : c = Brotli -> brotling s w out -> tracks c W (BrotliState s) w out
| TracksDone w out : reference c W = (if bool_decide (c = Brotli) && negb (bool_decide (w = W)) then None else Some out) -> tracks c W Done w out.

(** How far the decoder is from its end, but for what it has yet to be given. *)
Definition pot (st : State) (W out : bytes) : Z :=
  match st with
  | Head _ => 3 + 2 ^ 27 * Z.of_nat (length W)
  | Inflate _ _ | BrotliState _ => 2 + 2 ^ 27 * Z.of_nat (length W) - Z.of_nat (length out)
  | Trailer _ _ => 1
  | Done => 0
  end.
(** A call that was given nothing and gave nothing has nothing left to give. *)
Definition settled (c : StreamCodec) (W : bytes) (st : State) (out : bytes) : Prop :=
  match st with
  | Inflate _ _ => reference c W = lenient c out
  | BrotliState _ => W <> [] -> reference c W = None
  | _ => True
  end.
Definition moved (c : StreamCodec) (W : bytes) (st : State) (w out input : bytes) (limit : Z) (r : result DecodeError (State * bytes * nat)) : Prop :=
  match r with
  | Err _ => reference c W = None
  | Ok (st', o, n) =>
      (n <= length input)%nat /\ Z.of_nat (length o) <= limit /\ tracks c W st' (w ++ take n input) (out ++ o)
      /\ (input = [] /\ o = [] /\ pot st' W (out ++ o) <= pot st W out \/ pot st' W (out ++ o) - Z.of_nat n < pot st W out)
      /\ (input = [] -> o = [] -> w = W -> settled c W st' out)
  end.

Lemma decode_inflate_tracks c W d k fed out n input rest limit : Forall (fun b => octet b) W -> 1 <= limit ->
  c <> Brotli -> (n <= length W)%nat -> W <> [] -> reference c W = body_ref c k (drop n W) -> checked c out k -> inflating d fed out ->
  drop n W = (fed ++ input) ++ rest ->
  moved c W (Inflate d k) (take n W ++ fed) out input limit (decode_inflate c d k input limit).
Proof.
  intros Ho Hlim Hc Hn Hw Href Hk Hd Ew. unfold decode_inflate.
  assert (HP : PIECE = 262144) by reflexivity.
  pose proof (inflate_steps d fed out input (Z.min limit PIECE) Hd ltac:(lia)) as Hs. pose proof (deflated_more (fed ++ input) rest) as Hm. rewrite <- Ew in Hm.
  pose proof (inflating_size _ _ _ Hd) as Hsz.
  assert (Hfed : (length fed + length input <= length W)%nat).
  { apply (f_equal length) in Ew. rewrite length_drop, !length_app in Ew. lia. }
  destruct (inflate_step d input _) as [[[[d' o] m] ended]|e].
  2:{ rewrite Hs in Hm. cbn. rewrite Href. unfold body_ref. by rewrite Hm. }
  destruct Hs as (Hmi & Hol & Hs). cbn [moved]. rewrite <- app_assoc. destruct ended.
  - rewrite Hs in Hm. assert (Ht : reference c W = trailer_ref c (check_update k o) (out ++ o) (drop (n + (length fed + m)) W)).
    { rewrite Href, <- (body_ref_update _ _ o). unfold body_ref. by rewrite Hm, drop_drop. }
    assert (Hout : Forall (fun b => octet b) (out ++ o)) by (eapply deflated_octets; [|exact Hm]; by apply Forall_drop).
    assert (Ewt : take n W ++ fed ++ take m input = take (n + (length fed + m)) W).
    { rewrite <- (take_drop n W) at 2. rewrite take_app_add' by (rewrite length_take; lia). f_equal. rewrite Ew, <- app_assoc, take_app_add.
      by rewrite take_app_le by lia. }
    assert (Hnb : (n + (length fed + m) <= length W)%nat).
    { apply (f_equal length) in Ew. rewrite length_drop, !length_app in Ew. lia. }
    split_and!; [exact Hmi|lia| | |by destruct (is_raw _)].
    + destruct (is_raw (check_update k o)) eqn:Er.
      * constructor. rewrite bool_decide_eq_false_2 by exact Hc. cbn [andb]. rewrite Ht. by destruct k.
      * rewrite Ewt, <- (app_nil_r (take _ W)). constructor; try assumption; [by apply checked_update|destruct k; cbn; lia|destruct k; cbn; lia || done].
    + right. destruct (is_raw _); cbn [pot]; lia.
  - destruct Hs as [Hd' Hfull]. split_and!; [exact Hmi|lia| | |].
    + constructor; try assumption; [by rewrite body_ref_update|by apply checked_update].
    + cbn [pot]. rewrite length_app. destruct o as [|x o]; [|cbn [length]; lia]. destruct (Hfull ltac:(cbn; lia)) as [-> _].
      destruct input; [left; split_and!; [done|done|cbn [length]; lia]|cbn [length]; lia].
    + intros -> -> EW. destruct (Hfull ltac:(cbn; lia)) as [_ Hp]. rewrite !app_nil_r in Hp. cbn [settled]. rewrite Href. unfold body_ref.
      assert (E : drop n W = fed) by (rewrite <- EW at 1; by rewrite drop_app_length' by (rewrite length_take; lia)).
      by rewrite E, Hp.
Qed.

(** What the trailer says once enough of it is there, and what the decoder makes of it. *)
Lemma checked_crc c out k t rest hashed size : k = CheckGzip hashed size -> checked c out k -> (4 <= length t)%nat ->
  match check_crc c hashed t with Ok _ => crc32 out = le32 t | Err _ => trailer_ref c k out (t ++ rest) = None end.
Proof.
  intros -> (_ & -> & _) Ht. unfold check_crc. destruct (Z.eqb_spec (crc32 out) (le32 t)) as [|He]; [done|]. cbn [trailer_ref].
  rewrite length_app, le32_app by exact Ht. destruct (Nat.leb_spec 4 (length t + length rest)); [|lia]. by destruct (Z.eqb_spec (crc32 out) (le32 t)).
Qed.
Lemma full_trailer c out k t rest : checked c out k -> Forall (fun b => octet b) out -> is_raw k = false -> length t = check_needs k ->
  match (match k with
         | CheckGzip hashed size =>
             let! _ := check_crc c hashed t in if le32 (drop 4 t) =? size mod 2 ^ 32 then Ok tt else Err (corrupt c (lit "incorrect length check"))
         | CheckZlib adler => if adler_value adler =? be32 t then Ok tt else Err (corrupt c (lit "incorrect data check"))
         | CheckRaw => Ok tt
         end) with
  | Ok _ => trailer_ref c k out (t ++ rest) = Some out
  | Err _ => trailer_ref c k out (t ++ rest) = None
  end.
Proof.
  intros Hk Ho Hr Ht. destruct k as [hashed size|a|]; [| |done]; cbn [check_needs] in Ht.
  - pose proof (checked_crc c out _ t rest hashed size eq_refl Hk ltac:(lia)) as Hc. destruct (check_crc c hashed t); [|exact Hc]. cbn [result_bind].
    destruct Hk as (_ & -> & ->). cbn [trailer_ref]. rewrite length_app, le32_app, drop_app_le, le32_app by (rewrite ?length_drop; lia).
    rewrite Hc, Z.eqb_refl. destruct (Nat.leb_spec 4 (length t + length rest)); [|lia]. destruct (Nat.leb_spec 8 (length t + length rest)); [|lia].
    cbn [negb andb]. by destruct (_ =? _ mod _).
  - cbn [trailer_ref]. destruct Hk as (ps & <- & ->). rewrite adler_pieces by exact Ho. rewrite length_app, be32_app by lia.
    destruct (Nat.ltb_spec (length t + length rest) 4); [lia|]. by destruct (_ =? _).
Qed.
Lemma trailer_tracks c W t k out n input rest limit : c <> Brotli -> (n <= length W)%nat -> W <> [] -> 1 <= limit ->
  reference c W = trailer_ref c k out (drop n W) -> checked c out k -> Forall (fun b => octet b) out -> is_raw k = false -> (length t < check_needs k)%nat ->
  drop n W = t ++ input ++ rest ->
  moved c W (Trailer t k) (take n W ++ t) out input limit (let! (st, m) := trailer c t k input in Ok (st, [], m)).
Proof.
  intros Hc Hn Hw Hlim Href Hk Ho Hr Ht Ew. unfold trailer. remember (Nat.min (check_needs k - length t) (length input)) as m eqn:Edef.
  assert (Em : drop n W = (t ++ take m input) ++ drop m input ++ rest).
  { by rewrite <- app_assoc, (app_assoc (take m input)), take_drop. }
  rewrite Em in Href. assert (El : length (t ++ take m input) = (length t + m)%nat) by (rewrite length_app, length_take; lia).
  assert (Hpot : forall st', (st' = Trailer (t ++ take m input) k /\ (length t + m < check_needs k)%nat) \/ st' = Done ->
    input = [] /\ @nil Z = [] /\ pot st' W (out ++ []) <= pot (Trailer t k) W out \/ pot st' W (out ++ []) - Z.of_nat m < pot (Trailer t k) W out).
  { intros st' [[-> Hlt]| ->]; cbn [pot]; [|right; lia]. destruct input; [by left|]. right. cbn [length] in *. lia. }
  assert (Hdone : forall st', tracks c W st' (take n W ++ t ++ take m input) (out ++ []) -> (st' = Trailer (t ++ take m input) k /\ (length t + m < check_needs k)%nat) \/ st' = Done ->
    moved c W (Trailer t k) (take n W ++ t) out input limit (Ok (st', [], m))).
  { intros st' Htr Hst. cbn [moved]. rewrite <- app_assoc. split_and!; [lia|cbn; lia|exact Htr|by apply Hpot|]. intros _ _ _. by destruct Hst as [[-> _]| ->]. }
  destruct (Nat.ltb_spec (length (t ++ take m input)) (check_needs k)) as [Hlt|Hge].
  - assert (Hkeep : match k with CheckGzip _ _ => (4 <= length (t ++ take m input))%nat -> crc32 out = le32 (t ++ take m input) | _ => True end ->
      moved c W (Trailer t k) (take n W ++ t) out input limit (Ok (Trailer (t ++ take m input) k, [], m))).
    { intros Hcrc. apply Hdone; [|left; split; [done|lia]]. rewrite app_nil_r. constructor; try assumption. by rewrite Em. }
    destruct k as [hashed size|a|]; [|by apply Hkeep..]. destruct (Nat.leb_spec 4 (length (t ++ take m input))) as [H4|H4]; [|apply Hkeep; lia].
    pose proof (checked_crc c out _ _ (drop m input ++ rest) hashed size eq_refl Hk H4) as Hcc. destruct (check_crc _ _ _); cbn [result_bind]; [by apply Hkeep|].
    cbn [moved]. by rewrite Href.
  - pose proof (full_trailer c out k (t ++ take m input) (drop m input ++ rest) Hk Ho Hr ltac:(lia)) as Hf.
    destruct (match k with CheckGzip _ _ => _ | CheckZlib _ => _ | CheckRaw => _ end); cbn [result_bind].
    + apply Hdone; [|by right]. rewrite app_nil_r. constructor. rewrite bool_decide_eq_false_2 by exact Hc. cbn [andb]. by rewrite Href.
    + cbn [moved]. by rewrite Href.
Qed.

Lemma brotli_tracks W s w out input rest limit : 1 <= limit -> brotling s w out -> W = (w ++ input) ++ rest ->
  moved Brotli W (BrotliState s) w out input limit (decode_brotli_step Brotli s input limit).
Proof.
  intros Hlim Hs EW. unfold decode_brotli_step. assert (HP : PIECE = 262144) by reflexivity.
  pose proof (brotli_steps s w out input (Z.min limit PIECE) Hs ltac:(lia)) as Hst. destruct (brotli_step _ _ _) as [[[s' o] m] r]. destruct Hst as (Hm & Ho & Hst).
  pose proof (unbrotli_more (w ++ input) rest) as Hmore. rewrite <- EW in Hmore.
  pose proof (brotling_size _ _ _ Hs) as Hsz. assert (Hlw : (length w + length input <= length W)%nat) by (rewrite EW, !length_app; lia).
  assert (Hnil : W = [] -> unbrotli (w ++ input) = Partial []).
  { intros ->. by destruct (app_eq_nil _ _ (eq_sym EW)) as [-> _]; apply unbrotli_nil. }
  assert (Href : W <> [] -> reference Brotli W = match unbrotli W with Complete out n => if Nat.eqb n (length W) then Some out else None | _ => None end).
  { intros Hne. unfold reference. by rewrite bool_decide_eq_false_2 by exact Hne. }
  assert (Hgo : brotling s' (w ++ take m input) (out ++ o) -> m = length input \/ 0 < Z.of_nat (length o) ->
    (input = [] -> o = [] -> w = W -> W <> [] -> reference Brotli W = None) ->
    moved Brotli W (BrotliState s) w out input limit (Ok (BrotliState s', o, m))).
  { intros Hb Hprog Hset. cbn [moved]. split_and!; [exact Hm|lia|by constructor|cbn [pot]; rewrite length_app|exact Hset].
    destruct o as [|x o]; [|right; cbn [length]; lia]. destruct input as [|y input]; [left; split_and!; [done|done|cbn [length]; lia]|]. right. cbn [length] in *. lia. }
  assert (Hne : unbrotli (w ++ input) <> Partial [] -> W <> []) by tauto.
  destruct r.
  - rewrite Hst in Hmore. rewrite (Hst) in Hne. specialize (Href (Hne ltac:(done))). rewrite Hmore in Href.
    destruct (Nat.eqb_spec m (length input)) as [->|Hlt]; cbn [moved].
    + split_and!; [done|lia| |right; cbn [pot]; lia|done]. rewrite take_ge by lia. constructor. rewrite Href, bool_decide_eq_true_2 by done. cbn [andb].
      rewrite <- length_app. case_bool_decide as EW'; cbn [negb]; [by rewrite EW', Nat.eqb_refl|].
      destruct (Nat.eqb_spec (length (w ++ input)) (length W)) as [El|]; [|done]. destruct EW'. rewrite EW in El |- *. rewrite !length_app in El.
      destruct rest; [by rewrite app_nil_r|cbn [length] in El; lia].
    + rewrite Href. by destruct (Nat.eqb_spec (length w + m) (length W)); [lia|].
  - destruct Hst as (Em & Hp & Hb). apply Hgo; [exact Hb|by left|]. intros -> -> -> HW. rewrite (Href HW). rewrite !app_nil_r in Hp. by rewrite Hp.
  - destruct Hst as [Eo Hb]. apply Hgo; [exact Hb|right; lia|]. intros _ -> . cbn in Eo. lia.
  - rewrite Hst in Hmore, Hne. cbn [moved]. rewrite (Href (Hne ltac:(done))). by rewrite Hmore.
Qed.

(** The first byte of a raw body goes to the inflater by itself, and nothing comes of it. *)
Lemma early_tracks c W b x k limit : Forall (fun b => octet b) W -> 1 <= limit -> W = [b] ++ x -> c <> Brotli -> checked c [] k ->
  reference c W = body_ref c k W ->
  match early_loop 1 c (Inflate new_inflater k) [b] limit [] with
  | Some (Ok (st, o)) => o = [] /\ exists d, st = Inflate d (check_update k []) /\ inflating d [b] []
  | Some (Err _) => reference c W = None
  | None => False
  end.
Proof.
  intros Ho Hlim EW Hc Hk Href. cbn [early_loop]. rewrite bool_decide_eq_false_2 by done. cbn [step_body]. unfold decode_inflate.
  assert (HP : PIECE = 262144) by reflexivity. pose proof (inflate_steps new_inflater [] [] [b] (Z.min limit PIECE) inflating_new ltac:(lia)) as Hs.
  pose proof (inflate_lone b (Z.min limit PIECE) ltac:(lia)) as Hl. destruct (inflate_step _ _ _) as [[[[d o] m] ended]|e].
  - destruct Hl as [-> ->]. destruct Hs as (_ & _ & Hd & Hfull). destruct (Hfull ltac:(cbn; lia)) as [-> _]. cbn [early_loop length drop]. 
    rewrite bool_decide_eq_true_2 by done. split; [done|]. by exists d.
  - cbn [app] in Hs. pose proof (deflated_more [b] x) as Hm. rewrite Hs, <- EW in Hm. rewrite Href. unfold body_ref. by rewrite Hm.
Qed.
Lemma head_tracks c W h input rest limit : Forall (fun b => octet b) W -> 1 <= limit -> c <> Brotli -> start c h = Ok None -> W = h ++ input ++ rest ->
  exists r, step c (Head h) input limit = Some r /\ moved c W (Head h) h [] input limit r.
Proof.
  intros Ho Hlim Hc Hh EW. unfold step. remember (Nat.min (length input) HEAD_STEP) as m eqn:Edef. assert (HS : (0 < HEAD_STEP)%nat) by (unfold HEAD_STEP; lia).
  assert (Em : W = (h ++ take m input) ++ drop m input ++ rest) by (by rewrite <- app_assoc, (app_assoc (take m input)), take_drop).
  assert (Hm : (m <= length input)%nat) by lia.
  destruct (start c (h ++ take m input)) as [[[st n]|]|e] eqn:Es.
  - destruct (start_shape _ _ _ _ Es) as (k & -> & Hk & Hn & _ & Hne). pose proof (start_more _ _ _ _ (drop m input ++ rest) Es) as EsW. rewrite <- Em in EsW.
    destruct (reference_start c W _ n EsW) as (k' & [= <-] & Href). assert (HW : W <> []) by (intros EW'; by rewrite EW' in EsW).
    assert (Hin : input <> []) by (intros ->; cbn [take length] in *; rewrite take_nil, app_nil_r in Es; congruence).
    rewrite length_app, length_take in Hn. assert (HnW : (n <= length W)%nat) by (rewrite EW, !length_app; lia).
    destruct (Nat.ltb_spec n (length h)) as [Hlt|Hge].
    + destruct (start_early _ _ _ _ _ Hh Es Hlt) as (b & -> & ->). cbn [length take drop app].
      pose proof (early_tracks c W b (input ++ rest) k limit Ho Hlim EW Hc Hk Href) as He. destruct (early_loop _ _ _ _ _ _) as [[[st o]|e]|]; [| |done]; cbn [result_bind].
      * destruct He as (-> & d & -> & Hd). eexists. split; [done|]. cbn [moved]. split_and!; [cbn; lia|cbn; lia| |right; cbn [pot length app]; lia|].
        -- change (tracks c W (Inflate d (check_update k [])) (take 0 W ++ [b]) []). constructor; try done; [by rewrite body_ref_update|by apply (checked_update c [] k [])].
        -- intros Ei. by destruct Hin.
      * eexists. split; [done|exact He].
    + eexists. split; [done|]. cbn [result_bind moved]. split_and!; [lia|cbn; lia| |right; cbn [pot length app]; lia|].
      * assert (E : h ++ take (Nat.max n (length h) - length h) input = take n W ++ []).
        { rewrite EW, app_nil_r. rewrite take_app, (take_ge h) by lia. f_equal. rewrite take_app_le by lia. f_equal. lia. }
        rewrite E. constructor; try done. apply inflating_new.
      * intros Ei. by destruct Hin.
  - eexists. split; [done|]. cbn [moved]. split_and!; [exact Hm|cbn; lia|by constructor| |done]. cbn [pot length]. destruct input; [by left|]. right. cbn [length] in *. lia.
  - eexists. split; [done|]. cbn [moved]. rewrite Em. apply (reference_err _ _ e). by apply start_err.
Qed.
Lemma step_tracks c W st w out input rest limit : Forall (fun b => octet b) W -> 1 <= limit -> tracks c W st w out -> W = w ++ input ++ rest ->
  exists r, step c st input limit = Some r /\ moved c W st w out input limit r.
Proof.
  intros Ho Hlim Ht EW. destruct Ht as [w Hc Hs|d k fed out n Hc Hn HW Href Hk Hd|t k out n Hc Hn HW Href Hk Hout Hr Ht Hcrc|s w out -> Hs|w out Href];
    cbn [step step_body].
  - by apply (head_tracks c W w input rest).
  - eexists. split; [done|]. apply (decode_inflate_tracks c W d k fed out n input rest); try assumption.
    rewrite EW at 1. rewrite <- app_assoc, drop_app_length' by (rewrite length_take; lia). by rewrite app_assoc.
  - eexists. split; [done|]. apply (trailer_tracks c W t k out n input rest); try assumption.
    rewrite EW at 1. by rewrite <- app_assoc, drop_app_length' by (rewrite length_take; lia).
  - eexists. split; [done|]. apply (brotli_tracks W s w out input rest); try assumption. by rewrite <- app_assoc.
  - destruct (bool_decide (c = Brotli) && negb (bool_decide (input = []))) eqn:Eb.
    + eexists. split; [done|]. apply andb_true_iff in Eb as [Ec Ei%negb_true_iff%bool_decide_eq_false]. cbn [moved]. rewrite Href, Ec, bool_decide_eq_false_2; [done|].
      intros Ew. destruct Ei. apply (f_equal length) in EW. rewrite Ew, !length_app in EW. apply length_zero_iff_nil. lia.
    + eexists. split; [done|]. cbn [moved]. split_and!; [lia|cbn; lia| | |done].
      * rewrite take_ge, app_nil_r by lia. constructor. rewrite Href. destruct (bool_decide (c = Brotli)); [|done]. cbn [andb] in *.
        apply negb_false_iff, bool_decide_eq_true in Eb as ->. by rewrite app_nil_r.
      * cbn [pot]. destruct input; [by left|]. right. cbn [length]. lia.
Qed.

(** The decoder of a body, and the bytes it saw. *)
Record follows (c : StreamCodec) (W : bytes) (d : StreamDecoder) (w out : bytes) : Prop := {
  follows_codec : codec d = c;
  follows_tracks : tracks c W (state d) w out;
  follows_seen : seen d = true -> W <> [];
  follows_unseen : seen d = false -> w = []
}.
Lemma follows_new c W : follows c W (new_decoder c) [] [].
Proof. split; [done| |done|done]. destruct c; cbn [new_decoder state]; constructor; done || apply brotling_new. Qed.
(** One call to the decoder, wherever the body is cut: it returns; what it gives is
    at most what was asked; it comes nearer the end unless there is nothing left to do. *)
Lemma decode_follows c W d w out input rest limit : Forall (fun b => octet b) W -> follows c W d w out -> W = w ++ input ++ rest ->
  exists d' r, decode d input limit = Some (d', r) /\
  match r with
  | Err _ => reference c W = None
  | Ok (o, n) => (n <= length input)%nat /\ Z.of_nat (length o) <= Z.max limit 1 /\ follows c W d' (w ++ take n input) (out ++ o)
      /\ (input = [] /\ o = [] /\ pot (state d') W (out ++ o) <= pot (state d) W out \/ pot (state d') W (out ++ o) - Z.of_nat n < pot (state d) W out)
      /\ (input = [] -> o = [] -> w = W -> settled c W (state d') out)
  end.
Proof.
  intros Ho [Ec Ht Hs Hu] EW. destruct (step_tracks c W (state d) w out input rest (Z.max limit 1) Ho ltac:(lia) Ht EW) as (r & Er & Hr).
  unfold decode. rewrite Ec, Er. destruct r as [[[st o] n]|e]; eexists _, _; (split; [reflexivity|]); [|exact Hr].
  destruct Hr as (Hn & Hl & Ht' & Hp & Hset). split_and!; [exact Hn|exact Hl| |exact Hp|exact Hset]. split; cbn [codec state seen]; [done|exact Ht'| |].
  - intros [H|Hi]%orb_true_iff; [by apply Hs|]. intros ->. apply negb_true_iff, bool_decide_eq_false in Hi. destruct Hi.
    by destruct w, input.
  - intros [H1 Hi]%orb_false_iff. apply negb_false_iff, bool_decide_eq_true in Hi as ->. by rewrite take_nil, app_nil_r, Hu.
Qed.
(** At the end of the body. *)
Lemma end_reference c W st w out : tracks c W st w out -> settled c W st out -> w = W -> W <> [] ->
  reference c W = match st with Done => Some out | _ => lenient c out end.
Proof.
  intros Ht Hset Ew HW. destruct Ht as [w Hc Hs|d k fed out n Hc Hn _ Href Hk Hd|t k out n Hc Hn _ Href Hk Hout Hr Ht Hcrc|s w out -> Hs|w out Href].
  - subst w. unfold reference. rewrite bool_decide_eq_false_2 by exact HW. by destruct c; [rewrite Hs..|].
  - exact Hset.
  - rewrite Href. replace (drop n W) with t by (rewrite <- Ew at 1; by rewrite drop_app_length' by (rewrite length_take; lia)).
    destruct k as [hashed size|a|]; [| |done]; cbn [trailer_ref check_needs] in *.
    + destruct Hk as (-> & _). destruct (Nat.leb_spec 4 (length t)); [rewrite (Hcrc ltac:(lia)), Z.eqb_refl|]; cbn [andb negb];
        (destruct (Nat.leb_spec 8 (length t)); [lia|]); done.
    + by destruct (Nat.ltb_spec (length t) 4); [|lia].
  - by apply Hset.
  - rewrite Href, Ew, (bool_decide_eq_true_2 (W = W)) by done. by rewrite andb_false_r.
Qed.
Lemma end_empty c st w out : tracks c [] st w out -> w = [] -> out = [].
Proof.
  intros [ | | |s w0 out0 _ Hs|w0 out0 Href] Ew; try done.
  - apply brotling_size in Hs. rewrite Ew in Hs. destruct out0; [done|cbn [length] in Hs; lia].
  - rewrite Ew, (bool_decide_eq_true_2 (@nil Z = [])), andb_false_r in Href by done. by injection Href.
Qed.
Lemma finish_follows c W d out : follows c W d W out -> settled c W (state d) out ->
  match finish_decoder d with Ok _ => reference c W = Some out | Err _ => reference c W = None end.
Proof.
  intros [Ec Ht Hs Hu] Hset. unfold finish_decoder. rewrite Ec. destruct (seen d); cbn [negb].
  - rewrite (end_reference c W (state d) W out) by auto. unfold lenient. destruct (state d); [destruct (bool_decide (c = Gzip)); done..|done].
  - specialize (Hu eq_refl). subst W. by rewrite (end_empty _ _ _ _ Ht eq_refl).
Qed.
Lemma follows_pot c W d w out rest : follows c W d w out -> W = w ++ rest -> 0 <= pot (state d) W out.
Proof.
  intros [_ Ht _ _] EW. assert (Hw : (length w <= length W)%nat) by (rewrite EW, length_app; lia).
  destruct Ht as [w Hc Hs|d0 k fed out n Hc Hn _ Href Hk Hd|t k out n Hc Hn _ Href Hk Hout Hr Ht Hcrc|s w out -> Hs|w out Href]; cbn [pot]; try lia.
  - pose proof (inflating_size _ _ _ Hd). rewrite length_app in Hw. lia.
  - pose proof (brotling_size _ _ _ Hs). lia.
Qed.
(** What was given is the beginning of what the whole body decodes to. *)
Lemma decoder_continues c W : Forall (fun b => octet b) W -> forall fuel d w out rest, W = w ++ rest -> follows c W d w out ->
  pot (state d) W out + Z.of_nat (length rest) < Z.of_nat fuel ->
  match reference c W with Some full => exists more, full = out ++ more | None => True end.
Proof.
  intros Ho fuel. induction fuel as [|fuel IH]; intros d w out rest EW Hd Hf; [pose proof (follows_pot _ _ _ _ _ _ Hd EW); lia|].
  destruct (decode_follows c W d w out rest [] 1 Ho Hd ltac:(by rewrite app_nil_r)) as (d' & r & _ & Hr). destruct r as [[o n]|e]; [|by rewrite Hr].
  destruct Hr as (Hn & _ & Hd' & Hp & Hset). destruct (decide (rest = [] /\ o = [])) as [[-> ->]|Hne].
  - rewrite app_nil_r in EW. subst w. rewrite take_nil, !app_nil_r in Hd'. pose proof (finish_follows c W d' out Hd' (Hset eq_refl eq_refl eq_refl)) as Hfin.
    destruct (finish_decoder d'); rewrite Hfin; [|done]. exists []. by rewrite app_nil_r.
  - assert (Hlt : pot (state d') W (out ++ o) - Z.of_nat n < pot (state d) W out) by (destruct Hp as [(-> & -> & _)|]; [by destruct Hne|done]).
    specialize (IH d' (w ++ take n rest) (out ++ o) (drop n rest)). rewrite <- app_assoc, take_drop, length_drop in IH. specialize (IH EW Hd' ltac:(lia)).
    destruct (reference c W); [|done]. destruct IH as [more ->]. exists (o ++ more). by rewrite app_assoc.
Qed.
End Decoder.

(** ** Stored blocks *)

Definition stored (l : bytes) : Decoded :=
  match l with
  | [] => Partial []
  | n :: r => if Nat.ltb (Z.to_nat n) (length r) then Complete (take (Z.to_nat n) r) (Z.to_nat n + 2) else Partial r
  end.
Definition storing (d : option nat) (fed out : bytes) : Prop :=
  match d with None => fed = [] /\ out = [] | Some k => exists n, fed = n :: out /\ (length out + k)%nat = Z.to_nat n end.
Lemma stored_more w more : match stored w with Partial _ => True | r => stored (w ++ more) = r end.
Proof.
  destruct w as [|n r]; [done|]. cbn [stored app]. destruct (Nat.ltb_spec (Z.to_nat n) (length r)); [|done]. rewrite length_app.
  destruct (Nat.ltb_spec (Z.to_nat n) (length r + length more)); [|lia]. by rewrite take_app_le by lia.
Qed.
Lemma storing_size d fed out : storing d fed out -> (length out <= length fed)%nat.
Proof. destruct d; cbn; [intros (n0 & -> & _); cbn; lia|by intros [-> ->]]. Qed.
Lemma stored_go_spec n out left_ r used room : (length out + left_)%nat = Z.to_nat n -> 1 <= room ->
  let '(d', o, k, ended) := stored_go left_ r used room in
  (used <= k <= used + length r)%nat /\ Z.of_nat (length o) <= room
  /\ if (ended : bool) then stored (n :: out ++ r) = Complete (out ++ o) (1 + length out + (k - used))
     else storing d' (n :: out ++ take (k - used) r) (out ++ o)
          /\ (Z.of_nat (length o) < room -> k = (used + length r)%nat /\ stored (n :: out ++ r) = Partial (out ++ o)).
Proof.
  intros Hn Hroom. unfold stored_go. destruct ((Z.of_nat left_ <=? room) && Nat.ltb left_ (length r)) eqn:Eb.
  - apply andb_true_iff in Eb as [Hl%Z.leb_le Hr%Nat.ltb_lt]. rewrite length_take. split_and!; [lia..|]. cbn [stored]. rewrite length_app, <- Hn.
    destruct (Nat.ltb_spec (length out + left_) (length out + length r)); [|lia]. f_equal; [|lia]. by rewrite take_app_add.
  - cbv zeta. remember (Nat.min (Nat.min left_ (length r)) (Z.to_nat room)) as m eqn:Em. rewrite length_take. split; [lia|]. split; [lia|]. replace (used + m - used)%nat with m by lia. split.
    + exists n. split; [done|]. rewrite length_app, length_take. lia.
    + intros Hlt. destruct (Z.leb_spec (Z.of_nat left_) room), (Nat.ltb_spec left_ (length r)); first [done|exfalso; lia|idtac]; (split; [lia|]); rewrite take_ge by lia; cbn [stored]; rewrite length_app, <- Hn;
      (destruct (Nat.ltb_spec (length out + left_) (length out + length r)); [lia|done]).
Qed.
Lemma stored_step_spec d fed out input room : storing d fed out -> 1 <= room ->
  let '(d', o, k, ended) := stored_step d input room in
  (k <= length input)%nat /\ Z.of_nat (length o) <= room
  /\ if (ended : bool) then stored (fed ++ input) = Complete (out ++ o) (length fed + k)
     else storing d' (fed ++ take k input) (out ++ o) /\ (Z.of_nat (length o) < room -> k = length input /\ stored (fed ++ input) = Partial (out ++ o)).
Proof.
  intros Hd Hroom. destruct d as [left_|]; cbn [storing stored_step] in *.
  - destruct Hd as (n & -> & Hn). pose proof (stored_go_spec n out left_ input 0 room Hn Hroom) as Hg. destruct (stored_go _ _ _ _) as [[[d' o] k] ended].
    rewrite Nat.sub_0_r in Hg. cbn [length app Nat.add] in *. destruct Hg as (Hk & Ho & Hg). split_and!; [lia|done|exact Hg].
  - destruct Hd as [-> ->]. destruct input as [|n r]; [split_and!; [lia|cbn; lia|done..]|].
    pose proof (stored_go_spec n [] (Z.to_nat n) r 1 room eq_refl Hroom) as Hg. destruct (stored_go _ _ _ _) as [[[d' o] k] ended]. cbn [length app Nat.add] in *.
    destruct Hg as (Hk & Ho & Hg). split_and!; [lia|done|]. destruct ended; [rewrite Hg; f_equal; lia|]. destruct k as [|k]; [lia|]. cbn [take Nat.sub] in *. rewrite Nat.sub_0_r in Hg. exact Hg.
Qed.
#[global] Instance sample_laws : StreamLaws sample_codecs.
Proof.
  refine {| deflated := stored; inflating := storing : @Inflater sample_codecs -> _; unbrotli := stored; brotling := storing : @BrotliDecoder sample_codecs -> _ |};
    try done; try apply stored_more.
  - intros [|n r] out k Hw; cbn [stored]; [done|]. destruct (Nat.ltb _ _); [|done]. intros [= <- _]. apply Forall_take. by inversion Hw.
  - intros d fed out Hd. pose proof (storing_size d fed out Hd). lia.
  - intros d fed out input room. apply (stored_step_spec d fed out input room).
  - intros b room Hroom. cbn. unfold stored_go. cbn [length]. rewrite andb_false_r. cbn [take Nat.min]. by rewrite Nat.min_0_r.
  - intros d fed out Hd. pose proof (storing_size d fed out Hd). lia.
  - intros d fed out input room Hd Hroom. pose proof (stored_step_spec d fed out input room Hd Hroom) as Hs. cbn. unfold stored_result.
    destruct (stored_step d input room) as [[[d' o] k] ended]. destruct Hs as (Hk & Ho & Hs). destruct ended; [by split_and!|]. destruct Hs as [Hd' Hs]. destruct (Z.eqb_spec (Z.of_nat (length o)) room); [by split_and!|].
    destruct (Hs ltac:(lia)) as [-> Hp]. by split_and!.
Defined.

(** A member of four bytes, cut short in its trailer. *)
Lemma decoding_ends_witness :
  let K := sample_codecs in
  let w := [31; 139; 8; 0; 0; 0; 0; 0; 0; 255; 4] ++ lit "body" ++ [0; 4; 0] in
  to_option (decode_gzip w) = Some (lit "body") /\ reference Deflate w = None /\ exists r, inflate_loop (inflate_rounds (length w)) w new_inflater 0 [] (capacity (Nat.max (4 * length w) 64)) = Some r.
Proof.
  intros K w. subst K. destruct (@decoding_ends sample_codecs sample_laws w) as (Hi & _ & Hg & _). split_and!; [rewrite Hg; by vm_compute|by vm_compute|exact Hi].
Defined.
