(* ===== verification/FlowStream.v ===== *)
(** A streamed response: the model of [agentcage-egress/src/flow/stream.rs] - the
    decoder, the redactor and the capture tee over a body as it arrives - and of
    [next_piece] of [proxy/conn.rs], which drives it. *)
From S2P Require Import Prelude Utf8 Json Value Inspect Message AuditLog BodyCodec StreamDecode.
From S2P Require Secrets Forms StreamRedact Rules Injector Capture Transport Engine.
From Stdlib Require Import ZifyBool.

(** * Definitions *)

Definition STEP : Z := 64 * 1024.

(** [Display] of the errors. *)
Definition decode_error_text `{StrDebug} (e : DecodeError) : str :=
  match e with
  | Unsupported e => lit "unsupported Content-Encoding " ++ debug_str e
  | Corrupt encoding detail => lit "invalid " ++ encoding ++ lit " body: " ++ detail
  end.
Definition redact_error_text (e : StreamRedact.StreamRedactError) : str :=
  match e with StreamRedact.UnboundedRun => lit "unbounded base64 run during redaction" end.

(** ** The tee *)

Section Stream.
Context `{Forms.Crates} `{F64Text} `{Unicode} `{StrDebug} `{Codecs}.

Record SideDecode : Type := mkSide { s_decoder : StreamDecoder; s_raw : bytes; s_raw_total : nat; s_failed : bool }.
Record Tee : Type := mkTee { kept : bytes; limit : nat; total : nat; side : option SideDecode }.
Definition keep (kept : bytes) (limit : nat) (data : bytes) : bytes := kept ++ take (limit - length kept) data.

(** The side decoder's loop; [None] when the fuel ran out. *)
Fixpoint record_loop (fuel : nat) (s : SideDecode) (rest : bytes) (t : Tee) : option Tee :=
  match fuel with
  | O => None
  | S fuel =>
      let? (d, r) := decode (s_decoder s) rest STEP in
      let s := mkSide d (s_raw s) (s_raw_total s) (s_failed s) in
      match r with
      | Err _ => Some (mkTee (kept t) (limit t) (total t) (Some (mkSide d (s_raw s) (s_raw_total s) true)))
      | Ok (out, used) =>
          let rest := drop used rest in
          let t := mkTee (keep (kept t) (limit t) out) (limit t) (total t + length out) (Some s) in
          if bool_decide (out = []) && (bool_decide (rest = []) || Nat.eqb used 0) then Some t else record_loop fuel s rest t
      end
  end.
Definition tee_record (fuel : nat) (data : bytes) (t : Tee) : option Tee :=
  match side t with
  | None => Some (mkTee (keep (kept t) (limit t) data) (limit t) (total t + length data) None)
  | Some s =>
      let s := mkSide (s_decoder s) (keep (s_raw s) (limit t) data) (s_raw_total s + length data) (s_failed s) in
      let t := mkTee (kept t) (limit t) (total t) (Some s) in
      if s_failed s then Some t else record_loop fuel s data t
  end.
Definition tee_finish (t : Tee) : bytes * nat :=
  match side t with
  | None => (kept t, total t)
  | Some s =>
      if negb (s_failed s) && match finish_decoder (s_decoder s) with Ok _ => true | Err _ => false end
      then (kept t, total t) else (s_raw s, s_raw_total s)
  end.

(** ** The stream *)

Record Plan : Type := mkPlan {
  p_decode : option StreamCodec; p_redactor : option StreamRedact.StreamRedactor; p_capture : option (nat * option StreamCodec)
}.
Record PipelineStream : Type := mkStream {
  flow_id : str; direction : Direction; req : Message.Request; head : Message.Response; passthrough : bool;
  decoder : option StreamDecoder; redactor : option StreamRedact.StreamRedactor; tee : option Tee;
  input : option (bytes * nat); ready : list bytes; ended : bool; flushed : bool
}.
Definition new_stream (id : str) (d : Direction) (r : Message.Request) (h : Message.Response) (p : Plan) : PipelineStream :=
  mkStream id d r h (bool_decide (p_redactor p = None) && bool_decide (p_decode p = None))
    (option_map new_decoder (p_decode p)) (p_redactor p)
    (option_map (fun c => mkTee [] c.1 0 (option_map (fun codec => mkSide (new_decoder codec) [] 0 false) c.2)) (p_capture p))
    None [] false false.
Definition set_decoder (s : PipelineStream) (d : option StreamDecoder) : PipelineStream :=
  mkStream (flow_id s) (direction s) (req s) (head s) (passthrough s) d (redactor s) (tee s) (input s) (ready s) (ended s) (flushed s).
Definition set_redactor (s : PipelineStream) (r : option StreamRedact.StreamRedactor) : PipelineStream :=
  mkStream (flow_id s) (direction s) (req s) (head s) (passthrough s) (decoder s) r (tee s) (input s) (ready s) (ended s) (flushed s).
Definition set_tee (s : PipelineStream) (t : option Tee) : PipelineStream :=
  mkStream (flow_id s) (direction s) (req s) (head s) (passthrough s) (decoder s) (redactor s) t (input s) (ready s) (ended s) (flushed s).
Definition set_input (s : PipelineStream) (i : option (bytes * nat)) : PipelineStream :=
  mkStream (flow_id s) (direction s) (req s) (head s) (passthrough s) (decoder s) (redactor s) (tee s) i (ready s) (ended s) (flushed s).
Definition set_ready (s : PipelineStream) (r : list bytes) : PipelineStream :=
  mkStream (flow_id s) (direction s) (req s) (head s) (passthrough s) (decoder s) (redactor s) (tee s) (input s) r (ended s) (flushed s).
Definition set_end (s : PipelineStream) (e f : bool) : PipelineStream :=
  mkStream (flow_id s) (direction s) (req s) (head s) (passthrough s) (decoder s) (redactor s) (tee s) (input s) (ready s) e f.

Definition nonempty_pieces (l : list bytes) : list bytes := List.filter (fun p => negb (bool_decide (p = []))) l.
Definition emit_piece (piece : bytes) (s : PipelineStream) : result str PipelineStream :=
  match redactor s with
  | Some r =>
      match StreamRedact.push r piece with
      | Err e => Err (redact_error_text e)
      | Ok (r, out) => Ok (set_ready (set_redactor s (Some r)) (ready s ++ nonempty_pieces out))
      end
  | None => Ok (if bool_decide (piece = []) then s else set_ready s (ready s ++ [piece]))
  end.
Fixpoint work (fuel : nat) (s : PipelineStream) : option (result str PipelineStream) :=
  if negb (bool_decide (ready s = [])) then Some (Ok s)
  else
    match input s with
    | None => Some (Ok s)
    | Some (chunk, at_) =>
        match fuel with
        | O => None
        | S fuel =>
            let s := set_input s None in
            match decoder s with
            | None => match emit_piece (drop at_ chunk) s with Err e => Some (Err e) | Ok s => work fuel s end
            | Some d =>
                let? (d, r) := decode d (drop at_ chunk) STEP in
                match r with
                | Err e => Some (Err (decode_error_text e))
                | Ok (out, used) =>
                    let s := set_decoder s (Some d) in
                    let at_ := (at_ + used)%nat in
                    let s := if Nat.ltb at_ (length chunk) || negb (bool_decide (out = [])) then set_input s (Some (chunk, at_)) else s in
                    match emit_piece out s with Err e => Some (Err e) | Ok s => work fuel s end
                end
            end
        end
    end.
(** What is left once the decoder gives no more. *)
Definition flush_redactor (s : PipelineStream) : PipelineStream :=
  let s := match redactor s with
           | Some r => let '(r, out) := StreamRedact.finish r in set_ready (set_redactor s (Some r)) (ready s ++ nonempty_pieces out)
           | None => s
           end in
  set_end s (ended s) true.
Definition flush (s : PipelineStream) : option (result str PipelineStream) :=
  match decoder s with
  | None => Some (Ok (flush_redactor s))
  | Some d =>
      let? (d, r) := decode d [] STEP in
      let s := set_decoder s (Some d) in
      Some match r with
           | Err e => Err (decode_error_text e)
           | Ok (out, _) =>
               if negb (bool_decide (out = [])) then emit_piece out s
               else match finish_decoder d with Err e => Err (decode_error_text e) | Ok _ => Ok (flush_redactor s) end
           end
  end.
Definition push (chunk : bytes) (s : PipelineStream) : PipelineStream :=
  if bool_decide (chunk = []) then s else set_input s (Some (chunk, 0%nat)).
Definition end_ (s : PipelineStream) : PipelineStream := set_end s true (flushed s).

Fixpoint flush_loop (fuel : nat) (s : PipelineStream) : option (result str PipelineStream) :=
  if bool_decide (ready s = []) && ended s && bool_decide (input s = None) && negb (flushed s) then
    match fuel with
    | O => None
    | S fuel =>
        let? r := flush s in
        match r with
        | Err e => Some (Err e)
        | Ok s =>
            let? r := work (S fuel) s in
            match r with Err e => Some (Err e) | Ok s => flush_loop fuel s end
        end
    end
  else Some (Ok s).
(** The next piece for the client; [None] when the fuel ran out. *)
Definition next_out (fuel : nat) (s : PipelineStream) : option (result str (PipelineStream * option bytes)) :=
  let? r := work fuel s in
  match r with
  | Err e => Some (Err e)
  | Ok s =>
      let? r := flush_loop fuel s in
      match r with
      | Err e => Some (Err e)
      | Ok s =>
          match ready s with
          | [] => Some (Ok (s, None))
          | piece :: rest =>
              let s := set_ready s rest in
              match tee s with
              | None => Some (Ok (s, Some piece))
              | Some t => let? t := tee_record fuel piece t in Some (Ok (set_tee s (Some t), Some piece))
              end
          end
      end
  end.
(** [capacity] is what the allocator gives the kept bytes. *)
Definition stream_held (capacity : bytes -> Z) (s : PipelineStream) : Z :=
  match redactor s with Some r => Z.of_nat (length (StreamRedact.held r)) | None => 0 end
  + match tee s with Some t => capacity (kept t) | None => 0 end.

(** ** The exchange *)

(** What the upstream body gives: chunks, then its end or an error.  [grows] is the
    budget's answer to a reservation. *)
Inductive UpstreamEnd : Type := BodyEnd | BodyError (e : str).
Record Exchange : Type := mkExchange { stream : PipelineStream; chunks_left : list bytes; upstream_end : UpstreamEnd; at_end : bool }.
Fixpoint next_piece (fuel : nat) (capacity : bytes -> Z) (grows : Z -> bool) (budget_limit : Z) (x : Exchange)
  : option (Exchange * (option bytes + Transport.StreamOutcome)) :=
  match fuel with
  | O => None
  | S more =>
      let? r := next_out fuel (stream x) in
      match r with
      | Err reason => Some (x, inr (Transport.StreamRefused reason))
      | Ok (s, Some piece) => Some (mkExchange s (chunks_left x) (upstream_end x) (at_end x), inl (Some piece))
      | Ok (s, None) =>
          if at_end x then Some (mkExchange s (chunks_left x) (upstream_end x) true, inl None)
          else
            let held_then x := if negb (grows (stream_held capacity (stream x)))
                               then Some (x, inr (Transport.StreamRefused (Transport.error_text (Transport.BudgetExhausted budget_limit))))
                               else next_piece more capacity grows budget_limit x in
            match chunks_left x, upstream_end x with
            | chunk :: rest, e => held_then (mkExchange (push chunk s) rest e false)
            | [], BodyEnd => held_then (mkExchange (end_ s) [] BodyEnd true)
            | [], BodyError e => Some (mkExchange s [] (BodyError e) false, inr (Transport.UpstreamFailed e))
            end
      end
  end.
End Stream.

(** ** The end *)

Section Close.
Context `{Unicode} `{F64Text} `{StrDebug} `{Secrets.RegexEngine} `{Forms.Crates} `{Codecs} `{Rules.Transforms}.
Definition close (e : Engine.Env) (s : PipelineStream) (outcome : Transport.StreamOutcome) (g : Engine.Engine) : Engine.Engine :=
  let io := Engine.capture_io e in
  let ts := Engine.clock e in
  let release g := Engine.set_capture g (Capture.release io ts (flow_id s) (Engine.capture g)) in
  match outcome with
  | Transport.StreamCompleted =>
      match tee s with
      | Some t =>
          let '(kept, total) := tee_finish t in
          Engine.set_capture g (Capture.finish_streamed_response io ts (flow_id s) (head s) kept total (Engine.capture g))
      | None => release g
      end
  | Transport.UpstreamFailed reason | Transport.StreamRefused reason =>
      emit (AuditSink := Engine.engine_sink e) (AuditLog.upstream_error ts (req s) (direction s) reason) (release g)
  | Transport.ClientGone => release g
  end.
End Close.
(** [redact_head]. *)
Definition redact_head `{Forms.Crates} `{F64Text} (head : Message.Response) (forms : list Forms.SecretForms) : Message.Response :=
  mkResponse (status head) (reason head) (resp_version head) (Injector.redact_headers_with (resp_headers head) forms).1 (resp_body head).
