(* ===== verification/Relay.v ===== *)
(** A streamed response on its way to an HTTP/1 client: the model of [relay_h1] of
    [agentcage-egress/src/proxy/conn.rs] over the stream of FlowStream.v, and what the
    client gets - whatever the upstream's chunks and whatever the pieces. *)
From S2P Require Import Prelude Utf8 Json Value Message BodyCodec StreamDecode StreamSpec.
From S2P Require Forms StreamRedact Transport H1.
From S2P Require Import FlowStream.
From Stdlib Require Import ZifyBool.

(** * Definitions *)

(** How a streamed flow ended. *)
Definition stream_flow_end (o : Transport.StreamOutcome) : Transport.FlowEnd :=
  match o with
  | Transport.StreamCompleted => Transport.Completed
  | Transport.ClientGone => Transport.Aborted (lit "client went away")
  | Transport.UpstreamFailed reason | Transport.StreamRefused reason => Transport.Aborted reason
  end.

Section Relay.
Context `{Forms.Crates} `{F64Text} `{Unicode} `{StrDebug} `{Codecs}.

Definition stream_framing (req_version : str) (resp : Response) (s : PipelineStream) : H1.StreamFraming :=
  if passthrough s && header_contains (resp_headers resp) (lit "content-length") then H1.SLength
  else if bool_decide (req_version = lit "HTTP/1.0") then H1.SClose
  else H1.SChunked.

(** What the client was written, and whether it takes the next write. *)
Record Wire : Type := mkWire { takes : list bytes -> bytes -> bool; written : list bytes }.
Fixpoint write_all (l : list bytes) (w : Wire) : Wire * bool :=
  match l with
  | [] => (w, true)
  | b :: l => if takes w (written w) b then write_all l (mkWire (takes w) (written w ++ [b])) else (w, false)
  end.
(** The loop over the pieces; [None] when the fuel ran out. *)
Fixpoint relay_loop (rounds fuel : nat) (capacity : bytes -> Z) (grows : Z -> bool) (budget_limit : Z) (framing : H1.StreamFraming) (w : Wire) (x : Exchange)
  : option (Wire * Exchange * Transport.StreamOutcome) :=
  match rounds with
  | O => None
  | S rounds =>
      let? (x, r) := next_piece fuel capacity grows budget_limit x in
      match r with
      | inl (Some piece) =>
          let '(w, taken) := write_all (H1.write_piece piece framing) w in
          if taken : bool then relay_loop rounds fuel capacity grows budget_limit framing w x else Some (w, x, Transport.ClientGone)
      | inl None =>
          let '(w, taken) := write_all (H1.write_end framing).1 w in
          Some (w, x, if taken : bool then Transport.StreamCompleted else Transport.ClientGone)
      | inr outcome => Some (w, x, outcome)
      end
  end.
(** The exchange, how it ended and whether the connection can carry another request;
    [close], [flow_end] and the upstream connection's return are the caller's. *)
Definition relay_h1 (rounds fuel : nat) (capacity : bytes -> Z) (grows : Z -> bool) (budget_limit : Z) (req_version : str) (resp : Response) (w : Wire) (x : Exchange)
  : option (Wire * Exchange * Transport.StreamOutcome * bool) :=
  let framing := stream_framing req_version resp (stream x) in
  let '(w, taken) := write_all [H1.encode_stream_head resp framing] w in
  let? (w, x, outcome) := if taken : bool then relay_loop rounds fuel capacity grows budget_limit framing w x else Some (w, x, Transport.ClientGone) in
  let completed := match outcome with Transport.StreamCompleted => true | _ => false end in
  Some (w, x, outcome, completed && match framing with H1.SClose => false | _ => true end).
End Relay.

(** * Theorems *)

Section Pipeline.
Context `{C : Forms.Crates} {CL : Forms.CratesLaws C} `{F64 : F64Text} `{U : Unicode} `{D : StrDebug} `{K : Codecs} {L : StreamLaws K}.

(** The plan of a redacted stream: the coding to remove, the forms to redact and how
    much may be held back, how much of it the capture entry keeps. *)
Context (dec : option StreamCodec) (protect : option (list Forms.SecretForms * Z)) (cap : option nat).
Hypothesis protected : forall fs n, protect = Some (fs, n) -> Forall StreamRedact.wf_forms fs.
Context (W : bytes) (octets : Forall (fun b => octet b) W).

Definition decoded : option bytes := match dec with Some c => reference c W | None => Some W end.
Definition cleaned (body : bytes) : bytes := match protect with Some (fs, _) => (StreamRedact.redact_body fs body).1 | None => body end.
(** A run the redactor may not hold back. *)
Definition overrun (body : bytes) : Prop :=
  match protect with
  | Some (fs, n) => exists before run after, body = before ++ run ++ after /\ Forall (fun b => StreamRedact.alphabet fs b = true) run /\ n < Z.of_nat (length run)
  | None => False
  end.
Definition refused : Prop := match decoded with Some body => overrun body | None => True end.
Definition redactor_of : option StreamRedact.StreamRedactor := option_map (fun p => StreamRedact.with_max_hold (StreamRedact.new_stream p.1) p.2) protect.
Definition the_plan : Plan := mkPlan dec redactor_of (option_map (fun limit => (limit, None)) cap).

(** ** The state *)

Definition reads (d : option StreamDecoder) (w o : bytes) : Prop :=
  match dec, d with None, None => o = w | Some c, Some d => follows c W d w o | _, _ => False end.
Definition redacts (r : option StreamRedact.StreamRedactor) (o out : bytes) : Prop :=
  match protect, r with
  | None, None => out = o
  | Some (fs, n), Some r => exists ps l, StreamRedact.push_all (StreamRedact.with_max_hold (StreamRedact.new_stream fs) n) ps = Ok (r, l) /\ concat ps = o /\ out = concat l
  | _, _ => False
  end.
Definition tee_of (rel : bytes) : option Tee := option_map (fun limit => mkTee (take limit rel) limit (length rel) None) cap.
Definition pending (s : PipelineStream) : bytes := match input s with Some (chunk, at_) => drop at_ chunk | None => [] end.

(** Before the end: [o] was decoded, [rel] was relayed, [rest] is to come. *)
Record running (s : PipelineStream) (rest w o rel : bytes) : Prop := {
  running_source : W = w ++ pending s ++ rest;
  running_input : match input s with Some (chunk, at_) => (at_ <= length chunk)%nat | None => True end;
  running_reads : reads (decoder s) w o;
  running_redacts : redacts (redactor s) o (rel ++ concat (ready s));
  running_flushed : flushed s = false;
  running_tee : tee s = tee_of rel
}.
(** After it. *)
Record over (s : PipelineStream) (rel : bytes) : Prop := {
  over_body : exists body, decoded = Some body /\ rel ++ concat (ready s) = cleaned body;
  over_input : input s = None;
  over_flushed : flushed s = true;
  over_ended : ended s = true;
  over_tee : tee s = tee_of rel
}.

(** ** One piece of the decoded body *)

Lemma push_all_app ps p : forall st, StreamRedact.push_all st (ps ++ [p]) =
  let! (st, l) := StreamRedact.push_all st ps in let! (st, l2) := StreamRedact.push st p in Ok (st, l ++ l2).
Proof.
  induction ps as [|q ps IH]; intros st; cbn [app StreamRedact.push_all result_bind].
  - destruct (StreamRedact.push st p) as [[st' l]|]; [|done]. cbn [result_bind]. by rewrite app_nil_r.
  - destruct (StreamRedact.push st q) as [[st1 l1]|]; [|done]. cbn [result_bind]. rewrite IH. destruct (StreamRedact.push_all st1 ps) as [[st2 l2]|]; [|done]. cbn [result_bind].
    destruct (StreamRedact.push st2 p) as [[st3 l3]|]; [|done]. cbn [result_bind]. by rewrite app_assoc.
Qed.
Lemma concat_nonempty l : concat (nonempty_pieces l) = concat l.
Proof. induction l as [|p l IH]; [done|]. unfold nonempty_pieces in *. cbn [List.filter]. case_bool_decide as E; cbn [negb concat]; [by rewrite E, IH|by rewrite IH]. Qed.
Lemma length_nonempty l : (length (nonempty_pieces l) <= length l)%nat.
Proof. apply filter_length_le. Qed.
Lemma segment_pieces st l : (length (StreamRedact.segment st l).2 <= 1)%nat.
Proof. unfold StreamRedact.segment. case_bool_decide; [cbn; lia|]. destruct (match StreamRedact.scan st with Some _ => _ | None => _ end); [cbn; lia|]. destruct (StreamRedact.segment_loop _ _ _). cbn. lia. Qed.
Lemma push_pieces st p st' l : StreamRedact.push st p = Ok (st', l) -> (length l <= 2)%nat.
Proof.
  unfold StreamRedact.push. case_bool_decide; [intros [= <- <-]; cbn; lia|]. destruct (StreamRedact.rposition _ p) as [i|].
  - case_bool_decide.
    + pose proof (segment_pieces st (take (i + 1) p)) as Hl. destruct (StreamRedact.segment st _) as [st1 l1]. intros [= <- <-]. cbn [snd] in Hl. lia.
    + cbv zeta. remember (default i _) as j. clear Heqj. pose proof (segment_pieces (StreamRedact.set_held st []) (StreamRedact.held st ++ take (j + 1) p)) as H1.
      destruct (StreamRedact.segment _ _) as [st1 l1]. pose proof (segment_pieces st1 (take (i - j) (drop (j + 1) p))) as H2. destruct (StreamRedact.segment st1 _) as [st2 l2].
      intros [= <- <-]. cbn [snd] in *. rewrite length_app. lia.
  - destruct (_ <? _); [done|]. intros [= <- <-]. cbn. lia.
Qed.
Lemma emit_redacts s o out p : redacts (redactor s) o out ->
  match emit_piece p s with
  | Ok s' => exists r l, s' = set_ready (set_redactor s r) (ready s ++ l) /\ redacts r (o ++ p) (out ++ concat l) /\ (length l <= 2)%nat
  | Err _ => overrun (o ++ p)
  end.
Proof.
  unfold redacts, emit_piece, overrun. destruct protect as [[fs n]|] eqn:Ep, (redactor s) as [r|] eqn:Er; try done.
  - intros (ps & l & Hps & <- & ->). pose proof (push_all_app ps p (StreamRedact.with_max_hold (StreamRedact.new_stream fs) n)) as Ha. rewrite Hps in Ha. cbn [result_bind] in Ha.
    destruct (StreamRedact.push r p) as [[r' l2]|e] eqn:E; cbn [result_bind] in Ha.
    + exists (Some r'), (nonempty_pieces l2). split_and!; [done| |pose proof (length_nonempty l2); pose proof (push_pieces _ _ _ _ E); lia].
      exists (ps ++ [p]), (l ++ l2). split_and!; [exact Ha|by rewrite concat_app; cbn; rewrite app_nil_r|by rewrite concat_app, concat_nonempty].
    + pose proof (StreamRedact.stream_run fs n (ps ++ [p]) (protected _ _ eq_refl)) as Hr. rewrite Ha in Hr. rewrite concat_app in Hr. cbn in Hr. by rewrite app_nil_r in Hr.
  - intros ->. exists None. case_bool_decide as E.
    + exists []. split_and!; [|by rewrite E, !app_nil_r|cbn; lia]. rewrite app_nil_r. destruct s; cbn in *. by subst.
    + exists [p]. split_and!; [|cbn; by rewrite app_nil_r|cbn; lia]. destruct s; cbn in *. by subst.
Qed.

Lemma overrun_more a b : overrun a -> overrun (a ++ b).
Proof.
  unfold overrun. destruct protect as [[fs n]|]; [|done]. intros (before & run & after & -> & Hr). exists before, run, (after ++ b). split; [|exact Hr].
  by rewrite <- !app_assoc.
Qed.
(** What was decoded begins what the whole body decodes to, if it decodes. *)
Lemma reads_begin d w o rest : reads d w o -> W = w ++ rest -> match decoded with Some body => exists more, body = o ++ more | None => True end.
Proof.
  unfold reads, decoded. destruct dec as [c|], d as [d|]; try done.
  - intros Hd EW. apply (decoder_continues c W octets (S (Z.to_nat (pot (state d) W o + Z.of_nat (length rest)))) d w o rest EW Hd).
    pose proof (follows_pot _ _ _ _ _ _ Hd EW). lia.
  - intros -> EW. by exists rest.
Qed.
Lemma overrun_refused d w o rest : reads d w o -> W = w ++ rest -> overrun o -> refused.
Proof. intros Hr EW Ho. pose proof (reads_begin d w o rest Hr EW) as Hb. unfold refused. destruct decoded as [body|]; [|done]. destruct Hb as [more ->]. by apply overrun_more. Qed.

(** ** The loops *)

Definition energy (s : PipelineStream) (o : bytes) : Z :=
  match input s with Some (chunk, at_) => 1 + Z.of_nat (length chunk) - Z.of_nat at_ | None => 0 end
  + match decoder s with Some d => pot (state d) W o | None => 0 end.
Lemma running_energy s rest w o rel : running s rest w o rel -> (match input s with Some _ => 1 | None => 0 end) <= energy s o.
Proof.
  intros [EW Hi Hr _ _ _]. unfold energy. assert (0 <= match decoder s with Some d => pot (state d) W o | None => 0 end).
  { unfold reads in Hr. destruct dec as [c|], (decoder s) as [d|]; try done. exact (follows_pot _ _ _ _ _ _ Hr EW). }
  destruct (input s) as [[chunk at_]|]; lia.
Qed.

(** A piece of the decoded body that was just read is redacted and made ready. *)
Lemma emit_runs s d' i p rest w w' o rel : running s rest w o rel ->
  W = w' ++ (match i with Some (chunk, at_) => drop at_ chunk | None => [] end) ++ rest ->
  match i with Some (chunk, at_) => (at_ <= length chunk)%nat | None => True end -> reads d' w' (o ++ p) ->
  match emit_piece p (set_input (set_decoder s d') i) with
  | Err _ => refused
  | Ok s' => running s' rest w' (o ++ p) rel /\ (length (ready s') <= length (ready s) + 2)%nat /\ ended s' = ended s
      /\ input s' = i /\ decoder s' = d'
  end.
Proof.
  intros [EW Hi Hr Hred Hf Ht] EW' Hi' Hr'. set (s0 := set_input (set_decoder s d') i). pose proof (emit_redacts s0 o (rel ++ concat (ready s)) p Hred) as He.
  destruct (emit_piece p s0) as [s'|e].
  - destruct He as (r & l & -> & Hr2 & Hl). split_and!; [|cbn; rewrite length_app; lia|done..]. split; try done. cbn [ready set_ready redactor set_redactor s0 set_input set_decoder].
    by rewrite concat_app, app_assoc.
  - exact (overrun_refused d' w' (o ++ p) _ Hr' EW' He).
Qed.
Lemma work_runs fuel : forall s rest w o rel, running s rest w o rel -> energy s o < Z.of_nat fuel ->
  exists r, work fuel s = Some r /\
  match r with
  | Err _ => refused
  | Ok s' => exists w' o', running s' rest w' o' rel /\ 3 * energy s' o' + Z.of_nat (length (ready s')) <= 3 * energy s o + Z.of_nat (length (ready s))
      /\ (ready s' = [] -> input s' = None) /\ ended s' = ended s
  end.
Proof.
  induction fuel as [|fuel IH]; intros s rest w o rel Hrun Hf; [pose proof (running_energy _ _ _ _ _ Hrun); destruct (input s); lia|].
  cbn [work]. case_bool_decide as Er; cbn [negb].
  2:{ eexists. split; [done|]. exists w, o. by split_and!. }
  pose proof (running_energy _ _ _ _ _ Hrun) as Hpos. destruct (input s) as [[chunk at_]|] eqn:Ei.
  2:{ eexists. split; [done|]. exists w, o. by split_and!. }
  pose proof Hrun as [EW Hi Hr Hred Hfl Ht]. unfold pending in EW. rewrite Ei in EW, Hi.
  assert (Hnext : forall d' i p w', W = w' ++ (match i with Some (chunk, at_) => drop at_ chunk | None => [] end) ++ rest ->
    match i with Some (chunk, at_) => (at_ <= length chunk)%nat | None => True end -> reads d' w' (o ++ p) ->
    match i with Some (chunk, at_) => 1 + Z.of_nat (length chunk) - Z.of_nat at_ | None => 0 end
      + match d' with Some d => pot (state d) W (o ++ p) | None => 0 end < energy s o ->
    exists r, match emit_piece p (set_input (set_decoder s d') i) with Err e => Some (Err e) | Ok s => work fuel s end = Some r /\
    match r with
    | Err _ => refused
    | Ok s' => exists w' o', running s' rest w' o' rel /\ 3 * energy s' o' + Z.of_nat (length (ready s')) <= 3 * energy s o + Z.of_nat (length (ready s))
        /\ (ready s' = [] -> input s' = None) /\ ended s' = ended s
    end).
  { intros d' i p w' EW' Hi' Hr' Hlt. pose proof (emit_runs s d' i p rest w w' o rel Hrun EW' Hi' Hr') as He.
    destruct (emit_piece p _) as [s'|e]; [|by eexists]. destruct He as (Hrun' & Hl & Hend & Ei' & Ed').
    assert (Een : energy s' (o ++ p) < energy s o) by (unfold energy at 1; by rewrite Ei', Ed').
    destruct (IH s' rest w' (o ++ p) rel Hrun' ltac:(lia)) as (r & Ew & Hr2). exists r. split; [exact Ew|]. destruct r as [s2|]; [|exact Hr2].
    destruct Hr2 as (w2 & o2 & Hr2 & Hle & Hin & Hen). exists w2, o2. split_and!; [done|lia|done|congruence]. }
  unfold reads in Hr. cbn [decoder set_input]. destruct (decoder s) as [d|] eqn:Ed.
  - destruct dec as [c|] eqn:Edec; [|done]. destruct (decode_follows c W d w o (drop at_ chunk) rest STEP octets Hr EW) as (d' & r & Edc & Hstep). rewrite Edc.
    destruct r as [[p n]|e].
    2:{ eexists. split; [done|]. unfold refused, decoded. by rewrite Edec, Hstep. }
    destruct Hstep as (Hn & _ & Hd' & Hp & _). rewrite length_drop in Hn.
    assert (EW' : W = (w ++ take n (drop at_ chunk)) ++ drop (at_ + n) chunk ++ rest) by (rewrite <- app_assoc, <- drop_drop, (app_assoc (take n _)), take_drop; exact EW).
    assert (Een : energy s o = 1 + Z.of_nat (length chunk) - Z.of_nat at_ + pot (state d) W o) by (unfold energy; by rewrite Ei, Ed).
    assert (Hreads : reads (Some d') (w ++ take n (drop at_ chunk)) (o ++ p)) by (unfold reads; by rewrite Edec).
    destruct (Nat.ltb (at_ + n) (length chunk) || negb (bool_decide (p = []))) eqn:Ek.
    + apply (Hnext (Some d') (Some (chunk, (at_ + n)%nat)) p (w ++ take n (drop at_ chunk))); [exact EW'|lia|exact Hreads|]. rewrite Een.
      destruct Hp as [(Hnil & -> & _)|Hp]; [|lia]. apply (f_equal length) in Hnil. rewrite length_drop in Hnil. cbn [length] in Hnil.
      rewrite bool_decide_eq_true_2 in Ek by done. lia.
    + apply orb_false_iff in Ek as [Ek _]. apply Nat.ltb_ge in Ek. apply (Hnext (Some d') None p (w ++ take n (drop at_ chunk))); [|done|exact Hreads|].
      * rewrite (drop_ge chunk (at_ + n)) in EW' by exact Ek. exact EW'.
      * rewrite Een. destruct Hp as [(Hnil & -> & Hp)|Hp]; lia.
  - destruct dec as [c|] eqn:Edec; [done|]. replace (set_input s None) with (set_input (set_decoder s None) None) by (destruct s; cbn in *; by subst).
    apply (Hnext None None (drop at_ chunk) (w ++ drop at_ chunk)); [by rewrite <- app_assoc|done|unfold reads; rewrite Edec; by rewrite Hr|].
    unfold energy. rewrite Ei, Ed. lia.
Qed.

(** ** The end *)

Lemma flush_redactor_over s o rel : redacts (redactor s) o (rel ++ concat (ready s)) -> decoded = Some o -> input s = None -> ended s = true -> tee s = tee_of rel ->
  over (flush_redactor s) rel /\ (length (ready (flush_redactor s)) <= length (ready s) + 1)%nat.
Proof.
  intros Hr Ho Hi He Ht. unfold redacts in Hr. unfold flush_redactor. destruct protect as [[fs n]|] eqn:Ep, (redactor s) as [r|] eqn:Er; try done.
  - destruct Hr as (ps & l & Hps & <- & Hl). pose proof (StreamRedact.stream_run fs n ps (protected _ _ eq_refl)) as Hs. rewrite Hps in Hs.
    pose proof (segment_pieces (StreamRedact.set_held r []) (StreamRedact.held r)) as Hlen. unfold StreamRedact.finish in *. destruct (StreamRedact.segment _ _) as [r' last].
    split; [|cbn [ready set_end set_ready set_redactor snd] in *; rewrite length_app; pose proof (length_nonempty last); lia]. split; try done.
    exists (concat ps). split; [exact Ho|]. cbn [ready set_end set_ready]. rewrite concat_app, concat_nonempty, app_assoc, Hl, <- concat_app. unfold cleaned. rewrite Ep. apply Hs.
  - split; [|cbn; lia]. split; try done. exists o. split; [exact Ho|]. unfold cleaned. rewrite Ep. exact Hr.
Qed.
Lemma work_idle fuel s : input s = None -> work fuel s = Some (Ok s).
Proof. intros Hi. destruct fuel; cbn [work]; rewrite Hi; by destruct (negb _). Qed.

(** How much is left to do: [n] bounds the rounds of every loop. *)
Definition live (s : PipelineStream) (rest rel : bytes) (n : Z) : Prop :=
  (exists w o, running s rest w o rel /\ 3 * energy s o + Z.of_nat (length (ready s)) + 3 <= n) \/ (over s rel /\ Z.of_nat (length (ready s)) <= n).

Lemma flush_runs s w o rel : running s [] w o rel -> input s = None -> ready s = [] -> ended s = true ->
  exists r, flush s = Some r /\
  match r with
  | Err _ => refused
  | Ok s' => ended s' = true /\ input s' = None /\ ((over s' rel /\ (length (ready s') <= 1)%nat)
      \/ exists o', running s' [] w o' rel /\ energy s' o' < energy s o /\ (length (ready s') <= 2)%nat)
  end.
Proof.
  intros Hrun Hi Hready He. pose proof Hrun as [EW _ Hr Hred Hfl Ht]. unfold pending in EW. rewrite Hi, app_nil_r in EW. cbn [app] in EW.
  assert (Hend : forall d', decoded = Some o -> over (flush_redactor (set_decoder s d')) rel /\ (length (ready (flush_redactor (set_decoder s d'))) <= 1)%nat).
  { intros d' Ho. destruct (flush_redactor_over (set_decoder s d') o rel Hred Ho Hi He Ht) as [Hov Hl]. split; [exact Hov|]. cbn [ready set_decoder] in Hl. rewrite Hready in Hl. cbn [length] in Hl. lia. }
  assert (Hflush : forall s0, ended s0 = true -> input s0 = None -> ended (flush_redactor s0) = true /\ input (flush_redactor s0) = None).
  { intros s0 H1 H2. unfold flush_redactor. destruct (redactor s0) as [r|]; [destruct (StreamRedact.finish r)|]; done. }
  unfold flush. destruct (decoder s) as [d|] eqn:Ed.
  - unfold reads in Hr. destruct dec as [c|] eqn:Edec; [|done]. destruct (decode_follows c W d w o [] [] STEP octets Hr ltac:(by rewrite !app_nil_r)) as (d' & r & -> & Hstep).
    destruct r as [[p n]|e]; [|eexists; split; [done|]; unfold refused, decoded; by rewrite Edec, Hstep].
    destruct Hstep as (Hn & _ & Hd' & Hp & Hset). rewrite take_nil, app_nil_r in Hd'. case_bool_decide as Epz; cbn [negb].
    + subst p. rewrite app_nil_r in *. rewrite <- EW in Hd'. pose proof (finish_follows c W d' o Hd' (Hset eq_refl eq_refl (eq_sym EW))) as Hfin.
      destruct (finish_decoder d'); eexists; (split; [done|]).
      * assert (Ho : decoded = Some o) by (unfold decoded; by rewrite Edec). destruct (Hflush (set_decoder s (Some d')) He Hi) as [H1 H2].
        split_and!; [exact H1|exact H2|]. left. by apply Hend.
      * unfold refused, decoded. by rewrite Edec, Hfin.
    + destruct Hp as [(_ & -> & _)|Hp]; [done|]. cbn [length] in Hn.
      pose proof (emit_runs s (Some d') None p [] w w o rel Hrun ltac:(by rewrite app_nil_r) I ltac:(unfold reads; by rewrite Edec)) as Hem.
      replace (set_input (set_decoder s (Some d')) None) with (set_decoder s (Some d')) in Hem by (destruct s; cbn in *; by subst).
      destruct (emit_piece p _) as [s'|e]; eexists; (split; [done|]); [|exact Hem]. destruct Hem as (Hrun' & Hl & He' & Hi' & Ed'). rewrite Hready in Hl. cbn [length] in Hl.
      split_and!; [congruence|exact Hi'|]. right. exists (o ++ p). split_and!; [exact Hrun'| |lia]. unfold energy. rewrite Hi', Ed', Hi, Ed. lia.
  - eexists. split; [done|]. replace s with (set_decoder s None) by (destruct s; cbn in *; by subst).
    assert (Ho : decoded = Some o) by (unfold reads in Hr; unfold decoded; destruct dec; [done|]; by rewrite Hr, EW).
    destruct (Hflush (set_decoder s None) He Hi) as [H1 H2]. split_and!; [exact H1|exact H2|]. left. by apply Hend.
Qed.
Lemma flush_loop_runs fuel : forall s rest rel n, live s rest rel n -> n < Z.of_nat fuel -> (ready s = [] -> input s = None) -> (ended s = true -> rest = []) ->
  exists r, flush_loop fuel s = Some r /\
  match r with
  | Err _ => refused
  | Ok s' => live s' rest rel n /\ ended s' = ended s /\ (ready s' = [] -> input s' = None /\ (ended s = true -> over s' rel))
  end.
Proof.
  induction fuel as [|fuel IH]; intros s rest rel n Hlive Hn Hi Hrest.
  { destruct Hlive as [(w & o & Hrun & Hle)|[_ Hle]]; [|lia]. pose proof (running_energy _ _ _ _ _ Hrun). destruct (input s); lia. }
  cbn [flush_loop]. destruct (bool_decide (ready s = []) && ended s && bool_decide (input s = None) && negb (flushed s)) eqn:Eb.
  - apply andb_true_iff in Eb as [[[Er%bool_decide_eq_true He]%andb_true_iff Ei%bool_decide_eq_true]%andb_true_iff Hfl%negb_true_iff].
    destruct Hlive as [(w & o & Hrun & Hle)|[[_ _ Hfl' _ _] _]]; [|congruence]. rewrite (Hrest He) in *.
    destruct (flush_runs s w o rel Hrun Ei Er He) as (r & -> & Hr). destruct r as [s'|e]; [|by eexists]. destruct Hr as (He' & Hi' & Hr).
    rewrite (work_idle (S fuel) s' Hi').
    assert (Hlive' : live s' [] rel (n - 1)).
    { rewrite Er in Hle. cbn [length] in Hle. pose proof (running_energy _ _ _ _ _ Hrun) as Hpos. rewrite Ei in Hpos.
      destruct Hr as [[Hov Hl]|(o' & Hrun' & Hlt & Hl)]; [right; split; [exact Hov|lia]|left; exists w, o'; split; [exact Hrun'|lia]]. }
    destruct (IH s' [] rel (n - 1) Hlive' ltac:(lia) ltac:(done) ltac:(done)) as (r & El & Hr2). exists r. split; [exact El|]. destruct r as [s2|]; [|exact Hr2].
    destruct Hr2 as (Hl2 & He2 & Hr2). split_and!; [|congruence|intros Er2; destruct (Hr2 Er2) as [? Ho]; split; [done|intros _; by apply Ho]].
    destruct Hl2 as [(w2 & o2 & Hrun2 & Hle2)|[Hov2 Hle2]]; [left; exists w2, o2; split; [done|lia]|right; split; [done|lia]].
  - eexists. split; [done|]. split_and!; [exact Hlive|done|]. intros Er. specialize (Hi Er). split; [exact Hi|]. intros He.
    rewrite Er, He, Hi, !bool_decide_eq_true_2 in Eb by done. cbn [andb] in Eb. apply negb_false_iff in Eb.
    destruct Hlive as [(w & o & [_ _ _ _ Hfl _] & _)|[Hov _]]; [congruence|exact Hov].
Qed.

(** ** Piece by piece *)

Lemma tee_relayed fuel rel p t : tee_of rel = Some t -> tee_record fuel p t = Some (mkTee (keep (kept t) (limit t) p) (limit t) (total t + length p) None)
  /\ tee_of (rel ++ p) = Some (mkTee (keep (kept t) (limit t) p) (limit t) (total t + length p) None).
Proof.
  unfold tee_of. destruct cap as [lim|]; [|done]. cbn [option_map]. intros [= <-]. split; [done|]. cbn [kept limit total]. unfold keep.
  rewrite take_app, length_app, length_take. by replace (lim - Nat.min lim (length rel))%nat with (lim - length rel)%nat by lia.
Qed.
Lemma live_pop s rest rel n piece more t : live s rest rel n -> ready s = piece :: more -> t = tee_of (rel ++ piece) ->
  live (set_tee (set_ready s more) t) rest (rel ++ piece) (n - 1).
Proof.
  intros Hl Er ->. assert (E : forall l, (rel ++ concat (piece :: l)) = (rel ++ piece) ++ concat l) by (intros l; cbn; by rewrite app_assoc).
  destruct Hl as [(w & o & [EW Hi Hr Hred Hf Ht] & Hle)|[[Hb Hi Hf He Ht] Hle]]; rewrite Er in *; cbn [length] in Hle; rewrite E in *.
  - left. exists w, o. split; [by split|]. cbn [ready set_tee set_ready]. change (energy (set_tee (set_ready s more) (tee_of (rel ++ piece))) o) with (energy s o). lia.
  - right. split; [by split|]. cbn [ready set_tee set_ready]. lia.
Qed.
Lemma live_work fuel s rest rel n : live s rest rel n -> n < Z.of_nat fuel -> exists r, work fuel s = Some r /\
  match r with Err _ => refused | Ok s' => live s' rest rel n /\ ended s' = ended s /\ (ready s' = [] -> input s' = None) end.
Proof.
  intros [(w & o & Hrun & Hle)|[Hov Hle]] Hn.
  - pose proof (running_energy _ _ _ _ _ Hrun) as Hpos. assert (0 <= energy s o) by (destruct (input s); lia). destruct (work_runs fuel s rest w o rel Hrun ltac:(lia)) as (r & E & Hr). exists r. split; [exact E|].
    destruct r as [s'|]; [|exact Hr]. destruct Hr as (w' & o' & Hrun' & Hle' & Hin & Hen). split_and!; [|done|done]. left. exists w', o'. split; [done|lia].
  - exists (Ok s). split; [by apply work_idle, Hov|]. split_and!; [right; by split|done|intros _; apply Hov].
Qed.
Lemma next_out_runs fuel s rest rel n : live s rest rel n -> n < Z.of_nat fuel -> (ended s = true -> rest = []) -> exists r, next_out fuel s = Some r /\
  match r with
  | Err _ => refused
  | Ok (s', Some piece) => live s' rest (rel ++ piece) (n - 1) /\ ended s' = ended s
  | Ok (s', None) => live s' rest rel n /\ ended s' = ended s /\ ready s' = [] /\ input s' = None /\ (ended s = true -> over s' rel)
  end.
Proof.
  intros Hl Hn Hrest. unfold next_out. destruct (live_work fuel s rest rel n Hl Hn) as (r & -> & Hr). destruct r as [s1|e]; [|by eexists].
  destruct Hr as (Hl1 & He1 & Hi1). destruct (flush_loop_runs fuel s1 rest rel n Hl1 Hn Hi1 ltac:(by rewrite He1)) as (r & -> & Hr). destruct r as [s2|e]; [|by eexists].
  destruct Hr as (Hl2 & He2 & Hr2). destruct (ready s2) as [|piece more] eqn:Er.
  - eexists. split; [done|]. destruct (Hr2 eq_refl) as [Hi Ho]. split_and!; [done|congruence|done|done|]. intros He. apply Ho. congruence.
  - cbn [tee set_ready]. assert (Ht : tee s2 = tee_of rel) by (destruct Hl2 as [(w & o & Hrun & _)|[Hov _]]; [apply Hrun|apply Hov]).
    destruct (tee s2) as [t|] eqn:Et.
    + destruct (tee_relayed fuel rel piece t (eq_sym Ht)) as [-> Ht']. eexists. split; [done|]. split; [|cbn; congruence]. by apply live_pop.
    + eexists. split; [done|]. split; [|cbn; congruence].
      replace (set_ready s2 more) with (set_tee (set_ready s2 more) None) by (destruct s2; cbn in *; by subst). apply live_pop; [done|done|].
      revert Ht. unfold tee_of. by destruct cap.
Qed.

(** The exchange. *)
Definition chunk_cost (l : list bytes) : Z := foldr (fun chunk n => 6 + 3 * Z.of_nat (length chunk) + n) 0 l.
Definition lives (x : Exchange) (rel : bytes) (n : Z) : Prop :=
  exists m, live (stream x) (concat (chunks_left x)) rel m /\ ended (stream x) = at_end x
    /\ (at_end x = true -> chunks_left x = [] /\ upstream_end x = BodyEnd) /\ m + chunk_cost (chunks_left x) + (if at_end x then 0 else 1) <= n.
Lemma lives_start id d req h cs e : W = concat cs -> let s0 := new_stream id d req h the_plan in
  lives (mkExchange s0 cs e false) [] (3 * energy s0 [] + 3 + chunk_cost cs + 1).
Proof using F64.
  clear protected. intros EW s0. exists (3 * energy s0 [] + 3). cbn [stream chunks_left at_end]. rewrite <- EW. split_and!; [|done|done|lia]. left. exists [], []. split; [|cbn; lia].
  split; [done|done| | |done|].
  - unfold reads. cbn [s0 new_stream the_plan decoder p_decode]. destruct dec as [c|]; [apply follows_new|done].
  - unfold redacts. cbn [s0 new_stream the_plan redactor p_redactor]. unfold redactor_of. destruct protect as [[fs n]|]; [|done]. by exists [], [].
  - cbn [s0 new_stream the_plan tee p_capture]. unfold tee_of. destruct cap; [|done]. cbn [option_map fst snd length]. by rewrite take_nil.
Qed.
Lemma chunk_cost_nonneg l : 0 <= chunk_cost l.
Proof. unfold chunk_cost. induction l; cbn [foldr]; lia. Qed.
Lemma live_nonneg s rest rel n : live s rest rel n -> 0 <= n.
Proof. intros [(w & o & Hrun & Hle)|[_ Hle]]; [|lia]. pose proof (running_energy _ _ _ _ _ Hrun). destruct (input s); lia. Qed.
Lemma live_push s chunk rest rel n : live s (chunk ++ rest) rel n -> input s = None -> ended s = false -> live (push chunk s) rest rel (n + 3 + 3 * Z.of_nat (length chunk)).
Proof.
  intros [(w & o & [EW Hi Hr Hred Hf Ht] & Hle)|[Hov _]] Ein Hend; [|destruct Hov; congruence]. unfold pending in EW. rewrite Ein in EW. left. exists w, o. unfold push. case_bool_decide as Ec.
  - subst chunk. split; [|cbn [length]; lia]. split; try done. unfold pending. by rewrite Ein.
  - split; [split; try done; cbn [input set_input]; lia|]. unfold energy in *. rewrite Ein in Hle. cbn [input set_input decoder ready] in *. lia.
Qed.
Lemma live_end s rest rel n : live s rest rel n -> live (end_ s) rest rel n.
Proof. intros [(w & o & [EW Hi Hr Hred Hf Ht] & Hle)|[[? ? ? ? ?] Hle]]; [left; exists w, o; by split; [split|]|right; split; [by split|done]]. Qed.

(** Why an exchange was given up. *)
Definition given_up (grows : Z -> bool) (x : Exchange) (o : Transport.StreamOutcome) : Prop :=
  match o with
  | Transport.StreamRefused _ => refused \/ exists held, grows held = false
  | Transport.UpstreamFailed e => upstream_end x = BodyError e
  | _ => False
  end.
Lemma next_piece_runs capacity grows bl fuel : forall x rel n, lives x rel n -> n < Z.of_nat fuel -> exists x' r, next_piece fuel capacity grows bl x = Some (x', r) /\
  match r with
  | inl (Some piece) => lives x' (rel ++ piece) (n - 1) /\ upstream_end x' = upstream_end x
  | inl None => over (stream x') rel /\ ready (stream x') = [] /\ upstream_end x = BodyEnd
  | inr o => given_up grows x o
  end.
Proof.
  induction fuel as [|fuel IH]; intros x rel n (m & Hl & He & Hend & Hle) Hn; pose proof (chunk_cost_nonneg (chunks_left x)) as Hcc; pose proof (live_nonneg _ _ _ _ Hl) as Hm.
  { destruct (at_end x); lia. }
  cbn [next_piece]. destruct (next_out_runs (S fuel) (stream x) (concat (chunks_left x)) rel m Hl ltac:(destruct (at_end x); lia)) as (r & -> & Hr).
  { rewrite He. intros Ha. by destruct (Hend Ha) as [-> _]. }
  destruct r as [[s [piece|]]|reason].
  - destruct Hr as [Hl' He']. eexists _, _. split; [done|]. split; [|done]. exists (m - 1). cbn [stream chunks_left at_end]. split_and!; [done|congruence|exact Hend|lia].
  - destruct Hr as (Hl' & He' & Hready & Hin & Hov). destruct (at_end x) eqn:Ea.
    { eexists _, _. split; [done|]. cbn [stream]. split_and!; [by apply Hov|done|by apply Hend]. }
    assert (Hgo : forall x', lives x' rel (n - 1) -> upstream_end x' = upstream_end x -> exists x2 r,
      (if negb (grows (stream_held capacity (stream x'))) then Some (x', inr (Transport.StreamRefused (Transport.error_text (Transport.BudgetExhausted bl))))
       else next_piece fuel capacity grows bl x') = Some (x2, r) /\
      match r with
      | inl (Some piece) => lives x2 (rel ++ piece) (n - 1) /\ upstream_end x2 = upstream_end x
      | inl None => over (stream x2) rel /\ ready (stream x2) = [] /\ upstream_end x = BodyEnd
      | inr o => given_up grows x o
      end).
    { intros x' Hl2 Hue. destruct (grows _) eqn:Eg; cbn [negb].
      - destruct (IH x' rel (n - 1) Hl2 ltac:(lia)) as (x2 & r & E & Hr). exists x2, r. split; [exact E|]. rewrite <- Hue. destruct r as [[piece|]|o]; [|exact Hr|].
        + destruct Hr as [(k & H1 & H2 & H3 & H4) H5]. split; [|exact H5]. exists k. split_and!; [done|done|done|lia].
        + unfold given_up in *. destruct o; [exact Hr|by rewrite <- Hue|exact Hr|exact Hr].
      - eexists _, _. split; [done|]. right. by eexists. }
    destruct (chunks_left x) as [|chunk rest] eqn:Ec.
    + destruct (upstream_end x) as [|e] eqn:Eu; [|eexists _, _; split; [done|exact Eu]]. apply Hgo; [|done]. exists m. cbn [stream chunks_left at_end upstream_end].
      split_and!; [by apply live_end|done|done|lia].
    + apply Hgo; [|done]. exists (m + 3 + 3 * Z.of_nat (length chunk)). cbn [stream chunks_left at_end upstream_end concat chunk_cost foldr] in *.
      fold (chunk_cost rest) in *. split_and!; [apply live_push; [exact Hl'|exact Hin|congruence]|unfold push; case_bool_decide; cbn; congruence|done|lia].
  - eexists _, _. split; [done|]. by left.
Qed.

(** ** To the client *)

(** What was relayed begins the redaction of a part of the decoded body. *)
Definition begun (rel : bytes) : Prop :=
  exists released more, cleaned released = rel ++ more /\ match decoded with Some body => exists tl, body = released ++ tl | None => True end.
Lemma lives_begun x rel n : lives x rel n -> begun rel.
Proof.
  intros (m & Hl & _). destruct Hl as [(w & o & [EW _ Hr Hred _ _] & _)|[[(body & Hb & Hc) _ _ _ _] _]].
  - pose proof (reads_begin _ _ _ _ Hr EW) as Hbeg. unfold redacts in Hred. unfold begun, cleaned. destruct protect as [[fs k]|] eqn:Ep, (redactor (stream x)) as [r|]; try done.
    + destruct Hred as (ps & l & Hps & Ho & Hl). pose proof (StreamRedact.stream_run fs k ps (protected _ _ eq_refl)) as Hs. rewrite Hps in Hs.
      destruct (StreamRedact.finish r) as [r' last]. destruct Hs as (_ & _ & _ & _ & _ & released & Ereleased & Eout). exists released, (concat (ready (stream x))).
      split; [by rewrite <- Eout, Hl|]. destruct decoded as [body|]; [|done]. destruct Hbeg as [more ->]. exists (StreamRedact.held r ++ more). by rewrite <- Ho, Ereleased, <- app_assoc.
    + exists o, (concat (ready (stream x))). split; [done|exact Hbeg].
  - exists body, (concat (ready (stream x))). split; [done|]. rewrite Hb. exists []. by rewrite app_nil_r.
Qed.
Lemma write_all_spec l : forall w, exists l1 l2, l = l1 ++ l2 /\ let '(w', taken) := write_all l w in
  written w' = written w ++ l1 /\ takes w' = takes w /\ if (taken : bool) then l2 = [] else exists b, takes w (written w') b = false.
Proof.
  induction l as [|b l IH]; intros w; cbn [write_all].
  - exists [], []. split; [done|]. rewrite app_nil_r. by split_and!.
  - destruct (takes w (written w) b) eqn:Et.
    + destruct (IH (mkWire (takes w) (written w ++ [b]))) as (l1 & l2 & -> & Hw). exists (b :: l1), l2. split; [done|]. destruct (write_all _ _) as [w' taken].
      cbn [written takes] in Hw. rewrite <- app_assoc in Hw. exact Hw.
    + exists [], (b :: l). split; [done|]. rewrite app_nil_r. split_and!; [done|done|]. by exists b.
Qed.

Definition pieces_written (f : H1.StreamFraming) (pieces : list bytes) : list bytes := flat_map (fun p => H1.write_piece p f) pieces.
(** What the client has and how the exchange ended. *)
Definition relayed (grows : Z -> bool) (x0 : Exchange) (f : H1.StreamFraming) (before : list bytes) (rel : bytes) (w0 w : Wire) (x : Exchange) (o : Transport.StreamOutcome) : Prop :=
  exists pieces,
  match o with
  | Transport.StreamCompleted =>
      upstream_end x0 = BodyEnd /\ written w = before ++ pieces_written f pieces ++ (H1.write_end f).1
      /\ exists body, decoded = Some body /\ rel ++ concat pieces = cleaned body /\ tee (stream x) = tee_of (cleaned body)
  | Transport.ClientGone =>
      (exists sent b, takes w0 sent b = false) /\ begun (rel ++ concat pieces)
      /\ written w `prefix_of` before ++ pieces_written f pieces ++ (H1.write_end f).1
  | _ => given_up grows x0 o /\ begun (rel ++ concat pieces) /\ written w = before ++ pieces_written f pieces
  end.
Lemma relayed_piece grows x0 x1 f before rel piece w0 w1 w x o : upstream_end x1 = upstream_end x0 -> takes w1 = takes w0 ->
  relayed grows x1 f (before ++ H1.write_piece piece f) (rel ++ piece) w1 w x o -> relayed grows x0 f before rel w0 w x o.
Proof.
  intros Hu Ht [pieces Hp]. exists (piece :: pieces). unfold pieces_written in *. cbn [flat_map concat].
  destruct o; unfold given_up in *; rewrite ?Hu, ?Ht, <- !app_assoc in Hp; rewrite <- ?app_assoc; exact Hp.
Qed.
Lemma relay_loop_runs capacity grows bl f fuel rounds : forall w x rel n, lives x rel n -> n < Z.of_nat fuel -> n < Z.of_nat rounds ->
  exists w' x' o, relay_loop rounds fuel capacity grows bl f w x = Some (w', x', o) /\ relayed grows x f (written w) rel w w' x' o.
Proof.
  induction rounds as [|rounds IH]; intros w x rel n Hl Hn Hm.
  { destruct Hl as (m & Hl & _ & _ & Hle). pose proof (live_nonneg _ _ _ _ Hl). pose proof (chunk_cost_nonneg (chunks_left x)). destruct (at_end x); lia. }
  cbn [relay_loop]. destruct (next_piece_runs capacity grows bl fuel x rel n Hl Hn) as (x1 & r & -> & Hr). destruct r as [[piece|]|o].
  - destruct Hr as [Hl1 Hu]. destruct (write_all_spec (H1.write_piece piece f) w) as (l1 & l2 & El & Hw). destruct (write_all _ w) as [w1 taken]. destruct Hw as (Ew & Et & Htk). destruct taken.
    + rewrite Htk, app_nil_r in El. destruct (IH w1 x1 (rel ++ piece) (n - 1) Hl1 ltac:(lia) ltac:(lia)) as (w2 & x2 & o & E & Hrel).
      eexists _, _, _. split; [exact E|]. rewrite Ew, <- El in Hrel. exact (relayed_piece _ _ _ _ _ rel piece w w1 _ _ _ Hu Et Hrel).
    + eexists _, _, _. split; [done|]. exists [piece]. split_and!; [by exists (written w1)| |].
      * cbn [concat]. rewrite app_nil_r. by apply (lives_begun x1 _ (n - 1)).
      * unfold pieces_written. cbn [flat_map]. rewrite app_nil_r, Ew, El. exists (l2 ++ (H1.write_end f).1). by rewrite <- !app_assoc.
  - destruct Hr as (Hov & Hready & Hu). destruct (write_all_spec (H1.write_end f).1 w) as (l1 & l2 & El & Hw). destruct (write_all _ w) as [w1 taken]. destruct Hw as (Ew & Et & Htk).
    destruct Hov as [(body & Hb & Hc) Hi Hf He Htee]. rewrite Hready, app_nil_r in Hc. eexists _, _, _. split; [done|]. exists []. cbn [concat pieces_written flat_map app]. rewrite app_nil_r.
    destruct taken; cbn [relayed].
    + rewrite Htk, app_nil_r in El. split_and!; [done|by rewrite Ew, El|]. exists body. split_and!; [done|done|by rewrite <- Hc].
    + split_and!; [by exists (written w1)| |rewrite Ew, El; exists l2; by rewrite <- app_assoc]. exists body, []. rewrite app_nil_r. split; [done|]. rewrite Hb. exists []. by rewrite app_nil_r.
  - eexists _, _, _. split; [done|]. exists []. cbn [concat pieces_written flat_map app]. rewrite !app_nil_r. pose proof (lives_begun _ _ _ Hl) as Hb.
    destruct o; cbn [given_up] in Hr; try done; by split_and!.
Qed.
End Pipeline.

(** What the whole body decodes to when it is buffered. *)
Definition whole `{Codecs} (dec : option StreamCodec) (w : bytes) : option bytes :=
  match dec with
  | None => Some w
  | Some Gzip => to_option (decode_gzip w)
  | Some Deflate => to_option (decode_deflate w)
  | Some Brotli => to_option (decode_brotli w)
  end.
Lemma decoded_whole `{K : Codecs} {L : StreamLaws K} dec w : match decoded dec w with
  | Some body => whole dec w = Some body
  | None => whole dec w = None \/ dec = Some Deflate /\ zlib_like w = true
  end.
Proof.
  unfold decoded, whole. destruct dec as [[| |]|]; [rewrite gzip_ref; destruct (reference Gzip w); auto| |rewrite brotli_ref; destruct (reference Brotli w); auto|done].
  pose proof (deflate_ref w) as Hd. destruct (reference Deflate w) as [out|]; [by rewrite Hd|]. destruct (zlib_like w); [auto|]. left. by destruct (Hd eq_refl) as [e ->].
Qed.

(** C10: A streamed response ends, and is for the client what the buffered one would
    be: however the upstream cuts the body into chunks, the relay returns; completed,
    the client was written the head, the pieces of exactly the redaction of what the
    whole body decodes to, and the end, and the capture entry keeps its beginning and
    its length; otherwise the upstream failed, the client went away, the budget
    refused, or the body is one that does not decode or that has a run the redactor
    may not hold back - and all the client has is the beginning of the redaction of a
    part of the body. *)
Theorem streamed_as_buffered `{C : Forms.Crates} {CL : Forms.CratesLaws C} `{F64Text} `{Unicode} `{StrDebug} `{K : Codecs} {L : StreamLaws K}
  dec protect cap id d req h cs e takes_ capacity grows bl version :
  let W := concat cs in
  let s0 := new_stream id d req h (the_plan dec protect cap) in
  let f := stream_framing version h s0 in
  (forall fs n, protect = Some (fs, n) -> Forall StreamRedact.wf_forms fs) -> Forall (fun b => octet b) W ->
  match decoded dec W with Some body => whole dec W = Some body | None => whole dec W = None \/ dec = Some Deflate /\ zlib_like W = true end
  /\ exists enough, forall rounds fuel, (enough <= rounds)%nat -> (enough <= fuel)%nat -> exists w x o again pieces,
    relay_h1 rounds fuel capacity grows bl version h (mkWire takes_ []) (mkExchange s0 cs e false) = Some (w, x, o, again)
    /\ written w `prefix_of` H1.encode_stream_head h f :: pieces_written f pieces ++ (H1.write_end f).1
    /\ begun dec protect W (concat pieces)
    /\ match o with
       | Transport.StreamCompleted =>
           e = BodyEnd /\ written w = H1.encode_stream_head h f :: pieces_written f pieces ++ (H1.write_end f).1
           /\ exists body, decoded dec W = Some body /\ concat pieces = cleaned protect body
             /\ option_map tee_finish (tee (stream x)) = option_map (fun limit => (take limit (cleaned protect body), length (cleaned protect body))) cap
       | Transport.ClientGone => exists sent b, takes_ sent b = false
       | Transport.UpstreamFailed reason => e = BodyError reason
       | Transport.StreamRefused _ => match decoded dec W with Some body => overrun protect body | None => True end \/ exists held, grows held = false
       end.
Proof.
  intros W s0 f Hwf Hoct. split; [apply decoded_whole|].
  set (x0 := mkExchange s0 cs e false). pose proof (lives_start dec protect cap W id d req h cs e eq_refl) as Hlive. fold s0 x0 in Hlive.
  exists (S (Z.to_nat (3 * energy W s0 [] + 3 + chunk_cost cs + 1))). intros rounds fuel Hr Hf. unfold relay_h1. fold x0. cbv zeta. change (stream x0) with s0.
  change (stream_framing version h s0) with f. cbn [write_all takes written app]. destruct (takes_ [] (H1.encode_stream_head h f)) eqn:Et.
  - destruct (relay_loop_runs dec protect cap Hwf W Hoct capacity grows bl f fuel rounds (mkWire takes_ [H1.encode_stream_head h f]) x0 [] _ Hlive ltac:(lia) ltac:(lia))
      as (w & x & o & E & pieces & Hrel). rewrite E. cbn [app concat written] in Hrel. eexists w, x, o, _, pieces. split; [done|]. destruct o; cbn [given_up upstream_end x0 takes] in Hrel.
    + destruct Hrel as (-> & Hw & body & Hb & Hc & Htee). rewrite Hw. split; [done|]. split.
      { exists body, []. rewrite app_nil_r. split; [done|]. rewrite Hb. exists []. by rewrite app_nil_r. }
      split_and!; [done|done|]. exists body. split_and!; [done|done|]. rewrite Htee. unfold tee_of. by destruct cap.
    + destruct Hrel as (Hg & Hb & ->). split_and!; [|exact Hb|exact Hg]. by exists (H1.write_end f).1.
    + destruct Hrel as (Hg & Hb & ->). split_and!; [|exact Hb|exact Hg]. by exists (H1.write_end f).1.
    + destruct Hrel as (Hg & Hb & Hp). by split_and!.
  - eexists _, _, _, _, []. split; [done|]. split_and!; [by apply prefix_nil|exact (lives_begun _ _ _ Hwf W Hoct x0 [] _ Hlive)|by eexists _, _].
Qed.

(** The capture's side decoder takes nothing of the first chunk of a raw [deflate]
    body, and the tee does not offer it again: the entry keeps the bytes as encoded. *)
Lemma raw_capture_encoded `{Codecs} fuel a b rest limit e : zlib_header a b = Err e ->
  tee_record (S fuel) (a :: b :: rest) (mkTee [] limit 0 (Some (mkSide (new_decoder Deflate) [] 0 false)))
    = Some (mkTee [] limit 0 (Some (mkSide (mkDecoder Deflate (Inflate new_inflater CheckRaw) true) (take limit (a :: b :: rest)) (2 + length rest) false)))
  /\ tee_finish (mkTee [] limit 0 (Some (mkSide (mkDecoder Deflate (Inflate new_inflater CheckRaw) true) (take limit (a :: b :: rest)) (2 + length rest) false)))
    = (take limit (a :: b :: rest), (2 + length rest)%nat).
Proof.
  intros Hz. split; [|reflexivity]. unfold tee_record. cbn [side s_failed s_decoder s_raw s_raw_total record_loop]. unfold decode, step. cbn [state new_decoder codec seen app].
  assert (Et : exists r, take (Nat.min (length (a :: b :: rest)) HEAD_STEP) (a :: b :: rest) = a :: b :: r).
  { assert (2 <= HEAD_STEP)%nat by (unfold HEAD_STEP; lia). cbn [length]. destruct (Nat.min (S (S (length rest))) HEAD_STEP) as [|[|m]] eqn:Em; [lia..|]. by eexists. }
  destruct Et as [r ->]. unfold start. rewrite Hz. cbn [length Nat.ltb Nat.leb result_bind Nat.max Nat.sub drop app]. rewrite bool_decide_eq_true_2 by done. cbn [andb Nat.eqb]. rewrite orb_true_r.
  unfold keep. cbn [kept FlowStream.limit total length app Nat.add]. rewrite take_nil, Nat.sub_0_r. by rewrite bool_decide_eq_false_2.
Qed.
(** A compressed response in three chunks, its secret in the last two. *)
Definition sample_chunks : list bytes :=
  [[31]; [139; 8; 0; 0; 0; 0; 0; 0; 255; 25] ++ lit "one~two hunter"; lit "-2.password" ++ [0; 25; 0; 0; 0; 25; 0; 0; 0]].
Lemma streamed_as_buffered_witness :
  let K := sample_codecs in let U := ascii_unicode in let F := sample_f64 in let C := Forms.model_crates in
  let D := {| debug_str := fun s => s |} in
  let h := mkResponse 200 (lit "OK") (lit "HTTP/1.1") [] [] in
  let s0 := new_stream [] AuditLog.Outbound (mkRequest [] [] [] 0 [] [] [] []) h (the_plan (Some Gzip) (Some (StreamRedact.sample_forms, 40)) (Some 9%nat)) in
  exists fuel w x again, relay_h1 fuel fuel (fun _ => 0) (fun _ => true) 0 (lit "HTTP/1.1") h (mkWire (fun _ _ => true) []) (mkExchange s0 sample_chunks BodyEnd false)
      = Some (w, x, Transport.StreamCompleted, again)
    /\ option_map tee_finish (tee (stream x)) = Some (lit "one~two {", 17%nat).
Proof.
  intros K U F C D h s0. subst K U F C D.
  assert (Ed : @decoded sample_codecs sample_laws (Some Gzip) (concat sample_chunks) = Some (lit "one~two hunter-2.password")) by (by vm_compute).
  assert (Ho : Forall (fun b => octet b) (concat sample_chunks)) by (set (l := concat sample_chunks); vm_compute in l; subst l; repeat constructor; lia).
  destruct (@streamed_as_buffered Forms.model_crates Forms.model_crates_laws sample_f64 ascii_unicode {| debug_str := fun s => s |} sample_codecs sample_laws
    (Some Gzip) (Some (@StreamRedact.sample_forms Forms.model_crates sample_f64, 40)) (Some 9%nat) [] AuditLog.Outbound (mkRequest [] [] [] 0 [] [] [] []) h sample_chunks BodyEnd
    (fun _ _ => true) (fun _ => 0) (fun _ => true) 0 (lit "HTTP/1.1")) as (_ & enough & Hall); [|exact Ho|].
  { intros fs n [= <- <-]. apply StreamRedact.sample_forms_wf. }
  destruct (Hall enough enough (le_n _) (le_n _)) as (w & x & o & again & pieces & E & _ & _ & Hout). rewrite Ed in Hout. destruct o as [|reason|reason|].
  - destruct Hout as (_ & _ & body & [= <-] & _ & Ht). exists enough, w, x, again. split; [exact E|]. rewrite Ht. by vm_compute.
  - done.
  - destruct Hout as [(before & run & after & Eb & _ & Hlen)|[held Hheld]]; [|done]. apply (f_equal length) in Eb. rewrite !length_app in Eb.
    assert (El : length (lit "one~two hunter-2.password") = 25%nat) by done. lia.
  - destruct Hout as (sent & b & Hb). done.
Defined.
