(* ===== verification/Flow.v ===== *)
(** The pipeline of one flow: the model of [agentcage-egress/src/flow.rs] - the
    request's steps 1 to 12, the response side, WebSocket messages, and the
    decisions the transport asks of it. *)
From S2P Require Import Prelude Utf8 Domain Json Value DateTime Message AuditLog Engine.
From S2P Require Timestamp Inspect DomainInspector Chain Secrets Entropy Settings Policy Forms BodyCodec StreamDecode Text.
From S2P Require Rules Injector StreamRedact Capture Limits Transport FlowStream.
From Stdlib Require Import ZifyBool.

(** * Definitions *)

(** ** Effects *)

(** A computation on a state; an error leaves the state where it was met. *)
Definition eff (S A : Type) : Type := S -> S * result str A.
Definition eret {S A} (a : A) : eff S A := fun s => (s, Ok a).
Definition eerr {S A} (e : str) : eff S A := fun s => (s, Err e).
Definition ebind {S A B} (m : eff S A) (k : A -> eff S B) : eff S B := fun s =>
  match m s with (s, Ok a) => k a s | (s, Err e) => (s, Err e) end.
Notation "'let*' x := m 'in' k" := (ebind m (fun x => k))
  (at level 10, x pattern, m at level 200, k at level 200) : rust_scope.
Definition efn {S A} (f : S -> S * A) : eff S A := fun s => let '(s, a) := f s in (s, Ok a).
Definition eget {S} : eff S S := fun s => (s, Ok s).
Definition emod {S} (f : S -> S) : eff S unit := fun s => (f s, Ok tt).
Definition elift {S A} (r : result str A) : eff S A := fun s => (s, r).

(** What a call of the pipeline meets outside: the readings of the moment, the 16
    bytes of a fresh id, the workers that fail, the body budget once it is bound
    (its limit, and whether it grants a size), the decider's reply, and whether no
    other reload holds the lock. *)
Record FlowEnv : Type := mkFlowEnv {
  env : Env; fresh : bytes; worker_error : nat -> option str; budget : option (Z * (Z -> bool)); reply : result str Json; reload_free : bool
}.

(** ** Identities and answers *)

Definition FORWARDING_HEADERS : list str :=
  map lit ["x-forwarded-for"; "x-forwarded-proto"; "x-forwarded-host"; "x-real-ip"; "forwarded"]%string.

Definition audit_direction (c : Transport.ConnInfo) : Direction :=
  match Transport.direction c with Transport.Inbound => Inbound | Transport.Outbound => Outbound end.
Definition inspect_direction (d : Direction) : Inspect.Direction :=
  match d with Inbound => Inspect.Inbound | Outbound => Inspect.Outbound end.
Definition is_inbound (c : Transport.ConnInfo) : bool :=
  match Transport.direction c with Transport.Inbound => true | Transport.Outbound => false end.

(** Two hexadecimal digits. *)
Definition hex2 (b : Z) : str := map (fun d => if d <? 10 then 48 + d else 87 + d) [b / 16; b mod 16].
Definition flow_id (fresh : bytes) : str :=
  let b := alter (fun x => Z.lor (Z.land x 15) 64) 6%nat fresh in
  let b := alter (fun x => Z.lor (Z.land x 63) 128) 8%nat b in
  let hex := flat_map hex2 b in
  sep_concat (lit "-") [take 8 hex; take 4 (drop 8 hex); take 4 (drop 12 hex); take 4 (drop 16 hex); drop 20 hex].

Definition default_request : Request := mkRequest [] [] [] 0 [] [] [] [].
Definition default_response : Response := mkResponse 0 [] [] [] [].
Definition with_response_body (r : Response) (b : bytes) : Response :=
  mkResponse (status r) (reason r) (resp_version r) (resp_headers r) b.
Definition with_response_headers (r : Response) (h : Headers) : Response :=
  mkResponse (status r) (reason r) (resp_version r) h (resp_body r).

(** The port is cut at the last colon, a bracketed address is unbracketed whole. *)
Definition host_header_name (header : str) : str :=
  if starts_with header [91] then (Transport.parse_authority header).1
  else match Url.rsplit_once 58 header with Some (h, _) => h | None => header end.

Section Flow.
Context `{Unicode} `{Policy.UnicodeUpper} `{F64Text} `{StrDebug} `{Secrets.RegexEngine} `{Secrets.Env} `{Entropy.Log2}.
Context `{Chain.PluginLoader} `{Forms.Crates} `{BodyCodec.Codecs} `{Rules.Transforms} `{Policy.OverlayFile} `{Capture.MappingEq}.
Context `{Text.BytesRegex} `{Text.EncodingRs}.
Context (BASE64_RE : Secrets.Regex).
(** What other flows do to the engine by each await of a call. *)
Context (others : nat -> Engine -> Engine).

Record Flow : Type := mkFlow { fl_id : str; fl_direction : Direction; fl_live : Live }.

Definition block_body (blocked : bool) (reason host : str) : bytes :=
  as_bytes (to_string (object [("blocked", JBool blocked); ("reason", JStr reason); ("host", JStr host); ("by", JStr (lit "agentcage"))]%string)).
Definition json_response (status : Z) (body : bytes) : Response :=
  Transport.make_response status [(lit "Content-Type", lit "application/json")] body.
Definition normalise (name : str) : str := trim_end_matches 46 (to_lowercase name).
Definition inject_error_text (e : Injector.InjectError) : str :=
  match e with
  | Injector.BodyError e => FlowStream.decode_error_text e
  | Injector.UrlError e => lit "invalid URL after rewrite: " ++ e
  end.
Definition map_err {E A} (f : E -> str) (r : result E A) : result str A :=
  match r with Ok a => Ok a | Err e => Err (f e) end.

(** The injector over the engine's rules. *)
Definition with_injector {A} (f : Rules.World -> Rules.Injector -> Rules.Injector * A) (g : Engine) : Engine * A :=
  let '(i, a) := f (transforms g) (injector g) in (set_injector g (transforms g) i, a).
Definition redact_reason (text : str) (g : Engine) : Engine * (str * list str) :=
  with_injector (fun w i => Injector.injector_redact_text w i text) g.
Definition redact_inspectors (results : list Inspect.Verdict) (g : Engine) : Engine * Json :=
  with_injector (fun w i => Injector.redact_json w i (inspectors_json results)) g.
Definition redact_req (req : Request) (g : Engine) : Engine * (Request * result Injector.InjectError (list str)) :=
  with_injector (fun w i => let '(i, req, r) := Injector.redact_request w i req in (i, (req, r))) g.
Definition on_capture (f : Capture.State -> Capture.State) (g : Engine) : Engine := set_capture g (f (capture g)).
Definition release_flow (e : FlowEnv) (id : str) (g : Engine) : Engine :=
  on_capture (Capture.release (capture_io (env e)) (clock (env e)) id) g.

Definition record (e : FlowEnv) (req : Request) (d : Direction) (decision : Decision) (reason : str) (results : list Inspect.Verdict) : HttpDecision :=
  with_inspectors (new_decision (clock (env e)) req d decision reason) results.
Definition emit_decision (e : FlowEnv) (l : Live) (r : HttpDecision) (g : Engine) : Engine :=
  decision_emit (H := engine_sink (env e)) r (l_log_allowed l) g.
Definition emit_record (e : FlowEnv) (r : Json) (g : Engine) : Engine := emit (AuditSink := engine_sink (env e)) r g.

(** ** Contexts *)

Definition context (req : Request) (h : Headers) (content : bytes) (d : Direction) : Inspect.Context :=
  let content_type := default [] (header_get h (lit "content-type")) in
  Inspect.mkContext (url req) (host req) (method req) (to_strings h) content_type (Some content) (Some (Text.decode_text content_type content))
    (Z.of_nat (length content)) (if bool_decide (content = []) then None else Some (Entropy.shannon_entropy content)) []
    (inspect_direction d) false.
(** The request (its body moved out when it has no encoding), the context, and
    whether the body was moved. *)
Definition request_context (req : Request) (d : Direction) : result BodyCodec.DecodeError (Request * Inspect.Context * bool) :=
  let! decoded := BodyCodec.decoded_body (headers req) (body req) in
  match decoded with
  | Some decoded => Ok (req, context req (headers req) decoded d, false)
  | None => let moved := Transport.with_body req [] in Ok (moved, context moved (headers req) (body req) d, true)
  end.
Definition restore_body (req : Request) (ctx : Inspect.Context) (moved : bool) : Request :=
  if moved then Transport.with_body req (default [] (Inspect.body_bytes ctx)) else req.
Definition lenient_body (h : Headers) (raw : bytes) : bytes := BodyCodec.decoded_body_lenient h raw.
(** The first block. *)
Definition first_block (results : list Inspect.Verdict) : option Inspect.Verdict := List.find Inspect.is_block results.
Definition is_flag (v : Inspect.Verdict) : bool := negb (Inspect.is_block v).

(** ** Awaits *)

Section Awaits.
Context {S : Type} (on_engine : (Engine -> Engine) -> S -> S).
Definition await (n : nat) : eff S unit := emod (on_engine (others n)).
(** A closure on a worker, other flows before and after it. *)
Definition blocking {A} (e : FlowEnv) (n : nat) (f : S -> S * A) : eff S A :=
  let* _ := await n in
  match worker_error e n with
  | Some err => eerr (lit "worker failed: " ++ err)
  | None => let* a := efn f in let* _ := await (n + 1) in eret a
  end.
Definition hold_copy (e : FlowEnv) (n : Z) : eff S unit :=
  match budget e with
  | None => eret tt
  | Some (limit, grows) =>
      let* _ := await 4 in
      if grows n then eret tt else eerr (Transport.error_text (Transport.BudgetExhausted limit))
  end.
End Awaits.

(** The live chain over a context: the verdicts, and the context back. *)
Definition chain_inspectors (e : FlowEnv) (l : Live) (skip_domain : bool) (g : Engine) : list Inspect.Inspector :=
  map (Chain.member_inspector (domain g) (chain_now (env e)))
    (List.filter (fun m => negb (skip_domain && Chain.is_domain m)) (Chain.members (l_chain l))).
Definition run_chain_on (e : FlowEnv) (l : Live) (ctx : Inspect.Context) (phase : Inspect.Phase) (skip_domain : bool) (g : Engine)
  : list Inspect.Verdict * Inspect.Context :=
  Inspect.run_chain (chain_inspectors e l skip_domain g) ctx phase (fun _ => false).
Definition inspects_responses (e : FlowEnv) (l : Live) (g : Engine) : bool :=
  Chain.chain_inspects_responses (domain g) (chain_now (env e)) (l_chain l).

(** ** The gates *)

Definition internal_error (e : FlowEnv) (req : Request) (d : Direction) (error : str) (g : Engine) : Engine * Response :=
  let reason := lit "internal error: " ++ error in
  let g := emit_record e (AuditLog.internal_error (clock (env e)) req d reason) g in
  let '(g, (reason, _)) := redact_reason reason g in
  (g, json_response 502 (block_body false reason (host req))).

(** The state of a request's call: the engine, and the request in place. *)
Record ReqState : Type := mkReqState { engine : Engine; request_ : Request }.
Definition on_engine (f : Engine -> Engine) (s : ReqState) : ReqState := mkReqState (f (engine s)) (request_ s).
Definition on_engine' {A} (f : Engine -> Engine * A) (s : ReqState) : ReqState * A :=
  let '(g, a) := f (engine s) in (mkReqState g (request_ s), a).
Definition set_request (r : Request) : eff ReqState unit := emod (fun s => mkReqState (engine s) r).
Definition of_engine {A} (f : Engine -> A) : eff ReqState A := let* s := eget in eret (f (engine s)).
Definition the_request : eff ReqState Request := let* s := eget in eret (request_ s).

(** The API the call took, as it is now, and the engine after it answered; one a
    reload has dropped meanwhile still works on the shared inspector and files. *)
Definition control_api (taken : Policy.PolicyApi) (g : Engine) : Policy.PolicyApi :=
  match policy_api g with
  | Some api => api
  | None => Policy.set_world (Policy.set_dom taken (domain g)) (policy_files g)
  end.
Definition after_control (api : Policy.PolicyApi) (g : Engine) : Engine :=
  match policy g with
  | Some _ => set_policy g (Some api)
  | None => set_policy (set_policy g (Some api)) None
  end.
Definition control_request (req : Request) : Policy.ControlRequest :=
  Policy.mkRequest (method req) (path req) (lenient_body (headers req) (body req)).
(** Whether the control host answers the request, and with which API. *)
Definition control_taken (conn : Transport.ConnInfo) (req : Request) (g : Engine) : option Policy.PolicyApi :=
  let? api := policy_api g in
  if negb (Settings.enable (Policy.settings (Policy.live api))) || is_inbound conn then None
  else if negb (Policy.is_control_host (Policy.live api) (Transport.sni conn) (host_header req)) then None
  else Some api.
Definition control_answer (e : FlowEnv) (api : Policy.PolicyApi) (req : Request) (g : Engine) : Engine * Policy.ControlResponse :=
  let '(api, answer) := Policy.handle (policy_env (env e)) (reply e) (control_api api g) (control_request req) in
  (after_control api g, answer).
Definition control (e : FlowEnv) (conn : Transport.ConnInfo) : eff ReqState (option Response) :=
  let* req := the_request in
  let* taken := of_engine (control_taken conn req) in
  match taken with
  | None => eret None
  | Some api => fun s =>
      match blocking on_engine e 2 (on_engine' (control_answer e api req)) s with
      | (s, Err err) => let '(s, r) := on_engine' (internal_error e req Outbound err) s in (s, Ok (Some r))
      | (s, Ok answer) =>
          let s := on_engine (fold_left (fun g r => emit_record e r g) (Policy.audit answer)) s in
          (s, Ok (Some (Transport.make_response (Policy.status answer) [(lit "Content-Type", lit "application/json")] (Policy.resp_body answer))))
      end
  end.

(** The names that must agree, when both sides name one. *)
Definition named_hosts (conn : Transport.ConnInfo) (req : Request) : option (str * str) :=
  let? sni := Transport.non_empty (Transport.sni conn) in
  let? host_hdr := Transport.non_empty (host_header req) in
  Some (sni, host_hdr).
Definition sni_host_mismatch (e : FlowEnv) (conn : Transport.ConnInfo) (req : Request) (l : Live) (g : Engine) : Engine * option Response :=
  match named_hosts conn req with
  | None => (g, None)
  | Some (sni, host_hdr) =>
      if bool_decide (normalise sni = normalise (host_header_name host_hdr)) then (g, None)
      else
        let reason := lit "SNI/Host header mismatch: TLS was established with SNI=" ++ quote_text sni
          ++ lit " but HTTP Host header is " ++ quote_text host_hdr
          ++ lit "; agentcage requires strict equality so audit identity, allowlist decisions, and secret-injection routing all reference the same upstream" in
        (emit_decision e l (record e req Outbound Blocked (lit "sni-host mismatch") []) g,
         Some (json_response 403 (block_body true reason host_hdr)))
  end.
Definition poison_reason (key : str) : str :=
  lit "granted domain " ++ key ++ lit " was observed resolving to a non-global address; refusing further requests".
Definition host_gates (e : FlowEnv) (req : Request) (l : Live) (g : Engine) : Engine * option Response :=
  let '(g, allowed) := rate_allows (env e) (host req) l g in
  if negb allowed then
    let reason := lit "rate limit exceeded" in
    (emit_decision e l (record e req Outbound Blocked reason []) g, Some (json_response 429 (block_body true reason (host req))))
  else
    let key := normalise (host req) in
    if is_poisoned g key then
      let reason := poison_reason key in
      (emit_decision e l (record e req Outbound Blocked reason []) g, Some (json_response 403 (block_body true reason (host req))))
    else (g, None).

Definition flow_info (e : FlowEnv) (req : Request) (d : Direction) (decision : Decision) : Capture.FlowInfo :=
  Capture.mkInfo (flow_id (fresh e)) d decision (host req) (method req) (path req).
(** The request goes on to its capture entry redacted; a redaction that fails
    leaves it out. *)
Definition blocked (e : FlowEnv) (l : Live) (d : Direction) (source : str) (results : list Inspect.Verdict) (req : Request) (g : Engine)
  : Engine * Request * Response :=
  let reason := match first_block results with Some r => Inspect.reason r | None => [] end in
  let resp := json_response 403 (block_body true reason (host req)) in
  let g := emit_decision e l (with_source (record e req d Blocked reason results) source) g in
  if negb (Capture.capture_should (capture g) Blocked (host req)) then (g, req, resp)
  else
    let '(g, (req, redacted)) := redact_req req g in
    match redacted with
    | Err _ => (g, req, resp)
    | Ok _ =>
        let '(g, inspectors) := redact_inspectors results g in
        (on_capture (Capture.record_blocked_request (capture_io (env e)) (clock (env e)) (flow_info e req d Blocked) inspectors
                       (req, lenient_body (headers req) (body req)) (Some (resp, resp_body resp))) g, req, resp)
    end.

(** ** The request *)

Definition reload (e : FlowEnv) : eff ReqState unit := fun s =>
  if negb (config_changed (env e) (engine s)) then (s, Ok tt)
  else
    let run s := (match reload_if_changed BASE64_RE (env e) (reload_free e) (engine s) with
                  | Some g => mkReqState g (request_ s) | None => s end, tt) in
    ((blocking on_engine e 0 run s).1, Ok tt).

(** Step 10: a reverse flow's attribution headers go, its origin is its host. *)
Definition reverse_headers (conn : Transport.ConnInfo) (req : Request) : Request :=
  let h := fold_left header_remove FORWARDING_HEADERS (headers req) in
  let proto := lit (if Transport.tls conn then "https" else "http") in
  let host_hdr := match header_get h (lit "host") with Some v => v | None => host req ++ [58] ++ show_unsigned (port req) end in
  let h := match Transport.non_empty (header_get h (lit "origin")) with
           | Some _ => header_set h (lit "origin") (as_bytes (proto ++ lit "://" ++ host_hdr))
           | None => h
           end in
  Transport.with_headers req h.
Definition held_context (e : FlowEnv) (d : Direction) : eff ReqState (Inspect.Context * bool) :=
  let* req := the_request in
  let* (req, ctx, moved) := elift (map_err FlowStream.decode_error_text (request_context req d)) in
  let* _ := set_request req in
  let* _ := hold_copy on_engine e (if moved then 0 else Inspect.body_size ctx) in
  eret (ctx, moved).
Definition add_prior (ctx : Inspect.Context) (v : option Inspect.Verdict) : Inspect.Context :=
  match v with Some v => Inspect.set_prior ctx (Inspect.prior_results ctx ++ [v]) | None => ctx end.
Definition opt_list {A} (o : option A) : list A := match o with Some a => [a] | None => [] end.

(** Steps 8 to 11: every verdict on the request, which is the injector's and the
    chain's. *)
Definition judge (e : FlowEnv) (conn : Transport.ConnInfo) (l : Live) : eff ReqState (list Inspect.Verdict * str) :=
  let* req := the_request in
  let* checked := efn (on_engine' (with_injector (fun w i => Injector.check_injection_policy w i req))) in
  let* inject_result := elift (map_err FlowStream.decode_error_text checked) in
  let* (ctx, moved) := held_context e (audit_direction conn) in
  let ctx := add_prior ctx inject_result in
  let* req := the_request in
  let* _ := set_request (if is_inbound conn then reverse_headers conn req else req) in
  let source := if is_inbound conn then Transport.show_ip (Transport.client_addr conn).1 else [] in
  let* (verdicts, ctx) := blocking on_engine e 6 (on_engine' (fun g => (g, run_chain_on e l ctx Inspect.Request (is_inbound conn) g))) in
  let* req := the_request in
  let* _ := set_request (restore_body req ctx moved) in
  eret (opt_list inject_result ++ verdicts, source).

Definition flagged_reasons (results : list Inspect.Verdict) : list str := map Inspect.reason (List.filter is_flag results).
(** The decision a request with no block gets. *)
Definition admitted (results : list Inspect.Verdict) : Decision * str :=
  match flagged_reasons results with [] => (Allowed, []) | l => (Flagged, sep_concat (lit "; ") l) end.
Definition inject_closure (s : ReqState) : ReqState * result Injector.InjectError (list str) :=
  let g := engine s in
  let '(w, i, req, injected) := Injector.inject_request (transforms g) (injector g) (request_ s) in
  (mkReqState (set_injector g w i) req, injected).
(** The request is in the worker's hands meanwhile: a worker that dies loses it. *)
Definition inject (e : FlowEnv) : eff ReqState (list str) := fun s =>
  match blocking on_engine e 8 inject_closure s with
  | (s, Err err) => (mkReqState (engine s) default_request, Err err)
  | (s, Ok injected) => (s, map_err inject_error_text injected)
  end.
(** Step 12, of a request no verdict blocks. *)
Definition admit_flow (e : FlowEnv) (l : Live) (d : Direction) (source : str) (results : list Inspect.Verdict) : eff ReqState Flow :=
  let* req := the_request in
  let* snapshot := of_engine (fun g => Capture.snapshot_request (capture g) req (lenient_body (headers req) (body req))) in
  let* injected := inject e in
  let* req := the_request in
  let '(decision, reason) := admitted results in
  let* _ := emod (on_engine (emit_decision e l (with_injected (with_source (record e req d decision reason results) source) injected))) in
  let* _ := match snapshot with
            | None => eret tt
            | Some snapshot =>
                let* inspectors := efn (on_engine' (redact_inspectors results)) in
                emod (on_engine (on_capture (Capture.stage (flow_info e req d decision) inspectors snapshot)))
            end in
  eret (mkFlow (flow_id (fresh e)) d l).
Definition verdict_step (e : FlowEnv) (conn : Transport.ConnInfo) (l : Live) : eff ReqState (Transport.RequestAction Flow) :=
  let* (results, source) := judge e conn l in
  if Inspect.blocked results then
    let* resp := (fun s => let '(g, req, resp) := blocked e l (audit_direction conn) source results (request_ s) (engine s) in
                           (mkReqState g req, Ok resp)) in
    eret (Transport.Respond resp)
  else
    let* flow := admit_flow e l (audit_direction conn) source results in
    eret (Transport.Forward flow).
(** Steps 4 to 7. *)
Definition gates (e : FlowEnv) (conn : Transport.ConnInfo) (l : Live) : eff ReqState (option Response) :=
  let* refused :=
    if is_inbound conn then eret None
    else
      let* req := the_request in
      let* refused := efn (on_engine' (sni_host_mismatch e conn req l)) in
      match refused with
      | Some resp => eret (Some resp)
      | None => let* _ := set_request (Transport.retarget_to_host req).1 in eret None
      end in
  match refused with
  | Some resp => eret (Some resp)
  | None => let* req := the_request in efn (on_engine' (host_gates e req l))
  end.
Definition request_inner (e : FlowEnv) (conn : Transport.ConnInfo) : eff ReqState (Transport.RequestAction Flow) :=
  let* _ := reload e in
  let* answered := control e conn in
  match answered with
  | Some resp => eret (Transport.Respond resp)
  | None =>
      let* l := of_engine live in
      let* refused := gates e conn l in
      match refused with
      | Some resp => eret (Transport.Respond resp)
      | None => verdict_step e conn l
      end
  end.
Definition request (e : FlowEnv) (conn : Transport.ConnInfo) (s : ReqState) : ReqState * Transport.RequestAction Flow :=
  match request_inner e conn s with
  | (s, Ok action) => (s, action)
  | (s, Err err) => let '(g, resp) := internal_error e (request_ s) (audit_direction conn) err (engine s) in
                    (mkReqState g (request_ s), Transport.Respond resp)
  end.

(** ** The response *)

Record RespState : Type := mkRespState { r_engine : Engine; r_request : Request; r_response : Response }.
Definition on_r_engine (f : Engine -> Engine) (s : RespState) : RespState := mkRespState (f (r_engine s)) (r_request s) (r_response s).
Definition on_r_engine' {A} (f : Engine -> Engine * A) (s : RespState) : RespState * A :=
  let '(g, a) := f (r_engine s) in (mkRespState g (r_request s) (r_response s), a).
Definition set_r_request (r : Request) : eff RespState unit := emod (fun s => mkRespState (r_engine s) r (r_response s)).
Definition set_r_response (r : Response) : eff RespState unit := emod (fun s => mkRespState (r_engine s) (r_request s) r).
Definition of_r_engine {A} (f : Engine -> A) : eff RespState A := let* s := eget in eret (f (r_engine s)).

(** The request back to its placeholders, for every record of it. *)
Definition redact_back (e : FlowEnv) (f : Flow) : eff RespState unit :=
  let* s := eget in
  let* (req, redacted) := efn (on_r_engine' (redact_req (r_request s))) in
  let* _ := set_r_request req in
  let* _ := elift (map_err inject_error_text redacted) in
  emod (on_r_engine (on_capture (Capture.refresh_request (fl_id f) req (lenient_body (headers req) (body req))))).
(** The response chain, over a body taken out of the response (or its decoded
    copy) and put back. *)
Definition judge_response (e : FlowEnv) (f : Flow) (decoded : option bytes) : eff RespState (list Inspect.Verdict * option bytes) :=
  let* s := eget in
  if negb (inspects_responses e (fl_live f) (r_engine s)) then eret ([], decoded)
  else
    let content := default (resp_body (r_response s)) decoded in
    let* _ := set_r_response (match decoded with Some _ => r_response s | None => with_response_body (r_response s) [] end) in
    let ctx := context (r_request s) (resp_headers (r_response s)) content (fl_direction f) in
    let* (results, ctx) := blocking on_r_engine e 2 (on_r_engine' (fun g => (g, run_chain_on e (fl_live f) ctx Inspect.Response false g))) in
    let body := default [] (Inspect.body_bytes ctx) in
    match decoded with
    | Some _ => eret (results, Some body)
    | None =>
        let* s := eget in
        let* _ := set_r_response (with_response_body (r_response s) body) in
        eret (results, None)
    end.
Definition union_names (names more : list str) : list str := fold_left Injector.add_name more names.
Definition redact_resp (resp : Response) (g : Engine) : Engine * (Response * result BodyCodec.DecodeError (list str)) :=
  with_injector (fun w i => let '(i, resp, r) := Injector.redact_response w i resp in (i, (resp, r))) g.
Definition block_response (e : FlowEnv) (f : Flow) (results : list Inspect.Verdict) (block : Inspect.Verdict) : eff RespState unit :=
  let* s := eget in
  let* (reason, names) := efn (on_r_engine' (redact_reason (Inspect.reason block))) in
  let* (resp, redacted) := efn (on_r_engine' (redact_resp (json_response 403 (block_body true reason (host (r_request s)))))) in
  let* _ := set_r_response resp in
  let* more := elift (map_err FlowStream.decode_error_text redacted) in
  let rec_ := with_redacted (record e (r_request s) (fl_direction f) Blocked reason results) (union_names names more) in
  let* _ := emod (on_r_engine (emit_decision e (fl_live f) rec_)) in
  let* inspectors := efn (on_r_engine' (redact_inspectors results)) in
  emod (on_r_engine (on_capture (Capture.finish_blocked_response (capture_io (env e)) (clock (env e)) (fl_id f) inspectors (resp, resp_body resp)))).
Definition redact_decoded (decoded : option bytes) (s : RespState) : RespState * (result BodyCodec.DecodeError (list str) * option bytes) :=
  let '(i, resp, out) := Injector.redact_response_decoded (transforms (r_engine s)) (injector (r_engine s)) (r_response s) decoded in
  (mkRespState (set_injector (r_engine s) (transforms (r_engine s)) i) (r_request s) resp, out).
(** The response is in the worker's hands meanwhile. *)
Definition redact_worker (e : FlowEnv) (decoded : option bytes) : eff RespState (result BodyCodec.DecodeError (list str) * option bytes) := fun s =>
  match blocking on_r_engine e 5 (redact_decoded decoded) s with
  | (s, Err err) => (mkRespState (r_engine s) (r_request s) default_response, Err err)
  | ok => ok
  end.
Definition is_websocket (req : Request) (resp : Response) : bool :=
  (status resp =? 101)
  && match header_get (resp_headers resp) (lit "upgrade") with Some u => eq_ignore_ascii_case (as_bytes u) (lit "websocket") | None => false end
  && bool_decide (header_get (headers req) (lit "sec-websocket-version") = Some (lit "13")).
Definition response_inner (e : FlowEnv) (f : Flow) : eff RespState unit :=
  let* _ := redact_back e f in
  let* s := eget in
  let* decoded := elift (map_err FlowStream.decode_error_text (BodyCodec.decoded_body (resp_headers (r_response s)) (resp_body (r_response s)))) in
  let* _ := match decoded with Some copy => hold_copy on_r_engine e (Z.of_nat (length copy)) | None => eret tt end in
  let* (results, decoded) := judge_response e f decoded in
  match first_block results with
  | Some block => block_response e f results block
  | None =>
      let* (redacted, decoded) := redact_worker e decoded in
      let* _ := elift (map_err FlowStream.decode_error_text redacted) in
      let* s := eget in
      let content := default (resp_body (r_response s)) decoded in
      emod (on_r_engine (on_capture (Capture.finish_response (capture_io (env e)) (clock (env e)) (fl_id f) (r_response s, content)
                                       (is_websocket (r_request s) (r_response s)))))
  end.
Definition response (e : FlowEnv) (f : Flow) (s : RespState) : RespState :=
  match response_inner e f s with
  | (s, Ok _) => s
  | (s, Err err) =>
      let g := release_flow e (fl_id f) (r_engine s) in
      let '(g, resp) := internal_error e (r_request s) (fl_direction f) err g in
      mkRespState g (r_request s) resp
  end.

(** Whether the body is relayed as it arrives, and how; [None] buffers it. *)
Definition stream_plan (e : FlowEnv) (f : Flow) (s : RespState) : RespState * option FlowStream.PipelineStream :=
  let head := r_response s in
  if inspects_responses e (fl_live f) (r_engine s) then (s, None)
  else
    match StreamDecode.encoding_of (header_get (resp_headers head) (lit "content-encoding")), Capture.streamed_body_limit (fl_id f) (capture (r_engine s)) with
    | StreamDecode.Buffered, _ | _, Some None => (s, None)
    | encoding, limit =>
        let codec := match encoding with StreamDecode.Codec_ c => Some c | _ => None end in
        let capture := match limit with Some l => l | None => None end in
        match redact_back e f s with
        | (s, Err _) => (s, None)
        | (s, Ok _) =>
            let '(s, redactor) := on_r_engine' (with_injector (fun w i => Injector.stream_redactor w i)) s in
            let decode := match redactor with Some _ => codec | None => None end in
            let head := match redactor with Some r => FlowStream.redact_head head (StreamRedact.forms r) | None => head end in
            let h := match decode with Some _ => header_remove (resp_headers head) (lit "content-encoding") | None => resp_headers head end in
            let h := match redactor with Some _ => header_remove h (lit "content-length") | None => h end in
            let head := with_response_headers head h in
            let plan := FlowStream.mkPlan decode redactor
                          (option_map (fun limit => (limit, match decode with None => codec | Some _ => None end)) capture) in
            let s := mkRespState (r_engine s) (r_request s) head in
            (s, Some (FlowStream.new_stream (fl_id f) (fl_direction f) (Transport.with_body (r_request s) []) head plan))
        end
    end.

(** ** WebSocket messages *)

Record WsState : Type := mkWsState { w_engine : Engine; w_message : Transport.WsMessage }.
Definition on_w_engine (f : Engine -> Engine) (s : WsState) : WsState := mkWsState (f (w_engine s)) (w_message s).
Definition on_w_engine' {A} (f : Engine -> Engine * A) (s : WsState) : WsState * A :=
  let '(g, a) := f (w_engine s) in (mkWsState g (w_message s), a).
Definition set_content (c : bytes) : eff WsState unit :=
  emod (fun s => mkWsState (w_engine s) (Transport.mkWs (Transport.from_client (w_message s)) (Transport.is_text (w_message s)) c)).
Definition ws_context (f : Flow) (req : Request) (content : bytes) : Inspect.Context :=
  Inspect.mkContext (url req) (host req) (lit "WEBSOCKET") (to_strings (headers req)) (lit "application/x-websocket-frame")
    (Some content) (Some (from_utf8_lossy content)) (Z.of_nat (length content)) (Some (Entropy.shannon_entropy content)) []
    (inspect_direction (fl_direction f)) true.
Definition ws_reason (reason : str) : str := lit "websocket: " ++ reason.
Definition ws_drop (e : FlowEnv) (l : Live) (req : Request) (d : Direction) (results : list Inspect.Verdict) (block : Inspect.Verdict)
  : eff WsState (Transport.WsVerdict * Decision) :=
  let* _ := emod (on_w_engine (emit_decision e l (record e req d Blocked (ws_reason (Inspect.reason block)) results))) in
  eret (Transport.WsDrop, Blocked).
Definition ws_chain (e : FlowEnv) (l : Live) (ctx : Inspect.Context) (phase : Inspect.Phase) (reverse : bool) : eff WsState (list Inspect.Verdict) :=
  let* (results, _) := blocking on_w_engine e 0 (on_w_engine' (fun g => (g, run_chain_on e l ctx phase reverse g))) in eret results.
Definition inject_ws (req : Request) (body : bytes) (s : WsState) : WsState * (bytes * list str) :=
  let g := w_engine s in
  let '(w, i, out) := Injector.inject_ws_content (transforms g) (injector g) body (host req) in
  (mkWsState (set_injector g w i) (w_message s), out).
Definition ws_outbound (e : FlowEnv) (l : Live) (req : Request) (ctx : Inspect.Context) (reverse : bool) : eff WsState (Transport.WsVerdict * Decision) :=
  let* s := eget in
  let body := Transport.content (w_message s) in
  let* checked := efn (on_w_engine' (with_injector (fun w i => Injector.check_ws_injection_policy w i body (host req)))) in
  let* verdicts := ws_chain e l (add_prior ctx checked) Inspect.Request reverse in
  let results := opt_list checked ++ verdicts in
  match first_block results with
  | Some block => ws_drop e l req Outbound results block
  | None =>
      let* (content, injected) := blocking on_w_engine e 2 (inject_ws req body) in
      let* _ := set_content content in
      let '(decision, reason) := match flagged_reasons results with
                                 | [] => (Allowed, lit "websocket")
                                 | l => (Flagged, ws_reason (sep_concat (lit "; ") l))
                                 end in
      let* _ := if bool_decide (decision = Flagged) || l_log_allowed l || negb (bool_decide (injected = []))
                then emod (on_w_engine (emit_decision e l (with_injected (record e req Outbound decision reason results) injected)))
                else eret tt in
      eret (Transport.WsForward, decision)
  end.
Definition ws_inbound (e : FlowEnv) (l : Live) (req : Request) (ctx : Inspect.Context) (reverse : bool) : eff WsState (Transport.WsVerdict * Decision) :=
  let* results := ws_chain e l ctx Inspect.Response reverse in
  match first_block results with
  | Some block => ws_drop e l req Inbound results block
  | None =>
      let decision := if existsb is_flag results then Flagged else Allowed in
      let* _ := if l_log_allowed l then emod (on_w_engine (emit_decision e l (record e req Inbound Allowed (lit "websocket") results))) else eret tt in
      eret (Transport.WsForward, decision)
  end.
Definition redact_ws (content : bytes) : eff WsState bytes :=
  let* (content, _) := efn (on_w_engine' (with_injector (fun w i => Injector.redact_ws_content w i content))) in eret content.
Definition websocket_inner (e : FlowEnv) (conn : Transport.ConnInfo) (f : Flow) (req : Request) : eff WsState Transport.WsVerdict :=
  let* s := eget in
  let msg := w_message s in
  let body := Transport.content msg in
  if bool_decide (body = []) then eret Transport.WsForward
  else
    let ctx := ws_context f req body in
    let reverse := is_inbound conn in
    let* (verdict, decision) :=
      if Bool.eqb (Transport.from_client msg) reverse then
        let* outcome := ws_inbound e (fl_live f) req ctx reverse in
        let* content := redact_ws body in
        let* _ := set_content content in
        eret outcome
      else ws_outbound e (fl_live f) req ctx reverse in
    let* recorded := redact_ws body in
    let* _ := emod (on_w_engine (on_capture (Capture.add_ws_frame (fl_id f) (Transport.from_client msg) (Transport.is_text msg) recorded
                                               (isoformat (clock (env e))) decision))) in
    eret verdict.
Definition websocket_message (e : FlowEnv) (conn : Transport.ConnInfo) (f : Flow) (req : Request) (s : WsState) : WsState * Transport.WsVerdict :=
  match websocket_inner e conn f req s with
  | (s, Ok verdict) => (s, verdict)
  | (s, Err err) =>
      (on_w_engine (emit_record e (AuditLog.internal_error (clock (env e)) req (fl_direction f) (lit "internal error: " ++ err))) s, Transport.WsDrop)
  end.

(** ** What the transport asks *)

Definition flow_end (e : FlowEnv) (f : Flow) (g : Engine) : Engine := release_flow e (fl_id f) g.
Definition upstream_error (e : FlowEnv) (f : Flow) (req : Request) (err : Transport.UpstreamError) (g : Engine) : Engine * Response :=
  let g := release_flow e (fl_id f) g in
  let reason := Transport.error_text err in
  let g := emit_record e (AuditLog.upstream_error (clock (env e)) req (fl_direction f) reason) g in
  let '(g, (reason, _)) := redact_reason reason g in
  (g, json_response (Transport.error_status err) (block_body false reason (host req))).
Definition refusal_answer (req : option Request) (r : Transport.Refusal) : Z * str * str :=
  let req_host := match req with Some r => host r | None => [] end in
  match r with
  | Transport.ForwardPort host port =>
      (403, lit "port " ++ show_unsigned port ++ lit " is not an inspected port; the forward proxy only connects to inspected ports (ports.tcp.allow)", host)
  | Transport.RequestBodyTooLarge limit => (413, lit "request body exceeds the egress limit of " ++ show_unsigned limit ++ lit " bytes", req_host)
  | Transport.BodyBudgetExhausted limit => (503, Transport.error_text (Transport.BudgetExhausted limit), req_host)
  end.
Definition transport_refusal (e : FlowEnv) (conn : Transport.ConnInfo) (req : option Request) (r : Transport.Refusal) (g : Engine) : Engine * Response :=
  let '(status, reason, host) := refusal_answer req r in
  let g := match req with
           | Some req => emit_decision e (live g) (record e req (audit_direction conn) Blocked reason []) g
           | None => g
           end in
  (g, json_response status (block_body true reason host)).
Definition tcp_bypass (e : FlowEnv) (conn : Transport.ConnInfo) (g : Engine) : Engine :=
  let server := option_map (fun a => (Transport.a_host a, Transport.a_port a)) (Transport.server_addr conn) in
  emit_record e (tcp_bypass_blocked (clock (env e)) (tcp_bypass_target (Transport.sni conn) None server)) g.

(** ** The peer guard *)

(** The grant-only name the target goes by, and the first address of [resolved]
    that is not global. *)
Definition peer_guard_violation (target : Transport.ConnectTarget) (resolved : list IpAddr) (g : Engine) : option (str * IpAddr) :=
  if Nat.eqb (DomainInspector.grant_count (domain g)) 0 then None
  else
    let candidates := Transport.t_host target :: opt_list (Transport.t_sni target) in
    let? name := List.find (fun h => negb (bool_decide (h = [])) && DomainInspector.is_grant_only (domain g) h) candidates in
    let? bad := List.find (fun ip => negb (is_global_ip ip)) resolved in
    Some (name, bad).
Definition peer_text (ip : IpAddr) : str :=
  match ip with
  | V6 a => match to_ipv4_mapped a with Some v4 => show_ipv4 v4 | None => Transport.show_ipv6 a end
  | V4 a => show_ipv4 a
  end.
Definition server_connect (e : FlowEnv) (target : Transport.ConnectTarget) (resolved : list IpAddr) (g : Engine) : Engine * Transport.ConnectDecision :=
  match peer_guard_violation target resolved g with
  | None => (g, Transport.Allow resolved)
  | Some (name, bad) =>
      let r := private_peer_blocked (clock (env e)) name (peer_text bad) (lit "server_connect") in
      let reason := default [] (let? v := json_get r (lit "reason") in json_as_str v) in
      (emit_record e r (poison (normalise name) g), Transport.Refuse reason)
  end.
Definition may_reuse (target : Transport.ConnectTarget) (peer : IpAddr) (g : Engine) : bool :=
  bool_decide (peer_guard_violation target [peer] g = None).
Definition upstream_epoch (g : Engine) : Z := epoch g.
Definition is_passthrough (candidate : str) (g : Engine) : bool := Transport.matches (l_passthrough (live g)) candidate.
End Flow.
