(* ===== verification/Samples.v ===== *)
(** A concrete world the examples run in: one instance of every interface, and an
    engine booted from a small configuration. *)
From S2P Require Import Prelude Utf8 Json Value Inspect DateTime Timestamp Message AuditLog Engine.
From S2P Require ConfigValues DomainInspector Chain Secrets Entropy Policy Forms BodyCodec Base64Rewrite Rules RulesSpec InjectorSpec Capture Limits Transport Text Url StreamDecode.

(** * Definitions *)

(** Without [#[export]]: a file that runs an example makes them instances itself. *)
Definition unicode : Unicode := ascii_unicode.
Definition upper : Policy.UnicodeUpper := Policy.sample_upper.
Definition floats : F64Text := sample_f64.
Definition debug : StrDebug := Url.sample_debug.
Definition regexes : Secrets.RegexEngine := Secrets.literal_engine.
Definition variables : Secrets.Env := Secrets.no_env.
Definition logarithm : Entropy.Log2 := {| Entropy.log2 := fun f => f |}.
Definition plugins : Chain.PluginLoader := Chain.sample_loader.
Definition crates : Forms.Crates := Forms.model_crates.
Definition codecs : BodyCodec.Codecs := BodyCodec.sample_codecs.
Definition transforms_ : Rules.Transforms := RulesSpec.sample_transforms.
Definition overlay_file : Policy.OverlayFile := Policy.sample_overlay.
Definition mappings : Capture.MappingEq := {| Capture.mapping_eqb := fun _ _ => false |}.

Section Samples.
#[local] Existing Instances unicode upper floats debug regexes variables logarithm plugins crates codecs transforms_ overlay_file mappings.

Definition re : Secrets.Regex := [].
Definition sample_io : Capture.FileIo := Capture.mkIo true true (fun l => l) true true.
(** A moment whose configuration file loads as [load]. *)
Definition moment (mtime : Z) (load : result str Config) : Env :=
  mkEnv Policy.sample_time 0 DomainInspector.sample_now (fun l => l) (Some (lit "/etc/egress.yaml")) (Some mtime) load
    Policy.sample_env false (Ok tt) sample_io.
Definition writer : AuditWriter := mkWriter [] None None 1000.
Definition no_capture : Capture.State := Capture.new_capture (Capture.mkDisk [] None).
Definition no_files : Policy.World := Policy.mkWorld [] None [].
Definition start (mtime : Z) (load : result str Config) : option Engine :=
  boot re (moment mtime load) RulesSpec.sample_world writer no_capture no_files.
Definition is_some {A} (o : option A) : bool := match o with Some _ => true | None => false end.

Definition setting (l : list (string * Value)) : Value := VMapping (map (fun e => (VString (lit e.1), e.2)) l).
(** One allowed domain, one injected secret. *)
Definition small_config : Config :=
  mkConfig (setting [("domains", setting [("allow", VSequence [VString (lit "a.com")])]);
                     ("entropy", VBool false); ("content_type", VBool false); ("max_request_body", VBool false);
                     ("secret_injection", VSequence [setting [("env", VString (lit "TOKEN")); ("placeholder", VString (lit "{{TOKEN}}"));
                                                              ("inject_to", VSequence [VString (lit "api.test")])]])])%string.
(** A configuration whose domain lists are not lists. *)
Definition broken_config : Config :=
  mkConfig (setting [("inspectors", VString (lit "x"))])%string.
End Samples.
Lemma is_some_ex {A} (o : option A) : is_some o = true -> exists a, o = Some a.
Proof. destruct o; [by eexists|discriminate]. Qed.
