(* ===== verification/EngineSpec.v ===== *)
(** What the engine guarantees: the per-host buckets and the poisoned hosts stay
    bounded, a reload that fails keeps the last good configuration, and a boot
    that fails refuses every request. *)
From S2P Require Import Prelude Utf8 Json Value Inspect IndexMap DateTime Timestamp Message AuditLog Engine.
From S2P Require Samples ConfigValues DomainInspector Chain Secrets Entropy Settings Policy Forms BodyCodec Rules Injector Capture Limits Transport.
From Stdlib Require Import SpecFloat ZifyBool.

(** * Theorems *)

(** ** The poisoned hosts *)

Lemma keep_newest_length {A} max (l : list A) : 0 <= max -> Z.of_nat (length (keep_newest max l)) <= max.
Proof. intros Hm. unfold keep_newest. rewrite length_drop. lia. Qed.
Lemma keep_newest_small {A} max (l : list A) : Z.of_nat (length l) <= max -> keep_newest max l = l.
Proof. intros Hl. unfold keep_newest. replace (length l - Z.to_nat max)%nat with 0%nat by lia. apply drop_0. Qed.
Lemma NoDup_drop {A} n (l : list A) : NoDup l -> NoDup (drop n l).
Proof. intros Hl. rewrite <- (take_drop n l) in Hl. by apply NoDup_app in Hl as (_ & _ & ?). Qed.
Lemma keep_newest_sub {A} max (l : list A) x : x ∈ keep_newest max l -> x ∈ l.
Proof. unfold keep_newest. intros Hx. rewrite <- (take_drop (length l - Z.to_nat max) l). apply elem_of_app. by right. Qed.

Definition others_of (set_ : list str) (h : str) : list str := List.filter (fun x => negb (bool_decide (x = h))) set_.
Lemma others_of_elem l h x : x ∈ others_of l h <-> x ∈ l /\ x <> h.
Proof. unfold others_of. rewrite list_elem_of_In, filter_In, <- list_elem_of_In. by rewrite negb_true_iff, bool_decide_eq_false. Qed.
Lemma NoDup_filter_list {A} (f : A -> bool) l : NoDup l -> NoDup (List.filter f l).
Proof. intros Hl. apply NoDup_ListNoDup, List.NoDup_filter. by apply NoDup_ListNoDup. Qed.

Lemma poison_nodup l h : NoDup l -> NoDup (poison_host l h).
Proof.
  intros Hl. unfold poison_host, keep_newest. apply NoDup_drop, NoDup_app. fold (others_of l h). split_and!.
  - by apply NoDup_filter_list.
  - intros x Hx%others_of_elem Hh%list_elem_of_singleton. naive_solver.
  - apply NoDup_singleton.
Qed.
(** Where a host is from the newest end: [n] hosts were caught since. *)
Definition caught_since (l : list str) (h : str) (n : nat) : Prop := exists a b, l = a ++ h :: b /\ length b = n.
Lemma poison_since l h x n : caught_since l x n -> Z.of_nat (S n) < POISONED_MAX ->
  x = h \/ exists m, (m <= S n)%nat /\ caught_since (poison_host l h) x m.
Proof.
  intros (a & b & -> & Hn) Hm. destruct (decide (x = h)) as [|Hne]; [by left|right].
  unfold poison_host, keep_newest. rewrite List.filter_app. cbn [List.filter]. rewrite bool_decide_eq_false_2 by done. cbn [negb].
  set (f := List.filter _ a). set (c := List.filter _ b).
  assert (Hc : (length c <= length b)%nat) by apply List.filter_length_le.
  exists (length (c ++ [h])). split; [rewrite length_app; cbn [length]; lia|].
  exists (drop (length ((f ++ x :: c) ++ [h]) - Z.to_nat POISONED_MAX) f), (c ++ [h]). split; [|done].
  rewrite <- (app_assoc f). rewrite drop_app_le; [done|]. unfold POISONED_MAX in *. rewrite !length_app. cbn [length]. rewrite ?length_app. cbn [length]. lia.
Qed.
Lemma poison_newest l h : caught_since (poison_host l h) h 0.
Proof.
  unfold poison_host, keep_newest. fold (others_of l h). exists (drop (length (others_of l h ++ [h]) - Z.to_nat POISONED_MAX) (others_of l h)), [].
  split; [|done]. rewrite drop_app_le; [done|]. rewrite length_app. unfold POISONED_MAX. cbn [length]. lia.
Qed.

Lemma remembered caught h later : Z.of_nat (length later) < POISONED_MAX -> h ∈ fold_left poison_host later (poison_host caught h).
Proof.
  assert (Hs : forall later l n, caught_since l h n -> Z.of_nat (n + length later) < POISONED_MAX -> h ∈ fold_left poison_host later l).
  { clear. intros later. induction later as [|k later IH]; intros l n Hl Hlen; cbn [fold_left length] in *.
    - destruct Hl as (a & b & -> & _). set_solver.
    - destruct (poison_since l k h n Hl ltac:(lia)) as [->|(m & Hm & Hl')].
      + apply (IH _ 0%nat (poison_newest l k)). lia.
      + apply (IH _ m Hl'). lia. }
  intros Hlen. apply (Hs _ _ 0%nat (poison_newest caught h)). lia.
Qed.

(** C31: A host caught resolving to an internal address stays refused through at
    least 4095 later catches of any hosts, however often each is caught; and the
    list keeps no duplicate and never holds more than 4096. *)
Theorem poison_remembers caught h later : NoDup caught ->
  let now := fold_left poison_host later (poison_host caught h) in
  (Z.of_nat (length later) < POISONED_MAX -> h ∈ now)
  /\ NoDup now /\ Z.of_nat (length now) <= POISONED_MAX
  /\ forall x, x ∈ now -> x ∈ caught \/ x = h \/ x ∈ later.
Proof.
  intros Hnd now. assert (Hrun : forall later l, NoDup l -> Z.of_nat (length l) <= POISONED_MAX ->
    let now := fold_left poison_host later l in NoDup now /\ Z.of_nat (length now) <= POISONED_MAX /\ forall x, x ∈ now -> x ∈ l \/ x ∈ later).
  { clear. intros later. induction later as [|k later IH]; intros l Hn Hl; cbn [fold_left]; [split_and!; [done..|by left]|].
    destruct (IH (poison_host l k)) as (H1 & H2 & H3); [by apply poison_nodup|by apply keep_newest_length|]. split_and!; [done..|].
    intros x Hx. destruct (H3 x Hx) as [Hp|]; [|right; set_solver]. apply keep_newest_sub in Hp. apply elem_of_app in Hp as [Hp|Hp].
    - left. by apply others_of_elem in Hp as [? _].
    - right. set_solver. }
  destruct (Hrun later (poison_host caught h)) as (H1 & H2 & H3); [by apply poison_nodup|by apply keep_newest_length|]. split_and!; [|done..|].
  - apply remembered.
  - intros x Hx. destruct (H3 x Hx) as [Hp|]; [|by right; right]. apply keep_newest_sub in Hp. apply elem_of_app in Hp as [Hp|Hp].
    + left. by apply others_of_elem in Hp as [? _].
    + right. left. by apply list_elem_of_singleton in Hp.
Qed.

(** ** The buckets *)

(** The hosts tracked, and what one check does to them. *)
Lemma bucket_of_keys b host burst now : NoDup (im_keys b) -> Z.of_nat (length b) <= RATE_MAX_HOSTS ->
  let '(before, bucket) := bucket_of b host burst now in
  NoDup (im_keys before) /\ (host ∉ im_keys before) /\ Z.of_nat (length before) < RATE_MAX_HOSTS
  /\ (forall k, k ∈ im_keys before -> k ∈ im_keys b)
  /\ (Z.of_nat (length b) < RATE_MAX_HOSTS \/ host ∈ im_keys b -> forall k, k <> host -> im_get before k = im_get b k).
Proof.
  intros Hn Hl. unfold bucket_of. destruct (im_get b host) as [bucket|] eqn:Eg.
  - assert (Hin : host ∈ im_keys b) by (apply im_get_keys; eauto). pose proof (im_remove_keys b host) as Hk. split_and!.
    + rewrite Hk. by apply NoDup_filter_list.
    + rewrite Hk. intros Hx%others_of_elem. naive_solver.
    + assert (length (im_remove b host) < length b)%nat; [|lia].
      rewrite <- (length_map fst (im_remove b host)). fold (im_keys (im_remove b host)). rewrite Hk, <- (length_map fst b). fold (im_keys b).
      apply list_elem_of_split in Hin as (l1 & l2 & ->). rewrite List.filter_app. cbn [List.filter]. rewrite bool_decide_eq_true_2 by done.
      cbn [negb]. rewrite !length_app. cbn [length].
      pose proof (List.filter_length_le (fun k' : str => negb (bool_decide (k' = host))) l1).
      pose proof (List.filter_length_le (fun k' : str => negb (bool_decide (k' = host))) l2). lia.
    + intros k Hx. rewrite Hk in Hx. by apply others_of_elem in Hx as [? _].
    + intros _ k Hne. pose proof (im_remove_get b host k Hn) as Hr. rewrite Hr. by rewrite bool_decide_eq_false_2.
  - assert (Hin : host ∉ im_keys b) by (intros Hin; apply im_get_keys in Hin as [? ?]; congruence).
    assert (Hsub : forall k, k ∈ im_keys (keep_newest (RATE_MAX_HOSTS - 1) b) -> k ∈ im_keys b).
    { intros k Hx. unfold im_keys in *. apply list_elem_of_fmap in Hx as (e & -> & He). apply list_elem_of_fmap. exists e. split; [done|by apply keep_newest_sub in He]. }
    split_and!.
    + unfold keep_newest, im_keys. rewrite <- skipn_map. by apply NoDup_drop.
    + intros Hx. by apply Hin, Hsub.
    + pose proof (keep_newest_length (RATE_MAX_HOSTS - 1) b). unfold RATE_MAX_HOSTS in *. lia.
    + done.
    + intros [Hlt|] k _; [|done]. by rewrite keep_newest_small by lia.
Qed.

(** One check of the rate limiter keeps the buckets at most 4096, one per host,
    the host just checked last; it touches no other host's bucket unless a new host
    arrives when 4096 are tracked, and then only forgets the one unused longest;
    and a rate of zero never refuses. *)
Theorem rate_check b host rate burst now : NoDup (im_keys b) -> Z.of_nat (length b) <= RATE_MAX_HOSTS ->
  let '(b', ok) := check b host rate burst now in
  NoDup (im_keys b') /\ Z.of_nat (length b') <= RATE_MAX_HOSTS
  /\ (forall k, k ∈ im_keys b' -> k = host \/ k ∈ im_keys b)
  /\ (Z.of_nat (length b) < RATE_MAX_HOSTS \/ host ∈ im_keys b -> forall k, k <> host -> im_get b' k = im_get b k)
  /\ (ok = false -> exists tokens, im_get b' host = Some (tokens, now) /\ ConfigValues.f64_geb tokens (ConfigValues.f64_of_int 1) = false)
  /\ (forall s, rate = S754_zero s -> ok = true /\ b' = b).
Proof.
  intros Hn Hl. destruct (check b host rate burst now) as [b' ok] eqn:E.
  destruct (match rate with S754_zero _ => true | _ => false end) eqn:Ez.
  { destruct rate; try discriminate. cbn in E. injection E as <- <-. split_and!; [done..|by right|done|done|done]. }
  assert (Hz : check b host rate burst now =
    (let '(before, (tokens, last_)) := bucket_of b host burst now in
      let elapsed := secs_f64 (saturating_sub now last_) in
      let tokens := Policy.f64_min burst (SFadd 53 1024 tokens (SFmul 53 1024 elapsed rate)) in
      if ConfigValues.f64_geb tokens (ConfigValues.f64_of_int 1)
      then (before ++ [(host, (SFsub 53 1024 tokens (ConfigValues.f64_of_int 1), now))], true)
      else (before ++ [(host, (tokens, now))], false))).
  { unfold check. by destruct rate. }
  rewrite Hz in E. pose proof (bucket_of_keys b host burst now Hn Hl) as Hb.
  destruct (bucket_of b host burst now) as [before [tokens last_]]. destruct Hb as (Hnd & Hnot & Hlen & Hsub & Hsame). cbv zeta in E.
  set (t := Policy.f64_min burst _) in E.
  assert (Hc : exists v, b' = before ++ [(host, v)] /\ (ok = false -> exists tk, v = (tk, now) /\ ConfigValues.f64_geb tk (ConfigValues.f64_of_int 1) = false)).
  { destruct (ConfigValues.f64_geb t _) eqn:Et; injection E as <- <-; eexists; (split; [reflexivity|]); [done|]. intros _. by exists t. }
  destruct Hc as (v & -> & Hv). assert (Hget : im_get before host = None) by (by apply im_get_none).
  assert (Hlast : im_get (before ++ [(host, v)]) host = Some v).
  { clear - Hget. induction before as [|[k w] before IH]; cbn [app im_get] in *; [by rewrite bool_decide_eq_true_2|].
    case_bool_decide; [done|by apply IH]. }
  split_and!.
  - rewrite im_keys_app. cbn. apply NoDup_app. split_and!; [done| |apply NoDup_singleton]. intros k Hk ->%list_elem_of_singleton. done.
  - rewrite length_app. cbn [length]. lia.
  - intros k. rewrite im_keys_app. intros [Hk|Hk]%elem_of_app; [right; by apply Hsub|left]. by apply list_elem_of_singleton in Hk.
  - intros Hc k Hne. rewrite <- (Hsame Hc k Hne). clear - Hne. induction before as [|[k' w] before IH]; cbn [app im_get].
    + by rewrite bool_decide_eq_false_2.
    + by case_bool_decide.
  - intros Hf. destruct (Hv Hf) as (tk & -> & Ht). exists tk. by split.
  - intros s ->. discriminate Ez.
Qed.

(** ** Records and redaction *)

Section Engine.
Context `{Unicode} `{Policy.UnicodeUpper} `{F64Text} `{StrDebug} `{Secrets.RegexEngine} `{Secrets.Env} `{Entropy.Log2}.
Context `{Chain.PluginLoader} `{Forms.Crates} `{BodyCodec.Codecs} `{Rules.Transforms} `{Policy.OverlayFile} `{Capture.MappingEq}.
Context (BASE64_RE : Secrets.Regex).

(** What redacting leaves of an injector: it only forgets retired rules. *)
Definition same_rules (i i' : Rules.Injector) : Prop :=
  Rules.rules i' = Rules.rules i /\ Rules.redact_to i' = Rules.redact_to i /\ Rules.transforms i' = Rules.transforms i
  /\ forall r, r ∈ Rules.retired i' -> r ∈ Rules.retired i.
Lemma same_rules_refl i : same_rules i i.
Proof. by split_and!. Qed.
Lemma same_rules_trans i j k : same_rules i j -> same_rules j k -> same_rules i k.
Proof. intros (A1 & A2 & A3 & A4) (B1 & B2 & B3 & B4). split_and!; [congruence..|]. intros r Hr. by apply A4, B4. Qed.
Lemma minted_same w i : same_rules i (Rules.minted w i).1.
Proof.
  unfold Rules.minted, Rules.live_retired. cbn. split_and!; [done..|].
  intros r. cbn. rewrite list_elem_of_In, filter_In, <- list_elem_of_In. tauto.
Qed.
Lemma redaction_forms_same w i : same_rules i (Injector.redaction_forms w i).1.
Proof.
  unfold Injector.redaction_forms, Rules.redaction_targets. pose proof (minted_same w i) as Hs. by destruct (Rules.minted w i).
Qed.
Lemma redact_json_same w i j : same_rules i (Injector.redact_json w i j).1.
Proof.
  unfold Injector.redact_json. destruct (negb _); [apply same_rules_refl|]. pose proof (redaction_forms_same w i) as Hs.
  by destruct (Injector.redaction_forms w i).
Qed.
Lemma redact_text_same w i t : same_rules i (Injector.injector_redact_text w i t).1.
Proof.
  unfold Injector.injector_redact_text. destruct (negb _); [apply same_rules_refl|]. pose proof (redaction_forms_same w i) as Hs.
  by destruct (Injector.redaction_forms w i).
Qed.

Lemma check_same w i req : same_rules i (Injector.check_injection_policy w i req).1.
Proof.
  unfold Injector.check_injection_policy, Injector.check_policy. destruct (negb _); [apply same_rules_refl|].
  destruct (Injector.redacts_to _ _); [apply same_rules_refl|]. destruct (Injector.check_real _ _ _ _ _) as [[b [v|]]|]; [apply same_rules_refl| |apply same_rules_refl].
  pose proof (minted_same w i) as Hs. by destruct (Rules.minted w i).
Qed.

(** Everything a flow or a reload can see of an engine but its audit trail, its
    reload marks and the retired rules forgotten. *)
Definition behind (g : Engine) :=
  (live g, epoch g, domain g, policy g, policy_files g, capture g, transforms g, rate g, poisoned g, transport g, relay_jobs g).
Definition same_engine (g g' : Engine) : Prop := behind g' = behind g /\ same_rules (injector g) (injector g').
Lemma behind_eq g g' : behind g' = behind g -> live g' = live g /\ domain g' = domain g /\ policy g' = policy g /\ capture g' = capture g
  /\ transforms g' = transforms g /\ rate g' = rate g /\ poisoned g' = poisoned g.
Proof. unfold behind. intros [=]. by split_and!. Qed.
Lemma same_engine_refl g : same_engine g g.
Proof. split; [done|apply same_rules_refl]. Qed.
Lemma same_engine_trans g1 g2 g3 : same_engine g1 g2 -> same_engine g2 g3 -> same_engine g1 g3.
Proof. intros [E1 S1] [E2 S2]. split; [congruence|by eapply same_rules_trans]. Qed.

(** One record written: its line last on stderr. *)
Definition one_line (g g' : Engine) : Prop := exists line, stderr (audit g') = stderr (audit g) ++ [line].
Lemma emit_spec e r g : let g' := emit (AuditSink := engine_sink e) r g in
  same_engine g g' /\ applied g' = applied g /\ reported g' = reported g
  /\ stderr (audit g') = stderr (audit g) ++ [audit_line (with_ts (clock e) (Injector.redact_json (transforms g) (injector g) r).2)].
Proof.
  cbn [emit engine_sink]. pose proof (redact_json_same (transforms g) (injector g) r) as Hs.
  destruct (Injector.redact_json _ _ r) as [i red]. cbn [fst] in Hs. by split_and!.
Qed.

(** ** Reload *)

Definition failed_load (e : Env) (error : str) : Prop :=
  config_load e = Err error \/ exists cfg, config_load e = Ok cfg /\ prepare BASE64_RE cfg = Some (Err error).

Lemma report_spec e path stamp error g : let g' := report e path stamp error g in
  same_engine g g' /\ applied g' = applied g /\ reported g' = Some stamp
  /\ (if bool_decide (reported g = Some stamp) then stderr (audit g') = stderr (audit g) else one_line g g').
Proof.
  unfold report. case_bool_decide as E; [split_and!; [apply same_engine_refl|done..]|]. cbv zeta.
  pose proof (emit_spec e (config_reload_failed (clock e) path error) (set_reload g (applied g) (Some stamp))) as (Hs & Ha & Hr & Hl).
  split_and!; [|done..|by eexists]. eapply same_engine_trans; [|exact Hs]. split; [done|apply same_rules_refl].
Qed.

(** C14: A reload whose file cannot be read, parsed or built into a chain keeps the
    last good configuration whole: the chain, the grants, the policy API, the
    rules, the capture settings, the buckets and the poisoned hosts stay as they
    were; one record says so, once per version of the file.  A file that could not
    be read is tried again, one that could not be built is not until it changes;
    and a reload that succeeds installs the chain built from the file, under a new
    epoch. *)
Theorem reload_keeps_last_good e free g g' path stamp : config_path e = Some path -> config_mtime e = Some stamp ->
  applied g <> Some stamp -> reload_if_changed BASE64_RE e free g = Some g' ->
  (free = false -> g' = g)
  /\ (free = true -> forall error, failed_load e error ->
        same_engine g g' /\ reported g' = Some stamp
        /\ applied g' = (match config_load e with Ok _ => Some stamp | Err _ => applied g end)
        /\ (if bool_decide (reported g = Some stamp) then stderr (audit g') = stderr (audit g) else one_line g g'))
  /\ (free = true -> forall cfg p, config_load e = Ok cfg -> prepare BASE64_RE cfg = Some (Ok p) ->
        applied g' = Some stamp /\ epoch g' = epoch g + 1 /\ l_cfg (live g') = p_cfg p /\ l_chain (live g') = Chain.chain (p_chain p)
        /\ rate g' = rate g /\ poisoned g' = poisoned g /\ audit g' = audit g).
Proof.
  intros Hp Hm Ha Hr. unfold reload_if_changed in Hr. rewrite Hp, Hm, (bool_decide_eq_false_2 _ Ha), orb_false_r in Hr.
  split_and!.
  - intros ->. by injection Hr as <-.
  - intros -> error [El|(cfg & El & Ep)]; rewrite El in *; cbn [negb] in Hr.
    + injection Hr as <-. destruct (report_spec e path stamp error g) as (K1 & K2 & K3 & K4). by split_and!.
    + rewrite Ep in Hr. injection Hr as <-.
      destruct (report_spec e path stamp error (set_reload g (Some stamp) (reported g))) as (K1 & K2 & K3 & K4).
      split_and!; [|done..]. eapply same_engine_trans; [|exact K1]. split; [done|apply same_rules_refl].
  - intros -> cfg p El Ep. rewrite El, Ep in Hr. cbn [negb] in Hr. injection Hr as <-. unfold apply.
    cbn [Chain.commit]. destruct (Rules.configure_with _ _ _) as [w i].
    unfold apply_limits, apply_policy, set_policy, set_live. cbv zeta.
    destruct (negb _); [by split_and!|]. destruct (policy_api _) as [api|].
    + by destruct (Policy.reconfigure _ _ _ _ _); split_and!.
    + by destruct (Policy.new_api _ _ _ _ _); split_and!.
Qed.

(** ** Boot *)

Lemma refuse_spec reason l : refuse reason = Some l ->
  l_passthrough l = Transport.no_passthrough /\ exists secrets,
    l_chain l = Chain.mkChain [Chain.Own (Chain.refuse_all_inspector (lit "egress inspector chain failed to load: " ++ reason))]
      [Chain.mkSlot Chain.REFUSE_ALL Chain.Builtin VNull] secrets [].
Proof.
  unfold refuse, Chain.refuse_all. destruct (Secrets.from_config VNull) as [[secrets|]|]; [|done..]. intros [= <-].
  split; [done|]. by exists secrets.
Qed.

(** C13: A process whose first configuration cannot be used does not start open: the
    chain it runs blocks every request and every response, nothing passes around
    it, there is no policy API to grant anything, the failure is on record, and the
    file is tried again at the next reload. *)
Theorem boot_fails_closed e w a c files g path error : config_path e = Some path -> failed_load e error ->
  boot BASE64_RE e w a c files = Some g ->
  (forall st now ctx phase, Inspect.blocked (Inspect.run_chain (Chain.inspectors st now (l_chain (live g))) ctx phase (fun _ => false)).1 = true)
  /\ (forall st now, Chain.chain_inspects_responses st now (l_chain (live g)) = true)
  /\ (forall candidate, Transport.matches (l_passthrough (live g)) candidate = false)
  /\ policy g = None
  /\ (exists line, stderr (audit g) = stderr a ++ [line])
  /\ (forall e', is_Some (config_path e') -> is_Some (config_mtime e') -> config_changed e' g = true).
Proof.
  intros Hp Hf Hb. unfold boot in Hb. destruct (refuse (lit "no config loaded yet")) as [l0|]; [|done]. rewrite Hp in Hb.
  assert (El : exists l, refuse error = Some l /\ g =
    emit (AuditSink := engine_sink e) (config_reload_failed (clock e) path error)
      (set_reload (set_live (mkEngine l0 0 None None a Rules.new_injector w c DomainInspector.new_state None files [] [] None []) l) None (config_mtime e))).
  { destruct Hf as [El|(cfg & El & Ep)]; rewrite El in Hb; [|rewrite Ep in Hb]; (destruct (refuse error) as [l|]; [|done]); injection Hb as <-; by exists l. }
  destruct El as (l & Hl & ->). destruct (refuse_spec error l Hl) as (Hpt & secrets & Hc).
  match goal with |- context [emit ?r ?x] => destruct (emit_spec e r x) as ([Hs _] & Ha & _ & Hline) end.
  apply behind_eq in Hs as (Hlive & _ & Hpol & _). cbn [live set_reload set_live policy] in Hlive, Hpol. rewrite Hlive, Hc, Hpt. split_and!; [by intros ? ? ? []|done|done|exact Hpol|eexists; exact Hline|].
  intros e' [p' E1] [m' E2]. unfold config_changed. rewrite Ha, E1, E2. reflexivity.
Qed.
End Engine.

(** ** Concrete engines *)

Section EngineInstances.
Import Samples.
#[local] Existing Instances unicode upper floats debug regexes variables logarithm plugins crates codecs transforms_ overlay_file mappings.

Lemma poison_remembers_witness : lit "b.test" ∈ fold_left poison_host [lit "c.test"; lit "a.test"] (poison_host [lit "a.test"] (lit "b.test")).
Proof.
  apply (poison_remembers [lit "a.test"] (lit "b.test") [lit "c.test"; lit "a.test"]); [apply NoDup_singleton|reflexivity].
Defined.
(** Two requests at once under a burst of one: the second is refused. *)
Lemma rate_check_witness :
  let one := ConfigValues.f64_of_int 1 in
  let b := (check [] (lit "a.test") one one 0).1 in
  (check b (lit "a.test") one one 0).2 = false /\ exists tokens, im_get (check b (lit "a.test") one one 0).1 (lit "a.test") = Some (tokens, 0).
Proof.
  intros one b. assert (Hn : NoDup (im_keys b)) by (apply (bool_decide_unpack _); by vm_compute).
  pose proof (rate_check b (lit "a.test") one one 0 Hn ltac:(by vm_compute)) as Hr.
  destruct (check b (lit "a.test") one one 0) as [b' ok] eqn:E. assert (Hok : ok = false) by (vm_compute in E; by injection E as _ <-).
  split; [exact Hok|]. destruct Hr as (_ & _ & _ & _ & Hf & _). destruct (Hf Hok) as (tokens & Ht & _). by exists tokens.
Defined.
Lemma reload_keeps_last_good_witness : exists g g', start 1 (Ok small_config) = Some g
  /\ reload_if_changed re (moment 2 (Err (lit "not YAML"))) true g = Some g' /\ same_engine g g' /\ one_line g g'.
Proof.
  destruct (is_some_ex (start 1 (Ok small_config)) ltac:(by vm_compute)) as [g Hg]. exists g.
  assert (Ha : bool_decide (applied g = Some 2) = false /\ bool_decide (reported g = Some 2) = false).
  { assert (Hm : option_map (fun g => (bool_decide (applied g = Some 2), bool_decide (reported g = Some 2))) (start 1 (Ok small_config)) = Some (false, false))
      by (vm_compute; reflexivity). rewrite Hg in Hm. by injection Hm. }
  destruct Ha as [Ha Hr]. apply bool_decide_eq_false in Ha.
  set (e := moment 2 (Err (lit "not YAML"))).
  destruct (reload_if_changed re e true g) as [g'|] eqn:E.
  - exists g'. split; [exact Hg|]. split; [reflexivity|].
    destruct (reload_keeps_last_good re e true g g' (lit "/etc/egress.yaml") 2 eq_refl eq_refl Ha E) as (_ & Hf & _).
    destruct (Hf eq_refl (lit "not YAML") (or_introl eq_refl)) as (H1 & _ & _ & H2). rewrite Hr in H2. by split.
  - exfalso. unfold reload_if_changed in E. cbn [config_path config_mtime config_load e moment] in E.
    rewrite (bool_decide_eq_false_2 _ Ha) in E. discriminate E.
Defined.
Lemma boot_fails_closed_witness : exists g, start 1 (Ok broken_config) = Some g /\ policy g = None
  /\ forall st now ctx, Inspect.blocked (Inspect.run_chain (Chain.inspectors st now (l_chain (live g))) ctx Inspect.Request (fun _ => false)).1 = true.
Proof.
  destruct (is_some_ex (start 1 (Ok broken_config)) ltac:(by vm_compute)) as [g Hg]. exists g. split; [exact Hg|].
  assert (Hp : exists error, prepare re broken_config = Some (Err error)).
  { assert (Hm : match prepare re broken_config with Some (Err _) => true | _ => false end = true) by (vm_compute; reflexivity).
    destruct (prepare re broken_config) as [[p|error]|]; [discriminate|by exists error|discriminate]. }
  destruct Hp as [error Hp].
  destruct (boot_fails_closed re (moment 1 (Ok broken_config)) RulesSpec.sample_world writer no_capture no_files g (lit "/etc/egress.yaml") error
              eq_refl (or_intror (ex_intro _ broken_config (conj eq_refl Hp))) Hg) as (H1 & _ & _ & H2 & _).
  split; [exact H2|]. intros st now ctx. apply H1.
Defined.
End EngineInstances.
