(* ===== verification/FlowSpec.v ===== *)
(** What the pipeline guarantees of one flow: a request is forwarded only past
    every gate, a failure answers instead, no secret leaves for a host it is not
    for, and a granted name never reaches an internal address. *)
From S2P Require Import Prelude Utf8 Domain Json Value DateTime Message AuditLog Engine EngineSpec Flow.
From S2P Require Samples Timestamp Inspect DomainInspector Chain Secrets Entropy Settings Policy Forms BodyCodec StreamDecode Text.
From S2P Require Rules RulesSpec Injector InjectorSpec StreamRedact Capture Limits Transport FlowStream.
From Stdlib Require Import ZifyBool.

(** * Theorems *)

(** ** Effects *)

Lemma ebind_ok {S A B} (m : eff S A) (k : A -> eff S B) s s' b : ebind m k s = (s', Ok b) ->
  exists s1 a, m s = (s1, Ok a) /\ k a s1 = (s', Ok b).
Proof. unfold ebind. destruct (m s) as [s1 [a|err]]; [|done]. intros E. by exists s1, a. Qed.
Lemma ebind_err {S A B} (m : eff S A) (k : A -> eff S B) s s' err : ebind m k s = (s', Err err) ->
  m s = (s', Err err) \/ exists s1 a, m s = (s1, Ok a) /\ k a s1 = (s', Err err).
Proof. unfold ebind. destruct (m s) as [s1 [a|er]]; [|intros [= <- <-]; by left]. intros E. right. by exists s1, a. Qed.
Lemma efn_ok {S A} (f : S -> S * A) s s' r : efn f s = (s', r) <-> exists a, r = Ok a /\ f s = (s', a).
Proof. unfold efn. destruct (f s) as [s1 a]. split; [intros [= <- <-]; by exists a|intros (x & -> & E); injection E as <- <-; done]. Qed.
Lemma elift_ok {S A} (r : result str A) (s s' : S) x : elift r s = (s', x) <-> s' = s /\ r = x.
Proof. unfold elift. split; [intros [= <- <-]; done|intros [-> ->]; done]. Qed.
(** Runs the effects that depend on nothing. *)
Ltac effs H :=
  unfold the_request, of_engine, of_r_engine, set_request, set_r_request, set_r_response, set_content, ebind, eget, eret, eerr, efn, elift, emod,
    on_engine', on_engine, on_r_engine', on_r_engine, on_w_engine', on_w_engine in H; cbv beta iota in H.
(** One step of a run that succeeds. *)
Ltac step H s a E := apply ebind_ok in H as (s & a & E & H).

Section Flow.
Context `{Unicode} `{Policy.UnicodeUpper} `{F64Text} `{StrDebug} `{Secrets.RegexEngine} `{Secrets.Env} `{Entropy.Log2}.
Context `{Chain.PluginLoader} `{Forms.Crates} `{BodyCodec.Codecs} `{Rules.Transforms} `{Policy.OverlayFile} `{Capture.MappingEq}.
Context `{Text.BytesRegex} `{Text.EncodingRs}.
Context (BASE64_RE : Secrets.Regex).
Context (others : nat -> Engine -> Engine).

Lemma blocking_ok {S A} (on : (Engine -> Engine) -> S -> S) e n (f : S -> S * A) s s' a :
  blocking others on e n f s = (s', Ok a) ->
  worker_error e n = None /\ exists s1, f (on (others n) s) = (s1, a) /\ s' = on (others (n + 1)%nat) s1.
Proof.
  unfold blocking, await, ebind, emod. destruct (worker_error e n); [done|]. unfold efn, eret.
  destruct (f (on (others n) s)) as [s1 x]. intros [= <- <-]. split; [done|]. by exists s1.
Qed.
Lemma blocking_err {S A} (on : (Engine -> Engine) -> S -> S) e n (f : S -> S * A) s s' err :
  blocking others on e n f s = (s', Err err) -> s' = on (others n) s /\ exists w, worker_error e n = Some w.
Proof.
  unfold blocking, await, ebind, emod. destruct (worker_error e n) as [w|]; [|unfold efn, eret; by destruct (f _)].
  intros [= <- <-]. split; [done|by exists w].
Qed.
Lemma hold_copy_ok {S} (on : (Engine -> Engine) -> S -> S) e n s s' u : hold_copy others on e n s = (s', Ok u) ->
  s' = s \/ s' = on (others 4%nat) s.
Proof.
  unfold hold_copy. destruct (budget e) as [[limit grows]|]; [|intros [= <- _]; by left].
  unfold ebind, await, emod. destruct (grows n); [|done]. intros [= <- _]. by right.
Qed.

(** ** Admission *)

(** The request the gates judge: an outbound one follows its Host header. *)
Definition targeted (conn : Transport.ConnInfo) (req : Request) : Request :=
  if is_inbound conn then req else (Transport.retarget_to_host req).1.
(** The request injection starts from. *)
Definition cleaned (conn : Transport.ConnInfo) (req : Request) : Request :=
  if is_inbound conn then reverse_headers conn req else req.

Lemma gates_pass e conn l s s' : gates e conn l s = (s', Ok None) ->
  request_ s' = targeted conn (request_ s)
  /\ (is_inbound conn = false -> forall sni hh, named_hosts conn (request_ s) = Some (sni, hh) -> normalise sni = normalise (host_header_name hh))
  /\ rate_allows (env e) (host (targeted conn (request_ s))) l (engine s) = (engine s', true)
  /\ is_poisoned (engine s') (normalise (host (targeted conn (request_ s)))) = false.
Proof.
  unfold gates. intros Hg. step Hg s1 refused Hr.
  assert (Hf : refused = None -> s1 = mkReqState (engine s) (targeted conn (request_ s))
    /\ (is_inbound conn = false -> forall sni hh, named_hosts conn (request_ s) = Some (sni, hh) -> normalise sni = normalise (host_header_name hh))).
  { intros ->. unfold targeted. destruct (is_inbound conn); [injection Hr as <-; split; [by destruct s|done]|].
    effs Hr. unfold sni_host_mismatch in Hr.
    destruct (named_hosts conn (request_ s)) as [[sni hh]|] eqn:En.
    - case_bool_decide as Eb; [|done]. cbn in Hr. injection Hr as <-. split; [done|]. intros _ sni' hh' [= <- <-]. exact Eb.
    - cbn in Hr. injection Hr as <-. by split. }
  destruct refused as [r|]; [done|]. destruct (Hf eq_refl) as [-> Hm]. clear Hf Hr.
  effs Hg. cbn [engine request_] in Hg. unfold host_gates in Hg.
  destruct (rate_allows _ _ _ _) as [g allowed] eqn:Ea. destruct allowed; cbn [negb] in Hg; [|done].
  destruct (is_poisoned g _) eqn:Ep; [done|]. injection Hg as <-. cbn [engine request_]. by split_and!.
Qed.

Lemma control_passes e conn s s' : control others e conn s = (s', Ok None) ->
  s' = s /\ control_taken conn (request_ s) (engine s) = None.
Proof.
  unfold control. intros Hc. step Hc s1 req Hr. effs Hr. injection Hr as <- <-. step Hc s1 taken Ht. effs Ht. injection Ht as <- <-.
  destruct (control_taken conn (request_ s) (engine s)) as [api|]; [|by injection Hc as <-].
  exfalso. destruct (blocking _ _ _ _ _ s) as [s1 [answer|err]]; [done|]. destruct (on_engine' _ s1) as [s2 r]. done.
Qed.

(** The content the inspectors are shown. *)
Lemma held_context_ok e d s s' ctx moved : held_context others e d s = (s', Ok (ctx, moved)) ->
  exists decoded, BodyCodec.decoded_body (headers (request_ s)) (body (request_ s)) = Ok decoded
    /\ ctx = context (request_ s) (headers (request_ s)) (default (body (request_ s)) decoded) d
    /\ request_ s' = (if moved then Transport.with_body (request_ s) [] else request_ s)
    /\ (moved = true -> decoded = None)
    /\ (engine s' = engine s \/ engine s' = others 4%nat (engine s)).
Proof.
  unfold held_context. intros Hc. step Hc s1 req Hr. effs Hr. injection Hr as <- <-. step Hc s1 x Hx. effs Hx.
  injection Hx as <- Hx. destruct (request_context (request_ s) d) as [[[req ctx'] moved']|] eqn:Ec; [|done]. injection Hx as <-.
  step Hc s1 u Hu. effs Hu. injection Hu as <- _. step Hc s1 u' Hu. effs Hc. injection Hc as -> -> ->.
  unfold request_context in Ec. destruct (BodyCodec.decoded_body _ _) as [decoded|] eqn:Ed; [|done]. exists decoded. cbn [result_bind] in Ec.
  assert (Hs : request_ s' = req /\ (engine s' = engine s \/ engine s' = others 4%nat (engine s))).
  { apply hold_copy_ok in Hu as [->| ->]; split; try done; [by left|by right]. }
  destruct decoded as [decoded|]; injection Ec as <- <- <-; destruct Hs as [-> He]; by split_and!.
Qed.

Lemma reverse_headers_body conn req b : Transport.with_body (reverse_headers conn (Transport.with_body req b)) (body req) = reverse_headers conn req.
Proof. reflexivity. Qed.
Lemma with_body_same req b : Transport.with_body (Transport.with_body req b) (body req) = req.
Proof. by destruct req. Qed.

Lemma judge_ok e conn l s s' results source : judge others e conn l s = (s', Ok (results, source)) ->
  exists v decoded g,
    (Injector.check_injection_policy (transforms (engine s)) (injector (engine s)) (request_ s)).2 = Ok v
    /\ BodyCodec.decoded_body (headers (request_ s)) (body (request_ s)) = Ok decoded
    /\ results = opt_list v ++ (run_chain_on e l (add_prior (context (request_ s) (headers (request_ s)) (default (body (request_ s)) decoded)
                                                      (audit_direction conn)) v) Inspect.Request (is_inbound conn) g).1
    /\ request_ s' = cleaned conn (request_ s)
    /\ engine s' = others 7%nat g
    /\ (let g1 := set_injector (engine s) (transforms (engine s)) (Injector.check_injection_policy (transforms (engine s)) (injector (engine s)) (request_ s)).1 in
        g = others 6%nat g1 \/ g = others 6%nat (others 4%nat g1)).
Proof.
  unfold judge. intros Hc. step Hc s1 req Hr. effs Hr. injection Hr as <- <-. step Hc s1 checked Hk.
  apply efn_ok in Hk as (checked' & Ek & Hk). injection Ek as <-. unfold on_engine', with_injector in Hk.
  destruct (Injector.check_injection_policy _ _ (request_ s)) as [i checked'] eqn:Ei. injection Hk as <- <-. cbn [fst snd].
  step Hc s1 v Hv. apply elift_ok in Hv as [-> Hv]. destruct checked' as [v'|]; [|done]. injection Hv as <-.
  step Hc s1 x Hh. destruct x as [ctx moved]. apply held_context_ok in Hh as (decoded & Ed & -> & Eq & Hmv & Heng). cbn [request_ engine] in *.
  step Hc s2 req Hr. effs Hr. injection Hr as <- <-. step Hc s3 u Hu. effs Hu. injection Hu as <- _.
  set (ctx := add_prior _ _) in *. step Hc s2 y Hb. destruct y as [verdicts ctx']. apply blocking_ok in Hb as (_ & s4 & Hb & ->).
  unfold on_engine', on_engine in Hb. cbn [engine request_] in Hb.
  destruct (run_chain_on e l ctx Inspect.Request (is_inbound conn) (others 6%nat (engine s1))) as [vs c] eqn:Er. injection Hb as <- <- <-.
  step Hc s5 req Hr. effs Hr. injection Hr as <- <-. step Hc s6 u' Hu. effs Hu. injection Hu as <- _. effs Hc. injection Hc as <- <- _.
  exists v', decoded, (others 6%nat (engine s1)). fold ctx. rewrite Er. cbn [request_ engine on_engine]. split_and!; try done.
  - assert (Hctx : Inspect.body_bytes c = Some (default (body (request_ s)) decoded)).
    { unfold run_chain_on in Er. pose proof (Inspect.run_chain_context (chain_inspectors e l (is_inbound conn) (others 6%nat (engine s1))) ctx Inspect.Request (fun _ => false)) as Hx.
      rewrite Er in Hx. cbn [snd] in Hx. rewrite Hx. unfold ctx, add_prior. by destruct v'. }
    unfold restore_body, cleaned. rewrite Hctx. cbn [default from_option id]. rewrite Eq. destruct moved; [|by destruct (is_inbound conn)].
    rewrite (Hmv eq_refl). cbn [default from_option id]. destruct (is_inbound conn); [apply reverse_headers_body|apply with_body_same].
  - destruct Heng as [-> | ->]; [by left|by right].
Qed.

Lemma admit_ok e l d source results s s' f : admit_flow others e l d source results s = (s', Ok f) ->
  f = mkFlow (flow_id (fresh e)) d l
  /\ exists w i names, Injector.inject_request (transforms (others 8%nat (engine s))) (injector (others 8%nat (engine s))) (request_ s) = (w, i, request_ s', Ok names).
Proof.
  unfold admit_flow. intros Hc. step Hc s1 req Hr. effs Hr. injection Hr as <- <-. step Hc s1 snap Hr. effs Hr. injection Hr as <- <-.
  step Hc s1 injected Hi. unfold inject in Hi. destruct (blocking _ _ _ _ _ s) as [s2 [r|err]] eqn:Eb; [|done]. injection Hi as <- Hi.
  apply blocking_ok in Eb as (_ & s3 & Eb & ->). unfold inject_closure, on_engine in Eb. cbn [engine request_] in Eb.
  destruct (Injector.inject_request _ _ _) as [[[w i] req'] r'] eqn:Ej. injection Eb as <- <-. destruct r' as [names|]; [|done].
  step Hc s4 req Hr. effs Hr. injection Hr as <- <-. destruct (admitted results) as [decision reason].
  step Hc s5 u Hu. effs Hu. injection Hu as <- _. step Hc s6 u' Hu. effs Hc. injection Hc as <- <-. split; [done|]. exists w, i, names.
  destruct (Capture.snapshot_request _ _ _) as [snap|].
  - step Hu s7 insp Hx. effs Hu. injection Hu as <-. apply efn_ok in Hx as (? & _ & Hx). unfold on_engine' in Hx.
    destruct (redact_inspectors _ _) as [g a]. injection Hx as <- _. done.
  - effs Hu. by injection Hu as <-.
Qed.

Lemma reload_request e s : request_ (reload BASE64_RE others e s).1 = request_ s.
Proof.
  unfold reload. destruct (negb _); [done|]. unfold blocking, await, ebind, emod, efn, eret, eerr, on_engine. cbv zeta.
  destruct (worker_error e 0); [done|]. cbn [engine request_]. by destruct (reload_if_changed _ _ _ _).
Qed.

(** The engine at each point of a forwarded request: after a due reload, past the
    gates, when the chain runs, when injection runs. *)
Definition reloaded (e : FlowEnv) (s : ReqState) : Engine := engine (reload BASE64_RE others e s).1.
Definition gated (e : FlowEnv) (conn : Transport.ConnInfo) (s : ReqState) : Engine :=
  (rate_allows (env e) (host (targeted conn (request_ s))) (live (reloaded e s)) (reloaded e s)).1.
Definition checked (e : FlowEnv) (conn : Transport.ConnInfo) (s : ReqState) :=
  Injector.check_injection_policy (transforms (gated e conn s)) (injector (gated e conn s)) (targeted conn (request_ s)).
(** One of the two engines the chain may find: with or without the wait for room
    for a decoded copy. *)
Definition at_chain (e : FlowEnv) (conn : Transport.ConnInfo) (s : ReqState) (g : Engine) : Prop :=
  let g1 := set_injector (gated e conn s) (transforms (gated e conn s)) (checked e conn s).1 in
  g = others 6%nat g1 \/ g = others 6%nat (others 4%nat g1).

Record Admission (e : FlowEnv) (conn : Transport.ConnInfo) (s s' : ReqState) (f : Flow) : Prop := {
  ad_control : control_taken conn (request_ s) (reloaded e s) = None;
  ad_sni : is_inbound conn = false -> forall sni hh, named_hosts conn (request_ s) = Some (sni, hh) -> normalise sni = normalise (host_header_name hh);
  ad_rate : (rate_allows (env e) (host (targeted conn (request_ s))) (live (reloaded e s)) (reloaded e s)).2 = true;
  ad_poison : is_poisoned (gated e conn s) (normalise (host (targeted conn (request_ s)))) = false;
  ad_flow : f = mkFlow (flow_id (fresh e)) (audit_direction conn) (live (reloaded e s));
  ad_judged : exists v decoded g,
    (checked e conn s).2 = Ok v /\ InjectorSpec.unblocked v
    /\ BodyCodec.decoded_body (headers (targeted conn (request_ s))) (body (targeted conn (request_ s))) = Ok decoded
    /\ at_chain e conn s g
    /\ Inspect.blocked (run_chain_on e (live (reloaded e s))
         (add_prior (context (targeted conn (request_ s)) (headers (targeted conn (request_ s))) (default (body (targeted conn (request_ s))) decoded) (audit_direction conn)) v)
         Inspect.Request (is_inbound conn) g).1 = false
    /\ exists w i names, Injector.inject_request (transforms (others 8%nat (others 7%nat g))) (injector (others 8%nat (others 7%nat g)))
         (cleaned conn (targeted conn (request_ s))) = (w, i, request_ s', Ok names)
}.

Lemma forwarded e conn s s' f : request BASE64_RE others e conn s = (s', Transport.Forward f) -> Admission e conn s s' f.
Proof.
  unfold request. intros Hr. destruct (request_inner BASE64_RE others e conn s) as [s1 [action|err]] eqn:Hi.
  2:{ by destruct (internal_error _ _ _ _ _). }
  injection Hr as <- ->. unfold request_inner in Hi. step Hi s2 u Hl. assert (Es : s2 = (reload BASE64_RE others e s).1) by (by rewrite Hl).
  assert (Er : request_ s2 = request_ s) by (by rewrite Es, reload_request). assert (Ee : engine s2 = reloaded e s) by (by rewrite Es).
  clear Es Hl. step Hi s3 answered Hc. destruct answered as [resp|]; [done|]. apply control_passes in Hc as [-> Hc]. rewrite Er, Ee in Hc.
  step Hi s3 l Ho. effs Ho. injection Ho as <- <-. rewrite Ee in Hi. step Hi s4 refused Hg. destruct refused as [resp|]; [done|].
  apply gates_pass in Hg as (Et & Hsni & Hrate & Hpois). rewrite Er, Ee in *.
  assert (E4 : engine s4 = gated e conn s) by (unfold gated; by rewrite Hrate). rewrite E4 in *.
  unfold verdict_step in Hi. step Hi s5 x Hj. destruct x as [results source]. destruct (Inspect.blocked results) eqn:Eb.
  { step Hi s6 resp Hx. done. }
  step Hi s6 flow Ha. effs Hi. injection Hi as -> ->. apply judge_ok in Hj as (v & decoded & g & Hv & Hd & -> & Hq & He & Hg). rewrite E4, Et in *.
  apply admit_ok in Ha as (Ef & w & i & names & Hinj). rewrite He, Hq in Hinj.
  rewrite Inspect.blocked_app in Eb. apply orb_false_iff in Eb as [Eb1 Eb2].
  split; [done|done|by rewrite Hrate|done|done|]. exists v, decoded, g. split_and!; [done| |done|done|done|].
  - destruct v as [v|]; [|done]. cbn in Eb1 |- *. by rewrite orb_false_r in Eb1.
  - by exists w, i, names.
Qed.

(** ** What a live chain is *)

(** The chain of a configuration that built, or the one that refuses everything. *)
Definition vetted (l : Live) : Prop :=
  (exists cfg p, Chain.build_chain BASE64_RE cfg = Some (Ok p) /\ l_chain l = Chain.chain p)
  \/ exists reason, Chain.refuse_all reason = Some (l_chain l).

Lemma domain_blocks st host now v : DomainInspector.inspect_host_at st host now = Some v -> Inspect.is_block v = true.
Proof. unfold DomainInspector.inspect_host_at. intros Hv. repeat case_in Hv; try discriminate; by injection Hv as <-. Qed.

Lemma vetted_domain e l ctx g : Secrets.BUILTINS <> None -> vetted l ->
  Inspect.blocked (run_chain_on e l ctx Inspect.Request false g).1 = false ->
  DomainInspector.inspect_host_at (domain g) (Inspect.host ctx) (chain_now (env e)) = None.
Proof.
  intros HB Hl Hb. unfold run_chain_on, chain_inspectors in Hb.
  assert (Hall : forall ms : list Chain.Member, List.filter (fun m => negb (false && Chain.is_domain m)) ms = ms)
    by (intros ms; induction ms as [|m ms IH]; [done|]; cbn in IH |- *; by rewrite IH).
  rewrite Hall in Hb. destruct Hl as [(cfg & p & Hp & El)|(reason & Hr)].
  - destruct (Chain.build_chain_shape BASE64_RE cfg HB) as [_ Hs]. destruct (Hs p Hp) as (_ & d & sec & rest & own & _ & _ & _ & Hm & _).
    rewrite El, Hm in Hb. cbn [map Chain.member_inspector Inspect.run_chain Inspect.ask] in Hb.
    cbn [Inspect.inspect_request DomainInspector.domain_inspector Inspect.request_inspector] in Hb.
    destruct (DomainInspector.inspect_host_at _ _ _) as [v|] eqn:Ev; [|done]. rewrite (domain_blocks _ _ _ _ Ev) in Hb.
    cbn in Hb. by rewrite (domain_blocks _ _ _ _ Ev) in Hb.
  - unfold Chain.refuse_all in Hr. destruct (Secrets.from_config VNull) as [[secrets|]|]; [|done..]. injection Hr as Hr. by rewrite <- Hr in Hb.
Qed.

(** Booting and reloading keep the live chain vetted. *)
Lemma prepare_built cfg p : prepare BASE64_RE cfg = Some (Ok p) -> Chain.build_chain BASE64_RE cfg = Some (Ok (p_chain p)).
Proof.
  unfold prepare. destruct (Limits.from_yaml _) as [limits|]; [|done]. destruct (Chain.build_chain BASE64_RE cfg) as [[ch|]|]; [|done..].
  cbn [result_bind]. destruct (parse_rate cfg) as [rb|]; [|done]. by intros [= <-].
Qed.
Lemma apply_live ev p g : l_chain (live (apply ev p g)) = Chain.chain (p_chain p).
Proof.
  unfold apply. cbn [Chain.commit]. destruct (Rules.configure_with _ _ _) as [w i]. unfold apply_limits, apply_policy, set_policy, set_live. cbv zeta.
  destruct (negb _); [done|]. destruct (policy_api _) as [api|]; [by destruct (Policy.reconfigure _ _ _ _ _)|by destruct (Policy.new_api _ _ _ _ _)].
Qed.
Lemma applied_vetted ev cfg p g : prepare BASE64_RE cfg = Some (Ok p) -> vetted (live (apply ev p g)).
Proof. intros Hp. left. exists cfg, (p_chain p). split; [by apply prepare_built|apply apply_live]. Qed.
Lemma emit_live ev r g : live (emit (AuditSink := engine_sink ev) r g) = live g.
Proof. destruct (emit_spec ev r g) as ([Hb _] & _). by apply behind_eq in Hb as [? _]. Qed.
Lemma report_live ev path stamp error g : live (report ev path stamp error g) = live g.
Proof.
  unfold report. case_bool_decide; [done|]. by rewrite emit_live.
Qed.
Lemma reload_vetted ev free g g' : vetted (live g) -> reload_if_changed BASE64_RE ev free g = Some g' -> vetted (live g').
Proof.
  unfold reload_if_changed. intros Hv. destruct (config_path ev) as [path|]; [|by intros [= <-]]. destruct (config_mtime ev) as [stamp|]; [|by intros [= <-]].
  destruct (negb free || _); [by intros [= <-]|]. destruct (config_load ev) as [cfg|error]; [|intros [= <-]; by rewrite report_live].
  destruct (prepare BASE64_RE cfg) as [[p|error]|] eqn:Ep; [intros [= <-]; by eapply applied_vetted| |done]. intros [= <-]. by rewrite report_live.
Qed.
Lemma refuse_vetted reason l : refuse reason = Some l -> vetted l.
Proof.
  unfold refuse. intros Hr. right. exists reason. destruct (Chain.refuse_all reason) as [ch|]; [|done]. by injection Hr as <-.
Qed.
Lemma boot_vetted ev w a c files g : boot BASE64_RE ev w a c files = Some g -> vetted (live g).
Proof.
  unfold boot. destruct (refuse _) as [l0|]; [|done]. destruct (config_path ev) as [path|].
  - intros Hb.
    destruct (match config_load ev with Ok cfg => prepare BASE64_RE cfg | Err error => Some (Err error) end) as [[p|error]|] eqn:Ep; [| |done].
    + injection Hb as <-. destruct (config_load ev) as [cfg|]; [|done]. by eapply applied_vetted.
    + destruct (refuse error) as [l|] eqn:El; [|done]. injection Hb as <-. by apply (refuse_vetted error l).
  - destruct (prepare BASE64_RE (mkConfig VNull)) as [[p|]|] eqn:Ep; [|done..]. intros [= <-]. by eapply applied_vetted.
Qed.

(** ** Safety of a request *)

(** C1: A request is forwarded only past every gate: it is not for the control host;
    outbound, the name its TLS session was opened for is the one its Host header
    gives, and it goes to that name; its host is within its rate and was not caught
    resolving to an internal address; its body decodes; the injection policy does
    not block it; no inspector blocks it; and outbound, the domain inspector allows
    its host at that moment.  This is so whatever other flows do meanwhile, and for
    every engine that booted, whatever was reloaded since. *)
Theorem forwarded_past_gates e conn s s' f : Secrets.BUILTINS <> None ->
  vetted (live (engine s)) -> (forall n g, vetted (live g) -> vetted (live (others n g))) ->
  request BASE64_RE others e conn s = (s', Transport.Forward f) ->
  let req := targeted conn (request_ s) in
  Admission e conn s s' f
  /\ (is_inbound conn = false ->
        host req = (match host_header (request_ s) with Some h => (Transport.parse_authority h).1 | None => host (request_ s) end)
        /\ exists g, at_chain e conn s g /\ DomainInspector.inspect_host_at (domain g) (host req) (chain_now (env e)) = None).
Proof.
  intros HB Hv Ho Hr req. pose proof (forwarded e conn s s' f Hr) as Had. split; [done|]. intros Hin. split.
  - unfold req, targeted. rewrite Hin. unfold Transport.retarget_to_host. destruct (host_header (request_ s)) as [h|]; [|done].
    destruct (Transport.parse_authority h) as [name p]. cbn [fst]. case_bool_decide as En; [by rewrite En|]. by destruct (header_contains _ _).
  - destruct Had as [_ _ _ _ _ (v & decoded & g & _ & _ & _ & Hg & Hb & _)]. exists g. split; [done|]. rewrite Hin in Hb.
    assert (Hl : vetted (live (reloaded e s))).
    { unfold reloaded, reload. destruct (negb _); [done|]. unfold blocking, await, ebind, emod, efn, eret, eerr, on_engine. cbv zeta.
      destruct (worker_error e 0); [by apply Ho|]. cbn [engine request_].
      destruct (reload_if_changed BASE64_RE (env e) (reload_free e) (others 0%nat (engine s))) as [g'|] eqn:El; apply Ho; [|by apply Ho].
      eapply reload_vetted; [|exact El]. by apply Ho. }
    pose proof (vetted_domain e _ _ _ HB Hl Hb) as Hd. rewrite <- Hd. f_equal. by destruct v.
Qed.

(** ** The engine meanwhile *)

(** What a call's own records and redactions do to the injector: at most, the
    retired rules whose tokens have expired are dropped. *)
Definition own (w : Rules.World) (i i' : Rules.Injector) : Prop := i' = i \/ i' = (Rules.minted w i).1.
Lemma forms_own w i : own w i (Injector.redaction_forms w i).1.
Proof. right. unfold Injector.redaction_forms, Rules.redaction_targets. by destruct (Rules.minted w i). Qed.
Ltac by_forms := match goal with |- context [Injector.redaction_forms ?w ?i] => pose proof (forms_own w i) as Hown; by destruct (Injector.redaction_forms w i) end.
Lemma redact_json_own w i j : own w i (Injector.redact_json w i j).1.
Proof. unfold Injector.redact_json. destruct (negb _); [by left|by_forms]. Qed.
Lemma redact_text_own w i t : own w i (Injector.injector_redact_text w i t).1.
Proof. unfold Injector.injector_redact_text. destruct (negb _); [by left|by_forms]. Qed.
Lemma redact_ws_own w i c : own w i (Injector.redact_ws_content w i c).1.
Proof. unfold Injector.redact_ws_content. by_forms. Qed.
Lemma redact_request_own w i req : own w i (Injector.redact_request w i req).1.1.
Proof.
  unfold Injector.redact_request. pose proof (forms_own w i) as Ho. destruct (Injector.redaction_forms w i) as [i' forms].
  by destruct (Injector.redact_request_values _ _ _ _) as [[? ?] ?].
Qed.
Lemma check_ws_own w i c h : own w i (Injector.check_ws_injection_policy w i c h).1.
Proof.
  unfold Injector.check_ws_injection_policy, Injector.check_policy. destruct (negb _); [by left|]. destruct (Injector.redacts_to _ _); [by left|].
  destruct (Injector.check_real _ _ _ _ _) as [[b [v|]]|]; [by left| |by left].
  assert (Ho : own w i (Rules.minted w i).1) by by right. by destruct (Rules.minted w i).
Qed.

(** One step of the call itself: its records, its capture entry, a redaction. *)
Definition own_step (g g' : Engine) : Prop :=
  (live g', domain g', policy g', transforms g', poisoned g') = (live g, domain g, policy g, transforms g, poisoned g)
  /\ own (transforms g) (injector g) (injector g').
(** An engine the call may find: other flows at its awaits, its own steps between. *)
Definition reached : Engine -> Engine -> Prop := rtc (fun g g' => own_step g g' \/ exists n, g' = others n g).
Lemma own_reached g g' : own_step g g' -> reached g g'.
Proof. intros Hg. apply rtc_once. by left. Qed.
Lemma others_reached n g : reached g (others n g).
Proof. apply rtc_once. right. by exists n. Qed.
Lemma reached_trans g1 g2 g3 : reached g1 g2 -> reached g2 g3 -> reached g1 g3.
Proof. unfold reached. intros. by etrans. Qed.
Lemma emit_own e r g : own_step g (emit (AuditSink := engine_sink e) r g).
Proof.
  cbn [emit engine_sink]. pose proof (redact_json_own (transforms g) (injector g) r) as Ho. by destruct (Injector.redact_json _ _ _).
Qed.
Lemma with_injector_own {A} (f : Rules.World -> Rules.Injector -> Rules.Injector * A) g :
  own (transforms g) (injector g) (f (transforms g) (injector g)).1 -> own_step g (with_injector f g).1.
Proof. unfold with_injector. intros Ho. by destruct (f _ _). Qed.
Lemma capture_own f g : own_step g (on_capture f g).
Proof. split; [done|by left]. Qed.
Lemma redact_req_own req g : own_step g (redact_req req g).1.
Proof.
  apply with_injector_own. pose proof (redact_request_own (transforms g) (injector g) req) as Ho. by destruct (Injector.redact_request _ _ _) as [[? ?] ?].
Qed.
Lemma redact_reason_own t g : own_step g (redact_reason t g).1.
Proof. apply with_injector_own, redact_text_own. Qed.
Lemma redact_inspectors_own l g : own_step g (redact_inspectors l g).1.
Proof. apply with_injector_own, redact_json_own. Qed.
Lemma emit_decision_own e l d g : own_step g (emit_decision e l d g).
Proof.
  unfold emit_decision, decision_emit. destruct (ring_only _ _); [|apply emit_own]. cbn [emit_ring_only engine_sink].
  pose proof (redact_json_own (transforms g) (injector g) (to_json d)) as Ho. by destruct (Injector.redact_json _ _ _).
Qed.
(** Where other flows leave the rules alone, the call redacts by the rules it began
    with. *)
Lemma reached_rules g g' : (forall n g, transforms (others n g) = transforms g /\ injector (others n g) = injector g) -> reached g g' ->
  transforms g' = transforms g /\ same_rules (injector g) (injector g').
Proof.
  intros Hq Hr. induction Hr as [g|g g1 g2 [[Hs Ho]|[n ->]] _ [IH1 IH2]]; [split; [done|apply same_rules_refl]| |].
  - injection Hs as _ _ _ Ht _. split; [congruence|]. eapply same_rules_trans; [|exact IH2]. destruct Ho as [->| ->]; [apply same_rules_refl|apply minted_same].
  - destruct (Hq n g) as [E1 E2]. rewrite E1 in IH1. by rewrite E2 in IH2.
Qed.

Lemma check_request_own w i req : own w i (Injector.check_injection_policy w i req).1.
Proof.
  unfold Injector.check_injection_policy, Injector.check_policy. destruct (negb _); [by left|]. destruct (Injector.redacts_to _ _); [by left|].
  destruct (Injector.check_real _ _ _ _ _) as [[b [v|]]|]; [by left| |by left].
  assert (Ho : own w i (Rules.minted w i).1) by by right. by destruct (Rules.minted w i).
Qed.
Lemma at_chain_reached e conn s g : at_chain e conn s g -> reached (gated e conn s) g.
Proof.
  assert (Hck : reached (gated e conn s) (set_injector (gated e conn s) (transforms (gated e conn s)) (checked e conn s).1)).
  { apply own_reached. split; [done|]. cbn [injector set_injector]. apply check_request_own. }
  intros [->| ->]; (eapply reached_trans; [exact Hck|]); [apply (others_reached 6%nat)|].
  eapply reached_trans; [apply (others_reached 4%nat)|apply (others_reached 6%nat)].
Qed.

(** C2: What is forwarded to a host a secret is not for does not carry it, whatever other
    flows do meanwhile, a reload of the rules included.  The request the check passed
    carries, in no form, the real value or a live token of any rule that did not cover
    the host when it was checked, unless the host was a redaction host then (which the
    check leaves alone).  The injection that follows is by the rules of its own moment,
    at an engine the call reaches: if no rule covers the host then, and it is not a
    redaction host, the request goes out exactly as it was targeted; if it is a
    redaction host, nothing is injected and what goes out is the targeted request with
    the secrets redacted. *)
Theorem forwarded_secret_free e conn s s' f : is_inbound conn = false ->
  request BASE64_RE others e conn s = (s', Transport.Forward f) ->
  let w := transforms (gated e conn s) in
  let i := injector (gated e conn s) in
  let req := targeted conn (request_ s) in
  let host_ := to_lowercase (host req) in
  (Injector.redacts_to i host_ = true
   \/ (forall r, r ∈ Rules.rules i -> Injector.covers r host_ = false ->
         ~ InjectorSpec.carries req (Injector.forms_for (Rules.real_value r) r))
      /\ (forall r t, r ∈ Rules.rules i \/ r ∈ Rules.retired i -> t ∈ Rules.minted_values w r -> Injector.covers r host_ = false ->
           ~ InjectorSpec.carries req (Injector.forms_for t r)))
  /\ exists g w' i' names, reached (gated e conn s) g
     /\ Injector.inject_request (transforms g) (injector g) req = (w', i', request_ s', Ok names)
     /\ (if Injector.redacts_to (injector g) host_
         then w' = transforms g /\ (i', request_ s', Ok names) = Injector.redact_request (transforms g) (injector g) req
         else (forall r, r ∈ Rules.rules (injector g) -> Injector.covers r host_ = false) -> request_ s' = req).
Proof.
  intros Hin Hr w i req host_. destruct (forwarded e conn s s' f Hr) as [_ _ _ _ _ (v & decoded & g & Hv & Hu & _ & Hg & _ & w' & i' & names & Hinj)]. split.
  - destruct (Injector.redacts_to i host_) eqn:Hred; [by left|right]. apply InjectorSpec.no_leak_no_carry. by apply (InjectorSpec.unblocked_no_leak w i req v).
  - unfold cleaned in Hinj. rewrite Hin in Hinj. fold req in Hinj. set (g' := others 8%nat (others 7%nat g)) in *.
    exists g', w', i', names. split; [|split; [exact Hinj|]].
    { eapply reached_trans; [by apply at_chain_reached|]. eapply reached_trans; [apply (others_reached 7%nat)|apply (others_reached 8%nat)]. }
    destruct (Injector.redacts_to (injector g') host_) eqn:Hred.
    + rewrite (InjectorSpec.inject_redacts _ _ req Hred) in Hinj. destruct (Injector.redact_request _ _ req) as [[i2 req2] res2]. by injection Hinj as <- <- <- <-.
    + intros Hcov. pose proof (InjectorSpec.inject_uncovered (transforms g') (injector g') req Hcov Hred) as Hsame. rewrite Hinj in Hsame. by destruct Hsame as (_ & _ & ->).
Qed.

(** ** Failing closed *)

(** The records that say a request was not forwarded. *)
Definition refusal_record (e : FlowEnv) (r : Json) : Prop :=
  (exists d, d_decision d = Blocked /\ r = to_json d) \/ exists req d reason, r = AuditLog.internal_error (clock (env e)) req d reason.
(** The last line of the trail is such a record, redacted by the rules in force. *)
Definition refused (e : FlowEnv) (g : Engine) : Prop :=
  exists r g0, refusal_record e r /\ rtc own_step g0 g
    /\ last (stderr (audit g)) = Some (audit_line (with_ts (clock (env e)) (Injector.redact_json (transforms g0) (injector g0) r).2)).

Lemma emitted_refused e r g : refusal_record e r -> refused e (emit (AuditSink := engine_sink (env e)) r g).
Proof.
  intros Hr. destruct (emit_spec (env e) r g) as (_ & _ & _ & E). exists r, g. split; [done|]. split; [apply rtc_once, emit_own|]. by rewrite E, last_snoc.
Qed.
Lemma decision_refused e l d g : d_decision d = Blocked -> refused e (emit_decision e l d g).
Proof.
  intros Hd. unfold emit_decision, decision_emit, ring_only. rewrite Hd. cbn [bool_decide decide_rel andb]. apply emitted_refused. left. by exists d.
Qed.
Lemma refused_own e g g' : own_step g g' -> audit g' = audit g -> refused e g -> refused e g'.
Proof. intros Ho Ha (r & g0 & K1 & K2 & K3). exists r, g0. split; [done|]. split; [by eapply rtc_r|by rewrite Ha]. Qed.
Lemma with_injector_audit {A} (f : Rules.World -> Rules.Injector -> Rules.Injector * A) g : audit (with_injector f g).1 = audit g.
Proof. unfold with_injector. by destruct (f _ _). Qed.
Lemma json_response_status n b : status (json_response n b) = n.
Proof. reflexivity. Qed.

Lemma internal_error_refused e req d error g : let '(g', resp) := internal_error e req d error g in refused e g' /\ status resp = 502.
Proof.
  unfold internal_error. set (g1 := emit_record _ _ g). pose proof (redact_reason_own (lit "internal error: " ++ error) g1) as Ho.
  assert (Ha : audit (redact_reason (lit "internal error: " ++ error) g1).1 = audit g1) by apply with_injector_audit.
  destruct (redact_reason _ g1) as [g2 [reason names]]. split; [|done].
  eapply refused_own; [exact Ho|exact Ha|]. apply emitted_refused. right. by eexists _, _, _.
Qed.
Lemma blocked_refused e l d source results req g : let '(g', _, resp) := blocked e l d source results req g in refused e g' /\ status resp = 403.
Proof.
  unfold blocked. set (r := with_source _ _). set (g1 := emit_decision e l r g). assert (Hr : refused e g1) by by apply decision_refused.
  destruct (negb _); [by split|]. pose proof (redact_req_own req g1) as Ho. assert (Ha : audit (redact_req req g1).1 = audit g1) by apply with_injector_audit.
  destruct (redact_req req g1) as [g2 [req' red]]. cbn [fst] in *. assert (Hr2 : refused e g2) by (by eapply refused_own).
  destruct red as [names|]; [|by split]. pose proof (redact_inspectors_own results g2) as Ho2.
  assert (Ha2 : audit (redact_inspectors results g2).1 = audit g2) by apply with_injector_audit. destruct (redact_inspectors results g2) as [g3 insp].
  cbn [fst] in *. split; [|done]. eapply refused_own; [apply capture_own|done|]. by eapply refused_own.
Qed.
Lemma gates_refuse e conn l s s' resp : gates e conn l s = (s', Ok (Some resp)) ->
  refused e (engine s') /\ (status resp = 403 \/ status resp = 429).
Proof.
  unfold gates. intros Hg. step Hg s1 r Hr. destruct r as [resp'|].
  - effs Hg. injection Hg as <- <-. destruct (is_inbound conn); [done|]. effs Hr. unfold sni_host_mismatch in Hr.
    destruct (named_hosts conn (request_ s)) as [[sni hh]|]; [|done]. case_bool_decide; [done|]. injection Hr as <- <-. cbn [engine].
    split; [by apply decision_refused|by left].
  - effs Hg. cbn [engine request_] in Hg. unfold host_gates in Hg. destruct (rate_allows _ _ _ _) as [g allowed]. destruct allowed; cbn [negb] in Hg.
    + destruct (is_poisoned g _); [|done]. injection Hg as <- <-. split; [by apply decision_refused|by left].
    + injection Hg as <- <-. split; [by apply decision_refused|by right].
Qed.

(** C3: Whatever a request meets (an unreadable body, a worker that dies, a budget
    that stays full, an injection that cannot be applied, a gate, a block), it is
    either answered by the policy API's own host, forwarded past every gate, or
    refused: a 403, 429 or 502, whose record, with every secret redacted, is then
    the last line of the audit trail. *)
Theorem request_fails_closed e conn s :
  let '(s', action) := request BASE64_RE others e conn s in
  match action with
  | Transport.Forward f => Admission e conn s s' f
  | Transport.Respond resp =>
      is_Some (control_taken conn (request_ s) (reloaded e s))
      \/ (refused e (engine s') /\ (status resp = 403 \/ status resp = 429 \/ status resp = 502))
  end.
Proof.
  destruct (request BASE64_RE others e conn s) as [s' action] eqn:Er. destruct action as [f|resp]; [by apply forwarded|].
  unfold request in Er. destruct (request_inner BASE64_RE others e conn s) as [s1 [action|err]] eqn:Ei.
  2:{ pose proof (internal_error_refused e (request_ s1) (audit_direction conn) err (engine s1)) as Hie. destruct (internal_error _ _ _ _ _) as [g r].
      injection Er as <- <-. right. split; [apply Hie|right; right; apply Hie]. }
  injection Er as <- ->. unfold request_inner in Ei. step Ei s2 u Hl.
  assert (E2 : engine s2 = reloaded e s /\ request_ s2 = request_ s) by (unfold reloaded; rewrite <- (reload_request e s), Hl; done).
  destruct E2 as [E2 E2']. step Ei s3 answered Hc. destruct answered as [r|].
  { effs Ei. injection Ei as -> ->. left. unfold control in Hc. step Hc s4 req Hr. effs Hr. injection Hr as <- <-. step Hc s4 taken Ht. effs Ht. injection Ht as <- <-.
    rewrite <- E2, <- E2'. destruct (control_taken conn (request_ s2) (engine s2)); [by eexists|done]. }
  step Ei s4 l Ho. effs Ho. injection Ho as <- <-. step Ei s5 ro Hg. right. destruct ro as [r|].
  { effs Ei. injection Ei as -> ->. apply gates_refuse in Hg as [Hr Hs]. split; [done|]. tauto. }
  unfold verdict_step in Ei. step Ei s6 x Hj. destruct x as [results source]. destruct (Inspect.blocked results).
  - step Ei s7 r Hx. effs Ei. injection Ei as -> ->. pose proof (blocked_refused e (live (engine s3)) (audit_direction conn) source results (request_ s6) (engine s6)) as Hb.
    destruct (blocked _ _ _ _ _ _ _) as [[g req] r']. injection Hx as <- <-. split; [apply Hb|left; apply Hb].
  - by step Ei s7 fl Hx.
Qed.

(** ** The peer guard *)

Lemma none_granted st h : DomainInspector.grant_count st = 0%nat -> DomainInspector.is_grant_only st h = false.
Proof.
  unfold DomainInspector.grant_count, DomainInspector.is_grant_only. intros E. destruct (DomainInspector.granted st); [|done].
  destruct (existsb _ _); [done|]. by induction (DomainInspector.suffixes _).
Qed.
Definition candidates (t : Transport.ConnectTarget) : list str := Transport.t_host t :: opt_list (Transport.t_sni t).
(** The target is reached by a name only a grant allows. *)
Definition guarded (t : Transport.ConnectTarget) (g : Engine) (name : str) : Prop :=
  name ∈ candidates t /\ name <> [] /\ DomainInspector.is_grant_only (domain g) name = true.

Lemma violation_none t resolved g : peer_guard_violation t resolved g = None ->
  forall name, guarded t g name -> Forall (fun ip => is_global_ip ip = true) resolved.
Proof.
  unfold peer_guard_violation. intros Hv name (Hin & Hne & Hg). destruct (Nat.eqb_spec (DomainInspector.grant_count (domain g)) 0) as [E|E].
  { by rewrite (none_granted _ _ E) in Hg. }
  fold (candidates t) in Hv. destruct (List.find _ (candidates t)) as [n|] eqn:Ef.
  - destruct (List.find _ resolved) as [bad|] eqn:Eb; [done|]. apply Forall_forall. intros ip Hip.
    pose proof (List.find_none _ _ Eb ip ltac:(by apply list_elem_of_In)) as Hn. cbv beta in Hn. by apply negb_false_iff in Hn.
  - pose proof (List.find_none _ _ Ef name ltac:(by apply list_elem_of_In)) as Hn. cbv beta in Hn. rewrite Hg, bool_decide_eq_false_2 in Hn by done. done.
Qed.
Lemma violation_some t resolved g name bad : peer_guard_violation t resolved g = Some (name, bad) ->
  guarded t g name /\ bad ∈ resolved /\ is_global_ip bad = false.
Proof.
  unfold peer_guard_violation. destruct (Nat.eqb _ 0); [done|]. fold (candidates t).
  destruct (List.find _ (candidates t)) as [n|] eqn:Ef; [|done]. destruct (List.find _ resolved) as [b|] eqn:Eb; [|done]. intros [= -> ->].
  apply List.find_some in Ef as [Hn Hc]. apply List.find_some in Eb as [Hb Hx]. apply andb_true_iff in Hc as [Hc Hg].
  apply negb_true_iff, bool_decide_eq_false in Hc. apply negb_true_iff in Hx. split_and!; [|by apply list_elem_of_In|done].
  split_and!; [by apply list_elem_of_In|done|done].
Qed.
Lemma poisoned_refuses e req l g : normalise (host req) ∈ poisoned g ->
  exists g' resp, host_gates e req l g = (g', Some resp) /\ (status resp = 403 \/ status resp = 429) /\ refused e g'.
Proof.
  intros Hp. unfold host_gates, rate_allows. destruct (check _ _ _ _ _) as [b ok]. destruct ok; cbn [negb].
  - assert (is_poisoned (set_hosts g b (poisoned g)) (normalise (host req)) = true) as -> by (by apply bool_decide_eq_true).
    eexists _, _. split; [done|]. split; [by left|by apply decision_refused].
  - eexists _, _. split; [done|]. split; [by right|by apply decision_refused].
Qed.

(** C6: A name that only a grant allows is never connected to an address that is not
    global: a connection is opened (or reused) only when every address it may dial
    is, and otherwise the name is refused with a record, remembered, and every
    later request to it is answered 403 or 429 without connecting - whatever its
    case and trailing dots - until 4095 other catches have been made. *)
Theorem granted_names_stay_public e target resolved g :
  let '(g', decision) := server_connect e target resolved g in
  (forall peer name, may_reuse target peer g = true -> guarded target g name -> is_global_ip peer = true)
  /\ match decision with
  | Transport.Allow addresses =>
      g' = g /\ addresses = resolved /\ forall name, guarded target g name -> Forall (fun ip => is_global_ip ip = true) addresses
  | Transport.Refuse reason =>
      exists name bad, guarded target g name /\ bad ∈ resolved /\ is_global_ip bad = false
        /\ reason = private_peer_reason name (peer_text bad) /\ one_line g g'
        /\ forall later g2 e2 req l, poisoned g2 = fold_left poison_host later (poisoned g') -> Z.of_nat (length later) < POISONED_MAX ->
             normalise (host req) = normalise name ->
             exists g3 resp, host_gates e2 req l g2 = (g3, Some resp) /\ (status resp = 403 \/ status resp = 429) /\ refused e2 g3
  end.
Proof.
  unfold server_connect. assert (Hreuse : forall peer name, may_reuse target peer g = true -> guarded target g name -> is_global_ip peer = true).
  { intros peer name Hm Hg. unfold may_reuse in Hm. apply bool_decide_eq_true in Hm. pose proof (violation_none _ _ _ Hm name Hg) as Hf.
    by apply Forall_cons in Hf as [? _]. }
  destruct (peer_guard_violation target resolved g) as [[name bad]|] eqn:Ev.
  - split; [done|]. destruct (violation_some _ _ _ _ _ Ev) as (Hg & Hb & Hx). exists name, bad.
    set (r := private_peer_blocked _ _ _ _). destruct (emit_spec (env e) r (poison (normalise name) g)) as ([Hbe _] & _ & _ & Hline).
    apply behind_eq in Hbe as (_ & _ & _ & _ & _ & _ & Hpois). split_and!; [done..|by eexists|].
    intros later g2 e2 req l E2 Hlen Hn. apply poisoned_refuses. rewrite E2, Hn. unfold emit_record. rewrite Hpois. cbn [poison poisoned set_hosts].
    apply remembered; done.
  - split; [done|]. split_and!; [done..|]. by apply violation_none.
Qed.

(** ** The response *)

Lemma release_pending e id g : Capture.pending (capture (release_flow e id g)) !! id = None.
Proof.
  unfold release_flow, on_capture, Capture.release, Capture.finish_websocket, Capture.release_locked. cbn [capture set_capture Capture.pending].
  apply lookup_delete_eq.
Qed.
Lemma redact_back_response e f s : r_response (redact_back e f s).1 = r_response s.
Proof.
  unfold redact_back, set_r_request, ebind, eget, efn, emod, elift, on_r_engine', on_r_engine. cbv beta iota.
  destruct (redact_req _ _) as [g [req red]]. cbn [r_engine r_request r_response]. by destruct (map_err _ _).
Qed.
Lemma redact_back_reached e f s : reached (r_engine s) (r_engine (redact_back e f s).1).
Proof.
  unfold redact_back, set_r_request, ebind, eget, efn, emod, elift, on_r_engine', on_r_engine. cbv beta iota.
  pose proof (own_reached _ _ (redact_req_own (r_request s) (r_engine s))) as Ho. destruct (redact_req _ _) as [g [req red]]. cbn [fst] in Ho.
  cbn [r_engine r_request r_response]. destruct (map_err _ _); cbn [fst r_engine]; [|done]. eapply reached_trans; [exact Ho|apply own_reached, capture_own].
Qed.
Lemma hold_copy_reached e n s s' u : hold_copy others on_r_engine e n s = (s', Ok u) -> r_response s' = r_response s /\ reached (r_engine s) (r_engine s').
Proof. intros [->| ->]%hold_copy_ok; (split; [done|]); [apply rtc_refl|apply (others_reached 4%nat)]. Qed.
Lemma judge_response_ok e f decoded s s' results decoded' : judge_response others e f decoded s = (s', Ok (results, decoded')) ->
  r_response s' = r_response s /\ decoded' = decoded /\ reached (r_engine s) (r_engine s')
  /\ (results = [] \/ exists ctx g, reached (r_engine s) g /\ reached g (r_engine s') /\ results = (run_chain_on e (fl_live f) ctx Inspect.Response false g).1
        /\ Inspect.body_bytes ctx = Some (default (resp_body (r_response s)) decoded)).
Proof.
  unfold judge_response. intros Hj. step Hj s0 x Hx. effs Hx. injection Hx as <- <-. destruct (negb _).
  { effs Hj. injection Hj as <- <- <-. split_and!; [done..|apply rtc_refl|by left]. }
  step Hj s1 u Hu. effs Hu. injection Hu as <- _. set (ctx := context _ _ _ _) in *.
  step Hj s2 y Hb. destruct y as [vs c]. apply blocking_ok in Hb as (_ & s3 & Hb & ->). unfold on_r_engine', on_r_engine in Hb. cbn [r_engine r_request r_response] in Hb.
  set (g := others 2%nat _) in Hb. assert (Hg : reached (r_engine s) g) by apply others_reached.
  destruct (run_chain_on e (fl_live f) ctx Inspect.Response false g) as [vs' c'] eqn:Er. injection Hb as <- -> ->.
  assert (Hc : Inspect.body_bytes c = Some (default (resp_body (r_response s)) decoded)).
  { unfold run_chain_on in Er. pose proof (Inspect.run_chain_context (chain_inspectors e (fl_live f) false g) ctx Inspect.Response (fun _ => false)) as Hx.
    rewrite Er in Hx. cbn [snd] in Hx. by rewrite Hx. }
  assert (Hg2 : reached g (others 3%nat g)) by apply others_reached. assert (Hg3 : reached (r_engine s) (others 3%nat g)) by by eapply reached_trans.
  assert (Hres : exists ctx g', reached (r_engine s) g' /\ reached g' (others 3%nat g) /\ vs = (run_chain_on e (fl_live f) ctx Inspect.Response false g').1
                   /\ Inspect.body_bytes ctx = Some (default (resp_body (r_response s)) decoded)).
  { exists ctx, g. by rewrite Er. }
  rewrite Hc in Hj. cbn [default from_option id] in Hj. destruct decoded as [d|].
  - effs Hj. injection Hj as <- <- <-. split_and!; [done..|by right].
  - effs Hj. injection Hj as <- <- <-. split_and!; [|done|done|by right]. cbn. by destruct (r_response s).
Qed.
Lemma redact_worker_ok e decoded s s' out : redact_worker others e decoded s = (s', Ok out) ->
  exists g i, reached (r_engine s) g /\ Injector.redact_response_decoded (transforms g) (injector g) (r_response s) decoded = (i, r_response s', out).
Proof.
  unfold redact_worker. destruct (blocking _ _ _ _ _ s) as [s1 [r|err]] eqn:Eb; [|done]. intros [= <- <-].
  apply blocking_ok in Eb as (_ & s2 & Eb & ->). unfold redact_decoded, on_r_engine in Eb. cbn [r_engine r_request r_response] in Eb.
  destruct (Injector.redact_response_decoded _ _ _ _) as [[i resp] out] eqn:Er. injection Eb as <- <-. eexists _, i. split; [apply (others_reached 5%nat)|done].
Qed.

(** The page of a block names no encoding, whatever is redacted in its headers, so
    redacting it cannot fail. *)
Abbreviation keyed P := (Forall (fun e : bytes * bytes => P e.1)).
Lemma fold_item_keyed P out k v : keyed P out -> P k -> keyed P (Injector.fold_item out k v).
Proof.
  intros Ho Hk. induction Ho as [|[name v'] out Hn Ho IH]; cbn [Injector.fold_item]; [by repeat constructor|]. by destruct (eq_ignore_ascii_case _ _); constructor.
Qed.
Lemma header_items_keyed P h : keyed P h -> keyed P (Injector.header_items h).
Proof.
  unfold Injector.header_items. assert (Hn : keyed P []) by constructor. revert Hn. generalize (@nil (bytes * bytes)) as out. intros out Hout Hh. revert out Hout.
  induction Hh as [|e h He Hh IH]; intros out Hout; [done|]. cbn [fold_left]. apply IH. by apply fold_item_keyed.
Qed.
Lemma set_header_keyed P h k v : keyed P h -> P k -> keyed P (Injector.set_header h k v).
Proof.
  intros Hh Hk. unfold Injector.set_header. assert (Hl : forall value, keyed P (Injector.set_header_loop h k value).1).
  { induction Hh as [|[k' v'] h He Hh IH]; intros value; [constructor|]. cbn [Injector.set_header_loop]. destruct (negb _).
    - specialize (IH value). destruct (Injector.set_header_loop h k value). by constructor.
    - destruct value as [new|]; [|apply IH]. specialize (IH None). destruct (Injector.set_header_loop h k None). by constructor. }
  specialize (Hl (Some v)). destruct (Injector.set_header_loop h k (Some v)) as [h' [new|]]; [|exact Hl]. by apply Forall_app; split; [|repeat constructor].
Qed.
Lemma rewrite_items_keyed P f items h : keyed P items -> keyed P h -> keyed P (Injector.rewrite_items f items h).1.
Proof.
  intros Hi. revert h. induction Hi as [|[k v] items Hk Hi IH]; intros h Hh; [done|]. cbn [Injector.rewrite_items]. destruct (f k v) as [new|]; [|by apply IH].
  apply IH. by apply set_header_keyed.
Qed.
Abbreviation no_encoding := (fun k : bytes => named (lit "content-encoding") (k, []) = false).
Lemma redact_plain fs h raw b names : keyed no_encoding h -> exists names', (Injector.redact_response_values fs h raw b names).2 = Ok names'.
Proof.
  revert h b names. induction fs as [|f fs IH]; intros h b names Hh; [by eexists|]. cbn [Injector.redact_response_values].
  assert (Hh' : keyed no_encoding (Injector.redact_headers h f).1) by (apply (rewrite_items_keyed no_encoding); [by apply (header_items_keyed no_encoding)|done]).
  destruct (Injector.redact_headers h f) as [h' found]. cbn [fst] in Hh'.
  assert (Hg : exists b' content, Injector.lazy_get b h' raw = Ok (b', content)).
  { unfold Injector.lazy_get. destruct (Injector.decoded b); [by eexists _, _|]. destruct (Injector.identity b); [by eexists _, _|].
    assert (header_get h' (lit "content-encoding") = None) as Hn.
    { unfold header_get, get_all. assert (List.filter (named (lit "content-encoding")) h' = []) as ->; [|done].
      induction Hh' as [|[k v] h' Hk Hh' IH']; [done|]. cbn [List.filter]. change (named (lit "content-encoding") (k, v)) with (named (lit "content-encoding") (k, [])). cbv beta in Hk. change (k, v).1 with k in Hk. by rewrite Hk. }
    unfold BodyCodec.decoded_body. rewrite Hn. by eexists _, _. }
  destruct Hg as (b' & content & Hg). unfold Injector.redact_lazy. rewrite Hg. cbn [result_bind]. destruct (if bool_decide _ then _ else _); by apply IH.
Qed.
Lemma block_page_redacts w i n body : exists names, (Injector.redact_response w i (json_response n body)).2 = Ok names.
Proof.
  unfold Injector.redact_response, Injector.redact_response_body. destruct (Injector.redaction_forms w i) as [i' forms].
  destruct (redact_plain forms (resp_headers (json_response n body)) (resp_body (json_response n body)) Injector.lazy_default []) as [names Hn].
  { by apply (bool_decide_unpack _); vm_compute. }
  destruct (Injector.redact_response_values _ _ _ _ _) as [[h b] r]. cbn [snd] in Hn. subst r. destruct (Injector.finish_keep b h _) as [[? ?] ?]. by exists names.
Qed.
(** Nor can redacting a response whose body was decoded. *)
Lemma decoded_redacts w i resp d : exists names, (Injector.redact_response_decoded w i resp d).2.1 = Ok names.
Proof.
  unfold Injector.redact_response_decoded, Injector.redact_response_body. destruct (Injector.redaction_forms w i) as [i' forms].
  pose proof (InjectorSpec.redact_response_values_spec forms (resp_headers resp) (resp_body resp) (Injector.predecoded d) []
    ltac:(destruct d; [by left|by right]) ltac:(done)) as Hs.
  destruct (Injector.redact_headers_with _ _) as [h' hf]. destruct (StreamRedact.redact_body _ _) as [content bf].
  destruct (Injector.redact_response_values _ _ _ _ _) as [[h2 b2] r]. destruct Hs as (_ & -> & _). destruct (Injector.finish_keep b2 h2 _) as [[? ?] ?]. by eexists.
Qed.

Lemma block_response_total e f results block s s' err : block_response e f results block s <> (s', Err err).
Proof.
  unfold block_response. intros Er. apply ebind_err in Er as [Er|(s1 & x & Hx & Er)]; [done|]. effs Hx. injection Hx as <- <-.
  apply ebind_err in Er as [Er|(s1 & [reason_ names] & Hr & Er)]; [unfold efn in Er; by destruct (on_r_engine' _ _)|]. clear Hr.
  apply ebind_err in Er as [Er|(s2 & [resp red] & Hr & Er)]; [unfold efn in Er; by destruct (on_r_engine' _ _)|].
  apply efn_ok in Hr as (x & Ex & Hr). injection Ex as <-. unfold on_r_engine', redact_resp, with_injector in Hr.
  match type of Hr with context [Injector.redact_response ?w ?i ?r] => pose proof (block_page_redacts w i 403 (block_body true reason_ (host (r_request s)))) as [n Hn];
    destruct (Injector.redact_response w i r) as [[i' resp'] red'] end.
  cbn [snd] in Hn. subst red'. injection Hr as _ _ <-. apply ebind_err in Er as [Er|(s3 & u & _ & Er)]; [done|]. apply ebind_err in Er as [Er|(s4 & more & _ & Er)]; [done|].
  apply ebind_err in Er as [Er|(s5 & u2 & _ & Er)]; [done|]. apply ebind_err in Er as [Er|(s6 & insp & _ & Er)]; [unfold efn in Er; by destruct (on_r_engine' _ _)|done].
Qed.

(** What stops a response on the way to the client: its body does not decode, the
    request cannot be redacted back, a worker fails, or the budget is full. *)
Inductive Failure (e : FlowEnv) (s : RespState) : str -> Prop :=
| Undecodable d : BodyCodec.decoded_body (resp_headers (r_response s)) (resp_body (r_response s)) = Err d ->
    Failure e s (FlowStream.decode_error_text d)
| RequestKept err : (Injector.redact_request (transforms (r_engine s)) (injector (r_engine s)) (r_request s)).2 = Err err ->
    Failure e s (inject_error_text err)
| WorkerFailed n err : worker_error e n = Some err -> Failure e s (lit "worker failed: " ++ err)
| NoRoom limit grows n : budget e = Some (limit, grows) -> grows n = false -> Failure e s (Transport.error_text (Transport.BudgetExhausted limit)).

(** What the client is given for the response [resp] of the upstream: the response
    redacted, with the rules in force at that moment (an engine the call reaches); or the 403 of an inspector
    that blocked it, itself redacted; or the 502 of a failure, its text redacted too. *)
Inductive Delivered (e : FlowEnv) (f : Flow) (s s' : RespState) : Prop :=
| DeliveredRedacted g i decoded names kept :
    reached (r_engine s) g ->
    BodyCodec.decoded_body (resp_headers (r_response s)) (resp_body (r_response s)) = Ok decoded ->
    Injector.redact_response_decoded (transforms g) (injector g) (r_response s) decoded = (i, r_response s', (Ok names, kept)) ->
    Delivered e f s s'
| DeliveredBlock ctx g block reason_ g0 g1 i names :
    reached (r_engine s) g -> reached g g0 -> reached g0 g1 ->
    Inspect.body_bytes ctx = Some (BodyCodec.decoded_body_lenient (resp_headers (r_response s)) (resp_body (r_response s))) ->
    block ∈ (run_chain_on e (fl_live f) ctx Inspect.Response false g).1 -> Inspect.is_block block = true ->
    reason_ = (Injector.injector_redact_text (transforms g0) (injector g0) (Inspect.reason block)).2.1 ->
    Injector.redact_response (transforms g1) (injector g1) (json_response 403 (block_body true reason_ (host (r_request s')))) = (i, r_response s', Ok names) ->
    Delivered e f s s'
| DeliveredError failure g :
    Failure e s failure -> reached (r_engine s) g ->
    r_response s' = json_response 502 (block_body false
      (Injector.injector_redact_text (transforms g) (injector g) (lit "internal error: " ++ failure)).2.1 (host (r_request s'))) ->
    refused e (r_engine s') -> Capture.pending (capture (r_engine s')) !! fl_id f = None ->
    Delivered e f s s'.

Lemma redact_back_err e f s s' err : redact_back e f s = (s', Err err) -> Failure e s err.
Proof.
  unfold redact_back, set_r_request, ebind, eget, efn, emod, elift, on_r_engine', on_r_engine, redact_req, with_injector. cbv beta iota. intros Hb.
  destruct (Injector.redact_request _ _ _) as [[i req] [names|er]] eqn:Er; [done|]. cbn in Hb. injection Hb as _ <-. apply RequestKept. by rewrite Er.
Qed.
Lemma hold_copy_err e s0 n s s' err : hold_copy others on_r_engine e n s = (s', Err err) -> Failure e s0 err /\ reached (r_engine s) (r_engine s').
Proof.
  unfold hold_copy. destruct (budget e) as [[limit grows]|] eqn:Eb; [|done]. unfold ebind, await, emod. destruct (grows n) eqn:Eg; [done|].
  intros [= <- <-]. split; [by eapply NoRoom|apply (others_reached 4%nat)].
Qed.
Lemma blocking_failed {A} e s0 n (h : RespState -> RespState * A) s s' err : blocking others on_r_engine e n h s = (s', Err err) ->
  Failure e s0 err /\ reached (r_engine s) (r_engine s').
Proof.
  intros Hb. assert (Hb' := Hb). apply blocking_err in Hb as [-> [w Ew]]. unfold blocking, await, ebind, emod in Hb'. rewrite Ew in Hb'. injection Hb' as <-.
  split; [by eapply WorkerFailed|apply others_reached].
Qed.
Lemma judge_response_err e f s0 decoded s s' err : judge_response others e f decoded s = (s', Err err) ->
  Failure e s0 err /\ reached (r_engine s) (r_engine s').
Proof.
  unfold judge_response, set_r_response. intros Hj. apply ebind_err in Hj as [Hj|(s1 & x & Hx & Hj)]; [done|]. effs Hx. injection Hx as <- <-.
  destruct (negb _); [done|]. apply ebind_err in Hj as [Hj|(s1 & u & Hu & Hj)]; [done|]. effs Hu. injection Hu as <- _.
  apply ebind_err in Hj as [Hj|(s2 & [results ctx] & Hb & Hj)]; [by apply (blocking_failed e s0) in Hj|]. exfalso. by destruct decoded; effs Hj.
Qed.
Lemma response_inner_err e f s s' err : response_inner others e f s = (s', Err err) -> Failure e s err /\ reached (r_engine s) (r_engine s').
Proof.
  unfold response_inner. intros Er. pose proof (redact_back_response e f s) as Hresp. pose proof (redact_back_reached e f s) as R1.
  apply ebind_err in Er as [Er|(s1 & u & Hb & Er)]; [rewrite Er in R1; split; [by eapply redact_back_err|exact R1]|]. rewrite Hb in Hresp, R1. cbn [fst] in Hresp, R1. clear Hb.
  apply ebind_err in Er as [Er|(s2 & x & Hx & Er)]; [done|]. effs Hx. injection Hx as <- <-. rewrite Hresp in Er.
  apply ebind_err in Er as [Er|(s2 & decoded & Hd & Er)].
  { effs Er. injection Er as <- Hd. split; [|exact R1]. destruct (BodyCodec.decoded_body _ _) as [|d] eqn:Ed; [done|]. injection Hd as <-. by apply Undecodable. }
  effs Hd. injection Hd as <- _.
  apply ebind_err in Er as [Er|(s2 & u2 & Hh & Er)].
  { destruct decoded as [copy|]; [|done]. apply (hold_copy_err e s) in Er as [Hf R2]. split; [exact Hf|exact (reached_trans _ _ _ R1 R2)]. }
  assert (R2 : reached (r_engine s) (r_engine s2)).
  { destruct decoded as [copy|]; [|by injection Hh as <-]. apply hold_copy_reached in Hh as [_ R2]. exact (reached_trans _ _ _ R1 R2). }
  apply ebind_err in Er as [Er|(s3 & [results decoded'] & Hj & Er)].
  { apply (judge_response_err e f s) in Er as [Hf R3]. split; [exact Hf|exact (reached_trans _ _ _ R2 R3)]. }
  apply judge_response_ok in Hj as (_ & -> & R3 & _). assert (R3' : reached (r_engine s) (r_engine s3)) by exact (reached_trans _ _ _ R2 R3).
  destruct (first_block results) as [block|].
  - exfalso. by apply (block_response_total e f results block s3 s' err).
  - apply ebind_err in Er as [Er|(s4 & [red kept] & Hw & Er)].
    { unfold redact_worker in Er. destruct (blocking _ _ _ _ _ s3) as [s4 [?|er]] eqn:Eb; [done|]. injection Er as <- <-.
      apply (blocking_failed e s) in Eb as [Hf R4]. split; [exact Hf|]. cbn [r_engine]. exact (reached_trans _ _ _ R3' R4). }
    exfalso. apply redact_worker_ok in Hw as (g & i & _ & Hw). destruct (decoded_redacts (transforms g) (injector g) (r_response s3) decoded) as [names Hn].
    rewrite Hw in Hn. cbn [fst snd] in Hn. subst red. by effs Er.
Qed.
Lemma response_error e f s s1 err : response_inner others e f s = (s1, Err err) -> Delivered e f s (response others e f s).
Proof.
  intros Er. destruct (response_inner_err e f s s1 err Er) as [Hf R1]. unfold response. rewrite Er. cbv zeta. set (g0 := release_flow e (fl_id f) (r_engine s1)).
  assert (R2 : reached (r_engine s) g0) by exact (reached_trans _ _ _ R1 (own_reached _ _ (capture_own _ _))).
  pose proof (internal_error_refused e (r_request s1) (fl_direction f) err g0) as Hr. unfold internal_error, emit_record in *.
  set (rec_ := AuditLog.internal_error _ _ _ _) in *. pose proof (emit_own (env e) rec_ g0) as Ho. set (g1 := emit rec_ g0) in *.
  assert (Hcap : capture g1 = capture g0) by (destruct (emit_spec (env e) rec_ g0) as ([Hbe _] & _); by apply behind_eq in Hbe as (_ & _ & _ & Hcap & _)).
  unfold redact_reason, with_injector in *. destruct (Injector.injector_redact_text (transforms g1) (injector g1) _) as [i [reason names]] eqn:Et.
  apply (DeliveredError e f s _ err g1); [exact Hf|exact (reached_trans _ _ _ R2 (own_reached _ _ Ho))|by rewrite Et|apply Hr|].
  cbn [r_engine capture set_injector]. rewrite Hcap. apply release_pending.
Qed.

Lemma response_inner_ok e f s s' u : response_inner others e f s = (s', Ok u) -> Delivered e f s s'.
Proof.
  intros Er. unfold response_inner in Er. step Er s2 u1 Hb. pose proof (redact_back_response e f s) as Hresp. pose proof (redact_back_reached e f s) as R2.
  rewrite Hb in Hresp, R2. cbn [fst] in Hresp, R2.
  step Er s3 x Hx. effs Hx. injection Hx as <- <-. step Er s3 decoded Hx. effs Hx. injection Hx as <- Hdec.
  destruct (BodyCodec.decoded_body _ _) as [dec|] eqn:Ed; [|done]. injection Hdec as ->. rewrite Hresp in Ed.
  step Er s3 u2 Hh. assert (Hr3 : r_response s3 = r_response s /\ reached (r_engine s) (r_engine s3)).
  { destruct decoded as [copy|]; [|by injection Hh as <-]. apply hold_copy_reached in Hh as [-> R3]. split; [done|exact (reached_trans _ _ _ R2 R3)]. }
  destruct Hr3 as [Hr3 R3]. step Er s4 y Hj. destruct y as [results decoded']. apply judge_response_ok in Hj as (Hr4 & -> & R4 & Hres). rewrite Hr3 in *.
  assert (R4' : reached (r_engine s) (r_engine s4)) by exact (reached_trans _ _ _ R3 R4).
  unfold first_block in Er. destruct (List.find Inspect.is_block results) as [block|] eqn:Ef.
  - apply List.find_some in Ef as [Hin Hbl]. destruct Hres as [->|(ctx & g & Rg & Rg' & Eres & Hctx)]; [done|]. unfold block_response in Er.
    step Er s5 z Hz. effs Hz. injection Hz as <- <-. step Er s5 z Hz. destruct z as [reason_ names1]. apply efn_ok in Hz as (z & Ez & Hz). injection Ez as <-.
    unfold on_r_engine' in Hz. pose proof (redact_reason_own (Inspect.reason block) (r_engine s4)) as Ho. unfold redact_reason, with_injector in Hz, Ho.
    destruct (Injector.injector_redact_text _ _ (Inspect.reason block)) as [i0 rt] eqn:Ert. injection Hz as <- ->.
    step Er s5 z Hz. destruct z as [resp red]. apply efn_ok in Hz as (z & Ez & Hz). injection Ez as <-. unfold on_r_engine', redact_resp, with_injector in Hz.
    cbn [r_engine r_request r_response] in Hz. destruct (Injector.redact_response _ _ _) as [[i resp'] red'] eqn:Err. injection Hz as <- -> ->.
    step Er s5 z Hz. effs Hz. injection Hz as <- _. step Er s5 more Hz. effs Hz. injection Hz as <- Hz. destruct red as [names|]; [|done].
    effs Er. destruct (redact_inspectors _ _) as [g3 insp]. injection Er as <-. cbn [r_engine r_request r_response].
    eapply (DeliveredBlock _ _ _ _ ctx g block reason_ (r_engine s4) _ i names);
      [exact (reached_trans _ _ _ R3 Rg)|exact Rg'|apply own_reached; exact Ho| |by rewrite <- Eres; apply list_elem_of_In|done|by rewrite Ert|exact Err].
    unfold BodyCodec.decoded_body_lenient. rewrite Ed. rewrite Hctx. by destruct decoded.
  - step Er s5 z Hz. destruct z as [red kept]. apply redact_worker_ok in Hz as (g & i & Rg & Hz). rewrite Hr4 in Hz.
    step Er s6 z Hy. effs Hy. injection Hy as <- Hy. destruct red as [names|]; [|done]. effs Er. injection Er as <-.
    eapply (DeliveredRedacted _ _ _ _ g i decoded names kept); [exact (reached_trans _ _ _ R4' Rg)|done|]. exact Hz.
Qed.

(** C4: Whatever the upstream answers and whatever fails on the way, the client gets
    one of three things: the upstream's response with every secret put back to its
    placeholder, over its decoded body; a 403 in its place, redacted too, when an
    inspector blocks what it decodes to; or a recorded 502, its capture entry
    dropped, whose text names the failure with every secret redacted.  A body that
    cannot be decoded is always the last; and that is the only failure that quotes
    the upstream's response at all, and of it only the Content-Encoding in lower
    case: the rest is a fixed text or a decompressor's own message. *)
Theorem response_delivered_safe e f s : let s' := response others e f s in
  Delivered e f s s'
  /\ (forall d, BodyCodec.decoded_body (resp_headers (r_response s)) (resp_body (r_response s)) = Err d ->
        status (r_response s') = 502
        /\ exists ce, header_get (resp_headers (r_response s)) (lit "content-encoding") = Some ce
             /\ (FlowStream.decode_error_text d = lit "unsupported Content-Encoding " ++ debug_str (to_lowercase ce)
                 \/ exists detail, FlowStream.decode_error_text d = lit "invalid " ++ to_lowercase ce ++ lit " body: " ++ detail
                      /\ to_lowercase ce ∈ BodyCodec.encodings /\ BodyCodec.complaint detail)).
Proof.
  intros s'. destruct (response_inner others e f s) as [s1 [u|err]] eqn:Er.
  - assert (Es : s' = s1) by (unfold s', response; by rewrite Er). rewrite Es. split; [by eapply response_inner_ok|]. intros d Hd. exfalso.
    unfold response_inner in Er. step Er s2 u1 Hb. pose proof (redact_back_response e f s) as Hresp. rewrite Hb in Hresp. cbn [fst] in Hresp.
    step Er s3 x Hx. effs Hx. injection Hx as <- <-. step Er s3 decoded Hx. effs Hx. injection Hx as _ Hx. by rewrite Hresp, Hd in Hx.
  - split; [by eapply response_error|]. intros d Hd. split.
    + unfold s', response. rewrite Er. cbv zeta. pose proof (internal_error_refused e (r_request s1) (fl_direction f) err (release_flow e (fl_id f) (r_engine s1))) as Hr.
      destruct (internal_error _ _ _ _ _). apply Hr.
    + destruct (BodyCodec.refusal_text _ _ _ Hd) as (ce & Hce & Hcases). exists ce. split; [exact Hce|]. destruct Hcases as [->|(detail & -> & Hin & Hc)]; [by left|right]. by exists detail.
Qed.

(** ** WebSocket messages *)

Lemma efn_step {S A} (f : S -> S * A) s s' a : efn f s = (s', Ok a) -> f s = (s', a).
Proof. intros (x & Ex & Hx)%efn_ok. by injection Ex as ->. Qed.
Lemma ws_chain_ok e l ctx phase reverse s s' results : ws_chain others e l ctx phase reverse s = (s', Ok results) ->
  w_message s' = w_message s /\ w_engine s' = others 1%nat (others 0%nat (w_engine s))
  /\ results = (run_chain_on e l ctx phase reverse (others 0%nat (w_engine s))).1.
Proof.
  unfold ws_chain. intros Hc. step Hc s1 x Hb. destruct x as [vs c]. effs Hc. injection Hc as <- <-. apply blocking_ok in Hb as (_ & s2 & Hb & ->).
  unfold on_w_engine', on_w_engine in *. cbn [w_engine w_message] in Hb. destruct (run_chain_on _ _ _ _ _ _) as [vs' c'] eqn:Er. injection Hb as <- <- <-. done.
Qed.
Lemma first_block_none results : first_block results = None <-> Inspect.blocked results = false.
Proof.
  unfold first_block, Inspect.blocked. induction results as [|v results IH]; cbn [List.find existsb]; [done|]. by destruct (Inspect.is_block v).
Qed.

(** Outwards: what the injection check and the chain say of the message, and what
    it is given for its placeholders. *)
Lemma ws_outbound_ok e l req ctx reverse s s' d : ws_outbound others e l req ctx reverse s = (s', Ok (Transport.WsForward, d)) ->
  let '(i, v) := Injector.check_ws_injection_policy (transforms (w_engine s)) (injector (w_engine s)) (Transport.content (w_message s)) (host req) in
  let g := others 0%nat (set_injector (w_engine s) (transforms (w_engine s)) i) in
  InjectorSpec.unblocked v
  /\ Inspect.blocked (run_chain_on e l (add_prior ctx v) Inspect.Request reverse g).1 = false
  /\ (let g := others 2%nat (others 1%nat g) in
      Transport.content (w_message s') = (Injector.inject_ws_content (transforms g) (injector g) (Transport.content (w_message s)) (host req)).2.1)
  /\ Transport.from_client (w_message s') = Transport.from_client (w_message s) /\ Transport.is_text (w_message s') = Transport.is_text (w_message s).
Proof.
  unfold ws_outbound. intros Ho. step Ho s0 x Hx. effs Hx. injection Hx as <- <-. step Ho s0 v Hx. apply efn_step in Hx. unfold on_w_engine', with_injector in Hx.
  destruct (Injector.check_ws_injection_policy _ _ _ _) as [i v'] eqn:Ev. injection Hx as <- ->. step Ho s1 verdicts Hc. apply ws_chain_ok in Hc as (Hm & He & Hv).
  cbn [w_message w_engine] in *. destruct (first_block (opt_list v ++ verdicts)) as [block|] eqn:Ef; [unfold ws_drop in Ho; by step Ho s2 u Hu|].
  apply first_block_none in Ef. rewrite Inspect.blocked_app in Ef. apply orb_false_iff in Ef as [E1 E2]. step Ho s2 y Hb. destruct y as [content injected].
  apply blocking_ok in Hb as (_ & s3 & Hb & ->). unfold inject_ws, on_w_engine in Hb. cbn [w_engine w_message] in Hb. rewrite He in Hb.
  destruct (Injector.inject_ws_content _ _ _ _) as [[w' i'] out] eqn:Ei. injection Hb as <- ->. step Ho s4 u Hu. effs Hu. injection Hu as <- _.
  cbn [w_engine w_message on_w_engine] in Ho. rewrite Hm in Ho.
  assert (Hs' : w_message s' = Transport.mkWs (Transport.from_client (w_message s)) (Transport.is_text (w_message s)) content).
  { destruct (match flagged_reasons _ with [] => _ | _ => _ end) as [decision reason_]. step Ho s5 u2 Hu. effs Ho. injection Ho as <- _.
    destruct (bool_decide _ || _ || _); effs Hu; by injection Hu as <-. }
  rewrite Hs'. cbn [Transport.content Transport.from_client Transport.is_text]. rewrite <- Hv. split_and!; [|done|first [done|cbv zeta; by rewrite Ei]|done|done].
  destruct v as [v|]; [|done]. cbn in E1 |- *. by rewrite orb_false_r in E1.
Qed.
Lemma ws_inbound_ok e l req ctx reverse s s' d : ws_inbound others e l req ctx reverse s = (s', Ok (Transport.WsForward, d)) ->
  w_message s' = w_message s /\ reached (w_engine s) (w_engine s')
  /\ Inspect.blocked (run_chain_on e l ctx Inspect.Response reverse (others 0%nat (w_engine s))).1 = false.
Proof.
  unfold ws_inbound. intros Hi. step Hi s1 results Hc. apply ws_chain_ok in Hc as (Hm & He & ->).
  assert (R1 : reached (w_engine s) (w_engine s1)) by (rewrite He; exact (reached_trans _ _ _ (others_reached 0 _) (others_reached 1 _))). destruct (first_block _) as [block|] eqn:Ef; [unfold ws_drop in Hi; by step Hi s2 u Hu|].
  apply first_block_none in Ef. step Hi s2 u Hu. effs Hi. injection Hi as <- _. rewrite <- Hm. destruct (l_log_allowed l); effs Hu; injection Hu as <-; [|done].
  split_and!; [done| |done]. exact (reached_trans _ _ _ R1 (own_reached _ _ (emit_decision_own _ _ _ _))).
Qed.
Lemma redact_ws_ok body s s' content : redact_ws body s = (s', Ok content) ->
  w_message s' = w_message s /\ content = (Injector.redact_ws_content (transforms (w_engine s)) (injector (w_engine s)) body).2.1.
Proof.
  unfold redact_ws. intros Hr. step Hr s1 x Hx. destruct x as [c names]. effs Hr. injection Hr as <- <-. apply efn_step in Hx. unfold on_w_engine', with_injector in Hx.
  destruct (Injector.redact_ws_content _ _ _) as [i out]. by injection Hx as <- ->.
Qed.

(** C5: A WebSocket message goes on only past the checks of its direction, whatever
    other flows do meanwhile.  From the world to the cage: the response chain does not
    block it, and what the cage gets is the message with every secret back to its
    placeholder.  From the cage to the world: the injection check and the request
    chain do not block it, so the message the cage sent has in it, in no form, the real
    value or a live token of a rule that did not cover the host when it was checked,
    unless the host was a redaction host then (which the check leaves alone).  What is
    sent is by the rules of its own moment, at an engine the call reaches: to a
    redaction host, the message with every secret back to its placeholder; to another
    host no rule covers, the message as it was.  A failure drops it, and an empty
    message passes. *)
Theorem websocket_message_safe e conn f req s :
  let '(s', verdict) := websocket_message others e conn f req s in
  let body := Transport.content (w_message s) in
  (body = [] -> verdict = Transport.WsForward /\ s' = s)
  /\ (verdict = Transport.WsForward -> body <> [] ->
      Transport.from_client (w_message s') = Transport.from_client (w_message s)
      /\ Transport.is_text (w_message s') = Transport.is_text (w_message s)
      /\ if Bool.eqb (Transport.from_client (w_message s)) (is_inbound conn) then
           Inspect.blocked (run_chain_on e (fl_live f) (ws_context f req body) Inspect.Response (is_inbound conn) (others 0%nat (w_engine s))).1 = false
           /\ exists g, reached (w_engine s) g /\ Transport.content (w_message s') = (Injector.redact_ws_content (transforms g) (injector g) body).2.1
         else
           exists v, (Injector.check_ws_injection_policy (transforms (w_engine s)) (injector (w_engine s)) body (host req)).2 = v
           /\ InjectorSpec.unblocked v
           /\ (exists g, reached (w_engine s) g /\ Inspect.blocked (run_chain_on e (fl_live f) (add_prior (ws_context f req body) v) Inspect.Request (is_inbound conn) g).1 = false)
           /\ let host_ := to_lowercase (host req) in
              (let i := injector (w_engine s) in
               Injector.redacts_to i host_ = true
               \/ (forall r, r ∈ Rules.rules i -> Injector.covers r host_ = false -> Forms.occurs (Injector.forms_for (Rules.real_value r) r) body = false)
                  /\ (forall r t, r ∈ Rules.rules i \/ r ∈ Rules.retired i -> t ∈ Rules.minted_values (transforms (w_engine s)) r ->
                        Injector.covers r host_ = false -> Forms.occurs (Injector.forms_for t r) body = false))
              /\ exists g, reached (w_engine s) g
                 /\ (if Injector.redacts_to (injector g) host_
                     then Transport.content (w_message s') = (Injector.redact_ws_content (transforms g) (injector g) body).2.1
                     else (forall r, r ∈ Rules.rules (injector g) -> Injector.covers r host_ = false) -> Transport.content (w_message s') = body)).
Proof.
  destruct (websocket_message others e conn f req s) as [s' verdict] eqn:Ew. cbv zeta. unfold websocket_message in Ew. split.
  { intros Hb. unfold websocket_inner in Ew. effs Ew. rewrite (bool_decide_eq_true_2 _ Hb) in Ew. by injection Ew as <- <-. }
  intros -> Hne. destruct (websocket_inner others e conn f req s) as [s1 [v|err]] eqn:Ei; [|done]. injection Ew as -> ->. unfold websocket_inner in Ei.
  step Ei s0 x Hx. effs Hx. injection Hx as <- <-. rewrite (bool_decide_eq_false_2 _ Hne) in Ei.
  step Ei s2 y Hy. destruct y as [verdict decision].
  step Ei s3 recorded Hr. apply redact_ws_ok in Hr as [Hr _]. step Ei s4 u Hu. effs Hu. injection Hu as <- _. effs Ei. injection Ei as <- ->. cbn [w_message]. rewrite Hr.
  destruct (Bool.eqb _ _).
  - step Hy s4 outcome Ho. step Hy s5 content Hc. apply redact_ws_ok in Hc as [Hm Hc]. step Hy s6 u2 Hu. effs Hu. injection Hu as <- _. effs Hy. injection Hy as <- ->.
    apply ws_inbound_ok in Ho as (Hmsg & R4 & Hb). cbn [w_message Transport.from_client Transport.is_text Transport.content]. rewrite Hm, Hmsg. split_and!; [done..|]. by exists (w_engine s4).
  - apply ws_outbound_ok in Hy. destruct (Injector.check_ws_injection_policy _ _ _ _) as [i v] eqn:Ev. destruct Hy as (Hu & Hb & Hc & Hf & Ht).
    pose proof (check_ws_own (transforms (w_engine s)) (injector (w_engine s)) (Transport.content (w_message s)) (host req)) as Ho. rewrite Ev in Ho. cbn [fst] in Ho.
    split_and!; [done..|]. exists v. assert (R1 : reached (w_engine s) (others 0%nat (set_injector (w_engine s) (transforms (w_engine s)) i))).
    { eapply reached_trans; [apply own_reached|apply (others_reached 0%nat)]. by split. }
    split_and!; [done|done|eexists; split; [exact R1|exact Hb]| |].
    + destruct (Injector.redacts_to (injector (w_engine s)) (to_lowercase (host req))) eqn:Hred; [by left|right].
      split; [intros r Hin Hcov; by apply (InjectorSpec.ws_unblocked _ _ _ _ v r Hred ltac:(by rewrite Ev))|].
      intros r t Hin Hmt Hcov. by apply (InjectorSpec.ws_unblocked_tokens _ _ _ _ v r t Hred ltac:(by rewrite Ev)).
    + cbv zeta in Hc. set (g := others 2%nat _) in Hc. exists g. split.
      { eapply reached_trans; [exact R1|]. eapply reached_trans; [apply (others_reached 1%nat)|apply (others_reached 2%nat)]. }
      rewrite Hc. destruct (Injector.redacts_to (injector g) (to_lowercase (host req))) eqn:Hred; [by apply InjectorSpec.inject_ws_redacts|].
      intros Hcov. by apply InjectorSpec.inject_ws_uncovered.
Qed.
End Flow.

(** ** Concrete flows *)

Section FlowInstances.
Import Samples.
#[local] Existing Instances unicode upper floats debug regexes variables logarithm plugins crates codecs transforms_ overlay_file mappings.
#[local] Existing Instances Text.no_regex Text.no_tables.

Definition alone (_ : nat) (g : Engine) : Engine := g.
Definition now_env : FlowEnv := mkFlowEnv (moment 1 (Ok small_config)) (repeat 0 16) (fun _ => None) None (Err []) true.
Definition to_a : Transport.ConnInfo :=
  Transport.mkConn 1 Transport.Transparent (V4 0, 1) (V4 0, 2) None false (Some (lit "A.com.")) true None.
Definition get_a : Request :=
  mkRequest (lit "GET") (lit "https") (lit "93.184.216.34") 443 (lit "/x") (lit "HTTP/1.1") [(lit "Host", lit "a.com:443")] [].
Definition run_request (g : Engine) := request re alone now_env to_a (mkReqState g get_a).
Definition forwards (r : ReqState * Transport.RequestAction Flow) : bool := match r.2 with Transport.Forward _ => true | _ => false end.
Lemma forwards_some r : forwards r = true -> exists s' f, r = (s', Transport.Forward f).
Proof. destruct r as [s' [f|resp]]; [by exists s', f|discriminate]. Qed.

Lemma forwarded_past_gates_witness : exists g s' f, start 1 (Ok small_config) = Some g /\ run_request g = (s', Transport.Forward f)
  /\ host (targeted to_a get_a) = lit "a.com"
  /\ exists g', at_chain re alone now_env to_a (mkReqState g get_a) g'
       /\ DomainInspector.inspect_host_at (domain g') (lit "a.com") (chain_now (env now_env)) = None.
Proof.
  destruct (is_some_ex (start 1 (Ok small_config)) ltac:(by vm_compute)) as [g Hg].
  assert (Hf : forwards (run_request g) = true).
  { assert (Hm : match start 1 (Ok small_config) with Some g => forwards (run_request g) | None => false end = true) by (vm_compute; reflexivity).
    by rewrite Hg in Hm. }
  destruct (forwards_some _ Hf) as (s' & f & Hr). exists g, s', f. split; [exact Hg|]. split; [exact Hr|].
  destruct (forwarded_past_gates re alone now_env to_a (mkReqState g get_a) s' f Chain.builtins_compile
              (boot_vetted re _ _ _ _ _ g Hg) (fun _ _ H => H) Hr) as [_ Hs].
  destruct (Hs eq_refl) as [Eh (g' & Hc & Hd)]. split; [exact Eh|]. exists g'. by split.
Defined.
Definition gated_injector (g : Engine) : Rules.Injector := injector (gated re alone now_env to_a (mkReqState g get_a)).
Lemma forwarded_secret_free_witness : exists g s' f, start 1 (Ok small_config) = Some g /\ run_request g = (s', Transport.Forward f)
  /\ map Rules.real_value (Rules.rules (gated_injector g)) = [lit "s3cr3t"]
  /\ forall r, r ∈ Rules.rules (gated_injector g) -> ~ InjectorSpec.carries (targeted to_a get_a) (Injector.forms_for (Rules.real_value r) r).
Proof.
  destruct (is_some_ex (start 1 (Ok small_config)) ltac:(by vm_compute)) as [g Hg].
  assert (Hm : match start 1 (Ok small_config) with
               | Some g => forwards (run_request g) && bool_decide (map Rules.real_value (Rules.rules (gated_injector g)) = [lit "s3cr3t"])
                           && forallb (fun r => negb (Injector.covers r (lit "a.com"))) (Rules.rules (gated_injector g))
                           && negb (Injector.redacts_to (gated_injector g) (lit "a.com"))
               | None => false end = true) by (vm_compute; reflexivity).
  rewrite Hg in Hm. apply andb_true_iff in Hm as [[[Hf Hv]%andb_true_iff Hc]%andb_true_iff Hred%negb_true_iff]. apply bool_decide_eq_true in Hv.
  destruct (forwards_some _ Hf) as (s' & f & Hr). exists g, s', f. split; [exact Hg|]. split; [exact Hr|]. split; [exact Hv|].
  destruct (forwarded_secret_free re alone now_env to_a (mkReqState g get_a) s' f eq_refl Hr) as ([Hx|[Hn _]] & _).
  - change (Injector.redacts_to (gated_injector g) (lit "a.com") = true) in Hx. congruence.
  - intros r Hin. apply Hn; [exact Hin|]. rewrite forallb_forall in Hc. apply negb_true_iff, Hc. by apply list_elem_of_In.
Defined.
End FlowInstances.
