(* ===== verification/MailRelay.v ===== *)
(** What the mail relays share: the model of [agentcage-egress/src/relays/mod.rs],
    of the configuration readers of [relays/imap.rs] both relays use, and of the
    lookup of their credentials ([secret_lookup.rs]). *)
From S2P Require Import Prelude Utf8 Json Value ConfigValues.
From S2P Require Url H1Spec.
From Stdlib Require Import SpecFloat ZifyBool.

(** * Definitions *)

(** ** Rates *)

Definition rate_space (c : Z) : bool := bool_decide (c ∈ [32; 9; 10; 13; 11; 12]).
Definition trim_end_while (f : Z -> bool) (s : list Z) : list Z := drop_while_end f s.
Definition trim_start_while (f : Z -> bool) (s : list Z) : list Z := drop_while f s.
Definition RATE_UNITS : list str := [lit "sec"; lit "s"; lit "min"; lit "m"; lit "hour"; lit "h"].
Definition is_rate_limit (text : str) : bool :=
  match split_once 47 (trim_matches rate_space text) with
  | None => false
  | Some (count, unit_) =>
      let count := trim_end_while rate_space count in
      let unit_ := map ascii_lower (trim_start_while rate_space unit_) in
      negb (bool_decide (count = [])) && forallb is_ascii_digit (as_bytes count) && bool_decide (unit_ ∈ RATE_UNITS)
  end.
(** The count and the window in nanoseconds. *)
Definition second : Z := 10 ^ 9.
Definition parse_rate_limit (spec : str) : option (Z * Z) :=
  if negb (is_rate_limit spec) then None
  else
    let? (count, unit_) := split_once 47 (trim_matches rate_space spec) in
    let? count := parse_unsigned usize_max (trim_end_while rate_space count) in
    let unit_ := map ascii_lower (trim_start_while rate_space unit_) in
    let? secs :=
      if bool_decide (unit_ = lit "sec") || bool_decide (unit_ = lit "s") then Some 1
      else if bool_decide (unit_ = lit "min") || bool_decide (unit_ = lit "m") then Some 60
      else if bool_decide (unit_ = lit "hour") || bool_decide (unit_ = lit "h") then Some 3600
      else None in
    Some (count, secs * second).

(** The instants are nanoseconds of the monotonic clock. *)
Record RateLimiter : Type := mkLimiter { max : Z; window : Z; stamps : list Z }.
Definition new_limiter (max window : Z) : RateLimiter := mkLimiter max window [].
Definition fresh (l : RateLimiter) (now t : Z) : bool := Z.max 0 (now - t) <? window l.
Definition take_slot (now : Z) (l : RateLimiter) : RateLimiter * bool :=
  let kept := List.filter (fresh l now) (stamps l) in
  if max l <=? Z.of_nat (length kept) then (mkLimiter (max l) (window l) kept, false)
  else (mkLimiter (max l) (window l) (kept ++ [now]), true).
Definition release_slot (l : RateLimiter) : RateLimiter := mkLimiter (max l) (window l) (removelast (stamps l)).

(** ** Text *)

Definition is_ascii_strip_space (b : Z) : bool := bool_decide (b ∈ [32; 9; 10; 13; 11; 12]).
(** The loop of [split_ws_ranges], on the fields themselves. *)
Fixpoint split_ws_loop (fuel : nat) (data : bytes) (maxsplit : option nat) (out : list bytes) : list bytes :=
  match fuel with
  | O => out
  | S fuel =>
      let data := drop_while is_ascii_strip_space data in
      if bool_decide (data = []) then out
      else if match maxsplit with Some m => Nat.eqb (length out) m | None => false end then out ++ [data]
      else let '(field, rest) := span (fun b => negb (is_ascii_strip_space b)) data in split_ws_loop fuel rest maxsplit (out ++ [field])
  end.
Definition split_ws (data : bytes) (maxsplit : option nat) : list bytes := split_ws_loop (S (length data)) data maxsplit [].
Fixpoint split_while (f : Z -> bool) (s : str) : list str :=
  match s with
  | [] => [[]]
  | c :: r => if f c then [] :: split_while f r else match split_while f r with p :: ps => (c :: p) :: ps | [] => [[c]] end
  end.
Definition split_str_ws (text : str) : list str := List.filter (fun t => negb (bool_decide (t = []))) (split_while is_strip_space text).
Definition ascii_lossy (data : bytes) : str := map (fun b => if is_ascii b then b else 65533) data.
Definition bytes_repr (data : bytes) : str :=
  let quote := if bool_decide (39 ∈ data) && negb (bool_decide (34 ∈ data)) then 34 else 39 in
  let one (b : Z) :=
    if b =? 92 then [92; 92]
    else if b =? 9 then [92; 116]
    else if b =? 10 then [92; 110]
    else if b =? 13 then [92; 114]
    else if b =? quote then [92; quote]
    else if in_range 32 126 b then [b]
    else 92 :: 120 :: hex2 b in
  98 :: quote :: flat_map one data ++ [quote].

(** [digits.contains("__")], and the digits without their underscores. *)
Definition parse_int_literal (text : str) : option Z :=
  let t := trim_matches is_strip_space text in
  match t with
  | [] => None
  | c :: rest =>
      let '(neg, digits) := if c =? 45 then (true, rest) else if c =? 43 then (false, rest) else (false, t) in
      if bool_decide (digits = []) || starts_with digits [95] || starts_with (rev digits) [95]
         || bool_decide (is_Some (find_sub [95; 95] digits)) || negb (forallb (fun b => is_ascii_digit b || (b =? 95)) (as_bytes digits))
      then None
      else
        let? value := parse_i64 (List.filter (fun c => negb (c =? 95)) digits) in
        Some (if neg : bool then - value else value)
  end.

Section Values.
Context `{F64Text}.

Definition coerce_int (value : Value) : result str Z :=
  match value with
  | VBool b => Ok (if b then 1 else 0)
  | VNumber n =>
      match number_as_i64 n with
      | Some i => Ok i
      | None =>
          match number_as_f64 n with
          | S754_nan | S754_infinity _ => Err (lit "cannot convert float NaN or infinity to integer")
          | f => Ok (f64_as_i64 f)
          end
      end
  | VString text =>
      match parse_int_literal text with
      | Some n => Ok n
      | None => Err (lit "invalid literal for int() with base 10: " ++ quote_text text)
      end
  | other => Err (lit "int() argument must be a string, a bytes-like object or a real number, not '" ++ kind_name other ++ lit "'")
  end.
Definition str_or (value : option Value) (default : str) : str :=
  match value with Some v => if is_truthy v then coerce_to_string v else default | None => default end.

(** The readers of [imap.rs]. *)
Definition mapping_or_empty (value : option Value) : result str (option Mapping) :=
  match value with
  | Some (VMapping m) => Ok (Some m)
  | Some v => if is_truthy v then Err (lit "'" ++ kind_name v ++ lit "' object has no attribute 'get'") else Ok None
  | None => Ok None
  end.
Definition entry_mapping (entry : Value) : result str Mapping :=
  match entry with VMapping m => Ok m | other => Err (lit "'" ++ kind_name other ++ lit "' object has no attribute 'get'") end.
Definition opt_get (m : option Mapping) (key : string) : option Value := let? m := m in mget m (lit key).
Definition not_iterable (v : Value) : str := lit "'" ++ kind_name v ++ lit "' object is not iterable".
Definition coerce_str_list (value : option Value) : result str (list str) :=
  match value with
  | None => Ok []
  | Some v =>
      if negb (is_truthy v) then Ok []
      else
        match v with
        | VSequence items => Ok (map coerce_to_string items)
        | VString text => Ok (map (fun c => [c]) text)
        | VMapping m => Ok (map (fun kv => coerce_to_string kv.1) m)
        | other => Err (not_iterable other)
        end
  end.
Record Upstream : Type := mkUpstream { up_host : str; up_port : Z; up_tls : bool; ca_pem : str; tls_servername : str }.
Definition parse_upstream (entry : Mapping) : result str Upstream :=
  let! up := mapping_or_empty (mget entry (lit "upstream")) in
  let! port := match opt_get up "port" with Some v => if is_truthy v then coerce_int v else Ok 0 | None => Ok 0 end in
  Ok (mkUpstream (str_or (opt_get up "host") []) (if in_range 0 65535 port then port else 0)
        (match opt_get up "tls" with Some v => is_truthy v | None => true end) (str_or (opt_get up "ca_pem") []) (str_or (opt_get up "tls_servername") [])).
End Values.

(** ** Credentials *)

(** What the staged directory says of a name: a file and what reading it gives, another
    kind of entry, nothing, or an error. *)
Inductive Staged : Type := StagedFile (contents : option bytes) | StagedOther | StagedMissing | StagedError.
Record Secrets_ : Type := mkSecrets { staged : str -> Staged; env_value : str -> option str }.
Definition read_secret (w : Secrets_) (name : str) : str :=
  if bool_decide (name = []) then []
  else if bool_decide (47 ∈ name) || bool_decide (name = [46]) || bool_decide (name = [46; 46]) then []
  else
    match staged w name with
    | StagedFile (Some contents) => trim_end_matches 10 (from_utf8_lossy contents)
    | StagedFile None => []
    | StagedOther | StagedMissing => default [] (env_value w name)
    | StagedError => []
    end.
Definition resolve_credential (w : Secrets_) (source : str) : result str str :=
  let '(scheme, arg) := default (source, []) (split_once 58 source) in
  if bool_decide (scheme = lit "env") || bool_decide (scheme = lit "systemd-creds") || bool_decide (scheme = []) then Ok (read_secret w arg)
  else Err (lit "unsupported relay credential source: " ++ quote_text source).

(** ** Buffered reads *)

Definition STREAM_LINE_LIMIT : nat := Z.to_nat (64 * 1024).
Definition TOO_LONG_KEEP : nat := Z.to_nat 1024.
Inductive Line : Type := Data (l : bytes) | TooLong (head tail : bytes).
(** The unread part of the buffer and what each read of the socket gives; an empty
    read is the end. *)
Record Reader : Type := mkReader { buf : bytes; arrivals : list bytes }.
Definition new_reader (arrivals : list bytes) : Reader := mkReader [] arrivals.
Definition fill (r : Reader) : option Reader :=
  match arrivals r with
  | [] | [] :: _ => None
  | a :: rest => Some (mkReader (buf r ++ a) rest)
  end.
(** What is left to read, up to the end. *)
Fixpoint to_come (l : list bytes) : bytes := match l with [] => [] | a :: r => if bool_decide (a = []) then [] else a ++ to_come r end.
Definition unread (r : Reader) : bytes := buf r ++ to_come (arrivals r).
Definition take_bytes (n : nat) (r : Reader) : bytes * Reader := (take n (buf r), mkReader (drop n (buf r)) (arrivals r)).
Definition keep_ends (data head tail : bytes) : bytes * bytes :=
  (head ++ take (TOO_LONG_KEEP - length head) data, let t := tail ++ data in drop (length t - 64) t).
Fixpoint drop_loop (fuel : nat) (r : Reader) (head tail : bytes) : option (Line * Reader) :=
  match fuel with
  | O => None
  | S fuel =>
      match find_sub [10] (buf r) with
      | Some i =>
          let '(data, r) := take_bytes (i + 1) r in
          let '(head, tail) := keep_ends data head tail in Some (TooLong head tail, r)
      | None =>
          let '(data, r) := take_bytes (length (buf r)) r in
          let '(head, tail) := keep_ends data head tail in
          match fill r with Some r => drop_loop fuel r head tail | None => Some (TooLong head tail, r) end
      end
  end.
Definition drop_line (fuel : nat) (r : Reader) (through : nat) : option (Line * Reader) :=
  if Nat.ltb 0 through then
    let '(data, r) := take_bytes through r in
    let '(head, tail) := keep_ends data [] [] in Some (TooLong head tail, r)
  else drop_loop fuel r [] [].
Fixpoint read_line_loop (fuel limit scanned : nat) (r : Reader) : option (Line * Reader) :=
  match fuel with
  | O => None
  | S more =>
      match find_sub [10] (drop scanned (buf r)) with
      | Some i =>
          let at_ := (scanned + i)%nat in
          if Nat.ltb limit at_ then drop_line fuel r (at_ + 1)
          else let '(l, r) := take_bytes (at_ + 1) r in Some (Data l, r)
      | None =>
          let scanned := length (buf r) in
          if Nat.ltb limit scanned then drop_line fuel r 0
          else
            match fill r with
            | Some r => read_line_loop more limit scanned r
            | None => let '(l, r) := take_bytes (length (buf r)) r in Some (Data l, r)
            end
      end
  end.
(** A read of the socket a round, and one for the end. *)
Definition read_line (limit : nat) (r : Reader) : Line * Reader := default (Data [], r) (read_line_loop (S (length (arrivals r))) limit 0 r).
(** The rounds are the reads, and one for the end. *)
Fixpoint read_exact_loop (fuel n : nat) (r : Reader) : option (option bytes * Reader) :=
  match fuel with
  | O => None
  | S fuel =>
      if Nat.ltb (length (buf r)) n then match fill r with Some r => read_exact_loop fuel n r | None => Some (None, r) end
      else let '(b, r) := take_bytes n r in Some (Some b, r)
  end.
Definition read_exact (n : nat) (r : Reader) : option bytes * Reader := default (None, r) (read_exact_loop (S (length (arrivals r))) n r).
Definition read_some (max : nat) (r : Reader) : bytes * Reader :=
  match (if bool_decide (buf r = []) then fill r else Some r) with
  | None => ([], r)
  | Some r => take_bytes (Nat.min (length (buf r)) max) r
  end.

Inductive SessionError : Type := Io (disconnect : bool) (message : str) | Timeout | Other (message : str).
Definition session_error_text (e : SessionError) : str := match e with Io _ m => m | Timeout => [] | Other m => m end.
Definition is_disconnect (e : SessionError) : bool := match e with Io d _ => d | _ => false end.
Definition line_too_long : SessionError := Other (lit "Separator is found, but chunk is longer than limit").

(** ** Addresses *)

Definition parse_listen (listen : str) : result str (str * Z) :=
  let '(host, port) := default ([], listen) (Url.rsplit_once 58 listen) in
  if bool_decide (port = []) || negb (forallb is_ascii_digit (as_bytes port)) then Err (lit "invalid listen address: " ++ quote_text listen)
  else
    match parse_unsigned 65535 port with
    | None => Err (lit "bind(): port must be 0-65535.")
    | Some port => Ok (if bool_decide (host = []) then lit "0.0.0.0" else host, port)
    end.
Definition up_display (u : Upstream) : str := up_host u ++ [58] ++ show_unsigned (up_port u).

(** ** A session *)

(** What a session does: lines to the cage and to the upstream, the upstream
    connection opened and closed, the upstream's answer to an announced literal, audit
    records. *)
Inductive Event : Type := ToCage (b : bytes) | ToUpstream (b : bytes) | Connected | Closed | Recorded (entry : Json).
(** How a read goes: bytes come, or not in time, or the relay stops, or it fails. *)
Inductive Moment (E : Type) : Type := Arrives | TimesOut | Stops | Breaks (e : E).
Arguments Arrives {E}.
Arguments TimesOut {E}.
Arguments Stops {E}.
Arguments Breaks {E} e.
(** What the session meets outside, by the number of the step. *)
Record Env (Settings : Type) : Type := mkEnv {
  cage_read : nat -> Moment SessionError; cage_write : nat -> option SessionError;
  up_connect : nat -> result str (list bytes); up_read : nat -> Moment str; up_write : nat -> option str;
  now : nat -> Z; live : nat -> Settings; worker : nat -> option str; elsewhere : nat -> RateLimiter -> RateLimiter
}.
Arguments cage_read {Settings}.
Arguments cage_write {Settings}.
Arguments up_connect {Settings}.
Arguments up_read {Settings}.
Arguments up_write {Settings}.
Arguments now {Settings}.
Arguments live {Settings}.
Arguments worker {Settings}.
Arguments elsewhere {Settings}.
Record World : Type := mkWorld { tick : nat; cage : Reader; up : option Reader; limiter : RateLimiter; log : list Event }.
Definition tick_on (w : World) : World := mkWorld (S (tick w)) (cage w) (up w) (limiter w) (log w).
Definition set_cage (r : Reader) (w : World) : World := mkWorld (tick w) r (up w) (limiter w) (log w).
Definition set_up (r : option Reader) (w : World) : World := mkWorld (tick w) (cage w) r (limiter w) (log w).
Definition set_limiter (l : RateLimiter) (w : World) : World := mkWorld (tick w) (cage w) (up w) l (log w).
Definition add_event (e : Event) (w : World) : World := mkWorld (tick w) (cage w) (up w) (limiter w) (log w ++ [e]).

(** A computation of the session; [None] when the fuel of a loop ran out. *)
Definition session (E A : Type) : Type := World -> option (World * result E A).
#[global] Instance session_ret E : MRet (session E) := fun A a w => Some (w, Ok a).
#[global] Instance session_bind E : MBind (session E) := fun A B k m w =>
  match m w with
  | Some (w, Ok a) => k a w
  | Some (w, Err e) => Some (w, Err e)
  | None => None
  end.
Definition fails {E A} (e : E) : session E A := fun w => Some (w, Err e).
Definition changes {E} (f : World -> World) : session E unit := fun w => Some (f w, Ok tt).
(** The result as a value. *)
Definition attempt {E E' A} (m : session E A) : session E' (result E A) := fun w => let? (w, r) := m w in Some (w, Ok r).
Definition reads {E A} (f : World -> A) : session E A := fun w => Some (w, Ok (f w)).
Definition has_up (w : World) : bool := bool_decide (is_Some (up w)).
Definition cage_size (w : World) : nat := length (unread (cage w)).
Definition up_size (w : World) : nat := match up w with Some r => length (unread r) | None => 0%nat end.
Definition asks {E A} (f : nat -> A) : session E A := fun w => Some (tick_on w, Ok (f (tick w))).

Section Session.
Context {Settings : Type} (env : Env Settings) (idle_timeout : Z).

Definition emits {E} (fields : list (string * Json)) : session E unit := changes (add_event (Recorded (object fields))).
Definition write_cage (b : bytes) : session SessionError unit :=
  failed ← asks (cage_write env);
  match failed with Some e => fails e | None => changes (add_event (ToCage b)) end.
Definition ends_crlf (b : bytes) : bool := starts_with (rev b) [10; 13].
Definition crlf_line (line : bytes) : bytes := if ends_crlf line then line else line ++ [13; 10].
Definition write_line (line : bytes) : session SessionError unit := write_cage (crlf_line line).

Inductive Read : Type := ReadLine (l : bytes) | ReadTimeout | ReadShutdown.
Definition take_line : session SessionError Read := fun w =>
  let '(l, r) := read_line STREAM_LINE_LIMIT (cage w) in
  Some (set_cage r w, match l with Data l => Ok (ReadLine l) | TooLong _ _ => Err line_too_long end).
Definition read_cage : session SessionError Read :=
  m ← asks (cage_read env);
  match m with
  | Arrives => take_line
  | TimesOut => if 0 <? idle_timeout then mret ReadTimeout else take_line
  | Stops => mret ReadShutdown
  | Breaks e => fails e
  end.

(** The upstream half. *)
Definition write_up (b : bytes) : session str unit :=
  failed ← asks (up_write env);
  match failed with Some e => fails e | None => changes (add_event (ToUpstream b)) end.
Definition take_up_line : session str bytes := fun w =>
  match up w with
  | None => Some (w, Ok [])
  | Some r =>
      let '(l, r) := read_line STREAM_LINE_LIMIT r in
      Some (set_up (Some r) w, match l with Data l => Ok l | TooLong _ _ => Err (session_error_text line_too_long) end)
  end.
Definition up_readline : session str bytes :=
  m ← asks (up_read env);
  match m with
  | TimesOut => if 0 <? idle_timeout then fails [] else take_up_line
  | Breaks e => fails e
  | Arrives | Stops => take_up_line
  end.

(** The limiter, which the other sessions of the relay use too. *)
Definition takes_slot {E} : session E bool := fun w =>
  let '(l, ok) := take_slot (now env (tick w)) (elsewhere env (tick w) (limiter w)) in Some (set_limiter l (tick_on w), Ok ok).
Definition releases_slot {E} : session E unit := fun w =>
  Some (set_limiter (release_slot (elsewhere env (tick w) (limiter w))) (tick_on w), Ok tt).
End Session.

(** * Theorems *)

(** ** Lines *)

Lemma fill_spec r : match fill r with
  | Some r' => unread r' = unread r /\ (length (arrivals r') < length (arrivals r))%nat
               /\ exists a, buf r' = buf r ++ a
  | None => unread r = buf r
  end.
Proof.
  unfold fill, unread. destruct (arrivals r) as [|[|b a] rest]; cbn [to_come buf arrivals]; rewrite ?app_nil_r; [done| |].
  - done.
  - split_and!; [by rewrite <- app_assoc|cbn; lia|by eexists].
Qed.
Lemma find_lf_after scanned l more i : 10 ∉ take scanned l -> find_sub [10] (drop scanned l) = Some i -> find_sub [10] (l ++ more) = Some (scanned + i)%nat
  /\ (scanned + i < length l)%nat.
Proof.
  intros Hs Hf. apply H1Spec.find_lf_some in Hf as (a & b & E & Ha & <-). pose proof (f_equal length E) as El. rewrite length_drop, length_app in El. cbn [length] in El.
  split; [|lia]. replace (l ++ more) with ((take scanned l ++ a) ++ 10 :: b ++ more) by (rewrite <- (take_drop scanned l) at 2; rewrite E; by rewrite <- !app_assoc).
  rewrite H1Spec.find_lf_app by (rewrite not_elem_of_app; by split). rewrite length_app, length_take. f_equal. lia.
Qed.
Lemma find_lf_not scanned l : 10 ∉ take scanned l -> find_sub [10] (drop scanned l) = None -> 10 ∉ l.
Proof. intros Hs Hf. rewrite <- (take_drop scanned l), not_elem_of_app. split; [done|]. by apply H1Spec.find_lf_none. Qed.
Lemma find_lf_app_r l more : 10 ∉ l -> find_sub [10] (l ++ more) = (let? i := find_sub [10] more in Some (length l + i)%nat).
Proof.
  intros Hl. destruct (find_sub [10] more) as [i|] eqn:E.
  - apply H1Spec.find_lf_some in E as (a & b & -> & Ha & <-). rewrite app_assoc, H1Spec.find_lf_app by (rewrite not_elem_of_app; by split). by rewrite length_app.
  - apply H1Spec.find_lf_none. rewrite not_elem_of_app. split; [done|]. by apply H1Spec.find_lf_none.
Qed.
Definition after_line (s : bytes) : bytes := match find_sub [10] s with Some i => drop (S i) s | None => [] end.
Lemma unread_take n r : (n <= length (buf r))%nat -> unread (take_bytes n r).2 = drop n (unread r).
Proof. intros Hn. unfold unread, take_bytes. cbn. by rewrite drop_app_le. Qed.
Lemma drop_loop_spec fuel : forall r head tail, (length (arrivals r) < fuel)%nat ->
  exists h t r', drop_loop fuel r head tail = Some (TooLong h t, r') /\ unread r' = after_line (unread r).
Proof.
  induction fuel as [|fuel IH]; intros r head tail Hf; [lia|]. cbn [drop_loop]. unfold after_line. destruct (find_sub [10] (buf r)) as [i|] eqn:E.
  - destruct (find_lf_after 0 (buf r) (to_come (arrivals r)) i) as [Ef Hi]; [by rewrite take_0; apply not_elem_of_nil|exact E|]. fold (unread r) in Ef. rewrite Ef. cbn [Nat.add] in *.
    change (take_bytes (i + 1) r) with ((take_bytes (i + 1) r).1, (take_bytes (i + 1) r).2). cbv iota. destruct (keep_ends _ head tail) as [h t].
    eexists _, _, _. split; [done|]. rewrite unread_take by lia. f_equal. lia.
  - apply H1Spec.find_lf_none in E. set (r1 := (take_bytes (length (buf r)) r).2).
    change (take_bytes (length (buf r)) r) with ((take_bytes (length (buf r)) r).1, r1). cbv iota. destruct (keep_ends _ head tail) as [h t].
    assert (E1 : unread r1 = to_come (arrivals r)) by (unfold r1, unread, take_bytes; cbn [snd buf arrivals]; by rewrite drop_all).
    pose proof (find_lf_app_r (buf r) (to_come (arrivals r)) E) as Hu. fold (unread r) in Hu. rewrite Hu.
    pose proof (fill_spec r1) as Hfill. destruct (fill r1) as [r2|].
    + destruct Hfill as (E2 & Hl & _). destruct (IH r2 h t) as (h' & t' & r' & -> & E'); [cbn in Hl; lia|]. eexists _, _, _. split; [done|]. rewrite E', E2, E1.
      unfold after_line. destruct (find_sub [10] (to_come (arrivals r))); [|done]. unfold unread. rewrite drop_app_ge by lia. f_equal. lia.
    + eexists _, _, _. split; [done|]. rewrite Hfill. unfold r1, take_bytes. cbn [snd buf]. rewrite drop_all. rewrite <- E1, Hfill. unfold r1, take_bytes. cbn [snd buf]. by rewrite drop_all.
Qed.
Definition line_of (limit : nat) (s : bytes) (l : Line) : Prop :=
  let n := match find_sub [10] s with Some i => i | None => length s end in
  if Nat.leb n limit then l = Data (take (S n) s) else exists h t, l = TooLong h t.
Lemma read_line_loop_spec limit fuel : forall scanned r, (length (arrivals r) < fuel)%nat -> 10 ∉ take scanned (buf r) ->
  exists l r', read_line_loop fuel limit scanned r = Some (l, r') /\ line_of limit (unread r) l /\ unread r' = after_line (unread r).
Proof.
  induction fuel as [|fuel IH]; intros scanned r Hf Hs; [lia|]. cbn [read_line_loop]. destruct (find_sub [10] (drop scanned (buf r))) as [i|] eqn:E.
  - destruct (find_lf_after scanned (buf r) (to_come (arrivals r)) i Hs E) as [E' Hi]. unfold line_of, after_line. fold (unread r) in E'. rewrite E'.
    destruct (Nat.ltb_spec limit (scanned + i)) as [Hlt|Hle].
    + unfold drop_line. destruct (Nat.ltb_spec 0 (scanned + i + 1)); [|lia]. cbv zeta.
      change (take_bytes (scanned + i + 1) r) with ((take_bytes (scanned + i + 1) r).1, (take_bytes (scanned + i + 1) r).2). cbv iota. destruct (keep_ends _ [] []) as [h t].
      eexists _, _. split; [done|]. rewrite unread_take by lia. destruct (Nat.leb_spec (scanned + i) limit); [lia|]. split; [by eexists _, _|]. f_equal. lia.
    + eexists _, _. split; [reflexivity|]. destruct (Nat.leb_spec (scanned + i) limit); [|lia]. split.
      * f_equal. cbn. unfold unread. rewrite take_app_le by lia. f_equal. lia.
      * change (mkReader (drop (scanned + i + 1) (buf r)) (arrivals r)) with (take_bytes (scanned + i + 1) r).2. rewrite unread_take by lia. f_equal. lia.
  - pose proof (find_lf_not _ _ Hs E) as Hn. pose proof (find_lf_app_r (buf r) (to_come (arrivals r)) Hn) as Hu. fold (unread r) in Hu.
    destruct (Nat.ltb_spec limit (length (buf r))) as [Hlt|Hle].
    + unfold drop_line. cbn [Nat.ltb Nat.leb]. destruct (drop_loop_spec (S fuel) r [] [] Hf) as (h & t & r' & -> & E'). eexists _, _. split; [done|]. split; [|exact E'].
      unfold line_of. assert (Hl : (length (buf r) <= length (unread r))%nat) by (unfold unread; rewrite length_app; lia). rewrite Hu.
      destruct (find_sub [10] (to_come (arrivals r))) as [j|]; [destruct (Nat.leb_spec (length (buf r) + j) limit)|destruct (Nat.leb_spec (length (unread r)) limit)]; try lia; by eexists _, _.
    + pose proof (fill_spec r) as Hfill. destruct (fill r) as [r1|].
      * destruct Hfill as (E1 & Hl & a & Ea). rewrite <- E1. apply IH; [lia|]. rewrite Ea, take_app_length. exact Hn.
      * eexists _, _. split; [reflexivity|]. unfold line_of, after_line. rewrite Hfill. rewrite (proj2 (H1Spec.find_lf_none (buf r)) Hn).
        destruct (Nat.leb_spec (length (buf r)) limit); [|lia]. split; [f_equal; cbn; by rewrite !take_ge by lia|].
        change (mkReader (drop (length (buf r)) (buf r)) (arrivals r)) with (take_bytes (length (buf r)) r).2. rewrite unread_take by lia. by rewrite Hfill, drop_all.
Qed.
(** A line does not depend on how the network cuts the bytes up: it is the bytes up to
    the next LF, or to the end, unless there are too many of them. *)
Lemma read_line_spec limit r : let '(l, r') := read_line limit r in line_of limit (unread r) l /\ unread r' = after_line (unread r).
Proof.
  unfold read_line. destruct (read_line_loop_spec limit (S (length (arrivals r))) 0 r) as (l & r' & -> & Hl); [lia|rewrite take_0; apply not_elem_of_nil|exact Hl].
Qed.
Lemma after_line_size s : (length (after_line s) <= length s)%nat /\ (s <> [] -> length (after_line s) < length s)%nat.
Proof. unfold after_line. destruct (find_sub [10] s); [rewrite length_drop|cbn [length]]; (split; [lia|]); destruct s; cbn [length]; done || lia. Qed.
Lemma read_exact_loop_spec fuel n : forall r, (length (arrivals r) < fuel)%nat -> exists b r', read_exact_loop fuel n r = Some (b, r') /\
  match b with Some b => length b = n /\ unread r = b ++ unread r' | None => unread r' = unread r end.
Proof.
  induction fuel as [|fuel IH]; intros r Hf; [lia|]. cbn [read_exact_loop]. destruct (Nat.ltb_spec (length (buf r)) n) as [Hn|Hn].
  - pose proof (fill_spec r) as Hfill. destruct (fill r) as [r1|]; [|by eexists None, r]. destruct Hfill as (<- & Hl & _). apply IH. lia.
  - eexists (Some _), _. split; [reflexivity|]. rewrite length_take. split; [lia|]. unfold unread, take_bytes. cbn [buf arrivals]. by rewrite app_assoc, take_drop.
Qed.
Lemma read_exact_spec n r : let '(b, r') := read_exact n r in
  match b with Some b => length b = n /\ unread r = b ++ unread r' | None => unread r' = unread r end.
Proof. unfold read_exact. destruct (read_exact_loop_spec (S (length (arrivals r))) n r) as (b & r' & -> & Hb); [lia|exact Hb]. Qed.
Lemma read_some_spec m r : let '(b, r') := read_some m r in unread r = b ++ unread r' /\ (length b <= m)%nat.
Proof.
  unfold read_some. assert (Ht : forall r, let '(b, r') := take_bytes (Nat.min (length (buf r)) m) r in unread r = b ++ unread r' /\ (length b <= m)%nat).
  { intros r1. unfold unread, take_bytes. cbn [buf arrivals]. rewrite length_take. split; [by rewrite app_assoc, take_drop|lia]. }
  case_bool_decide as E; [|apply Ht]. pose proof (fill_spec r) as Hfill. destruct (fill r) as [r1|]; [|cbn; split; [done|lia]].
  destruct Hfill as (<- & _). apply Ht.
Qed.
(** The LF of a line is its last byte. *)
Definition one_line (l : bytes) : Prop := exists x, (10 ∉ x) /\ (l = x \/ l = x ++ [10]).
Lemma line_of_data limit s d : line_of limit s (Data d) -> one_line d /\ (s = [] -> d = []).
Proof.
  unfold line_of. intros Hl. split.
  - destruct (find_sub [10] s) as [i|] eqn:E.
    + apply H1Spec.find_lf_some in E as (a & b & -> & Ha & <-). destruct (Nat.leb _ _); [|by destruct Hl as (? & ? & ?)]. injection Hl as ->.
      exists a. split; [done|right]. replace (S (length a)) with (length a + 1)%nat by lia. by rewrite take_app_add.
    + apply H1Spec.find_lf_none in E. destruct (Nat.leb _ _); [|by destruct Hl as (? & ? & ?)]. injection Hl as ->. exists s. split; [done|left]. by rewrite take_ge by lia.
  - intros ->. cbn in Hl. by injection Hl as ->.
Qed.

(** ** Reasoning about sessions *)

(** What a reader of the log looks at, which is neither what the cage was told nor an
    audit record nor a connection. *)
Class Sees (X : Type) := {
  sees : Event -> option X;
  sees_cage b : sees (ToCage b) = None; sees_recorded j : sees (Recorded j) = None;
  sees_connected : sees Connected = None; sees_closed : sees Closed = None
}.
Definition seen `{Sees X} (l : list Event) : list X := omap sees l.
Lemma seen_app `{Sees X} a b : seen (a ++ b) = seen a ++ seen b.
Proof. apply omap_app. Qed.
Lemma seen_nothing `{Sees X} l e : sees e = None -> seen (l ++ [e]) = seen l ++ [].
Proof. intros He. rewrite seen_app. unfold seen at 2. cbn. by rewrite He. Qed.
(** What was sent to the upstream. *)
Definition sent_bytes (e : Event) : option bytes := match e with ToUpstream b => Some b | _ => None end.
Definition sent (l : list Event) : list bytes := omap sent_bytes l.
Definition sees_sent : Sees bytes :=
  {| sees := sent_bytes; sees_cage _ := eq_refl; sees_recorded _ := eq_refl; sees_connected := eq_refl; sees_closed := eq_refl |}.

Section Hoare.
Context {X : Type} {SX : Sees X}.
(** [m] returns from [w]; what is seen of it, with the world and the result
    it ends with, is as [Q] says, and it gave the cage nothing to read again. *)
Definition runs {E A} (w : World) (m : session E A) (Q : World -> list X -> result E A -> Prop) : Prop :=
  match m w with
  | Some (w', r) => exists new, seen (log w') = seen (log w) ++ new /\ (cage_size w' <= cage_size w)%nat /\ Q w' new r
  | None => False
  end.
Definition says {E A} (m : session E A) (Q : list X -> result E A -> Prop) : Prop := forall w, runs w m (fun _ => Q).
Definition quiet {E A} (m : session E A) : Prop := says m (fun new _ => new = []).

Lemma runs_weaken {E A} w (m : session E A) P Q : runs w m P -> (forall w' n r, P w' n r -> Q w' n r) -> runs w m Q.
Proof. unfold runs. destruct (m w) as [[w' r]|]; [|done]. intros (n & ? & ? & ?) HQ. exists n. auto. Qed.
Lemma runs_bind {E A B} w (m : session E A) (k : A -> session E B) P Q : runs w m P ->
  (forall w' n a, (cage_size w' <= cage_size w)%nat -> P w' n (Ok a) -> runs w' (k a) (fun w2 n2 r => Q w2 (n ++ n2) r)) ->
  (forall w' n e, P w' n (Err e) -> Q w' n (Err e)) -> runs w (m ≫= k) Q.
Proof.
  unfold runs, mbind, session_bind. destruct (m w) as [[w1 [a|e]]|]; [| |done]; intros (n & En & Hs & HP) Hk He.
  - specialize (Hk w1 n a Hs HP). destruct (k a w1) as [[w2 r]|]; [|done]. destruct Hk as (n2 & En2 & Hs2 & HQ). exists (n ++ n2).
    rewrite En2, En, app_assoc. split_and!; [done|lia|done].
  - exists n. auto.
Qed.
Lemma runs_ret {E A} w (a : A) (Q : World -> list X -> result E A -> Prop) : Q w [] (Ok a) -> runs w (mret a) Q.
Proof. intros HQ. exists []. rewrite app_nil_r. by split_and!. Qed.
Lemma runs_fails {E A} w (e : E) (Q : World -> list X -> result E A -> Prop) : Q w [] (Err e) -> runs w (fails e) Q.
Proof. intros HQ. exists []. rewrite app_nil_r. by split_and!. Qed.
Lemma runs_reads {E A B} w (f : World -> A) (k : A -> session E B) Q : runs w (k (f w)) Q -> runs w (reads f ≫= k) Q.
Proof. done. Qed.
Lemma says_weaken {E A} (m : session E A) (P Q : list X -> result E A -> Prop) : says m P -> (forall n r, P n r -> Q n r) -> says m Q.
Proof. intros Hm HQ w. eapply runs_weaken; [apply Hm|]. auto. Qed.
Lemma says_bind {E A B} (m : session E A) (k : A -> session E B) P (Q : list X -> result E B -> Prop) : says m P ->
  (forall n a, P n (Ok a) -> says (k a) (fun n2 r => Q (n ++ n2) r)) -> (forall n e, P n (Err e) -> Q n (Err e)) -> says (m ≫= k) Q.
Proof. intros Hm Hk He w. eapply runs_bind; [apply Hm| |auto]. intros w' n a _ HP. by apply Hk. Qed.
(** A quiet step in front. *)
Lemma says_after {E A B} (m : session E A) (k : A -> session E B) (Q : list X -> result E B -> Prop) : quiet m ->
  (forall a, says (k a) Q) -> (forall e, Q [] (Err e)) -> says (m ≫= k) Q.
Proof. intros Hm Hk He. eapply says_bind; [exact Hm| |]; intros n a ->; [apply Hk|apply He]. Qed.
Lemma says_attempt {E E' A} (m : session E A) (Q : list X -> result E' (result E A) -> Prop) : says m (fun n r => Q n (Ok r)) -> says (attempt m) Q.
Proof. intros Hm w. specialize (Hm w). unfold runs, attempt in *. by destruct (m w) as [[w' r]|]. Qed.
Lemma says_reads {E A} (f : World -> A) : quiet (reads f : session E A).
Proof. intros w. exists []. rewrite app_nil_r. by split_and!. Qed.
Lemma says_asks {E A} (f : nat -> A) : quiet (asks f : session E A).
Proof. intros w. exists []. rewrite app_nil_r. by split_and!. Qed.
Lemma says_asked {E A B} (f : nat -> A) (k : A -> session E B) Q : (forall i, says (k (f i)) Q) -> says (asks f ≫= k) Q.
Proof. intros Hk w. exact (Hk (tick w) (tick_on w)). Qed.

Lemma quiet_ret {E A} (a : A) : quiet (mret a : session E A).
Proof. intros w. by apply runs_ret. Qed.
Lemma quiet_fails {E A} (e : E) : quiet (fails e : session E A).
Proof. intros w. by apply runs_fails. Qed.
Lemma quiet_bind {E A B} (m : session E A) (k : A -> session E B) : quiet m -> (forall a, quiet (k a)) -> quiet (m ≫= k).
Proof. intros Hm Hk. apply says_after; [exact Hm|exact Hk|done]. Qed.
Lemma quiet_attempt {E E' A} (m : session E A) : quiet m -> quiet (attempt m : session E' _).
Proof. intros Hm. by apply says_attempt. Qed.
Lemma quiet_event {E} e : sees e = None -> quiet (changes (add_event e) : session E unit).
Proof. intros He w. exists []. split_and!; [by apply seen_nothing|done|done]. Qed.

Section Operations.
Context {Settings : Type} (env : Env Settings) (idle_timeout : Z).
Lemma quiet_emits {E} fields : quiet (emits fields : session E unit).
Proof. apply quiet_event, sees_recorded. Qed.
Lemma quiet_write_cage b : quiet (write_cage env b).
Proof. apply quiet_bind; [apply says_asks|]. intros [e|]; [apply quiet_fails|apply quiet_event, sees_cage]. Qed.
Lemma quiet_write_line b : quiet (write_line env b).
Proof. apply quiet_write_cage. Qed.
Lemma quiet_takes_slot {E} : quiet (takes_slot env : session E bool).
Proof. intros w. unfold runs, takes_slot. destruct (take_slot _ _) as [l ok]. exists []. rewrite app_nil_r. by split_and!. Qed.
Lemma quiet_releases_slot {E} : quiet (releases_slot env : session E unit).
Proof. intros w. exists []. rewrite app_nil_r. by split_and!. Qed.

(** A line of the cage, and less left to read unless it is the end. *)
Definition a_read (w w' : World) (n : list X) (r : result SessionError Read) : Prop :=
  n = [] /\ match r with Ok (ReadLine l) => one_line l /\ (l <> [] -> (cage_size w' < cage_size w)%nat) | _ => True end.
Lemma runs_take_line w : runs w take_line (a_read w).
Proof.
  unfold runs, take_line, a_read. pose proof (read_line_spec STREAM_LINE_LIMIT (cage w)) as Hs. destruct (read_line _ _) as [l r']. destruct Hs as [Hl Er].
  destruct (after_line_size (unread (cage w))) as [H1 H2]. exists []. rewrite app_nil_r. unfold cage_size. cbn [cage set_cage]. rewrite Er. split_and!; [done|done|done|].
  destruct l as [d|]; [|done]. destruct (line_of_data _ _ _ Hl) as [Hone Hnil]. split; [exact Hone|]. intros Hd. apply H2. intros E. by apply Hd, Hnil.
Qed.
Lemma runs_read_cage w : runs w (read_cage env idle_timeout) (a_read w).
Proof.
  unfold read_cage. unfold runs, mbind, session_bind, asks. destruct (cage_read env (tick w)) as [| | |e].
  - apply (runs_take_line (tick_on w)).
  - destruct (0 <? idle_timeout); [|apply (runs_take_line (tick_on w))]. exists []. rewrite app_nil_r. by split_and!.
  - exists []. rewrite app_nil_r. by split_and!.
  - exists []. rewrite app_nil_r. by split_and!.
Qed.
Lemma quiet_read_cage : quiet (read_cage env idle_timeout).
Proof. intros w. eapply runs_weaken; [apply runs_read_cage|]. by intros w' n r [-> _]. Qed.
Lemma says_write_up b x : sees (ToUpstream b) = Some x -> says (write_up env b) (fun n r => match r with Ok _ => n = [x] | Err _ => n = [] end).
Proof.
  intros Hx w. unfold runs, write_up, mbind, session_bind, asks. destruct (up_write env (tick w)) as [e|].
  - exists []. rewrite app_nil_r. by split_and!.
  - exists [x]. cbn [changes add_event log tick_on]. rewrite seen_app. unfold seen at 2. cbn [omap list_omap]. rewrite Hx. by split_and!.
Qed.
Definition an_answer (w w' : World) (n : list X) (r : result str bytes) : Prop :=
  n = [] /\ match r with Ok l => l <> [] -> (up_size w' < up_size w)%nat | Err _ => True end.
Lemma runs_take_up_line w : runs w take_up_line (an_answer w).
Proof.
  unfold runs, take_up_line, an_answer, up_size. destruct (up w) as [r|] eqn:Eu; [|exists []; rewrite app_nil_r; by split_and!].
  pose proof (read_line_spec STREAM_LINE_LIMIT r) as Hs. destruct (read_line _ _) as [l r']. destruct Hs as [Hl Er].
  destruct (after_line_size (unread r)) as [H1 H2]. exists []. rewrite app_nil_r. cbn [up set_up cage]. rewrite Er. split_and!; [done|done|done|].
  destruct l as [d|]; [|done]. destruct (line_of_data _ _ _ Hl) as [_ Hnil]. intros Hd. apply H2. intros E. by apply Hd, Hnil.
Qed.
Lemma runs_up_readline w : runs w (up_readline env idle_timeout) (an_answer w).
Proof.
  unfold runs, up_readline, mbind, session_bind, asks. destruct (up_read env (tick w)) as [| | |e]; try apply (runs_take_up_line (tick_on w)).
  - destruct (0 <? idle_timeout); [|apply (runs_take_up_line (tick_on w))]. exists []. rewrite app_nil_r. by split_and!.
  - exists []. rewrite app_nil_r. by split_and!.
Qed.
End Operations.
End Hoare.
Create HintDb session.
#[export] Hint Resolve quiet_ret quiet_fails quiet_attempt quiet_emits quiet_write_cage quiet_write_line quiet_takes_slot quiet_releases_slot
  quiet_read_cage says_asks says_reads : session.
(** Follows a computation through its binds and its cases. *)
Ltac quietly :=
  repeat first
    [ done
    | progress eauto with session nocore
    | apply quiet_bind; [|intros ?]
    | match goal with
      | |- quiet (if ?b then _ else _) => destruct b
      | |- quiet (match ?x with _ => _ end) => destruct x
      end ].

(** ** Rates *)

(** What the connections do with a limiter: [take] at an instant, [release]. *)
Inductive Use : Type := Take (t : Z) | Release.
Definition use_limiter (l : RateLimiter) (u : Use) : RateLimiter * list Z :=
  match u with
  | Take t => let '(l', ok) := take_slot t l in (l', if ok : bool then [t] else [])
  | Release => (release_slot l, [])
  end.
(** The slots given, in order. *)
Fixpoint granted (l : RateLimiter) (uses : list Use) : list Z :=
  match uses with
  | [] => []
  | u :: uses => (use_limiter l u).2 ++ granted (use_limiter l u).1 uses
  end.
(** The limiter after some uses, and the slots outstanding: those given, less the most
    recent one for each release. *)
Definition book (lo : RateLimiter * list Z) (u : Use) : RateLimiter * list Z :=
  let '(l', given) := use_limiter lo.1 u in
  (l', match u with Release => removelast lo.2 | Take _ => lo.2 ++ given end).
Definition ledger (l : RateLimiter) (uses : list Use) : RateLimiter * list Z := fold_left book uses (l, []).
Definition limiter_after (l : RateLimiter) (uses : list Use) : RateLimiter := (ledger l uses).1.
Definition outstanding (l : RateLimiter) (uses : list Use) : list Z := (ledger l uses).2.
Definition taken_at (u : Use) : option Z := match u with Take t => Some t | Release => None end.
Definition takes (uses : list Use) : list Z := omap taken_at uses.
Definition releases (uses : list Use) : Z := Z.of_nat (length uses) - Z.of_nat (length (takes uses)).
(** Of some instants, those in the window that ends at [t]. *)
Definition within (window t : Z) (l : list Z) : list Z := List.filter (fun g => (t - window <? g) && (g <=? t)) l.

Lemma takes_app a b : takes (a ++ b) = takes a ++ takes b.
Proof. apply omap_app. Qed.
Lemma releases_app a b : releases (a ++ b) = releases a + releases b.
Proof. unfold releases. rewrite takes_app, !length_app. lia. Qed.
Lemma ledger_snoc l a u : ledger l (a ++ [u]) = book (ledger l a) u.
Proof. unfold ledger. by rewrite fold_left_app. Qed.
Lemma limiter_after_snoc l a u : limiter_after l (a ++ [u]) = (use_limiter (limiter_after l a) u).1.
Proof. unfold limiter_after. rewrite ledger_snoc. unfold book. by destruct (use_limiter _ _). Qed.
Lemma limiter_after_shift l a u : limiter_after l (u :: a) = limiter_after (use_limiter l u).1 a.
Proof.
  induction a as [|v r IH] using rev_ind; [unfold limiter_after, ledger, book; cbn [fold_left fst]; by destruct (use_limiter l u)|].
  by rewrite app_comm_cons, !limiter_after_snoc, IH.
Qed.
Lemma limiter_after_app a b l : limiter_after (limiter_after l a) b = limiter_after l (a ++ b).
Proof. revert l. induction a as [|u a IH]; intros l; [done|]. by rewrite <- app_comm_cons, !limiter_after_shift, IH. Qed.
Lemma granted_app a : forall l b, granted l (a ++ b) = granted l a ++ granted (limiter_after l a) b.
Proof. induction a as [|u a IH]; intros l b; [done|]. cbn [app granted]. by rewrite IH, limiter_after_shift, <- app_assoc. Qed.
Lemma granted_snoc l a u : granted l (a ++ [u]) = granted l a ++ (use_limiter (limiter_after l a) u).2.
Proof. rewrite granted_app. cbn [granted]. by rewrite app_nil_r. Qed.
Lemma filter_twice {A} (f g : A -> bool) l : (forall x, x ∈ l -> f x = true -> g x = true) -> List.filter f (List.filter g l) = List.filter f l.
Proof.
  induction l as [|x l IH]; intros Hfg; [done|]. cbn [List.filter]. assert (IH' := IH (fun y Hy => Hfg y (list_elem_of_further _ _ _ Hy))).
  pose proof (Hfg x (list_elem_of_here _ _)) as Hx. destruct (g x); cbn [List.filter]; [by rewrite IH'|]. destruct (f x); [by specialize (Hx eq_refl)|exact IH'].
Qed.
Lemma filter_ext_elem {A} (f g : A -> bool) l : (forall x, x ∈ l -> f x = g x) -> List.filter f l = List.filter g l.
Proof.
  induction l as [|x l IH]; intros Hfg; [done|]. cbn [List.filter]. rewrite (Hfg x) by by left. rewrite IH by (intros y Hy; apply Hfg; by right). done.
Qed.
Lemma filter_none {A} (f : A -> bool) l : (forall x, x ∈ l -> f x = false) -> List.filter f l = [].
Proof. induction l as [|x l IH]; intros Hf; [done|]. cbn [List.filter]. rewrite (Hf x) by by left. apply IH. intros y Hy. apply Hf. by right. Qed.
(** Dropping the newest of the instants later than [c]. *)
Lemma removelast_later c o : StronglySorted Z.le o ->
  removelast (List.filter (Z.ltb c) o) = List.filter (Z.ltb c) (removelast o).
Proof.
  destruct o as [|x o _] using rev_ind; [done|]. intros Hs. rewrite removelast_last, List.filter_app. cbn [List.filter].
  destruct (Z.ltb_spec c x); [apply removelast_last|]. rewrite app_nil_r. apply StronglySorted_app in Hs as (Hs & _).
  rewrite filter_none; [done|]. intros y Hy. pose proof (Hs y x Hy (list_elem_of_here _ _)). lia.
Qed.
Lemma sorted_removelast o : StronglySorted Z.le o -> StronglySorted Z.le (removelast o).
Proof. destruct o as [|x o _] using rev_ind; [done|]. rewrite removelast_last. by intros (_ & ? & _)%StronglySorted_app. Qed.
Lemma elem_removelast {A} (x : A) o : x ∈ removelast o -> x ∈ o.
Proof. destruct o as [|y o _] using rev_ind; [done|]. rewrite removelast_last. intros Hx. apply elem_of_app. by left. Qed.
Lemma elem_taken (b : bool) (t x : Z) : x ∈ (if b then [t] else []) -> x = t.
Proof. destruct b; [apply list_elem_of_singleton|by intros ?%elem_of_nil]. Qed.

Section Rates.
Variable max0 window0 : Z.
#[local] Abbreviation l0 := (new_limiter max0 window0).
Lemma take_slot_shape t l : max (take_slot t l).1 = max l /\ window (take_slot t l).1 = window l
  /\ stamps (take_slot t l).1 = List.filter (fresh l t) (stamps l) ++ (if (take_slot t l).2 then [t] else [])
  /\ (take_slot t l).2 = negb (max l <=? Z.of_nat (length (List.filter (fresh l t) (stamps l)))).
Proof. unfold take_slot. destruct (_ <=? _); cbn; by rewrite ?app_nil_r. Qed.
Lemma ledger_take uses t : ledger l0 (uses ++ [Take t])
  = ((take_slot t (limiter_after l0 uses)).1, outstanding l0 uses ++ (if (take_slot t (limiter_after l0 uses)).2 then [t] else [])).
Proof. rewrite ledger_snoc. unfold book, use_limiter, limiter_after, outstanding. by destruct (take_slot t _) as [l []]. Qed.
Lemma ledger_release uses : ledger l0 (uses ++ [Release]) = (release_slot (limiter_after l0 uses), removelast (outstanding l0 uses)).
Proof. by rewrite ledger_snoc. Qed.
Lemma limiter_after_const uses : max (limiter_after l0 uses) = max0 /\ window (limiter_after l0 uses) = window0.
Proof.
  induction uses as [|[t|] uses [Hm Hw]] using rev_ind; [done| |]; rewrite limiter_after_snoc; cbn [use_limiter]; [|done].
  destruct (take_slot_shape t (limiter_after l0 uses)) as (Em & Ew & _). destruct (take_slot t _). cbn [fst] in *. by rewrite Em, Ew.
Qed.
(** No instant of [uses] is after [t]. *)
Definition upto (t : Z) (uses : list Use) : Prop := forall x, x ∈ takes uses -> x <= t.
Lemma sorted_upto uses t : StronglySorted Z.le (takes (uses ++ [Take t])) -> StronglySorted Z.le (takes uses) /\ upto t uses.
Proof.
  rewrite takes_app. intros (Hle & Hs & _)%StronglySorted_app. split; [exact Hs|]. intros x Hx. apply (Hle x t Hx). by left.
Qed.
(** Instants in order, each one of a [take]. *)
Definition ordered (uses : list Use) (o : list Z) : Prop := StronglySorted Z.le o /\ forall g, g ∈ o -> g ∈ takes uses.
Lemma ordered_filter uses f o : ordered uses o -> ordered uses (List.filter f o).
Proof.
  intros [Hs Hin]. split; [|intros g Hg; apply Hin; apply list_elem_of_In, filter_In in Hg as [Hg _]; by apply list_elem_of_In].
  clear Hin. induction Hs as [|g o _ IH Hg]; [constructor|]. cbn [List.filter]. destruct (f g); [|exact IH]. constructor; [exact IH|].
  rewrite Forall_forall in Hg |- *. intros x Hx. apply Hg. apply list_elem_of_In, filter_In in Hx as [Hx _]. by apply list_elem_of_In.
Qed.
Lemma ordered_take uses t o (b : bool) : upto t uses -> ordered uses o -> ordered (uses ++ [Take t]) (o ++ if b then [t] else []).
Proof.
  intros Ht [Hs Hin]. split.
  - apply StronglySorted_app. split_and!; [|exact Hs|destruct b; repeat constructor]. intros x y Hx%Hin ->%elem_taken. by apply Ht.
  - rewrite takes_app. intros g [Hg|Hg]%elem_of_app; apply elem_of_app; [left; auto|right; apply elem_taken in Hg as ->; by left].
Qed.
Lemma ordered_release uses o : ordered uses o -> ordered (uses ++ [Release]) (removelast o).
Proof. intros [Hs Hin]. split; [by apply sorted_removelast|]. intros g Hg%elem_removelast. rewrite takes_app. apply elem_of_app. auto. Qed.

(** The limiter's stamps and the slots outstanding differ only in instants no later
    [take] looks at. *)
Lemma stamps_later uses : StronglySorted Z.le (takes uses) ->
  ordered uses (outstanding l0 uses) /\ ordered uses (stamps (limiter_after l0 uses))
  /\ exists c, List.filter (Z.ltb c) (stamps (limiter_after l0 uses)) = List.filter (Z.ltb c) (outstanding l0 uses)
     /\ forall t, takes uses <> [] -> upto t uses -> c <= t - window0.
Proof.
  induction uses as [|[n|] uses IH] using rev_ind; intros Hs.
  - split; [by split; [constructor|]|]. split; [by split; [constructor|]|]. by exists 0.
  - destruct (sorted_upto _ _ Hs) as [Hs' Hn]. destruct (IH Hs') as (Ho & Hst & c & Es & Hc).
    unfold limiter_after at 1 2, outstanding at 1 2. rewrite ledger_take. cbn [fst snd].
    destruct (take_slot_shape n (limiter_after l0 uses)) as (_ & _ & -> & _).
    split; [by apply ordered_take|]. split; [by apply ordered_take, ordered_filter|]. exists (n - window0). split.
    + rewrite !List.filter_app. f_equal. rewrite filter_twice.
      * destruct (takes uses) as [|x r] eqn:Et.
        { destruct Ho as [_ Ho], Hst as [_ Hst]. rewrite Et in Ho, Hst. rewrite !filter_none; [done|..]; intros y Hy; exfalso; [apply Ho in Hy|apply Hst in Hy]; by apply elem_of_nil in Hy. }
        pose proof (Hc n ltac:(done) Hn). rewrite <- (filter_twice _ (Z.ltb c) (stamps _)), Es, filter_twice; [done|..]; intros; lia.
      * intros x Hx%Hst%Hn. unfold fresh. rewrite (proj2 (limiter_after_const uses)). lia.
    + intros t _ Ht. specialize (Ht n). rewrite takes_app in Ht. specialize (Ht ltac:(apply elem_of_app; right; by left)). lia.
  - rewrite takes_app in Hs. cbn in Hs. rewrite app_nil_r in Hs. destruct (IH Hs) as (Ho & Hst & c & Es & Hc).
    unfold limiter_after at 1 2, outstanding at 1 2. rewrite ledger_release. cbn [fst snd release_slot stamps].
    split; [by apply ordered_release|]. split; [by apply ordered_release|]. exists c. split.
    + rewrite <- !removelast_later by (apply Ho || apply Hst). by rewrite Es.
    + unfold upto. rewrite takes_app. cbn. by rewrite app_nil_r.
Qed.
(** The stamps kept at [t] are the slots outstanding in the window that ends there. *)
Lemma stamps_within uses t : StronglySorted Z.le (takes uses) -> upto t uses ->
  List.filter (fresh (limiter_after l0 uses) t) (stamps (limiter_after l0 uses)) = within window0 t (outstanding l0 uses).
Proof.
  intros Hs Ht. destruct (stamps_later uses Hs) as ([_ Ho] & [_ Hst] & c & Es & Hc). unfold within.
  rewrite (filter_ext_elem _ (fun g => t - window0 <? g)).
  2:{ intros x Hx%Hst%Ht. unfold fresh. rewrite (proj2 (limiter_after_const uses)). lia. }
  symmetry. rewrite (filter_ext_elem _ (fun g => t - window0 <? g)).
  2:{ intros x Hx%Ho%Ht. lia. }
  destruct (takes uses) as [|y r] eqn:Et.
  { rewrite !filter_none; [done|..]; intros x Hx; exfalso; [apply Hst in Hx|apply Ho in Hx]; by apply elem_of_nil in Hx. }
  pose proof (Hc t ltac:(done) Ht). rewrite <- (filter_twice _ (Z.ltb c) (outstanding _ _)), <- Es, filter_twice; [done|..]; intros; lia.
Qed.
Lemma within_length t l m : Z.of_nat (length (within window0 t (l ++ m))) = Z.of_nat (length (within window0 t l)) + Z.of_nat (length (within window0 t m)).
Proof. unfold within. rewrite List.filter_app, length_app. lia. Qed.
Lemma within_removelast t o : Z.of_nat (length (within window0 t o)) - 1 <= Z.of_nat (length (within window0 t (removelast o))) <= Z.of_nat (length (within window0 t o)).
Proof.
  destruct o as [|x o _] using rev_ind; [cbn; lia|]. rewrite removelast_last, within_length.
  enough (Z.of_nat (length (within window0 t [x])) <= 1) by lia. unfold within. cbn [List.filter]. destruct (_ && _); cbn [length]; lia.
Qed.
Lemma within_mono n t l : n <= t -> (forall g, g ∈ l -> g <= n) -> (length (within window0 t l) <= length (within window0 n l))%nat.
Proof.
  intros Hnt. induction l as [|g l IH]; intros Hl; [done|]. cbn [within List.filter]. fold (within window0 t l) (within window0 n l).
  pose proof (Hl g (list_elem_of_here _ _)). specialize (IH (fun x Hx => Hl x (list_elem_of_further _ _ _ Hx))).
  destruct ((t - window0 <? g) && (g <=? t)) eqn:Et, ((n - window0 <? g) && (g <=? n)) eqn:En; cbn [length]; lia.
Qed.
(** When a slot is given, and how many are outstanding. *)
Lemma take_given uses t : StronglySorted Z.le (takes uses) -> upto t uses ->
  (take_slot t (limiter_after l0 uses)).2 = (Z.of_nat (length (within window0 t (outstanding l0 uses))) <? max0).
Proof.
  intros Hs Ht. destruct (take_slot_shape t (limiter_after l0 uses)) as (_ & _ & _ & ->). rewrite stamps_within by assumption.
  rewrite (proj1 (limiter_after_const uses)). lia.
Qed.
Lemma outstanding_capped uses t : 0 <= max0 -> StronglySorted Z.le (takes uses) ->
  Z.of_nat (length (within window0 t (outstanding l0 uses))) <= max0.
Proof.
  intros H0. revert t. induction uses as [|[n|] uses IH] using rev_ind; intros t Hs; [cbn; lia| |].
  - destruct (sorted_upto _ _ Hs) as [Hs' Hn]. specialize (IH t Hs'). pose proof (take_given uses n Hs' Hn) as Hg.
    destruct (stamps_later uses Hs') as ([_ Ho] & _). unfold outstanding. rewrite ledger_take. cbn [snd]. rewrite within_length, Hg.
    destruct (Z.ltb_spec (Z.of_nat (length (within window0 n (outstanding l0 uses)))) max0) as [Hlt|Hge]; [|cbn; lia].
    unfold within at 2. cbn [List.filter]. destruct ((t - window0 <? n) && (n <=? t)) eqn:E; cbn [length]; [|lia].
    pose proof (within_mono n t (outstanding l0 uses) ltac:(lia) (fun g Hin => Hn g (Ho g Hin))). lia.
  - rewrite takes_app in Hs. cbn in Hs. rewrite app_nil_r in Hs. specialize (IH t Hs). unfold outstanding. rewrite ledger_release. cbn [snd].
    pose proof (within_removelast t (outstanding l0 uses)). lia.
Qed.
(** A stretch of a history whose calls of [take] all fall in one window. *)
Lemma stretch_given before seg t : (forall x, x ∈ takes seg -> t - window0 < x <= t) ->
  Z.of_nat (length (granted (limiter_after l0 before) seg)) - releases seg
  <= Z.of_nat (length (within window0 t (outstanding l0 (before ++ seg)))).
Proof.
  induction seg as [|[n|] seg IH] using rev_ind; intros Hw; [unfold releases; cbn; lia| |]; rewrite takes_app in Hw;
    specialize (IH (fun x Hx => Hw x ltac:(apply elem_of_app; by left)));
    rewrite app_assoc, granted_snoc, length_app, releases_app; unfold outstanding.
  - rewrite ledger_take. cbn [snd]. rewrite within_length. specialize (Hw n ltac:(apply elem_of_app; right; by left)).
    assert (Hl : limiter_after (limiter_after l0 before) seg = limiter_after l0 (before ++ seg)) by apply limiter_after_app.
    rewrite Hl. change (releases [Take n]) with 0. unfold use_limiter. destruct (take_slot n _) as [l []]; cbn [snd]; [|cbn; lia].
    enough (length (within window0 t [n]) = 1%nat) as -> by (cbn [length]; lia).
    unfold within. cbn [List.filter]. by rewrite (proj2 (andb_true_iff _ _)) by lia.
  - rewrite ledger_release. change (releases [Release]) with 1. cbn [snd use_limiter length].
    pose proof (within_removelast t (outstanding l0 (before ++ seg))). lia.
Qed.
Lemma outstanding_granted uses : Release ∉ uses -> outstanding l0 uses = granted l0 uses.
Proof.
  induction uses as [|[n|] uses IH] using rev_ind; intros Hr; [done| |destruct Hr; apply elem_of_app; right; by left].
  unfold outstanding. rewrite ledger_take, granted_snoc. cbn [snd]. rewrite <- IH by (intros Hx; apply Hr, elem_of_app; by left).
  unfold use_limiter. by destruct (take_slot n _) as [l []].
Qed.

(** C40: [RateLimiter], called at instants in order.  A [take] is given a slot exactly
    when fewer than [max] of the slots given are outstanding in the window that ends at
    it, where each [release] (a delivery the upstream did not accept) gives up the most
    recent one; no window, wherever it ends, ever holds more than [max] outstanding.  So
    over any stretch of a history whose calls of [take] fall in one window, the slots
    given exceed those released by at most [max]; and where nothing is released - the
    limit on the connections the relays accept - no window of that length holds more
    than [max] slots given. *)
Theorem rate_capped uses : 0 <= max0 -> StronglySorted Z.le (takes uses) ->
  (forall before t after, uses = before ++ Take t :: after ->
     (take_slot t (limiter_after l0 before)).2 = (Z.of_nat (length (within window0 t (outstanding l0 before))) <? max0))
  /\ (forall t, Z.of_nat (length (within window0 t (outstanding l0 uses))) <= max0)
  /\ (forall before seg after t, uses = before ++ seg ++ after -> (forall x, x ∈ takes seg -> t - window0 < x <= t) ->
        Z.of_nat (length (granted (limiter_after l0 before) seg)) <= max0 + releases seg)
  /\ (Release ∉ uses -> forall t, Z.of_nat (length (within window0 t (granted l0 uses))) <= max0).
Proof.
  intros H0 Hs. split_and!.
  - intros before t after ->. change (Take t :: after) with ([Take t] ++ after) in Hs. rewrite app_assoc, takes_app in Hs.
    apply StronglySorted_app in Hs as (_ & Hs & _). destruct (sorted_upto _ _ Hs). by apply take_given.
  - intros t. by apply outstanding_capped.
  - intros before seg after t -> Hw. rewrite app_assoc, takes_app in Hs. apply StronglySorted_app in Hs as (_ & Hs & _).
    pose proof (stretch_given before seg t Hw). pose proof (outstanding_capped _ t H0 Hs). lia.
  - intros Hr t. rewrite <- outstanding_granted by exact Hr. by apply outstanding_capped.
Qed.
End Rates.
(** A limit of two a minute: a slot is released and given again. *)
Definition sample_uses : list Use := [Take 0; Take 1; Take 2; Release; Take 3; Take 60; Take 61].
Lemma rate_capped_witness :
  StronglySorted Z.le (takes sample_uses) /\ granted (new_limiter 2 60) sample_uses = [0; 1; 3; 60]
  /\ Z.of_nat (length (granted (limiter_after (new_limiter 2 60) []) (take 5 sample_uses))) <= 2 + 1.
Proof.
  assert (Hs : StronglySorted Z.le (takes sample_uses)) by (cbn; repeat first [apply SSorted_nil|apply SSorted_cons|apply List.Forall_nil|apply List.Forall_cons; [lia|]]).
  split; [exact Hs|]. split; [by vm_compute|]. apply (rate_capped 2 60 sample_uses ltac:(lia) Hs) with (after := drop 5 sample_uses) (t := 3); [reflexivity|].
  cbn. intros x Hx. rewrite !elem_of_cons in Hx. destruct Hx as [->|[->|[->|[->|Hx]]]]; [lia..|by apply elem_of_nil in Hx].
Defined.
