(* ===== verification/Smtp.v ===== *)
(** The SMTP relay: the model of [agentcage-egress/src/relays/smtp.rs] - its
    configuration, the sessions of the cage, the inspection of each message and the
    client for the upstream. *)
From S2P Require Import Prelude Utf8 Json Value ConfigValues MailRelay.
From S2P Require Inspect Entropy Forms Policy Injector Url.
From Stdlib Require Import ZifyBool.

(** * Definitions *)

Definition DEFAULT_BYPASS : list str := [lit "secrets"; lit "entropy"; lit "content-type"].

(** ** Configuration *)

Record SmtpConfig : Type := mkSmtp {
  cfg_name : str; cfg_listen : str; cfg_upstream : Upstream; user_source : str; password_source : str;
  sender_allowlist : list str; recipient_addresses : list str; recipient_domains : list str;
  max_message_bytes : Z; max_recipients : Z; conn_rate_limit : str; send_rate_limit : str; idle_timeout_seconds : Z; bypass : list str
}.

Section Config.
Context `{Unicode} `{F64Text}.

Fixpoint lowered_items (items : list Value) : result str (list str) :=
  match items with
  | [] => Ok []
  | VString text :: rest => let! l := lowered_items rest in Ok (to_lowercase text :: l)
  | other :: _ => Err (lit "'" ++ kind_name other ++ lit "' object has no attribute 'lower'")
  end.
Definition lowered (value : option Value) : result str (list str) :=
  match value with
  | None => Ok []
  | Some v =>
      if negb (is_truthy v) then Ok []
      else
        match v with
        | VSequence items => lowered_items items
        | VMapping m => lowered_items (map fst m)
        | VString text => Ok (map (fun c => to_lowercase [c]) text)
        | other => Err (not_iterable other)
        end
  end.
Definition int_or (policy : option Mapping) (key : string) (default : Z) : result str Z :=
  match opt_get policy key with Some v => coerce_int v | None => Ok default end.
Definition rcpt_mapping (policy : option Mapping) : result str (option Mapping) :=
  match opt_get policy "recipient_allowlist" with
  | Some (VSequence (i :: items)) => Ok (Some [(VString (lit "addresses"), VSequence (i :: items))])
  | other => mapping_or_empty other
  end.
Definition parse_config (entry : Value) : result str SmtpConfig :=
  let! entry := entry_mapping entry in
  let name := str_or (mget entry (lit "name")) [] in
  let listen := str_or (mget entry (lit "listen")) [] in
  let! upstream := parse_upstream entry in
  let! auth := mapping_or_empty (mget entry (lit "auth")) in
  let! policy := mapping_or_empty (mget entry (lit "policy")) in
  let! rcpt := rcpt_mapping policy in
  let! senders := lowered (opt_get policy "sender_allowlist") in
  let! addresses := lowered (opt_get rcpt "addresses") in
  let! domains := lowered (opt_get rcpt "domains") in
  let! max_bytes := int_or policy "max_message_bytes" 5242880 in
  let! max_rcpt := int_or policy "max_recipients" 10 in
  let conn_rate := str_or (opt_get policy "conn_rate_limit") (lit "30/min") in
  let send_rate := str_or (opt_get policy "send_rate_limit") (lit "20/hour") in
  let! idle := int_or policy "idle_timeout_seconds" 300 in
  let! bypass :=
    if match policy with Some p => contains_key p (lit "bypass_inspectors_for_allowlisted") | None => false end
    then coerce_str_list (opt_get policy "bypass_inspectors_for_allowlisted")
    else Ok DEFAULT_BYPASS in
  Ok (mkSmtp name listen upstream (str_or (opt_get auth "user_source") []) (str_or (opt_get auth "password_source") [])
        senders addresses domains max_bytes max_rcpt conn_rate send_rate idle bypass).
End Config.

(** ** Text *)

(** The loop of [extract_address]: from one [<] to the next. *)
Fixpoint bracketed_address (fuel : nat) (rest : str) : option str :=
  match fuel with
  | O => None
  | S fuel =>
      let? (_, after) := split_once 60 rest in
      match find_sub [62] after with
      | Some O => bracketed_address fuel after
      | Some close => Some (trim_matches is_strip_space (take close after))
      | None => None
      end
  end.
Definition extract_address (arg : str) : option str :=
  match bracketed_address (length arg) arg with
  | Some a => Some a
  | None =>
      let s := trim_matches is_strip_space arg in
      if negb (bool_decide (s = [])) && bool_decide (64 ∈ s) then Some s else None
  end.
Definition without_credentials (text : str) (credentials : list str) : str :=
  fold_left (fun text value => if bool_decide (value = []) then text else Injector.str_replace text value (lit "[redacted]")) credentials text.

(** Lines with their endings, split at CRLF, CR or LF. *)
Fixpoint universal_lines (cur data : bytes) : list bytes :=
  match data with
  | [] => if bool_decide (cur = []) then [] else [cur]
  | b :: r =>
      if b =? 10 then (cur ++ [10]) :: universal_lines [] r
      else if b =? 13 then
        match r with
        | c :: r' => if c =? 10 then (cur ++ [13; 10]) :: universal_lines [] r' else (cur ++ [13]) :: universal_lines [] r
        | [] => [cur ++ [13]]
        end
      else universal_lines (cur ++ [b]) r
  end.
Definition split_universal_lines (data : bytes) : list bytes := universal_lines [] data.
Definition splitlines_keepends (data : bytes) : list bytes := split_universal_lines data.

Definition text_of (data : bytes) : str := ascii_lossy data.
Definition is_fold (b : Z) : bool := (b =? 32) || (b =? 9).
Definition header_line (line : bytes) : bool :=
  if starts_with line (lit "From ") || match line with b :: _ => is_fold b | [] => false end then true
  else match (span (fun b => in_range 33 126 b && negb (b =? 58)) line).2 with c :: _ => c =? 58 | [] => false end.
(** The header lines of a message: up to the first that is not one. *)
Fixpoint header_lines (lines : list bytes) : list bytes :=
  match lines with [] => [] | l :: r => if header_line l then l :: header_lines r else [] end.
Definition is_eol (b : Z) : bool := (b =? 13) || (b =? 10).
(** [flush]: the field whose lines were gathered. *)
Definition flush_header (current : list bytes) (headers : list (str * str)) : list (str * str) :=
  match current with
  | [] => headers
  | first :: more =>
      let '(name, rest) := span (fun b => negb (b =? 58)) first in
      let value := drop 1 rest ++ concat more in
      let value := drop_while (fun b => is_fold b || is_eol b) value in
      headers ++ [(text_of name, text_of (drop_while_end is_eol value))]
  end.
Fixpoint fold_headers (lines : list bytes) (first : bool) (current : list bytes) (headers : list (str * str)) : list (str * str) :=
  match lines with
  | [] => flush_header current headers
  | line :: rest =>
      if match line with b :: _ => is_fold b | [] => false end
      then fold_headers rest false (match current with [] => [] | _ => current ++ [line] end) headers
      else
        let headers := flush_header current headers in
        if starts_with line (lit "From ") then
          if bool_decide (rest = []) && negb first then flush_header [] headers else fold_headers rest false [] headers
        else if match line with b :: _ => b =? 58 | [] => false end then fold_headers rest false [] headers
        else fold_headers rest false [line] headers
  end.

Section Messages.
Context `{Unicode}.
Definition message_headers (body : bytes) : str * list (str * str) :=
  let headers := fold_headers (header_lines (split_universal_lines body)) true [] [] in
  let content_type :=
    match List.find (fun h => eq_ignore_ascii_case h.1 (lit "content-type")) headers with
    | None => lit "text/plain"
    | Some (_, v) =>
        let ctype := to_lowercase (trim_matches is_strip_space (default [] (head (split_on 59 v)))) in
        if Nat.eqb (length (List.filter (Z.eqb 47) ctype)) 1 then ctype else lit "text/plain"
    end in
  (content_type, headers).
(** [None]: the end-of-data line. *)
Definition data_line (line : bytes) : option bytes :=
  if bool_decide (line = [46; 13; 10]) || bool_decide (line = [46; 10]) then None
  else Some (if starts_with line [46; 46] then drop 1 line else line).
Definition dot_stuff (body : bytes) : bytes :=
  let stuffed := flat_map (fun line => (if starts_with line [46] then [46] else []) ++ line) (splitlines_keepends body) in
  let stuffed := if ends_crlf stuffed then stuffed else stuffed ++ [13; 10] in
  stuffed ++ [46; 13; 10].
Definition message_context `{Entropy.Log2} (body : bytes) (upstream_host : str) : Inspect.Context :=
  let '(content_type, headers) := message_headers body in
  Inspect.mkContext [] upstream_host (lit "SMTP_DATA") headers content_type (Some body) (Some (from_utf8_lossy body)) (Z.of_nat (length body))
    (if bool_decide (body = []) then None else Some (Entropy.shannon_entropy body)) [] Inspect.Outbound false.
End Messages.
Definition char_slice (text : str) (n : nat) : str := drop n text.
Definition trim_crlf (data : bytes) : bytes := drop_while_end is_eol data.

(** ** The relay *)

Record Settings : Type := mkSettings { log_allowed : bool; inspectors : list Inspect.Inspector }.
Record Inner : Type := mkInner { cfg : SmtpConfig; user : str; password : str; conn_max : Z * Z; send_max : Z * Z }.
Definition limiter_for (spec : str) : result str (Z * Z) :=
  match parse_rate_limit spec with Some l => Ok l | None => Err (lit "invalid rate spec: " ++ quote_text spec) end.
Definition with_credentials (c : SmtpConfig) (user password : str) : result str Inner :=
  if bool_decide (user = []) || bool_decide (password = []) then
    Err (lit "smtp relay " ++ cfg_name c ++ lit ": credentials not resolved (user_source=" ++ quote_text (user_source c)
         ++ lit ", password_source=" ++ quote_text (password_source c) ++ lit ")")
  else
    let! conn := limiter_for (conn_rate_limit c) in
    let! send := limiter_for (send_rate_limit c) in
    Ok (mkInner c user password conn send).
Definition new_relay `{Unicode} `{F64Text} (w : Secrets_) (entry : Value) : result str Inner :=
  let! c := parse_config entry in
  let! user := resolve_credential w (user_source c) in
  let! password := resolve_credential w (password_source c) in
  with_credentials c user password.

Record Transaction : Type := mkTxn { sender : str; recipients : list str; flagged : bool }.
Definition no_txn : Transaction := mkTxn [] [] false.
Definition recipients_json (l : list str) : Json := JArray (map JStr l).

(** What reading a message body produced. *)
Inductive DataRead : Type := Body (body : bytes) (oversize : bool) | Eof (size : nat) | DataTimeout | DataShutdown.

Section Relay.
Context `{Unicode} `{Policy.UnicodeUpper} `{Entropy.Log2} `{Forms.Crates}.
Context (env : Env Settings) (self : Inner).
#[local] Abbreviation c := (cfg self).
#[local] Abbreviation name := (cfg_name (cfg self)).
#[local] Abbreviation read_client := (read_cage env (idle_timeout_seconds c)).
Definition say (s : string) : session SessionError unit := write_line env (lit s).
Definition blocked {E} (command reason : str) (more : list (string * Json)) : session E unit :=
  emits ([("kind", JStr (lit "smtp_command")); ("relay", JStr name); ("command", JStr command); ("decision", JStr (lit "blocked"));
          ("reason", JStr reason)]%string ++ more).

(** ** The upstream client *)

Definition parts_loop : nat -> list str -> session str (Z * str) :=
  fix loop (fuel : nat) (parts : list str) : session str (Z * str) := fun w =>
    match fuel with
    | O => None
    | S fuel =>
        (line ← up_readline env (idle_timeout_seconds c);
         if bool_decide (line = []) then fails (lit "upstream closed")
         else
           match (let? t := from_utf8 (take 3 line) in parse_int_literal t) with
           | None => fails (lit "malformed upstream response: " ++ bytes_repr line)
           | Some code =>
               let text := drop_while_end is_eol (from_utf8_lossy (drop 4 line)) in
               let parts := parts ++ [text] in
               if bool_decide (line !! 3%nat = Some 45) then loop fuel parts else mret (code, sep_concat [10] parts)
           end) w
    end.
(** A line a round at least, and one for the end. *)
Definition read_response : session str (Z * str) := n ← reads up_size; parts_loop (S n) [].
Definition command (line : bytes) : session str (Z * str) := write_up env (crlf_line line) ;; read_response.
Definition auth_token : bytes := Forms.standard_encode ([0] ++ as_bytes (user self) ++ [0] ++ as_bytes (password self)).
Definition handshake : session str unit :=
  '(code, _) ← read_response;
  if negb (in_range 200 399 code) then fails (lit "upstream greeting code " ++ show_signed code)
  else
    '(code, text) ← command (lit "EHLO agentcage.local");
    if negb (code =? 250) then fails (lit "upstream EHLO rejected: " ++ show_signed code ++ lit " " ++ text)
    else
      let creds := [auth_token; password self] in
      answer ← attempt (command (lit "AUTH PLAIN " ++ auth_token));
      match answer with
      | Err e => fails (without_credentials e creds)
      | Ok (code, text) =>
          if negb (code =? 235) then fails (lit "upstream AUTH failed: " ++ without_credentials (show_signed code ++ lit " " ++ text) creds)
          else mret tt
      end.
Definition rset : session SessionError unit := _ ← attempt (command (lit "RSET")); mret tt.
Fixpoint rcpt_loop (recipients accepted rejected : list str) : session str (list str * list str) :=
  match recipients with
  | [] => mret (accepted, rejected)
  | rcpt :: rest =>
      '(code, _) ← command (as_bytes (lit "RCPT TO:<" ++ rcpt ++ lit ">"));
      if in_range 200 299 code then rcpt_loop rest (accepted ++ [rcpt]) rejected else rcpt_loop rest accepted (rejected ++ [rcpt])
  end.
Definition deliver (sender : str) (recipients : list str) (body : bytes) : session str (str * list str * list str) :=
  '(code, text) ← command (as_bytes (lit "MAIL FROM:<" ++ sender ++ lit ">"));
  if negb (code =? 250) then fails (lit "upstream MAIL FROM rejected: " ++ show_signed code ++ lit " " ++ text)
  else
    '(accepted, rejected) ← rcpt_loop recipients [] [];
    if bool_decide (accepted = []) then
      _ ← command (lit "RSET"); fails (lit "upstream rejected all recipients")
    else
      '(code, text) ← command (lit "DATA");
      if negb (code =? 354) then fails (lit "upstream DATA rejected: " ++ show_signed code ++ lit " " ++ text)
      else
        _ ← write_up env (dot_stuff body);
        '(code, text) ← read_response;
        if negb (in_range 200 299 code) then fails (lit "upstream DATA body rejected: " ++ show_signed code ++ lit " " ++ text)
        else mret (lit "upstream " ++ show_signed code ++ lit " " ++ text, accepted, rejected).
Definition close_up {E} : session E unit :=
  _ ← attempt (command (lit "QUIT")); changes (fun w => set_up None (add_event Closed w)).
Definition connect_upstream : session str unit :=
  conn ← asks (up_connect env);
  match conn with
  | Err e => fails e
  | Ok arrivals =>
      changes (fun w => set_up (Some (new_reader arrivals)) (add_event Connected w)) ;;
      r ← attempt handshake;
      match r with
      | Ok _ => mret tt
      | Err e => changes (fun w => set_up None (add_event Closed w)) ;; fails e
      end
  end.

(** ** The checks *)

Definition sender_decision (sender : option str) : session SessionError (option str) :=
  match (let? s := sender in if bool_decide (s = []) then None else Some s) with
  | None => blocked (lit "MAIL") (lit "missing sender") [] ;; mret (Some (lit "missing or malformed sender"))
  | Some sender =>
      if bool_decide (sender_allowlist c = []) || bool_decide (to_lowercase sender ∈ sender_allowlist c) then mret None
      else
        emits [("kind", JStr (lit "smtp_command")); ("relay", JStr name); ("command", JStr (lit "MAIL")); ("decision", JStr (lit "blocked"));
               ("sender", JStr sender); ("reason", JStr (lit "sender not in sender_allowlist"))]%string ;;
        mret (Some (lit "sender " ++ sender ++ lit " not permitted"))
  end.
Definition recipient_allowed (rcpt : str) : bool :=
  let addrs := recipient_addresses c in
  let domains := recipient_domains c in
  if bool_decide (addrs = []) && bool_decide (domains = []) then true
  else
    let rl := to_lowercase rcpt in
    if bool_decide (rl ∈ addrs) then true
    else
      let domain := match Url.rsplit_once 64 rl with Some (_, d) => d | None => [] end in
      existsb (fun d => bool_decide (domain = d) || starts_with (rev domain) (rev (46 :: d))) domains.
Definition recipient_decision (rcpt : option str) : session SessionError (option str) :=
  match (let? r := rcpt in if bool_decide (r = []) then None else Some r) with
  | None => blocked (lit "RCPT") (lit "missing recipient") [] ;; mret (Some (lit "missing or malformed recipient"))
  | Some rcpt =>
      if recipient_allowed rcpt then mret None
      else
        emits [("kind", JStr (lit "smtp_command")); ("relay", JStr name); ("command", JStr (lit "RCPT")); ("decision", JStr (lit "blocked"));
               ("recipient", JStr rcpt); ("reason", JStr (lit "recipient not in recipient_allowlist"))]%string ;;
        mret (Some (lit "recipient " ++ rcpt ++ lit " not permitted"))
  end.
Definition flag_record (txn : Transaction) (r : Inspect.Verdict) : list (string * Json) :=
  [("kind", JStr (lit "smtp_data_flag")); ("relay", JStr name); ("decision", JStr (lit "flagged")); ("inspector", JStr (Inspect.inspector r));
   ("reason", JStr (Inspect.reason r)); ("severity", JStr (Inspect.severity_as_str (Inspect.severity r)));
   ("sender", JStr (sender txn)); ("recipients", recipients_json (recipients txn))]%string.
Fixpoint emit_all {E} (l : list (list (string * Json))) : session E unit :=
  match l with [] => mret tt | f :: l => emits f ;; emit_all l end.
Definition skipped : list str :=
  if negb (bool_decide (recipient_addresses c = [])) || negb (bool_decide (recipient_domains c = [])) then bypass c else [].
Definition chain_results (chain : list Inspect.Inspector) (body : bytes) : list Inspect.Verdict :=
  (Inspect.run_chain chain (message_context body (up_host (cfg_upstream c))) Inspect.Request (fun i => bool_decide (Inspect.name i ∈ skipped))).1.
(** The first block, and the transaction with its flag. *)
Definition run_inspectors (body : bytes) (txn : Transaction) : session SessionError (option Inspect.Verdict * Transaction) :=
  settings ← asks (live env);
  let chain := inspectors settings in
  if bool_decide (map Inspect.name chain = []) then mret (None, txn)
  else
    dead ← asks (worker env);
    match dead with
    | Some e => fails (Other (lit "inspector chain failed: " ++ e))
    | None =>
        let results := chain_results chain body in
        match List.find Inspect.is_block results with
        | Some block => mret (Some block, txn)
        | None =>
            let flags := List.filter (fun r => negb (Inspect.is_block r)) results in
            let txn := mkTxn (sender txn) (recipients txn) (negb (bool_decide (map Inspect.inspector flags = []))) in
            emit_all (map (flag_record txn) flags) ;;
            let bypassed := merge_sort (fun a b => Is_true (str_leb a b)) (List.filter (fun n => bool_decide (n ∈ skipped)) (map Inspect.name chain)) in
            (if bool_decide (bypassed = []) then mret tt
             else emits [("kind", JStr (lit "smtp_data_bypass")); ("relay", JStr name); ("bypassed", JArray (map JStr bypassed)); ("sender", JStr (sender txn));
                         ("recipients", recipients_json (recipients txn)); ("reason", JStr (lit "all recipients in allowlist"))]%string) ;;
            mret (None, txn)
        end
    end.

(** ** The session *)

Fixpoint data_loop (fuel : nat) (body : bytes) (oversize : bool) : session SessionError DataRead := fun w =>
  match fuel with
  | O => None
  | S fuel =>
      (r ← read_client;
       match r with
       | ReadTimeout => mret DataTimeout
       | ReadShutdown => mret DataShutdown
       | ReadLine line =>
           if bool_decide (line = []) then mret (Eof (length body))
           else
             match data_line line with
             | None => mret (Body body oversize)
             | Some line =>
                 if oversize then data_loop fuel body oversize
                 else let body := body ++ line in data_loop fuel body (Z.max 0 (max_message_bytes c) <? Z.of_nat (length body))
             end
       end) w
  end.
(** A line a round, and one for the end. *)
Definition read_data : session SessionError DataRead := n ← reads cage_size; data_loop (S n) [] false.

Definition message_fields (txn : Transaction) : list (string * Json) :=
  [("sender", JStr (sender txn)); ("recipients", recipients_json (recipients txn))]%string.
(** The upstream opens for the first message. *)
Definition deliver_upstream (txn : Transaction) (body : bytes) : session str (str * list str * list str) :=
  open ← reads has_up;
  (if open : bool then mret tt else connect_upstream) ;;
  deliver (sender txn) (recipients txn) body.
Definition size_json (n : nat) : Json := JInt (Z.min i64_max (Z.of_nat n)).
(** [data] once the body was read: whether the session goes on, and its transaction. *)
Definition data_body (txn : Transaction) (body : bytes) (oversize : bool) : session SessionError (bool * Transaction) :=
  let size := size_json (length body) in
  if oversize then
    releases_slot env ;;
    blocked (lit "DATA") (lit "message exceeds max_message_bytes (" ++ show_signed (max_message_bytes c) ++ lit ")") [("size"%string, size)] ;;
    say "552 5.3.4 message size exceeds limit" ;;
    mret (true, no_txn)
  else
    '(block, txn) ← run_inspectors body txn;
    match block with
    | Some block =>
        releases_slot env ;;
        emits ([("kind", JStr (lit "smtp_data")); ("relay", JStr name); ("decision", JStr (lit "blocked")); ("reason", JStr (Inspect.reason block));
                ("inspector", JStr (Inspect.inspector block)); ("severity", JStr (Inspect.severity_as_str (Inspect.severity block)))]%string
               ++ message_fields txn ++ [("size"%string, size)]) ;;
        write_line env (lit "550 5.7.0 " ++ as_bytes (Inspect.reason block)) ;;
        mret (true, no_txn)
    | None =>
        delivered ← attempt (deliver_upstream txn body);
        match delivered with
        | Err e =>
            releases_slot env ;;
            emits ([("kind", JStr (lit "smtp_data")); ("relay", JStr name); ("decision", JStr (lit "upstream_error")); ("error", JStr e)]%string
                   ++ message_fields txn) ;;
            say "451 4.4.0 upstream temporarily unavailable" ;;
            open ← reads has_up;
            (if open : bool then close_up else mret tt) ;;
            mret (true, no_txn)
        | Ok (status, accepted, rejected) =>
            settings ← asks (live env);
            (if log_allowed settings || flagged txn then
               emits ([("kind", JStr (lit "smtp_data")); ("relay", JStr name); ("decision", JStr (lit "allowed")); ("sender", JStr (sender txn));
                       ("recipients", recipients_json accepted); ("recipients_rejected_upstream", recipients_json rejected); ("size", size);
                       ("upstream_status", JStr status)]%string)
             else mret tt) ;;
            write_line env (as_bytes (lit "250 2.0.0 ok (" ++ status ++ lit ")")) ;;
            mret (true, no_txn)
        end
    end.
(** [false] ends the session. *)
Definition data (txn : Transaction) : session SessionError (bool * Transaction) :=
  if bool_decide (sender txn = []) || bool_decide (recipients txn = []) then
    say "503 need MAIL FROM and at least one RCPT TO" ;; mret (true, txn)
  else
    slot ← takes_slot env;
    if negb slot then
      blocked (lit "DATA") (lit "send_rate_limit exceeded") [] ;; say "451 4.7.0 send rate limit exceeded" ;; mret (true, txn)
    else
      say "354 end data with <CR><LF>.<CR><LF>" ;;
      r ← read_data;
      match r with
      | Body body oversize => data_body txn body oversize
      | DataShutdown =>
          releases_slot env ;; _ ← attempt (say "421 4.3.2 relay shutting down"); mret (false, txn)
      | Eof size =>
          releases_slot env ;;
          emits ([("kind", JStr (lit "smtp_data_aborted")); ("relay", JStr name); ("decision", JStr (lit "blocked"));
                  ("reason", JStr (lit "cage disconnected before end of data"))]%string ++ message_fields txn ++ [("size"%string, size_json size)]) ;;
          mret (false, no_txn)
      | DataTimeout =>
          releases_slot env ;; blocked (lit "DATA") (lit "DATA reception idle timeout") [] ;;
          say "451 4.4.2 DATA reception timed out" ;; mret (true, no_txn)
      end.

Definition send_ehlo_response (is_ehlo : bool) : session SessionError unit :=
  if negb is_ehlo then write_cage env (lit "250 agentcage-smtp-relay" ++ [13; 10])
  else
    let lines := [lit "agentcage-smtp-relay"; lit "AUTH PLAIN LOGIN"; lit "8BITMIME"; lit "SIZE " ++ show_signed (max_message_bytes c);
                  lit "PIPELINING"; lit "ENHANCEDSTATUSCODES"; lit "SMTPUTF8"] in
    write_cage env (concat (imap (fun i payload => lit "250" ++ [if Nat.ltb (i + 1) (length lines) then 45 else 32] ++ payload ++ [13; 10]) lines)).
(** The continuation lines of [AUTH]: whether the session goes on. *)
Fixpoint auth_prompts (prompts : list bytes) : session SessionError bool :=
  match prompts with
  | [] => mret true
  | prompt :: prompts =>
      write_line env prompt ;;
      r ← read_client;
      match r with
      | ReadLine l => if bool_decide (l = []) then mret false else auth_prompts prompts
      | _ => mret false
      end
  end.
Definition auth_cmd (arg_upper : str) : session SessionError bool :=
  emits [("kind", JStr (lit "smtp_command")); ("relay", JStr name); ("command", JStr (lit "AUTH")); ("decision", JStr (lit "intercepted"));
         ("reason", JStr (lit "client AUTH on relay-authed connection"))]%string ;;
  go ← auth_prompts (if starts_with arg_upper (lit "LOGIN") then [lit "334 VXNlcm5hbWU6"; lit "334 UGFzc3dvcmQ6"]
                     else if bool_decide (arg_upper = lit "PLAIN") then [lit "334 "] else []);
  if go : bool then say "235 2.7.0 already authenticated (relay)" ;; mret true else mret false.
Definition mail_cmd (arg arg_upper : str) (txn : Transaction) : session SessionError Transaction :=
  if negb (starts_with arg_upper (lit "FROM:")) then say "501 syntax: MAIL FROM:<address>" ;; mret txn
  else
    let sender := extract_address (trim_matches is_strip_space (char_slice arg 5)) in
    refusal ← sender_decision sender;
    match refusal with
    | Some reason => write_line env (as_bytes (lit "550 " ++ reason)) ;; mret txn
    | None => say "250 2.1.0 sender ok" ;; mret (mkTxn (default [] sender) [] false)
    end.
Definition rcpt_cmd (arg arg_upper : str) (txn : Transaction) : session SessionError Transaction :=
  if negb (starts_with arg_upper (lit "TO:")) then say "501 syntax: RCPT TO:<address>" ;; mret txn
  else if bool_decide (sender txn = []) then say "503 MAIL FROM first" ;; mret txn
  else if max_recipients c <=? Z.of_nat (length (recipients txn)) then
    blocked (lit "RCPT") (lit "max_recipients (" ++ show_signed (max_recipients c) ++ lit ") exceeded") [] ;;
    say "452 4.5.3 too many recipients" ;; mret txn
  else
    let rcpt := extract_address (trim_matches is_strip_space (char_slice arg 3)) in
    refusal ← recipient_decision rcpt;
    match refusal with
    | Some reason => write_line env (as_bytes (lit "550 5.7.1 " ++ reason)) ;; mret txn
    | None => say "250 2.1.5 recipient ok" ;; mret (mkTxn (sender txn) (recipients txn ++ [default [] rcpt]) (flagged txn))
    end.
(** A command of the cage; [None] ends the session. *)
Definition split_command (line : bytes) : str * str :=
  let '(cmd, rest) := span (fun b => negb (b =? 32)) (trim_crlf line) in
  (ascii_lossy (map Forms.ascii_upper cmd), from_utf8_lossy (drop 1 rest)).
Definition handle_line (line : bytes) (helo_seen : bool) (txn : Transaction) : session SessionError (option (bool * Transaction)) :=
  let '(cmd, arg) := split_command line in
  let arg_upper := Policy.to_uppercase arg in
  let cmd_is s := bool_decide (cmd = lit s) in
  if cmd_is "EHLO" || cmd_is "HELO" then send_ehlo_response (cmd_is "EHLO") ;; mret (Some (true, no_txn))
  else if negb helo_seen then say "503 HELO/EHLO first" ;; mret (Some (helo_seen, txn))
  else if cmd_is "AUTH" then go ← auth_cmd arg_upper; mret (if go : bool then Some (true, txn) else None)
  else if cmd_is "NOOP" then say "250 OK" ;; mret (Some (true, txn))
  else if cmd_is "RSET" then
    open ← reads has_up;
    (if open : bool then rset else mret tt) ;;
    say "250 OK" ;; mret (Some (true, no_txn))
  else if cmd_is "QUIT" then say "221 2.0.0 agentcage signing off" ;; mret None
  else if cmd_is "VRFY" then say "252 cannot VRFY user, but will accept for delivery" ;; mret (Some (true, txn))
  else if cmd_is "MAIL" then txn ← mail_cmd arg arg_upper txn; mret (Some (true, txn))
  else if cmd_is "RCPT" then txn ← rcpt_cmd arg arg_upper txn; mret (Some (true, txn))
  else if cmd_is "DATA" then '(go, txn) ← data txn; mret (if go : bool then Some (true, txn) else None)
  else say "502 5.5.1 command not implemented" ;; mret (Some (true, txn)).
Fixpoint session_loop (fuel : nat) (helo_seen : bool) (txn : Transaction) : session SessionError unit := fun w =>
  match fuel with
  | O => None
  | S fuel =>
      (r ← read_client;
       match r with
       | ReadShutdown => _ ← attempt (say "421 4.3.2 relay shutting down"); mret tt
       | ReadTimeout =>
           emits [("kind", JStr (lit "smtp_session")); ("relay", JStr name); ("decision", JStr (lit "closed")); ("reason", JStr (lit "cage idle timeout"))]%string ;;
           _ ← attempt (say "421 4.4.2 idle timeout, closing connection"); mret tt
       | ReadLine line =>
           if bool_decide (line = []) then mret tt
           else
             next ← handle_line line helo_seen txn;
             match next with None => mret tt | Some (helo_seen, txn) => session_loop fuel helo_seen txn end
       end) w
  end.
(** A byte of the cage a round at least, and one for the end. *)
Definition run_session : session SessionError unit :=
  say "220 agentcage-smtp-relay ready" ;; n ← reads cage_size; session_loop (S n) false no_txn.
(** [handle_client], past the limit on connections: the session, then its upstream
    connection. *)
Definition handle_client (conn_slot : bool) : session SessionError unit :=
  if negb conn_slot then _ ← attempt (write_cage env (lit "421 connection rate limit" ++ [13; 10])); mret tt
  else
    r ← attempt run_session;
    open ← reads has_up;
    (if open : bool then close_up else mret tt) ;;
    match r with Ok _ => mret tt | Err e => fails e end.
End Relay.
