(* ===== verification/SmtpSpec.v ===== *)
(** The SMTP relay's theorems: how a message is framed on the wire, and what a session
    of the cage can make the relay send to the upstream. *)
From S2P Require Import Prelude Utf8 Json Value ConfigValues MailRelay Smtp.
From S2P Require Inspect Entropy Forms Policy Injector Url Transport H1Messages Samples.
From Stdlib Require Import ZifyBool.

#[local] Existing Instance sees_sent.

(** * Definitions *)

(** ** A receiver *)

(** The transparency of a message body (RFC 5321, 4.5.2) undone, for a receiver that
    takes CR, LF and CRLF all as the end of a line: the body up to the end-of-data
    line, and what is left after it. [bol]: at the beginning of a line. *)
Fixpoint receive (bol : bool) (data : bytes) : option (bytes * bytes) :=
  match data with
  | [] => None
  | b :: r =>
      if bol && (b =? 46) then
        match r with
        | e :: r' => if is_eol e then Some ([], match r' with f :: q => if (e =? 13) && (f =? 10) then q else r' | [] => r' end)
                     else (let? (body, rest) := receive false r in Some (body, rest))
        | [] => None
        end
      else let? (body, rest) := receive (is_eol b) r in Some (b :: body, rest)
  end.
(** [p] ends where a line may begin. *)
Definition at_line_start (p : bytes) : Prop := p = [] \/ exists q e, p = q ++ [e] /\ is_eol e = true.

(** ** What the relay may send to the upstream *)

Section Permitted.
Context `{Unicode} `{Policy.UnicodeUpper} `{Entropy.Log2} `{Forms.Crates}.
Context (env : Env Settings) (self : Inner).
#[local] Abbreviation c := (cfg self).

(** An address is one line, and the policy allows it. *)
Definition sender_permitted (s : str) : Prop := s <> [] /\ (10 ∉ s) /\ (sender_allowlist c = [] \/ to_lowercase s ∈ sender_allowlist c).
Definition recipient_permitted (r : str) : Prop := r <> [] /\ (10 ∉ r) /\ recipient_allowed self r = true.
Definition recipients_permitted (rs : list str) : Prop :=
  Forall recipient_permitted rs /\ Z.of_nat (length rs) <= Z.max 0 (max_recipients c).
(** No longer than the limit, and no inspector of some live settings refused it. *)
Definition body_permitted (body : bytes) : Prop :=
  Z.of_nat (length body) <= Z.max 0 (max_message_bytes c)
  /\ exists k, List.find Inspect.is_block (chain_results self (inspectors (live env k)) body) = None.
Definition opening : list bytes := [crlf_line (lit "EHLO agentcage.local"); crlf_line (lit "AUTH PLAIN " ++ auth_token self)].
Definition mail_line (s : str) : bytes := crlf_line (as_bytes (lit "MAIL FROM:<" ++ s ++ lit ">")).
Definition rcpt_line (r : str) : bytes := crlf_line (as_bytes (lit "RCPT TO:<" ++ r ++ lit ">")).
Definition envelope (s : str) (rs : list str) : list bytes := mail_line s :: map rcpt_line rs.
Definition message (s : str) (rs : list str) (body : bytes) : list bytes := envelope s rs ++ [crlf_line (lit "DATA"); dot_stuff body].
Definition reset_line : bytes := crlf_line (lit "RSET").
(** A whole turn of the relay, or as much of it as the upstream let it send. *)
Inductive turn : list bytes -> Prop :=
| TurnOpening l : l `prefix_of` opening -> turn l
| TurnReset : turn [reset_line]
| TurnQuit : turn [crlf_line (lit "QUIT")]
| TurnMessage s rs body l : sender_permitted s -> recipients_permitted rs -> body_permitted body ->
    l `prefix_of` message s rs body \/ l = envelope s rs ++ [reset_line] -> turn l.
Definition turns (l : list bytes) : Prop := exists ts, Forall turn ts /\ l = concat ts.
End Permitted.

(** * Theorems *)

(** ** Framing *)

(** [dot_stuff] a byte at a time. *)
Fixpoint stuffed (bol : bool) (data : bytes) : bytes :=
  match data with
  | [] => []
  | b :: r => (if bol && (b =? 46) then [46] else []) ++ b :: stuffed (is_eol b) r
  end.
Definition dotted (line : bytes) : bytes := (if starts_with line [46] then [46] else []) ++ line.
Definition empty (l : bytes) : bool := match l with [] => true | _ => false end.
Lemma dotted_app l m : l <> [] -> dotted (l ++ m) = dotted l ++ m.
Proof. destruct l; [done|]. intros _. unfold dotted. cbn [starts_with app]. by destruct (_ && _). Qed.
Lemma stuffed_lines n : forall data cur, (length data <= n)%nat ->
  flat_map dotted (universal_lines cur data) = dotted cur ++ stuffed (empty cur) data.
Proof.
  induction n as [|n IH]; intros [|b r] cur Hn; cbn [length] in Hn; try lia; cbn [universal_lines stuffed].
  1,2: case_bool_decide as E; [subst cur|cbn [flat_map]]; by rewrite ?app_nil_r.
  assert (Hone : dotted cur ++ (if empty cur && (b =? 46) then [46] else []) ++ [b] = dotted (cur ++ [b])).
  { destruct cur as [|x l]; [|rewrite dotted_app by done; done]. unfold dotted. cbn [empty app starts_with andb]. rewrite andb_true_r, (Z.eqb_sym b). by destruct (_ =? _). }
  destruct (Z.eqb_spec b 10) as [->|H10].
  { cbn [flat_map]. rewrite IH by lia. rewrite <- Hone, <- !app_assoc. done. }
  destruct (Z.eqb_spec b 13) as [->|H13].
  { assert (Hend : flat_map dotted ((cur ++ [13]) :: universal_lines [] r) = dotted (cur ++ [13]) ++ stuffed true r) by (cbn [flat_map]; by rewrite IH by lia).
    destruct r as [|e r]; [cbn [flat_map]; rewrite <- Hone, <- !app_assoc; done|]. destruct (Z.eqb_spec e 10) as [->|He].
    - cbn [flat_map]. rewrite IH by (cbn [length] in Hn; lia). replace (cur ++ [13; 10]) with ((cur ++ [13]) ++ [10]) by by rewrite <- app_assoc.
      rewrite dotted_app by by destruct cur. rewrite <- Hone, <- !app_assoc. done.
    - rewrite Hend, <- Hone, <- !app_assoc. done. }
  rewrite IH by lia. rewrite <- Hone, <- !app_assoc. do 3 f_equal. unfold is_eol.
  destruct (Z.eqb_spec b 13), (Z.eqb_spec b 10); try done. by destruct cur.
Qed.
(** [dot_stuff]: the stuffed bytes, at most one line end, and the end-of-data line. *)
Lemma dot_stuff_shape body : exists t, (t = [] \/ t = [13; 10]) /\ dot_stuff body = stuffed true body ++ t ++ [46; 13; 10]
  /\ (t = [] -> exists q, stuffed true body = q ++ [13; 10]).
Proof.
  unfold dot_stuff, splitlines_keepends, split_universal_lines. change (fun line => _ ++ line) with dotted.
  rewrite (stuffed_lines (length body)) by lia. cbn [dotted starts_with app empty]. destruct (ends_crlf (stuffed true body)) eqn:E.
  - exists []. split_and!; [by left|done|]. intros _. unfold ends_crlf in E. apply starts_with_prefix in E as [q Eq].
    exists (rev q). rewrite <- (rev_involutive (stuffed true body)), Eq. cbn [rev app]. by rewrite <- app_assoc.
  - exists [13; 10]. split_and!; [by right|by rewrite <- app_assoc|done].
Qed.
Lemma at_line_start_cons x p : at_line_start (x :: p) -> (p = [] /\ is_eol x = true) \/ (p <> [] /\ at_line_start p).
Proof.
  intros [?|(q & e & E & He)]; [done|]. destruct q as [|y q]; injection E as -> ->; [by left|right]. split; [by destruct q|]. right. by exists q, e.
Qed.
(** After stuffing, a dot at the beginning of a line has a byte after it that does not
    end the line, but in what was put behind. *)
Lemma stuffed_no_end tl : (tl = [46; 13; 10] \/ tl = [13; 10; 46; 13; 10]) -> forall data bol p e q,
  stuffed bol data ++ tl = p ++ 46 :: e :: q -> (p = [] -> bol = true) -> at_line_start p -> is_eol e = true -> e = 13 /\ q = [10].
Proof.
  intros Htl data. induction data as [|b r IH]; intros bol p e q E Hbol Hp He; cbn [stuffed app] in E.
  - pose proof (f_equal length E) as El. rewrite length_app in El. cbn [length] in El.
    assert (Hq : forall x m, p = m ++ [x] -> x = 46 -> False).
    { intros x m -> ->. destruct Hp as [Hp|(l & y & El' & Hy)]; [by destruct m|]. by apply app_inj_tail in El' as [_ <-]. }
    destruct Htl as [-> | ->]; cbn [length] in El.
    + destruct p as [|a [|a' [|]]]; cbn [app length] in *; try lia; injection E as; simplify_eq; done || by destruct (Hq 46 []).
    + destruct p as [|a [|a' [|a'' [|a3 [|]]]]]; cbn [app length] in *; try lia; simplify_eq; done || by destruct (Hq 46 [13; 10]).
  - destruct (bol && (b =? 46)) eqn:Eb; cbn [app] in E.
    + apply andb_true_iff in Eb as [-> Eb%Z.eqb_eq]. subst b. change (is_eol 46) with false in E. destruct p as [|x [|y p]]; cbn [app] in E.
      * injection E as <- _. done.
      * injection E as <- _. by destruct (at_line_start_cons _ _ Hp) as [[_ ?]|[? _]].
      * injection E as <- <- E. destruct (at_line_start_cons _ _ Hp) as [[? _]|[_ Hp1]]; [done|].
        destruct (at_line_start_cons _ _ Hp1) as [[_ ?]|[Hne Hp2]]; [done|]. by eapply IH.
    + destruct p as [|x p]; cbn [app] in E.
      * injection E as -> _. by rewrite Hbol in Eb.
      * injection E as <- E. destruct (at_line_start_cons _ _ Hp) as [[-> Hx]|[Hne Hp1]].
        -- eapply (IH (is_eol b) []); [exact E|done|by left|exact He].
        -- by eapply IH.
Qed.
(** Whether a line begins behind the data. *)
Fixpoint ends_line (bol : bool) (data : bytes) : bool := match data with [] => bol | b :: r => ends_line (is_eol b) r end.
Lemma ends_line_stuffed data : forall bol q, stuffed bol data = q ++ [10] -> ends_line bol data = true.
Proof.
  induction data as [|b r IH]; intros bol q E; cbn [stuffed ends_line] in *; [by destruct q|].
  assert (Eb : exists q', b :: stuffed (is_eol b) r = q' ++ [10]).
  { destruct (bol && (b =? 46)); [|by exists q]. destruct q as [|x q]; [by injection E|]. injection E as _ E. by exists q. }
  destruct Eb as [[|x q'] Eq]; injection Eq as -> Er; [|by eapply IH]. destruct r as [|y r]; [done|]. cbn [stuffed] in Er. by destruct (is_eol 10 && (y =? 46)).
Qed.
Lemma receive_dotted data : forall bol t rest, (t = [] \/ t = [13; 10]) -> (t = [] -> ends_line bol data = true) ->
  receive bol (stuffed bol data ++ t ++ [46; 13; 10] ++ rest) = Some (data ++ t, rest).
Proof.
  induction data as [|b r IH]; intros bol t rest Ht Hend; cbn [stuffed app ends_line] in *.
  - destruct Ht as [-> | ->]; [by rewrite Hend|by destruct bol].
  - specialize (IH (is_eol b) t rest Ht Hend). destruct (bol && (b =? 46)) eqn:Eb; cbn [app].
    + apply andb_true_iff in Eb as [-> Eb%Z.eqb_eq]. subst b. change (is_eol 46) with false in *.
      change (receive true (46 :: 46 :: ?x)) with (let? (body, rest) := receive false (46 :: x) in Some (body, rest)).
      change (receive false (46 :: ?x)) with (let? (body, rest) := receive false x in Some (46 :: body, rest)). by rewrite IH.
    + cbn [receive]. by rewrite Eb, IH.
Qed.
(** C22: C0: [dot_stuff], the framing of a message for the upstream: a receiver that undoes
    the transparency of RFC 5321, and takes CR, LF or CRLF for the end of a line, reads
    from the sent bytes the inspected body - with a line end put behind it at most -
    and stops exactly at their end, with whatever is sent next untouched; and under any
    of those conventions the end-of-data line stands nowhere but at the very end, so no
    body can end its message early and have its rest read as commands. *)
Theorem body_framed body rest :
  (exists t, (t = [] \/ t = [13; 10]) /\ receive true (dot_stuff body ++ rest) = Some (body ++ t, rest))
  /\ (forall p e q, dot_stuff body = p ++ 46 :: e :: q -> at_line_start p -> is_eol e = true -> e = 13 /\ q = [10]).
Proof.
  destruct (dot_stuff_shape body) as (t & Ht & -> & Hend). split.
  - exists t. split; [exact Ht|]. rewrite <- !app_assoc. apply receive_dotted; [exact Ht|]. intros Et. destruct (Hend Et) as [q Eq].
    apply (ends_line_stuffed _ _ (q ++ [13])). by rewrite Eq, <- app_assoc.
  - intros p e q E. refine (stuffed_no_end (t ++ [46; 13; 10]) _ body true p e q E (fun _ => eq_refl)).
    destruct Ht as [-> | ->]; [by left|by right].
Qed.

(** ** One line a command *)
Lemma utf8_decode_lf n : forall l, (length l <= n)%nat -> Some 10 ∈ utf8_decode l -> 10 ∈ l.
Proof.
  induction n as [|n IH]; intros [|b r] Hn; cbn [length] in Hn; try lia; cbn [utf8_decode]; [by intros ?%elem_of_nil..|].
  assert (Hr : forall o p s, p ++ s = r -> o <> Some 10 -> Some 10 ∈ o :: utf8_decode s -> 10 ∈ b :: r).
  { intros o p s <- Ho [E|Hin]%elem_of_cons; [done|]. rewrite length_app in Hn. apply IH in Hin; [|lia]. right. apply elem_of_app. by right. }
  destruct (b <? 128); [intros [[= ->]|Hin]%elem_of_cons; [by left|right; apply IH; [lia|exact Hin]]|].
  assert (H0 : Some 10 ∈ [None : option Z] -> 10 ∈ b :: r) by (by intros ?%list_elem_of_singleton).
  destruct (in_range 194 223 b) eqn:E2.
  { destruct r as [|c r1]; [exact H0|]. destruct (is_cont c) eqn:Ec; [|by apply (Hr None [])].
    apply (Hr _ [c]); [done|]. unfold is_cont, in_range in *. intros [= E]. lia. }
  destruct (in_range 224 239 b) eqn:E3.
  { destruct r as [|c r1]; [exact H0|]. destruct (second_ok3 b c) eqn:Ec; [|by apply (Hr None [])]. destruct r1 as [|d r2]; [exact H0|].
    destruct (is_cont d) eqn:Ed; [|by apply (Hr None [c])]. apply (Hr _ [c; d]); [done|].
    unfold second_ok3, is_cont, in_range in *. intros [= E]. destruct (b =? 224) eqn:?, (b =? 237) eqn:?; lia. }
  destruct (in_range 240 244 b) eqn:E4; [|by apply (Hr None [])].
  destruct r as [|c r1]; [exact H0|]. destruct (second_ok4 b c) eqn:Ec; [|by apply (Hr None [])]. destruct r1 as [|d r2]; [exact H0|].
  destruct (is_cont d) eqn:Ed; [|by apply (Hr None [c])]. destruct r2 as [|e r3]; [exact H0|]. destruct (is_cont e) eqn:Ee; [|by apply (Hr None [c; d])].
  apply (Hr _ [c; d; e]); [done|].
  unfold second_ok4, is_cont, in_range in *. intros [= E]. destruct (b =? 240) eqn:?, (b =? 244) eqn:?; lia.
Qed.
Lemma lossy_lf l : 10 ∈ from_utf8_lossy l -> 10 ∈ l.
Proof.
  unfold from_utf8_lossy. intros (o & E & Hin)%list_elem_of_fmap. apply (utf8_decode_lf (length l)); [lia|]. destruct o; [by rewrite E|done].
Qed.
Lemma as_bytes_lf s : 10 ∈ as_bytes s -> 10 ∈ s.
Proof.
  intros Hin. apply list_elem_of_In, in_flat_map in Hin as (x & Hx & Hin). apply list_elem_of_In in Hx. apply list_elem_of_In in Hin. revert Hin. unfold utf8_char.
  destruct (x <? 128) eqn:E; [intros ->%list_elem_of_singleton; exact Hx|].
  destruct (x <? 2048), (x <? 65536); rewrite !elem_of_cons, elem_of_nil; intros Hor; exfalso; Z.div_mod_to_equations; lia.
Qed.
Lemma drop_while_sub f l (x : Z) : x ∈ drop_while f l -> x ∈ l.
Proof. destruct (H1Messages.drop_while_split f l) as (z & E & _). intros Hx. rewrite E. apply elem_of_app. by right. Qed.
Lemma drop_while_end_sub f l (x : Z) : x ∈ drop_while_end f l -> x ∈ l.
Proof. destruct (H1Messages.drop_while_end_split f l) as (z & E & _). intros Hx. rewrite E. apply elem_of_app. by left. Qed.
Lemma trim_sub f l (x : Z) : x ∈ trim_matches f l -> x ∈ l.
Proof. intros Hx. by eapply drop_while_sub, drop_while_end_sub. Qed.
Lemma bracketed_sub n : forall rest a x, bracketed_address n rest = Some a -> x ∈ a -> x ∈ rest.
Proof.
  induction n as [|n IH]; intros rest a x; [done|]. cbn [bracketed_address]. destruct (split_once 60 rest) as [[p after]|] eqn:E; [|done].
  apply Transport.split_once_some in E as [-> _]. intros Ha Hx. apply elem_of_app. right. right. revert Ha.
  destruct (find_sub [62] after) as [[|k]|]; [intros Ha; by eapply IH| |done]. intros [= <-]. apply trim_sub in Hx. by apply elem_of_take in Hx as (i & Hi & _); apply list_elem_of_lookup; exists i.
Qed.
Lemma extract_address_sub arg a x : extract_address arg = Some a -> x ∈ a -> x ∈ arg.
Proof.
  unfold extract_address. destruct (bracketed_address _ arg) as [b|] eqn:E; [intros [= <-]; by apply (bracketed_sub _ _ _ _ E)|]. cbv zeta.
  destruct (_ && _); [|done]. intros [= <-]. apply trim_sub.
Qed.
Lemma trim_crlf_line l : one_line l -> 10 ∉ trim_crlf l.
Proof.
  unfold trim_crlf, one_line. intros (x & Hx & El). destruct El as [-> | ->]; intros Hin; [by apply drop_while_end_sub in Hin|].
  unfold drop_while_end in Hin. rewrite fold_right_app in Hin. change (10 ∈ drop_while_end is_eol x) in Hin. by apply drop_while_end_sub in Hin.
Qed.
Lemma split_command_line l : one_line l -> 10 ∉ (split_command l).2.
Proof.
  intros Hl. apply trim_crlf_line in Hl. unfold split_command. destruct (span _ (trim_crlf l)) as [cmd rest] eqn:E. apply span_app in E. cbn [snd].
  intros Hin%lossy_lf. apply Hl. rewrite E. apply elem_of_app. right. destruct rest; [done|by right].
Qed.
Lemma address_line arg n a : 10 ∉ arg -> extract_address (trim_matches is_strip_space (char_slice arg n)) = Some a -> 10 ∉ a.
Proof. intros Harg Ha Hin. apply Harg. eapply extract_address_sub, trim_sub in Hin; [|exact Ha]. unfold char_slice in Hin. rewrite <- (take_drop n arg). apply elem_of_app. by right. Qed.

(** ** The upstream client *)

Section Client.
Context `{Unicode} `{Policy.UnicodeUpper} `{Entropy.Log2} `{Forms.Crates}.
Context (env : Env Settings) (self : Inner).

Lemma runs_parts fuel : forall parts w, (up_size w < fuel)%nat -> runs w (parts_loop env self fuel parts) (fun _ n _ => n = []).
Proof.
  induction fuel as [|fuel IH]; intros parts w Hf; [lia|]. change (runs w ?m ?Q) with (runs w (fun w => m w) Q).
  eapply (runs_bind w (up_readline env (idle_timeout_seconds (cfg self)))); [apply runs_up_readline| |by intros w' n e [-> _]].
  intros w' n line _ [-> Hl]. case_bool_decide as E; [by apply runs_fails|]. destruct (let? t := _ in _) as [code|]; [|by apply runs_fails].
  case_bool_decide; [|by apply runs_ret]. apply IH. specialize (Hl E). lia.
Qed.
Lemma quiet_response : quiet (read_response env self).
Proof. intros w. apply runs_reads. apply runs_parts. lia. Qed.

(** [m] sends [plan], or stops within it. *)
Definition follows {E A} (m : session E A) (plan : list bytes) : Prop :=
  says m (fun n r => match r with Ok _ => n = plan | Err _ => n `prefix_of` plan end).
Lemma follows_quiet {E A} (m : session E A) : quiet m -> follows m [].
Proof. intros Hm. eapply says_weaken; [exact Hm|]. intros n [?|?] ->; done. Qed.
Lemma follows_fails {E A} (e : E) plan : follows (fails e : session E A) plan.
Proof. intros w. apply runs_fails. apply prefix_nil. Qed.
Lemma follows_bind {E A B} (m : session E A) (k : A -> session E B) p q : follows m p -> (forall a, follows (k a) q) -> follows (m ≫= k) (p ++ q).
Proof.
  intros Hm Hk. eapply says_bind; [exact Hm| |].
  - intros n a ->. eapply says_weaken; [apply Hk|]. intros n2 [?|?] Hn; [by rewrite Hn|by apply prefix_app].
  - intros n e Hn. by apply prefix_app_r.
Qed.
Lemma follows_write b : follows (write_up env b) [b].
Proof. eapply says_weaken; [by apply (says_write_up env b b)|]. intros n [?|?] ->; [done|apply prefix_nil]. Qed.
Lemma follows_command line : follows (command env self line) [crlf_line line].
Proof. apply (follows_bind _ _ [crlf_line line] []); [apply follows_write|]. intros _. apply follows_quiet, quiet_response. Qed.
Lemma follows_attempt {E E' A B} (m : session E A) (k : result E A -> session E' B) p q :
  follows m p -> (forall a, follows (k (Ok a)) q) -> (forall e, exists e', k (Err e) = fails e') -> follows (attempt m ≫= k) (p ++ q).
Proof.
  intros Hm Hok Herr.
  apply (says_bind _ _ (fun n r => match r with Ok (Ok _) => n = p | Ok (Err _) => n `prefix_of` p | Err _ => False end)); [by apply says_attempt| |done].
  intros n [a|e] Hn.
  - rewrite Hn. eapply says_weaken; [apply Hok|]. intros n2 [?|?] Hn2; [by rewrite Hn2|by apply prefix_app].
  - destruct (Herr e) as [e' ->]. intros w. apply runs_fails. rewrite app_nil_r. by apply prefix_app_r.
Qed.
#[local] Hint Resolve follows_fails : core.
Lemma follows_handshake : follows (handshake env self) (opening self).
Proof.
  apply (follows_bind _ _ [] (opening self)); [apply follows_quiet, quiet_response|]. intros [code ?]. destruct (negb _); [done|].
  apply (follows_bind _ _ [crlf_line (lit "EHLO agentcage.local")] [crlf_line (lit "AUTH PLAIN " ++ auth_token self)]); [apply follows_command|].
  intros [code1 ?]. destruct (negb _); [done|]. rewrite <- (app_nil_r [crlf_line (lit "AUTH PLAIN " ++ auth_token self)]).
  apply follows_attempt; [apply follows_command| |by eexists]. intros [code2 ?]. destruct (negb _); [done|]. apply follows_quiet, quiet_ret.
Qed.
Lemma follows_rcpts rs : forall accepted rejected, follows (rcpt_loop env self rs accepted rejected) (map rcpt_line rs).
Proof.
  induction rs as [|r rs IH]; intros accepted rejected; [apply follows_quiet, quiet_ret|].
  apply (follows_bind _ _ [rcpt_line r]); [apply follows_command|]. intros [code ?]. destruct (in_range _ _ _); apply IH.
Qed.
Lemma says_follows {E A B} (m : session E A) (k : A -> session E B) p (Q : list bytes -> result E B -> Prop) : follows m p ->
  (forall a, says (k a) (fun n r => Q (p ++ n) r)) -> (forall l e, l `prefix_of` p -> Q l (Err e)) -> says (m ≫= k) Q.
Proof. intros Hm Hk He. eapply says_bind; [exact Hm| |exact He]. intros n a ->. apply Hk. Qed.
Lemma says_rest {E A} (m : session E A) p l q : follows m p -> says m (fun n _ => l ++ n `prefix_of` l ++ p ++ q).
Proof. intros Hm. eapply says_weaken; [exact Hm|]. intros n [a|e] Hn; apply prefix_app; [rewrite Hn; by apply prefix_app_r|by apply prefix_app_r]. Qed.
Lemma prefix_one {A} (x : A) l : l `prefix_of` [x] -> l = [] \/ l = [x].
Proof. intros [k E]. destruct l as [|y [|z l]]; [by left| |done]. injection E as -> _. by right. Qed.
Lemma says_deliver s rs body : says (deliver env self s rs body) (fun n _ => n `prefix_of` message s rs body \/ n = envelope s rs ++ [reset_line]).
Proof.
  change (message s rs body) with ([mail_line s] ++ map rcpt_line rs ++ [crlf_line (lit "DATA"); dot_stuff body]).
  change (envelope s rs ++ [reset_line]) with ([mail_line s] ++ map rcpt_line rs ++ [reset_line]).
  apply (says_follows _ _ [mail_line s]); [apply follows_command| |intros l1 e1 Hl; left; by apply prefix_app_r].
  intros [code ?]. destruct (negb _).
  { intros w. apply runs_fails. left. apply prefix_app, prefix_nil. }
  apply (says_follows _ _ (map rcpt_line rs)); [apply follows_rcpts| |intros l1 e1 Hl; left; by apply prefix_app, prefix_app_r].
  intros [accepted rejected]. case_bool_decide.
  - apply (says_follows _ _ [reset_line]); [apply follows_command| |].
    + intros a w. apply runs_fails. right. by rewrite app_nil_r.
    + intros l1 e1 [-> | ->]%prefix_one; [left; apply prefix_app, prefix_app, prefix_nil|by right].
  - eapply says_weaken; [apply (says_rest _ [crlf_line (lit "DATA"); dot_stuff body] ([mail_line s] ++ map rcpt_line rs) [])|].
    + apply (follows_bind _ _ [crlf_line (lit "DATA")] [dot_stuff body]); [apply follows_command|]. intros [code1 ?]. destruct (negb _); [done|].
      apply (follows_bind _ _ [dot_stuff body] []); [apply follows_write|]. intros _. apply (follows_bind _ _ [] []); [apply follows_quiet, quiet_response|].
      intros [code2 ?]. destruct (negb _); [done|]. apply follows_quiet, quiet_ret.
    + intros n r Hn. left. rewrite <- !app_assoc in Hn. exact Hn.
Qed.
End Client.

(** ** A session *)

Section Safety.
Context `{Unicode} `{Policy.UnicodeUpper} `{Entropy.Log2} `{Forms.Crates}.
Context (env : Env Settings) (self : Inner).
#[local] Abbreviation c := (cfg self).
#[local] Abbreviation turns := (turns env self).

Lemma turns_nil : turns [].
Proof. by exists []. Qed.
Lemma turns_app a b : turns a -> turns b -> turns (a ++ b).
Proof. intros (ta & Ha & ->) (tb & Hb & ->). exists (ta ++ tb). split; [by apply Forall_app|by rewrite concat_app]. Qed.
Lemma turns_one l : turn env self l -> turns l.
Proof. intros Hl. exists [l]. split; [by constructor|]. cbn. by rewrite app_nil_r. Qed.

(** [m] sends turns, and what it returns is as [Q] says. *)
Definition safe {E A} (m : session E A) (Q : A -> Prop) : Prop :=
  says m (fun n r => turns n /\ match r with Ok a => Q a | Err _ => True end).
Lemma safe_quiet {E A} (m : session E A) : quiet m -> safe m (fun _ => True).
Proof. intros Hm. eapply says_weaken; [exact Hm|]. intros n r ->. split; [apply turns_nil|by destruct r]. Qed.
Lemma safe_ret {E A} (a : A) (Q : A -> Prop) : Q a -> safe (mret a : session E A) Q.
Proof. intros Ha w. apply runs_ret. split; [apply turns_nil|exact Ha]. Qed.
Lemma safe_fails {E A} (e : E) (Q : A -> Prop) : safe (fails e : session E A) Q.
Proof. intros w. apply runs_fails. by split; [apply turns_nil|]. Qed.
Lemma safe_weaken {E A} (m : session E A) (P Q : A -> Prop) : safe m P -> (forall a, P a -> Q a) -> safe m Q.
Proof. intros Hm HQ. eapply says_weaken; [exact Hm|]. intros n [a|e] [Hn Ha]; split; auto. Qed.
Lemma safe_bind {E A B} (m : session E A) (k : A -> session E B) P Q : safe m P -> (forall a, P a -> safe (k a) Q) -> safe (m ≫= k) Q.
Proof.
  intros Hm Hk. eapply says_bind; [exact Hm| |by intros n e [? _]]. intros n a [Hn Ha]. eapply says_weaken; [by apply Hk|].
  intros n2 r [Hn2 Hr]. split; [by apply turns_app|exact Hr].
Qed.
Lemma safe_after {E A B} (m : session E A) (k : A -> session E B) Q : quiet m -> (forall a, safe (k a) Q) -> safe (m ≫= k) Q.
Proof. intros Hm Hk. eapply safe_bind; [by apply safe_quiet|auto]. Qed.
Lemma safe_attempt {E E' A} (m : session E A) (Q : result E A -> Prop) : says m (fun n r => turns n /\ Q r) -> safe (attempt m : session E' _) Q.
Proof. intros Hm. by apply says_attempt. Qed.

Lemma quiet_blocked {E} command reason more : quiet (blocked self command reason more : session E unit).
Proof. apply quiet_emits. Qed.
Lemma quiet_say s : quiet (say env s).
Proof. apply quiet_write_line. Qed.
Lemma quiet_emit_all {E} l : quiet (emit_all l : session E unit).
Proof. induction l as [|f l IH]; [apply quiet_ret|]. apply quiet_bind; [apply quiet_emits|]. by intros _. Qed.
Lemma quiet_reply {E A} (m : session E unit) (a : A) : quiet m -> quiet (m ;; mret a).
Proof. intros Hm. apply quiet_bind; [exact Hm|]. intros _. apply quiet_ret. Qed.

Lemma has_name (l : list Inspect.Inspector) : map Inspect.name l = [] -> l = [].
Proof. by destruct l. Qed.
Definition judged (body : bytes) (txn : Transaction) (r : option Inspect.Verdict * Transaction) : Prop :=
  sender r.2 = sender txn /\ recipients r.2 = recipients txn
  /\ (r.1 = None -> exists k, List.find Inspect.is_block (chain_results self (inspectors (live env k)) body) = None).
Lemma inspected body txn : says (run_inspectors env self body txn) (fun n r => n = [] /\ match r with Ok v => judged body txn v | Err _ => True end).
Proof.
  apply says_asked. intros i. cbv zeta. case_bool_decide as E.
  { intros w. apply runs_ret. split; [done|]. split_and!; [done..|]. intros _. exists i. by rewrite (has_name _ E). }
  apply says_asked. intros j. destruct (worker env j) as [e|]; [intros w; by apply runs_fails|].
  destruct (List.find Inspect.is_block _) as [v|] eqn:Ev; [intros w; apply runs_ret; by split_and!|].
  apply says_after; [apply quiet_emit_all| |done]. intros _. apply says_after; [case_bool_decide; [apply quiet_ret|apply quiet_emits]| |done].
  intros _ w. apply runs_ret. split; [done|]. split_and!; [done..|]. intros _. by exists i.
Qed.

Definition txn_ok (t : Transaction) : Prop :=
  (sender t = [] \/ sender_permitted self (sender t)) /\ recipients_permitted self (recipients t).
Lemma no_txn_ok : txn_ok no_txn.
Proof. split; [by left|]. split; [constructor|cbn; lia]. Qed.

Lemma says_attempted {E E' A} (m : session E A) (P : list bytes -> Prop) : says m (fun n _ => P n) ->
  says (attempt m : session E' _) (fun n r => P n /\ exists a, r = Ok a).
Proof. intros Hm. apply says_attempt. eapply says_weaken; [exact Hm|]. intros n r Hn. split; [exact Hn|by exists r]. Qed.
Lemma says_command {E} line : turn env self [crlf_line line] ->
  says (attempt (command env self line) : session E _) (fun n r => turns n /\ exists a, r = Ok a).
Proof.
  intros Ht. apply (says_attempted _ turns). eapply says_weaken; [apply follows_command|]. intros n [a|e] Hn.
  - rewrite Hn. by apply turns_one.
  - apply prefix_one in Hn as [-> | ->]; [apply turns_nil|by apply turns_one].
Qed.
Lemma safe_command {E} line : turn env self [crlf_line line] -> safe (attempt (command env self line) : session E _) (fun _ => True).
Proof. intros Ht. eapply says_weaken; [by apply says_command|]. intros n r [Hn [a ->]]. by split. Qed.
Lemma quiet_change f : (forall w, seen (log (f w)) = seen (log w) /\ cage (f w) = cage w) -> forall E, quiet (changes f : session E unit).
Proof. intros Hf E w. destruct (Hf w) as [Hl Hc]. exists []. rewrite app_nil_r. split_and!; [exact Hl|unfold cage_size; cbn; by rewrite Hc|done]. Qed.
Lemma quiet_closed {E} : quiet (changes (fun w => set_up None (add_event Closed w)) : session E unit).
Proof. apply quiet_change. intros w. cbn [log set_up add_event changes tick_on]. by rewrite seen_nothing, app_nil_r. Qed.
Lemma safe_close_up {E} : safe (close_up env self : session E unit) (fun _ => True).
Proof. eapply safe_bind; [apply safe_command, TurnQuit|]. intros _ _. apply safe_quiet, quiet_closed. Qed.
Lemma safe_closing {E} (open : bool) : safe (if open then close_up env self else mret tt : session E unit) (fun _ => True).
Proof. destruct open; [apply safe_close_up|by apply safe_ret]. Qed.
Lemma safe_rset : safe (rset env self) (fun _ => True).
Proof. eapply safe_bind; [apply safe_command, TurnReset|]. intros _ _. by apply safe_ret. Qed.
Lemma says_connect : says (connect_upstream env self) (fun n r => n `prefix_of` opening self).
Proof.
  apply says_asked. intros i. destruct (up_connect env i) as [arrivals|e]; [|intros w; apply runs_fails, prefix_nil].
  apply says_after; [apply quiet_change; intros w; cbn [log set_up add_event]; by rewrite seen_nothing, app_nil_r| |intros; apply prefix_nil]. intros _.
  apply (says_bind _ _ (fun n _ => n `prefix_of` opening self)); [|intros n r Hn|done].
  - apply says_attempt. eapply says_weaken; [apply follows_handshake|]. by intros n [a|e] Hn; [rewrite Hn|].
  - destruct r as [u|e].
    + intros w. apply runs_ret. by rewrite app_nil_r.
    + apply says_after; [apply quiet_closed| |intros; by rewrite app_nil_r]. intros _ w. apply runs_fails. by rewrite app_nil_r.
Qed.
(** What the relay sends of an accepted message is within its turns. *)
Lemma says_message s rs body : sender_permitted self s -> recipients_permitted self rs -> body_permitted env self body ->
  says (open ← reads has_up; (if open : bool then mret tt else connect_upstream env self) ;; deliver env self s rs body) (fun n _ => turns n).
Proof.
  intros Hs Hr Hb. assert (Hd : says (deliver env self s rs body) (fun n _ => turns n)).
  { eapply says_weaken; [apply says_deliver|]. intros n r0 Hn. apply turns_one. by eapply TurnMessage. }
  apply says_after; [apply says_reads| |intros; apply turns_nil]. intros open.
  apply (says_bind _ _ (fun n _ => turns n)).
  - destruct open; [intros w; apply runs_ret, turns_nil|]. eapply says_weaken; [apply says_connect|]. intros n r0 Hn. apply turns_one. by apply TurnOpening.
  - intros n a Hn. eapply says_weaken; [exact Hd|]. intros n2 r0 Hn2. by apply turns_app.
  - done.
Qed.
#[local] Hint Resolve quiet_blocked quiet_say quiet_emit_all : session.
#[local] Hint Resolve safe_fails turns_nil no_txn_ok : core.
#[local] Ltac onward := repeat (apply safe_after; [by quietly|intros ?]).

Definition read_ok (d : DataRead) : Prop :=
  match d with Body body oversize => oversize = false -> Z.of_nat (length body) <= Z.max 0 (max_message_bytes c) | _ => True end.
Lemma runs_data_loop fuel : forall body oversize w, (cage_size w < fuel)%nat -> read_ok (Body body oversize) ->
  runs w (data_loop env self fuel body oversize) (fun _ n r => n = [] /\ match r with Ok d => read_ok d | Err _ => True end).
Proof.
  induction fuel as [|fuel IH]; intros body oversize w Hf Hb; [lia|]. change (runs w ?m ?Q) with (runs w (fun w => m w) Q).
  eapply (runs_bind w (read_cage env (idle_timeout_seconds c))); [apply runs_read_cage| |by intros w' n e [-> _]].
  intros w' n r _ [-> Hl]. destruct r as [line| |]; [|by apply runs_ret..]. destruct Hl as [_ Hl].
  case_bool_decide as E; [by apply runs_ret|]. specialize (Hl E). destruct (data_line line) as [line'|]; [|by apply runs_ret].
  destruct oversize; (apply IH; [lia|]); [done|]. cbn [read_ok]. intros Ho. apply Z.ltb_ge in Ho. exact Ho.
Qed.
Lemma says_read_data : says (read_data env self) (fun n r => n = [] /\ match r with Ok d => read_ok d | Err _ => True end).
Proof. intros w. apply runs_reads, runs_data_loop; [lia|]. intros _. cbn. lia. Qed.

Lemma safe_data_body txn body oversize : sender_permitted self (sender txn) -> recipients_permitted self (recipients txn) -> read_ok (Body body oversize) ->
  safe (data_body env self txn body oversize) (fun r => txn_ok r.2).
Proof.
  intros Hs Hr Hb. unfold data_body. destruct oversize; cbv zeta; [onward; by apply safe_ret|].
  eapply says_bind; [apply inspected| |by intros n e [-> _]]. intros n [block txn'] [-> (Es & Er & Hj)]. cbn [fst snd] in *. cbn [app].
  destruct block as [block|]; [onward; by apply safe_ret|].
  apply (safe_bind _ _ (fun _ => True)).
  { apply safe_attempt. eapply says_weaken; [|intros n r Hn; split; [exact Hn|done]]. unfold deliver_upstream. rewrite Es, Er.
    apply says_message; [done..|]. split; [by apply Hb|by apply Hj]. }
  intros [[[status accepted] rejected]|e] _.
  - onward. by apply safe_ret.
  - onward. apply (safe_bind _ _ (fun _ => True)); [apply safe_closing|]. intros _ _. by apply safe_ret.
Qed.
Lemma safe_data txn : txn_ok txn -> safe (data env self txn) (fun r => txn_ok r.2).
Proof.
  intros Ht. unfold data. destruct (_ || _) eqn:Ee; [onward; by apply safe_ret|]. apply orb_false_iff in Ee as [Es%bool_decide_eq_false _].
  destruct Ht as [Hs Hr]. destruct Hs as [Hs|Hs]; [done|]. assert (Ht : txn_ok txn) by (split; [by right|done]).
  apply safe_after; [by quietly|]. intros slot. destruct (negb slot); [onward; by apply safe_ret|]. onward.
  eapply says_bind; [apply says_read_data| |by intros n e [-> _]]. intros n d [-> Hd]. destruct d as [body oversize|size| |]; [by apply safe_data_body|..];
    onward; by apply safe_ret.
Qed.

(** A check of an address: refused without a word to the upstream, or as [Q] says. *)
Definition decides (s : option str) (m : session SessionError (option str)) (Q : str -> Prop) : Prop :=
  says m (fun n r => n = [] /\ (r = Ok None -> exists a, s = Some a /\ Q a)).
Lemma decides_refused s m reason Q : quiet m -> decides s (m ≫= (fun _ : unit => mret (Some reason))) Q.
Proof. intros Hm. apply says_after; [exact Hm| |done]. intros _ w. by apply runs_ret. Qed.
Lemma decides_accepted a (Q : str -> Prop) : Q a -> decides (Some a) (mret None) Q.
Proof. intros Ha w. apply runs_ret. split; [done|]. intros _. by exists a. Qed.
Lemma sender_decided s : (forall a, s = Some a -> 10 ∉ a) -> decides s (sender_decision self s) (sender_permitted self).
Proof.
  intros Hl. unfold sender_decision. destruct s as [a|]; [|apply decides_refused; by quietly]. case_bool_decide as E; [apply decides_refused; by quietly|].
  destruct (_ || _) eqn:Ep; [|apply decides_refused; by quietly]. apply decides_accepted. split_and!; [done|by apply Hl|].
  apply orb_true_iff in Ep as [Ep%bool_decide_eq_true|Ep%bool_decide_eq_true]; auto.
Qed.
Lemma recipient_decided r : (forall a, r = Some a -> 10 ∉ a) -> decides r (recipient_decision self r) (recipient_permitted self).
Proof.
  intros Hl. unfold recipient_decision. destruct r as [a|]; [|apply decides_refused; by quietly]. case_bool_decide as E; [apply decides_refused; by quietly|].
  destruct (recipient_allowed _ _) eqn:Ep; [|apply decides_refused; by quietly]. apply decides_accepted. split_and!; [done|by apply Hl|done].
Qed.
Lemma safe_decided {B} s m Q (k : option str -> session SessionError B) P : decides s m Q ->
  (forall reason, safe (k (Some reason)) P) -> (forall a, s = Some a -> Q a -> safe (k None) P) -> safe (m ≫= k) P.
Proof.
  intros Hm Hno Hyes. eapply says_bind; [exact Hm| |by intros n e [-> _]]. intros n [reason|] [-> Hd]; [apply Hno|].
  destruct (Hd eq_refl) as (a & Ea & Ha). by eapply Hyes.
Qed.
Lemma safe_mail arg upper txn : 10 ∉ arg -> txn_ok txn -> safe (mail_cmd env self arg upper txn) txn_ok.
Proof.
  intros Hl Ht. unfold mail_cmd. destruct (negb _); [onward; by apply safe_ret|]. cbv zeta. eapply safe_decided; [apply sender_decided; intros a; by apply address_line|intros; onward; by apply safe_ret|].
  intros a -> Ha. onward. apply safe_ret. split; [by right|]. split; [constructor|cbn; lia].
Qed.
Lemma safe_rcpt arg upper txn : 10 ∉ arg -> txn_ok txn -> safe (rcpt_cmd env self arg upper txn) txn_ok.
Proof.
  intros Hl Ht. unfold rcpt_cmd. destruct (negb _); [onward; by apply safe_ret|]. case_bool_decide; [onward; by apply safe_ret|].
  destruct (_ <=? _) eqn:Em; [onward; by apply safe_ret|]. cbv zeta. eapply safe_decided; [apply recipient_decided; intros a; by apply address_line|intros; onward; by apply safe_ret|].
  intros a -> Ha. onward. apply safe_ret. destruct Ht as [Hs [Hr Hlen]]. split; [exact Hs|]. split; [apply Forall_app; auto|].
  cbn [recipients]. rewrite length_app. cbn [length]. lia.
Qed.
Lemma quiet_prompts l : quiet (auth_prompts env self l).
Proof. induction l as [|p l IH]; [apply quiet_ret|]. cbn [auth_prompts]. by quietly. Qed.
Lemma quiet_auth upper : quiet (auth_cmd env self upper).
Proof. unfold auth_cmd. apply quiet_bind; [by quietly|]. intros _. apply quiet_bind; [apply quiet_prompts|]. intros go. by quietly. Qed.
Lemma quiet_ehlo b : quiet (send_ehlo_response env self b).
Proof. unfold send_ehlo_response. cbv zeta. destruct (negb b); apply quiet_write_cage. Qed.
#[local] Hint Resolve quiet_auth quiet_ehlo : session.
Definition next_ok (r : option (bool * Transaction)) : Prop := forall h t, r = Some (h, t) -> txn_ok t.
Lemma next_some h t : txn_ok t -> next_ok (Some (h, t)).
Proof. by intros Ht h' t' [= _ <-]. Qed.
Lemma safe_handle_line line helo_seen txn : one_line line -> txn_ok txn -> safe (handle_line env self line helo_seen txn) next_ok.
Proof.
  intros Hl Ht. apply split_command_line in Hl. pose proof (next_some true txn Ht) as Hn. pose proof (next_some true no_txn no_txn_ok) as H0'. assert (He : next_ok None) by done.
  unfold handle_line. destruct (split_command line) as [cmd arg]. cbn [snd] in Hl. cbv zeta.
  destruct (_ || _); [onward; by apply safe_ret|]. destruct (negb helo_seen); [onward; by apply safe_ret, next_some|].
  case_bool_decide; [onward; apply safe_ret; by destruct a|]. case_bool_decide; [onward; by apply safe_ret|].
  case_bool_decide.
  { apply safe_after; [by quietly|]. intros open. eapply (safe_bind _ _ (fun _ => True)); [destruct open; [apply safe_rset|by apply safe_ret]|].
    intros _ _. onward. by apply safe_ret. }
  do 2 (case_bool_decide; [onward; by apply safe_ret|]).
  case_bool_decide; [eapply safe_bind; [by apply safe_mail|]; intros t Ht1; by apply safe_ret, next_some|].
  case_bool_decide; [eapply safe_bind; [by apply safe_rcpt|]; intros t Ht1; by apply safe_ret, next_some|].
  case_bool_decide; [|onward; by apply safe_ret].
  eapply safe_bind; [by apply safe_data|]. intros [go t] Ht1. apply safe_ret. destruct go; [by apply next_some|done].
Qed.

Lemma runs_loop fuel : forall helo_seen txn w, (cage_size w < fuel)%nat -> txn_ok txn ->
  runs w (session_loop env self fuel helo_seen txn) (fun _ n _ => turns n).
Proof.
  assert (Hbye : forall w s, runs w (attempt (say env s) ≫= (fun _ => mret tt) : session SessionError unit) (fun _ n _ => turns n)).
  { intros w s. apply (says_weaken _ (fun n _ => n = [])); [|intros n r ->; apply turns_nil]. apply quiet_bind; [apply quiet_attempt, quiet_say|]. intros _. apply quiet_ret. }
  induction fuel as [|fuel IH]; intros helo_seen txn w Hf Ht; [lia|]. change (runs w ?m ?Q) with (runs w (fun w => m w) Q).
  eapply (runs_bind w (read_cage env (idle_timeout_seconds c))); [apply runs_read_cage| |intros w' n e [-> _]; apply turns_nil].
  intros w' n r Hw [-> Hl]. destruct r as [line| |]; [| |apply Hbye].
  - destruct Hl as [Hone Hl]. case_bool_decide as E; [apply runs_ret, turns_nil|]. specialize (Hl E).
    eapply runs_bind; [by apply (safe_handle_line line helo_seen txn)| |by intros w2 n e [? _]].
    intros w2 n [[h t]|] Hw2 [Hn Hnext]; [|by apply runs_ret; rewrite app_nil_r].
    eapply runs_weaken; [apply IH; [lia|by eapply Hnext]|]. intros w3 n3 r3 Hn3. change (turns (n ++ n3)). by apply turns_app.
  - eapply runs_bind; [apply quiet_emits| |intros w2 n e ->; apply turns_nil]. intros w2 n _ _ ->. apply Hbye.
Qed.
Lemma says_session : says (run_session env self) (fun n _ => turns n).
Proof. apply says_after; [by quietly| |intros; apply turns_nil]. intros _ w. apply runs_reads, runs_loop; [lia|done]. Qed.
Lemma close_up_closed w : runs w (close_up env self : session SessionError unit) (fun w' n r => turns n /\ r = Ok tt /\ up w' = None).
Proof.
  eapply runs_bind; [apply (says_command (E := SessionError)), TurnQuit| |by intros w1 n e [_ [a Ha]]]. intros w1 n a _ [Hn _].
  exists []. rewrite app_nil_r. split_and!; [|done|by rewrite app_nil_r|done|done]. cbn [log set_up add_event changes tick_on]. by rewrite seen_nothing, app_nil_r.
Qed.
Lemma turned_away w : up w = None ->
  runs w (attempt (write_cage env (lit "421 connection rate limit" ++ [13; 10])) ≫= (fun _ => mret tt) : session SessionError unit) (fun w' n _ => turns n /\ up w' = None).
Proof.
  intros Hu. unfold runs, attempt, write_cage, mbind, session_bind, asks. destruct (cage_write env (tick w)); exists []; rewrite app_nil_r.
  - split_and!; [done|done|apply turns_nil|done].
  - split_and!; [|done|apply turns_nil|done]. cbn [log set_up add_event changes tick_on]. by rewrite seen_nothing, app_nil_r.
Qed.
Lemma runs_handle_client conn_slot w : up w = None -> runs w (handle_client env self conn_slot) (fun w' n _ => turns n /\ up w' = None).
Proof.
  intros Hup. unfold handle_client. destruct conn_slot; cbn [negb]; [|by apply turned_away].
  eapply runs_bind; [apply (says_attempted _ turns says_session)| |].
  - intros w1 n r _ [Hn _]. apply runs_reads.
    eapply (runs_bind w1 _ _ (fun w' n r => turns n /\ r = Ok tt /\ up w' = None)).
    + unfold has_up. case_bool_decide as Eu; [apply close_up_closed|]. apply runs_ret. split_and!; [apply turns_nil|done|]. by apply eq_None_not_Some.
    + intros w2 n2 _ _ (Hn2 & _ & Hu). destruct r as [u|e]; [apply runs_ret|apply runs_fails]; (split; [|exact Hu]); rewrite app_nil_r; by apply turns_app.
    + by intros w2 n2 e (_ & ? & _).
  - by intros w1 n e [_ [a Ha]].
Qed.
(** C12: C0: [handle_client], a whole connection of the cage to the SMTP relay, comes to an
    end whatever the cage and the upstream send, cut up in whatever way, and whatever
    fails, and leaves no upstream connection open; and all it wrote to the upstream is
    a sequence of turns of the relay: the relay's own EHLO and AUTH, RSET, QUIT, and
    mail transactions - or as much of one as the upstream let it send - whose sender
    is one line the sender allowlist permits, whose recipients, no more than
    max_recipients, are each one line the recipient allowlists permit, and whose body,
    no longer than max_message_bytes, no inspector of the live settings blocked. No
    command of the cage passes through. *)
Theorem session_permitted conn_slot w : up w = None ->
  exists w' r new, handle_client env self conn_slot w = Some (w', r)
  /\ sent (log w') = sent (log w) ++ new /\ turns new /\ up w' = None.
Proof.
  intros Hup. pose proof (runs_handle_client conn_slot w Hup) as Hr. unfold runs in Hr.
  destruct (handle_client env self conn_slot w) as [[w' r]|]; [|done]. destruct Hr as (n & Hs & _ & Hn & Hu). by exists w', r, n.
Qed.
End Safety.

(** ** Witnesses *)

Lemma body_framed_witness :
  let body := lit "..a" ++ [13] ++ lit "." ++ [10] ++ lit "QUIT" in
  dot_stuff body = lit "...a" ++ [13] ++ lit ".." ++ [10] ++ lit "QUIT" ++ [13; 10] ++ lit "." ++ [13; 10]
  /\ receive true (dot_stuff body ++ lit "RSET") = Some (body ++ [13; 10], lit "RSET")
  /\ (13 = 13 /\ [10] = [10]).
Proof.
  intros body. split; [by vm_compute|]. destruct (body_framed body (lit "RSET")) as [(t & [-> | ->] & Hr) He].
  - vm_compute in Hr. discriminate Hr.
  - split; [exact Hr|]. apply (He (lit "...a" ++ [13] ++ lit ".." ++ [10] ++ lit "QUIT" ++ [13; 10])); [by vm_compute| |done].
    right. by exists (lit "...a" ++ [13] ++ lit ".." ++ [10] ++ lit "QUIT" ++ [13]), 10.
Defined.

Section Sample.
#[local] Existing Instances Samples.unicode Samples.upper Samples.logarithm Samples.crates.
Definition sample_relay : Inner :=
  mkInner (mkSmtp (lit "mail") (lit ":25") (mkUpstream (lit "smtp.example.com") 465 true [] []) [] [] [lit "a@b.c"] [] [lit "example.com"] 100 1 [] [] 60 [])
    (lit "user") (lit "pass") (30, 60) (20, 3600).
Definition sample_env : Env Settings :=
  mkEnv Settings (fun _ => Arrives) (fun _ => None)
    (fun _ => Ok [lit "220 hi" ++ [13]; [10] ++ lit "250-a" ++ [13; 10] ++ lit "250 b" ++ [13; 10] ++ lit "235 in" ++ [13; 10];
                  lit "250 s" ++ [13; 10] ++ lit "250 r" ++ [13; 10] ++ lit "354 go" ++ [13; 10] ++ lit "250 done" ++ [13; 10] ++ lit "221 bye" ++ [10]])
    (fun _ => Arrives) (fun _ => None) Z.of_nat (fun _ => mkSettings true []) (fun _ => None) (fun _ l => l).
Definition sample_world (lines : list string) : World :=
  mkWorld 0 (new_reader (map (fun l => lit l ++ [13; 10]) lines)) None (new_limiter 1 60) [].
Definition sample_lines : list string :=
  ["EHLO me"; "MAIL FROM:<x@y.z>"; "MAIL FROM:<A@b.c>"; "RCPT TO:<r@evil.org>"; "RCPT TO:<r@mail.example.com>"; "RCPT TO:<s@example.com>";
   "DATA"; ".hi"; "."; "QUIT"]%string.
(** What the address checks do not look at: a bare CR, which the address keeps. For an
    upstream that ends lines there the line is two commands, and the first names a
    recipient the allowlist does not hold. *)
Lemma bare_cr_address : let r := lit "e@evil.org" ++ [13] ++ lit "NOOP @example.com" in
  extract_address (lit "<" ++ r ++ lit ">") = Some r /\ recipient_permitted sample_relay r
  /\ rcpt_line r = lit "RCPT TO:<e@evil.org" ++ [13] ++ lit "NOOP @example.com>" ++ [13; 10].
Proof.
  intros r. split; [by vm_compute|]. split; [|by vm_compute]. split_and!; [done| |by vm_compute]. by apply (bool_decide_unpack (10 ∉ r)); vm_compute.
Qed.
Lemma session_permitted_witness :
  up (sample_world sample_lines) = None
  /\ exists w' r new, handle_client sample_env sample_relay true (sample_world sample_lines) = Some (w', r)
    /\ new = opening sample_relay ++ message (lit "A@b.c") [lit "r@mail.example.com"] (lit ".hi" ++ [13; 10]) ++ [crlf_line (lit "QUIT")]
    /\ turns sample_env sample_relay new.
Proof.
  split; [reflexivity|]. destruct (session_permitted sample_env sample_relay true (sample_world sample_lines) eq_refl) as (w' & r & new & E & Hs & Ht & _).
  exists w', r, new. split_and!; [exact E| |exact Ht]. vm_compute in E. injection E as <- <-. cbn [sent log] in Hs. vm_compute in Hs. subst new. by vm_compute.
Defined.
End Sample.
